(* ===== verification/_CoqProject ===== *)
-Q . S2P
Prelude.v
PyVal.v
Sql.v
Shape.v
OpBase.v
OpCore.v
OpPg.v
OpLaws.v
Registry.v
SqlBuilder.v
FieldCondition.v
FieldLaws.v
Grouping.v
Reading.v
WhereClause.v
Casing.v
Views.v
Normalize.v
NormalizeLaws.v
Meaning.v
ValueFree.v
ViewLaws.v
RateLimiter.v
Dates.v
PartialPeriod.v
PeriodFilter.v
Tokens.v
Turbo.v
Regex.v
RegexLaws.v
Scalars.v
Checksums.v
ScalarLaws.v
ChecksumLaws.v
Cursor.v
Pagination.v
PageStore.v
PageLaws.v
QueryLimits.v
QueryLaws.v
TokenRevocation.v
Apq.v
CompactJson.v
ApqLaws.v
OrderBy.v
OrderText.v
Inputs.v
Filters.v
WhereInput.v
FindQuery.v
UnionQuery.v
FindLaws.v
UnionLaws.v
OrderLaws.v
GroupLaws.v
Authorization.v
AuthorizationLaws.v
InputLaws.v
ResultCache.v
CacheLaws.v
WhereInputLaws.v
WhereObjectLaws.v
Subscriptions.v
SubscriptionLaws.v
Selections.v
MutationSelections.v
MultiField.v
SelectionLaws.v
FieldResolvers.v
DataLoader.v
Loaders.v
NestedFilters.v
NestedFilterLaws.v
Csrf.v
RequestLimits.v
BodyLimits.v
Roles.v
WeightedTurbo.v
AuditLog.v
