(* ===== verification/Prelude.v ===== *)
(** * FraiseQL: a verification library

    FraiseQL is a GraphQL framework over PostgreSQL: a resolver receives a filter as
    a nested dictionary, the library normalises it against what was registered for
    the view, renders it as SQL with parameters, and runs the query.  This library
    models the parts of the Python code (under [src/src/fraiseql]) that decide what
    is asked of the database, who may ask it and what is kept of the answer, and
    proves what makes them correct.

    ** The program's parts and the files that model them

    A filter goes through these parts, in this order:

    - [Filters], [WhereInput] ([sql/graphql_where_generator.py]): the input classes a
      schema offers for a type, and their objects as dictionaries.
    - [Views] ([db.py]: [register_type_for_view] and the validation of mappings):
      the two global registries, from a view's name to its type and to its metadata,
      as one state that registration reads and extends or refuses to.
    - [Casing] ([utils/casing.py]): camel case to snake case and back, for names and
      for the keys of nested data.
    - [Normalize] ([where_normalization.py], and in [db.py] [_normalize_where] and
      [_apply_view_column_mapping]): the dictionary to a [where_clause], the column
      mapping and the declared types applied to the tree.
    - [FieldCondition], [WhereClause] ([where_clause.py]): the operator tables, the
      validated condition and tree, and [to_sql] of both.
    - [SqlBuilder] ([sql/where/core/sql_builder.py], in part): JSONB paths and
      hierarchy subqueries.
    - [OpBase], [OpCore], [OpPg], [Registry] ([sql/operators]): the operator
      strategies behind one interface, one record of functions per class, and the
      registry that routes an operator to the last strategy registered for it.
    - [FindQuery] ([db.py]): the statements of [find], [find_one] and the read helpers,
      with the filters that always apply, grouping, order and bounds;
      [OrderBy], [OrderText] ([sql/order_by_generator.py],
      [sql/graphql_order_by_generator.py] and the texts of [db.py]): sort keys.
    - [Pagination], [Cursor], [PageStore] ([cqrs/pagination.py]): the statement and the
      page of a cursor paginator, the text of a cursor, and what PostgreSQL documents
      of such statements.
    - [Dates], [PartialPeriod], [PeriodFilter] ([partial_period.py], and in [db.py]
      the cut points of [_build_partial_period_union_query]): the calendar, the
      periods of a grain, the intervals of a union of views, and the bounds taken
      out of a clause.

    A request goes through these:

    - [Apq], [CompactJson] ([storage/apq_store.py], [middleware/apq_caching.py],
      [fastapi/routers.py]): automatic persisted queries and their response cache, and
      the JSON text its keys are made of; [Turbo] ([fastapi/turbo.py]): the registry of
      persisted queries with eviction; [WeightedTurbo] ([fastapi/turbo_enhanced.py]): the
      registry that weighs them.
    - [QueryLimits] ([gql/query_limits.py]): depth and complexity of a document.
    - [Selections], [MutationSelections], [MultiField] ([core/fragment_resolver.py],
      [core/ast_parser.py], [core/selection_tree.py], [mutations/mutation_decorator.py],
      [fastapi/routers.py]): what a query, a mutation and a request with several root
      fields select; [FieldResolvers] ([core/field_resolvers.py]): whether a query
      selects a field that has a resolver of its own; [NestedFilters]
      ([core/nested_field_resolver.py]): nested fields read by their key, and the
      filters of nested arrays.
    - [DataLoader], [Loaders] ([optimization]): loads that wait for a batch, as a step
      relation over the events of one loop, and the loaders of rows.
    - [Authorization] ([security/authorization.py], [security/decision_cache.py],
      [security/field_auth.py]): decisions on operations and fields, their cache, and
      the filters they leave for the repository.
    - [Inputs] ([types/coercion.py], [types/constructor.py],
      [mutations/sql_generator.py], [mutations/rust_executor.py]): input objects and
      the call of a mutation's function.
    - [ResultCache] ([caching]): cached reads of the repository, their keys, their
      table and what a write forgets.
    - [Subscriptions] ([subscriptions/websocket.py]): a WebSocket connection with the
      tasks of its subscriptions, as a step relation over the events of one loop.

    These parts stand beside them:

    - [Csrf] ([security/csrf_protection.py]): tokens against forged requests and what
      has to carry one; [RequestLimits] ([security/rate_limiting.py],
      [security/client_ip.py]): the limits of clients, and the address of a client;
      [BodyLimits] ([middleware/body_size_limiter.py]): the sizes of bodies.
    - [Roles] ([enterprise/rbac]): inherited roles, the permissions of a user, and their
      cache in two layers with versions, with runs of requests and changes as a step
      relation; [AuditLog] ([enterprise/audit/event_logger.py]): events, their batch and
      the transactions that write it, as a step relation.
    - [RateLimiter] ([middleware/rate_limiter.py]): the in-memory limiter and the
      middleware, with runs as a step relation.
    - [Tokens] ([auth/native/tokens.py], [router.py], [provider.py]): access and
      refresh tokens, rotation, reuse and logout over the two tables, with
      concurrent refreshes as a step relation; [TokenRevocation]
      ([auth/token_revocation.py]): the service over two stores.
    - [Regex] (Python's [re], as far as it is used), [Scalars], [Checksums]
      ([types/scalars]): the text scalars with the patterns of their modules.

    Shared by all: this file (errors, dictionaries in insertion order, strings, the
    scope [py_scope]), [PyVal] (values and the language's operations on them), and
    [Sql], [Shape] (composed SQL and what is said about it).  A file whose name ends in
    [Laws] holds the theorems of the part it is named after; [Grouping], [Reading],
    [Meaning] and [ValueFree] hold those of the tree of conditions and of
    normalisation.  The other files have their theorems at their ends.

    ** How the code is modelled

    A function that may raise is a function into [result]; of an exception only the
    class is kept.  Objects that change (the registries, the deques, the tables, the
    caches) are records passed from call to call; the code's own names are kept.  A
    call under a lock is one step; where the code awaits between reading and writing,
    the steps are apart ([Tokens.refresh_step], and the events of [Subscriptions],
    [DataLoader], [Roles] and [AuditLog], each of which is what one coroutine does between
    two of its awaits; the statements of one computation of permissions see one state of
    the tables).  SQL is
    [composable], the tree psycopg's classes build: fixed text, identifiers, literals
    and parameter marks are different constructors, so that where a value goes can be
    stated.  What psycopg renders from an identifier or a literal, the [jwt] library,
    SHA-256 and MD5, graphql-core's parser and the application's authorizer are
    parameters, with their documented laws as classes ([Psycopg], [JwtLaws]) or as
    hypotheses; each has a concrete instance in a witness.  A GraphQL schema and the
    classes of a program, which the code reads by reflection, are tables.
    Interfaces between parts are classes as well: [StrategyLaws] is what a strategy
    promises the registry, the store of revoked tokens what it promises the service,
    and the clients' theorems use nothing else.

    ** What is proved

    - The tree is what is asked: the rendered text, read with PostgreSQL's
      precedence, is the tree ([to_sql_reading]); as many parameters as marks
      ([to_sql_params_fit]); every read of the repository keeps the filters that always
      apply ([reads_keep_the_mandatory_filters]), and groups hold each entry
      ([nested_object_holds_each_entry]).
    - No injection: texts depend on the shape of the values only, for a filter from
      end to end ([filter_values_stay_parameters]); a registered view is asked for its
      own columns ([filter_reads_its_view]); sort keys write fixed texts
      ([sort_keys_write_fixed_texts]) and are read back ([order_text_roundtrip]).
    - Normalisation resolves every condition and keeps the meaning of a dictionary
      ([normalize_dict_where_resolves], [normalize_dict_where_meaning]); every type gets
      a where input ([every_type_gets_a_where_input]), clean filters and the objects of
      where inputs are answered by what they say ([clean_filters_are_answered],
      [where_objects_are_answered]); names of keys come back ([keys_roundtrip]).  The
      elements of a nested array pass a filter as the rows of a view do
      ([elements_are_filtered_as_rows]), and no operator is passed over
      ([unknown_operators_are_refused]).
    - Pages: walking from cursor to cursor gets every row once and ends
      ([walk_gets_every_row_once]).  Periods: the union reads each day once
      ([union_reads_each_day_once]).
    - Authorization: only authorized rows are read ([authorized_rows_only]); cached
      answers are the authorizer's ([cached_answers_are_the_authorizers]), and what is
      served was decided ([served_by_a_decision]).
    - Inputs have the type of their class ([coerced_inputs_inhabit_their_class]) and a
      mutation sends what was sent ([mutation_sends_what_was_sent]).
    - Selections: the document of a mutation, the flat paths of rows and the merged
      paths of a request with several root fields hold what GraphQL collects
      ([mutation_asks_for_what_is_selected], [rows_hold_what_is_selected],
      [merged_rows_keep_what_is_selected]); the types that lead to a field resolver are
      found ([reaching_is_what_leads_to_a_resolver]) and none is passed over
      ([no_field_resolver_is_passed_over]).
    - Batches: loading many keys is a lookup that asks for each missing key once
      ([load_many_is_a_lookup]), every load is answered ([every_load_is_answered]) with
      a value of its own key ([values_are_of_their_key]), and the loaders of rows put
      the rows at their keys ([batch_of_rows]).
    - Forged requests: no mutation passes without a token
      ([no_mutation_without_a_token]), and a token is good for its session and its time
      only ([a_token_is_of_its_session]).
    - Limits: an admitted document has bounded responses
      ([admitted_responses_are_bounded]); the rate limiter decides by the window of
      admitted requests ([check_decides_by_history]), fixed windows bound a client
      ([windows_bound_a_client]), Redis counts as memory does when nobody comes between
      ([redis_counts_as_memory]), and nobody chooses the address that is counted
      ([forged_hops_do_not_count]); no body is longer than its limit
      ([bodies_are_bounded]).
    - Roles: permissions are those of the assigned roles and of the roles above them
      ([permissions_are_inherited]); cached ones were computed for the same user and
      tenant not long ago ([answers_were_computed]), and are current where versions move
      in time ([versions_keep_answers_current]).  Audit: no event of a batch is lost but
      for those logged in the moment after a loop ([batched_events_are_kept]), and a flush
      writes the batch ([a_flush_writes_the_batch]).
    - Caches: a cached read answers as an earlier one did, a failing cache is not seen
      ([cached_reads_answer_as_before], [a_failing_cache_is_not_seen]); stored responses
      keep callers apart ([cached_responses_keep_callers_apart]); a persisted query runs
      under its hash ([persisted_queries_run_under_their_hash]), and the registry of
      [Turbo] keeps the last ones used ([turbo_registry_is_lru]), the one with weights
      as many and as heavy ones as it may ([weights_stay_bounded]).
    - Tokens: a refresh token is exchanged once, whatever interleaves
      ([refresh_exchanges_once]); both stores of revoked tokens keep their promise
      ([stores_keep_promise]).
    - Subscriptions: one stream per id ([one_stream_per_id]), nothing from a finished
      one ([a_finished_stream_is_silent]), and a connection can always be left
      ([every_connection_can_be_left]).
    - Scalars: accepted texts come back ([scalars_roundtrip]); check digits catch the
      errors they are made for ([iban_catches_errors]).

    Where the code does less than it means to, a theorem or an example shows on what
    input; these stand beside the theorem they limit.

    ** Bounds and fuel

    Integers are Python's, hence [Z].  Recursion that is not structural takes fuel:

    - [normalize_dict_where] and the generation of where inputs: the interpreter's
      recursion limit; fuel above the size of the dictionary, or above the number of
      classes, is never used up and changes nothing.  The filters of nested arrays have
      the same limit, enough when it is above the size of the filter.
    - The walks of [Selections], [MutationSelections], [MultiField] and
      [FieldResolvers]: the same limit, and enough when it is above the depth of the
      document with its fragments written out ([fits]); the rounds that find the types
      with field resolvers are one more than the types.
    - [QueryLimits]: one more than the number of fragments, since a fragment under
      measurement is not entered again.
    - [Regex]: the parser of a pattern three times its length and two, the matcher the
      length of the text; [OrderText]: one more than the length of the text;
      [Reading.read]: the length of the text ([read_fuel]).
    - The walk of a client through pages: one more than the number of rows.
    - [PyVal.strip_zeros]: the number of bits, more than the zeros it removes.

    ** What is not modelled

    The Rust pipeline (another language); what runs statements: connections,
    transactions, the CQRS executor; FastAPI's glue and the command line; schema and
    type generation by reflection, introspection, incremental views and tracing;
    logging, warnings and statistics.  Of the parts above: the PostgreSQL backends of
    the limiter and of persisted queries, the SQL text of a partial-period branch, user
    accounts and passwords, [TurboRouter], the mutation decorator's processing of
    results, the decorators of subscriptions (caching, filters, complexity, lifecycle)
    and [remove_connection], locations and masking of errors in requests with several
    root fields, and the hooks, docstrings and caches that are built by reflection.
    Key stores, the triggers that chain and sign audit events, the mutations on roles and
    row-level security are the database's part or services around it.  Beyond the parts
    above, what remains is mostly reflection and glue: field detection for filters, the
    SELECT lists of the older translator, the scalars over [ipaddress], [datetime] and
    [uuid].  Strings are 8-bit characters and case is that of ASCII; floats are exact
    decimals. *)
From stdpp Require Import base decidable strings list pretty.
From Stdlib Require Import ZArith Lia.

(** ** Exceptions and the error monad

    A Python function that can raise is a function into [result].  Only the
    class of an exception is kept, not its message. *)
Inductive exn :=
| ValueError
| TypeError
| KeyError
| IndexError
| AttributeError
| RuntimeError
| NameError
| OverflowError
| RecursionError
| GraphQLError
| WhereClauseError.

#[export] Instance exn_eq_dec : EqDecision exn.
Proof. solve_decision. Defined.

Inductive result (A : Type) :=
| Ok (a : A)
| Err (e : exn).
Arguments Ok {_} _.
Arguments Err {_} _.

#[export] Instance result_ret : MRet result := @Ok.
#[export] Instance result_bind : MBind result := λ A B f m,
  match m with Ok a => f a | Err e => Err e end.
#[export] Instance result_fmap : FMap result := λ A B f m,
  match m with Ok a => Ok (f a) | Err e => Err e end.

Definition is_Ok {A} (m : result A) : Prop := ∃ a, m = Ok a.

#[export] Instance is_Ok_dec {A} (m : result A) : Decision (is_Ok m).
Proof.
  destruct m as [a|e]; [left; by exists a | right; by intros [a H]].
Defined.

Declare Scope py_scope.
Delimit Scope py_scope with py.

(** [raise e] is the statement [raise E(...)]. *)
Notation "'raise' e" := (Err e) (at level 10, only parsing) : py_scope.

(** Inversion of a successful sequence of calls. *)
Lemma bind_Ok {A B} (m : result A) (f : A → result B) b :
  m ≫= f = Ok b ↔ ∃ a, m = Ok a ∧ f a = Ok b.
Proof. destruct m; cbn; split; [eauto | by intros (? & [= <-] & ?) | done | by intros (? & ? & ?)]. Qed.

Lemma bind_Err {A B} (m : result A) (f : A → result B) e :
  m ≫= f = Err e → m = Err e ∨ ∃ a, m = Ok a ∧ f a = Err e.
Proof. destruct m; cbn; [eauto | intros [= ->]; by left]. Qed.

Lemma fmap_Ok {A B} (m : result A) (f : A → B) b :
  f <$> m = Ok b ↔ ∃ a, m = Ok a ∧ f a = b.
Proof.
  destruct m; cbn; split;
    [intros [= <-]; eauto | by intros (? & [= <-] & <-) | done | by intros (? & ? & ?)].
Qed.

(** The loop [for x in l: ys.append(f(x))] when [f] can raise. *)
Section map_result.
Context {A B : Type} (f : A → result B).

Fixpoint mapR (l : list A) : result (list B) :=
  match l with
  | [] => Ok []
  | x :: l' => y ← f x; ys ← mapR l'; Ok (y :: ys)
  end.

Lemma mapR_Ok l ys : mapR l = Ok ys ↔ Forall2 (λ x y, f x = Ok y) l ys.
Proof.
  revert ys. induction l as [|x l IH]; intros ys; cbn.
  - split; [intros [= <-]; constructor | by inversion 1].
  - rewrite bind_Ok. split.
    + intros (y & Hy & (zs & Hzs & [= <-])%bind_Ok).
      constructor; [done | by apply IH].
    + inversion 1 as [|? y ? zs Hy Hzs]; subst.
      exists y. split; [done|]. apply bind_Ok. exists zs.
      split; [by apply IH | done].
Qed.

Lemma mapR_length l ys : mapR l = Ok ys → length ys = length l.
Proof. intros ->%mapR_Ok%Forall2_length. done. Qed.

Lemma mapR_total l : Forall (λ x, is_Ok (f x)) l → ∃ ys, mapR l = Ok ys.
Proof.
  induction 1 as [|x l [y Hy] _ [ys IH]]; [by exists []|].
  exists (y :: ys). cbn. by rewrite Hy, IH.
Qed.
End map_result.

(** A loop that extends one list by what each call returns. *)
Definition concat_mapR {A B} (f : A → result (list B)) (l : list A) : result (list B) :=
  @concat B <$> mapR f l.

(** ** Tactics *)

(** Break a hypothesis that says a computation returned [Ok]. *)
Ltac inv_ok :=
  repeat match goal with
  | H : _ ≫= _ = Ok _ |- _ => apply bind_Ok in H as (? & ? & H)
  | H : _ <$> _ = Ok _ |- _ => apply fmap_Ok in H as (? & ? & H)
  | H : Ok _ = Ok _ |- _ => injection H as H; try subst
  | H : Err _ = Ok _ |- _ => discriminate H
  | H : mret _ = Ok _ |- _ => injection H as H; try subst
  | H : (_, _) = (_, _) |- _ => injection H as H; try subst
  end.

(** Case analysis on every [match] and [if] of a hypothesis, dropping the
    branches that raise. *)
Ltac case_ok H :=
  repeat match type of H with
  | context [match ?x with _ => _ end] => destruct x eqn:?; try discriminate H
  end.

Create HintDb py.
Create Rewrite HintDb py.

(** ** Texts one after the other *)

Lemma app_nil_l_str (s : string) : (EmptyString +:+ s)%stdpp = s.
Proof. done. Qed.

Lemma app_cons_str c (s t : string) : (String c s +:+ t)%stdpp = String c (s +:+ t)%stdpp.
Proof. done. Qed.

Lemma app_nil_r_str (s : string) : (s +:+ EmptyString)%stdpp = s.
Proof. induction s as [|c s IH]; [done|]. by rewrite app_cons_str, IH. Qed.

Lemma app_assoc_str (s t u : string) : ((s +:+ t) +:+ u)%stdpp = (s +:+ (t +:+ u))%stdpp.
Proof. induction s as [|c s IH]; [done|]. by rewrite !app_cons_str, IH. Qed.

Lemma length_app_str (s t : string) :
  String.length (s +:+ t)%stdpp = (String.length s + String.length t)%nat.
Proof. induction s as [|c s IH]; [done|]. rewrite app_cons_str. cbn. by rewrite IH. Qed.

(** [o is not None] *)
Definition is_some {A} (o : option A) : bool := match o with Some _ => true | None => false end.

(** ** Lists of disjoint keys: Python dictionaries in insertion order *)
Section assoc.
Context {V : Type}.
Implicit Types d : list (string * V).

Fixpoint dict_get (k : string) (d : list (string * V)) : option V :=
  match d with
  | [] => None
  | (k', v) :: d' => if decide (k = k') then Some v else dict_get k d'
  end.

Definition dict_has (k : string) d : bool :=
  match dict_get k d with Some _ => true | None => false end.

(** [d[k] = v]: replaces in place, appends a new key. *)
Fixpoint dict_set (k : string) (v : V) (d : list (string * V)) : list (string * V) :=
  match d with
  | [] => [(k, v)]
  | (k', v') :: d' =>
      if decide (k = k') then (k', v) :: d' else (k', v') :: dict_set k v d'
  end.

Definition dict_keys d : list string := d.*1.

Lemma dict_get_set_eq k v d : dict_get k (dict_set k v d) = Some v.
Proof.
  induction d as [|[k' v'] d IH]; cbn; [by rewrite decide_True|].
  case_decide as Hk; cbn; [by rewrite decide_True | by rewrite decide_False].
Qed.

Lemma dict_get_set_ne k k' v d : k ≠ k' → dict_get k' (dict_set k v d) = dict_get k' d.
Proof.
  intros Hne. induction d as [|[k'' v''] d IH]; cbn.
  - by rewrite decide_False.
  - case_decide as Hk; cbn; subst; repeat case_decide; naive_solver.
Qed.

(** Setting new keys one after the other appends them. *)
Lemma dict_set_new k v d : k ∉ dict_keys d → dict_set k v d = d ++ [(k, v)].
Proof.
  induction d as [|[k' v'] d IH]; [done|]. unfold dict_keys. cbn. intros H.
  rewrite decide_False by (intros ->; apply H; left).
  f_equal. apply IH. intros Hin. apply H. by right.
Qed.

Lemma dict_set_all d e :
  NoDup (dict_keys (d ++ e)) → foldl (λ d kv, dict_set kv.1 kv.2 d) d e = d ++ e.
Proof.
  revert d. induction e as [|[k v] e IH]; intros d H; cbn; [by rewrite app_nil_r|].
  rewrite dict_set_new.
  - rewrite IH; rewrite <- app_assoc; done.
  - unfold dict_keys in *. rewrite fmap_app in H. apply NoDup_app in H as (_ & H & _).
    intros Hk. apply (H _ Hk). left.
Qed.

Lemma dict_has_In k d : dict_has k d = true ↔ k ∈ dict_keys d.
Proof.
  unfold dict_has. induction d as [|[k' v'] d IH]; cbn.
  - split; [done | by inversion 1].
  - rewrite elem_of_cons. case_decide; naive_solver.
Qed.

Lemma dict_get_elem k v d : dict_get k d = Some v → (k, v) ∈ d.
Proof.
  induction d as [|[k' v'] d IH]; cbn; [done|]. case_decide as E; [intros [= ->]; subst; left|].
  intros Hd. right. by apply IH.
Qed.

Lemma dict_set_elem k v d x : x ∈ dict_set k v d → x = (k, v) ∨ x ∈ d.
Proof.
  induction d as [|[k' v'] d IH]; cbn; [by intros ?%list_elem_of_singleton; left|].
  case_decide as E; [subst; by intros [->|Hx]%elem_of_cons; [left|right; right]|].
  intros [->|Hx]%elem_of_cons; [right; left|]. destruct (IH Hx); [by left|by right; right].
Qed.
End assoc.

#[export] Hint Rewrite @dict_get_set_eq : py.

(** [x in (a, b, ...)] on strings. *)
Definition str_in (s : string) (l : list string) : bool := bool_decide (s ∈ l).

Lemma str_in_true s l : str_in s l = true ↔ s ∈ l.
Proof. apply bool_decide_eq_true. Qed.
