(* ===== verification/PyVal.v ===== *)
(** * Python values and the operations of the language the program uses

    Strings are sequences of 8-bit characters; case mapping acts on the ASCII
    letters.  A float is the exact decimal that its [repr] shows (or an infinity
    or a NaN), so conversions are exact and no IEEE rounding is modelled;
    negative zero is identified with zero.  A [Decimal] keeps its coefficient and exponent. *)
From stdpp Require Import base decidable strings list pretty.
From Stdlib Require Import ZArith Lia Ascii.
From S2P Require Import Prelude.

(** ** Characters and strings *)
Module Str.
Local Open Scope Z_scope.

Definition eqb (a b : string) : bool := bool_decide (a = b).

Definition code (c : ascii) : Z := Z.of_N (N_of_ascii c).
Definition chr (z : Z) : ascii := ascii_of_N (Z.to_N z).

Definition is_upper (c : ascii) : bool := (65 <=? code c) && (code c <=? 90).
Definition is_lower (c : ascii) : bool := (97 <=? code c) && (code c <=? 122).
Definition is_digit (c : ascii) : bool := (48 <=? code c) && (code c <=? 57).
Definition is_alpha (c : ascii) : bool := is_upper c || is_lower c.
Definition is_hex (c : ascii) : bool :=
  is_digit c || ((65 <=? code c) && (code c <=? 70)) || ((97 <=? code c) && (code c <=? 102)).
(** The ASCII white space [str.strip()] removes. *)
Definition is_space (c : ascii) : bool :=
  (code c =? 32) || ((9 <=? code c) && (code c <=? 13)) || ((28 <=? code c) && (code c <=? 31)).
Definition digit (c : ascii) : Z := code c - 48.

Definition lower_ascii (c : ascii) : ascii := if is_upper c then chr (code c + 32) else c.
Definition upper_ascii (c : ascii) : ascii := if is_lower c then chr (code c - 32) else c.

Fixpoint map (f : ascii → ascii) (s : string) : string :=
  match s with
  | EmptyString => EmptyString
  | String c s' => String (f c) (map f s')
  end.

Definition lower : string → string := map lower_ascii.
Definition upper : string → string := map upper_ascii.

Fixpoint forallb (p : ascii → bool) (s : string) : bool :=
  match s with
  | EmptyString => true
  | String c s' => p c && forallb p s'
  end.

Definition existsb (p : ascii → bool) (s : string) : bool := negb (forallb (λ c, negb (p c)) s).

(** [c in s] for a one-character string [c]. *)
Definition has_char (c : ascii) (s : string) : bool := existsb (Ascii.eqb c) s.

Fixpoint starts_with (p s : string) : bool :=
  match p, s with
  | EmptyString, _ => true
  | String a p', String b s' => Ascii.eqb a b && starts_with p' s'
  | String _ _, EmptyString => false
  end.

Fixpoint ends_with (p s : string) : bool :=
  eqb p s ||
  match s with
  | EmptyString => false
  | String _ s' => ends_with p s'
  end.

(** [s.removesuffix(p)] *)
Fixpoint remove_suffix (p s : string) : string :=
  if eqb p s then EmptyString
  else match s with
       | EmptyString => EmptyString
       | String c s' => String c (remove_suffix p s')
       end.

(** [s[n:]] *)
Fixpoint drop (n : nat) (s : string) : string :=
  match n, s with
  | O, _ => s
  | S n', String _ s' => drop n' s'
  | S _, EmptyString => EmptyString
  end.

(** [s[:n]] *)
Fixpoint take (n : nat) (s : string) : string :=
  match n, s with
  | O, _ => EmptyString
  | S n', String c s' => String c (take n' s')
  | S _, EmptyString => EmptyString
  end.

(** [sub in s] *)
Fixpoint has_sub (sub s : string) : bool :=
  starts_with sub s ||
  match s with
  | EmptyString => false
  | String _ s' => has_sub sub s'
  end.

(** [s.split(c)] for a one-character separator. *)
Fixpoint split (c : ascii) (s : string) : list string :=
  match s with
  | EmptyString => [EmptyString]
  | String a s' =>
      if Ascii.eqb a c then EmptyString :: split c s'
      else match split c s' with
           | w :: ws => String a w :: ws
           | [] => [String a EmptyString]
           end
  end.

(** [s.split(c, 1)] when [c] is in [s]: what is before and after the first [c]. *)
Fixpoint split1 (c : ascii) (s : string) : option (string * string) :=
  match s with
  | EmptyString => None
  | String a s' =>
      if Ascii.eqb a c then Some (EmptyString, s')
      else match split1 c s' with
           | Some (x, y) => Some (String a x, y)
           | None => None
           end
  end.

(** [s.rpartition(sep)] when [sep] is in [s]: around its last occurrence. *)
Fixpoint rpartition (sep s : string) : option (string * string) :=
  match s with
  | EmptyString => None
  | String a s' =>
      match rpartition sep s' with
      | Some (x, y) => Some (String a x, y)
      | None =>
          if starts_with sep s then Some (EmptyString, drop (String.length sep) s) else None
      end
  end.

(** [sep.join(l)] *)
Definition join (sep : string) (l : list string) : string := String.concat sep l.

(** [s.replace(c, '')] *)
Fixpoint remove_char (c : ascii) (s : string) : string :=
  match s with
  | EmptyString => EmptyString
  | String a s' => if Ascii.eqb a c then remove_char c s' else String a (remove_char c s')
  end.

(** [s.replace(sub, '')]; [skip] characters of a match are still to pass. *)
Fixpoint remove_all (skip : nat) (sub s : string) : string :=
  match s with
  | EmptyString => EmptyString
  | String c s' =>
      match skip with
      | S k => remove_all k sub s'
      | O =>
          if starts_with sub s then remove_all (pred (String.length sub)) sub s'
          else String c (remove_all 0 sub s')
      end
  end.

(** [s < t]: the order of the code points. *)
Fixpoint ltb (s t : string) : bool :=
  match s, t with
  | _, EmptyString => false
  | EmptyString, String _ _ => true
  | String a s', String b t' => (code a <? code b) || (Ascii.eqb a b && ltb s' t')
  end.

(** [sorted(set(l))] *)
Fixpoint insert_sorted (x : string) (l : list string) : list string :=
  match l with
  | [] => [x]
  | y :: l' => if eqb x y then l else if ltb x y then x :: l else y :: insert_sorted x l'
  end.

Definition sorted_set (l : list string) : list string := foldr insert_sorted [] l.

Fixpoint lstrip (s : string) : string :=
  match s with
  | String c s' => if is_space c then lstrip s' else s
  | EmptyString => EmptyString
  end.

Fixpoint rstrip (s : string) : string :=
  match s with
  | EmptyString => EmptyString
  | String c s' =>
      match rstrip s' with
      | EmptyString => if is_space c then EmptyString else String c EmptyString
      | t => String c t
      end
  end.

(** [s.strip()] *)
Definition strip (s : string) : string := rstrip (lstrip s).

Definition nonempty (s : string) : bool := match s with EmptyString => false | _ => true end.
End Str.

(** ** Numbers *)
Module Num.
Local Open Scope Z_scope.

(** A float, as the decimal [m * 10^e] that [repr] shows: [m] is not a multiple
    of ten, and [FFin 0 0] is zero. *)
Inductive pyfloat :=
| FFin (m e : Z)
| FInf (neg : bool)
| FNan.

Fixpoint strip_zeros (fuel : nat) (m e : Z) : pyfloat :=
  if m =? 0 then FFin 0 0
  else match fuel with
       | S fuel' => if m mod 10 =? 0 then strip_zeros fuel' (m / 10) (e + 1) else FFin m e
       | O => FFin m e
       end.

(** [m * 10^e] as a float: a number has fewer trailing zeros than bits. *)
Definition mk_float (m e : Z) : pyfloat := strip_zeros (S (Z.to_nat (Z.log2 (Z.abs m)))) m e.

Definition float_is_zero (f : pyfloat) : bool :=
  match f with FFin m _ => m =? 0 | _ => false end.

(** [a <= b]; every comparison with a NaN is false. *)
Definition float_leb (a b : pyfloat) : bool :=
  match a, b with
  | FNan, _ | _, FNan => false
  | FInf true, _ | _, FInf false => true
  | FInf false, _ | _, FInf true => false
  | FFin m e, FFin m' e' =>
      let lo := Z.min e e' in m * 10 ^ (e - lo) <=? m' * 10 ^ (e' - lo)
  end.

Definition float_ltb (a b : pyfloat) : bool :=
  float_leb a b && negb (float_leb b a).

(** [int(f)]: truncation towards zero. *)
Definition float_to_int (f : pyfloat) : result Z :=
  match f with
  | FFin m e => Ok (if 0 <=? e then m * 10 ^ e else Z.quot m (10 ^ (- e)))
  | FInf _ => Err OverflowError
  | FNan => Err ValueError
  end.

Definition string_of_Z (z : Z) : string := pretty z.

Fixpoint zeros (n : nat) : string :=
  match n with O => EmptyString | S n' => String "0" (zeros n') end.

(** Digits [d] with a point after the first [k] of them, both sides padded. *)
Definition with_point (d : string) (k : Z) : string :=
  let n := Z.of_nat (String.length d) in
  if k <=? 0 then ("0." +:+ zeros (Z.to_nat (- k)) +:+ d)%stdpp
  else if k <? n then (Str.take (Z.to_nat k) d +:+ "." +:+ Str.drop (Z.to_nat k) d)%stdpp
  else (d +:+ zeros (Z.to_nat (k - n)))%stdpp.

(** A one-digit mantissa, and an exponent of at least [w] digits. *)
Definition scientific (d mark : string) (exp : Z) (w : nat) : string :=
  let ed := string_of_Z (Z.abs exp) in
  let mant :=
    if Z.of_nat (String.length d) =? 1 then d
    else (Str.take 1 d +:+ "." +:+ Str.drop 1 d)%stdpp in
  (mant +:+ mark +:+ (if exp <? 0 then "-" else "+")
     +:+ zeros (w - String.length ed) +:+ ed)%stdpp.

(** [repr(f)] *)
Definition float_repr (f : pyfloat) : string :=
  match f with
  | FNan => "nan"
  | FInf neg => if neg then "-inf" else "inf"
  | FFin m e =>
      let d := string_of_Z (Z.abs m) in
      let n := Z.of_nat (String.length d) in
      let point := n + e in
      let body :=
        if (-4 <=? point - 1) && (point - 1 <? 16) then
          let s := with_point d point in
          if point <? n then s else (s +:+ ".0")%stdpp
        else scientific d "e" (point - 1) 2 in
      ((if m <? 0 then "-" else "") +:+ body)%stdpp
  end.

(** [str(Decimal)] for coefficient [m] and exponent [e]. *)
Definition decimal_str (m e : Z) : string :=
  let d := string_of_Z (Z.abs m) in
  let n := Z.of_nat (String.length d) in
  let adjusted := e + n - 1 in
  ((if m <? 0 then "-" else "") +:+
    (if (e <=? 0) && (-6 <=? adjusted) then
       if e =? 0 then d else with_point d (n + e)
     else scientific d "E" adjusted 1))%stdpp.

(** Decimal digits with single underscores between them: the number they
    write, how many there are, and the rest of the text. *)
Fixpoint digits (acc : Z) (n : nat) (s : string) : Z * nat * string :=
  match s with
  | EmptyString => (acc, n, s)
  | String c s' =>
      if Str.is_digit c then digits (acc * 10 + Str.digit c) (S n) s'
      else match n, c, s' with
           | S _, "_"%char, String c' _ => if Str.is_digit c' then digits acc n s' else (acc, n, s)
           | _, _, _ => (acc, n, s)
           end
  end.

Definition sign (s : string) : bool * string :=
  match s with
  | String "-" s' => (true, s')
  | String "+" s' => (false, s')
  | _ => (false, s)
  end.

Definition with_sign (neg : bool) (z : Z) : Z := if neg then - z else z.

(** [int(s)] *)
Definition int_of_string (s : string) : result Z :=
  let '(neg, s') := sign (Str.strip s) in
  match digits 0 0 s' with
  | (z, S _, EmptyString) => Ok (with_sign neg z)
  | _ => Err ValueError
  end.

(** The fraction and exponent after [i], the [ni] digits before the point. *)
Definition float_tail (neg : bool) (i : Z) (ni : nat) (s : string) : result pyfloat :=
  let '(m, nf, nall, s1) :=
    match s with
    | String "." s' => let '(f, nf, s1) := digits 0 0 s' in
                       (i * 10 ^ Z.of_nat nf + f, nf, (ni + nf)%nat, s1)
    | _ => (i, O, ni, s)
    end in
  match nall with
  | O => Err ValueError
  | S _ =>
      match Str.lower s1 with
      | EmptyString => Ok (mk_float (with_sign neg m) (- Z.of_nat nf))
      | String "e" s2 =>
          let '(eneg, s3) := sign s2 in
          match digits 0 0 s3 with
          | (x, S _, EmptyString) =>
              Ok (mk_float (with_sign neg m) (with_sign eneg x - Z.of_nat nf))
          | _ => Err ValueError
          end
      | _ => Err ValueError
      end
  end.

(** [float(s)] *)
Definition float_of_string (s : string) : result pyfloat :=
  let '(neg, s') := sign (Str.strip s) in
  if str_in (Str.lower s') ["inf"; "infinity"] then Ok (FInf neg)
  else if Str.eqb (Str.lower s') "nan" then Ok FNan
  else let '(i, ni, s1) := digits 0 0 s' in float_tail neg i ni s1.
End Num.

Example float_ex1 : Num.float_of_string " -12.50e2 " = Ok (Num.FFin (-125) 1).
Proof. vm_compute. reflexivity. Qed.
Example float_ex2 : Num.float_repr (Num.mk_float 1234500 (-4)) = "123.45".
Proof. vm_compute. reflexivity. Qed.
Example float_ex3 : Num.float_repr (Num.mk_float 15 (-7)) = "1.5e-06".
Proof. vm_compute. reflexivity. Qed.
Example float_ex4 : Num.float_repr (Num.mk_float 1 16) = "1e+16".
Proof. vm_compute. reflexivity. Qed.
Example float_ex5 : Num.float_repr (Num.mk_float 0 0) = "0.0".
Proof. vm_compute. reflexivity. Qed.
Example decimal_ex1 : Num.decimal_str 150 (-2) = "1.50".
Proof. vm_compute. reflexivity. Qed.
Example decimal_ex2 : Num.decimal_str 15 3 = "1.5E+4".
Proof. vm_compute. reflexivity. Qed.

(** ** Values, and the SQL fragments psycopg composes

    The two types are mutual: a [Literal] holds a value, and a value can be a
    fragment.  The fragments are the constructors of [psycopg.sql] the program
    calls, kept as the tree of calls; what psycopg renders from them is not
    defined here (see [Psycopg]).

    Dates, datetimes, UUIDs and other objects carry the texts [str] and [repr]
    give for them; an object also carries the attributes the program reads. *)
Inductive pyval :=
| PNone
| PBool (b : bool)
| PInt (z : Z)
| PFloat (f : Num.pyfloat)
| PDecimal (m e : Z)
| PStr (s : string)
| PDate (str repr : string)
| PDatetime (str repr : string)
| PUUID (s : string)
| PList (l : list pyval)
| PTuple (l : list pyval)
| PDict (d : list (string * pyval))
| PObj (repr : string) (attrs : list (string * pyval))
| PSql (c : composable)
with composable :=
(** [SQL(s)] *)
| SQL (s : string)
(** [Identifier(s)] *)
| Identifier (s : string)
(** [Literal(v)] *)
| Literal (v : pyval)
(** [Composed([...])] *)
| Composed (parts : list composable)
(** [SQL(sep).join([...])] *)
| Join (sep : string) (parts : list composable)
(** [SQL(template).format(...)], positional holes [{}] *)
| Format (template : string) (args : list composable)
(** [SQL(template).format(name=...)] *)
| FormatKw (template : string) (args : list (string * composable)).

(** Induction on values, through the items of lists and dictionaries. *)
Section pyval_ind.
Context (P : pyval → Prop).
Context (Hnone : P PNone) (Hbool : ∀ b, P (PBool b)) (Hint : ∀ z, P (PInt z))
  (Hfloat : ∀ f, P (PFloat f)) (Hdec : ∀ m e, P (PDecimal m e)) (Hstr : ∀ s, P (PStr s))
  (Hdate : ∀ s r, P (PDate s r)) (Hdt : ∀ s r, P (PDatetime s r)) (Huuid : ∀ s, P (PUUID s))
  (Hlist : ∀ l, Forall P l → P (PList l)) (Htuple : ∀ l, Forall P l → P (PTuple l))
  (Hdict : ∀ d : list (string * pyval), Forall (λ kv, P kv.2) d → P (PDict d))
  (Hobj : ∀ r (a : list (string * pyval)), Forall (λ kv, P kv.2) a → P (PObj r a))
  (Hsql : ∀ c, P (PSql c)).

Fixpoint pyval_ind' (v : pyval) : P v :=
  let all := fix all l : Forall P l :=
    match l with
    | [] => List.Forall_nil _
    | x :: l' => List.Forall_cons _ _ _ (pyval_ind' x) (all l')
    end in
  let pairs := fix pairs (d : list (string * pyval)) : Forall (λ kv, P kv.2) d :=
    match d with
    | [] => List.Forall_nil _
    | kv :: d' => List.Forall_cons _ _ _ (pyval_ind' kv.2) (pairs d')
    end in
  match v with
  | PNone => Hnone
  | PBool b => Hbool b
  | PInt z => Hint z
  | PFloat f => Hfloat f
  | PDecimal m e => Hdec m e
  | PStr s => Hstr s
  | PDate s r => Hdate s r
  | PDatetime s r => Hdt s r
  | PUUID s => Huuid s
  | PList l => Hlist l (all l)
  | PTuple l => Htuple l (all l)
  | PDict d => Hdict d (pairs d)
  | PObj r a => Hobj r a (pairs a)
  | PSql c => Hsql c
  end.
End pyval_ind.

Module Py.
Local Open Scope Z_scope.

Definition is_none (v : pyval) : bool := match v with PNone => true | _ => false end.
Definition is_bool (v : pyval) : bool := match v with PBool _ => true | _ => false end.
(** [isinstance(v, int)]: a bool is an int. *)
Definition is_int (v : pyval) : bool :=
  match v with PInt _ | PBool _ => true | _ => false end.
(** [isinstance(v, (int, float))] *)
Definition is_int_float (v : pyval) : bool :=
  match v with PInt _ | PBool _ | PFloat _ => true | _ => false end.
(** [isinstance(v, (int, float, Decimal))] *)
Definition is_int_float_decimal (v : pyval) : bool :=
  match v with PInt _ | PBool _ | PFloat _ | PDecimal _ _ => true | _ => false end.
Definition is_str (v : pyval) : bool := match v with PStr _ => true | _ => false end.
Definition is_list (v : pyval) : bool := match v with PList _ => true | _ => false end.
Definition is_dict (v : pyval) : bool := match v with PDict _ => true | _ => false end.
Definition is_tuple (v : pyval) : bool := match v with PTuple _ => true | _ => false end.
Definition is_datetime (v : pyval) : bool := match v with PDatetime _ _ => true | _ => false end.
(** [isinstance(v, date)]: a datetime is a date. *)
Definition is_date (v : pyval) : bool :=
  match v with PDate _ _ | PDatetime _ _ => true | _ => false end.
Definition is_uuid (v : pyval) : bool := match v with PUUID _ => true | _ => false end.

(** The items of a list or a tuple. *)
Definition seq_items (v : pyval) : option (list pyval) :=
  match v with PList l | PTuple l => Some l | _ => None end.

(** [bool(v)] *)
Definition truthy (v : pyval) : bool :=
  match v with
  | PNone => false
  | PBool b => b
  | PInt z => negb (z =? 0)
  | PFloat f => negb (Num.float_is_zero f)
  | PDecimal m _ => negb (m =? 0)
  | PStr s => Str.nonempty s
  | PList l | PTuple l => negb (bool_decide (l = []))
  | PDict d => negb (bool_decide (d = []))
  | PDate _ _ | PDatetime _ _ | PUUID _ | PObj _ _ | PSql _ => true
  end.

Definition hex_digit (z : Z) : ascii := Str.chr (if z <? 10 then z + 48 else z + 87).

(** A character inside [repr(s)] quoted with [q]. *)
Definition repr_char (q c : ascii) : string :=
  let z := Str.code c in
  if Ascii.eqb c q || (z =? 92) then String "\" (String c EmptyString)
  else if z =? 9 then "\t" else if z =? 10 then "\n" else if z =? 13 then "\r"
  else if (z <? 32) || ((127 <=? z) && (z <=? 160)) || (z =? 173) then
    String "\" (String "x" (String (hex_digit (z / 16)) (String (hex_digit (z mod 16)) EmptyString)))
  else String c EmptyString.

Fixpoint repr_chars (q : ascii) (s : string) : string :=
  match s with
  | EmptyString => EmptyString
  | String c s' => (repr_char q c +:+ repr_chars q s')%stdpp
  end.

Definition quote : ascii := "'"%char.
Definition dquote : ascii := "034"%char.

(** [repr(s)] of a string. *)
Definition repr_string (s : string) : string :=
  let q := if Str.has_char quote s && negb (Str.has_char dquote s) then dquote else quote in
  String q (repr_chars q s +:+ String q EmptyString)%stdpp.

(** [repr(v)]; the [repr] of an SQL fragment is left empty. *)
Fixpoint repr (v : pyval) : string :=
  match v with
  | PNone => "None"
  | PBool b => if b then "True" else "False"
  | PInt z => Num.string_of_Z z
  | PFloat f => Num.float_repr f
  | PDecimal m e => ("Decimal('" +:+ Num.decimal_str m e +:+ "')")%stdpp
  | PStr s => repr_string s
  | PDate _ r | PDatetime _ r => r
  | PUUID s => ("UUID('" +:+ s +:+ "')")%stdpp
  | PList l => ("[" +:+ Str.join ", " (map repr l) +:+ "]")%stdpp
  | PTuple [x] => ("(" +:+ repr x +:+ ",)")%stdpp
  | PTuple l => ("(" +:+ Str.join ", " (map repr l) +:+ ")")%stdpp
  | PDict d =>
      ("{" +:+ Str.join ", " (map (λ kv, (repr_string kv.1 +:+ ": " +:+ repr kv.2)%stdpp) d)
         +:+ "}")%stdpp
  | PObj r _ => r
  | PSql _ => EmptyString
  end.

(** [str(v)], and the value of [f"{v}"] *)
Definition str (v : pyval) : string :=
  match v with
  | PStr s | PUUID s => s
  | PDate s _ | PDatetime s _ => s
  | PDecimal m e => Num.decimal_str m e
  | _ => repr v
  end.

(** [int(v)] *)
Definition int (v : pyval) : result Z :=
  match v with
  | PInt z => Ok z
  | PBool b => Ok (if b then 1 else 0)
  | PFloat f => Num.float_to_int f
  | PDecimal m e => Num.float_to_int (Num.FFin m e)
  | PStr s => Num.int_of_string s
  | _ => Err TypeError
  end.

(** [float(v)] *)
Definition float (v : pyval) : result Num.pyfloat :=
  match v with
  | PInt z => Ok (Num.mk_float z 0)
  | PBool b => Ok (Num.mk_float (if b then 1 else 0) 0)
  | PFloat f => Ok f
  | PDecimal m e => Ok (Num.mk_float m e)
  | PStr s => Num.float_of_string s
  | _ => Err TypeError
  end.

(** [v == "..."] *)
Definition eq_str (v : pyval) (s : string) : bool :=
  match v with PStr s' => Str.eqb s' s | _ => false end.

(** [getattr(v, name)], [None] when [hasattr] is false. *)
Definition attr (name : string) (v : pyval) : option pyval :=
  match v with PObj _ a => dict_get name a | _ => None end.

(** [d.get(k)] *)
Definition get (k : string) (d : list (string * pyval)) : pyval :=
  default PNone (dict_get k d).

(** The items [value if isinstance(value, list) else [value]]. *)
Definition as_list (v : pyval) : list pyval :=
  match v with PList l => l | _ => [v] end.

(** The items [value if isinstance(value, (list, tuple)) else [value]]. *)
Definition as_list_or_tuple (v : pyval) : list pyval :=
  match v with PList l | PTuple l => l | _ => [v] end.

(** What psycopg documents for an item that is not a fragment: a literal. *)
Definition to_composable (v : pyval) : composable :=
  match v with PSql c => c | _ => Literal v end.
End Py.

(** [s == "..."] on strings. *)
Notation "s '=s' t" := (Str.eqb s t) (at level 70, no associativity) : py_scope.
(** [s in {"...", ...}] on strings. *)
Notation "s 'in_' l" := (str_in s l) (at level 70, no associativity) : py_scope.

(** [json.dumps(v)]: TypeError for a value JSON has no form for. *)
Module Json.
Local Open Scope Z_scope.

Definition esc (c : ascii) : string :=
  let z := Str.code c in
  if z =? 34 then "\" +:+ String Py.dquote EmptyString
  else if z =? 92 then "\\"
  else if z =? 10 then "\n" else if z =? 13 then "\r" else if z =? 9 then "\t"
  else if z =? 8 then "\b" else if z =? 12 then "\f"
  else if (z <? 32) || (126 <? z) then
    "\u00" +:+ String (Py.hex_digit (z / 16)) (String (Py.hex_digit (z mod 16)) EmptyString)
  else String c EmptyString.

Fixpoint esc_all (s : string) : string :=
  match s with
  | EmptyString => EmptyString
  | String c s' => (esc c +:+ esc_all s')%stdpp
  end.

Definition quoted (s : string) : string :=
  String Py.dquote (esc_all s +:+ String Py.dquote EmptyString)%stdpp.

Definition float (f : Num.pyfloat) : string :=
  match f with
  | Num.FNan => "NaN"
  | Num.FInf neg => if neg then "-Infinity" else "Infinity"
  | _ => Num.float_repr f
  end.

Fixpoint dumps (v : pyval) : result string :=
  match v with
  | PNone => Ok "null"
  | PBool b => Ok (if b then "true" else "false")
  | PInt z => Ok (Num.string_of_Z z)
  | PFloat f => Ok (float f)
  | PStr s => Ok (quoted s)
  | PList l | PTuple l =>
      ts ← mapR dumps l; Ok ("[" +:+ Str.join ", " ts +:+ "]")%stdpp
  | PDict d =>
      ts ← mapR (λ kv, t ← dumps kv.2; Ok (quoted kv.1 +:+ ": " +:+ t)%stdpp) d;
      Ok ("{" +:+ Str.join ", " ts +:+ "}")%stdpp
  | _ => Err TypeError
  end.
End Json.

(** ** The address pattern of the fallback strategies
    ([_IP_PATTERN]): four decimal octets, or two to seven colons between groups
    of at most four hexadecimal digits.  [$] also matches before a final newline. *)
Module Ip.
Local Open Scope Z_scope.

Definition octet (s : string) : bool :=
  match s with
  | EmptyString => false
  | String c s' =>
      Str.forallb Str.is_digit s && (Nat.leb (String.length s) 3)
      && (negb (Ascii.eqb c "0") || negb (Str.nonempty s'))
      && ((Num.digits 0 0 s).1.1 <=? 255)
  end.

Definition ipv4 (s : string) : bool :=
  let l := Str.split "." s in Nat.eqb (length l) 4 && List.forallb octet l.

Definition group (s : string) : bool :=
  Str.forallb Str.is_hex s && Nat.leb (String.length s) 4.

Definition ipv6 (s : string) : bool :=
  let l := Str.split ":" s in
  Nat.leb 3 (length l) && Nat.leb (length l) 8 && List.forallb group l.

(** [s] without the final newline [$] allows. *)
Definition chomp (s : string) : string :=
  Str.remove_suffix (String "010" EmptyString) s.

Definition pattern_match (s : string) : bool :=
  ipv4 s || ipv6 s || ipv4 (chomp s) || ipv6 (chomp s).
End Ip.

Example ip_ex :
  map Ip.pattern_match ["192.168.1.10"; "256.1.1.1"; "fe80::1"; "01.2.3.4"; "1.2.3"; "12:30"]
  = [true; false; true; false; false; false].
Proof. vm_compute. reflexivity. Qed.

Example repr_ex1 :
  Py.str (PList [PStr "ab"; PInt 3; PNone; PDict [("a", PBool true)]])
  = "['ab', 3, None, {'a': True}]".
Proof. vm_compute. reflexivity. Qed.
