(* ===== verification/Sql.v ===== *)
(** * What is said about SQL fragments

    The texts, names and values a fragment holds, the number of parameters it
    takes, what psycopg renders from it ([Psycopg], an interface with the laws
    psycopg documents), and the boolean structure of the rendered text. *)
From stdpp Require Import base decidable strings list.
From Stdlib Require Import ZArith Lia Ascii.
From S2P Require Import Prelude PyVal.

(** ** The parts of a fragment *)

(** The SQL texts written in a fragment. *)
Fixpoint raw_texts (c : composable) : list string :=
  match c with
  | SQL s => [s]
  | Identifier _ | Literal _ => []
  | Composed l => flat_map raw_texts l
  | Join sep l => sep :: flat_map raw_texts l
  | Format t l => t :: flat_map raw_texts l
  | FormatKw t l => t :: flat_map (λ kv, raw_texts kv.2) l
  end.

(** The names quoted as identifiers. *)
Fixpoint identifiers (c : composable) : list string :=
  match c with
  | Identifier s => [s]
  | SQL _ | Literal _ => []
  | Composed l | Join _ l | Format _ l => flat_map identifiers l
  | FormatKw _ l => flat_map (λ kv, identifiers kv.2) l
  end.

(** Parameters psycopg reads in a text: [%s], where [%%] is an escaped sign. *)
Fixpoint text_params (s : string) : nat :=
  match s with
  | String "%" (String "%" s') => text_params s'
  | String "%" (String "s" s') => S (text_params s')
  | String _ s' => text_params s'
  | EmptyString => 0
  end.

(** Parameters of a fragment: a separator stands once between two parts. *)
Fixpoint placeholders (c : composable) : nat :=
  match c with
  | SQL s => text_params s
  | Identifier _ | Literal _ => 0
  | Composed l => sum_list_with placeholders l
  | Join sep l => text_params sep * pred (length l) + sum_list_with placeholders l
  | Format t l => text_params t + sum_list_with placeholders l
  | FormatKw t l => text_params t + sum_list_with (λ kv, placeholders kv.2) l
  end.

(** ** Rendering *)

Inductive piece :=
| Raw (s : string)
| Name (s : string)
| Value (v : pyval).

(** A format template as texts ([inl]) and named holes ([inr]; [{}] has the
    empty name). *)
Fixpoint template_go (acc : string) (hole : option string) (s : string) : list (string + string) :=
  match s with
  | EmptyString => match acc with EmptyString => [] | _ => [inl acc] end
  | String c s' =>
      match hole with
      | Some h =>
          if Ascii.eqb c "}" then inr h :: template_go EmptyString None s'
          else template_go EmptyString (Some (h +:+ String c EmptyString)%stdpp) s'
      | None =>
          if Ascii.eqb c "{" then
            match acc with EmptyString => [] | _ => [inl acc] end
              ++ template_go EmptyString (Some EmptyString) s'
          else template_go (acc +:+ String c EmptyString)%stdpp None s'
      end
  end.

Definition template_parts (t : string) : list (string + string) :=
  template_go EmptyString None t.

(** Holes filled in order, and by name. *)
Fixpoint fill {A} (raw : string → A) (t : list (string + string)) (args : list A) : list A :=
  match t, args with
  | [], _ => []
  | inl s :: t', _ => raw s :: fill raw t' args
  | inr _ :: t', a :: args' => a :: fill raw t' args'
  | inr _ :: t', [] => fill raw t' []
  end.

Definition fill_kw {A} (raw : string → A) (none : A) (t : list (string + string))
    (args : list (string * A)) : list A :=
  map (λ p, match p with inl s => raw s | inr n => default none (dict_get n args) end) t.

(** [sep] between the items of [l]. *)
Fixpoint intersperse {A} (sep : A) (l : list A) : list A :=
  match l with
  | [] => []
  | [x] => [x]
  | x :: l' => x :: sep :: intersperse sep l'
  end.

(** What psycopg renders: fragments are concatenated, [join] puts the separator
    between them, [format] puts them in the holes of the template, and names
    and values stay apart from the text (they are quoted, or bound). *)
Class Psycopg := {
  render : composable → list piece;
  render_SQL s : render (SQL s) = [Raw s];
  render_Identifier s : render (Identifier s) = [Name s];
  render_Literal v : render (Literal v) = [Value v];
  render_Composed l : render (Composed l) = concat (map render l);
  render_Join sep l : render (Join sep l) = concat (intersperse [Raw sep] (map render l));
  render_Format t l :
    render (Format t l) = concat (fill (λ s, [Raw s]) (template_parts t) (map render l));
  render_FormatKw t l :
    render (FormatKw t l)
    = concat (fill_kw (λ s, [Raw s]) [] (template_parts t) (map (λ kv, (kv.1, render kv.2)) l))
}.

Create Rewrite HintDb render.
#[export] Hint Rewrite @render_SQL @render_Identifier @render_Literal @render_Composed
  @render_Join @render_Format @render_FormatKw : render.

(** The interface has a model: the function its laws describe. *)
Fixpoint render_ref (c : composable) : list piece :=
  match c with
  | SQL s => [Raw s]
  | Identifier s => [Name s]
  | Literal v => [Value v]
  | Composed l => concat (map render_ref l)
  | Join sep l => concat (intersperse [Raw sep] (map render_ref l))
  | Format t l => concat (fill (λ s, [Raw s]) (template_parts t) (map render_ref l))
  | FormatKw t l =>
      concat (fill_kw (λ s, [Raw s]) [] (template_parts t)
                (map (λ kv, (kv.1, render_ref kv.2)) l))
  end.

Definition psycopg_ref : Psycopg.
Proof. refine {| render := render_ref |}; reflexivity. Defined.

(** ** Boolean structure *)

(** The tokens that decide how PostgreSQL groups a condition: parentheses, the
    two connectives, and everything else. *)
Inductive token :=
| TLp
| TRp
| TAnd
| TOr
| TChar (c : ascii)
| TName (s : string)
| TValue (v : pyval).

Fixpoint lex (s : string) : list token :=
  match s with
  | String " " (String "A" (String "N" (String "D" (String " " s')))) => TAnd :: lex s'
  | String " " (String "O" (String "R" (String " " s'))) => TOr :: lex s'
  | String "(" s' => TLp :: lex s'
  | String ")" s' => TRp :: lex s'
  | String c s' => TChar c :: lex s'
  | EmptyString => []
  end.

Definition piece_tokens (p : piece) : list token :=
  match p with
  | Raw s => lex s
  | Name s => [TName s]
  | Value v => [TValue v]
  end.

Definition tokens `{Psycopg} (c : composable) : list token := flat_map piece_tokens (render c).

(** The depth of parentheses after a text read at depth [d]; [None] when it
    closes one it did not open, or has a connective outside all parentheses. *)
Fixpoint scan (d : nat) (ts : list token) : option nat :=
  match ts with
  | [] => Some d
  | TLp :: ts' => scan (S d) ts'
  | TRp :: ts' => match d with O => None | S d' => scan d' ts' end
  | TAnd :: ts' | TOr :: ts' => match d with O => None | S _ => scan d ts' end
  | _ :: ts' => scan d ts'
  end.

(** A text that AND and OR take as one operand. *)
Definition operand (ts : list token) : Prop := scan 0 ts = Some 0.

#[export] Instance operand_dec ts : Decision (operand ts).
Proof. unfold operand. apply _. Defined.

Definition is_kw (kw t : token) : bool :=
  match kw, t with TAnd, TAnd => true | TOr, TOr => true | _, _ => false end.

(** The operands of connective [kw] outside all parentheses. *)
Fixpoint split_top (kw : token) (d : nat) (cur : list token) (ts : list token) : list (list token) :=
  match ts with
  | [] => [rev cur]
  | t :: ts' =>
      if is_kw kw t && Nat.eqb d 0 then rev cur :: split_top kw 0 [] ts'
      else split_top kw (match t with TLp => S d | TRp => pred d | _ => d end) (t :: cur) ts'
  end.

(** ** Lemmas *)

Lemma scan_app d a b : scan d (a ++ b) = scan d a ≫= λ d', scan d' b.
Proof.
  revert d. induction a as [|t a IH]; intros d; [done|].
  destruct t; cbn; try apply IH; destruct d; cbn; try apply IH; done.
Qed.

Lemma scan_weaken k d d' ts : scan d ts = Some d' → scan (k + d) ts = Some (k + d').
Proof.
  revert d. induction ts as [|t ts IH]; intros d; cbn; [congruence|].
  destruct t; cbn; try apply IH.
  - intros H%IH. by rewrite Nat.add_succ_r in H.
  - destruct d as [|d]; [done|]. intros H%IH. by rewrite Nat.add_succ_r.
  - destruct d as [|d]; [done|]. intros H%IH. by rewrite Nat.add_succ_r in *.
  - destruct d as [|d]; [done|]. intros H%IH. by rewrite Nat.add_succ_r in *.
Qed.

Lemma operand_scan d ts : operand ts → scan d ts = Some d.
Proof. intros H%(scan_weaken d). by rewrite Nat.add_0_r in H. Qed.

Lemma operand_app a b : operand a → operand b → operand (a ++ b).
Proof. unfold operand. intros Ha Hb. by rewrite scan_app, Ha. Qed.

Lemma operand_concat l : Forall operand l → operand (concat l).
Proof. induction 1; [done|]. by apply operand_app. Qed.

(** Anything whose parentheses match is an operand once it is in parentheses. *)
Lemma operand_paren ts : scan 1 ts = Some 1 → operand (TLp :: ts ++ [TRp]).
Proof. unfold operand. cbn. rewrite scan_app. by intros ->. Qed.

Lemma scan_intersperse d kw l :
  is_kw kw kw = true → Forall operand l →
  scan (S d) (concat (intersperse [kw] l)) = Some (S d).
Proof.
  intros Hkw. induction 1 as [|x l Hx Hl IH]; [done|].
  destruct l as [|y l]; cbn.
  - rewrite app_nil_r. by apply operand_scan.
  - rewrite scan_app, operand_scan by done. cbn. by destruct kw.
Qed.

Lemma split_top_skip kw d d' cur ts rest :
  scan d ts = Some d' →
  split_top kw d cur (ts ++ rest) = split_top kw d' (rev ts ++ cur) rest.
Proof.
  revert d cur. induction ts as [|t ts IH]; intros d cur; cbn; [by intros [= ->]|].
  rewrite <- app_assoc. cbn.
  destruct t; cbn; intros H; rewrite ?andb_false_r; cbn;
    try (rewrite (IH _ _ H); by destruct kw).
  - destruct d as [|d]; [done|]. cbn. rewrite (IH _ _ H). by destruct kw.
  - destruct d as [|d]; [done|]. rewrite andb_false_r. by apply IH.
  - destruct d as [|d]; [done|]. rewrite andb_false_r. by apply IH.
Qed.

Lemma split_top_operand kw ts : operand ts → split_top kw 0 [] ts = [ts].
Proof.
  intros H. rewrite <- (app_nil_r ts) at 1. rewrite (split_top_skip _ _ 0) by done.
  cbn. by rewrite app_nil_r, rev_involutive.
Qed.

Lemma intersperse_cons {A} (sep x y : A) l :
  intersperse sep (x :: y :: l) = x :: sep :: intersperse sep (y :: l).
Proof. done. Qed.

Lemma concat_cons {A} (x : list A) l : concat (x :: l) = x ++ concat l.
Proof. done. Qed.

(** Splitting a joined text gives back the parts. *)
Lemma split_top_join kw l :
  is_kw kw kw = true → l ≠ [] → Forall operand l →
  split_top kw 0 [] (concat (intersperse [kw] l)) = l.
Proof.
  intros Hkw Hne Hl. destruct l as [|x l]; [done|]. clear Hne.
  revert x Hl. induction l as [|y l IH]; intros x Hl; inversion_clear Hl as [|?? Hx Hl'].
  - cbn. rewrite app_nil_r. by apply split_top_operand.
  - rewrite intersperse_cons, !concat_cons, (split_top_skip _ _ 0) by done.
    cbn [app split_top]. rewrite Hkw. cbn [andb Nat.eqb]. rewrite app_nil_r, rev_involutive. f_equal. by apply IH.
Qed.

(** The other connective does not split it. *)
Lemma split_top_join_other kw kw' l :
  is_kw kw kw = true → is_kw kw' kw = false → Forall operand l →
  split_top kw' 0 [] (concat (intersperse [kw] l)) = [concat (intersperse [kw] l)].
Proof.
  intros Hkw Hkw' Hl.
  assert (∀ cur ts, split_top kw' 0 cur (kw :: ts) = split_top kw' 0 (kw :: cur) ts) as Hstep.
  { intros cur ts. cbn. rewrite Hkw'. by destruct kw. }
  enough (∀ cur, split_top kw' 0 cur (concat (intersperse [kw] l))
                 = [rev cur ++ concat (intersperse [kw] l)]) as H by apply H.
  destruct l as [|x l]; [intros cur; cbn; by rewrite app_nil_r|].
  revert x Hl. induction l as [|y l IH]; intros x Hl cur; inversion_clear Hl as [|?? Hx Hl'].
  - cbn. rewrite app_nil_r. rewrite <- (app_nil_r x) at 1.
    rewrite (split_top_skip _ _ 0) by done. cbn. by rewrite rev_app_distr, rev_involutive.
  - rewrite intersperse_cons, !concat_cons, (split_top_skip _ _ 0) by done.
    cbn [app]. rewrite Hstep, IH by done. cbn [rev].
    rewrite rev_app_distr, rev_involutive. by rewrite <- !app_assoc.
Qed.

Section tokens.
Context `{Psycopg}.

Lemma tokens_SQL s : tokens (SQL s) = lex s.
Proof. unfold tokens. rewrite render_SQL. cbn. apply app_nil_r. Qed.

Lemma tokens_Identifier s : tokens (Identifier s) = [TName s].
Proof. unfold tokens. by rewrite render_Identifier. Qed.

Lemma tokens_Literal v : tokens (Literal v) = [TValue v].
Proof. unfold tokens. by rewrite render_Literal. Qed.

Lemma flat_map_concat_tokens (l : list (list piece)) :
  flat_map piece_tokens (concat l) = concat (map (flat_map piece_tokens) l).
Proof. induction l as [|x l IH]; cbn; [done|]. by rewrite flat_map_app, IH. Qed.

Lemma tokens_Composed l : tokens (Composed l) = concat (map tokens l).
Proof. unfold tokens. by rewrite render_Composed, flat_map_concat_tokens, map_map. Qed.

Lemma intersperse_map {A B} (f : A → B) sep l :
  map f (intersperse sep l) = intersperse (f sep) (map f l).
Proof.
  induction l as [|x [|y l] IH]; [done..|].
  change (f x :: f sep :: map f (intersperse sep (y :: l))
          = f x :: f sep :: intersperse (f sep) (map f (y :: l))).
  by rewrite IH.
Qed.

Lemma tokens_Join sep l : tokens (Join sep l) = concat (intersperse (lex sep) (map tokens l)).
Proof.
  unfold tokens. rewrite render_Join, flat_map_concat_tokens, intersperse_map, map_map.
  cbn. by rewrite app_nil_r.
Qed.

Lemma fill_map {A B} (f : A → B) raw t args :
  map f (fill raw t args) = fill (λ s, f (raw s)) t (map f args).
Proof.
  revert args. induction t as [|[s|n] t IH]; intros args; cbn; [by destruct args| |].
  - by rewrite IH.
  - destruct args; cbn; by rewrite IH.
Qed.

Lemma tokens_Format t l :
  tokens (Format t l) = concat (fill lex (template_parts t) (map tokens l)).
Proof.
  unfold tokens. rewrite render_Format, flat_map_concat_tokens, fill_map, map_map.
  f_equal. clear. generalize (map (λ x, flat_map piece_tokens (render x)) l) as args.
  induction (template_parts t) as [|[s|n] p IH]; intros args; cbn; [by destruct args| |].
  - by rewrite IH, app_nil_r.
  - destruct args; by rewrite IH.
Qed.
End tokens.

Create Rewrite HintDb tokens.
#[export] Hint Rewrite @tokens_SQL @tokens_Identifier @tokens_Literal @tokens_Composed
  @tokens_Join @tokens_Format : tokens.

(** ** Counting parameters in texts made of parts *)

(** The text does not end with a percent sign. *)
Fixpoint no_pct_end (s : string) : bool :=
  match s with
  | EmptyString => true
  | String c EmptyString => negb (Ascii.eqb c "%")
  | String _ s' => no_pct_end s'
  end.

Lemma no_pct_end_tail c d s : no_pct_end (String c (String d s)) = no_pct_end (String d s).
Proof. done. Qed.

Lemma text_params_cons c s :
  c ≠ "%"%char → text_params (String c s) = text_params s.
Proof.
  intros H. destruct c as [[] [] [] [] [] [] [] []]; try done.
Qed.

Lemma text_params_pct c s :
  text_params (String "%" (String c s))
  = if Ascii.eqb c "%" then text_params s
    else if Ascii.eqb c "s" then S (text_params s) else text_params (String c s).
Proof. destruct c as [[] [] [] [] [] [] [] []]; reflexivity. Qed.

Lemma text_params_app a b :
  no_pct_end a = true → text_params (a +:+ b)%stdpp = text_params a + text_params b.
Proof.
  remember (String.length a) as n eqn:Hn. revert a Hn.
  induction n as [n IH] using lt_wf_ind; intros a -> H.
  destruct a as [|c a]; [done|].
  change (String c a +:+ b)%stdpp with (String c (a +:+ b)%stdpp).
  destruct (decide (c = "%"%char)) as [->|Hc].
  - destruct a as [|d a]; [done|].
    change (String d a +:+ b)%stdpp with (String d (a +:+ b)%stdpp).
    rewrite !text_params_pct.
    change (no_pct_end (String d a) = true) in H.
    assert (no_pct_end a = true) as H' by (destruct a; done).
    destruct (Ascii.eqb d "%"); [|destruct (Ascii.eqb d "s")].
    + apply (IH (String.length a)); [cbn; lia|done..].
    + cbn [Nat.add]. f_equal. apply (IH (String.length a)); [cbn; lia|done..].
    + change (String d (a +:+ b)%stdpp) with (String d a +:+ b)%stdpp.
      apply (IH (String.length (String d a))); [cbn; lia|done..].
  - rewrite !text_params_cons by done.
    apply (IH (String.length a)); [cbn; lia|done|by destruct a].
Qed.

Lemma no_pct_end_app a b :
  no_pct_end a = true → no_pct_end b = true → no_pct_end (a +:+ b)%stdpp = true.
Proof.
  intros Ha Hb. induction a as [|c a IH]; [done|].
  destruct a as [|d a]; [by destruct b|]. by apply IH.
Qed.

(** A text without parameters that can be extended. *)
Definition inert (s : string) : bool := no_pct_end s && Nat.eqb (text_params s) 0.

Lemma inert_spec s : inert s = true ↔ no_pct_end s = true ∧ text_params s = 0.
Proof. unfold inert. by rewrite andb_true_iff, Nat.eqb_eq. Qed.

Lemma inert_app a b : inert a = true → inert b = true → inert (a +:+ b)%stdpp = true.
Proof.
  rewrite !inert_spec. intros [Ha Ha'] [Hb Hb']. split; [by apply no_pct_end_app|].
  by rewrite text_params_app, Ha', Hb'.
Qed.

Lemma inert_params s : inert s = true → text_params s = 0.
Proof. by intros [_ H]%inert_spec. Qed.

(** [n] marks with commas between them. *)
Lemma join_params p n :
  no_pct_end p = true →
  no_pct_end (String.concat ", " (replicate n p)) = true
  ∧ text_params (String.concat ", " (replicate n p)) = n * text_params p.
Proof.
  intros Hp. induction n as [|n [IH1 IH2]]; [done|].
  destruct n as [|n]; [cbn; by rewrite Nat.add_0_r|].
  change (String.concat ", " (replicate (S (S n)) p))
    with (p +:+ ", " +:+ String.concat ", " (replicate (S n) p))%stdpp.
  split; [by repeat apply no_pct_end_app|].
  rewrite text_params_app by done. rewrite text_params_app by done. rewrite IH2. cbn. lia.
Qed.

(** ** Texts without parentheses or connectives *)

Section tokens_kw.
Context `{Psycopg}.

Lemma tokens_FormatKw t l :
  tokens (FormatKw t l)
  = concat (fill_kw lex [] (template_parts t) (map (λ kv, (kv.1, tokens kv.2)) l)).
Proof.
  unfold tokens at 1. rewrite render_FormatKw, flat_map_concat_tokens. f_equal.
  unfold fill_kw. rewrite map_map. apply map_ext. intros [s|n]; cbn; [apply app_nil_r|].
  induction l as [|[k c] l IH]; cbn; [done|]. by case_decide.
Qed.
End tokens_kw.
#[export] Hint Rewrite @tokens_FormatKw : tokens.

Definition quiet_char (c : ascii) : bool :=
  negb (Ascii.eqb c "(" || Ascii.eqb c ")" || Ascii.eqb c "A" || Ascii.eqb c "O").

Fixpoint chars (s : string) : list token :=
  match s with EmptyString => [] | String c s' => TChar c :: chars s' end.

Lemma lex_char c s :
  c ≠ " "%char → quiet_char c = true → lex (String c s) = TChar c :: lex s.
Proof. destruct c as [[] [] [] [] [] [] [] []]; try done. Qed.

Lemma lex_space d s :
  quiet_char d || Ascii.eqb d ")" = true →
  lex (String " " (String d s)) = TChar " " :: lex (String d s).
Proof. destruct d as [[] [] [] [] [] [] [] []]; done. Qed.

(** Quiet characters up to a closing parenthesis. *)
Lemma lex_quiet s t :
  Str.forallb quiet_char s = true →
  lex (s +:+ String ")" t)%stdpp = chars s ++ TRp :: lex t.
Proof.
  induction s as [|c s IH]; [done|]. intros [Hc Hs]%andb_true_iff.
  change (String c s +:+ String ")" t)%stdpp with (String c (s +:+ String ")" t)%stdpp).
  destruct (decide (c = " "%char)) as [->|Hne].
  - cbn [chars app]. rewrite <- IH by done. destruct s as [|d s]; [done|].
    apply andb_true_iff in Hs as [Hd _].
    change (String d s +:+ String ")" t)%stdpp with (String d (s +:+ String ")" t)%stdpp).
    apply lex_space. by rewrite Hd.
  - rewrite lex_char by done. cbn. by rewrite IH.
Qed.

Lemma forallb_app p s t : Str.forallb p (s +:+ t)%stdpp = Str.forallb p s && Str.forallb p t.
Proof. induction s as [|c s IH]; cbn; [done|]. by rewrite <- andb_assoc, <- IH. Qed.

Lemma quiet_join p n :
  Str.forallb quiet_char p = true →
  Str.forallb quiet_char (String.concat ", " (replicate n p)) = true.
Proof.
  intros Hp. induction n as [|n IH]; [done|]. destruct n as [|n]; [done|].
  change (String.concat ", " (replicate (S (S n)) p))
    with (p +:+ ", " +:+ String.concat ", " (replicate (S n) p))%stdpp.
  by rewrite !forallb_app, Hp, IH.
Qed.

Lemma operand_chars s : operand (chars s).
Proof. unfold operand. by induction s. Qed.
