(* ===== verification/Shape.v ===== *)
(** * The shape of a value, and fragments built over a path

    [shape] forgets the contents of a value and keeps what the SQL generators
    may branch on: its type, its truth value, the lengths of lists, the keys of
    dictionaries, and whether a text looks like an IP address.  [over path c]
    says that [c] is made of fixed texts without parameters, literals and [path]. *)
From stdpp Require Import base decidable strings list.
From Stdlib Require Import ZArith Lia Ascii.
From S2P Require Import Prelude PyVal Sql.

Local Open Scope py_scope.

(** ** Shapes *)

Definition str_shape (s : string) : string :=
  if s in_ [EmptyString; "lt"; "lte"] then s
  else if Ip.pattern_match s then "1.1.1.1" else "x".

Fixpoint shape (v : pyval) : pyval :=
  match v with
  | PNone => PNone
  | PBool b => PBool b
  | PInt z => PInt (if (z =? 0)%Z then 0 else 1)
  | PFloat f => PFloat (if Num.float_is_zero f then Num.FFin 0 0 else Num.FFin 1 0)
  | PDecimal m _ => PDecimal (if (m =? 0)%Z then 0 else 1) 0
  | PStr s => PStr (str_shape s)
  | PDate _ _ => PDate EmptyString EmptyString
  | PDatetime _ _ => PDatetime EmptyString EmptyString
  | PUUID _ => PUUID EmptyString
  | PList l => PList (map shape l)
  | PTuple l => PTuple (map shape l)
  | PDict d => PDict (map (λ kv, (kv.1, shape kv.2)) d)
  | PObj _ a => PObj EmptyString (map (λ kv, (kv.1, shape kv.2)) a)
  | PSql c => PSql c
  end.

(** Two values of the same shape. *)
Definition alike (v w : pyval) : Prop := shape v = shape w.

#[export] Instance alike_equivalence : Equivalence alike.
Proof. unfold alike. split; red; congruence. Qed.

Lemma str_shape_spec s :
  Str.nonempty (str_shape s) = Str.nonempty s
  ∧ Ip.pattern_match (str_shape s) = Ip.pattern_match s
  ∧ (str_shape s =s "lt") = (s =s "lt")
  ∧ (str_shape s =s "lte") = (s =s "lte").
Proof.
  unfold str_shape. destruct (s in_ _) eqn:E; [done|].
  apply bool_decide_eq_false in E. rewrite !elem_of_cons in E.
  assert ((s =s "lt") = false) as -> by (apply bool_decide_eq_false; naive_solver).
  assert ((s =s "lte") = false) as -> by (apply bool_decide_eq_false; naive_solver).
  destruct s as [|c s']; [naive_solver|].
  by destruct (Ip.pattern_match (String c s')) eqn:E'.
Qed.

Lemma alike_str s t :
  alike (PStr s) (PStr t) →
  Str.nonempty s = Str.nonempty t ∧ Ip.pattern_match s = Ip.pattern_match t
  ∧ (s =s "lt") = (t =s "lt") ∧ (s =s "lte") = (t =s "lte").
Proof.
  intros [= H].
  destruct (str_shape_spec s) as (<- & <- & <- & <-).
  destruct (str_shape_spec t) as (<- & <- & <- & <-). by rewrite H.
Qed.

Lemma alike_truthy v w : alike v w → Py.truthy v = Py.truthy w.
Proof.
  enough (∀ u, Py.truthy (shape u) = Py.truthy u) as H.
  { unfold alike. intros E. by rewrite <- (H v), <- (H w), E. }
  intros u. destruct u; cbn; try done.
  - by destruct (z =? 0)%Z.
  - by destruct (Num.float_is_zero f).
  - by destruct (m =? 0)%Z.
  - apply str_shape_spec.
  - by destruct l.
  - by destruct l.
  - by destruct d.
Qed.

Lemma map_shape_alike l k : map shape l = map shape k → Forall2 alike l k.
Proof.
  revert k. induction l as [|x l IH]; intros [|y k] [=]; constructor; [done|by apply IH].
Qed.

Lemma alike_list l k : alike (PList l) (PList k) → Forall2 alike l k.
Proof. intros [= H]. by apply map_shape_alike. Qed.

Lemma alike_tuple l k : alike (PTuple l) (PTuple k) → Forall2 alike l k.
Proof. intros [= H]. by apply map_shape_alike. Qed.

Lemma alike_pairs (d e : list (string * pyval)) k :
  map (λ kv, (kv.1, shape kv.2)) d = map (λ kv, (kv.1, shape kv.2)) e →
  option_Forall2 alike (dict_get k d) (dict_get k e).
Proof.
  revert e. induction d as [|[k1 v1] d IH]; intros [|[k2 v2] e] [=]; cbn; [constructor|].
  subst. case_decide; [by constructor | by apply IH].
Qed.

Lemma alike_dict d e k :
  alike (PDict d) (PDict e) → option_Forall2 alike (dict_get k d) (dict_get k e).
Proof. intros [= H]. by apply alike_pairs. Qed.

Lemma alike_attr k v w : alike v w → option_Forall2 alike (Py.attr k v) (Py.attr k w).
Proof.
  destruct v, w; intros [=]; cbn; try constructor. by apply alike_pairs.
Qed.

Lemma alike_get k d e : alike (PDict d) (PDict e) → alike (Py.get k d) (Py.get k e).
Proof. intros H. unfold Py.get. by destruct (alike_dict d e k H). Qed.

Lemma alike_as_list v w : alike v w → Forall2 alike (Py.as_list v) (Py.as_list w).
Proof.
  intros H. destruct v, w; try discriminate H; cbn; try by repeat constructor.
  by apply alike_list.
Qed.

Lemma alike_as_list_or_tuple v w :
  alike v w → Forall2 alike (Py.as_list_or_tuple v) (Py.as_list_or_tuple w).
Proof.
  intros H. destruct v, w; try discriminate H; cbn; try by repeat constructor.
  - by apply alike_list.
  - by apply alike_tuple.
Qed.

(** ** Fragments over a path *)

(** No parameter mark in a fixed text. *)
Definition fixed (s : string) : Prop := text_params s = 0.

Inductive over (path : composable) : composable → Prop :=
| over_path : over path path
| over_SQL s : fixed s → over path (SQL s)
| over_Literal v : over path (Literal v)
| over_Composed l : Forall (over path) l → over path (Composed l)
| over_Join sep l : fixed sep → Forall (over path) l → over path (Join sep l)
| over_Format t l : fixed t → Forall (over path) l → over path (Format t l).

Section over_ind.
Context (path : composable) (P : composable → Prop).
Context (Hpath : P path) (Hsql : ∀ s, fixed s → P (SQL s)) (Hlit : ∀ v, P (Literal v)).
Context (Hcomposed : ∀ l, Forall P l → P (Composed l)).
Context (Hjoin : ∀ sep l, fixed sep → Forall P l → P (Join sep l)).
Context (Hformat : ∀ t l, fixed t → Forall P l → P (Format t l)).

Fixpoint over_ind' (c : composable) (H : over path c) : P c :=
  let all := fix all l (Hl : Forall (over path) l) : Forall P l :=
    match Hl with
    | List.Forall_nil _ => List.Forall_nil _
    | List.Forall_cons _ x k Hx Hk => List.Forall_cons _ x k (over_ind' x Hx) (all k Hk)
    end in
  match H with
  | over_path _ => Hpath
  | over_SQL _ s Hs => Hsql s Hs
  | over_Literal _ v => Hlit v
  | over_Composed _ l Hl => Hcomposed l (all l Hl)
  | over_Join _ sep l Hs Hl => Hjoin sep l Hs (all l Hl)
  | over_Format _ t l Ht Hl => Hformat t l Ht (all l Hl)
  end.
End over_ind.

Create HintDb over.
#[export] Hint Constructors over : over.
#[export] Hint Constructors List.Forall : over.
#[export] Hint Extern 1 (fixed _) => reflexivity : over.

(** Such a fragment takes no parameter the path does not take, and names
    nothing the path does not name. *)
Lemma over_placeholders path c : over path c → placeholders path = 0 → placeholders c = 0.
Proof.
  intros H Hp. revert c H. apply over_ind'; try done.
  - intros l Hl. cbn. induction Hl as [|x l Hx _ IH]; cbn; [done|]. by rewrite Hx.
  - intros sep l Hs Hl. cbn. rewrite Hs. induction Hl as [|x l Hx _ IH]; cbn; [done|].
    by rewrite Hx.
  - intros t l Ht Hl. cbn. rewrite Ht. induction Hl as [|x l Hx _ IH]; cbn; [done|].
    by rewrite Hx.
Qed.

Lemma flat_map_incl {A B} (f : A → list B) l m :
  Forall (λ x, f x ⊆ m) l → flat_map f l ⊆ m.
Proof.
  induction 1 as [|x l Hx _ IH]; cbn; [apply list_subseteq_nil|].
  intros y [?|?]%elem_of_app; auto.
Qed.

Lemma over_identifiers path c : over path c → identifiers c ⊆ identifiers path.
Proof.
  revert c. apply over_ind'; cbn; intros; try apply list_subseteq_nil; try done;
    by apply flat_map_incl.
Qed.

Lemma over_map path {A} (f : A → composable) l :
  (∀ x, over path (f x)) → Forall (over path) (map f l).
Proof. intros H. induction l; cbn; constructor; auto. Qed.

#[export] Hint Resolve over_map : over.
