(* ===== verification/OpBase.v ===== *)
(** * Operator strategies: the interface and the shared helpers
    ([sql/operators/base.py])

    [strategy] is the abstract class [BaseOperatorStrategy]; the other operator
    files give its instances, and [Registry] routes an operator to one of them. *)
From stdpp Require Import base decidable strings list.
From Stdlib Require Import ZArith Lia Ascii.
From S2P Require Import Prelude PyVal Sql.

(** ** Field types

    A Python type hint: one of the four classes the strategies test with [is],
    another class (with its [__name__], and whether it derives from int or
    float), or a hint that is not a class (its [__name__] or, without one, its
    [str], and whether [get_origin] gives [list]). *)
Inductive pytype :=
| TyStr
| TyInt
| TyFloat
| TyBool
| TyClass (name : string) (numeric : bool)
| TyAlias (name : string) (has_name origin_list : bool).

#[export] Instance pytype_eq_dec : EqDecision pytype.
Proof. solve_decision. Defined.

(** [t.__name__ if hasattr(t, "__name__") else str(t)] *)
Definition type_name (t : pytype) : string :=
  match t with
  | TyStr => "str"
  | TyInt => "int"
  | TyFloat => "float"
  | TyBool => "bool"
  | TyClass n _ | TyAlias n _ _ => n
  end.

(** [hasattr(t, "__name__")] *)
Definition has_name (t : pytype) : bool :=
  match t with TyAlias _ b _ => b | _ => true end.

(** [issubclass(t, (int, float))], false when it raises TypeError. *)
Definition subclass_int_float (t : pytype) : bool :=
  match t with TyInt | TyFloat | TyBool => true | TyClass _ b => b | _ => false end.

(** [get_origin(t) is list] *)
Definition origin_is_list (t : pytype) : bool :=
  match t with TyAlias _ _ b => b | _ => false end.

(** [bool(jsonb_column)] *)
Definition given (o : option string) : bool :=
  match o with Some s => Str.nonempty s | None => false end.

(** ** The abstract class *)
Record strategy := {
  strategy_name : string;
  supports_operator : string → option pytype → bool;
  build_sql :
    string → pyval → composable → option pytype → option string → result (option composable)
}.

(** ** Application settings the SQL depends on

    [default_entity_schema] of the registered config ([None] without a config);
    [coordinate_distance_method] of the config when it was set there; the
    environment variable [FRAISEQL_COORDINATE_DISTANCE_METHOD]. *)
Record app_env := {
  default_entity_schema : option string;
  config_distance_method : option string;
  environ_distance_method : option string
}.

(** ** Helpers *)
Definition _cast_path (path_sql : composable) (target_type : string)
    (jsonb_column : option string) (use_postgres_cast : bool) : composable :=
  if given jsonb_column then
    if str_in (Str.lower target_type) ["text"; "varchar"; "char"] then path_sql
    else if use_postgres_cast then Format "({})::{}" [path_sql; SQL target_type]
    else Format "CAST({} AS {})" [path_sql; SQL target_type]
  else path_sql.

Definition _cast_both_sides (path_sql : composable) (value : pyval) (target_type : string)
    (use_postgres_cast : bool) : composable * composable :=
  if use_postgres_cast then
    (Format "({})::{}" [path_sql; SQL target_type],
     Format "{}::{}" [Literal value; SQL target_type])
  else
    (Format "CAST({} AS {})" [path_sql; SQL target_type],
     Format "CAST({} AS {})" [Literal value; SQL target_type]).

Definition _cast_list_values (values : list pyval) (target_type : string)
    (use_postgres_cast : bool) : list composable :=
  map (λ value,
    if use_postgres_cast then Format "{}::{}" [Literal value; SQL target_type]
    else Format "CAST({} AS {})" [Literal value; SQL target_type]) values.

Local Open Scope py_scope.

Definition _build_comparison (operator : string) (casted_path : composable) (value : pyval)
    : option composable :=
  if operator =s "eq" then Some (Format "{} = {}" [casted_path; Literal value])
  else if operator =s "neq" then Some (Format "{} != {}" [casted_path; Literal value])
  else if operator =s "gt" then Some (Format "{} > {}" [casted_path; Literal value])
  else if operator =s "gte" then Some (Format "{} >= {}" [casted_path; Literal value])
  else if operator =s "lt" then Some (Format "{} < {}" [casted_path; Literal value])
  else if operator =s "lte" then Some (Format "{} <= {}" [casted_path; Literal value])
  else None.

Definition _build_in_operator (casted_path : composable) (value : pyval) (negate : bool)
    (cast_values : option string) : composable :=
  let value_list := Py.as_list_or_tuple value in
  let placeholders :=
    match cast_values with
    | Some (String _ _ as t) =>
        let cast_sql := Format "::{}" [SQL t] in
        Join ", " (map (λ v, Format "{}{}" [Literal v; cast_sql]) value_list)
    | _ => Join ", " (map Literal value_list)
    end in
  if negate then Format "{} NOT IN ({})" [casted_path; placeholders]
  else Format "{} IN ({})" [casted_path; placeholders].

Definition _build_null_check (path_sql : composable) (value : pyval) : composable :=
  if Py.truthy value then Format "{} IS NULL" [path_sql]
  else Format "{} IS NOT NULL" [path_sql].
