(* ===== verification/OpCore.v ===== *)
(** * Core, fallback, array and JSONB operator strategies
    ([sql/operators/core], [fallback], [array], [advanced/jsonb_operators.py]) *)
From stdpp Require Import base decidable strings list.
From Stdlib Require Import ZArith Lia Ascii.
From S2P Require Import Prelude PyVal Sql OpBase.

Local Open Scope py_scope.

(** [core/boolean_operators.py] *)
Module Boolean.
Definition SUPPORTED_OPERATORS : list string := ["eq"; "neq"; "isnull"].

Definition supports_operator (operator : string) (field_type : option pytype) : bool :=
  if negb (operator in_ SUPPORTED_OPERATORS) then false
  else match field_type with
       | None => false
       | Some t => bool_decide (t = TyBool)
       end.

Definition build_sql (operator : string) (value : pyval) (path_sql : composable)
    (field_type : option pytype) (jsonb_column : option string) : result (option composable) :=
  if operator in_ ["eq"; "neq"] then
    let casted_path := _cast_path path_sql "boolean" jsonb_column true in
    Ok (_build_comparison operator casted_path (PBool (Py.truthy value)))
  else if operator =s "isnull" then Ok (Some (_build_null_check path_sql value))
  else Ok None.

Definition strategy : strategy :=
  {| strategy_name := "BooleanOperatorStrategy";
     OpBase.supports_operator := supports_operator; OpBase.build_sql := build_sql |}.
End Boolean.

(** [core/numeric_operators.py] *)
Module Numeric.
Definition SUPPORTED_OPERATORS : list string :=
  ["eq"; "neq"; "gt"; "gte"; "lt"; "lte"; "in"; "nin"; "isnull"].

Definition supports_operator (operator : string) (field_type : option pytype) : bool :=
  if negb (operator in_ SUPPORTED_OPERATORS) then false
  else match field_type with
       | None => operator in_ ["gt"; "gte"; "lt"; "lte"]
       | Some t => if bool_decide (t = TyBool) then false else subclass_int_float t
       end.

Definition build_sql (operator : string) (value : pyval) (path_sql : composable)
    (field_type : option pytype) (jsonb_column : option string) : result (option composable) :=
  let casted_path :=
    if given jsonb_column then
      let cast_type :=
        if bool_decide (field_type = Some TyInt) || Py.is_int value then "integer"
        else "numeric" in
      _cast_path path_sql cast_type jsonb_column true
    else path_sql in
  match _build_comparison operator casted_path value with
  | Some comparison_sql => Ok (Some comparison_sql)
  | None =>
      if operator =s "in" then Ok (Some (_build_in_operator casted_path value false None))
      else if operator =s "nin" then Ok (Some (_build_in_operator casted_path value true None))
      else if operator =s "isnull" then Ok (Some (_build_null_check path_sql value))
      else Ok None
  end.

Definition strategy : strategy :=
  {| strategy_name := "NumericOperatorStrategy";
     OpBase.supports_operator := supports_operator; OpBase.build_sql := build_sql |}.
End Numeric.

(** [core/string_operators.py] *)
Module StringOps.
Definition SUPPORTED_OPERATORS : list string :=
  ["eq"; "neq"; "contains"; "icontains"; "startswith"; "istartswith"; "endswith";
   "iendswith"; "in"; "nin"; "isnull"; "like"; "ilike"; "matches"; "imatches"; "not_matches"].

Definition supports_operator (operator : string) (field_type : option pytype) : bool :=
  match field_type with
  | None =>
      operator in_ ["contains"; "icontains"; "startswith"; "istartswith"; "endswith";
                    "iendswith"; "like"; "ilike"; "matches"; "imatches"; "not_matches"]
  | Some t => if bool_decide (t = TyStr) then operator in_ SUPPORTED_OPERATORS else false
  end.

(** [SQL("{} op {}").format(path, Literal(text))] *)
Definition fmt2 (t : string) (path : composable) (v : pyval) : result (option composable) :=
  Ok (Some (Format t [path; Literal v])).

(** The two forms of a wildcard operator: [LIKE] for a string, a regular
    expression for another value. *)
Definition wildcard (value : pyval) (path : composable)
    (like : string) (pre post : string) (regex : string) (regex_value : pyval)
    : result (option composable) :=
  match value with
  | PStr s => fmt2 like path (PStr (pre +:+ s +:+ post)%stdpp)
  | _ => fmt2 regex path regex_value
  end.

Definition build_sql (operator : string) (value : pyval) (path_sql : composable)
    (field_type : option pytype) (jsonb_column : option string) : result (option composable) :=
  let casted_path := _cast_path path_sql "text" jsonb_column false in
  let text := Py.str value in
  if operator in_ ["eq"; "neq"] then
    Ok (_build_comparison operator casted_path (PStr text))
  else if operator =s "contains" then
    wildcard value casted_path "{} LIKE {}" "%" "%" "{} ~ {}" (PStr (".*" +:+ text +:+ ".*")%stdpp)
  else if operator =s "icontains" then
    wildcard value casted_path "{} ILIKE {}" "%" "%" "{} ~* {}" value
  else if operator =s "startswith" then
    wildcard value casted_path "{} LIKE {}" EmptyString "%" "{} ~ {}"
      (PStr ("^" +:+ text +:+ ".*")%stdpp)
  else if operator =s "istartswith" then
    wildcard value casted_path "{} ILIKE {}" EmptyString "%" "{} ~* {}" (PStr ("^" +:+ text)%stdpp)
  else if operator =s "endswith" then
    wildcard value casted_path "{} LIKE {}" "%" EmptyString "{} ~ {}"
      (PStr (".*" +:+ text +:+ "$")%stdpp)
  else if operator =s "iendswith" then
    wildcard value casted_path "{} ILIKE {}" "%" EmptyString "{} ~* {}" (PStr (text +:+ "$")%stdpp)
  else if operator =s "like" then fmt2 "{} LIKE {}" casted_path (PStr text)
  else if operator =s "ilike" then fmt2 "{} ILIKE {}" casted_path (PStr text)
  else if operator =s "matches" then fmt2 "{} ~ {}" casted_path value
  else if operator =s "imatches" then fmt2 "{} ~* {}" casted_path value
  else if operator =s "not_matches" then fmt2 "{} !~ {}" casted_path value
  else if operator =s "in" then
    Ok (Some (_build_in_operator casted_path
                (PList (map (λ v, PStr (Py.str v)) (Py.as_list_or_tuple value))) false None))
  else if operator =s "nin" then
    Ok (Some (_build_in_operator casted_path
                (PList (map (λ v, PStr (Py.str v)) (Py.as_list_or_tuple value))) true None))
  else if operator =s "isnull" then Ok (Some (_build_null_check path_sql value))
  else Ok None.

Definition strategy : strategy :=
  {| strategy_name := "StringOperatorStrategy";
     OpBase.supports_operator := supports_operator; OpBase.build_sql := build_sql |}.
End StringOps.

(** [fallback/comparison_operators.py] *)
Module Comparison.
Definition SUPPORTED_OPERATORS : list string := ["eq"; "neq"; "gt"; "gte"; "lt"; "lte"].

Definition OPERATOR_MAP : list (string * string) :=
  [("eq", " = "); ("neq", " != "); ("gt", " > "); ("gte", " >= "); ("lt", " < ");
   ("lte", " <= ")].

Definition supports_operator (operator : string) (field_type : option pytype) : bool :=
  operator in_ SUPPORTED_OPERATORS.

Definition _apply_type_cast (path_sql : composable) (value : pyval) : composable :=
  if Py.is_bool value then path_sql
  else if Py.is_int_float_decimal value then Format "({})::numeric" [path_sql]
  else if Py.is_datetime value then Format "({})::timestamp" [path_sql]
  else if Py.is_date value then Format "({})::date" [path_sql]
  else if Py.is_uuid value then Format "({})::uuid" [path_sql]
  else match value with
       | PStr s => if Ip.pattern_match s then Format "({})::inet" [path_sql] else path_sql
       | _ => path_sql
       end.

Definition build_sql (operator : string) (value : pyval) (path_sql : composable)
    (field_type : option pytype) (jsonb_column : option string) : result (option composable) :=
  let casted_path :=
    if given jsonb_column then _apply_type_cast path_sql value
    else match value with
         | PStr s => if Ip.pattern_match s then Format "({})::inet" [path_sql] else path_sql
         | _ => path_sql
         end in
  match dict_get operator OPERATOR_MAP with
  | None => Ok None
  | Some sql_op =>
      match value with
      | PBool b =>
          if given jsonb_column then
            Ok (Some (Format "{}{}{}"
                        [casted_path; SQL sql_op; Literal (PStr (if b then "true" else "false"))]))
          else Ok (Some (Format "{}{}{}" [casted_path; SQL sql_op; Literal value]))
      | _ => Ok (Some (Format "{}{}{}" [casted_path; SQL sql_op; Literal value]))
      end
  end.

Definition strategy : strategy :=
  {| strategy_name := "ComparisonOperatorStrategy";
     OpBase.supports_operator := supports_operator; OpBase.build_sql := build_sql |}.
End Comparison.

(** The loop that writes [sep] before every item but the first. *)
Definition comma_list (items : list (list composable)) : list composable :=
  concat (intersperse [SQL ", "] items).

(** [fallback/list_operators.py] *)
Module ListOps.
Definition SUPPORTED_OPERATORS : list string := ["in"; "notin"].

Definition supports_operator (operator : string) (field_type : option pytype) : bool :=
  operator in_ SUPPORTED_OPERATORS.

Definition _apply_type_cast (path_sql : composable) (value : pyval) : composable :=
  if Py.is_bool value then path_sql
  else if Py.is_int_float_decimal value then Format "({})::numeric" [path_sql]
  else path_sql.

Definition build_sql (operator : string) (value : pyval) (path_sql : composable)
    (field_type : option pytype) (jsonb_column : option string) : result (option composable) :=
  match value with
  | PList items =>
      let casted_path :=
        match items with
        | v0 :: _ =>
            if given jsonb_column then _apply_type_cast path_sql v0
            else match v0 with
                 | PStr s =>
                     if Ip.pattern_match s then Format "({})::inet" [path_sql] else path_sql
                 | _ => path_sql
                 end
        | [] => path_sql
        end in
      let literals :=
        if negb (bool_decide (items = [])) && forallb Py.is_bool items then
          map (λ v, Literal (PStr (if Py.truthy v then "true" else "false"))) items
        else map Literal items in
      Ok (Some (Composed ([casted_path]
                            ++ [SQL (if operator =s "in" then " IN (" else " NOT IN (")]
                            ++ comma_list (map (λ lit, [lit]) literals)
                            ++ [SQL ")"])))
  | _ => Err TypeError
  end.

Definition strategy : strategy :=
  {| strategy_name := "ListOperatorStrategy";
     OpBase.supports_operator := supports_operator; OpBase.build_sql := build_sql |}.
End ListOps.

(** [fallback/null_operators.py] *)
Module Null.
Definition supports_operator (operator : string) (field_type : option pytype) : bool :=
  operator =s "isnull".

Definition build_sql (operator : string) (value : pyval) (path_sql : composable)
    (field_type : option pytype) (jsonb_column : option string) : result (option composable) :=
  if operator =s "isnull" then
    if Py.truthy value then Ok (Some (Format "{} IS NULL" [path_sql]))
    else Ok (Some (Format "{} IS NOT NULL" [path_sql]))
  else Ok None.

Definition strategy : strategy :=
  {| strategy_name := "NullOperatorStrategy";
     OpBase.supports_operator := supports_operator; OpBase.build_sql := build_sql |}.
End Null.

(** [fallback/path_operators.py] *)
Module Path.
Definition SUPPORTED_OPERATORS : list string :=
  ["depth_eq"; "depth_gt"; "depth_lt"; "isdescendant"].

Definition supports_operator (operator : string) (field_type : option pytype) : bool :=
  operator in_ SUPPORTED_OPERATORS.

Definition build_sql (operator : string) (value : pyval) (path_sql : composable)
    (field_type : option pytype) (jsonb_column : option string) : result (option composable) :=
  if operator =s "depth_eq" then Ok (Some (Format "nlevel({}) = {}" [path_sql; Literal value]))
  else if operator =s "depth_gt" then
    Ok (Some (Format "nlevel({}) > {}" [path_sql; Literal value]))
  else if operator =s "depth_lt" then
    Ok (Some (Format "nlevel({}) < {}" [path_sql; Literal value]))
  else if operator =s "isdescendant" then
    Ok (Some (Format "{} <@ {}" [path_sql; Literal value]))
  else Ok None.

Definition strategy : strategy :=
  {| strategy_name := "PathOperatorStrategy";
     OpBase.supports_operator := supports_operator; OpBase.build_sql := build_sql |}.
End Path.

(** [fallback/pattern_operators.py] *)
Module Pattern.
Definition SUPPORTED_OPERATORS : list string :=
  ["matches"; "imatches"; "not_matches"; "startswith"; "endswith"; "contains"; "ilike"].

Definition supports_operator (operator : string) (field_type : option pytype) : bool :=
  operator in_ SUPPORTED_OPERATORS.

Definition build_sql (operator : string) (value : pyval) (path_sql : composable)
    (field_type : option pytype) (jsonb_column : option string) : result (option composable) :=
  let text := Py.str value in
  if operator =s "matches" then StringOps.fmt2 "{} ~ {}" path_sql value
  else if operator =s "imatches" then StringOps.fmt2 "{} ~* {}" path_sql value
  else if operator =s "not_matches" then StringOps.fmt2 "{} !~ {}" path_sql value
  else if operator =s "startswith" then
    StringOps.wildcard value path_sql "{} LIKE {}" EmptyString "%" "{} ~ {}"
      (PStr ("^" +:+ text +:+ ".*")%stdpp)
  else if operator =s "endswith" then
    StringOps.wildcard value path_sql "{} LIKE {}" "%" EmptyString "{} ~ {}"
      (PStr (".*" +:+ text +:+ "$")%stdpp)
  else if operator =s "contains" then
    StringOps.wildcard value path_sql "{} LIKE {}" "%" "%" "{} ~ {}"
      (PStr (".*" +:+ text +:+ ".*")%stdpp)
  else if operator =s "ilike" then
    StringOps.wildcard value path_sql "{} ILIKE {}" "%" "%" "{} ~* {}" value
  else Ok None.

Definition strategy : strategy :=
  {| strategy_name := "PatternOperatorStrategy";
     OpBase.supports_operator := supports_operator; OpBase.build_sql := build_sql |}.
End Pattern.

(** [advanced/jsonb_operators.py] *)
Module Jsonb.
Definition SUPPORTED_OPERATORS : list string := ["overlaps"; "strictly_contains"].

Definition supports_operator (operator : string) (field_type : option pytype) : bool :=
  operator in_ SUPPORTED_OPERATORS.

Definition build_sql (operator : string) (value : pyval) (path_sql : composable)
    (field_type : option pytype) (jsonb_column : option string) : result (option composable) :=
  if operator =s "overlaps" then Ok (Some (Format "{} && {}" [path_sql; Literal value]))
  else if operator =s "strictly_contains" then
    Ok (Some (Format "{} @> {} AND {} != {}"
                [path_sql; Literal value; path_sql; Literal value]))
  else Ok None.

Definition strategy : strategy :=
  {| strategy_name := "JsonbOperatorStrategy";
     OpBase.supports_operator := supports_operator; OpBase.build_sql := build_sql |}.
End Jsonb.

(** [array/array_operators.py] *)
Module Array.
Definition SUPPORTED_OPERATORS : list string :=
  ["eq"; "neq"; "contains"; "contained_by"; "overlaps"; "len_eq"; "len_neq"; "len_gt";
   "len_gte"; "len_lt"; "len_lte"; "any_eq"; "all_eq"].

Definition supports_operator (operator : string) (field_type : option pytype) : bool :=
  if negb (operator in_ SUPPORTED_OPERATORS) then false
  else match field_type with
       | None => false
       | Some t => origin_is_list t
       end.

(** [SQL(t).format(path, Literal(json.dumps(value)))] *)
Definition with_json (t : string) (path_sql : composable) (value : pyval)
    : result (option composable) :=
  json_str ← Json.dumps value;
  Ok (Some (Format t [path_sql; Literal (PStr json_str)])).

(** ["{" + ",".join(f'"{elem}"' for elem in value) + "}"] *)
Definition array_str (items : list pyval) : string :=
  let q := String Py.dquote EmptyString in
  ("{" +:+ Str.join "," (map (λ v, q +:+ Py.str v +:+ q) items) +:+ "}")%stdpp.

Definition build_sql (operator : string) (value : pyval) (path_sql : composable)
    (field_type : option pytype) (jsonb_column : option string) : result (option composable) :=
  if operator =s "eq" then with_json "{} = {}::jsonb" path_sql value
  else if operator =s "neq" then with_json "{} != {}::jsonb" path_sql value
  else if operator =s "contains" then with_json "{} @> {}::jsonb" path_sql value
  else if operator =s "contained_by" then with_json "{} <@ {}::jsonb" path_sql value
  else if operator =s "overlaps" then
    match value with
    | PList items => Ok (Some (Format "{} ?| {}" [path_sql; Literal (PStr (array_str items))]))
    | _ => with_json "{} ?| {}" path_sql value
    end
  else if operator =s "len_eq" then
    Ok (Some (Format "jsonb_array_length({}) = {}" [path_sql; Literal value]))
  else if operator =s "len_neq" then
    Ok (Some (Format "jsonb_array_length({}) != {}" [path_sql; Literal value]))
  else if operator =s "len_gt" then
    Ok (Some (Format "jsonb_array_length({}) > {}" [path_sql; Literal value]))
  else if operator =s "len_gte" then
    Ok (Some (Format "jsonb_array_length({}) >= {}" [path_sql; Literal value]))
  else if operator =s "len_lt" then
    Ok (Some (Format "jsonb_array_length({}) < {}" [path_sql; Literal value]))
  else if operator =s "len_lte" then
    Ok (Some (Format "jsonb_array_length({}) <= {}" [path_sql; Literal value]))
  else if operator =s "any_eq" then
    Ok (Some (Format "EXISTS (SELECT 1 FROM jsonb_array_elements_text({}) AS elem WHERE elem = {})"
                [path_sql; Literal value]))
  else if operator =s "all_eq" then
    Ok (Some (Format
                "jsonb_array_length({}) = (SELECT COUNT(*) FROM jsonb_array_elements_text({}) AS elem WHERE elem = {})"
                [path_sql; path_sql; Literal value]))
  else Ok None.

Definition strategy : strategy :=
  {| strategy_name := "ArrayOperatorStrategy";
     OpBase.supports_operator := supports_operator; OpBase.build_sql := build_sql |}.
End Array.
