(* ===== verification/OpPg.v ===== *)
(** * PostgreSQL-type operator strategies: network, MAC address, date range,
    ltree and coordinates ([sql/operators/postgresql],
    [advanced/coordinate_operators.py]) *)
From stdpp Require Import base decidable strings list.
From Stdlib Require Import ZArith Lia Ascii.
From S2P Require Import Prelude PyVal Sql OpBase OpCore.

Local Open Scope py_scope.

(** [SQL("{} op {}").format(casted_path, casted_value)] after [_cast_both_sides]. *)
Definition both_sides (t : string) (path_sql : composable) (value : pyval) (target_type : string)
    : result (option composable) :=
  let '(casted_path, casted_value) :=
    _cast_both_sides path_sql (PStr (Py.str value)) target_type true in
  Ok (Some (Format t [casted_path; casted_value])).

(** The IN and NOT IN of the typed strategies: path and values cast. *)
Definition typed_in (t : string) (casted_path : composable) (value : pyval) (target_type : string)
    : result (option composable) :=
  let casted_values :=
    _cast_list_values (map (λ v, PStr (Py.str v)) (Py.as_list_or_tuple value)) target_type true in
  Ok (Some (Format t [casted_path; Join ", " casted_values])).

(** [postgresql/network_operators.py] *)
Module Network.

Definition LOOPBACK_RANGES := ["127.0.0.0/8"; "::1/128"].
Definition MULTICAST_RANGES := ["224.0.0.0/4"; "ff00::/8"].
Definition BROADCAST_RANGES := ["255.255.255.255/32"].
Definition LINK_LOCAL_RANGES := ["169.254.0.0/16"; "fe80::/10"].
Definition DOCUMENTATION_RANGES :=
  ["192.0.2.0/24"; "198.51.100.0/24"; "203.0.113.0/24"; "2001:db8::/32"].
Definition RESERVED_RANGES := ["0.0.0.0/8"; "240.0.0.0/4"; "::/128"].
Definition CARRIER_GRADE_RANGES := ["100.64.0.0/10"].
Definition SITE_LOCAL_RANGES := ["fec0::/10"].
Definition UNIQUE_LOCAL_RANGES := ["fc00::/7"].
Definition PRIVATE_RANGES :=
  ["10.0.0.0/8"; "172.16.0.0/12"; "192.168.0.0/16"; "127.0.0.0/8"; "169.254.0.0/16"; "fc00::/7";
   "fe80::/10"].
Definition ALL_SPECIAL_PURPOSE_RANGES :=
  Str.sorted_set
    (PRIVATE_RANGES ++ LOOPBACK_RANGES ++ MULTICAST_RANGES ++ BROADCAST_RANGES
       ++ LINK_LOCAL_RANGES ++ DOCUMENTATION_RANGES ++ RESERVED_RANGES ++ CARRIER_GRADE_RANGES
       ++ SITE_LOCAL_RANGES ++ UNIQUE_LOCAL_RANGES).

Definition _build_cidr_check (path_sql : composable) (ranges : list string) (negate : bool)
    : composable :=
  let casted := Format "({})::inet" [path_sql] in
  let checks :=
    Join " OR " (map (λ cidr, Format "{} << inet '{}'" [casted; SQL cidr]) ranges) in
  let condition := Format "({})" [checks] in
  if negate then Format "NOT ({})" [condition] else condition.

(** Operators accepted without a field type. *)
Definition SPECIFIC_OPERATORS : list string :=
  ["isprivate"; "ispublic"; "insubnet"; "inrange"; "isipv4"; "isipv6"; "overlaps"; "strictleft";
   "strictright"; "isPrivate"; "isPublic"; "inSubnet"; "inRange"; "isIPv4"; "isIPv6"; "isLoopback";
   "isMulticast"; "isBroadcast"; "isLinkLocal"; "isDocumentation"; "isReserved"; "isCarrierGrade";
   "isSiteLocal"; "isUniqueLocal"; "isGlobalUnicast"; "isloopback"; "ismulticast"; "isbroadcast";
   "islinklocal"; "isdocumentation"; "isreserved"; "iscarriergrade"; "issitelocal";
   "isuniquelocal"; "isglobalunicast"].

Definition SUPPORTED_OPERATORS : list string :=
  ["eq"; "neq"; "in"; "nin"; "isnull"] ++ SPECIFIC_OPERATORS.

Definition NETWORK_TYPES : list string :=
  ["IPv4Address"; "IPv6Address"; "IPv4Network"; "IPv6Network"; "IpAddress"].

Definition is_network_type (t : pytype) : bool :=
  existsb (λ net_type, Str.has_sub net_type (type_name t)) NETWORK_TYPES.

Definition supports_operator (operator : string) (field_type : option pytype) : bool :=
  if negb (operator in_ SUPPORTED_OPERATORS) then false
  else if operator in_ SPECIFIC_OPERATORS then
    match field_type with
    | Some t => is_network_type t
    | None => true
    end
  else match field_type with
       | Some t => is_network_type t
       | None => false
       end.

Definition build_sql (operator : string) (value : pyval) (path_sql : composable)
    (field_type : option pytype) (jsonb_column : option string) : result (option composable) :=
  let yes := Py.truthy value in
  let casted_path := Format "({})::inet" [path_sql] in
  let cidr ranges negate := Ok (Some (_build_cidr_check path_sql ranges negate)) in
  if operator =s "eq" then both_sides "{} = {}" path_sql value "inet"
  else if operator =s "neq" then both_sides "{} != {}" path_sql value "inet"
  else if operator =s "in" then typed_in "{} IN ({})" casted_path value "inet"
  else if operator =s "nin" then typed_in "{} NOT IN ({})" casted_path value "inet"
  else if operator in_ ["isprivate"; "isPrivate"] then cidr PRIVATE_RANGES (negb yes)
  else if operator in_ ["ispublic"; "isPublic"] then cidr PRIVATE_RANGES yes
  else if operator in_ ["isloopback"; "isLoopback"] then cidr LOOPBACK_RANGES (negb yes)
  else if operator in_ ["ismulticast"; "isMulticast"] then cidr MULTICAST_RANGES (negb yes)
  else if operator in_ ["isbroadcast"; "isBroadcast"] then cidr BROADCAST_RANGES (negb yes)
  else if operator in_ ["islinklocal"; "isLinkLocal"] then cidr LINK_LOCAL_RANGES (negb yes)
  else if operator in_ ["isdocumentation"; "isDocumentation"] then
    cidr DOCUMENTATION_RANGES (negb yes)
  else if operator in_ ["isreserved"; "isReserved"] then cidr RESERVED_RANGES (negb yes)
  else if operator in_ ["iscarriergrade"; "isCarrierGrade"] then
    cidr CARRIER_GRADE_RANGES (negb yes)
  else if operator in_ ["issitelocal"; "isSiteLocal"] then cidr SITE_LOCAL_RANGES (negb yes)
  else if operator in_ ["isuniquelocal"; "isUniqueLocal"] then cidr UNIQUE_LOCAL_RANGES (negb yes)
  else if operator in_ ["isglobalunicast"; "isGlobalUnicast"] then
    cidr ALL_SPECIAL_PURPOSE_RANGES yes
  else if operator in_ ["insubnet"; "inSubnet"] then both_sides "{} <<= {}" path_sql value "inet"
  else if operator in_ ["inrange"; "inRange"] then both_sides "{} <<= {}" path_sql value "inet"
  else if operator in_ ["isipv4"; "isIPv4"] then Ok (Some (Format "family({}) = 4" [casted_path]))
  else if operator in_ ["isipv6"; "isIPv6"] then Ok (Some (Format "family({}) = 6" [casted_path]))
  else if operator =s "overlaps" then both_sides "{} && {}" path_sql value "inet"
  else if operator =s "strictleft" then both_sides "{} << {}" path_sql value "inet"
  else if operator =s "strictright" then both_sides "{} >> {}" path_sql value "inet"
  else if operator =s "isnull" then Ok (Some (_build_null_check path_sql value))
  else Ok None.

Definition strategy : strategy :=
  {| strategy_name := "NetworkOperatorStrategy";
     OpBase.supports_operator := supports_operator; OpBase.build_sql := build_sql |}.

End Network.

(** [postgresql/macaddr_operators.py] *)
Module MacAddr.

Definition supports_operator (operator : string) (field_type : option pytype) : bool :=
  match field_type with
  | Some t =>
      Str.has_sub "MacAddr" (type_name t) || Str.has_sub "macaddr" (Str.lower (type_name t))
      || Str.has_sub "MacAddress" (type_name t)
  | None => false
  end.

Definition build_sql (operator : string) (value : pyval) (path_sql : composable)
    (field_type : option pytype) (jsonb_column : option string) : result (option composable) :=
  let rejected :=
    match field_type with
    | Some t =>
        (operator in_ ["contains"; "startswith"; "endswith"]) && has_name t
        && (Str.has_sub "mac" (Str.lower (type_name t))
            || Str.has_sub "macaddr" (Str.lower (type_name t)))
    | None => false
    end in
  let casted_path := Format "({})::{}" [path_sql; SQL "macaddr"] in
  if rejected then Err ValueError
  else if operator =s "eq" then both_sides "{} = {}" path_sql value "macaddr"
  else if operator =s "neq" then both_sides "{} != {}" path_sql value "macaddr"
  else if operator =s "in" then typed_in "{} IN ({})" casted_path value "macaddr"
  else if operator in_ ["nin"; "notin"] then typed_in "{} NOT IN ({})" casted_path value "macaddr"
  else if operator =s "isnull" then Ok (Some (_build_null_check path_sql value))
  else Ok None.

Definition strategy : strategy :=
  {| strategy_name := "MacAddressOperatorStrategy";
     OpBase.supports_operator := supports_operator; OpBase.build_sql := build_sql |}.

End MacAddr.

(** [postgresql/daterange_operators.py] *)
Module DateRange.

Definition is_daterange (t : pytype) : bool :=
  Str.has_sub "DateRange" (type_name t) || Str.has_sub "daterange" (Str.lower (type_name t)).

Definition specialized_operators : list string :=
  ["contains_date"; "overlaps"; "adjacent"; "strictly_left"; "strictly_right"; "not_left";
   "not_right"].

Definition supports_operator (operator : string) (field_type : option pytype) : bool :=
  match field_type with
  | Some t => is_daterange t || (operator in_ specialized_operators)
  | None => operator in_ specialized_operators
  end.

Definition build_sql (operator : string) (value : pyval) (path_sql : composable)
    (field_type : option pytype) (jsonb_column : option string) : result (option composable) :=
  let rejected :=
    match field_type with
    | Some t =>
        (operator in_ ["contains"; "startswith"; "endswith"]) && has_name t
        && Str.has_sub "daterange" (Str.lower (type_name t))
    | None => false
    end in
  let casted_path := Format "({})::daterange" [path_sql] in
  if rejected then Err ValueError
  else if operator =s "eq" then both_sides "{} = {}" path_sql value "daterange"
  else if operator =s "neq" then both_sides "{} != {}" path_sql value "daterange"
  else if operator =s "contains_date" then
    Ok (Some (Format "{} @> {}" [casted_path; Format "{}::date" [Literal (PStr (Py.str value))]]))
  else if operator =s "overlaps" then both_sides "{} && {}" path_sql value "daterange"
  else if operator =s "adjacent" then both_sides "{} -|- {}" path_sql value "daterange"
  else if operator =s "strictly_left" then both_sides "{} << {}" path_sql value "daterange"
  else if operator =s "strictly_right" then both_sides "{} >> {}" path_sql value "daterange"
  else if operator =s "not_left" then both_sides "{} &> {}" path_sql value "daterange"
  else if operator =s "not_right" then both_sides "{} &< {}" path_sql value "daterange"
  else if operator =s "in" then typed_in "{} IN ({})" casted_path value "daterange"
  else if operator in_ ["nin"; "notin"] then
    typed_in "{} NOT IN ({})" casted_path value "daterange"
  else if operator =s "isnull" then Ok (Some (_build_null_check path_sql value))
  else Ok None.

Definition strategy : strategy :=
  {| strategy_name := "DateRangeOperatorStrategy";
     OpBase.supports_operator := supports_operator; OpBase.build_sql := build_sql |}.

End DateRange.

(** [postgresql/ltree_operators.py] *)
Module LTree.

(** Operators handled whatever the field type, besides the [nlevel_], [depth_]
    and [index_] families. *)
Definition ALWAYS_OPERATORS : list string :=
  ["ancestor_of"; "descendant_of"; "matches_lquery"; "matches_ltxtquery"; "matches_any_lquery";
   "in_array"; "array_contains"; "concat"; "lca"; "nlevel"; "subpath"; "index"].

Definition SUPPORTED_OPERATORS : list string :=
  ["eq"; "neq"; "lt"; "gt"; "lte"; "gte"; "in"; "nin"; "notin"; "ancestor_of"; "descendant_of";
   "matches_lquery"; "matches_ltxtquery"; "matches_any_lquery"; "in_array"; "array_contains";
   "concat"; "lca"; "nlevel"; "nlevel_eq"; "nlevel_gt"; "nlevel_gte"; "nlevel_lt"; "nlevel_lte";
   "nlevel_neq"; "depth_eq"; "depth_gt"; "depth_gte"; "depth_lt"; "depth_lte"; "depth_neq";
   "subpath"; "index"; "index_eq"; "index_gte"; "isnull"; "contains"; "startswith"; "endswith"].

Definition is_ltree (t : pytype) : bool :=
  Str.has_sub "LTree" (type_name t) || Str.has_sub "ltree" (Str.lower (type_name t)).

Definition supports_operator (operator : string) (field_type : option pytype) : bool :=
  if negb (operator in_ SUPPORTED_OPERATORS) then false
  else if (operator in_ ALWAYS_OPERATORS) || Str.starts_with "nlevel_" operator
          || Str.starts_with "depth_" operator || Str.starts_with "index_" operator then true
  else match field_type with
       | Some t => is_ltree t
       | None => false
       end.

Definition comparison_ops : list (string * string) :=
  [("eq", "="); ("neq", "!="); ("gt", ">"); ("gte", ">="); ("lt", "<"); ("lte", "<=")].

(** ['p1'::ltree, 'p2'::ltree, ...] *)
Definition ltree_items (paths : list pyval) : list composable :=
  comma_list (map (λ p, [Literal (PStr (Py.str p)); SQL "::ltree"]) paths).

(** The [(a, b)] and [(a, path_sql, b)] forms of a tuple operand: the first and
    last items, and the path to use. *)
Definition tuple_operand (casted_path : composable) (value : pyval)
    : result (pyval * composable * pyval) :=
  match value with
  | PTuple [a; b] => Ok (a, casted_path, b)
  | PTuple [a; middle_path_sql; b] =>
      Ok (a, Format "({})::ltree" [Py.to_composable middle_path_sql], b)
  | _ => Err TypeError
  end.

(** [index(path, label) op position] *)
Definition index_compare (op : string) (casted_path : composable) (value : pyval)
    : result (option composable) :=
  '(sublabel, path, position) ← tuple_operand casted_path value;
  let index_expr :=
    Composed [SQL "index("; path; SQL ", "; Literal (PStr (Py.str sublabel)); SQL "::ltree)"] in
  n ← Py.int position;
  Ok (Some (Composed [index_expr; SQL op; Literal (PInt n)])).

(** The branch [array_contains]: the constructed array contains the target path. *)
Definition array_contains_sql (value : pyval) : result (option composable) :=
  match value with
  | PTuple [PList paths; target_path] | PTuple [PList paths; _; target_path] =>
      Ok (Some (Composed ([SQL "ARRAY["] ++ ltree_items paths
                            ++ [SQL "] @> "; Literal (PStr (Py.str target_path));
                                SQL "::ltree"])))
  | _ => Err TypeError
  end.

(** The branch [subpath]. *)
Definition subpath_sql (casted_path : composable) (value : pyval) : result (option composable) :=
  '(offset, path_for_subpath, length) ← tuple_operand casted_path value;
  o ← Py.int offset;
  n ← Py.int length;
  Ok (Some (Composed [SQL "subpath("; path_for_subpath; SQL ", "; Literal (PInt o); SQL ", ";
                      Literal (PInt n); SQL ")"])).

Definition build_sql (operator : string) (value : pyval) (path_sql : composable)
    (field_type : option pytype) (jsonb_column : option string) : result (option composable) :=
  let text := Literal (PStr (Py.str value)) in
  let casted_path := Format "({})::ltree" [path_sql] in
  let fmt t := Ok (Some (Format t [casted_path; text])) in
  let texts := PList (map (λ v, PStr (Py.str v)) (Py.as_list_or_tuple value)) in
  if (operator in_ ["contains"; "startswith"; "endswith"])
     && match field_type with Some t => is_ltree t | None => false end then Err ValueError
  else if operator =s "eq" then fmt "{} = {}::ltree"
  else if operator =s "neq" then fmt "{} != {}::ltree"
  else if operator =s "lt" then fmt "{} < {}::ltree"
  else if operator =s "gt" then fmt "{} > {}::ltree"
  else if operator =s "lte" then fmt "{} <= {}::ltree"
  else if operator =s "gte" then fmt "{} >= {}::ltree"
  else if operator =s "ancestor_of" then fmt "{} @> {}::ltree"
  else if operator =s "descendant_of" then fmt "{} <@ {}::ltree"
  else if operator =s "matches_lquery" then fmt "{} ~ {}::lquery"
  else if operator =s "matches_ltxtquery" then fmt "{} @ {}::ltxtquery"
  else if operator =s "in" then
    Ok (Some (_build_in_operator casted_path texts false (Some "ltree")))
  else if operator in_ ["nin"; "notin"] then
    Ok (Some (_build_in_operator casted_path texts true (Some "ltree")))
  else if operator =s "matches_any_lquery" then
    match value with
    | PList [] => Err ValueError
    | PList patterns =>
        Ok (Some (Composed ([casted_path; SQL " ? ARRAY["]
                              ++ comma_list (map (λ p, [Literal (PStr (Py.str p))]) patterns)
                              ++ [SQL "]"])))
    | _ => Err TypeError
    end
  else if operator =s "in_array" then
    match value with
    | PList paths =>
        Ok (Some (Composed ([casted_path; SQL " <@ ARRAY["] ++ ltree_items paths ++ [SQL "]"])))
    | _ => Err TypeError
    end
  else if operator =s "array_contains" then
    array_contains_sql value
  else if operator =s "concat" then
    match value with
    | PNone => Ok (Some (Format "{} || NULL::ltree" [casted_path]))
    | _ => fmt "{} || {}::ltree"
    end
  else if operator =s "lca" then
    match value with
    | PList [] => Err ValueError
    | PList paths => Ok (Some (Composed ([SQL "lca(ARRAY["] ++ ltree_items paths ++ [SQL "])"])))
    | _ => Err TypeError
    end
  else if operator =s "nlevel" then
    Ok (Some (Composed [SQL "nlevel("; casted_path; SQL ")"]))
  else if Str.starts_with "nlevel_" operator || Str.starts_with "depth_" operator then
    let comparison :=
      if Str.starts_with "depth_" operator then Str.remove_all 0 "depth_" operator
      else Str.remove_all 0 "nlevel_" operator in
    match dict_get comparison comparison_ops with
    | None => Ok None
    | Some sql_op =>
        n ← Py.int value;
        Ok (Some (Composed [Composed [SQL "nlevel("; casted_path; SQL ")"];
                            SQL (" " +:+ sql_op +:+ " ")%stdpp; Literal (PInt n)]))
    end
  else if operator =s "subpath" then
    subpath_sql casted_path value
  else if operator =s "index" then
    Ok (Some (Composed [SQL "index("; casted_path; SQL ", "; text; SQL "::ltree)"]))
  else if operator =s "index_eq" then index_compare " = " casted_path value
  else if operator =s "index_gte" then index_compare " >= " casted_path value
  else if operator =s "isnull" then Ok (Some (_build_null_check path_sql value))
  else Ok None.

Definition strategy : strategy :=
  {| strategy_name := "LTreeOperatorStrategy";
     OpBase.supports_operator := supports_operator; OpBase.build_sql := build_sql |}.

End LTree.

(** [types/scalars/coordinates.py]: reading a coordinate. *)
Module Coordinate.

Import Num.

(** Both numbers as floats; another type raises. *)
Definition both_floats (lat lng : pyval) : result (pyfloat * pyfloat) :=
  if Py.is_int_float lat && Py.is_int_float lng then
    a ← Py.float lat; b ← Py.float lng; Ok (a, b)
  else Err GraphQLError.

(** [float(text)], its ValueError turned into a GraphQLError. *)
Definition float_part (s : string) : result pyfloat :=
  match float_of_string (Str.strip s) with
  | Err ValueError => Err GraphQLError
  | r => r
  end.

(** [clean_value[1:-1]] of a text in parentheses. *)
Definition unwrap (s : string) : string :=
  if Str.starts_with "(" s && Str.ends_with ")" s then
    Str.drop 1 (Str.take (pred (String.length s)) s)
  else s.

Definition _extract_lat_lng (value : pyval) : result (pyfloat * pyfloat) :=
  match value with
  | PStr s =>
      match Str.split "," (unwrap (Str.strip s)) with
      | [p0; p1] => lat ← float_part p0; lng ← float_part p1; Ok (lat, lng)
      | _ => Err GraphQLError
      end
  | PTuple [lat; lng] => both_floats lat lng
  | PDict d =>
      match dict_get "lat" d, dict_get "lng" d with
      | Some lat, Some lng => both_floats lat lng
      | _, _ => Err GraphQLError
      end
  | _ => Err GraphQLError
  end.

Definition within (bound : Z) (x : pyfloat) : bool :=
  float_leb (FFin (- bound) 0) x && float_leb x (FFin bound 0).

Definition parse_coordinate_value (value : pyval) : result (pyfloat * pyfloat) :=
  '(lat, lng) ← _extract_lat_lng value;
  if negb (within 90 lat) then Err GraphQLError
  else if negb (within 180 lng) then Err GraphQLError
  else Ok (lat, lng).

End Coordinate.

(** [advanced/coordinate_operators.py] *)
Module CoordinateOps.

(** [_distance_method()] *)
Definition _distance_method (env : app_env) : string :=
  match config_distance_method env with
  | Some m => Str.lower m
  | None => Str.lower (default "haversine" (environ_distance_method env))
  end.

Definition _point (path_sql : composable) : composable :=
  Composed [SQL "("; path_sql; SQL ")::point"].

Definition _float (value : pyval) : result composable :=
  f ← Py.float value; Ok (Composed [Literal (PFloat f); SQL "::float8"]).

(** [_point_literal]: PostgreSQL's point is (longitude, latitude). *)
Definition _point_literal (coord : pyval) : result composable :=
  match coord with
  | PTuple [lat; lng] =>
      Ok (Composed [SQL "POINT("; Literal lng; SQL ", "; Literal lat; SQL ")"])
  | _ => Err TypeError
  end.

Definition build_distance_haversine (path_sql : composable) (center_lat center_lng dist : pyval)
    : result composable :=
  let point := _point path_sql in
  let lat := Composed [SQL "("; point; SQL ")[1]"] in
  let lng := Composed [SQL "("; point; SQL ")[0]"] in
  clat ← _float center_lat;
  clng ← _float center_lng;
  d ← _float dist;
  Ok (Composed
        [SQL "(2 * 6371000 * ASIN(LEAST(1, SQRT(POWER(SIN(RADIANS("; lat; SQL " - "; clat;
         SQL ") / 2), 2) + COS(RADIANS("; clat; SQL ")) * COS(RADIANS("; lat;
         SQL ")) * POWER(SIN(RADIANS("; lng; SQL " - "; clng; SQL ") / 2), 2)))) <= "; d; SQL ")"]).

Definition build_distance_earthdistance (path_sql : composable)
    (center_lat center_lng dist : pyval) : result composable :=
  let point := _point path_sql in
  clat ← _float center_lat;
  clng ← _float center_lng;
  d ← _float dist;
  Ok (Composed
        [SQL "(earth_distance(ll_to_earth("; clat; SQL ", "; clng; SQL "), ll_to_earth(("; point;
         SQL ")[1], ("; point; SQL ")[0])) <= "; d; SQL ")"]).

Definition build_distance_postgis (path_sql : composable) (center_lat center_lng dist : pyval)
    : result composable :=
  let point := _point path_sql in
  clng ← _float center_lng;
  clat ← _float center_lat;
  d ← _float dist;
  Ok (Composed
        [SQL "ST_DWithin(ST_SetSRID(ST_MakePoint(("; point; SQL ")[0], ("; point;
         SQL ")[1]), 4326)::geography, ST_SetSRID(ST_MakePoint("; clng; SQL ", "; clat;
         SQL "), 4326)::geography, "; d; SQL ")"]).

(** [isinstance(d, (int, float)) and not isinstance(d, bool) and not d < 0] *)
Definition valid_distance (d : pyval) : bool :=
  match d with
  | PInt z => (0 <=? z)%Z
  | PFloat f => negb (Num.float_ltb f (Num.FFin 0 0))
  | _ => false
  end.

Definition SUPPORTED_OPERATORS : list string :=
  ["eq"; "neq"; "in"; "notin"; "nin"; "distance_within"].

Definition supports_operator (operator : string) (field_type : option pytype) : bool :=
  if negb (operator in_ SUPPORTED_OPERATORS) then false
  else match field_type with
       | None => operator in_ ["distance_within"]
       | Some t =>
           Str.has_sub "Coordinate" (type_name t)
           || Str.has_sub "coordinate" (Str.lower (type_name t))
       end.

Definition same_point (path_sql : composable) (coord : pyval) : result composable :=
  lit ← _point_literal coord; Ok (Format "{} ~= {}" [_point path_sql; lit]).

Definition distance_sql (env : app_env) (value : pyval) (path_sql : composable)
    : result (option composable) :=
  match value with
  | PTuple [PTuple [center_lat; center_lng]; distance_meters] =>
      if negb (valid_distance distance_meters) then Err TypeError
      else
        let method := _distance_method env in
        if method =s "postgis" then
          Some <$> build_distance_postgis path_sql center_lat center_lng distance_meters
        else if method =s "earthdistance" then
          Some <$> build_distance_earthdistance path_sql center_lat center_lng distance_meters
        else if method =s "haversine" then
          Some <$> build_distance_haversine path_sql center_lat center_lng distance_meters
        else Err ValueError
  | _ => Err TypeError
  end.

Definition build_sql (env : app_env) (operator : string) (value : pyval) (path_sql : composable)
    (field_type : option pytype) (jsonb_column : option string) : result (option composable) :=
  if operator =s "eq" then
    same ← same_point path_sql value; Ok (Some same)
  else if operator =s "neq" then
    same ← same_point path_sql value; Ok (Some (Format "NOT ({})" [same]))
  else if operator in_ ["in"; "notin"; "nin"] then
    match value with
    | PList [] => Ok (Some (SQL (if operator =s "in" then "FALSE" else "TRUE")))
    | PList coords =>
        sames ← mapR (same_point path_sql) coords;
        let any_same := Join " OR " sames in
        Ok (Some (Format (if operator =s "in" then "({})" else "NOT ({})") [any_same]))
    | _ => Err TypeError
    end
  else if operator =s "distance_within" then distance_sql env value path_sql
  else Ok None.

Definition strategy (env : app_env) : strategy :=
  {| strategy_name := "CoordinateOperatorStrategy";
     OpBase.supports_operator := supports_operator; OpBase.build_sql := build_sql env |}.

End CoordinateOps.

(** ** Theorems *)

(** Bounds: a coordinate that parses has a latitude in [-90, 90] and a
    longitude in [-180, 180], neither of them a NaN, whatever form it was given in. *)
Theorem parse_coordinate_bounds v lat lng :
  Coordinate.parse_coordinate_value v = Ok (lat, lng) →
  (∃ m e, lat = Num.FFin m e) ∧ (∃ m e, lng = Num.FFin m e)
  ∧ Coordinate.within 90 lat = true ∧ Coordinate.within 180 lng = true.
Proof.
  unfold Coordinate.parse_coordinate_value. intros H.
  apply bind_Ok in H as ([a b] & _ & H).
  destruct (Coordinate.within 90 a) eqn:Ha; [|done].
  destruct (Coordinate.within 180 b) eqn:Hb; [|done]. injection H as <- <-.
  split_and!; [| |done|done]; [destruct a as [? ?|[]|]|destruct b as [? ?|[]|]]; eauto; done.
Qed.

Lemma parse_coordinate_bounds_witness :
  Coordinate.parse_coordinate_value (PStr " (45.5, -122.6)") = Ok (Num.FFin 455 (-1), Num.FFin (-1226) (-1))
  ∧ Coordinate.within 180 (Num.FFin (-1226) (-1)) = true.
Proof.
  split; [reflexivity|].
  apply (parse_coordinate_bounds (PStr " (45.5, -122.6)") (Num.FFin 455 (-1)) (Num.FFin (-1226) (-1))).
  reflexivity.
Defined.

Lemma float_of_string_error s e : Num.float_of_string s = Err e → e = ValueError.
Proof.
  unfold Num.float_of_string, Num.float_tail.
  intros H. repeat (case_match; try discriminate H); by injection H.
Qed.

Lemma float_part_error s e : Coordinate.float_part s = Err e → e = GraphQLError.
Proof.
  unfold Coordinate.float_part.
  destruct (Num.float_of_string _) as [f|e'] eqn:E; [done|].
  apply float_of_string_error in E as ->. by intros [= <-].
Qed.

Lemma both_floats_error a b e : Coordinate.both_floats a b = Err e → e = GraphQLError.
Proof.
  unfold Coordinate.both_floats. destruct a, b; cbn; by intros [= <-].
Qed.

Lemma extract_error v e : Coordinate._extract_lat_lng v = Err e → e = GraphQLError.
Proof.
  destruct v as [| | | | |s| | | | |l|d| |]; cbn [Coordinate._extract_lat_lng];
    try by intros [= <-].
  - destruct (Str.split _ _) as [|p0 [|p1 [|]]]; try by intros [= <-].
    intros [H|(a & _ & H)]%bind_Err; [by apply float_part_error in H|].
    apply bind_Err in H as [H|(b & _ & H)]; [by apply float_part_error in H|done].
  - destruct l as [|a [|b [|]]]; try by intros [= <-]. apply both_floats_error.
  - destruct (dict_get "lat" d), (dict_get "lng" d); try by intros [= <-]. apply both_floats_error.
Qed.

(** Errors: every failure of the parser is a GraphQLError, so a bad
    coordinate never surfaces as another exception. *)
Theorem parse_coordinate_errors v e :
  Coordinate.parse_coordinate_value v = Err e → e = GraphQLError.
Proof.
  unfold Coordinate.parse_coordinate_value.
  intros [H|([a b] & _ & H)]%bind_Err; [by apply extract_error in H|].
  repeat (case_match; try discriminate H); by injection H.
Qed.

Lemma parse_coordinate_errors_witness :
  Coordinate.parse_coordinate_value (PStr "north,1") = Err GraphQLError
  ∧ GraphQLError = GraphQLError.
Proof.
  split; [reflexivity|]. apply (parse_coordinate_errors (PStr "north,1")). reflexivity.
Defined.
