(* ===== verification/OpLaws.v ===== *)
(** * The laws every operator strategy keeps

    [StrategyLaws s] says of a strategy that it writes no part of a value into
    the SQL text, takes no parameter and names nothing but what the path does.
    Each strategy of [OpCore] and [OpPg] has its instance. *)
From stdpp Require Import base decidable strings list.
From Stdlib Require Import ZArith Lia Ascii.
From S2P Require Import Prelude PyVal Sql Shape OpBase OpCore OpPg.

Local Open Scope py_scope.

(** Two calls whose fragments, when both make one, hold the same texts. *)
Definition same_texts (r r' : result (option composable)) : Prop :=
  ∀ c c', r = Ok (Some c) → r' = Ok (Some c') → raw_texts c = raw_texts c'.

(** A call whose fragment, when it makes one, is built over the path. *)
Definition gives_over (path : composable) (r : result (option composable)) : Prop :=
  ∀ c, r = Ok (Some c) → over path c.

(** No fragment of the caller's hidden in a value: only the three-item operands
    of ltree's [subpath] and [index] can hold one. *)
Definition plain (v : pyval) : Prop :=
  match v with PTuple [_; PSql _; _] => False | _ => True end.

Class StrategyLaws (s : strategy) : Prop := {
  law_texts operator v w path ty jc :
    alike v w → same_texts (build_sql s operator v path ty jc) (build_sql s operator w path ty jc);
  law_over operator v path ty jc :
    plain v → gives_over path (build_sql s operator v path ty jc)
}.

(** ** Texts *)

Lemma same_texts_Some c c' :
  raw_texts c = raw_texts c' → same_texts (Ok (Some c)) (Ok (Some c')).
Proof. intros H d d' [= <-] [= <-]. done. Qed.

Lemma same_texts_opt o o' :
  (∀ c c', o = Some c → o' = Some c' → raw_texts c = raw_texts c') → same_texts (Ok o) (Ok o').
Proof. intros H d d' [= ->] [= ->]. by apply H. Qed.

Lemma same_texts_Err_l e r : same_texts (Err e) r.
Proof. by intros ? ? [=]. Qed.

Lemma same_texts_Err_r e r : same_texts r (Err e).
Proof. by intros ? ? _ [=]. Qed.

Lemma same_texts_None_l r : same_texts (Ok None) r.
Proof. by intros ? ? [=]. Qed.

Create HintDb texts.
#[export] Hint Resolve same_texts_Some same_texts_Err_l same_texts_Err_r same_texts_None_l : texts.

Lemma flat_map_texts_Forall2 {A B} (f : A → composable) (g : B → composable) l k :
  Forall2 (λ x y, raw_texts (f x) = raw_texts (g y)) l k →
  flat_map raw_texts (map f l) = flat_map raw_texts (map g k).
Proof. induction 1 as [|x y l k Hxy _ IH]; cbn; [done|]. by rewrite Hxy, IH. Qed.

(** Texts of a list whose items do not depend on the values. *)
Lemma flat_map_texts_const {A} (f g : A → composable) l k :
  Forall2 (λ _ _, True) l k → (∀ x y, raw_texts (f x) = raw_texts (g y)) →
  flat_map raw_texts (map f l) = flat_map raw_texts (map g k).
Proof.
  intros Hl H. apply flat_map_texts_Forall2.
  eapply Forall2_impl; [exact Hl|]. auto.
Qed.

Lemma alike_lengths l k : Forall2 alike l k → Forall2 (λ _ _ : pyval, True) l k.
Proof. intros H. by eapply Forall2_impl. Qed.

Lemma comparison_texts operator path v w :
  same_texts (Ok (_build_comparison operator path v)) (Ok (_build_comparison operator path w)).
Proof. unfold _build_comparison. repeat case_match; auto with texts. Qed.

Lemma comparison_cases operator path v w :
  (∃ c c', _build_comparison operator path v = Some c
           ∧ _build_comparison operator path w = Some c' ∧ raw_texts c = raw_texts c')
  ∨ (_build_comparison operator path v = None ∧ _build_comparison operator path w = None).
Proof. unfold _build_comparison. repeat case_match; eauto 10. Qed.

Lemma null_texts path v w :
  alike v w → raw_texts (_build_null_check path v) = raw_texts (_build_null_check path w).
Proof. intros H. unfold _build_null_check. by rewrite (alike_truthy _ _ H). Qed.

Lemma join_texts {A} sep (f g : A → composable) l k :
  Forall2 (λ _ _, True) l k → (∀ x y, raw_texts (f x) = raw_texts (g y)) →
  raw_texts (Join sep (map f l)) = raw_texts (Join sep (map g k)).
Proof. intros Hl H. cbn. f_equal. by apply flat_map_texts_const. Qed.

Lemma format2_texts t path c c' :
  raw_texts c = raw_texts c' → raw_texts (Format t [path; c]) = raw_texts (Format t [path; c']).
Proof. intros H. cbn. by rewrite H. Qed.

Lemma in_texts path v w neg cast :
  Forall2 (λ _ _, True) (Py.as_list_or_tuple v) (Py.as_list_or_tuple w) →
  raw_texts (_build_in_operator path v neg cast)
  = raw_texts (_build_in_operator path w neg cast).
Proof.
  intros H. unfold _build_in_operator.
  destruct cast as [[|c t]|], neg; apply format2_texts; by apply join_texts.
Qed.

Lemma alike_seq_lengths v w :
  alike v w → Forall2 (λ _ _ : pyval, True) (Py.as_list_or_tuple v) (Py.as_list_or_tuple w).
Proof. intros H. by apply alike_lengths, alike_as_list_or_tuple. Qed.

(** The same through a conversion of the items. *)
Lemma in_texts_map (f : pyval → pyval) path v w neg cast :
  alike v w →
  raw_texts (_build_in_operator path (PList (map f (Py.as_list_or_tuple v))) neg cast)
  = raw_texts (_build_in_operator path (PList (map f (Py.as_list_or_tuple w))) neg cast).
Proof.
  intros H. apply in_texts. cbn. apply Forall2_fmap_2. by apply alike_seq_lengths.
Qed.

Lemma both_sides_texts t path v w ty :
  same_texts (both_sides t path v ty) (both_sides t path w ty).
Proof. by apply same_texts_Some. Qed.

Lemma typed_in_texts t path v w ty :
  alike v w → same_texts (typed_in t path v ty) (typed_in t path w ty).
Proof.
  intros H. apply same_texts_Some, format2_texts. unfold _cast_list_values.
  rewrite !map_map. apply join_texts; [by apply alike_seq_lengths | done].
Qed.

(** A wildcard operator of the same type of value. *)
Lemma wildcard_texts v w path like pre post regex a b :
  alike v w →
  same_texts (StringOps.wildcard v path like pre post regex a)
             (StringOps.wildcard w path like pre post regex b).
Proof. intros H. destruct v, w; try discriminate H; by apply same_texts_Some. Qed.

Lemma fmt2_texts t path v w : same_texts (StringOps.fmt2 t path v) (StringOps.fmt2 t path w).
Proof. by apply same_texts_Some. Qed.

#[export] Hint Resolve comparison_texts null_texts in_texts in_texts_map alike_seq_lengths
  both_sides_texts typed_in_texts wildcard_texts fmt2_texts : texts.

(** ** Fragments over the path *)

Lemma gives_over_Some path c : over path c → gives_over path (Ok (Some c)).
Proof. by intros H ? [= <-]. Qed.

Lemma gives_over_None path : gives_over path (Ok None).
Proof. by intros ? [=]. Qed.

Lemma gives_over_Err path e : gives_over path (Err e).
Proof. by intros ? [=]. Qed.

#[export] Hint Resolve gives_over_Some gives_over_None gives_over_Err : over.

Lemma over_format1 path t c : fixed t → over path c → over path (Format t [c]).
Proof. auto with over. Qed.

Lemma over_format2 path t c c' :
  fixed t → over path c → over path c' → over path (Format t [c; c']).
Proof. auto with over. Qed.

Lemma over_comparison path operator c v :
  over path c → gives_over path (Ok (_build_comparison operator c v)).
Proof.
  intros H. unfold _build_comparison. repeat case_match; auto with over.
Qed.

Lemma over_null path c v : over path c → over path (_build_null_check c v).
Proof. intros H. unfold _build_null_check. case_match; auto with over. Qed.

Definition fixed_cast (cast : option string) : Prop :=
  match cast with Some t => fixed t | None => True end.

Lemma over_in path c v neg cast :
  over path c → fixed_cast cast → over path (_build_in_operator c v neg cast).
Proof.
  intros H Hc. unfold _build_in_operator.
  destruct cast as [[|a t]|], neg; (apply over_format2; [done|done|]);
    (apply over_Join; [done|]; apply over_map; auto 8 with over).
Qed.

Lemma over_cast_path path c ty jc pg : fixed ty → over path c → over path (_cast_path c ty jc pg).
Proof. intros Ht H. unfold _cast_path. repeat case_match; auto 8 with over. Qed.

Lemma over_both_sides t path c v ty :
  fixed t → fixed ty → over path c → gives_over path (both_sides t c v ty).
Proof.
  intros Ht Hty H. apply gives_over_Some. apply over_format2; auto 8 with over.
Qed.

Lemma over_typed_in t path c v ty :
  fixed t → fixed ty → over path c → gives_over path (typed_in t c v ty).
Proof.
  intros Ht Hty H. apply gives_over_Some. unfold _cast_list_values.
  apply over_format2; auto with over. apply over_Join; [done|].
  apply over_map. auto 8 with over.
Qed.

Lemma over_fmt2 t path c v : fixed t → over path c → gives_over path (StringOps.fmt2 t c v).
Proof. intros. apply gives_over_Some. auto with over. Qed.

Lemma over_wildcard v path c like pre post regex a :
  fixed like → fixed regex → over path c →
  gives_over path (StringOps.wildcard v c like pre post regex a).
Proof. intros. unfold StringOps.wildcard. case_match; by apply over_fmt2. Qed.

#[export] Hint Resolve over_format1 over_format2 over_comparison over_null over_in over_cast_path
  over_both_sides over_typed_in over_fmt2 over_wildcard : over.
#[export] Hint Extern 1 (fixed_cast _) => exact I || reflexivity : over.

(** ** The instances *)

(** Follow the operator tests of both calls at once. *)
Ltac texts_branches :=
  cbn zeta;
  repeat match goal with
  | |- same_texts (if ?b then _ else _) (if ?b then _ else _) => destruct b
  end; try solve [auto with texts].

Ltac over_branches :=
  cbn zeta;
  repeat match goal with
  | |- gives_over _ (if ?b then _ else _) => destruct b
  end; try solve [auto 10 with over].

(** Destruct two alike values together. *)
Ltac alike_cases v w H := destruct v, w; try discriminate H; try solve [auto with texts].

#[export] Instance boolean_laws : StrategyLaws Boolean.strategy.
Proof.
  split; intros; unfold Boolean.strategy, build_sql, Boolean.build_sql.
  - texts_branches.
  - over_branches.
Qed.

#[export] Instance string_laws : StrategyLaws StringOps.strategy.
Proof.
  split; intros; unfold StringOps.strategy, build_sql, StringOps.build_sql.
  - texts_branches.
  - over_branches.
Qed.

#[export] Instance null_laws : StrategyLaws Null.strategy.
Proof.
  split; intros; unfold Null.strategy, build_sql, Null.build_sql.
  - rewrite (alike_truthy _ _ H). texts_branches.
  - over_branches.
Qed.

#[export] Instance path_laws : StrategyLaws Path.strategy.
Proof.
  split; intros; unfold Path.strategy, build_sql, Path.build_sql.
  - texts_branches.
  - over_branches.
Qed.

#[export] Instance pattern_laws : StrategyLaws Pattern.strategy.
Proof.
  split; intros; unfold Pattern.strategy, build_sql, Pattern.build_sql.
  - texts_branches.
  - over_branches.
Qed.

#[export] Instance jsonb_laws : StrategyLaws Jsonb.strategy.
Proof.
  split; intros; unfold Jsonb.strategy, build_sql, Jsonb.build_sql.
  - texts_branches.
  - over_branches.
Qed.

Lemma numeric_int v w : alike v w → Py.is_int v = Py.is_int w.
Proof. intros H. by destruct v, w. Qed.

#[export] Instance numeric_laws : StrategyLaws Numeric.strategy.
Proof.
  split; intros; unfold Numeric.strategy, build_sql, Numeric.build_sql.
  - rewrite (numeric_int _ _ H). cbn zeta.
    match goal with |- context [_build_comparison _ ?q _] => set (p := q) end.
    destruct (comparison_cases operator p v w)
      as [(c & c' & -> & -> & Hc)|[-> ->]]; [by apply same_texts_Some|].
    texts_branches.
  - cbn zeta. set (p := if given jc then _ else path).
    assert (over path p) as Hp by (unfold p; repeat case_match; auto with over).
    pose proof (over_comparison path operator p v Hp) as Hc.
    destruct (_build_comparison operator p v) as [c|]; [done|]. over_branches.
Qed.


#[export] Instance macaddr_laws : StrategyLaws MacAddr.strategy.
Proof.
  split; intros; unfold MacAddr.strategy, build_sql, MacAddr.build_sql.
  - texts_branches.
  - over_branches.
Qed.

#[export] Instance daterange_laws : StrategyLaws DateRange.strategy.
Proof.
  split; intros; unfold DateRange.strategy, build_sql, DateRange.build_sql.
  - texts_branches.
  - over_branches.
Qed.

Lemma over_cidr path ranges neg :
  Forall fixed ranges → over path (Network._build_cidr_check path ranges neg).
Proof.
  intros Hr. unfold Network._build_cidr_check.
  assert (over path (Format "({})"
    [Join " OR " (map (λ cidr, Format "{} << inet '{}'" [Format "({})::inet" [path]; SQL cidr])
       ranges)])) as H.
  { apply over_format1; [done|]. apply over_Join; [done|].
    induction Hr; constructor; [|done]. apply over_format2; auto with over. }
  destruct neg; auto with over.
Qed.

Lemma ranges_fixed (l : list string) :
  forallb (λ s, Nat.eqb (text_params s) 0) l = true → Forall fixed l.
Proof.
  intros H. apply Forall_forall. intros s Hs. rewrite forallb_forall in H.
  apply Nat.eqb_eq, H. by apply list_elem_of_In.
Qed.

#[export] Hint Resolve over_cidr : over.
#[export] Hint Extern 1 (Forall fixed _) => (apply ranges_fixed; vm_compute; reflexivity) : over.

Lemma network_over operator v path ty jc :
  gives_over path (Network.build_sql operator v path ty jc).
Proof. unfold Network.build_sql. over_branches. Qed.

#[export] Instance network_laws : StrategyLaws Network.strategy.
Proof.
  split; intros; cbn [build_sql Network.strategy]; [|apply network_over].
  unfold Network.build_sql. rewrite (alike_truthy _ _ H). texts_branches.
Qed.

(** The texts of [comma_list]: one separator between two items. *)
Lemma comma_list_texts_Forall2 l k :
  Forall2 (λ a b, flat_map raw_texts a = flat_map raw_texts b) l k →
  flat_map raw_texts (comma_list l) = flat_map raw_texts (comma_list k).
Proof.
  unfold comma_list. induction 1 as [|a b l k Hab Hl IH]; [done|].
  destruct Hl as [|a' b' l k Hab' Hl].
  - cbn. by rewrite !app_nil_r.
  - rewrite !intersperse_cons, !concat_cons, !flat_map_app, Hab.
    do 2 f_equal. exact IH.
Qed.

Lemma comma_list_texts {A} (f g : A → list composable) l k :
  Forall2 (λ _ _, True) l k →
  (∀ x y, flat_map raw_texts (f x) = flat_map raw_texts (g y)) →
  flat_map raw_texts (comma_list (map f l)) = flat_map raw_texts (comma_list (map g k)).
Proof.
  intros Hl H. apply comma_list_texts_Forall2.
  induction Hl; cbn; constructor; auto.
Qed.

Lemma over_comma_list path l :
  Forall (Forall (over path)) l → Forall (over path) (comma_list l).
Proof.
  unfold comma_list. induction 1 as [|a l Ha Hl IH]; [constructor|].
  destruct Hl as [|b l Hb Hl].
  - cbn. by rewrite app_nil_r.
  - rewrite intersperse_cons, !concat_cons.
    apply Forall_app. split; [done|]. apply Forall_app. split; [auto with over | exact IH].
Qed.

Lemma over_comma_map path {A} (f : A → list composable) l :
  (∀ x, Forall (over path) (f x)) → Forall (over path) (comma_list (map f l)).
Proof. intros H. apply over_comma_list. induction l; cbn; constructor; auto. Qed.

Lemma composed_app_texts a b k k' :
  flat_map raw_texts a = flat_map raw_texts b → flat_map raw_texts k = flat_map raw_texts k' →
  raw_texts (Composed (a ++ k)) = raw_texts (Composed (b ++ k')).
Proof. intros H H'. cbn. by rewrite !flat_map_app, H, H'. Qed.

Lemma alike_pattern s t : alike (PStr s) (PStr t) → Ip.pattern_match s = Ip.pattern_match t.
Proof. intros H. apply (alike_str _ _ H). Qed.

Lemma comparison_cast_texts path v w :
  alike v w → Comparison._apply_type_cast path v = Comparison._apply_type_cast path w.
Proof.
  intros H. destruct v, w; try discriminate H; try done.
  unfold Comparison._apply_type_cast. cbn. by rewrite (alike_pattern _ _ H).
Qed.

#[export] Instance comparison_laws : StrategyLaws Comparison.strategy.
Proof.
  split; intros; unfold Comparison.strategy, build_sql, Comparison.build_sql.
  - rewrite (comparison_cast_texts path _ _ H).
    destruct (dict_get _ _) as [op|]; [|auto with texts].
    destruct v, w; try discriminate H; try solve [auto with texts].
    + case_match; auto with texts.
    + rewrite (alike_pattern _ _ H). auto with texts.
  - destruct (dict_get _ _) as [op|] eqn:Hop; [|auto with over].
    assert (fixed op) as Hfix.
    { revert Hop. cbn. repeat case_decide; intros [=]; by subst. }
    assert (∀ u, over path (Comparison._apply_type_cast path u)) as Hc.
    { intros u. unfold Comparison._apply_type_cast. repeat case_match; auto with over. }
    repeat case_match; auto 10 with over.
Qed.

Lemma list_cast_texts path v w :
  alike v w → ListOps._apply_type_cast path v = ListOps._apply_type_cast path w.
Proof. intros H. by destruct v, w. Qed.

Lemma all_bool_alike l k : Forall2 alike l k → forallb Py.is_bool l = forallb Py.is_bool k.
Proof.
  induction 1 as [|x y l k Hxy _ IH]; cbn; [done|]. rewrite IH. f_equal. by destruct x, y.
Qed.

#[export] Instance list_laws : StrategyLaws ListOps.strategy.
Proof.
  split; intros; unfold ListOps.strategy, build_sql, ListOps.build_sql.
  - destruct v, w; try discriminate H; try solve [auto with texts].
    apply alike_list in H as Hl. apply same_texts_Some, composed_app_texts.
    { destruct Hl as [|x y l l' Hxy Hl]; [done|]. rewrite (list_cast_texts _ _ _ Hxy).
      destruct x, y; try discriminate Hxy; try done. by rewrite (alike_pattern _ _ Hxy). }
    cbn [app flat_map raw_texts]. f_equal. rewrite !flat_map_app. f_equal.
    assert (negb (bool_decide (l = [])) = negb (bool_decide (l0 = []))) as ->
      by (by destruct Hl).
    rewrite (all_bool_alike _ _ Hl). apply alike_lengths in Hl.
    case_match; rewrite !map_map; by apply comma_list_texts.
  - destruct v; try solve [auto with over]. apply gives_over_Some, over_Composed.
    apply Forall_app; split; [|apply Forall_app; split; [|apply Forall_app; split]].
    + constructor; [|constructor]. unfold ListOps._apply_type_cast.
      repeat case_match; auto with over.
    + case_match; auto with over.
    + case_match; rewrite map_map; apply over_comma_map; auto with over.
    + auto with over.
Qed.

Lemma with_json_texts t path v w :
  same_texts (Array.with_json t path v) (Array.with_json t path w).
Proof.
  unfold Array.with_json.
  destruct (Json.dumps v), (Json.dumps w); cbn; auto with texts.
Qed.

Lemma over_with_json t path v : fixed t → gives_over path (Array.with_json t path v).
Proof. intros. unfold Array.with_json. destruct (Json.dumps v); cbn; auto with over. Qed.

#[export] Hint Resolve with_json_texts : texts.
#[export] Hint Resolve over_with_json : over.

#[export] Instance array_laws : StrategyLaws Array.strategy.
Proof.
  split; intros; unfold Array.strategy, build_sql, Array.build_sql.
  - texts_branches. alike_cases v w H.
  - over_branches. case_match; auto with over.
Qed.

(** *** ltree *)

Lemma ltree_items_texts l k :
  Forall2 (λ _ _, True) l k →
  flat_map raw_texts (LTree.ltree_items l) = flat_map raw_texts (LTree.ltree_items k).
Proof. intros H. by apply comma_list_texts. Qed.

Lemma over_ltree_items path l : Forall (over path) (LTree.ltree_items l).
Proof. apply over_comma_map. auto with over. Qed.

#[export] Hint Resolve ltree_items_texts over_ltree_items : core.

Lemma to_composable_texts v w :
  alike v w → raw_texts (Py.to_composable v) = raw_texts (Py.to_composable w).
Proof. intros H. destruct v, w; try discriminate H; try done. by injection H as ->. Qed.

Lemma format1_texts t c c' :
  raw_texts c = raw_texts c' → raw_texts (Format t [c]) = raw_texts (Format t [c']).
Proof. intros H. cbn. by rewrite H. Qed.

(** The operands two alike tuples give: alike ends, and paths of the same texts. *)
Lemma tuple_operand_texts c v w a p b a' p' b' :
  alike v w → LTree.tuple_operand c v = Ok (a, p, b) → LTree.tuple_operand c w = Ok (a', p', b') →
  raw_texts p = raw_texts p'.
Proof.
  intros H Hv Hw. destruct v as [| | | | | | | | | |l| | |], w as [| | | | | | | | | |k| | |];
    try discriminate H; try discriminate Hv.
  apply alike_tuple in H. cbn in Hv, Hw.
  destruct H as [|x y l1 k1 _ [|x2 y2 l2 k2 Hm [|x3 y3 l3 k3 _ [|]]]]; simplify_eq; try done.
  apply format1_texts. by apply to_composable_texts.
Qed.

Lemma over_tuple_operand path c v a p b :
  plain v → over path c → LTree.tuple_operand c v = Ok (a, p, b) → over path p.
Proof.
  intros Hp Hc. destruct v as [| | | | | | | | | |l| | |]; try discriminate 1.
  destruct l as [|x [|y [|z [|]]]]; intros [=]; subst; [done|].
  destruct y; cbn in *; auto with over; done.
Qed.

Lemma index_compare_texts op c v w :
  alike v w → same_texts (LTree.index_compare op c v) (LTree.index_compare op c w).
Proof.
  intros H r r'. unfold LTree.index_compare. intros Hv Hw. inv_ok.
  destruct_and?. repeat match goal with x : _ * _ |- _ => destruct x end. inv_ok.
  assert (raw_texts c1 = raw_texts c0) as E by (by eapply tuple_operand_texts).
  cbn. by rewrite E.
Qed.

Lemma over_index_compare path op c v :
  fixed op → plain v → over path c → gives_over path (LTree.index_compare op c v).
Proof.
  intros Hop Hpl Hc r. unfold LTree.index_compare. intros Hv. inv_ok.
  repeat match goal with x : _ * _ |- _ => destruct x end. inv_ok.
  assert (over path c0) by (by eapply over_tuple_operand).
  auto 15 with over.
Qed.

#[export] Hint Resolve index_compare_texts : texts.
#[export] Hint Resolve over_index_compare : over.

Lemma alike_nil l k : Forall2 alike l k → (l = [] ↔ k = []).
Proof. by destruct 1. Qed.

(** One list operand of a fragment whose other parts are fixed. *)
Lemma composed_list_texts pre l k post :
  flat_map raw_texts l = flat_map raw_texts k →
  raw_texts (Composed (pre ++ l ++ post)) = raw_texts (Composed (pre ++ k ++ post)).
Proof. intros H. cbn. by rewrite !flat_map_app, H. Qed.

Lemma over_composed_list path pre l post :
  Forall (over path) pre → Forall (over path) l → Forall (over path) post →
  over path (Composed (pre ++ l ++ post)).
Proof. intros. apply over_Composed. rewrite !Forall_app. auto. Qed.

Lemma array_contains_texts v w :
  alike v w → same_texts (LTree.array_contains_sql v) (LTree.array_contains_sql w).
Proof.
  intros H. unfold LTree.array_contains_sql.
  destruct v as [| | | | | | | | | |l| | |], w as [| | | | | | | | | |k| | |];
    try discriminate H; auto with texts.
  apply alike_tuple in H.
  destruct H as [|x y l1 k1 Hxy [|? ? l2 k2 _ [|? ? l3 k3 _ [|]]]]; try solve [auto with texts];
    destruct x, y; try discriminate Hxy; auto with texts;
    apply alike_list, alike_lengths in Hxy; apply same_texts_Some;
    cbn [raw_texts flat_map app]; by rewrite !flat_map_app, (ltree_items_texts _ _ Hxy).
Qed.

Lemma over_array_contains path v : gives_over path (LTree.array_contains_sql v).
Proof.
  unfold LTree.array_contains_sql. repeat case_match; auto with over;
    apply gives_over_Some, over_composed_list; auto with over.
Qed.

Lemma subpath_texts c v w :
  alike v w → same_texts (LTree.subpath_sql c v) (LTree.subpath_sql c w).
Proof.
  intros H r r'. unfold LTree.subpath_sql. intros Hv Hw. inv_ok.
  repeat match goal with x : _ * _ |- _ => destruct x end. inv_ok.
  assert (raw_texts c1 = raw_texts c0) as E by (by eapply tuple_operand_texts).
  cbn. by rewrite E.
Qed.

Lemma over_subpath path c v :
  plain v → over path c → gives_over path (LTree.subpath_sql c v).
Proof.
  intros Hpl Hc r. unfold LTree.subpath_sql. intros Hv. inv_ok.
  repeat match goal with x : _ * _ |- _ => destruct x end. inv_ok.
  assert (over path c0) by (by eapply over_tuple_operand).
  auto 15 with over.
Qed.

#[export] Hint Resolve array_contains_texts subpath_texts : texts.
#[export] Hint Resolve over_array_contains over_subpath : over.

Lemma comparison_ops_fixed c op : dict_get c LTree.comparison_ops = Some op →
  fixed (" " +:+ op +:+ " ")%stdpp.
Proof. cbn. repeat case_decide; intros [=]; subst; reflexivity. Qed.

#[export] Instance ltree_laws : StrategyLaws LTree.strategy.
Proof.
  split; intros; unfold LTree.strategy, build_sql, LTree.build_sql.
  - texts_branches.
    + alike_cases v w H. apply alike_list in H. destruct H as [|x y l k Hxy Hl];
        auto with texts. apply same_texts_Some, composed_list_texts, comma_list_texts; [|done].
      constructor; [done|]. by apply alike_lengths.
    + alike_cases v w H. apply alike_list, alike_lengths in H.
      by apply same_texts_Some, composed_list_texts, ltree_items_texts.
    + alike_cases v w H.
    + alike_cases v w H. apply alike_list in H. destruct H as [|x y l k Hxy Hl];
        auto with texts. apply same_texts_Some, composed_list_texts, ltree_items_texts.
      constructor; [done|]. by apply alike_lengths.
    + case_match; auto with texts.
      destruct (Py.int v), (Py.int w); cbn; auto with texts.
  - over_branches.
    + case_match; auto with over. case_match; auto with over.
      apply gives_over_Some, over_composed_list; auto 10 with over.
      apply over_comma_map. auto with over.
    + case_match; auto with over.
      apply gives_over_Some, over_composed_list; auto 10 with over.
    + case_match; auto with over.
    + case_match; auto with over. case_match; auto with over.
      apply gives_over_Some, over_composed_list; auto 10 with over.
    + case_match eqn:E; auto with over. apply comparison_ops_fixed in E.
      destruct (Py.int v); cbn; auto 15 with over.
Qed.

(** *** Coordinates *)

Lemma float_inv v c :
  CoordinateOps._float v = Ok c → ∃ f, c = Composed [Literal (PFloat f); SQL "::float8"].
Proof. unfold CoordinateOps._float. intros Hv. inv_ok. eauto. Qed.

Lemma same_point_inv path v c :
  CoordinateOps.same_point path v = Ok c →
  ∃ lat lng, v = PTuple [lat; lng] ∧
    c = Format "{} ~= {}" [CoordinateOps._point path;
          Composed [SQL "POINT("; Literal lng; SQL ", "; Literal lat; SQL ")"]].
Proof.
  unfold CoordinateOps.same_point, CoordinateOps._point_literal. intros H. inv_ok.
  case_ok H0. simplify_eq. eauto.
Qed.

Lemma over_point path : over path (CoordinateOps._point path).
Proof. unfold CoordinateOps._point. auto 10 with over. Qed.

Lemma over_same_point path v c : CoordinateOps.same_point path v = Ok c → over path c.
Proof.
  intros (lat & lng & -> & ->)%same_point_inv. apply over_format2; [done|apply over_point|].
  auto 15 with over.
Qed.

Lemma same_point_texts path v w c c' :
  CoordinateOps.same_point path v = Ok c → CoordinateOps.same_point path w = Ok c' →
  raw_texts c = raw_texts c'.
Proof.
  by intros (? & ? & _ & ->)%same_point_inv (? & ? & _ & ->)%same_point_inv.
Qed.

Lemma same_points_texts path l k cs cs' :
  Forall2 (λ _ _, True) l k →
  mapR (CoordinateOps.same_point path) l = Ok cs →
  mapR (CoordinateOps.same_point path) k = Ok cs' →
  flat_map raw_texts cs = flat_map raw_texts cs'.
Proof.
  intros H. revert cs cs'. induction H as [|x y l k _ _ IH]; intros cs cs'; cbn; intros Hc Hc';
    inv_ok; [done|]. cbn. f_equal; [by eapply same_point_texts | by apply IH].
Qed.

Lemma over_same_points path l cs :
  mapR (CoordinateOps.same_point path) l = Ok cs → Forall (over path) cs.
Proof.
  intros H%mapR_Ok.
  induction H; constructor; [by eapply over_same_point|done].
Qed.

(** The distance conditions: the same texts, and over the path. *)
Ltac distance_cases :=
  inv_ok;
  repeat match goal with
  | H : CoordinateOps._float _ = Ok _ |- _ => apply float_inv in H as [? ->]
  end.

Definition distance_builder := composable → pyval → pyval → pyval → result composable.

Definition builder_ok (f : distance_builder) : Prop :=
  (∀ path a b d a' b' d' c c',
     f path a b d = Ok c → f path a' b' d' = Ok c' → raw_texts c = raw_texts c')
  ∧ ∀ path a b d c, f path a b d = Ok c → over path c.

Lemma haversine_ok : builder_ok CoordinateOps.build_distance_haversine.
Proof.
  unfold CoordinateOps.build_distance_haversine, CoordinateOps._point.
  split; intros; distance_cases; [done|]. repeat constructor.
Qed.

Lemma earthdistance_ok : builder_ok CoordinateOps.build_distance_earthdistance.
Proof.
  unfold CoordinateOps.build_distance_earthdistance, CoordinateOps._point.
  split; intros; distance_cases; [done|]. repeat constructor.
Qed.

Lemma postgis_ok : builder_ok CoordinateOps.build_distance_postgis.
Proof.
  unfold CoordinateOps.build_distance_postgis, CoordinateOps._point.
  split; intros; distance_cases; [done|]. repeat constructor.
Qed.

#[export] Hint Resolve haversine_ok earthdistance_ok postgis_ok : core.

(** A successful [distance_within] is one of the three builders. *)
Lemma distance_sql_inv env v path c :
  CoordinateOps.distance_sql env v path = Ok (Some c) →
  ∃ f a b d, builder_ok f ∧ f path a b d = Ok c
    ∧ f = (if CoordinateOps._distance_method env =s "postgis"
           then CoordinateOps.build_distance_postgis
           else if CoordinateOps._distance_method env =s "earthdistance"
           then CoordinateOps.build_distance_earthdistance
           else CoordinateOps.build_distance_haversine).
Proof.
  unfold CoordinateOps.distance_sql. intros H. case_ok H; inv_ok; simplify_eq;
    (eexists _, _, _, _; split; [|split; [eassumption|]]; [auto|]);
    repeat match goal with E : (_ =s _) = _ |- _ => rewrite E end; done.
Qed.

(** Both values are lists, of the same length, or neither is. *)
Definition same_list (v w : pyval) : Prop :=
  match v, w with
  | PList l, PList k => Forall2 (λ _ _, True) l k
  | PList _, _ | _, PList _ => False
  | _, _ => True
  end.

Lemma alike_same_list v w : alike v w → same_list v w.
Proof.
  intros H. destruct v, w; try discriminate H; try exact I. by apply alike_lengths, alike_list.
Qed.

(** The coordinate strategy's texts depend on the length of a list alone. *)
Lemma coordinate_texts env operator v w path ty jc :
  same_list v w →
  same_texts (CoordinateOps.build_sql env operator v path ty jc)
             (CoordinateOps.build_sql env operator w path ty jc).
Proof.
  intros H. unfold CoordinateOps.build_sql. texts_branches.
  - intros c c' Hc Hc'. inv_ok. by eapply same_point_texts.
  - intros c c' Hc Hc'. inv_ok. cbn. by erewrite same_point_texts by eassumption.
  - destruct v, w; try destruct H; auto with texts.
    intros c c' Hc Hc'. apply bind_Ok in Hc as (cs & Hc & [= <-]).
    apply bind_Ok in Hc' as (cs' & Hc' & [= <-]).
    apply format1_texts. cbn [raw_texts]. f_equal. eapply same_points_texts; [|done..].
    by constructor.
  - intros c c' (f & ? & ? & ? & [Hf _] & ? & ->)%distance_sql_inv
      (f' & ? & ? & ? & _ & ? & ->)%distance_sql_inv. by eapply Hf.
Qed.

#[export] Instance coordinate_laws env : StrategyLaws (CoordinateOps.strategy env).
Proof.
  split; intros; unfold CoordinateOps.strategy, build_sql.
  - by apply coordinate_texts, alike_same_list.
  - unfold CoordinateOps.build_sql.
    over_branches.
    + intros c Hc. inv_ok. by eapply over_same_point.
    + intros c Hc. inv_ok. apply over_format1; [done|]. by eapply over_same_point.
    + case_match; auto with over. case_match; [case_match; auto with over|].
      intros c Hc. apply bind_Ok in Hc as (cs & Hc & [= <-]).
      apply over_format1; [case_match; done|]. apply over_Join; [done|].
      by eapply over_same_points.
    + intros c (f & ? & ? & ? & [_ Hf] & ? & ->)%distance_sql_inv. by eapply Hf.
Qed.
