(* ===== verification/Registry.v ===== *)
(** * The operator registry ([sql/operators/strategy_registry.py] and the
    registrations of [sql/operators/__init__.py])

    The laws a strategy keeps are the class [StrategyLaws]; the registry's
    theorems use only the class, and each strategy has its instance. *)
From stdpp Require Import base decidable strings list.
From Stdlib Require Import ZArith Lia Ascii.
From S2P Require Import Prelude PyVal Sql Shape OpBase OpCore OpPg OpLaws.

Local Open Scope py_scope.

(** [OperatorRegistry._strategies], in registration order. *)
Definition registry := list strategy.

Definition register (r : registry) (s : strategy) : registry := r ++ [s].

(** The last registered strategy that supports the operator. *)
Definition get_strategy (r : registry) (operator : string) (field_type : option pytype)
    : option strategy :=
  List.find (λ s, supports_operator s operator field_type) (rev r).

Definition registry_build_sql (r : registry) (operator : string) (value : pyval)
    (path_sql : composable) (field_type : option pytype) (jsonb_column : option string)
    : result (option composable) :=
  match get_strategy r operator field_type with
  | None => Ok None
  | Some s => build_sql s operator value path_sql field_type jsonb_column
  end.

(** The registry [sql/operators/__init__.py] fills. *)
Definition default_registry (env : app_env) : registry :=
  foldl register []
    [Path.strategy; ListOps.strategy; Pattern.strategy; Comparison.strategy;
     Jsonb.strategy; CoordinateOps.strategy env; Array.strategy; Null.strategy;
     MacAddr.strategy; DateRange.strategy; LTree.strategy; Network.strategy;
     Boolean.strategy; Numeric.strategy; StringOps.strategy].

(** ** Routing *)

Lemma get_strategy_register r s operator ty :
  get_strategy (register r s) operator ty
  = if supports_operator s operator ty then Some s else get_strategy r operator ty.
Proof. unfold get_strategy, register. by rewrite rev_app_distr. Qed.

Lemma get_strategy_Some r operator ty s :
  get_strategy r operator ty = Some s → s ∈ r ∧ supports_operator s operator ty = true.
Proof.
  intros [Hin Hs]%find_some. split; [|done].
  apply list_elem_of_In. by apply in_rev.
Qed.

(** ** The laws, lifted *)

Definition registry_laws (r : registry) : Prop := Forall StrategyLaws r.

Lemma registry_texts r operator v w path ty jc :
  registry_laws r → alike v w →
  same_texts (registry_build_sql r operator v path ty jc)
             (registry_build_sql r operator w path ty jc).
Proof.
  intros Hr H. unfold registry_build_sql.
  destruct (get_strategy r operator ty) as [s|] eqn:E; [|auto with texts].
  apply get_strategy_Some in E as [Hs _].
  assert (StrategyLaws s) as Hl by (by eapply Forall_forall in Hr).
  by apply law_texts.
Qed.

Lemma registry_over r operator v path ty jc :
  registry_laws r → plain v → gives_over path (registry_build_sql r operator v path ty jc).
Proof.
  intros Hr H. unfold registry_build_sql.
  destruct (get_strategy r operator ty) as [s|] eqn:E; [|auto with over].
  apply get_strategy_Some in E as [Hs _].
  assert (StrategyLaws s) as Hl by (by eapply Forall_forall in Hr).
  by apply law_over.
Qed.

Lemma default_registry_laws env : registry_laws (default_registry env).
Proof.
  unfold registry_laws, default_registry, register. cbn [foldl app].
  repeat (apply Forall_cons_2; [apply _|]). by apply Forall_nil_2.
Qed.

(** ** The routes of the registered strategies *)

(** Without a field type, the network operators are the network strategy's. *)
Lemma network_support operator :
  operator ∈ Network.SPECIFIC_OPERATORS →
  Network.supports_operator operator None && negb (StringOps.supports_operator operator None)
  && negb (Numeric.supports_operator operator None)
  && negb (Boolean.supports_operator operator None) = true.
Proof.
  intros Hx. apply (proj1 (forallb_forall (λ o, Network.supports_operator o None
    && negb (StringOps.supports_operator o None) && negb (Numeric.supports_operator o None)
    && negb (Boolean.supports_operator o None)) Network.SPECIFIC_OPERATORS));
    [vm_compute; reflexivity | by apply list_elem_of_In].
Qed.

Lemma network_route env operator :
  operator ∈ Network.SPECIFIC_OPERATORS →
  get_strategy (default_registry env) operator None = Some Network.strategy.
Proof.
  intros (((Hn & Hs%negb_true_iff)%andb_true_iff & Hm%negb_true_iff)%andb_true_iff
    & Hb%negb_true_iff)%network_support%andb_true_iff.
  unfold default_registry. cbn [foldl]. rewrite !get_strategy_register.
  cbn [supports_operator StringOps.strategy Numeric.strategy Boolean.strategy Network.strategy].
  by rewrite Hs, Hm, Hb, Hn.
Qed.

Lemma network_registry_sql env operator v path jc :
  operator ∈ Network.SPECIFIC_OPERATORS →
  registry_build_sql (default_registry env) operator v path None jc
  = Network.build_sql operator v path None jc.
Proof. intros H. unfold registry_build_sql. by rewrite network_route. Qed.

(** ** Theorems *)

(** The position a strategy was registered at, searched from the last one. *)
Lemma find_rev_split {A} (f : A → bool) (l : list A) x :
  List.find f (rev l) = Some x ↔
  ∃ before after, l = before ++ x :: after ∧ f x = true ∧ Forall (λ y, f y = false) after.
Proof.
  split.
  - induction l as [|y l IH] using rev_ind; [done|]. rewrite rev_app_distr. cbn.
    destruct (f y) eqn:E; [intros [= <-]; by exists l, []|].
    intros (before & after & -> & Hx & Ha)%IH. exists before, (after ++ [y]).
    rewrite <- app_assoc. split_and!; [done..|]. apply Forall_app. by repeat constructor.
  - intros (before & after & -> & Hx & Ha).
    induction after as [|y after IH] using rev_ind.
    + rewrite rev_app_distr. cbn. by rewrite Hx.
    + apply Forall_app in Ha as [Ha Hy]. inversion_clear Hy as [|? ? Hy' _].
      change (x :: after ++ [y]) with ((x :: after) ++ [y]).
      rewrite app_assoc, rev_app_distr. cbn. rewrite Hy'. apply IH, Ha.
Qed.

(** Routing: [get_strategy] gives exactly the strategy registered last among
    those that support the operator for the field type. *)
Theorem get_strategy_last r operator ty s :
  get_strategy r operator ty = Some s ↔
  ∃ before after, r = before ++ s :: after ∧ supports_operator s operator ty = true
    ∧ Forall (λ s', supports_operator s' operator ty = false) after.
Proof. apply (find_rev_split (λ s, supports_operator s operator ty)). Qed.

(** No strategy of the default registry writes a value into the SQL: for any
    operator, field type and path, two values of the same shape give the same SQL
    texts. *)
Theorem default_registry_value_independent env operator v w path ty jc c c' :
  alike v w →
  registry_build_sql (default_registry env) operator v path ty jc = Ok (Some c) →
  registry_build_sql (default_registry env) operator w path ty jc = Ok (Some c') →
  raw_texts c = raw_texts c'.
Proof. intros H. apply registry_texts; [apply default_registry_laws|done]. Qed.

Lemma default_registry_value_independent_witness :
  let env := {| default_entity_schema := None; config_distance_method := None;
                environ_distance_method := None |} in
  ∃ c c',
    registry_build_sql (default_registry env) "contains" (PStr "a") (Identifier "f") (Some TyStr) None
    = Ok (Some c)
    ∧ registry_build_sql (default_registry env) "contains" (PStr "'); DROP TABLE t; --") (Identifier "f")
        (Some TyStr) None = Ok (Some c')
    ∧ raw_texts c = raw_texts c'.
Proof.
  eexists _, _. split; [reflexivity|]. split; [reflexivity|].
  eapply (default_registry_value_independent
           {| default_entity_schema := None; config_distance_method := None;
              environ_distance_method := None |} "contains" (PStr "a")
           (PStr "'); DROP TABLE t; --") (Identifier "f") (Some TyStr) None);
    reflexivity.
Defined.

(** The SQL of the default registry takes no parameter of its own and names
    nothing the path does not name: values appear as literals only. *)
Theorem default_registry_self_contained env operator v path ty jc c :
  plain v → registry_build_sql (default_registry env) operator v path ty jc = Ok (Some c) →
  identifiers c ⊆ identifiers path ∧ (placeholders path = 0 → placeholders c = 0).
Proof.
  intros Hv Hc. assert (over path c) as H
    by (by eapply registry_over; [apply default_registry_laws|exact Hv|exact Hc]).
  split; [by apply over_identifiers | by apply over_placeholders].
Qed.

Lemma default_registry_self_contained_witness :
  let env := {| default_entity_schema := None; config_distance_method := None;
                environ_distance_method := None |} in
  ∃ c, registry_build_sql (default_registry env) "in" (PList [PInt 1; PInt 2])
         (Identifier "f") (Some TyInt) (Some "data") = Ok (Some c)
    ∧ identifiers c ⊆ ["f"] ∧ (0 = 0 → placeholders c = 0).
Proof.
  eexists. split; [reflexivity|].
  apply (default_registry_self_contained
           {| default_entity_schema := None; config_distance_method := None;
              environ_distance_method := None |} "in" (PList [PInt 1; PInt 2])
           (Identifier "f") (Some TyInt) (Some "data")); [exact I|reflexivity].
Defined.
