(* ===== verification/SqlBuilder.v ===== *)
(** * Paths and hierarchy subqueries ([sql/where/core/sql_builder.py]) *)
From stdpp Require Import base decidable strings list.
From Stdlib Require Import ZArith Lia Ascii.
From S2P Require Import Prelude PyVal Sql Shape OpBase.

Local Open Scope py_scope.

(** The entity a column [{entity}_id] refers to. *)
Definition _resolve_entity_name (db_field_name : string) : result string :=
  if negb (Str.ends_with "_id" db_field_name) then Err ValueError
  else
    let entity := Str.remove_suffix "_id" db_field_name in
    if negb (Str.nonempty entity) then Err ValueError else Ok entity.

Definition hierarchy_template : string :=
  "({field})::uuid IN (SELECT id FROM {schema}.{table} WHERE path {op} (SELECT path FROM {schema}.{table} WHERE id = {uuid}::uuid)::ltree)".

Definition _build_hierarchy_subquery (entity_schema entity_name uuid_value ltree_op : string)
    (jsonb_path : composable) : composable :=
  FormatKw hierarchy_template
    [("field", jsonb_path); ("schema", Identifier entity_schema);
     ("table", Identifier ("tb_" +:+ entity_name)%stdpp); ("op", SQL ltree_op);
     ("uuid", Literal (PStr uuid_value))].

(** [data -> 'a' -> 'b' ->> 'c'] *)
Fixpoint jsonb_steps (fields : list string) : list composable :=
  match fields with
  | [] => []
  | [field] => [SQL " ->> "; Literal (PStr field)]
  | field :: fields' => SQL " -> " :: Literal (PStr field) :: jsonb_steps fields'
  end.

Definition build_jsonb_path (fields : list string) : result composable :=
  match fields with
  | [] => Err ValueError
  | [field] => Ok (Composed [SQL "data ->> "; Literal (PStr field)])
  | _ => Ok (Composed (SQL "data" :: jsonb_steps fields))
  end.
