(* ===== verification/FieldCondition.v ===== *)
(** * One filter condition ([FieldCondition] of [where_clause.py])

    The operator tables, the validated record, and [to_sql]: the fragment and
    the parameters of a condition on a foreign key, a JSONB path or a column. *)
From stdpp Require Import base decidable strings list.
From Stdlib Require Import ZArith Lia Ascii.
From S2P Require Import Prelude PyVal Sql Shape OpBase OpCore OpPg OpLaws Registry SqlBuilder.

Local Open Scope py_scope.

(** ** Operator tables *)

Definition COMPARISON_OPERATORS : list (string * string) :=
  [("eq", "="); ("neq", "!="); ("gt", ">"); ("gte", ">="); ("lt", "<"); ("lte", "<=")].

Definition CONTAINMENT_OPERATORS : list (string * string) := [("in", "IN"); ("nin", "NOT IN")].

Definition STRING_OPERATORS : list (string * string) :=
  [("contains", "LIKE"); ("icontains", "ILIKE"); ("startswith", "LIKE"); ("istartswith", "ILIKE");
   ("endswith", "LIKE"); ("iendswith", "ILIKE"); ("like", "LIKE"); ("ilike", "ILIKE")].

Definition NULL_OPERATORS : list (string * string) := [("isnull", "IS NULL")].

Definition VECTOR_OPERATORS : list (string * string) :=
  [("cosine_distance", "<=>"); ("l2_distance", "<->"); ("l1_distance", "<+>");
   ("inner_product", "<#>"); ("hamming_distance", "<~>"); ("jaccard_distance", "<%>")].

Definition BINARY_VECTOR_OPERATORS : list string := ["hamming_distance"; "jaccard_distance"].

Definition FULLTEXT_OPERATORS : list (string * string) :=
  [("matches", "@@"); ("plain_query", "@@"); ("phrase_query", "@@"); ("websearch_query", "@@");
   ("rank_gt", ">"); ("rank_lt", "<"); ("rank_cd_gt", ">"); ("rank_cd_lt", "<")].

Definition ARRAY_OPERATORS : list (string * string) :=
  [("array_eq", "="); ("array_neq", "!="); ("array_contains", "@>"); ("contains", "@>");
   ("array_contained_by", "<@"); ("contained_by", "<@"); ("array_overlaps", "&&");
   ("overlaps", "&&"); ("array_length_eq", "="); ("len_eq", "="); ("array_length_gt", ">");
   ("len_gt", ">"); ("array_length_lt", "<"); ("len_lt", "<"); ("array_length_gte", ">=");
   ("len_gte", ">="); ("array_any_eq", "= ANY"); ("any_eq", "= ANY"); ("array_all_eq", "= ALL");
   ("all_eq", "= ALL")].

Definition _ARRAY_OPERATORS_FOR_ALL : list (string * string) :=
  List.filter (λ kv, negb (kv.1 =s "contains")) ARRAY_OPERATORS.

Definition NETWORK_OPERATORS : list (string * string) :=
  [("isIPv4", "family({}) = 4"); ("isIPv6", "family({}) = 6"); ("isPrivate", "CIDR_RANGE_CHECK");
   ("isPublic", "NOT_CIDR_RANGE_CHECK"); ("inSubnet", "{} <<= {}"); ("inRange", "{} <<= {}");
   ("overlaps", "{} && {}"); ("strictleft", "{} << {}"); ("strictright", "{} >> {}");
   ("isprivate", "CIDR_RANGE_CHECK"); ("ispublic", "NOT_CIDR_RANGE_CHECK");
   ("insubnet", "{} <<= {}"); ("inrange", "{} <<= {}"); ("isipv4", "family({}) = 4");
   ("isipv6", "family({}) = 6"); ("isLoopback", "LOOPBACK_CIDR_CHECK");
   ("isMulticast", "MULTICAST_CIDR_CHECK"); ("isBroadcast", "BROADCAST_CIDR_CHECK");
   ("isLinkLocal", "LINK_LOCAL_CIDR_CHECK"); ("isDocumentation", "DOCUMENTATION_CIDR_CHECK");
   ("isReserved", "RESERVED_CIDR_CHECK"); ("isCarrierGrade", "CARRIER_GRADE_CIDR_CHECK");
   ("isSiteLocal", "SITE_LOCAL_CIDR_CHECK"); ("isUniqueLocal", "UNIQUE_LOCAL_CIDR_CHECK");
   ("isGlobalUnicast", "NOT_SPECIAL_PURPOSE_CHECK"); ("isloopback", "LOOPBACK_CIDR_CHECK");
   ("ismulticast", "MULTICAST_CIDR_CHECK"); ("isbroadcast", "BROADCAST_CIDR_CHECK");
   ("islinklocal", "LINK_LOCAL_CIDR_CHECK"); ("isdocumentation", "DOCUMENTATION_CIDR_CHECK");
   ("isreserved", "RESERVED_CIDR_CHECK"); ("iscarriergrade", "CARRIER_GRADE_CIDR_CHECK");
   ("issitelocal", "SITE_LOCAL_CIDR_CHECK"); ("isuniquelocal", "UNIQUE_LOCAL_CIDR_CHECK");
   ("isglobalunicast", "NOT_SPECIAL_PURPOSE_CHECK")].

Definition MACADDR_OPERATORS : list (string * string) := [("notin", "NOT IN")].

Definition DATERANGE_OPERATORS : list (string * string) :=
  [("contains_date", "@>"); ("adjacent", "-|-"); ("strictly_left", "<<");
   ("strictly_right", ">>"); ("not_left", "&>"); ("not_right", "&<"); ("notin", "NOT IN")].

Definition LTREE_OPERATORS : list (string * string) :=
  [("ancestor_of", "@>"); ("descendant_of", "<@"); ("descendant_of_id", "<@");
   ("ancestor_of_id", "@>"); ("matches_lquery", "~"); ("matches_ltxtquery", "@");
   ("matches_any_lquery", "?"); ("in_array", "<@"); ("concat", "||"); ("lca", "lca");
   ("nlevel", "nlevel({})"); ("nlevel_eq", "nlevel({}) ="); ("nlevel_gt", "nlevel({}) >");
   ("nlevel_gte", "nlevel({}) >="); ("nlevel_lt", "nlevel({}) <");
   ("nlevel_lte", "nlevel({}) <="); ("nlevel_neq", "nlevel({}) !=");
   ("depth_eq", "nlevel({}) ="); ("depth_gt", "nlevel({}) >"); ("depth_gte", "nlevel({}) >=");
   ("depth_lt", "nlevel({}) <"); ("depth_lte", "nlevel({}) <="); ("depth_neq", "nlevel({}) !=");
   ("subpath", "subpath"); ("index", "index"); ("index_eq", "index ="); ("index_gte", "index >=");
   ("notin", "NOT IN")].

Definition JSONB_OPERATORS : list (string * string) := [("strictly_contains", "@>")].

Definition COORDINATE_OPERATORS : list (string * string) :=
  [("distance_within", "distance_within"); ("notin", "NOT IN")].

Definition COORDINATE_FIELD_OPERATORS : list string :=
  ["eq"; "neq"; "in"; "nin"; "notin"; "distance_within"].

Definition PATTERN_OPERATORS : list (string * string) := [("imatches", "~*"); ("not_matches", "!~")].

Definition ARRAY_OPERATORS_EXTRA : list (string * string) := [("len_lte", "<="); ("len_neq", "!=")].

Definition PATH_OPERATORS : list (string * string) := [("isdescendant", "isdescendant")].

Definition LTREE_DEPTH_COMPARISONS : list (string * string) :=
  [("nlevel", "="); ("nlevel_eq", "="); ("nlevel_neq", "!="); ("nlevel_gt", ">");
   ("nlevel_gte", ">="); ("nlevel_lt", "<"); ("nlevel_lte", "<="); ("depth_eq", "=");
   ("depth_neq", "!="); ("depth_gt", ">"); ("depth_gte", ">="); ("depth_lt", "<");
   ("depth_lte", "<=")].

Definition LTREE_INDEX_COMPARISONS : list (string * string) :=
  [("index_eq", "="); ("index_gte", ">=")].

Definition LTREE_NON_FILTERS : list string := ["subpath"; "index"; "concat"].

Definition LTREE_FUNCTION_FILTERS : list string :=
  dict_keys LTREE_INDEX_COMPARISONS ++ ["lca"] ++ LTREE_NON_FILTERS.

Definition LTREE_MATCH_OPERATORS : list (string * (string * string)) :=
  [("ancestor_of", ("@>", "ltree")); ("descendant_of", ("<@", "ltree"));
   ("isdescendant", ("<@", "ltree")); ("matches_lquery", ("~", "lquery"));
   ("matches_ltxtquery", ("@", "ltxtquery")); ("matches_any_lquery", ("?", "lquery[]"));
   ("in_array", ("<@", "ltree[]"))].

Definition LIST_OPERATORS : list (string * string) := [("notin", "NOT IN")].

(** [{**a, **b, ...}]: a later table replaces the entry of an earlier one. *)
Definition dict_merge (tables : list (list (string * string))) : list (string * string) :=
  foldl (λ d kv, dict_set kv.1 kv.2 d) [] (concat tables).

Definition ALL_OPERATORS : list (string * string) :=
  dict_merge
    [COMPARISON_OPERATORS; CONTAINMENT_OPERATORS; STRING_OPERATORS; NULL_OPERATORS;
     VECTOR_OPERATORS; FULLTEXT_OPERATORS; _ARRAY_OPERATORS_FOR_ALL; NETWORK_OPERATORS;
     MACADDR_OPERATORS; DATERANGE_OPERATORS; LTREE_OPERATORS; JSONB_OPERATORS;
     COORDINATE_OPERATORS; PATTERN_OPERATORS; ARRAY_OPERATORS_EXTRA; PATH_OPERATORS;
     LIST_OPERATORS].

Definition TEMPORAL_CAST_OPERATORS : list string :=
  dict_keys COMPARISON_OPERATORS ++ dict_keys CONTAINMENT_OPERATORS.

(** [d[k]] *)
Definition subscript {V} (k : string) (d : list (string * V)) : result V :=
  match dict_get k d with Some v => Ok v | None => Err KeyError end.

(** ** Helpers on values *)

Definition _is_number (value : pyval) : bool :=
  Py.is_int_float_decimal value && negb (Py.is_bool value).

Definition _as_numeric (expr : composable) : composable :=
  Composed [SQL "("; expr; SQL ")::numeric"].

(** The values [temporal_cast] and a date or datetime value can ask for. *)
Inductive cast :=
| timestamptz
| date
| ltree
| point.

#[export] Instance cast_eq_dec : EqDecision cast.
Proof. solve_decision. Defined.

Definition cast_name (c : cast) : string :=
  match c with
  | timestamptz => "timestamptz" | date => "date" | ltree => "ltree" | point => "point"
  end.

(** The one element of the set of these values, if there is just one. *)
Definition agreed {A} `{EqDecision A} (l : list (option A)) : option A :=
  match l with
  | [] => None
  | x :: l' => if forallb (λ y, bool_decide (x = y)) l' then x else None
  end.

Fixpoint temporal_cast_of_value (value : pyval) : option cast :=
  match value with
  | PList l | PTuple l => agreed (map temporal_cast_of_value l)
  | PDatetime _ _ => Some timestamptz
  | PDate _ _ => Some date
  | _ => None
  end.

(** [_coordinate]: a list is read as a tuple. *)
Definition _coordinate (value : pyval) : result pyval :=
  let value := match value with PList l => PTuple l | _ => value end in
  '(lat, lng) ← Coordinate.parse_coordinate_value value;
  Ok (PTuple [PFloat lat; PFloat lng]).

(** The two named items of a mapping or attributes of an object, or the items
    of a pair. *)
Definition two_parts (k1 k2 : string) (value : pyval) : option (pyval * pyval) :=
  match value with
  | PDict d =>
      match dict_get k1 d, dict_get k2 d with Some a, Some b => Some (a, b) | _, _ => None end
  | PList [a; b] | PTuple [a; b] => Some (a, b)
  | _ =>
      match Py.attr k1 value, Py.attr k2 value with Some a, Some b => Some (a, b) | _, _ => None end
  end.

Definition _coordinate_distance (value : pyval) : result pyval :=
  match two_parts "center" "radius" value with
  | None => Err TypeError
  | Some (center, radius) =>
      if negb (Py.is_int_float_decimal radius) || Py.is_bool radius then Err TypeError
      else
        c ← _coordinate center;
        r ← Py.float radius;
        Ok (PTuple [c; PFloat r])
  end.

(** ** The condition *)

Record field_condition := {
  field_path : list string;
  operator : string;
  value : pyval;
  lookup_strategy : string;
  target_column : string;
  jsonb_path : option (list string);
  temporal_cast : option cast
}.

(** [not self.jsonb_path] *)
Definition no_path (p : option (list string)) : bool :=
  match p with None | Some [] => true | Some (_ :: _) => false end.

Definition __post_init__ (self : field_condition) : result field_condition :=
  if negb (dict_has (operator self) ALL_OPERATORS) then Err ValueError
  else if negb (lookup_strategy self in_ ["fk_column"; "jsonb_path"; "sql_column"]) then
    Err ValueError
  else if (lookup_strategy self =s "jsonb_path") && no_path (jsonb_path self) then Err ValueError
  else if bool_decide (field_path self = []) then Err ValueError
  else Ok self.

(** What [to_sql] returns: a fragment and its parameters. *)
Definition sql_params : Type := composable * list pyval.

Definition _is_coordinate_filter (self : field_condition) : bool :=
  (operator self =s "distance_within")
  || (bool_decide (temporal_cast self = Some point)
      && (operator self in_ COORDINATE_FIELD_OPERATORS)).

(** [except (TypeError, GraphQLError) as e: raise ValueError] *)
Definition as_ValueError {A} (r : result A) : result A :=
  match r with Err TypeError | Err GraphQLError => Err ValueError | _ => r end.

Definition _coordinate_sql (env : app_env) (self : field_condition) (path_expr : composable)
    : result sql_params :=
  let operator := if operator self =s "nin" then "notin" else operator self in
  sql ← as_ValueError
    (v ← (if operator =s "distance_within" then _coordinate_distance (value self)
          else if operator in_ ["in"; "notin"] then
            match Py.seq_items (value self) with
            | None => Err TypeError
            | Some l => PList <$> mapR _coordinate l
            end
          else _coordinate (value self));
     CoordinateOps.build_sql env operator v path_expr None None);
  match sql with
  | None => Err ValueError
  | Some c => Ok (Composed [c], [])
  end.

(** [", ".join([p] * n)] *)
Definition comma_repeat (p : string) (n : nat) : string := Str.join ", " (replicate n p).

Definition _ltree_match_sql (self : field_condition) (path_expr : composable)
    : result sql_params :=
  '(sql_op, value_type) ← subscript (operator self) LTREE_MATCH_OPERATORS;
  param ←
    (if Str.ends_with "[]" value_type then
       match Py.seq_items (value self) with
       | Some ((_ :: _) as l) => Ok (PList (map (λ v, PStr (Py.str v)) l))
       | _ => Err ValueError
       end
     else match value self with
          | PList _ | PTuple _ | PDict _ => Err ValueError
          | v => Ok (PStr (Py.str v))
          end);
  Ok (Composed [path_expr; SQL (" " +:+ sql_op +:+ " %s::" +:+ value_type)%stdpp], [param]).

Definition _ltree_depth_sql (self : field_condition) (path_expr : composable)
    : result sql_params :=
  comparison ← subscript (operator self) LTREE_DEPTH_COMPARISONS;
  n ← Py.int (value self);
  Ok (Composed [SQL "nlevel("; path_expr; SQL (") " +:+ comparison +:+ " ")%stdpp; SQL "%s"],
      [PInt n]).

Definition _ltree_function_sql (self : field_condition) (path_expr : composable)
    : result sql_params :=
  if operator self in_ LTREE_NON_FILTERS then Err ValueError
  else if operator self =s "lca" then
    match Py.seq_items (value self) with
    | Some ((_ :: _) as paths) =>
        Ok (Composed [path_expr;
                      SQL (" = lca(ARRAY[" +:+ comma_repeat "%s::ltree" (length paths) +:+ "])")%stdpp],
            map (λ path, PStr (Py.str path)) paths)
    | _ => Err ValueError
    end
  else
    match two_parts "label" "position" (value self) with
    | None => Err ValueError
    | Some (label, position) =>
        comparison ← subscript (operator self) LTREE_INDEX_COMPARISONS;
        n ← Py.int position;
        Ok (Composed [SQL "index("; path_expr; SQL (", %s::ltree) " +:+ comparison +:+ " %s")%stdpp],
            [PStr (Py.str label); PInt n])
    end.

Definition _build_like_pattern (self : field_condition) : string :=
  let text := Py.str (value self) in
  if operator self in_ ["contains"; "icontains"] then ("%" +:+ text +:+ "%")%stdpp
  else if operator self in_ ["startswith"; "istartswith"] then (text +:+ "%")%stdpp
  else if operator self in_ ["endswith"; "iendswith"] then ("%" +:+ text)%stdpp
  else text.

(** ** [to_sql] *)

Definition HIERARCHY_OPERATORS : list string := ["descendant_of_id"; "ancestor_of_id"].

(** The ID-based hierarchy operators, the same in the three lookups:
    [name] is the column the entity's name derives from. *)
Definition hierarchy_sql (env : app_env) (self : field_condition) (name : string)
    (path : composable) : result sql_params :=
  match default_entity_schema env with
  | None => Err ValueError
  | Some entity_schema =>
      entity_name ← _resolve_entity_name name;
      let ltree_op := if operator self =s "descendant_of_id" then "<@" else "@>" in
      Ok (_build_hierarchy_subquery entity_schema entity_name (Py.str (value self)) ltree_op path,
          [])
  end.

(** [{lhs} IN (%s, %s, ...)] with a parameter for each value. *)
Definition containment_sql (lhs : composable) (sql_op mark : string) (values_list : list pyval)
    : result sql_params :=
  Ok (Composed [lhs; SQL (" " +:+ sql_op +:+ " (" +:+ comma_repeat mark (length values_list) +:+ ")")%stdpp],
      values_list).

Definition isnull_sql (self : field_condition) (lhs : composable) : result sql_params :=
  Ok (Composed [lhs; SQL (if Py.truthy (value self) then " IS NULL" else " IS NOT NULL")], []).

(** [{lhs} op %s] *)
Definition compare_sql (lhs : composable) (op : string) (param : pyval) : result sql_params :=
  Ok (Composed [lhs; SQL (" " +:+ op +:+ " ")%stdpp; SQL "%s"], [param]).

(** The delegation to the network strategy. *)
Definition network_sql (env : app_env) (self : field_condition) (path : composable)
    (jsonb_column : option string) : result sql_params :=
  sql ← registry_build_sql (default_registry env) (operator self) (value self) path None jsonb_column;
  match sql with
  | None => Err ValueError
  | Some c => Ok (c, [])
  end.

Definition fk_sql (env : app_env) (self : field_condition) : result sql_params :=
  let column := Identifier (target_column self) in
  if operator self in_ HIERARCHY_OPERATORS then hierarchy_sql env self (target_column self) column
  else if _is_coordinate_filter self then _coordinate_sql env self column
  else if dict_has (operator self) LTREE_MATCH_OPERATORS then _ltree_match_sql self column
  else if dict_has (operator self) LTREE_DEPTH_COMPARISONS then _ltree_depth_sql self column
  else if operator self in_ LTREE_FUNCTION_FILTERS then _ltree_function_sql self column
  else
    sql_op ← subscript (operator self) ALL_OPERATORS;
    if dict_has (operator self) CONTAINMENT_OPERATORS then
      containment_sql column sql_op "%s" (Py.as_list (value self))
    else if operator self =s "isnull" then isnull_sql self column
    else compare_sql column sql_op (value self).

(** [data -> 'a' ->> 'b'] for the column and the keys. *)
Definition jsonb_expr (column : string) (path : list string) : composable :=
  Composed (Identifier column :: jsonb_steps path).

Definition as_ltree (expr : composable) : composable := Composed [SQL "("; expr; SQL ")::ltree"].

(** [(expr)::cast op %s::cast] *)
Definition cast_sql (self : field_condition) (expr : composable) (sql_op : string) (c : cast)
    : result sql_params :=
  let mark := ("%s::" +:+ cast_name c)%stdpp in
  let values_list := Py.as_list (value self) in
  let rhs :=
    if dict_has (operator self) CONTAINMENT_OPERATORS then
      SQL (" " +:+ sql_op +:+ " (" +:+ comma_repeat mark (length values_list) +:+ ")")%stdpp
    else SQL (" " +:+ sql_op +:+ " " +:+ mark)%stdpp in
  Ok (Composed [SQL "("; expr; SQL (")::" +:+ cast_name c)%stdpp; rhs], values_list).

(** [self.temporal_cast or temporal_cast_of_value(self.value)] *)
Definition cast_of (self : field_condition) : option cast :=
  match temporal_cast self with
  | Some c => Some c
  | None => temporal_cast_of_value (value self)
  end.

(** The parameter a text extraction is compared with. *)
Definition text_param (v : pyval) : pyval :=
  match v with
  | PBool _ => PStr (Str.lower (Py.str v))
  | _ => PStr (Py.str v)
  end.

(** The comparisons of a JSONB path that are no ltree or coordinate filter. *)
Definition jsonb_compare (env : app_env) (self : field_condition) (expr : composable)
    (sql_op : string) : result sql_params :=
  match (if operator self in_ TEMPORAL_CAST_OPERATORS then cast_of self else None) with
  | Some c => cast_sql self expr sql_op c
  | None =>
      if dict_has (operator self) CONTAINMENT_OPERATORS then
        let values_list := Py.as_list (value self) in
        let lhs :=
          if negb (bool_decide (values_list = [])) && forallb _is_number values_list
          then _as_numeric expr else expr in
        containment_sql lhs sql_op "%s" values_list
      else if operator self =s "isnull" then isnull_sql self expr
      else if dict_has (operator self) STRING_OPERATORS then
        compare_sql expr sql_op (PStr (_build_like_pattern self))
      else if dict_has (operator self) NETWORK_OPERATORS then
        network_sql env self expr (Some "data")
      else if _is_number (value self) then compare_sql (_as_numeric expr) sql_op (value self)
      else compare_sql expr sql_op (text_param (value self))
  end.

Definition jsonb_sql (env : app_env) (self : field_condition) : result sql_params :=
  sql_op ← subscript (operator self) ALL_OPERATORS;
  match jsonb_path self with
  | None | Some [] => Err ValueError
  | Some ((k :: ks) as path) =>
      let expr := jsonb_expr (target_column self) path in
      if operator self in_ HIERARCHY_OPERATORS then hierarchy_sql env self (List.last path k) expr
      else if _is_coordinate_filter self then _coordinate_sql env self expr
      else if dict_has (operator self) LTREE_MATCH_OPERATORS then
        _ltree_match_sql self (as_ltree expr)
      else if dict_has (operator self) LTREE_DEPTH_COMPARISONS then
        _ltree_depth_sql self (as_ltree expr)
      else if operator self in_ LTREE_FUNCTION_FILTERS then
        _ltree_function_sql self (as_ltree expr)
      else jsonb_compare env self expr sql_op
  end.

(** The vector, the threshold and the comparison of a vector filter. *)
Definition vector_operand (value : pyval) : result (pyval * pyval * pyval) :=
  match value with
  | PDict d =>
      let threshold :=
        match Py.get "threshold" d with PNone => PFloat (Num.FFin 5 (-1)) | t => t end in
      Ok (Py.get "vector" d, threshold, default (PStr "lt") (dict_get "comparison" d))
  | PList [vector; threshold] | PTuple [vector; threshold] => Ok (vector, threshold, PStr "lt")
  | _ => Err ValueError
  end.

(** [s.replace("%", "%%")] *)
Fixpoint escape_percent (s : string) : string :=
  match s with
  | EmptyString => EmptyString
  | String "%" s' => String "%" (String "%" (escape_percent s'))
  | String c s' => String c (escape_percent s')
  end.

Definition vector_sql (self : field_condition) (column : composable) : result sql_params :=
  '(vector, threshold, comparison) ← vector_operand (value self);
  let comp_op :=
    if Py.eq_str comparison "lt" then "<" else if Py.eq_str comparison "lte" then "<=" else ">" in
  vector_op ← subscript (operator self) VECTOR_OPERATORS;
  let vector_op_escaped := (" " +:+ escape_percent vector_op +:+ " ")%stdpp in
  let comp := SQL (") " +:+ comp_op +:+ " ")%stdpp in
  let sql :=
    if operator self in_ BINARY_VECTOR_OPERATORS then
      Composed [SQL "("; column; SQL vector_op_escaped; SQL "%s"; comp; SQL "%s"]
    else
      Composed [SQL "("; column; SQL "::vector"; SQL vector_op_escaped; SQL "%s::vector"; comp;
                SQL "%s"] in
  Ok (sql, [vector; threshold]).

(** The query and the threshold of a rank filter. *)
Definition rank_operand (value : pyval) : result (pyval * pyval) :=
  match value with
  | PDict d => Ok (Py.get "query" d, Py.get "threshold" d)
  | PStr s =>
      match Str.split1 ":" s with
      | Some (query, threshold_str) =>
          threshold ← Num.float_of_string threshold_str; Ok (PStr query, PFloat threshold)
      | None => Err ValueError
      end
  | _ => Err ValueError
  end.

(** [column @@ fn(%s)] *)
Definition tsquery_sql (self : field_condition) (column : composable) (fn : string)
    : result sql_params :=
  Ok (Composed [column; SQL (" @@ " +:+ fn +:+ "(")%stdpp; SQL "%s"; SQL ")"], [value self]).

(** [fn(column, to_tsquery(%s)) comp %s] *)
Definition rank_sql (self : field_condition) (column : composable) (fn comp : string)
    : result sql_params :=
  '(query, threshold) ← rank_operand (value self);
  Ok (Composed [SQL (fn +:+ "(")%stdpp; column; SQL ", to_tsquery("; SQL "%s";
                SQL (")) " +:+ comp +:+ " ")%stdpp; SQL "%s"],
      [query; threshold]).

Definition fulltext_sql (self : field_condition) (column : composable) : result sql_params :=
  if operator self =s "matches" then tsquery_sql self column "to_tsquery"
  else if operator self =s "plain_query" then tsquery_sql self column "plainto_tsquery"
  else if operator self =s "phrase_query" then tsquery_sql self column "phraseto_tsquery"
  else if operator self =s "websearch_query" then tsquery_sql self column "websearch_to_tsquery"
  else if operator self in_ ["rank_gt"; "rank_lt"] then
    rank_sql self column "ts_rank" (if operator self =s "rank_gt" then ">" else "<")
  else if operator self in_ ["rank_cd_gt"; "rank_cd_lt"] then
    rank_sql self column "ts_rank_cd" (if operator self =s "rank_cd_gt" then ">" else "<")
  else Err NameError.

Definition array_sql (self : field_condition) (column : composable) : result sql_params :=
  op ← subscript (operator self) ARRAY_OPERATORS;
  if operator self in_ ["array_eq"; "array_neq"] then
    compare_sql column (if operator self =s "array_eq" then "=" else "!=") (value self)
  else if operator self in_ ["array_contains"; "array_contained_by"; "contained_by";
                             "array_overlaps"; "overlaps"] then
    compare_sql column op (value self)
  else if operator self in_ ["array_length_eq"; "len_eq"; "array_length_gt"; "len_gt";
                             "array_length_lt"; "len_lt"; "array_length_gte"; "len_gte"] then
    Ok (Composed [SQL "array_length("; column; SQL ", 1) "; SQL (op +:+ " ")%stdpp; SQL "%s"],
        [value self])
  else if operator self in_ ["array_any_eq"; "any_eq"; "array_all_eq"; "all_eq"] then
    let fn := if operator self in_ ["array_any_eq"; "any_eq"] then "ANY" else "ALL" in
    Ok (Composed [SQL "%s = "; SQL (fn +:+ "(")%stdpp; column; SQL ")"], [value self])
  else Err NameError.

Definition column_sql (env : app_env) (self : field_condition) : result sql_params :=
  let column := Identifier (target_column self) in
  if operator self in_ HIERARCHY_OPERATORS then hierarchy_sql env self (target_column self) column
  else if _is_coordinate_filter self then _coordinate_sql env self column
  else if dict_has (operator self) LTREE_MATCH_OPERATORS then _ltree_match_sql self column
  else if dict_has (operator self) LTREE_DEPTH_COMPARISONS then _ltree_depth_sql self column
  else if operator self in_ LTREE_FUNCTION_FILTERS then _ltree_function_sql self column
  else
    sql_op ← subscript (operator self) ALL_OPERATORS;
    if (operator self =s "contains") && Py.is_list (value self) then
      op ← subscript "contains" ARRAY_OPERATORS; compare_sql column op (value self)
    else if dict_has (operator self) CONTAINMENT_OPERATORS then
      containment_sql column sql_op "%s" (Py.as_list (value self))
    else if operator self =s "isnull" then isnull_sql self column
    else if dict_has (operator self) STRING_OPERATORS then
      compare_sql column sql_op (PStr (_build_like_pattern self))
    else if dict_has (operator self) VECTOR_OPERATORS then vector_sql self column
    else if dict_has (operator self) FULLTEXT_OPERATORS then fulltext_sql self column
    else if dict_has (operator self) ARRAY_OPERATORS then array_sql self column
    else if dict_has (operator self) NETWORK_OPERATORS then network_sql env self column None
    else compare_sql column sql_op (value self).

Definition to_sql (env : app_env) (self : field_condition) : result sql_params :=
  if lookup_strategy self =s "fk_column" then fk_sql env self
  else if lookup_strategy self =s "jsonb_path" then jsonb_sql env self
  else if lookup_strategy self =s "sql_column" then column_sql env self
  else Err ValueError.

Definition __repr__ (self : field_condition) : string :=
  let path_str := Str.join "." (field_path self) in
  let target :=
    if lookup_strategy self =s "fk_column" then ("FK:" +:+ target_column self)%stdpp
    else if lookup_strategy self =s "jsonb_path" then
      ("JSONB:" +:+ target_column self +:+ "["
         +:+ Str.join "." (default [] (jsonb_path self)) +:+ "]")%stdpp
    else ("COL:" +:+ target_column self)%stdpp in
  ("FieldCondition(" +:+ path_str +:+ " " +:+ operator self +:+ " " +:+ Py.repr (value self)
     +:+ " → " +:+ target +:+ ")")%stdpp.
