(* ===== verification/FieldLaws.v ===== *)
(** * Laws of a filter condition

    The number of parameters [to_sql] returns, the names it quotes, and the
    independence of its texts from the values. *)
From stdpp Require Import base decidable strings list sets.
From Stdlib Require Import ZArith Lia Ascii.
From S2P Require Import Prelude PyVal Sql Shape OpBase OpCore OpPg OpLaws Registry SqlBuilder FieldCondition.

Local Open Scope py_scope.

(** ** Entries of the operator tables *)

Lemma subscript_all {V} (P : V → bool) k d v :
  forallb (λ kv, P kv.2) d = true → subscript k d = Ok v → P v = true.
Proof.
  unfold subscript. intros Hd. destruct (dict_get k d) as [v'|] eqn:E; [|done].
  intros [= ->]. apply dict_get_elem, list_elem_of_In in E.
  rewrite forallb_forall in Hd. by apply (Hd (k, v)).
Qed.

Lemma all_operators_inert k op : subscript k ALL_OPERATORS = Ok op → inert op = true.
Proof. apply (subscript_all inert). vm_compute. reflexivity. Qed.

Lemma array_operators_inert k op : subscript k ARRAY_OPERATORS = Ok op → inert op = true.
Proof. apply (subscript_all inert). vm_compute. reflexivity. Qed.

Lemma depth_comparisons_inert k op : subscript k LTREE_DEPTH_COMPARISONS = Ok op → inert op = true.
Proof. apply (subscript_all inert). vm_compute. reflexivity. Qed.

Lemma index_comparisons_inert k op : subscript k LTREE_INDEX_COMPARISONS = Ok op → inert op = true.
Proof. apply (subscript_all inert). vm_compute. reflexivity. Qed.

Lemma match_operators_inert k op ty :
  subscript k LTREE_MATCH_OPERATORS = Ok (op, ty) → inert op = true ∧ inert ty = true.
Proof.
  intros H. apply andb_true_iff. revert H.
  apply (subscript_all (λ p, inert p.1 && inert p.2)). vm_compute. reflexivity.
Qed.

Lemma vector_operators_inert k op :
  subscript k VECTOR_OPERATORS = Ok op → inert (escape_percent op) = true.
Proof. apply (subscript_all (λ o, inert (escape_percent o))). vm_compute. reflexivity. Qed.

Lemma cast_name_inert c : inert (cast_name c) = true.
Proof. by destruct c. Qed.

Create HintDb inert.
#[export] Hint Resolve all_operators_inert array_operators_inert depth_comparisons_inert
  index_comparisons_inert vector_operators_inert cast_name_inert inert_app : inert.
#[export] Hint Extern 1 (inert _ = true) => reflexivity : inert.

(** ** As many parameters as marks *)

Definition counted (r : result sql_params) : Prop :=
  ∀ c ps, r = Ok (c, ps) → placeholders c = length ps.

Lemma counted_Ok c ps : placeholders c = length ps → counted (Ok (c, ps)).
Proof. by intros H ? ? [= <- <-]. Qed.

Lemma counted_Err e : counted (Err e).
Proof. by intros ? ? [=]. Qed.

Lemma counted_bind {A} (m : result A) f :
  (∀ a, m = Ok a → counted (f a)) → counted (m ≫= f).
Proof. intros H c ps (a & Ha & Hf)%bind_Ok. by eapply H. Qed.

Create HintDb counted.
#[export] Hint Resolve counted_Ok counted_Err : counted.

(** The parameters of texts around a mark. *)
Lemma inert_before s t : inert s = true → text_params (s +:+ t)%stdpp = text_params t.
Proof. intros [H H']%inert_spec. by rewrite text_params_app, H'. Qed.

Lemma marks_params op mark n :
  inert op = true → no_pct_end mark = true →
  text_params (" " +:+ op +:+ " (" +:+ comma_repeat mark n +:+ ")")%stdpp = n * text_params mark.
Proof.
  intros Hop Hm. rewrite !inert_before by done.
  destruct (join_params mark n Hm) as [He Hc].
  unfold comma_repeat, Str.join. rewrite text_params_app by done. rewrite Hc.
  change (text_params ")") with 0. lia.
Qed.

Section path.
Context (path : composable) (Hpath : placeholders path = 0).

Lemma counted_compare op v : inert op = true → counted (compare_sql path op v).
Proof using Hpath.
  intros H. apply counted_Ok. cbn [placeholders sum_list_with length]. rewrite Hpath.
  rewrite !inert_before by done. reflexivity.
Qed.

Lemma counted_isnull c : counted (isnull_sql c path).
Proof using Hpath.
  apply counted_Ok. cbn [placeholders sum_list_with length]. rewrite Hpath. by case_match.
Qed.

Lemma counted_containment op l : inert op = true → counted (containment_sql path op "%s" l).
Proof using Hpath.
  intros H. apply counted_Ok. cbn [placeholders sum_list_with length]. rewrite Hpath.
  rewrite marks_params by done. change (text_params "%s") with 1. lia.
Qed.

Lemma counted_hierarchy env c name : counted (hierarchy_sql env c name path).
Proof using Hpath.
  unfold hierarchy_sql. destruct (default_entity_schema env); [|auto with counted].
  apply counted_bind. intros entity _. apply counted_Ok. cbn. rewrite Hpath. by case_match.
Qed.

Lemma counted_match c : counted (_ltree_match_sql c path).
Proof using Hpath.
  apply counted_bind. intros [op ty] [Hop Hty]%match_operators_inert.
  apply counted_bind. intros param _. apply counted_Ok.
  cbn [placeholders sum_list_with length]. rewrite Hpath, !inert_before by done.
  rewrite text_params_app by done. apply inert_params in Hty. rewrite Hty. reflexivity.
Qed.

Lemma counted_depth c : counted (_ltree_depth_sql c path).
Proof using Hpath.
  apply counted_bind. intros op Hop%depth_comparisons_inert. apply counted_bind. intros n _.
  apply counted_Ok. cbn [placeholders sum_list_with length].
  rewrite Hpath, !inert_before by done. reflexivity.
Qed.

Lemma counted_function c : counted (_ltree_function_sql c path).
Proof using Hpath.
  unfold _ltree_function_sql. case_match; [auto with counted|]. case_match.
  - destruct (Py.seq_items (value c)) as [[|p ps]|]; auto with counted.
    generalize (p :: ps) as paths. intros paths.
    apply counted_Ok. cbn [placeholders sum_list_with]. rewrite Hpath.
    rewrite inert_before by done. unfold comma_repeat, Str.join.
    destruct (join_params "%s::ltree" (length paths) eq_refl) as [He Hc].
    rewrite text_params_app by done. rewrite Hc, length_map.
    change (text_params "%s::ltree") with 1. change (text_params "])") with 0. lia.
  - destruct (two_parts _ _ _) as [[label position]|]; [|auto with counted].
    apply counted_bind. intros op Hop%index_comparisons_inert. apply counted_bind. intros n _.
    apply counted_Ok. cbn [placeholders sum_list_with length]. rewrite Hpath.
    rewrite (text_params_app ", %s::ltree) ") by done.
    rewrite inert_before by done. reflexivity.
Qed.

Lemma counted_network env c jc :
  operator c ∈ Network.SPECIFIC_OPERATORS → counted (network_sql env c path jc).
Proof using Hpath.
  intros Hop. unfold network_sql. rewrite network_registry_sql by done.
  apply counted_bind. intros [sql|] Hs; [|auto with counted].
  apply counted_Ok. cbn. eapply over_placeholders; [|done]. by eapply network_over.
Qed.

(** With a cast, a comparison has one mark: its value must not be a list. *)
Lemma counted_cast c op k :
  inert op = true →
  dict_has (operator c) CONTAINMENT_OPERATORS = true ∨ length (Py.as_list (value c)) = 1 →
  counted (cast_sql c path op k).
Proof using Hpath.
  intros Hop Hlen. apply counted_Ok. cbn [placeholders sum_list_with length]. rewrite Hpath.
  assert (inert (cast_name k) = true) as Hk by apply cast_name_inert.
  assert (text_params ("%s::" +:+ cast_name k)%stdpp = 1) as Hm by (by destruct k).
  rewrite (inert_before ")::") by done. rewrite (inert_params _ Hk).
  change (text_params "(") with 0. case_match; cbn [placeholders].
  - rewrite marks_params, Hm by (try done; by destruct k). lia.
  - rewrite !inert_before by done. rewrite Hm. destruct Hlen as [?| ->]; [congruence|done].
Qed.

Lemma counted_vector c : counted (vector_sql c path).
Proof using Hpath.
  apply counted_bind. intros [[vector threshold] comparison] _.
  apply counted_bind. intros op Hop%vector_operators_inert. apply counted_Ok.
  assert (∀ a b : string, text_params (") " +:+ (if Py.eq_str comparison a then "<" else
    if Py.eq_str comparison b then "<=" else ">") +:+ " ")%stdpp = 0) as Hcomp.
  { intros a b. by repeat case_match. }
  case_match; cbn [placeholders sum_list_with length];
    rewrite Hpath, Hcomp, !inert_before by done; reflexivity.
Qed.

Lemma counted_tsquery c fn : inert fn = true → counted (tsquery_sql c path fn).
Proof using Hpath.
  intros H. apply counted_Ok. cbn [placeholders sum_list_with length].
  rewrite Hpath, !inert_before by done. reflexivity.
Qed.

Lemma counted_rank c fn comp :
  inert fn = true → inert comp = true → counted (rank_sql c path fn comp).
Proof using Hpath.
  intros Hf Hc. apply counted_bind. intros [query threshold] _. apply counted_Ok.
  cbn [placeholders sum_list_with length]. rewrite Hpath, !inert_before by done. reflexivity.
Qed.

Lemma counted_fulltext c : counted (fulltext_sql c path).
Proof using Hpath.
  unfold fulltext_sql. repeat case_match; auto with counted;
    try (by apply counted_tsquery); by apply counted_rank.
Qed.

Lemma counted_array c : counted (array_sql c path).
Proof using Hpath.
  apply counted_bind. intros op Hop%array_operators_inert.
  case_match; [apply counted_compare; by case_match|].
  case_match; [by apply counted_compare|].
  case_match.
  { apply counted_Ok. cbn [placeholders sum_list_with length].
    rewrite Hpath, !inert_before by done. reflexivity. }
  case_match; [|auto with counted]. apply counted_Ok. cbn [placeholders sum_list_with length].
  rewrite Hpath. by case_match.
Qed.

(** The values the coordinate strategy gets hold no fragment. *)
Lemma coordinate_pair v w : _coordinate v = Ok w → ∃ a b, w = PTuple [PFloat a; PFloat b].
Proof.
  unfold _coordinate. intros (p & _ & H)%bind_Ok. destruct p as [a b]. injection H as <-. eauto.
Qed.

Lemma coordinate_plain v w : _coordinate v = Ok w → plain w.
Proof. by intros (a & b & ->)%coordinate_pair. Qed.

Lemma coordinate_distance_plain v w : _coordinate_distance v = Ok w → plain w.
Proof.
  unfold _coordinate_distance. destruct (two_parts _ _ _) as [[center radius]|]; [|done].
  case_match; [done|]. intros Hd. by inv_ok.
Qed.

Lemma as_ValueError_Ok {A} (r : result A) a : as_ValueError r = Ok a → r = Ok a.
Proof. by destruct r as [|[]]. Qed.

(** A coordinate filter is the strategy's fragment, over the path, and takes
    no parameter. *)
Lemma coordinate_over env c sql ps :
  _coordinate_sql env c path = Ok (sql, ps) → over path sql ∧ ps = [].
Proof using Type.
  unfold _coordinate_sql. cbn zeta.
  generalize (if operator c =s "nin" then "notin" else operator c) as op. intros op ([s|] & Hs%as_ValueError_Ok & [= <- <-])%bind_Ok.
  split; [|done]. apply over_Composed. constructor; [|constructor].
  apply bind_Ok in Hs as (v & Hv & Hs).
  eapply (law_over (s := CoordinateOps.strategy env)); [|exact Hs].
  revert Hv. case_match; [apply coordinate_distance_plain|].
  case_match; [|apply coordinate_plain].
  destruct (Py.seq_items _); [|done]. by intros (? & _ & <-)%fmap_Ok.
Qed.

Lemma counted_coordinate env c : counted (_coordinate_sql env c path).
Proof using Hpath.
  intros sql ps [H ->]%coordinate_over. by eapply over_placeholders.
Qed.
End path.

(** A comparison that casts takes one value: a list would give several
    parameters to its one mark. *)
Definition one_value (c : field_condition) : Prop :=
  lookup_strategy c = "jsonb_path" → cast_of c ≠ None →
  operator c ∈ dict_keys COMPARISON_OPERATORS → length (Py.as_list (value c)) = 1.

Lemma steps_placeholders l : sum_list_with placeholders (jsonb_steps l) = 0.
Proof. induction l as [|k [|k' l] IH]; cbn in *; auto. Qed.

Lemma jsonb_expr_placeholders column l : placeholders (jsonb_expr column l) = 0.
Proof. cbn. apply steps_placeholders. Qed.

Lemma as_ltree_placeholders e : placeholders e = 0 → placeholders (as_ltree e) = 0.
Proof. intros H. cbn. by rewrite H. Qed.

Lemma as_numeric_placeholders e : placeholders e = 0 → placeholders (_as_numeric e) = 0.
Proof. intros H. cbn. by rewrite H. Qed.

(** The network operators without [overlaps]' array reading are the strategy's. *)
Lemma network_specific operator :
  dict_has operator NETWORK_OPERATORS = true → operator ∈ Network.SPECIFIC_OPERATORS.
Proof.
  rewrite dict_has_In. intros H. apply list_elem_of_In in H.
  assert (forallb (λ o, o in_ Network.SPECIFIC_OPERATORS) (dict_keys NETWORK_OPERATORS) = true)
    as Hall by (vm_compute; reflexivity).
  rewrite forallb_forall in Hall. by apply str_in_true, Hall.
Qed.

#[export] Hint Resolve counted_compare counted_isnull counted_containment counted_hierarchy
  counted_match counted_depth counted_function counted_network counted_vector counted_fulltext
  counted_array counted_coordinate jsonb_expr_placeholders as_ltree_placeholders
  as_numeric_placeholders network_specific : counted.
#[export] Hint Extern 1 (inert _ = true) => (eauto with inert; fail) : counted.
#[export] Hint Extern 1 (placeholders (Identifier _) = 0) => reflexivity : counted.

(** Take the branches of a chain of tests one by one. *)
Ltac counted_chain :=
  repeat match goal with
  | |- counted (if ?b then _ else _) => destruct b eqn:?; [solve [auto with counted]|]
  end.

Lemma temporal_operators operator :
  (operator in_ TEMPORAL_CAST_OPERATORS) = true →
  dict_has operator CONTAINMENT_OPERATORS = true ∨ operator ∈ dict_keys COMPARISON_OPERATORS.
Proof.
  intros H%str_in_true. apply elem_of_app in H as [H|H]; [by right|left].
  by apply dict_has_In.
Qed.

Lemma counted_fk env c : counted (fk_sql env c).
Proof.
  unfold fk_sql. cbn zeta. counted_chain.
  apply counted_bind. intros op Hop%all_operators_inert.
  counted_chain. auto with counted.
Qed.

Lemma counted_jsonb_compare env c expr op :
  lookup_strategy c = "jsonb_path" → one_value c → inert op = true → placeholders expr = 0 →
  counted (jsonb_compare env c expr op).
Proof.
  intros Hs Hone Hop He. unfold jsonb_compare.
  destruct (if operator c in_ _ then _ else None) as [k|] eqn:Hk.
  - case_match eqn:Ht; [|done]. apply counted_cast; [done..|].
    apply temporal_operators in Ht as [?|?]; [by left|right].
    apply Hone; [done|by rewrite Hk|done].
  - cbn zeta. destruct (dict_has (operator c) CONTAINMENT_OPERATORS);
      [destruct (negb _ && _); auto with counted|].
    counted_chain. auto with counted.
Qed.

Lemma counted_jsonb env c :
  lookup_strategy c = "jsonb_path" → one_value c → counted (jsonb_sql env c).
Proof.
  intros Hs Hone. apply counted_bind. intros op Hop%all_operators_inert.
  destruct (jsonb_path c) as [[|k ks]|]; [auto with counted| |auto with counted]. cbn zeta.
  counted_chain. apply counted_jsonb_compare; auto with counted.
Qed.

Lemma counted_column env c : counted (column_sql env c).
Proof.
  unfold column_sql. cbn zeta. counted_chain.
  apply counted_bind. intros op Hop%all_operators_inert. case_match.
  { apply counted_bind. intros op' Hop'%array_operators_inert. auto with counted. }
  counted_chain. auto with counted.
Qed.

Lemma to_sql_counted env c : one_value c → counted (to_sql env c).
Proof.
  intros Hone. unfold to_sql. case_match; [apply counted_fk|].
  case_match eqn:Hs; [apply counted_jsonb; [by apply bool_decide_eq_true in Hs|done]|].
  case_match; [apply counted_column|auto with counted].
Qed.

(** ** The names a condition quotes *)

Definition entity_names (name : string) : list string :=
  match _resolve_entity_name name with Ok e => [("tb_" +:+ e)%stdpp] | Err _ => [] end.

(** The column, and for the hierarchy operators the configured schema and the
    table of the entity the column (or the last key of the path) refers to. *)
Definition schema_names (env : app_env) (c : field_condition) : list string :=
  [target_column c]
    ++ match default_entity_schema env with Some s => [s] | None => [] end
    ++ entity_names (target_column c)
    ++ match jsonb_path c with
       | Some (k :: ks) => entity_names (List.last (k :: ks) k)
       | _ => []
       end.

Definition named (names : list string) (r : result sql_params) : Prop :=
  ∀ c ps, r = Ok (c, ps) → identifiers c ⊆ names.

Lemma named_Ok names c ps : identifiers c ⊆ names → named names (Ok (c, ps)).
Proof. by intros H ? ? [= <- <-]. Qed.

Lemma named_Err names e : named names (Err e).
Proof. by intros ? ? [=]. Qed.

Lemma named_bind {A} names (m : result A) f :
  (∀ a, m = Ok a → named names (f a)) → named names (m ≫= f).
Proof. intros H c ps (a & Ha & Hf)%bind_Ok. by eapply H. Qed.

Create HintDb named.
#[export] Hint Resolve named_Ok named_Err : named.

Section named.
Context (path : composable) (names : list string) (Hpath : identifiers path ⊆ names).

(** Follow the calls of a helper; what remains is a fragment with the path alone. *)
Ltac named_solve :=
  repeat match goal with
  | |- named _ (_ ≫= _) => apply named_bind; intros ? ?
  | |- named _ (let _ := _ in _) => cbn zeta
  | |- named _ (match ?x with _ => _ end) => destruct x
  | |- named _ (Err _) => apply named_Err
  | |- named _ (Ok _) =>
      apply named_Ok; cbn [identifiers flat_map app]; rewrite ?app_nil_r; exact Hpath
  end.

Lemma named_compare op v : named names (compare_sql path op v).
Proof using Hpath. unfold compare_sql. named_solve. Qed.

Lemma named_isnull c : named names (isnull_sql c path).
Proof using Hpath. unfold isnull_sql. named_solve. Qed.

Lemma named_containment op m l : named names (containment_sql path op m l).
Proof using Hpath. unfold containment_sql. named_solve. Qed.

Lemma named_match c : named names (_ltree_match_sql c path).
Proof using Hpath. unfold _ltree_match_sql. named_solve. Qed.

Lemma named_depth c : named names (_ltree_depth_sql c path).
Proof using Hpath. unfold _ltree_depth_sql. named_solve. Qed.

Lemma named_function c : named names (_ltree_function_sql c path).
Proof using Hpath. unfold _ltree_function_sql. named_solve. Qed.

Lemma named_vector c : named names (vector_sql c path).
Proof using Hpath.
  unfold vector_sql. destruct (operator c in_ BINARY_VECTOR_OPERATORS); named_solve.
Qed.

Lemma named_fulltext c : named names (fulltext_sql c path).
Proof using Hpath. unfold fulltext_sql, tsquery_sql, rank_sql. named_solve. Qed.

Lemma named_array c : named names (array_sql c path).
Proof using Hpath. unfold array_sql, compare_sql. named_solve. Qed.

Lemma named_cast c op k : named names (cast_sql c path op k).
Proof using Hpath.
  unfold cast_sql. cbn zeta. apply named_Ok. case_match; cbn [identifiers flat_map app];
    rewrite ?app_nil_r; exact Hpath.
Qed.

Lemma named_network env c jc :
  dict_has (operator c) NETWORK_OPERATORS = true → named names (network_sql env c path jc).
Proof using Hpath.
  intros Hop%network_specific. unfold network_sql. rewrite network_registry_sql by done.
  apply named_bind. intros [sql|] Hs; [|auto with named]. apply named_Ok.
  etrans; [|exact Hpath]. apply over_identifiers. by eapply network_over.
Qed.

Lemma named_coordinate env c : named names (_coordinate_sql env c path).
Proof using Hpath.
  intros sql ps [H _]%coordinate_over. etrans; [|exact Hpath]. by apply over_identifiers.
Qed.

Lemma named_hierarchy env c name :
  match default_entity_schema env with Some s => [s] | None => [] end ++ entity_names name ⊆ names →
  named names (hierarchy_sql env c name path).
Proof using Hpath.
  unfold hierarchy_sql, entity_names.
  destruct (default_entity_schema env) as [s|]; [|auto with named].
  destruct (_resolve_entity_name name) as [e|]; [|intros _; apply named_Err].
  intros Hn. apply named_Ok. cbn. intros x [Hx|Hx]%elem_of_app; [by apply Hpath|].
  apply Hn. cbn. done.
Qed.
End named.

Lemma steps_identifiers l : flat_map identifiers (jsonb_steps l) = [].
Proof. induction l as [|k [|k' l] IH]; cbn in *; auto. Qed.

Lemma jsonb_expr_identifiers column l : identifiers (jsonb_expr column l) = [column].
Proof. cbn. by rewrite steps_identifiers. Qed.

#[export] Hint Resolve named_compare named_isnull named_containment named_match named_depth
  named_function named_vector named_fulltext named_array named_cast named_network
  named_coordinate named_hierarchy : named.

Ltac named_chain :=
  repeat match goal with
  | |- named _ (if ?b then _ else _) => destruct b eqn:?; [solve [auto with named]|]
  end.

Lemma schema_names_column env c : [target_column c] ⊆ schema_names env c.
Proof. unfold schema_names. set_solver. Qed.

Lemma schema_names_entity env c :
  match default_entity_schema env with Some s => [s] | None => [] end
    ++ entity_names (target_column c) ⊆ schema_names env c.
Proof. unfold schema_names. set_solver. Qed.

Lemma schema_names_path env c k ks :
  jsonb_path c = Some (k :: ks) →
  match default_entity_schema env with Some s => [s] | None => [] end
    ++ entity_names (List.last (k :: ks) k) ⊆ schema_names env c.
Proof. intros H. unfold schema_names. rewrite H. set_solver. Qed.

#[export] Hint Resolve schema_names_column schema_names_entity schema_names_path : named.
#[export] Hint Extern 1 (identifiers (Identifier _) ⊆ _) =>
  (apply schema_names_column) : named.

Lemma named_fk env c : named (schema_names env c) (fk_sql env c).
Proof.
  unfold fk_sql. cbn zeta. named_chain. apply named_bind. intros op _. named_chain.
  auto with named.
Qed.

Lemma named_column env c : named (schema_names env c) (column_sql env c).
Proof.
  unfold column_sql. cbn zeta. named_chain. apply named_bind. intros op _.
  destruct (_ && _); [apply named_bind; intros; auto with named|]. named_chain. auto with named.
Qed.

Lemma named_jsonb env c : named (schema_names env c) (jsonb_sql env c).
Proof.
  apply named_bind. intros op _. destruct (jsonb_path c) as [[|k ks]|] eqn:Hp; auto with named.
  cbn zeta. set (e := jsonb_expr (target_column c) (k :: ks)).
  assert (identifiers e ⊆ schema_names env c) as He.
  { unfold e. rewrite jsonb_expr_identifiers. auto with named. }
  assert (identifiers (as_ltree e) ⊆ schema_names env c) as Hl
    by (cbn [as_ltree identifiers flat_map app]; by rewrite app_nil_r).
  assert (identifiers (_as_numeric e) ⊆ schema_names env c) as Hnum
    by (cbn [_as_numeric identifiers flat_map app]; by rewrite app_nil_r).
  named_chain. unfold jsonb_compare.
  destruct (if _ : bool then _ else _); [auto with named|]. cbn zeta.
  destruct (dict_has (operator c) CONTAINMENT_OPERATORS);
    [destruct (negb _ && _); auto with named|].
  named_chain. auto with named.
Qed.

Lemma to_sql_named env c : named (schema_names env c) (to_sql env c).
Proof.
  unfold to_sql. case_match; [apply named_fk|]. case_match; [apply named_jsonb|].
  case_match; [apply named_column|auto with named].
Qed.

(** ** The texts do not depend on the values *)

Definition with_value (c : field_condition) (v : pyval) : field_condition :=
  {| field_path := field_path c; operator := operator c; value := v;
     lookup_strategy := lookup_strategy c; target_column := target_column c;
     jsonb_path := jsonb_path c; temporal_cast := temporal_cast c |}.

Definition same_sql (r r' : result sql_params) : Prop :=
  ∀ c ps c' ps', r = Ok (c, ps) → r' = Ok (c', ps') → raw_texts c = raw_texts c'.

Lemma same_sql_Ok c ps c' ps' :
  raw_texts c = raw_texts c' → same_sql (Ok (c, ps)) (Ok (c', ps')).
Proof. by intros H ? ? ? ? [= <- <-] [= <- <-]. Qed.

Lemma same_sql_Err_l e r : same_sql (Err e) r.
Proof. by intros ? ? ? ? [=]. Qed.

Lemma same_sql_Err_r e r : same_sql r (Err e).
Proof. by intros ? ? ? ? _ [=]. Qed.

(** The same call on both sides, and calls on each side. *)
Lemma same_sql_bind {A} (m : result A) f g :
  (∀ a, same_sql (f a) (g a)) → same_sql (m ≫= f) (m ≫= g).
Proof. intros H. destruct m; cbn; [done|apply same_sql_Err_l]. Qed.

Lemma same_sql_bind2 {A B} (m : result A) (n : result B) f g :
  (∀ a b, m = Ok a → n = Ok b → same_sql (f a) (g b)) → same_sql (m ≫= f) (n ≫= g).
Proof.
  intros H. destruct m, n; cbn; auto using same_sql_Err_l, same_sql_Err_r.
Qed.

Create HintDb same_sql.
#[export] Hint Resolve same_sql_Ok same_sql_Err_l same_sql_Err_r : same_sql.

Lemma alike_cast v w : alike v w → temporal_cast_of_value v = temporal_cast_of_value w.
Proof.
  enough (∀ u, temporal_cast_of_value (shape u) = temporal_cast_of_value u) as H.
  { unfold alike. intros E. by rewrite <- (H v), E, (H w). }
  fix IH 1. intros u. destruct u; try reflexivity; cbn; f_equal;
    (induction l as [|x l IHl]; [reflexivity|]; cbn [map]; f_equal; [apply IH | apply IHl]).
Qed.

Lemma alike_number v w : alike v w → _is_number v = _is_number w.
Proof. intros H. by destruct v, w. Qed.

Lemma alike_numbers l k : Forall2 alike l k → forallb _is_number l = forallb _is_number k.
Proof.
  induction 1 as [|x y l k Hxy _ IH]; cbn; [done|]. by rewrite IH, (alike_number _ _ Hxy).
Qed.

Lemma alike_is_list v w : alike v w → Py.is_list v = Py.is_list w.
Proof. intros H. by destruct v, w. Qed.

Lemma alike_eq_lt v w : alike v w → Py.eq_str v "lt" = Py.eq_str w "lt".
Proof. intros H. destruct v, w; try discriminate H; try done. apply (alike_str _ _ H). Qed.

Lemma alike_eq_lte v w : alike v w → Py.eq_str v "lte" = Py.eq_str w "lte".
Proof. intros H. destruct v, w; try discriminate H; try done. apply (alike_str _ _ H). Qed.

Lemma alike_list_length v w : alike v w → length (Py.as_list v) = length (Py.as_list w).
Proof. intros H. by eapply Forall2_length, alike_as_list. Qed.

Lemma alike_seq_items v w :
  alike v w → option_Forall2 (Forall2 alike) (Py.seq_items v) (Py.seq_items w).
Proof.
  intros H. destruct v, w; try discriminate H; cbn; constructor;
    [by apply alike_list | by apply alike_tuple].
Qed.

Section same_sql.
Context (c : field_condition) (v w : pyval) (Halike : alike v w) (path : composable).
Notation cv := (with_value c v).
Notation cw := (with_value c w).

Lemma same_hierarchy env name :
  same_sql (hierarchy_sql env cv name path) (hierarchy_sql env cw name path).
Proof using Type.
  unfold hierarchy_sql. case_match; [|auto with same_sql].
  apply same_sql_bind. intros e. by apply same_sql_Ok.
Qed.

Lemma same_compare op a b : same_sql (compare_sql path op a) (compare_sql path op b).
Proof using Type. by apply same_sql_Ok. Qed.

Lemma same_isnull : same_sql (isnull_sql cv path) (isnull_sql cw path).
Proof using Halike. apply same_sql_Ok. cbn. by rewrite (alike_truthy _ _ Halike). Qed.

Lemma same_containment lhs op m :
  same_sql (containment_sql lhs op m (Py.as_list v)) (containment_sql lhs op m (Py.as_list w)).
Proof using Halike. apply same_sql_Ok. by rewrite (alike_list_length _ _ Halike). Qed.

Lemma same_match : same_sql (_ltree_match_sql cv path) (_ltree_match_sql cw path).
Proof using Type.
  apply same_sql_bind. intros [op ty]. apply same_sql_bind2. intros. by apply same_sql_Ok.
Qed.

Lemma same_depth : same_sql (_ltree_depth_sql cv path) (_ltree_depth_sql cw path).
Proof using Type.
  apply same_sql_bind. intros op. apply same_sql_bind2. intros. by apply same_sql_Ok.
Qed.

Lemma same_function : same_sql (_ltree_function_sql cv path) (_ltree_function_sql cw path).
Proof using Halike.
  unfold _ltree_function_sql. cbn [operator value with_value].
  case_match; [auto with same_sql|]. case_match.
  - destruct (alike_seq_items _ _ Halike) as [l k Hl|]; [|auto with same_sql].
    destruct Hl as [|x y l k _ Hl]; [auto with same_sql|]. apply same_sql_Ok.
    cbn [length raw_texts flat_map app]. by rewrite (Forall2_length _ _ _ Hl).
  - destruct (two_parts _ _ v) as [[]|], (two_parts _ _ w) as [[]|]; auto with same_sql.
    apply same_sql_bind. intros op. apply same_sql_bind2. intros. by apply same_sql_Ok.
Qed.

Lemma same_cast op k : same_sql (cast_sql cv path op k) (cast_sql cw path op k).
Proof using Halike.
  apply same_sql_Ok. cbn [value with_value]. by rewrite (alike_list_length _ _ Halike).
Qed.

Lemma vector_operand_alike p q :
  vector_operand v = Ok p → vector_operand w = Ok q →
  Py.eq_str p.2 "lt" = Py.eq_str q.2 "lt" ∧ Py.eq_str p.2 "lte" = Py.eq_str q.2 "lte".
Proof using Halike.
  intros Hp Hq. destruct v, w; try discriminate Halike; try discriminate Hp; cbn in *.
  - by repeat case_match; simplify_eq.
  - by repeat case_match; simplify_eq.
  - injection Hp as <-. injection Hq as <-. cbn.
    destruct (alike_dict _ _ "comparison" Halike); [|done]. cbn.
    split; [by apply alike_eq_lt | by apply alike_eq_lte].
Qed.

Lemma same_vector : same_sql (vector_sql cv path) (vector_sql cw path).
Proof using Halike.
  apply same_sql_bind2. cbn [value with_value]. intros p q Hp Hq.
  destruct (vector_operand_alike _ _ Hp Hq) as [E1 E2].
  destruct p as [[p1 p2] p3], q as [[q1 q2] q3]. cbn [snd] in E1, E2. rewrite E1, E2.
  cbn zeta. apply same_sql_bind. intros op. apply same_sql_Ok. cbn [operator with_value].
  by case_match.
Qed.

Lemma same_rank fn comp : same_sql (rank_sql cv path fn comp) (rank_sql cw path fn comp).
Proof using Type. apply same_sql_bind2. intros [] [] _ _. by apply same_sql_Ok. Qed.

Lemma same_fulltext : same_sql (fulltext_sql cv path) (fulltext_sql cw path).
Proof using Type.
  unfold fulltext_sql. cbn [operator with_value].
  repeat case_match; auto with same_sql; try apply same_rank; by apply same_sql_Ok.
Qed.

Lemma same_array : same_sql (array_sql cv path) (array_sql cw path).
Proof using Type.
  apply same_sql_bind. intros op. cbn [operator with_value].
  repeat case_match; auto with same_sql; by apply same_sql_Ok.
Qed.

Lemma same_network env jc : same_sql (network_sql env cv path jc) (network_sql env cw path jc).
Proof using Halike.
  apply same_sql_bind2. intros [s|] [s'|] Hs Hs'; auto with same_sql. apply same_sql_Ok.
  eapply registry_texts; [apply default_registry_laws|exact Halike|exact Hs|exact Hs'].
Qed.
End same_sql.

Lemma coordinate_same_list op v w v' w' :
  alike v w →
  (if op =s "distance_within" then _coordinate_distance v
   else if op in_ ["in"; "notin"] then
     match Py.seq_items v with None => Err TypeError | Some l => PList <$> mapR _coordinate l end
   else _coordinate v) = Ok v' →
  (if op =s "distance_within" then _coordinate_distance w
   else if op in_ ["in"; "notin"] then
     match Py.seq_items w with None => Err TypeError | Some l => PList <$> mapR _coordinate l end
   else _coordinate w) = Ok w' →
  same_list v' w'.
Proof.
  intros H. case_match.
  - unfold _coordinate_distance. destruct (two_parts _ _ v) as [[]|]; [|done].
    destruct (two_parts _ _ w) as [[]|]; [|done]. repeat case_match; try done.
    intros Hv Hw. by inv_ok.
  - case_match.
    + destruct (alike_seq_items _ _ H) as [l k Hl|]; [|done].
      intros (lv & Hv & <-)%fmap_Ok (lw & Hw & <-)%fmap_Ok. cbn.
      apply mapR_length in Hv, Hw. apply Forall2_length in Hl.
      apply Forall2_same_length_lookup_2; [congruence|done].
    + by intros (? & ? & ->)%coordinate_pair (? & ? & ->)%coordinate_pair.
Qed.

Lemma same_coordinate env c v w path :
  alike v w →
  same_sql (_coordinate_sql env (with_value c v) path) (_coordinate_sql env (with_value c w) path).
Proof.
  intros H. unfold _coordinate_sql. cbn zeta. cbn [operator value with_value].
  generalize (if operator c =s "nin" then "notin" else operator c) as op. intros op.
  apply same_sql_bind2.
  intros [s|] [s'|] Hs%as_ValueError_Ok Hs'%as_ValueError_Ok; auto with same_sql.
  apply same_sql_Ok. cbn. f_equal.
  apply bind_Ok in Hs as (v' & Hv & Hs). apply bind_Ok in Hs' as (w' & Hw & Hs').
  eapply coordinate_texts; [by eapply coordinate_same_list|exact Hs|exact Hs'].
Qed.

#[export] Hint Resolve same_hierarchy same_compare same_isnull same_containment same_match
  same_depth same_function same_cast same_vector same_fulltext same_array same_network
  same_coordinate : same_sql.

Ltac same_chain :=
  cbn [operator value lookup_strategy target_column jsonb_path temporal_cast with_value];
  repeat match goal with
  | |- same_sql (if ?b then _ else _) (if ?b then _ else _) =>
      destruct b eqn:?; [solve [auto with same_sql]|]
  end.

Section to_sql.
Context (env : app_env) (c : field_condition) (v w : pyval) (Halike : alike v w).

Lemma coordinate_filter_value u : _is_coordinate_filter (with_value c u) = _is_coordinate_filter c.
Proof using Type. done. Qed.

Lemma same_fk : same_sql (fk_sql env (with_value c v)) (fk_sql env (with_value c w)).
Proof using Halike.
  unfold fk_sql. cbn zeta. rewrite !coordinate_filter_value. same_chain.
  apply same_sql_bind. intros op. same_chain. auto with same_sql.
Qed.

Lemma same_column : same_sql (column_sql env (with_value c v)) (column_sql env (with_value c w)).
Proof using Halike.
  unfold column_sql. cbn zeta. rewrite !coordinate_filter_value. same_chain.
  apply same_sql_bind. intros op. rewrite (alike_is_list _ _ Halike).
  destruct (_ && _); [apply same_sql_bind; intros; auto with same_sql|].
  same_chain. auto with same_sql.
Qed.

Lemma same_jsonb_compare expr op :
  same_sql (jsonb_compare env (with_value c v) expr op) (jsonb_compare env (with_value c w) expr op).
Proof using Halike.
  unfold jsonb_compare, cast_of. cbn zeta.
  cbn [operator value lookup_strategy target_column jsonb_path temporal_cast with_value].
  rewrite (alike_cast _ _ Halike). destruct (if _ : bool then _ else _); [auto with same_sql|].
  destruct (dict_has (operator c) CONTAINMENT_OPERATORS).
  { rewrite (alike_numbers _ _ (alike_as_list _ _ Halike)).
    assert (bool_decide (Py.as_list v = []) = bool_decide (Py.as_list w = [])) as ->
      by (by destruct (alike_as_list _ _ Halike)).
    auto with same_sql. }
  rewrite (alike_number _ _ Halike). same_chain. auto with same_sql.
Qed.

Lemma same_jsonb : same_sql (jsonb_sql env (with_value c v)) (jsonb_sql env (with_value c w)).
Proof using Halike.
  apply same_sql_bind. intros op. cbn zeta. rewrite !coordinate_filter_value.
  cbn [jsonb_path with_value]. destruct (jsonb_path c) as [[|k ks]|]; auto with same_sql.
  same_chain. apply same_jsonb_compare.
Qed.

Lemma to_sql_same : same_sql (to_sql env (with_value c v)) (to_sql env (with_value c w)).
Proof using Halike.
  unfold to_sql. cbn [lookup_strategy with_value].
  case_match; [apply same_fk|]. case_match; [apply same_jsonb|].
  case_match; [apply same_column|auto with same_sql].
Qed.
End to_sql.
