(* ===== verification/Grouping.v ===== *)
(** * Every condition is one operand

    The SQL of a condition has matching parentheses and no AND or OR outside
    them, so that the connectives around it group it as a whole. *)
From stdpp Require Import base decidable strings list sets.
From Stdlib Require Import ZArith Lia Ascii.
From S2P Require Import Prelude PyVal Sql Shape OpBase OpCore OpPg OpLaws Registry SqlBuilder FieldCondition FieldLaws.

Local Open Scope py_scope.
#[local] Arguments tokens : simpl never.

Definition grouped `{Psycopg} (r : result sql_params) : Prop :=
  ∀ c ps, r = Ok (c, ps) → operand (tokens c).

Section grouped.
Context `{Psycopg}.

Lemma grouped_Ok c ps : operand (tokens c) → grouped (Ok (c, ps)).
Proof. by intros Hc ? ? [= <- <-]. Qed.

Lemma grouped_Err e : grouped (Err e).
Proof. by intros ? ? [=]. Qed.

Lemma grouped_bind {A} (m : result A) f :
  (∀ a, m = Ok a → grouped (f a)) → grouped (m ≫= f).
Proof. intros Hf c ps (a & Ha & Hfa)%bind_Ok. by eapply Hf. Qed.

Context (path : composable) (Hpath : operand (tokens path)).

(** Scan the fixed texts around the operands. *)
Ltac scan_texts :=
  unfold operand;
  repeat first
    [ progress autorewrite with tokens
    | match goal with
      | |- context [template_parts ?t] =>
          let v := eval vm_compute in (template_parts t) in change (template_parts t) with v
      | |- context [lex (?a +:+ ?b)%stdpp] =>
          is_ground (a +:+ b)%stdpp;
          let v := eval vm_compute in (lex (a +:+ b)%stdpp) in change (lex (a +:+ b)%stdpp) with v
      end
    | rewrite app_nil_r
    | rewrite scan_app
    | rewrite (operand_scan _ (tokens path) Hpath)
    | match goal with Hc : operand ?t |- _ => rewrite (operand_scan _ t Hc) end
    | progress cbn ];
  try reflexivity.

Lemma operand_parenthesized c :
  (∀ d, scan (S d) (tokens c) = Some (S d)) → operand (tokens (Format "({})" [c])).
Proof using Type.
  intros Hc. rewrite tokens_Format. change (template_parts "({})") with [inl "("; inr EmptyString; inl ")"].
  cbn. by apply operand_paren.
Qed.

Lemma operand_negated c :
  (∀ d, scan (S d) (tokens c) = Some (S d)) → operand (tokens (Format "NOT ({})" [c])).
Proof using Type.
  intros Hc. rewrite tokens_Format.
  change (template_parts "NOT ({})") with [inl "NOT ("; inr EmptyString; inl ")"].
  unfold operand. cbn. by rewrite scan_app, Hc.
Qed.

Lemma operand_cidr ranges neg :
  ranges ∈ [Network.PRIVATE_RANGES; Network.LOOPBACK_RANGES; Network.MULTICAST_RANGES;
            Network.BROADCAST_RANGES; Network.LINK_LOCAL_RANGES; Network.DOCUMENTATION_RANGES;
            Network.RESERVED_RANGES; Network.CARRIER_GRADE_RANGES; Network.SITE_LOCAL_RANGES;
            Network.UNIQUE_LOCAL_RANGES; Network.ALL_SPECIAL_PURPOSE_RANGES] →
  operand (tokens (Network._build_cidr_check path ranges neg)).
Proof using Hpath.
  intros Hr. unfold Network._build_cidr_check.
  assert (operand (tokens (Format "({})" [Join " OR " (map
    (λ cidr, Format "{} << inet '{}'" [Format "({})::inet" [path]; SQL cidr]) ranges)]))) as Hc.
  { rewrite tokens_Format. cbn. rewrite tokens_Join. cbn [lex].
    apply operand_paren, scan_intersperse; [done|]. rewrite map_map.
    apply Forall_map, Forall_forall. intros cidr Hcidr.
    assert (operand (lex cidr)) as Hl.
    { assert (forallb (forallb (λ s, bool_decide (operand (lex s))))
        [Network.PRIVATE_RANGES; Network.LOOPBACK_RANGES; Network.MULTICAST_RANGES;
         Network.BROADCAST_RANGES; Network.LINK_LOCAL_RANGES; Network.DOCUMENTATION_RANGES;
         Network.RESERVED_RANGES; Network.CARRIER_GRADE_RANGES; Network.SITE_LOCAL_RANGES;
         Network.UNIQUE_LOCAL_RANGES; Network.ALL_SPECIAL_PURPOSE_RANGES] = true) as Hall
        by (vm_compute; reflexivity).
      rewrite forallb_forall in Hall. apply list_elem_of_In in Hr, Hcidr.
      specialize (Hall _ Hr). rewrite forallb_forall in Hall.
      specialize (Hall _ Hcidr). by apply bool_decide_eq_true in Hall. }
    scan_texts. }
  destruct neg; [|done]. revert Hc. generalize (Format "({})" [Join " OR " (map
    (λ cidr, Format "{} << inet '{}'" [Format "({})::inet" [path]; SQL cidr]) ranges)]) as cond.
  intros cond Hc. scan_texts.
Qed.

Lemma operand_network operator v c jc :
  Network.build_sql operator v path None jc = Ok (Some c) →
  (operator =s "in") = false → (operator =s "nin") = false → operand (tokens c).
Proof using Hpath.
  unfold Network.build_sql, both_sides, _cast_both_sides, _build_null_check. cbn zeta.
  intros Hb Hin Hnin. rewrite Hin, Hnin in Hb.
  repeat match type of Hb with
  | (if ?b then _ else _) = _ => destruct b
  end; try discriminate Hb; injection Hb as <-;
    try (apply operand_cidr; set_solver); try (repeat case_match; scan_texts).
Qed.

Lemma grouped_network env c jc :
  dict_has (operator c) NETWORK_OPERATORS = true → grouped (network_sql env c path jc).
Proof using Hpath.
  intros Hop. apply network_specific in Hop as Hsp. unfold network_sql.
  rewrite network_registry_sql by done. apply grouped_bind. intros [sql|] Hs;
    [|apply grouped_Err]. apply grouped_Ok. eapply operand_network; [exact Hs|..];
    apply bool_decide_eq_false; intros E; rewrite E in Hop; vm_compute in Hop; discriminate.
Qed.

Lemma operand_same_point v c :
  CoordinateOps.same_point path v = Ok c → operand (tokens c).
Proof using Hpath.
  intros (lat & lng & _ & ->)%same_point_inv. unfold CoordinateOps._point. scan_texts.
Qed.

Lemma operand_distance env v c :
  CoordinateOps.distance_sql env v path = Ok (Some c) → operand (tokens c).
Proof using Hpath.
  intros (f & a & b & d & _ & Hf & ->)%distance_sql_inv.
  unfold CoordinateOps.build_distance_postgis, CoordinateOps.build_distance_earthdistance,
    CoordinateOps.build_distance_haversine, CoordinateOps._point in Hf.
  repeat case_match; distance_cases; scan_texts.
Qed.

Lemma grouped_coordinate env c : grouped (_coordinate_sql env c path).
Proof using Hpath.
  unfold _coordinate_sql. cbn zeta.
  generalize (if operator c =s "nin" then "notin" else operator c) as op. intros op.
  intros sql ps ([s|] & Hs%as_ValueError_Ok & [= <- <-])%bind_Ok.
  apply bind_Ok in Hs as (v & _ & Hs).
  assert (operand (tokens s)) as Ho; [|scan_texts].
  unfold CoordinateOps.build_sql in Hs. case_match.
  { inv_ok. by eapply operand_same_point. }
  case_match.
  { apply bind_Ok in Hs as (q & Hq%operand_same_point & [= <-]). scan_texts. }
  case_match; [|case_match; [by eapply operand_distance|done]].
  destruct v as [| | | | | | | | |[|x l]| | | |]; try discriminate Hs.
  { injection Hs as <-. case_match; scan_texts. }
  apply bind_Ok in Hs as (cs & Hcs%mapR_Ok & [= <-]).
  assert (Forall operand (map tokens cs)) as Hall.
  { apply Forall_map. generalize (x :: l) as k, cs, Hcs. clear -Hpath.
    induction 1; constructor; [by eapply operand_same_point|done]. }
  assert (∀ d, scan (S d) (tokens (Join " OR " cs)) = Some (S d)) as Hj.
  { intros d. rewrite tokens_Join. by apply scan_intersperse. }
  destruct (op =s "in").
  - by apply operand_parenthesized.
  - by apply operand_negated.
Qed.

Lemma grouped_hierarchy env c name : grouped (hierarchy_sql env c name path).
Proof using Hpath.
  unfold hierarchy_sql. destruct (default_entity_schema env); [|apply grouped_Err].
  apply grouped_bind. intros e _. apply grouped_Ok. unfold _build_hierarchy_subquery.
  case_match; scan_texts.
Qed.

(** *** The helpers of a condition *)

(** A text that leaves the depth of parentheses at [b] from [a]. *)
Definition steps_to (a b : nat) (s : string) : bool := bool_decide (scan a (lex s) = Some b).

Lemma steps_to_spec a b s : steps_to a b s = true → scan a (lex s) = Some b.
Proof using Type. apply bool_decide_eq_true. Qed.

Lemma scan_text_app d s t l :
  scan d (lex s) = Some t → scan d (lex s ++ l) = scan t l.
Proof using Type. intros Hs. by rewrite scan_app, Hs. Qed.

Lemma operand_pair c : operand (tokens c) → operand (tokens (Composed [path; c])).
Proof using Hpath. intros Hc. scan_texts. Qed.

Lemma grouped_compare op v :
  steps_to 0 0 (" " +:+ op +:+ " ")%stdpp = true → grouped (compare_sql path op v).
Proof using Hpath.
  intros Hop%steps_to_spec. apply grouped_Ok. rewrite tokens_Composed. cbn.
  rewrite !tokens_SQL. apply operand_app; [done|]. by apply operand_app.
Qed.

Lemma grouped_isnull c : grouped (isnull_sql c path).
Proof using Hpath. apply grouped_Ok, operand_pair. case_match; by rewrite tokens_SQL. Qed.

(** The list of marks, from its opening parenthesis. *)
Lemma scan_marks d m n t :
  Str.forallb quiet_char m = true →
  scan (S d) (lex (comma_repeat m n +:+ String ")" t)%stdpp) = scan d (lex t).
Proof using Type.
  intros Hm. unfold comma_repeat, Str.join. rewrite lex_quiet by (by apply quiet_join).
  by rewrite scan_app, (operand_scan _ _ (operand_chars _)).
Qed.

Lemma operand_in_list op m n :
  op = "IN" ∨ op = "NOT IN" → Str.forallb quiet_char m = true →
  operand (lex (" " +:+ op +:+ " (" +:+ comma_repeat m n +:+ ")")%stdpp).
Proof using Type.
  intros Hop Hm. pose proof (scan_marks 0 m n EmptyString Hm) as E.
  change (comma_repeat m n +:+ ")")%stdpp with (comma_repeat m n +:+ String ")" EmptyString)%stdpp.
  revert E. generalize (comma_repeat m n +:+ String ")" EmptyString)%stdpp as t. intros t E.
  destruct Hop as [-> | ->]; exact E.
Qed.

Lemma containment_op k op :
  dict_has k CONTAINMENT_OPERATORS = true → subscript k ALL_OPERATORS = Ok op →
  op = "IN" ∨ op = "NOT IN".
Proof using Type.
  rewrite dict_has_In. change (dict_keys CONTAINMENT_OPERATORS) with ["in"; "nin"].
  intros Hk Hop. apply elem_of_cons in Hk as [->|Hk].
  - left. by injection Hop.
  - apply list_elem_of_singleton in Hk as ->. right. by injection Hop.
Qed.

Lemma grouped_containment op l :
  op = "IN" ∨ op = "NOT IN" → grouped (containment_sql path op "%s" l).
Proof using Hpath.
  intros Hop. apply grouped_Ok, operand_pair. rewrite tokens_SQL. by apply operand_in_list.
Qed.

Lemma grouped_match c : grouped (_ltree_match_sql c path).
Proof using Hpath.
  apply grouped_bind. intros [op ty] Hop. apply grouped_bind. intros param _.
  apply grouped_Ok, operand_pair. rewrite tokens_SQL. revert Hop.
  intros Hop%(subscript_all (λ p, steps_to 0 0 (" " +:+ p.1 +:+ " %s::" +:+ p.2)%stdpp));
    [by apply steps_to_spec | vm_compute; reflexivity].
Qed.

Lemma grouped_depth c : grouped (_ltree_depth_sql c path).
Proof using Hpath.
  apply grouped_bind. intros op Hop. apply grouped_bind. intros n _. apply grouped_Ok.
  apply (subscript_all (λ o, steps_to 1 0 (") " +:+ o +:+ " ")%stdpp)) in Hop;
    [|vm_compute; reflexivity]. apply steps_to_spec in Hop.
  rewrite tokens_Composed. cbn [map concat]. rewrite !tokens_SQL. unfold operand.
  rewrite (scan_text_app _ _ 1), scan_app, (operand_scan _ _ Hpath) by done.
  cbn [mbind option_bind]. by rewrite (scan_text_app _ _ 0).
Qed.

Lemma operand_lca n : operand (lex (" = lca(ARRAY[" +:+ comma_repeat "%s::ltree" n +:+ "])")%stdpp).
Proof using Type.
  assert (scan 1 (lex (comma_repeat "%s::ltree" n +:+ "])")%stdpp) = Some 0) as E.
  { change "])" with ("]" +:+ String ")" EmptyString)%stdpp. rewrite <- app_assoc_str, lex_quiet.
    - by rewrite scan_app, (operand_scan _ _ (operand_chars _)).
    - rewrite forallb_app. unfold comma_repeat, Str.join. by rewrite quiet_join. }
  revert E. generalize (comma_repeat "%s::ltree" n +:+ "])")%stdpp as t. intros t E. exact E.
Qed.

Lemma grouped_function c : grouped (_ltree_function_sql c path).
Proof using Hpath.
  unfold _ltree_function_sql. case_match; [apply grouped_Err|]. case_match.
  - destruct (Py.seq_items (value c)) as [[|p ps]|]; [apply grouped_Err| |apply grouped_Err].
    apply grouped_Ok, operand_pair. rewrite tokens_SQL. apply operand_lca.
  - destruct (two_parts _ _ _) as [[label position]|]; [|apply grouped_Err].
    apply grouped_bind. intros op Hop. apply grouped_bind. intros n _. apply grouped_Ok.
    apply (subscript_all (λ o, steps_to 1 0 (", %s::ltree) " +:+ o +:+ " %s")%stdpp)) in Hop;
      [|vm_compute; reflexivity]. apply steps_to_spec in Hop.
    rewrite tokens_Composed. cbn [map concat]. rewrite !tokens_SQL. unfold operand.
    rewrite (scan_text_app _ _ 1), scan_app, (operand_scan _ _ Hpath) by done.
    cbn [mbind option_bind]. by rewrite (scan_text_app _ _ 0).
Qed.

Lemma grouped_cast c op k :
  dict_has (operator c) CONTAINMENT_OPERATORS = false ∨ op = "IN" ∨ op = "NOT IN" →
  subscript (operator c) ALL_OPERATORS = Ok op → grouped (cast_sql c path op k).
Proof using Hpath.
  intros Hin Hop. apply grouped_Ok. cbn zeta.
  match goal with |- operand (tokens (Composed [_; _; ?t; ?r])) => set (rhs := r); set (ty := t) end.
  assert (operand (tokens rhs)) as Hr.
  { unfold rhs. destruct (dict_has (operator c) CONTAINMENT_OPERATORS); rewrite tokens_SQL.
    - destruct Hin as [?|Hin]; [done|]. apply operand_in_list; [done|]. by destruct k.
    - apply (subscript_all (λ o, steps_to 0 0 (" " +:+ o +:+ " " +:+ ("%s::" +:+ cast_name k))%stdpp))
        in Hop; [by apply steps_to_spec|]. destruct k; vm_compute; reflexivity. }
  assert (scan 1 (tokens ty) = Some 0) as Ht by (unfold ty; rewrite tokens_SQL; by destruct k).
  unfold operand. rewrite tokens_Composed. cbn [map concat]. rewrite (tokens_SQL "(").
  cbn [lex app scan]. rewrite scan_app, (operand_scan _ _ Hpath). cbn [mbind option_bind].
  rewrite scan_app, Ht. cbn [mbind option_bind]. by rewrite app_nil_r.
Qed.

Lemma grouped_vector c : grouped (vector_sql c path).
Proof using Hpath.
  apply grouped_bind. intros [[vector threshold] comparison] _. cbn zeta.
  apply grouped_bind. intros op Hop. apply grouped_Ok.
  apply (subscript_all (λ o, steps_to 1 1 (" " +:+ escape_percent o +:+ " ")%stdpp)) in Hop;
    [|vm_compute; reflexivity]. apply steps_to_spec in Hop. revert Hop.
  generalize (" " +:+ escape_percent op +:+ " ")%stdpp as text. intros text Ht.
  destruct (operator c in_ _), (Py.eq_str comparison "lt"), (Py.eq_str comparison "lte");
    unfold operand; rewrite tokens_Composed; cbn [map concat]; rewrite !tokens_SQL;
    cbn [lex app scan]; rewrite scan_app, (operand_scan _ _ Hpath); cbn; by rewrite scan_app, Ht.
Qed.

Lemma grouped_fulltext c : grouped (fulltext_sql c path).
Proof using Hpath.
  unfold fulltext_sql. repeat (case_match; [first
    [ apply grouped_Ok; scan_texts
    | apply grouped_bind; intros [query threshold] _; apply grouped_Ok; case_match; scan_texts ]|]).
  apply grouped_Err.
Qed.

Lemma all_compare k op :
  subscript k ALL_OPERATORS = Ok op → steps_to 0 0 (" " +:+ op +:+ " ")%stdpp = true.
Proof using Type.
  apply (subscript_all (λ o, steps_to 0 0 (" " +:+ o +:+ " ")%stdpp)). vm_compute. reflexivity.
Qed.

Lemma array_compare k op :
  subscript k ARRAY_OPERATORS = Ok op → steps_to 0 0 (" " +:+ op +:+ " ")%stdpp = true.
Proof using Type.
  apply (subscript_all (λ o, steps_to 0 0 (" " +:+ o +:+ " ")%stdpp)). vm_compute. reflexivity.
Qed.

Lemma grouped_array c : grouped (array_sql c path).
Proof using Hpath.
  apply grouped_bind. intros op Hop. case_match; [apply grouped_compare; by case_match|].
  case_match; [apply grouped_compare; by eapply array_compare|].
  case_match.
  { apply (subscript_all (λ o, steps_to 0 0 (o +:+ " ")%stdpp)) in Hop; [|vm_compute; reflexivity].
    apply steps_to_spec in Hop. revert Hop. generalize (op +:+ " ")%stdpp as t. intros t Hop.
    apply grouped_Ok. unfold operand. rewrite tokens_Composed. cbn [map concat].
    rewrite !tokens_SQL. cbn [lex app scan]. rewrite scan_app, (operand_scan _ _ Hpath). cbn.
    by rewrite scan_app, Hop. }
  case_match; [|apply grouped_Err]. apply grouped_Ok. case_match; scan_texts.
Qed.
End grouped.

Create HintDb grouped.
#[export] Hint Resolve grouped_Err grouped_network grouped_coordinate grouped_hierarchy
  grouped_compare grouped_isnull grouped_containment grouped_match grouped_depth grouped_function
  grouped_vector grouped_fulltext grouped_array all_compare array_compare containment_op : grouped.
#[export] Hint Extern 1 (operand (tokens (Identifier _))) =>
  (rewrite tokens_Identifier; reflexivity) : grouped.

(** ** The whole condition *)
Section to_sql.
Context `{Psycopg}.

Lemma operand_steps l : operand (concat (map tokens (jsonb_steps l))).
Proof.
  induction l as [|k [|k' l] IH]; [done| |].
  - cbn. rewrite tokens_SQL, tokens_Literal. reflexivity.
  - change (operand (tokens (SQL " -> ") ++ tokens (Literal (PStr k))
      ++ concat (map tokens (jsonb_steps (k' :: l))))).
    rewrite tokens_SQL, tokens_Literal. by apply operand_app.
Qed.

Lemma operand_jsonb_expr column l : operand (tokens (jsonb_expr column l)).
Proof.
  unfold jsonb_expr. rewrite tokens_Composed. cbn [map concat].
  rewrite tokens_Identifier. apply operand_app; [done|]. apply operand_steps.
Qed.

Lemma operand_wrapped e s :
  operand (tokens e) → scan 1 (lex s) = Some 0 → operand (tokens (Composed [SQL "("; e; SQL s])).
Proof.
  intros He Hs. unfold operand. rewrite tokens_Composed. cbn [map concat].
  rewrite !tokens_SQL. cbn [lex app scan]. rewrite scan_app, (operand_scan _ _ He).
  cbn [mbind option_bind]. by rewrite scan_app, Hs.
Qed.

Lemma operand_as_ltree e : operand (tokens e) → operand (tokens (as_ltree e)).
Proof. intros He. by apply operand_wrapped. Qed.

Lemma operand_as_numeric e : operand (tokens e) → operand (tokens (_as_numeric e)).
Proof. intros He. by apply operand_wrapped. Qed.
End to_sql.

#[export] Hint Resolve operand_jsonb_expr operand_as_ltree operand_as_numeric : grouped.

Ltac grouped_chain :=
  repeat match goal with
  | |- grouped (if ?b then _ else _) => destruct b eqn:?; [solve [eauto with grouped]|]
  end.

Section condition.
Context `{Psycopg}.

Lemma grouped_fk env c : grouped (fk_sql env c).
Proof.
  unfold fk_sql. cbn zeta. grouped_chain. apply grouped_bind. intros op Hop. grouped_chain.
  eauto with grouped.
Qed.

Lemma grouped_column env c : grouped (column_sql env c).
Proof.
  unfold column_sql. cbn zeta. grouped_chain. apply grouped_bind. intros op Hop.
  destruct (_ && _); [apply grouped_bind; intros; eauto with grouped|].
  grouped_chain. eauto with grouped.
Qed.

Lemma grouped_jsonb_compare env c e op :
  operand (tokens e) → subscript (operator c) ALL_OPERATORS = Ok op →
  grouped (jsonb_compare env c e op).
Proof.
  intros He Hop. unfold jsonb_compare. cbn zeta.
  destruct (if _ : bool then _ else _) as [k|].
  { apply grouped_cast; [done| |done].
    destruct (dict_has (operator c) CONTAINMENT_OPERATORS) eqn:E; [right|by left].
    by eapply containment_op. }
  destruct (dict_has (operator c) CONTAINMENT_OPERATORS) eqn:E.
  { destruct (negb _ && _); eauto with grouped. }
  grouped_chain. eauto with grouped.
Qed.

Lemma grouped_jsonb env c : grouped (jsonb_sql env c).
Proof.
  apply grouped_bind. intros op Hop.
  destruct (jsonb_path c) as [[|k ks]|]; eauto with grouped. cbn zeta. grouped_chain.
  apply grouped_jsonb_compare; eauto with grouped.
Qed.

(** The SQL of a condition is one operand of AND and OR. *)
Lemma to_sql_grouped env c : grouped (to_sql env c).
Proof.
  unfold to_sql. case_match; [apply grouped_fk|]. case_match; [apply grouped_jsonb|].
  case_match; [apply grouped_column|eauto with grouped].
Qed.
End condition.
