(* ===== verification/Reading.v ===== *)
(** * How PostgreSQL groups a condition

    [reading] takes the tokens of a rendered condition apart the way the SQL
    grammar does: OR binds weakest, then AND, then NOT and parentheses; what is
    left is an atom. *)
From stdpp Require Import base decidable strings list.
From Stdlib Require Import ZArith Lia Ascii.
From S2P Require Import Prelude PyVal Sql.

Inductive formula :=
| FAtom (ts : list token)
| FNot (f : formula)
| FAnd (l : list formula)
| FOr (l : list formula).

(** The depth of parentheses, connectives ignored. *)
Fixpoint inside (d : nat) (ts : list token) : option nat :=
  match ts with
  | [] => Some d
  | TLp :: ts' => inside (S d) ts'
  | TRp :: ts' => match d with O => None | S d' => inside d' ts' end
  | _ :: ts' => inside d ts'
  end.

Definition balanced (ts : list token) : Prop := inside 0 ts = Some 0.

#[export] Instance balanced_dec ts : Decision (balanced ts).
Proof. unfold balanced. apply _. Defined.

(** The contents of one pair of parentheses around the whole text. *)
Definition strip_paren (ts : list token) : option (list token) :=
  match ts with
  | TLp :: rest =>
      match rev rest with
      | TRp :: mid => if decide (balanced (rev mid)) then Some (rev mid) else None
      | _ => None
      end
  | _ => None
  end.

Definition is_char (c : ascii) (t : token) : bool :=
  match t with TChar c' => Ascii.eqb c c' | _ => false end.

(** The operand of [NOT (...)]. *)
Definition strip_not (ts : list token) : option (list token) :=
  match ts with
  | a :: b :: c :: d :: ts' =>
      if is_char "N" a && is_char "O" b && is_char "T" c && is_char " " d
      then strip_paren ts' else None
  | _ => None
  end.

Fixpoint read (fuel : nat) (ts : list token) : formula :=
  match fuel with
  | O => FAtom ts
  | S fuel' =>
      match split_top TOr 0 [] ts with
      | x :: y :: l => FOr (map (read fuel') (x :: y :: l))
      | _ =>
          match split_top TAnd 0 [] ts with
          | x :: y :: l => FAnd (map (read fuel') (x :: y :: l))
          | _ =>
              match strip_not ts with
              | Some ts' => FNot (read fuel' ts')
              | None =>
                  match strip_paren ts with
                  | Some ts' => read fuel' ts'
                  | None => FAtom ts
                  end
              end
          end
      end
  end.

(** Every step leaves a shorter text, so its length is fuel enough. *)
Definition reading (ts : list token) : formula := read (S (length ts)) ts.

Example reading_ex :
  let a := TName "a" in let b := TName "b" in let c := TName "c" in
  reading [a; TAnd; TLp; b; TOr; a; TRp; TOr; c]
  = FOr [FAnd [FAtom [a]; FOr [FAtom [b]; FAtom [a]]]; FAtom [c]].
Proof. reflexivity. Qed.

(** ** Balanced texts *)

Lemma inside_app d a b : inside d (a ++ b) = inside d a ≫= λ d', inside d' b.
Proof.
  revert d. induction a as [|t a IH]; intros d; [done|].
  destruct t; cbn; try apply IH. destruct d; [done|]. apply IH.
Qed.

Lemma scan_inside d ts d' : scan d ts = Some d' → inside d ts = Some d'.
Proof.
  revert d. induction ts as [|t ts IH]; intros d; cbn; [done|].
  destruct t; try apply IH; destruct d; try done; apply IH.
Qed.

Lemma inside_scan d ts d' : inside d ts = Some d' → scan (S d) ts = Some (S d').
Proof.
  revert d. induction ts as [|t ts IH]; intros d; cbn; [by intros [= ->]|].
  destruct t; try apply IH. destruct d; [done|]. apply IH.
Qed.

Lemma operand_balanced ts : operand ts → balanced ts.
Proof. apply scan_inside. Qed.

Lemma balanced_app a b : balanced a → balanced b → balanced (a ++ b).
Proof. unfold balanced. intros Ha Hb. by rewrite inside_app, Ha. Qed.

Lemma balanced_join kw l :
  is_kw kw kw = true → Forall operand l → balanced (concat (intersperse [kw] l)).
Proof.
  intros Hkw. induction 1 as [|x l Hx Hl IH]; [done|].
  destruct Hl as [|y l Hy Hl]; [cbn; rewrite app_nil_r; by apply operand_balanced|].
  rewrite intersperse_cons, !concat_cons.
  apply balanced_app; [by apply operand_balanced|]. apply balanced_app; [by destruct kw|exact IH].
Qed.

Lemma operand_wrap ts : balanced ts → operand (TLp :: ts ++ [TRp]).
Proof. intros H%inside_scan. by apply operand_paren. Qed.

Definition not_prefix : list token := [TChar "N"; TChar "O"; TChar "T"; TChar " "].

Lemma operand_not ts : balanced ts → operand (not_prefix ++ TLp :: ts ++ [TRp]).
Proof. intros H. apply operand_app; [done|by apply operand_wrap]. Qed.

Lemma strip_paren_wrap ts : balanced ts → strip_paren (TLp :: ts ++ [TRp]) = Some ts.
Proof.
  intros H. unfold strip_paren. rewrite rev_app_distr. cbn.
  rewrite rev_involutive. by rewrite decide_True.
Qed.

Lemma strip_not_prefix ts : strip_not (not_prefix ++ ts) = strip_paren ts.
Proof. reflexivity. Qed.

(** ** Fuel *)

Lemma split_top_cons kw d cur ts : ∃ x l, split_top kw d cur ts = x :: l.
Proof.
  revert d cur. induction ts as [|t ts IH]; intros d cur; cbn; [eauto|]. case_match; eauto.
Qed.

Lemma split_top_length kw d cur ts :
  sum_list_with length (split_top kw d cur ts) + pred (length (split_top kw d cur ts))
  = length cur + length ts.
Proof.
  revert d cur. induction ts as [|t ts IH]; intros d cur; cbn; [rewrite length_rev; lia|].
  destruct (is_kw kw t && Nat.eqb d 0).
  - cbn. specialize (IH 0 []). rewrite length_rev.
    destruct (split_top_cons kw 0 [] ts) as (x & l & E). rewrite E in *. cbn in *. lia.
  - rewrite IH. cbn. lia.
Qed.

Lemma sum_list_In (l : list (list token)) x : x ∈ l → length x ≤ sum_list_with length l.
Proof. induction 1; cbn; lia. Qed.

Lemma strip_paren_length ts ts' : strip_paren ts = Some ts' → length ts' < length ts.
Proof.
  unfold strip_paren. destruct ts as [|[] rest]; try done.
  destruct (rev rest) as [|[] mid] eqn:E; try done. case_decide; [|done]. intros [= <-].
  rewrite length_rev. cbn. rewrite <- (length_rev rest), E. cbn. lia.
Qed.

Lemma strip_not_length ts ts' : strip_not ts = Some ts' → length ts' < length ts.
Proof.
  intros H. unfold strip_not in H. case_ok H. apply strip_paren_length in H. cbn. lia.
Qed.

Lemma read_map n m (l : list (list token)) :
  (∀ x, x ∈ l → read n x = read m x) → map (read n) l = map (read m) l.
Proof. intros H. apply map_ext_in. intros x Hx. by apply H, list_elem_of_In. Qed.

Lemma read_fuel n m ts : length ts < n → length ts < m → read n ts = read m ts.
Proof.
  revert m ts. induction n as [|n IH]; intros [|m] ts; try lia. intros Hn Hm.
  cbn [read].
  assert (∀ kw x y l z, split_top kw 0 [] ts = x :: y :: l → z ∈ x :: y :: l →
    read n z = read m z) as Hsplit.
  { intros kw x y l z E Hz%sum_list_In. pose proof (split_top_length kw 0 [] ts) as Hlen.
    rewrite E in Hlen. cbn [length pred] in *. apply IH; lia. }
  destruct (split_top TOr 0 [] ts) as [|x [|y l]] eqn:E1;
    [| |f_equal; apply read_map; intros z Hz; by eapply (Hsplit TOr)].
  all: destruct (split_top TAnd 0 [] ts) as [|x' [|y' l']] eqn:E2;
    [| |f_equal; apply read_map; intros z Hz; by eapply (Hsplit TAnd)].
  all: destruct (strip_not ts) as [ts'|] eqn:E3;
    [apply strip_not_length in E3; f_equal; apply IH; lia|].
  all: destruct (strip_paren ts) as [ts'|] eqn:E4; [|done];
    apply strip_paren_length in E4; apply IH; lia.
Qed.

(** ** How each form is read *)

Lemma reading_operand ts :
  operand ts →
  reading ts
  = match strip_not ts with
    | Some ts' => FNot (reading ts')
    | None => match strip_paren ts with Some ts' => reading ts' | None => FAtom ts end
    end.
Proof.
  intros H. unfold reading at 1. cbn [read]. rewrite !split_top_operand by done.
  destruct (strip_not ts) as [ts'|] eqn:E1.
  { apply strip_not_length in E1. f_equal. apply read_fuel; lia. }
  destruct (strip_paren ts) as [ts'|] eqn:E2; [|done].
  apply strip_paren_length in E2. apply read_fuel; lia.
Qed.

Lemma strip_not_paren ts : strip_not (TLp :: ts) = None.
Proof. unfold strip_not. by repeat case_match. Qed.

Lemma reading_wrap ts : balanced ts → reading (TLp :: ts ++ [TRp]) = reading ts.
Proof.
  intros H. rewrite reading_operand by (by apply operand_wrap).
  by rewrite strip_not_paren, strip_paren_wrap.
Qed.

Lemma reading_not ts :
  balanced ts → reading (not_prefix ++ TLp :: ts ++ [TRp]) = FNot (reading ts).
Proof.
  intros H. rewrite reading_operand by (by apply operand_not).
  by rewrite strip_not_prefix, strip_paren_wrap.
Qed.

Lemma concat_intersperse_length (sep : token) (l : list (list token)) x y k :
  l = x :: y :: k → ∀ z, z ∈ l → length z < length (concat (intersperse [sep] l)).
Proof.
  intros -> z Hz.
  assert (∀ (l : list (list token)), l ≠ [] →
    length (concat (intersperse [sep] l)) = sum_list_with length l + pred (length l)) as Hlen.
  { clear. induction l as [|x l IH]; [done|]. intros _. destruct l as [|y l].
    - cbn. rewrite app_nil_r. lia.
    - rewrite intersperse_cons, !concat_cons, !length_app, IH by done. cbn. lia. }
  rewrite Hlen by done. apply sum_list_In in Hz. cbn [length pred]. lia.
Qed.

(** Two or more operands with one connective between them. *)
Lemma reading_or x y l :
  Forall operand (x :: y :: l) →
  reading (concat (intersperse [TOr] (x :: y :: l))) = FOr (map reading (x :: y :: l)).
Proof.
  intros Hl. unfold reading at 1. cbn [read]. rewrite split_top_join by done. f_equal.
  apply map_ext_in. intros z Hz%list_elem_of_In. apply read_fuel; [|lia].
  by eapply concat_intersperse_length.
Qed.

Lemma reading_and x y l :
  Forall operand (x :: y :: l) →
  reading (concat (intersperse [TAnd] (x :: y :: l))) = FAnd (map reading (x :: y :: l)).
Proof.
  intros Hl. unfold reading at 1. cbn [read].
  rewrite split_top_join_other by done. rewrite split_top_join by done. f_equal.
  apply map_ext_in. intros z Hz%list_elem_of_In. apply read_fuel; [|lia].
  by eapply concat_intersperse_length.
Qed.
