(* ===== verification/WhereClause.v ===== *)
(** * The tree of conditions ([WhereClause] of [where_clause.py])

    Conditions, nested clauses and a negated clause under one connective; the
    theorems say what the rendered SQL means and what its parameters are. *)
From stdpp Require Import base decidable strings list sets.
From Stdlib Require Import ZArith Lia Ascii.
From S2P Require Import Prelude PyVal Sql Shape OpBase OpLaws FieldCondition FieldLaws Grouping Reading.

Local Open Scope py_scope.

Inductive where_clause :=
| Clause (conditions : list field_condition) (logical_op : string)
    (nested_clauses : list where_clause) (not_clause : option where_clause).

(** ** Operations *)

Definition __post_init__ (self : where_clause) : result where_clause :=
  match self with
  | Clause conditions logical_op nested_clauses not_clause =>
      if negb (logical_op in_ ["AND"; "OR"]) then Err ValueError
      else match conditions, nested_clauses, not_clause with
           | [], [], None => Err ValueError
           | _, _, _ => Ok self
           end
  end.

(** A part of the clause: its SQL and its parameters. *)
Definition part : Type := composable * list pyval.

(** A sub-clause in parentheses ([pre] is the opening text), when it has SQL. *)
Definition wrap (pre : string) (r : option composable * list pyval) : list part :=
  match r with
  | (Some sql, params) => [(Composed [SQL pre; sql; SQL ")"], params)]
  | (None, _) => []
  end.

(** The parts under the connective. *)
Definition combine (logical_op : string) (parts : list part) : option composable * list pyval :=
  match parts with
  | [] => (None, [])
  | [(sql, params)] => (Some sql, params)
  | _ => (Some (Join (" " +:+ logical_op +:+ " ")%stdpp parts.*1), concat parts.*2)
  end.

Fixpoint to_sql (env : app_env) (self : where_clause) : result (option composable * list pyval) :=
  match self with
  | Clause conditions logical_op nested_clauses not_clause =>
      cs ← mapR (FieldCondition.to_sql env) conditions;
      ns ← mapR (to_sql env) nested_clauses;
      n ← match not_clause with
          | Some c => r ← to_sql env c; Ok (wrap "NOT (" r)
          | None => Ok []
          end;
      Ok (combine logical_op (cs ++ flat_map (wrap "(") ns ++ n))
  end.

Fixpoint __repr__ (self : where_clause) : string :=
  match self with
  | Clause conditions logical_op nested_clauses not_clause =>
      let parts :=
        match conditions with
        | [] => []
        | _ => [Str.join (" " +:+ logical_op +:+ " ")%stdpp (map FieldCondition.__repr__ conditions)]
        end
        ++ map (λ nested, ("(" +:+ __repr__ nested +:+ ")")%stdpp) nested_clauses
        ++ match not_clause with
           | Some c => [("NOT (" +:+ __repr__ c +:+ ")")%stdpp]
           | None => []
           end in
      ("WhereClause(" +:+ Str.join " AND " parts +:+ ")")%stdpp
  end.

(** ** Clauses that passed their checks *)

Inductive valid : where_clause → Prop :=
| valid_clause conditions logical_op nested not :
    __post_init__ (Clause conditions logical_op nested not)
    = Ok (Clause conditions logical_op nested not) →
    Forall valid nested → (∀ c, not = Some c → valid c) →
    valid (Clause conditions logical_op nested not).

(** Every condition of a clause satisfies [P]. *)
Inductive each (P : field_condition → Prop) : where_clause → Prop :=
| each_clause conditions logical_op nested not :
    Forall P conditions → Forall (each P) nested → (∀ c, not = Some c → each P c) →
    each P (Clause conditions logical_op nested not).

(** Rule induction through the lists of sub-clauses. *)
Section where_ind.
Context (P : where_clause → Prop).
Context (IH : ∀ conditions logical_op nested not,
  Forall P nested → (∀ c, not = Some c → P c) → P (Clause conditions logical_op nested not)).

Fixpoint where_ind' (w : where_clause) : P w :=
  match w with
  | Clause conditions logical_op nested not =>
      IH conditions logical_op nested not
        ((fix all l : Forall P l :=
            match l with
            | [] => List.Forall_nil _
            | x :: l' => List.Forall_cons _ _ _ (where_ind' x) (all l')
            end) nested)
        (match not as o return ∀ c, o = Some c → P c with
         | Some c0 => λ c E,
             match E in _ = o return match o with Some c => P c | None => True end with
             | eq_refl => where_ind' c0
             end
         | None => λ c E, match E with end
         end)
  end.
End where_ind.

(** ** A successful rendering, part by part *)

Lemma to_sql_inv env conditions op nested not r :
  to_sql env (Clause conditions op nested not) = Ok r →
  ∃ cs ns n,
    Forall2 (λ c p, FieldCondition.to_sql env c = Ok p) conditions cs
    ∧ Forall2 (λ w q, to_sql env w = Ok q) nested ns
    ∧ match not with
      | Some c => ∃ q, to_sql env c = Ok q ∧ n = wrap "NOT (" q
      | None => n = []
      end
    ∧ r = combine op (cs ++ flat_map (wrap "(") ns ++ n).
Proof.
  cbn. intros (cs & Hcs%mapR_Ok & H)%bind_Ok. apply bind_Ok in H as (ns & Hns%mapR_Ok & H).
  apply bind_Ok in H as (n & Hn & [= <-]). exists cs, ns, n. split_and!; [done..| |done].
  destruct not as [c|]; [|by injection Hn]. apply bind_Ok in Hn as (q & Hq & [= <-]). eauto.
Qed.

Lemma valid_op conditions op nested not :
  valid (Clause conditions op nested not) → op = "AND" ∨ op = "OR".
Proof.
  inversion_clear 1 as [? ? ? ? Hv _ _]. cbn in Hv.
  destruct (op in_ _) eqn:E; [|done]. apply str_in_true in E.
  apply elem_of_cons in E as [->|E%list_elem_of_singleton]; auto.
Qed.

(** A property of parts that wrapping and combining keep. *)
Section parts.
Context (P : part → Prop).
Context (Pwrap : ∀ pre sql ps, pre = "(" ∨ pre = "NOT (" → P (sql, ps) →
  P (Composed [SQL pre; sql; SQL ")"], ps)).
Context (Pjoin : ∀ op parts, (op = "AND" ∨ op = "OR") → Forall P parts →
  P (Join (" " +:+ op +:+ " ")%stdpp parts.*1, concat parts.*2)).
Context (env : app_env) (Q : field_condition → Prop).
Context (Pcond : ∀ c p, Q c → FieldCondition.to_sql env c = Ok p → P p).

Definition good (r : option composable * list pyval) : Prop :=
  ∀ sql, r.1 = Some sql → P (sql, r.2).

Lemma good_wrap pre r : pre = "(" ∨ pre = "NOT (" → good r → Forall P (wrap pre r).
Proof using Pwrap.
  intros Hpre H. destruct r as [[sql|] ps]; cbn; repeat constructor. apply Pwrap; [done|].
  by apply H.
Qed.

Lemma good_combine op parts : op = "AND" ∨ op = "OR" → Forall P parts → good (combine op parts).
Proof using Pjoin.
  intros Hop H sql. destruct H as [|[s ps] parts Hp [|p' parts' Hp' Hl]]; cbn [combine fst snd];
    [done| |].
  - by intros [= <-].
  - intros [= <-]. apply (Pjoin op ((s, ps) :: p' :: parts')); [done|]. by repeat constructor.
Qed.

Lemma to_sql_good w r : valid w → each Q w → to_sql env w = Ok r → good r.
Proof using Pwrap Pjoin Pcond.
  revert r. induction w as [conditions op nested not IHn IHo] using where_ind'.
  intros r Hv He (cs & ns & n & Hcs & Hns & Hn & ->)%to_sql_inv.
  apply valid_op in Hv as Hop. inversion_clear Hv as [? ? ? ? _ Hvn Hvo].
  inversion_clear He as [? ? ? ? Hec Hen Heo].
  apply good_combine; [done|]. rewrite !Forall_app. split_and!.
  - clear -Hcs Hec Pcond. induction Hcs; inversion_clear Hec; constructor; eauto.
  - clear -Hns IHn Hvn Hen Pwrap. induction Hns as [|w q ws qs Hq _ IH]; [constructor|].
    inversion_clear IHn. inversion_clear Hvn. inversion_clear Hen. cbn.
    apply Forall_app. split; [|by apply IH]. apply good_wrap; [by left|eauto].
  - destruct not as [c|]; [|by subst]. destruct Hn as (q & Hq & ->).
    apply good_wrap; [by right|]. eapply IHo; eauto.
Qed.
End parts.

(** ** What the rendered SQL means *)

Section meaning.
Context `{Psycopg} (env : app_env).

(** The condition as PostgreSQL reads its SQL on its own. *)
Definition condition_formula (c : field_condition) : formula :=
  match FieldCondition.to_sql env c with
  | Ok (sql, _) => reading (tokens sql)
  | Err _ => FAtom []
  end.

Definition connect (op : string) (l : list formula) : formula :=
  match l with
  | [f] => f
  | _ => if op =s "OR" then FOr l else FAnd l
  end.

(** The meaning of the tree: the connective over the conditions, the nested
    clauses and the negation of the negated clause. *)
Fixpoint meaning (w : where_clause) : formula :=
  match w with
  | Clause conditions op nested not =>
      connect op
        (map condition_formula conditions ++ map meaning nested
           ++ match not with Some c => [FNot (meaning c)] | None => [] end)
  end.

(** A part and the formula it reads as. *)
Definition reads_as (p : part) (f : formula) : Prop :=
  operand (tokens p.1) ∧ reading (tokens p.1) = f.

Lemma combine_reading op parts fs :
  op = "AND" ∨ op = "OR" → parts ≠ [] → Forall2 reads_as parts fs →
  ∃ sql, (combine op parts).1 = Some sql ∧ balanced (tokens sql)
         ∧ reading (tokens sql) = connect op fs.
Proof.
  intros Hop Hne Hall. destruct Hall as [|[s ps] f parts fs [Ho Hf] Hall]; [done|]. clear Hne.
  cbn [fst] in Ho, Hf. destruct Hall as [|[s' ps'] f' parts fs Hp Hall]; cbn [combine fst].
  { exists s. split_and!; [done|by apply operand_balanced|done]. }
  eexists. split; [done|].
  assert (Forall operand (map tokens (s :: s' :: parts.*1))) as Hops.
  { repeat constructor; [done|apply Hp|]. clear -Hall. induction Hall as [|?? ?? Hp]; constructor;
      [apply Hp|done]. }
  assert (map reading (map tokens (s :: s' :: parts.*1)) = f :: f' :: fs) as Hfs.
  { cbn [map]. rewrite Hf. f_equal. f_equal; [apply Hp|]. clear -Hall.
    induction Hall as [|?? ?? Hp]; cbn; f_equal; [apply Hp|done]. }
  change (((s, ps) :: (s', ps') :: parts).*1) with (s :: s' :: parts.*1).
  rewrite tokens_Join. cbn [map] in Hops, Hfs |- *.
  destruct Hop as [-> | ->]; cbn [connect Str.eqb].
  - change (lex (" " +:+ "AND" +:+ " ")%stdpp) with [TAnd].
    split; [by apply balanced_join|]. rewrite reading_and by done. cbn [map]. by rewrite Hfs.
  - change (lex (" " +:+ "OR" +:+ " ")%stdpp) with [TOr].
    split; [by apply balanced_join|]. rewrite reading_or by done. cbn [map]. by rewrite Hfs.
Qed.

Lemma wrap_reading sql ps :
  balanced (tokens sql) →
  Forall2 reads_as (wrap "(" (Some sql, ps)) [reading (tokens sql)]
  ∧ Forall2 reads_as (wrap "NOT (" (Some sql, ps)) [FNot (reading (tokens sql))].
Proof.
  intros Hb. cbn [wrap]. split; repeat constructor; cbn [fst]; rewrite tokens_Composed;
    cbn [map concat]; rewrite !tokens_SQL, app_nil_r.
  - by apply operand_wrap.
  - by apply reading_wrap.
  - by apply (operand_not (tokens sql)).
  - by apply (reading_not (tokens sql)).
Qed.

Lemma init_nonempty conditions op nested not :
  valid (Clause conditions op nested not) → conditions ≠ [] ∨ nested ≠ [] ∨ not ≠ None.
Proof.
  inversion_clear 1 as [? ? ? ? Hv _ _]. cbn in Hv. destruct (op in_ _); [|done].
  destruct conditions, nested, not; cbn in *; try done; eauto.
Qed.

Lemma conditions_reading conditions cs :
  Forall2 (λ c p, FieldCondition.to_sql env c = Ok p) conditions cs →
  Forall2 reads_as cs (map condition_formula conditions).
Proof.
  induction 1 as [|c [s ps] conditions cs Hc _ IH]; constructor; [|done].
  split; [by eapply to_sql_grouped|]. unfold condition_formula. by rewrite Hc.
Qed.

Lemma cons_middle_nil {A} (x : A) l : x :: l = [x] ++ l.
Proof using Type. done. Qed.

(** The connective at the root of a clause, and the formulas under it. *)
Definition root_op (w : where_clause) : string := match w with Clause _ op _ _ => op end.

Definition operands (w : where_clause) : list formula :=
  match w with
  | Clause conditions _ nested not =>
      map condition_formula conditions ++ map meaning nested
        ++ match not with Some c => [FNot (meaning c)] | None => [] end
  end.

Lemma meaning_connect w : meaning w = connect (root_op w) (operands w).
Proof. by destruct w. Qed.

(** The parts of a rendered clause, each one operand that reads as its formula. *)
Lemma meaning_parts w r :
  valid w → to_sql env w = Ok r →
  ∃ parts, parts ≠ [] ∧ r = combine (root_op w) parts ∧ Forall2 reads_as parts (operands w).
Proof.
  revert r. induction w as [conditions op nested not IHn IHo] using where_ind'.
  intros r Hv (cs & ns & n & Hcs & Hns & Hn & ->)%to_sql_inv.
  apply init_nonempty in Hv as Hne. inversion_clear Hv as [? ? ? ? _ Hvn Hvo].
  assert (∀ w q, valid w → (∃ parts, parts ≠ [] ∧ q = combine (root_op w) parts ∧ Forall2 reads_as parts (operands w)) →
    ∃ sql ps, q = (Some sql, ps) ∧ balanced (tokens sql) ∧ reading (tokens sql) = meaning w) as Hread.
  { intros w [o ps] Hvw (parts & Hp & E & Hr). assert (root_op w = "AND" ∨ root_op w = "OR") as Hop.
    { destruct w. by apply valid_op in Hvw. }
    destruct (combine_reading _ _ _ Hop Hp Hr) as (sql & Es & Hb & Hm). rewrite <- E in Es. cbn in Es. subst o.
    exists sql, ps. by rewrite meaning_connect. }
  assert (Forall2 reads_as (flat_map (wrap "(") ns) (map meaning nested)
          ∧ (nested ≠ [] → flat_map (wrap "(") ns ≠ [])) as [Hns' Hnse].
  { clear -Hns IHn Hvn Hread. induction Hns as [|w q ws qs Hq _ IH]; [by repeat constructor|].
    inversion_clear IHn as [|? ? Hw IHn']. inversion_clear Hvn as [|? ? Hvw Hvn'].
    cbn [map]. destruct (Hread w q Hvw (Hw _ Hvw Hq)) as (sql & ps & -> & Hb & <-).
    destruct (IH IHn' Hvn') as [IH' _]. split; [|done]. cbn [flat_map].
    rewrite (cons_middle_nil (reading _)). apply Forall2_app; [by apply wrap_reading|done]. }
  assert (Forall2 reads_as n (match not with Some c => [FNot (meaning c)] | None => [] end)
          ∧ (not ≠ None → n ≠ [])) as [Hn' Hnne].
  { destruct not as [c|]; [|subst; by repeat constructor]. destruct Hn as (q & Hq & ->).
    destruct (Hread c q (Hvo c eq_refl) (IHo c eq_refl _ (Hvo c eq_refl) Hq)) as (sql & ps & -> & Hb & <-).
    split; [by apply wrap_reading|done]. }
  eexists. split; [|split; [done|]].
  - destruct Hne as [Hne|[Hne|Hne]]; [|apply Hnse in Hne|apply Hnne in Hne].
    + by destruct Hcs.
    + destruct (flat_map (wrap "(") ns); [done|]. by destruct cs.
    + destruct n; [done|]. destruct cs, (flat_map (wrap "(") ns); done.
  - by apply Forall2_app; [apply conditions_reading|apply Forall2_app].
Qed.

Lemma meaning_reading w r :
  valid w → to_sql env w = Ok r →
  ∃ sql, r.1 = Some sql ∧ balanced (tokens sql) ∧ reading (tokens sql) = meaning w.
Proof.
  intros Hv Hw. destruct (meaning_parts _ _ Hv Hw) as (parts & Hp & -> & Hr).
  assert (root_op w = "AND" ∨ root_op w = "OR") as Hop by (destruct w; by apply valid_op in Hv).
  rewrite meaning_connect. by apply combine_reading.
Qed.
End meaning.

(** ** The conditions of a tree, in the order they are rendered *)

Fixpoint all_conditions (w : where_clause) : list field_condition :=
  match w with
  | Clause conditions _ nested not =>
      conditions ++ flat_map all_conditions nested
        ++ match not with Some c => all_conditions c | None => [] end
  end.

Lemma each_all (P : field_condition → Prop) w : Forall P (all_conditions w) → each P w.
Proof.
  induction w as [conditions op nested not IHn IHo] using where_ind'. cbn.
  rewrite !Forall_app. intros (Hc & Hn & Ho). constructor; [done| |].
  - clear -IHn Hn. induction IHn as [|w nested Hw _ IH]; [constructor|].
    cbn in Hn. apply Forall_app in Hn as [? ?]. constructor; auto.
  - intros c ->. by apply IHo.
Qed.

Definition condition_params (env : app_env) (c : field_condition) : list pyval :=
  match FieldCondition.to_sql env c with Ok (_, ps) => ps | Err _ => [] end.

(** Two trees that differ in the values of their conditions alone, each pair of
    values having the same shape. *)
Inductive alike_clause : where_clause → where_clause → Prop :=
| alike_clause_intro conditions conditions' op nested nested' not not' :
    Forall2 (λ c c', c' = with_value c (value c') ∧ alike (value c) (value c'))
      conditions conditions' →
    Forall2 alike_clause nested nested' →
    option_Forall2 alike_clause not not' →
    alike_clause (Clause conditions op nested not) (Clause conditions' op nested' not').

Lemma with_own_value c : with_value c (value c) = c.
Proof. by destruct c. Qed.

(** Renderings with the same texts, or both without SQL. *)
Definition same_rendering (r r' : option composable * list pyval) : Prop :=
  option_Forall2 (λ s s', raw_texts s = raw_texts s') r.1 r'.1.

Definition same_part (p q : part) : Prop := raw_texts p.1 = raw_texts q.1.

Lemma same_wrap pre r r' : same_rendering r r' → Forall2 same_part (wrap pre r) (wrap pre r').
Proof.
  destruct r as [o ps], r' as [o' ps']. unfold same_rendering. cbn.
  destruct 1 as [s s' H|]; repeat constructor. unfold same_part. cbn. by rewrite H.
Qed.

Lemma same_combine op parts parts' :
  Forall2 same_part parts parts' → same_rendering (combine op parts) (combine op parts').
Proof.
  destruct 1 as [|[s ps] [s' ps'] parts parts' Hs Hall]; [constructor|].
  destruct Hall as [|[t qs] [t' qs'] parts parts' Ht Hall]; constructor; [done|].
  unfold same_part in *. cbn in *. rewrite Hs, Ht. do 3 f_equal.
  induction Hall as [|?? ?? Hp _ IH]; cbn; [done|]. unfold same_part in Hp. by rewrite Hp, IH.
Qed.

Lemma same_conditions env conditions conditions' cs cs' :
  Forall2 (λ c c', c' = with_value c (value c') ∧ alike (value c) (value c'))
    conditions conditions' →
  Forall2 (λ c p, FieldCondition.to_sql env c = Ok p) conditions cs →
  Forall2 (λ c p, FieldCondition.to_sql env c = Ok p) conditions' cs' →
  Forall2 same_part cs cs'.
Proof.
  intros H. revert cs cs'. induction H as [|c c' l l' [Hc Ha] _ IH]; intros cs cs' H1 H2;
    inversion H1 as [|? [s ps] ? ? Hs H1']; inversion H2 as [|? [s' ps'] ? ? Hs' H2']; subst;
    constructor; [|by apply IH].
  rewrite Hc in Hs'. rewrite <- (with_own_value c) in Hs.
  exact (to_sql_same env c _ _ Ha _ _ _ _ Hs Hs').
Qed.

Lemma same_nested env nested nested' ns ns' :
  Forall (λ w, ∀ w' r r', alike_clause w w' → to_sql env w = Ok r → to_sql env w' = Ok r' →
    same_rendering r r') nested →
  Forall2 alike_clause nested nested' →
  Forall2 (λ w q, to_sql env w = Ok q) nested ns →
  Forall2 (λ w q, to_sql env w = Ok q) nested' ns' →
  Forall2 same_part (flat_map (wrap "(") ns) (flat_map (wrap "(") ns').
Proof.
  intros HI H. revert ns ns'. induction H as [|w w' l l' Hw _ IH]; intros ns ns' H1 H2;
    inversion H1 as [|? q ? ? Hq H1']; inversion H2 as [|? q' ? ? Hq' H2']; subst; [constructor|].
  inversion_clear HI as [|? ? Hi HI']. cbn. apply Forall2_app; [|by apply IH].
  apply same_wrap. by eapply Hi.
Qed.

Lemma clause_same env w w' r r' :
  alike_clause w w' → to_sql env w = Ok r → to_sql env w' = Ok r' → same_rendering r r'.
Proof.
  revert w' r r'. induction w as [conditions op nested not IHn IHo] using where_ind'.
  intros w' r r' Ha. inversion Ha as [? conditions' ? ? nested' ? not' Hc Hn Ho]; subst.
  intros (cs & ns & n & Hcs & Hns & Hnot & ->)%to_sql_inv
    (cs' & ns' & n' & Hcs' & Hns' & Hnot' & ->)%to_sql_inv.
  apply same_combine, Forall2_app; [by eapply same_conditions|].
  apply Forall2_app; [by eapply same_nested|].
  destruct Ho as [c c' Hcc|]; [|by subst].
  destruct Hnot as (q & Hq & ->), Hnot' as (q' & Hq' & ->).
  apply same_wrap. by eapply IHo.
Qed.

Lemma to_sql_returns env w :
  each (λ c, is_Ok (FieldCondition.to_sql env c)) w → ∃ r, to_sql env w = Ok r.
Proof.
  induction w as [conditions op nested not IHn IHo] using where_ind'.
  inversion_clear 1 as [? ? ? ? Hc Hn Ho]. cbn.
  destruct (mapR_total _ _ Hc) as [cs ->]. cbn [mbind result_bind].
  destruct (mapR_total (to_sql env) nested) as [ns ->].
  { clear -IHn Hn. induction Hn as [|w l Hw _ IH]; [constructor|].
    inversion_clear IHn as [|? ? Hi IHn']. constructor; [by apply Hi|by apply IH]. }
  cbn. destruct not as [c|]; cbn; [|eauto].
  destruct (IHo c eq_refl (Ho c eq_refl)) as [q ->]. cbn. eauto.
Qed.

(** The parameters of the parts, one part after the other. *)
Lemma combine_params op parts : (combine op parts).2 = concat parts.*2.
Proof. destruct parts as [|[s ps] [|p parts]]; cbn; [done| |done]. by rewrite app_nil_r. Qed.

Lemma wrap_params pre r : (r.1 = None → r.2 = []) → concat (wrap pre r).*2 = r.2.
Proof. destruct r as [[s|] ps]; cbn; [by rewrite app_nil_r|]. intros ->; done. Qed.

Lemma combine_none op parts : (combine op parts).1 = None → (combine op parts).2 = [].
Proof. by destruct parts as [|[s ps] [|p parts]]. Qed.

Lemma to_sql_none env w r : to_sql env w = Ok r → r.1 = None → r.2 = [].
Proof.
  destruct w as [conditions op nested not].
  intros (cs & ns & n & _ & _ & _ & ->)%to_sql_inv. apply combine_none.
Qed.

Lemma params_in_order env w r :
  to_sql env w = Ok r → r.2 = flat_map (condition_params env) (all_conditions w).
Proof.
  revert r. induction w as [conditions op nested not IHn IHo] using where_ind'.
  intros r (cs & ns & n & Hcs & Hns & Hn & ->)%to_sql_inv.
  rewrite combine_params, !fmap_app, !concat_app. cbn. rewrite !flat_map_app. f_equal; [|f_equal].
  - clear -Hcs. induction Hcs as [|c [s ps] l cs Hc _ IH]; [done|]. cbn.
    unfold condition_params at 1. rewrite Hc. f_equal. exact IH.
  - clear -Hns IHn. induction Hns as [|w q l ns Hq _ IH]; [done|].
    inversion_clear IHn as [|? ? Hw IHn']. cbn. rewrite fmap_app, concat_app, flat_map_app.
    f_equal; [|by apply IH]. rewrite <- (Hw _ Hq). apply wrap_params. by eapply to_sql_none.
  - destruct not as [c|]; [|by subst]. destruct Hn as (q & Hq & ->).
    rewrite <- (IHo c eq_refl _ Hq). apply wrap_params. by eapply to_sql_none.
Qed.

(** The identifiers of a rendered clause. *)
Lemma to_sql_names env w sql ps :
  valid w → to_sql env w = Ok (Some sql, ps) →
  identifiers sql ⊆ flat_map (schema_names env) (all_conditions w).
Proof.
  intros Hv Hw. set (names := flat_map (schema_names env) (all_conditions w)).
  assert (Forall (λ c, schema_names env c ⊆ names) (all_conditions w)) as He%each_all.
  { apply Forall_forall. intros c Hc x Hx. apply list_elem_of_In, in_flat_map.
    exists c. by rewrite <- !list_elem_of_In. }
  refine (to_sql_good (λ p, identifiers p.1 ⊆ names) _ _ env _ _ w _ Hv He Hw sql _);
    [| | |done]; cbn.
  - intros pre s l _ Hs. by rewrite app_nil_r.
  - intros op parts _ Hall. apply flat_map_incl. by apply Forall_map.
  - intros c [s l] Hc Hs. etrans; [|exact Hc]. by eapply to_sql_named.
Qed.

(** ** Theorems *)

(** C1. Refinement of the tree by its SQL text: for a clause that passed its
    checks, the text [to_sql] renders, read with PostgreSQL's precedence (OR below
    AND below NOT and parentheses), is exactly the tree: each condition one
    operand, each nested clause grouped on its own, the negation around the
    negated clause alone. *)
Theorem to_sql_reading `{Psycopg} env w r :
  valid w → to_sql env w = Ok r →
  ∃ sql ps, r = (Some sql, ps) ∧ reading (tokens sql) = meaning env w.
Proof.
  intros Hv Hw. destruct (meaning_reading _ _ _ Hv Hw) as (sql & E & _ & Hr).
  destruct r as [o ps]. cbn in E. subst. eauto.
Qed.

(** The parameters fit the text: [to_sql] of a clause gives one parameter for
    each mark of its SQL, whatever the values, as long as a comparison that casts
    is not given a list. *)
Theorem to_sql_params_fit env w sql ps :
  valid w → Forall one_value (all_conditions w) → to_sql env w = Ok (Some sql, ps) →
  placeholders sql = length ps.
Proof.
  intros Hv Hone%each_all Hw.
  refine (to_sql_good (λ p, placeholders p.1 = length p.2) _ _ env one_value _ w _ Hv Hone Hw sql _);
    [| | |done]; cbn.
  - intros pre s l [-> | ->] Hs; cbn; rewrite Hs; cbn; lia.
  - intros op parts Hop Hall.
    assert (text_params (" " +:+ op +:+ " ")%stdpp = 0) as -> by (by destruct Hop as [-> | ->]).
    rewrite Nat.mul_0_l. induction Hall as [|[s l] parts Hp _ IH]; [done|]. cbn in *.
    by rewrite Hp, IH, length_app.
  - intros c [s l] Hc Hs. by eapply to_sql_counted.
Qed.

(** No value reaches the SQL text: two trees that differ in their values alone
    (values of the same shape) are rendered with the same SQL texts, so a text a
    user sends is never part of the SQL. *)
Theorem to_sql_value_independent env w w' s ps s' ps' :
  alike_clause w w' → to_sql env w = Ok (Some s, ps) → to_sql env w' = Ok (Some s', ps') →
  raw_texts s = raw_texts s'.
Proof.
  intros Ha Hw Hw'. pose proof (clause_same _ _ _ _ _ Ha Hw Hw') as H. by inversion H.
Qed.

(** Every identifier the SQL quotes is a column of one of the conditions, the
    configured entity schema or the table of an entity the condition's column
    refers to; none comes from a value. *)
Theorem to_sql_identifiers env w sql ps :
  valid w → to_sql env w = Ok (Some sql, ps) →
  identifiers sql ⊆ flat_map (schema_names env) (all_conditions w).
Proof. apply to_sql_names. Qed.

(** A clause that passed its checks always has SQL: when its conditions
    render, so does the clause, and never to the empty rendering. *)
Theorem to_sql_total env w :
  valid w → Forall (λ c, is_Ok (FieldCondition.to_sql env c)) (all_conditions w) →
  ∃ sql ps, to_sql env w = Ok (Some sql, ps).
Proof.
  intros Hv He%each_all. destruct (to_sql_returns env w He) as [[o ps] Hr].
  destruct (meaning_reading (H := psycopg_ref) _ _ _ Hv Hr) as (sql & E & _). cbn in E.
  subst. eauto.
Qed.

(** The parameters are those of the conditions, in the order the conditions
    stand in the tree: conditions, nested clauses, negated clause. *)
Theorem to_sql_params_order env w o ps :
  to_sql env w = Ok (o, ps) → ps = flat_map (condition_params env) (all_conditions w).
Proof. intros H. by apply (params_in_order env w (o, ps)). Qed.

(** ** A concrete tree *)

Definition example_env : app_env :=
  {| default_entity_schema := Some "tenant"; config_distance_method := None;
     environ_distance_method := None |}.

Definition on_column (column op : string) (v : pyval) : field_condition :=
  {| field_path := [column]; operator := op; value := v; lookup_strategy := "sql_column";
     target_column := column; jsonb_path := None; temporal_cast := None |}.

Definition on_path (path : list string) (op : string) (v : pyval) : field_condition :=
  {| field_path := path; operator := op; value := v; lookup_strategy := "jsonb_path";
     target_column := "data"; jsonb_path := Some path; temporal_cast := None |}.

(** status = s AND (device name LIKE n OR size IN (1, 2)) AND NOT (ip private OR below a location) *)
Definition example_clause (s n : pyval) : where_clause :=
  Clause [on_column "status" "eq" s] "AND"
    [Clause [on_path ["device"; "name"] "contains" n;
             on_path ["size"] "in" (PList [PInt 1; PInt 2])] "OR" [] None]
    (Some (Clause [on_column "ip" "isPrivate" (PBool true);
                   on_column "location_id" "descendant_of_id" (PUUID "u")] "OR" [] None)).

Definition example_rendering : option composable * list pyval :=
  Eval vm_compute in
    match to_sql example_env (example_clause (PStr "active") (PStr "Printer")) with
    | Ok r => r
    | Err _ => (None, [])
    end.

(** A clause is valid when all its checks pass. *)
Ltac check_valid :=
  repeat first
    [ intros ? [= <-] | discriminate | apply Forall_nil_2 | apply Forall_cons_2
    | constructor; [reflexivity|..] ].

Lemma to_sql_reading_witness :
  ∃ sql ps, example_rendering = (Some sql, ps)
    ∧ reading (@tokens psycopg_ref sql)
      = @meaning psycopg_ref example_env (example_clause (PStr "active") (PStr "Printer")).
Proof.
  apply (@to_sql_reading psycopg_ref).
  - check_valid.
  - vm_compute. reflexivity.
Defined.

Lemma to_sql_params_fit_witness :
  ∃ sql ps, to_sql example_env (example_clause (PStr "active") (PStr "Printer"))
            = Ok (Some sql, ps) ∧ placeholders sql = length ps ∧ length ps = 4.
Proof.
  eexists _, _. split; [reflexivity|]. split; [|reflexivity].
  apply (to_sql_params_fit example_env (example_clause (PStr "active") (PStr "Printer"))).
  - check_valid.
  - repeat (apply Forall_cons_2; [intros _ Hc; try (exfalso; apply Hc; reflexivity); reflexivity|]).
    apply Forall_nil_2.
  - reflexivity.
Defined.

Lemma to_sql_value_independent_witness :
  ∃ s ps s' ps', to_sql example_env (example_clause (PStr "active") (PStr "Printer")) = Ok (Some s, ps)
    ∧ to_sql example_env (example_clause (PStr "' OR 1=1 --") (PStr "%"))
      = Ok (Some s', ps') ∧ raw_texts s = raw_texts s'.
Proof.
  eexists _, _, _, _. split; [reflexivity|]. split; [reflexivity|].
  apply (to_sql_value_independent example_env
           (example_clause (PStr "active") (PStr "Printer"))
           (example_clause (PStr "' OR 1=1 --") (PStr "%")) _ [PStr "active"; PStr "%Printer%"; PInt 1; PInt 2] _
           [PStr "' OR 1=1 --"; PStr "%%%"; PInt 1; PInt 2]); [|reflexivity|reflexivity].
  repeat constructor.
Defined.

Lemma to_sql_identifiers_witness :
  ∃ sql ps, to_sql example_env (example_clause (PStr "active") (PStr "Printer"))
            = Ok (Some sql, ps)
    ∧ identifiers sql ⊆ flat_map (schema_names example_env)
        (all_conditions (example_clause (PStr "active") (PStr "Printer")))
    ∧ "tb_location" ∈ identifiers sql.
Proof.
  eexists _, _. split; [reflexivity|]. split.
  - apply (to_sql_identifiers example_env (example_clause (PStr "active") (PStr "Printer")) _
             [PStr "active"; PStr "%Printer%"; PInt 1; PInt 2]); [check_valid|reflexivity].
  - apply (bool_decide_unpack _). vm_compute. exact I.
Defined.

Lemma to_sql_total_witness :
  ∃ sql ps, to_sql example_env (example_clause PNone (PInt 3)) = Ok (Some sql, ps).
Proof.
  apply to_sql_total; [check_valid|].
  repeat (apply Forall_cons_2; [eexists; reflexivity|]). apply Forall_nil_2.
Defined.

Lemma to_sql_params_order_witness :
  [PStr "active"; PStr "%Printer%"; PInt 1; PInt 2]
  = flat_map (condition_params example_env)
      (all_conditions (example_clause (PStr "active") (PStr "Printer"))).
Proof. apply (to_sql_params_order example_env _ example_rendering.1). reflexivity. Defined.
