(* ===== verification/Casing.v ===== *)
(** * Snake case and camel case ([utils/casing.py])

    The two regular expressions of [to_snake_case] are written as the scans the
    [re] module makes: left to right, matches not overlapping. *)
From stdpp Require Import base decidable strings list.
From Stdlib Require Import ZArith Lia Ascii.
From S2P Require Import Prelude PyVal.

Definition underscore : ascii := "_"%char.
Definition newline : ascii := "010"%char.

(** [re.sub("(.)([A-Z][a-z]+)", r"\1_\2", s)]; [run] while inside a match, on its
    trailing lower-case letters. *)
Fixpoint sub_word (run : bool) (s : string) : string :=
  match s with
  | EmptyString => EmptyString
  | String c s' =>
      if run && Str.is_lower c then String c (sub_word true s')
      else match s' with
           | String u ((String l _) as s'') =>
               if negb (Ascii.eqb c newline) && Str.is_upper u && Str.is_lower l then
                 String c (String underscore (String u (sub_word true s'')))
               else String c (sub_word false s')
           | _ => String c (sub_word false s')
           end
  end.

Definition lower_or_digit (c : ascii) : bool := Str.is_lower c || Str.is_digit c.

(** [re.sub("([a-z0-9])([A-Z])", r"\1_\2", s)] *)
Fixpoint sub_boundary (s : string) : string :=
  match s with
  | EmptyString => EmptyString
  | String c s' =>
      match s' with
      | String u s'' =>
          if lower_or_digit c && Str.is_upper u then
            String c (String underscore (String u (sub_boundary s'')))
          else String c (sub_boundary s')
      | EmptyString => String c EmptyString
      end
  end.

Definition to_snake_case (s : string) : string := Str.lower (sub_boundary (sub_word false s)).

(** [word.capitalize()] *)
Definition capitalize (s : string) : string :=
  match s with
  | EmptyString => EmptyString
  | String c s' => String (Str.upper_ascii c) (Str.lower s')
  end.

Definition to_camel_case (s : string) : string :=
  match Str.split underscore s with
  | [] => EmptyString
  | part :: parts => (part +:+ Str.join EmptyString (map capitalize parts))%stdpp
  end.

(** [{f(k): v for k, v in items}]: a later item replaces the value of an equal key. *)
Definition dict_of {V} (items : list (string * V)) : list (string * V) :=
  foldl (λ d kv, dict_set kv.1 kv.2 d) [] items.

Fixpoint transform_keys_to_camel_case (data : pyval) : pyval :=
  match data with
  | PDict d =>
      PDict (dict_of (map (λ kv, (to_camel_case kv.1, transform_keys_to_camel_case kv.2)) d))
  | PList l => PList (map transform_keys_to_camel_case l)
  | _ => data
  end.

Fixpoint dict_keys_to_snake_case (data : pyval) : pyval :=
  match data with
  | PDict d => PDict (dict_of (map (λ kv, (to_snake_case kv.1, dict_keys_to_snake_case kv.2)) d))
  | PList l => PList (map dict_keys_to_snake_case l)
  | _ => data
  end.

Example snake_examples :
  map to_snake_case ["createdAt"; "APIKey"; "userIdNum"; "descendantOfId"; "isIPv4"; "a1B"]
  = ["created_at"; "api_key"; "user_id_num"; "descendant_of_id"; "is_i_pv4"; "a1_b"].
Proof. vm_compute. reflexivity. Qed.

Example camel_examples :
  map to_camel_case ["created_at"; "_id"; "a__b"; "http_URL"] = ["createdAt"; "Id"; "aB"; "httpUrl"].
Proof. vm_compute. reflexivity. Qed.

(** ** Characters *)

(** A fact about one character, checked on all of them. *)
Ltac each_char c := destruct c as [[] [] [] [] [] [] [] []]; vm_compute; try done.

Lemma upper_not_lod c : Str.is_upper c = true → lower_or_digit c = false.
Proof. each_char c. Qed.
Lemma lod_not_upper c : lower_or_digit c = true → Str.is_upper c = false.
Proof. each_char c. Qed.
Lemma lod_lower c : lower_or_digit c = true → Str.lower_ascii c = c.
Proof. each_char c. Qed.
Lemma lower_lod c : Str.is_lower c = true → lower_or_digit c = true.
Proof. each_char c. Qed.
Lemma lower_upper_back c : Str.is_lower c = true → Str.lower_ascii (Str.upper_ascii c) = c.
Proof. each_char c. Qed.
Lemma upper_ascii_upper c : Str.is_lower c = true → Str.is_upper (Str.upper_ascii c) = true.
Proof. each_char c. Qed.
Lemma upper_not_lower c : Str.is_upper c = true → Str.is_lower c = false.
Proof. each_char c. Qed.
Lemma lod_not_newline c : lower_or_digit c = true → Ascii.eqb c newline = false.
Proof. each_char c. Qed.
Lemma lower_ascii_not_upper c : Str.is_upper (Str.lower_ascii c) = false.
Proof. each_char c. Qed.
Lemma not_upper_lower_ascii c : Str.is_upper c = false → Str.lower_ascii c = c.
Proof. each_char c. Qed.
Lemma lod_not_underscore c : lower_or_digit c = true → Ascii.eqb c underscore = false.
Proof. each_char c. Qed.

(** ** A text without capitals is already in snake case *)

Definition no_upper (s : string) : bool := Str.forallb (λ c, negb (Str.is_upper c)) s.

Lemma lower_no_upper s : no_upper (Str.lower s) = true.
Proof.
  induction s as [|c s IH]; [done|]. cbn. rewrite lower_ascii_not_upper. exact IH.
Qed.

Lemma no_upper_lower s : no_upper s = true → Str.lower s = s.
Proof.
  induction s as [|c s IH]; [done|]. cbn. intros [Hc Hs]%andb_true_iff.
  rewrite not_upper_lower_ascii by (by apply negb_true_iff). f_equal. by apply IH.
Qed.

Lemma no_upper_sub_word run s : no_upper s = true → sub_word run s = s.
Proof.
  revert run. induction s as [|c s IH]; intros run; [done|]. intros [Hc Hs]%andb_true_iff.
  cbn [sub_word]. destruct (run && Str.is_lower c); [by rewrite IH|].
  destruct s as [|u [|l s]]; try by rewrite IH.
  apply andb_true_iff in Hs as Hu. destruct Hu as [Hu%negb_true_iff _].
  rewrite Hu, andb_false_r. cbn [andb]. by rewrite IH.
Qed.

Lemma no_upper_sub_boundary s : no_upper s = true → sub_boundary s = s.
Proof.
  induction s as [|c s IH]; [done|]. intros [Hc Hs]%andb_true_iff. cbn [sub_boundary].
  destruct s as [|u s]; [done|]. apply andb_true_iff in Hs as Hu.
  destruct Hu as [Hu%negb_true_iff _]. rewrite Hu, andb_false_r. by rewrite IH.
Qed.

Lemma snake_fixed s : no_upper s = true → to_snake_case s = s.
Proof.
  intros H. unfold to_snake_case.
  by rewrite no_upper_sub_word, no_upper_sub_boundary, no_upper_lower.
Qed.

(** ** Capitals that stand alone *)

(** An underscore before each capital that follows a small letter or a digit. *)
Fixpoint split_words (s : string) : string :=
  match s with
  | EmptyString => EmptyString
  | String c s' =>
      match s' with
      | String u _ =>
          if lower_or_digit c && Str.is_upper u then String c (String underscore (split_words s'))
          else String c (split_words s')
      | EmptyString => String c EmptyString
      end
  end.

(** Letters and digits, no two capitals side by side. *)
Fixpoint separate (s : string) : bool :=
  match s with
  | EmptyString => true
  | String c s' =>
      (lower_or_digit c || Str.is_upper c)
      && match s' with String u _ => negb (Str.is_upper c && Str.is_upper u) | _ => true end
      && separate s'
  end.

Lemma sub_boundary_upper u s :
  Str.is_upper u = true → sub_boundary (String u s) = String u (sub_boundary s).
Proof. intros H%upper_not_lod. cbn. rewrite H. by destruct s. Qed.

Lemma split_words_upper u s :
  Str.is_upper u = true → split_words (String u s) = String u (split_words s).
Proof. intros H%upper_not_lod. cbn. rewrite H. by destruct s. Qed.

Lemma sub_boundary_cons c u t :
  sub_boundary (String c (String u t))
  = if lower_or_digit c && Str.is_upper u
    then String c (String underscore (String u (sub_boundary t)))
    else String c (sub_boundary (String u t)).
Proof. reflexivity. Qed.

Lemma split_words_cons c u t :
  split_words (String c (String u t))
  = if lower_or_digit c && Str.is_upper u
    then String c (String underscore (split_words (String u t)))
    else String c (split_words (String u t)).
Proof. reflexivity. Qed.

(** [sub_word] keeps the first character. *)
Lemma sub_word_head run c s : ∃ t, sub_word run (String c s) = String c t.
Proof. cbn. repeat case_match; eauto. Qed.

(** One step of the second scan, over a character the first scan passed. *)
Lemma sub_boundary_step run c s :
  sub_boundary (sub_word run s) = split_words s →
  sub_boundary (String c (sub_word run s)) = split_words (String c s).
Proof.
  destruct s as [|u s]; [done|]. destruct (sub_word_head run u s) as [t Ht]. rewrite Ht.
  intros H. cbn [sub_boundary]. cbn [split_words]. cbn [split_words] in H. rewrite <- H.
  destruct (lower_or_digit c && Str.is_upper u) eqn:E; [|done].
  apply andb_true_iff in E as [_ E]. by rewrite sub_boundary_upper.
Qed.

Lemma scans_split run s : separate s = true → sub_boundary (sub_word run s) = split_words s.
Proof.
  remember (String.length s) as n eqn:Hn. revert run s Hn.
  induction n as [n IH] using lt_wf_ind; intros run s -> Hs. destruct s as [|c s]; [done|].
  cbn [separate] in Hs. apply andb_true_iff in Hs as [Hc Hs]. apply andb_true_iff in Hc as [Hc Hcu].
  assert (∀ run, sub_boundary (sub_word run s) = split_words s) as IHs
    by (intros run'; apply (IH (String.length s)); [cbn; lia|done..]).
  cbn [sub_word]. destruct (run && Str.is_lower c); [by apply sub_boundary_step|].
  destruct s as [|u [|l s]]; try by apply sub_boundary_step.
  destruct (negb (Ascii.eqb c newline) && Str.is_upper u && Str.is_lower l) eqn:E;
    [|by apply sub_boundary_step].
  apply andb_true_iff in E as [[_ Hu]%andb_true_iff Hl].
  rewrite Hu, andb_true_r in Hcu. apply negb_true_iff in Hcu. rewrite Hcu, orb_false_r in Hc.
  rewrite sub_boundary_cons, (sub_boundary_cons underscore), split_words_cons, Hc, Hu.
  rewrite andb_false_r. cbn [andb]. do 2 f_equal.
  rewrite sub_boundary_upper, split_words_upper by done. f_equal.
  apply (IH (String.length (String l s))); [cbn; lia|done|].
  cbn [separate] in Hs. by apply andb_true_iff in Hs as [_ Hs].
Qed.

(** ** Canonical snake case names *)

(** A first word of small letters and digits, then words that start with a small
    letter and have two characters or more: [user_id], not [line_1] or [a_b_c]. *)
Definition first_word (w : string) : bool := Str.nonempty w && Str.forallb lower_or_digit w.

Definition next_word (w : string) : bool :=
  match w with
  | String c ((String _ _) as w') => Str.is_lower c && Str.forallb lower_or_digit w'
  | _ => false
  end.

Definition canonical_name (s : string) : bool :=
  match Str.split underscore s with
  | w :: ws => first_word w && forallb next_word ws
  | [] => false
  end.

Lemma forallb_lower w : Str.forallb lower_or_digit w = true → Str.lower w = w.
Proof.
  induction w as [|c w IH]; [done|]. cbn. intros [Hc Hw]%andb_true_iff.
  rewrite lod_lower by done. f_equal. by apply IH.
Qed.

Lemma lower_app a b : Str.lower (a +:+ b)%stdpp = (Str.lower a +:+ Str.lower b)%stdpp.
Proof.
  induction a as [|c a IH]; [done|].
  change (String (Str.lower_ascii c) (Str.lower (a +:+ b)%stdpp)
          = String (Str.lower_ascii c) (Str.lower a +:+ Str.lower b)%stdpp). by rewrite IH.
Qed.

Lemma capitalize_next w :
  next_word w = true →
  ∃ u w', capitalize w = String u w' ∧ Str.is_upper u = true ∧ first_word w' = true
          ∧ Str.lower (String u w') = w.
Proof.
  destruct w as [|c [|d w]]; try done. intros [Hc Hw]%andb_true_iff.
  exists (Str.upper_ascii c), (String d w). split_and!.
  - cbn [capitalize]. by rewrite forallb_lower.
  - by apply upper_ascii_upper.
  - exact Hw.
  - change (String (Str.lower_ascii (Str.upper_ascii c)) (Str.lower (String d w)) = String c (String d w)).
    by rewrite lower_upper_back, forallb_lower.
Qed.

(** The text of the words after the first, in camel case. *)
Definition capitals (ws : list string) : string := Str.join EmptyString (map capitalize ws).

Lemma capitals_cons w ws : capitals (w :: ws) = (capitalize w +:+ capitals ws)%stdpp.
Proof.
  unfold capitals. destruct ws as [|w' ws]; [|done]. cbn.
  induction (capitalize w) as [|c t IH]; [done|].
  change (String c t = String c (t +:+ EmptyString)%stdpp). by rewrite <- IH.
Qed.

(** A text that does not start with a small letter or a digit. *)
Definition starts_upper (t : string) : bool :=
  match t with String u _ => Str.is_upper u | EmptyString => true end.

Lemma separate_word w t :
  Str.forallb lower_or_digit w = true → separate t = true → separate (w +:+ t)%stdpp = true.
Proof.
  intros Hw Ht. induction w as [|c w IH]; [done|]. cbn in Hw. apply andb_true_iff in Hw as [Hc Hw].
  change (separate (String c (w +:+ t)%stdpp) = true). cbn [separate].
  rewrite Hc, (lod_not_upper _ Hc), (IH Hw). cbn. by destruct (w +:+ t)%stdpp.
Qed.

Definition after_word (t : string) : string :=
  match t with EmptyString => EmptyString | _ => String underscore (split_words t) end.

(** An underscore is put between a word and the capital after it. *)
Lemma split_words_word w t :
  first_word w = true → starts_upper t = true →
  split_words (w +:+ t)%stdpp
  = (w +:+ after_word t)%stdpp.
Proof.
  unfold first_word. induction w as [|c w IH]; [done|]. cbn [Str.nonempty andb Str.forallb].
  intros [Hc Hw]%andb_true_iff Ht.
  change (String c w +:+ t)%stdpp with (String c (w +:+ t)%stdpp).
  destruct w as [|d w].
  - change (EmptyString +:+ t)%stdpp with t. destruct t as [|u t]; [done|].
    cbn in Ht. rewrite split_words_cons, Hc, Ht. done.
  - cbn in Hw. apply andb_true_iff in Hw as Hd. destruct Hd as [Hd _].
    change (String d w +:+ t)%stdpp with (String d (w +:+ t)%stdpp).
    rewrite split_words_cons, (lod_not_upper _ Hd), andb_false_r.
    change (String d (w +:+ t)%stdpp) with (String d w +:+ t)%stdpp.
    rewrite IH by done. done.
Qed.

Lemma capitals_good ws :
  forallb next_word ws = true → separate (capitals ws) = true ∧ starts_upper (capitals ws) = true.
Proof.
  induction ws as [|w ws IH]; [done|]. cbn [forallb].
  intros [Hw [IH1 IH2]%IH]%andb_true_iff. rewrite capitals_cons.
  destruct (capitalize_next w Hw) as (u & w' & -> & Hu & [Hne Hw']%andb_true_iff & _).
  change (String u w' +:+ capitals ws)%stdpp with (String u (w' +:+ capitals ws)%stdpp).
  split; [|done]. cbn [separate]. rewrite Hu, orb_true_r, (separate_word _ _ Hw' IH1), !andb_true_r.
  destruct w' as [|d w']; [done|].
  change (String d w' +:+ capitals ws)%stdpp with (String d (w' +:+ capitals ws)%stdpp).
  cbn in Hw'. apply andb_true_iff in Hw' as [Hd _]. by rewrite (lod_not_upper _ Hd).
Qed.

(** Each word after the first comes back with its underscore. *)
Lemma capitals_back ws :
  forallb next_word ws = true →
  Str.lower (after_word (capitals ws))
  = foldr (λ w t, String underscore (w +:+ t)%stdpp) EmptyString ws.
Proof.
  induction ws as [|w ws IH]; [done|]. cbn [forallb]. intros [Hw Hws]%andb_true_iff.
  rewrite capitals_cons.
  destruct (capitalize_next w Hw) as (u & w' & -> & Hu & Hw' & Hback).
  change (String u w' +:+ capitals ws)%stdpp with (String u (w' +:+ capitals ws)%stdpp).
  cbn [after_word]. rewrite split_words_upper, split_words_word by (done || by apply capitals_good).
  cbn [foldr]. rewrite <- (IH Hws), <- Hback.
  set (rest := after_word (capitals ws)).
  change (String underscore (String u (w' +:+ rest)%stdpp))
    with (String underscore (String u w' +:+ rest)%stdpp).
  change (Str.lower (String underscore ?t)) with (String underscore (Str.lower t)).
  by rewrite lower_app.
Qed.

Lemma join_words w ws :
  Str.join "_" (w :: ws)
  = (w +:+ foldr (λ w t, String underscore (w +:+ t)%stdpp) EmptyString ws)%stdpp.
Proof.
  revert w. induction ws as [|w' ws IH]; intros w.
  - cbn. induction w as [|c w IH]; [done|].
    change (String c w = String c (w +:+ EmptyString)%stdpp). by rewrite <- IH.
  - change (Str.join "_" (w :: w' :: ws)) with (w +:+ "_" +:+ Str.join "_" (w' :: ws))%stdpp.
    rewrite IH. done.
Qed.

Lemma split_cons c s : ∃ w ws, Str.split c s = w :: ws.
Proof. induction s as [|a s (w & ws & IH)]; cbn; [eauto|]. rewrite IH. case_match; eauto. Qed.

Lemma join_split s : Str.join "_" (Str.split underscore s) = s.
Proof.
  induction s as [|a s IH]; [done|]. cbn [Str.split].
  destruct (split_cons underscore s) as (w & ws & E). rewrite E in *.
  destruct (Ascii.eqb_spec a underscore) as [->|Ha].
  - rewrite join_words in *. cbn [foldr]. rewrite IH. done.
  - rewrite join_words in *. rewrite <- IH. done.
Qed.

Lemma camel_back s : canonical_name s = true → to_snake_case (to_camel_case s) = s.
Proof.
  unfold canonical_name, to_camel_case. intros H.
  destruct (Str.split underscore s) as [|w ws] eqn:E; [done|].
  apply andb_true_iff in H as [Hw Hws]. fold (capitals ws).
  destruct (capitals_good ws Hws) as [Hsep Hup]. unfold to_snake_case.
  apply andb_true_iff in Hw as Hw'. destruct Hw' as [_ Hlod].
  rewrite scans_split by (by apply separate_word).
  rewrite split_words_word, lower_app, (forallb_lower w) by done.
  rewrite capitals_back, <- join_words, <- E by done. apply join_split.
Qed.

(** Dictionaries all of whose keys are distinct canonical names, at every level. *)
Fixpoint canonical_keys (v : pyval) : bool :=
  match v with
  | PDict d =>
      bool_decide (NoDup d.*1) && forallb (λ kv, canonical_name kv.1 && canonical_keys kv.2) d
  | PList l => forallb canonical_keys l
  | _ => true
  end.

Lemma dict_of_id {V} (d : list (string * V)) : NoDup d.*1 → dict_of d = d.
Proof. apply (dict_set_all []). Qed.

Lemma camel_keys_distinct (l : list string) :
  NoDup l → forallb canonical_name l = true → NoDup (map to_camel_case l).
Proof.
  induction 1 as [|k l Hk _ IH]; cbn; [constructor|]. intros [Hc Hl]%andb_true_iff.
  constructor; [|by apply IH]. intros Hin%list_elem_of_In.
  apply in_map_iff in Hin as (k' & E & Hk'%list_elem_of_In). apply Hk.
  rewrite <- (camel_back k), <- E, camel_back; [done| |done].
  rewrite forallb_forall in Hl. apply Hl. by apply list_elem_of_In.
Qed.

Lemma keys_back v : canonical_keys v = true →
  dict_keys_to_snake_case (transform_keys_to_camel_case v) = v.
Proof.
  induction v as [| | | | | | | | |l IH| |d IH| |] using pyval_ind'; try done; cbn.
  - intros H. f_equal. induction IH as [|x l Hx _ IHl]; [done|]. cbn in *.
    apply andb_true_iff in H as [H1 H2]. by rewrite Hx, IHl.
  - intros [Hnd%bool_decide_eq_true Hc]%andb_true_iff.
    assert (forallb canonical_name d.*1 = true) as Hkeys.
    { clear -Hc. induction d as [|kv d IHd]; [done|]. cbn in *.
      apply andb_true_iff in Hc as [[-> _]%andb_true_iff Hc]. by apply IHd. }
    assert (NoDup (map (λ kv, (to_camel_case kv.1, transform_keys_to_camel_case kv.2)) d).*1) as Hnd'.
    { apply camel_keys_distinct in Hkeys; [|done]. revert Hkeys. clear.
      enough (map to_camel_case d.*1
        = (map (λ kv, (to_camel_case kv.1, transform_keys_to_camel_case kv.2)) d).*1) as -> by done.
      induction d as [|kv d IHd]; cbn; [done|]. by f_equal. }
    rewrite (dict_of_id _ Hnd').
    rewrite map_map. cbn [fst snd].
    assert (map (λ kv, (to_snake_case (to_camel_case kv.1),
              dict_keys_to_snake_case (transform_keys_to_camel_case kv.2))) d = d) as ->.
    { clear -IH Hc. induction IH as [|[k v] d Hv _ IHd]; [done|]. cbn in *.
      apply andb_true_iff in Hc as [[Hk Hvc]%andb_true_iff Hc]. by rewrite camel_back, Hv, IHd. }
    by rewrite dict_of_id.
Qed.

(** ** Theorems *)

(** Idempotence: a name converted to snake case once is left alone by a
    second conversion. *)
Theorem to_snake_case_idempotent s : to_snake_case (to_snake_case s) = to_snake_case s.
Proof. apply snake_fixed, lower_no_upper. Qed.

(** Round trip: a snake case name of a database column (words of small
    letters and digits, each after the first starting with a letter and of two
    characters or more) survives the conversion to camel case for GraphQL and
    back. *)
Theorem snake_camel_roundtrip s : canonical_name s = true → to_snake_case (to_camel_case s) = s.
Proof. apply camel_back. Qed.

Lemma snake_camel_roundtrip_witness :
  canonical_name "user_id2_created_at" = true
  ∧ to_snake_case (to_camel_case "user_id2_created_at") = "user_id2_created_at".
Proof. split; [reflexivity|]. apply snake_camel_roundtrip. reflexivity. Defined.

(** Deep round trip: data whose keys are canonical column names, sent out with
    camel case keys at every level, is the same data when its keys come back to
    snake case. *)
Theorem keys_roundtrip v :
  canonical_keys v = true → dict_keys_to_snake_case (transform_keys_to_camel_case v) = v.
Proof. apply keys_back. Qed.

Lemma keys_roundtrip_witness :
  let v := PDict [("user_name", PStr "x"); ("items", PList [PDict [("unit_price", PInt 3)]])] in
  transform_keys_to_camel_case v
  = PDict [("userName", PStr "x"); ("items", PList [PDict [("unitPrice", PInt 3)]])]
  ∧ dict_keys_to_snake_case (transform_keys_to_camel_case v) = v.
Proof. split; [reflexivity|]. apply keys_roundtrip. reflexivity. Defined.
