(* ===== verification/Views.v ===== *)
(** * Registered views ([register_type_for_view] and the metadata of [db.py])

    The two registries the filters are resolved against: the type of a view and
    its metadata (columns, JSONB column, foreign keys, column mappings). *)
From stdpp Require Import base decidable strings list.
From Stdlib Require Import ZArith Lia Ascii.
From S2P Require Import Prelude PyVal Casing.

Local Open Scope py_scope.

(** The [aggregation] dictionary of a view, entry by entry; an entry that is
    absent or empty is an empty list. *)
Record aggregation := {
  fine_grain_view : option string;
  time_grain_column : option string;
  time_grain_trunc : option string;
  dimensions_prefix : option string;
  skip_when : option (list string);
  measures : list (string * string);
  native_measures : list (string * string);
  native_dimension_mapping : list (string * string);
  native_dimensions : list string
}.

Record metadata := {
  columns : list string;
  has_jsonb_data : bool;
  jsonb_column : option string;
  fk_relationships : list (string * string);
  validate_fk_strict : bool;
  aggregation_of : option aggregation;
  column_mapping : list (string * string)
}.

(** [_type_registry] (the name of the class) and [_table_metadata]. *)
Record views := {
  type_registry : list (string * string);
  table_metadata : list (string * metadata)
}.

Definition _VALID_GRAIN_TRUNCS : list string :=
  ["day"; "week"; "half_month"; "month"; "quarter"; "semester"; "year"].

Definition _validate_grain_trunc (value : string) : result string :=
  if value in_ _VALID_GRAIN_TRUNCS then Ok value else Err ValueError.

(** [".".join(to_snake_case(segment) for segment in path.split("."))] *)
Definition snake_path (path : string) : string :=
  Str.join "." (map to_snake_case (Str.split "." path)).

Definition _normalize_mapping_keys (mapping : list (string * string)) : list (string * string) :=
  dict_of (map (λ kv, (snake_path kv.1, kv.2)) mapping).

Definition _normalize_aggregation_mapping_keys (a : aggregation) : aggregation :=
  {| fine_grain_view := fine_grain_view a; time_grain_column := time_grain_column a;
     time_grain_trunc := time_grain_trunc a;
     dimensions_prefix := dimensions_prefix a; skip_when := skip_when a;
     measures := _normalize_mapping_keys (measures a);
     native_measures := _normalize_mapping_keys (native_measures a);
     native_dimension_mapping := _normalize_mapping_keys (native_dimension_mapping a);
     native_dimensions := native_dimensions a |}.

(** Every declared column is a registered one; nothing to check without columns.
    In lenient mode a missing one is only logged. *)
Definition _validate_mapping_declarations (declarations : list string) (table_columns : list string)
    (strict : bool) : result unit :=
  match declarations, table_columns with
  | [], _ | _, [] => Ok tt
  | _, _ =>
      if forallb (λ column, column in_ table_columns) declarations then Ok tt
      else if strict then Err ValueError else Ok tt
  end.

Definition _validate_aggregation_mapping (a : aggregation) (table_columns : list string)
    (strict : bool) : result unit :=
  _validate_mapping_declarations
    ((native_dimension_mapping a).*2 ++ (native_measures a).*2 ++ native_dimensions a)
    table_columns strict.

Definition _validate_column_mapping (mapping : list (string * string))
    (table_columns : list string) (strict : bool) : result unit :=
  _validate_mapping_declarations mapping.*2 table_columns strict.

Definition _validate_fk_relationships (fks : list (string * string))
    (table_columns : list string) (strict : bool) : result unit :=
  if strict && negb (bool_decide (fks = [])) && negb (bool_decide (table_columns = []))
     && negb (forallb (λ kv, kv.2 in_ table_columns) fks)
  then Err ValueError else Ok tt.

(** [if cond: f()] *)
Definition when_some {A B} (o : option A) (f : A → result B) (default : B) : result B :=
  match o with Some a => f a | None => Ok default end.

(** The checks, and the metadata to store when there is any to store. *)
Definition view_metadata (table_columns : option (list string)) (has_jsonb : option bool)
    (jsonb : option string) (fks : list (string * string)) (strict : bool)
    (agg : option aggregation) (mapping : list (string * string)) : result (option metadata) :=
  when_some (agg ≫= time_grain_trunc) (λ t, _validate_grain_trunc t;; Ok tt) tt;;
  _validate_fk_relationships fks (default [] table_columns) strict;;
  agg' ← when_some agg
           (λ a, let a' := _normalize_aggregation_mapping_keys a in
                 _validate_aggregation_mapping a' (default [] table_columns) strict;; Ok (Some a'))
           None;
  let mapping' := _normalize_mapping_keys mapping in
  _validate_column_mapping mapping' (default [] table_columns) strict;;
  match table_columns, has_jsonb, jsonb, fks, agg', mapping' with
  | None, None, None, [], None, [] => Ok None
  | _, _, _, _, _, _ =>
      Ok (Some {| columns := default [] table_columns; has_jsonb_data := default false has_jsonb;
                  jsonb_column := jsonb; fk_relationships := fks; validate_fk_strict := strict;
                  aggregation_of := agg'; column_mapping := mapping' |})
  end.

(** The type is registered before the checks: it stays registered when they raise. *)
Definition register_type_for_view (st : views) (view_name type_class : string)
    (table_columns : option (list string)) (has_jsonb : option bool) (jsonb : option string)
    (fks : list (string * string)) (strict : bool) (agg : option aggregation)
    (mapping : list (string * string)) : views * result unit :=
  let st' := {| type_registry := dict_set view_name type_class (type_registry st);
                table_metadata := table_metadata st |} in
  match view_metadata table_columns has_jsonb jsonb fks strict agg mapping with
  | Err e => (st', Err e)
  | Ok None => (st', Ok tt)
  | Ok (Some m) =>
      ({| type_registry := type_registry st';
          table_metadata := dict_set view_name m (table_metadata st) |}, Ok tt)
  end.

(** The older mapping of the aggregation metadata, overridden by [column_mapping]. *)
Definition _view_column_mapping (st : views) (view_name : string) : list (string * string) :=
  match dict_get view_name (table_metadata st) with
  | None => []
  | Some m =>
      dict_of (match aggregation_of m with Some a => native_dimension_mapping a | None => [] end
                 ++ column_mapping m)
  end.

(** ** The invariant of strict registration *)

(** In strict mode, with columns registered, every declared foreign key and mapped
    column is one of them. *)
Definition declarations_ok (m : metadata) : Prop :=
  validate_fk_strict m = true → columns m ≠ [] →
  Forall (λ kv, kv.2 ∈ columns m) (fk_relationships m)
  ∧ Forall (λ kv, kv.2 ∈ columns m) (column_mapping m)
  ∧ match aggregation_of m with
    | Some a => Forall (λ kv, kv.2 ∈ columns m) (native_dimension_mapping a)
    | None => True
    end.

Definition views_ok (st : views) : Prop :=
  ∀ view m, dict_get view (table_metadata st) = Some m → declarations_ok m.

Lemma declarations_checked l cols r :
  _validate_mapping_declarations l cols true = Ok r → cols ≠ [] → Forall (λ c, c ∈ cols) l.
Proof.
  unfold _validate_mapping_declarations. destruct l as [|c l]; [constructor|].
  destruct cols as [|k cols]; [done|]. intros H _.
  destruct (forallb _ _) eqn:E; [|done]. rewrite forallb_forall in E.
  apply Forall_forall. intros x Hx%list_elem_of_In. by apply str_in_true, E.
Qed.

Lemma fks_checked fks cols r :
  _validate_fk_relationships fks cols true = Ok r → cols ≠ [] → Forall (λ kv, kv.2 ∈ cols) fks.
Proof.
  unfold _validate_fk_relationships. intros H Hc.
  destruct fks as [|kv fks]; [constructor|]. rewrite (bool_decide_eq_false_2 (cols = [])) in H by done.
  cbn [andb negb bool_decide] in H.
  destruct (forallb _ (kv :: fks)) eqn:E; [|done]. rewrite forallb_forall in E.
  apply Forall_forall. intros x Hx%list_elem_of_In. by apply str_in_true, E.
Qed.

Lemma view_metadata_ok cols jd jc fks strict agg mapping m :
  view_metadata cols jd jc fks strict agg mapping = Ok (Some m) → declarations_ok m.
Proof.
  unfold view_metadata. intros H.
  apply bind_Ok in H as (? & _ & H). apply bind_Ok in H as (? & Hfk & H).
  apply bind_Ok in H as (agg' & Hagg & H). apply bind_Ok in H as (? & Hmap & H).
  assert (m = {| columns := default [] cols; has_jsonb_data := default false jd;
                 jsonb_column := jc; fk_relationships := fks; validate_fk_strict := strict;
                 aggregation_of := agg'; column_mapping := _normalize_mapping_keys mapping |}) as ->
    by (repeat case_match; by simplify_eq).
  clear H. intros Hs Hc. cbn [validate_fk_strict] in Hs. subst strict.
  cbn [columns fk_relationships column_mapping aggregation_of] in *. split_and!.
  - by eapply fks_checked.
  - apply declarations_checked in Hmap; [|done]. by apply Forall_fmap in Hmap.
  - destruct agg as [a|]; cbn in Hagg; [|by injection Hagg as <-].
    apply bind_Ok in Hagg as (? & Ha & [= <-]). apply declarations_checked in Ha; [|done].
    apply Forall_app in Ha as [Ha _]. by apply Forall_fmap in Ha.
Qed.

(** The invariant is kept by every registration. *)
Lemma register_views_ok st view cls cols jd jc fks strict agg mapping :
  views_ok st →
  views_ok (register_type_for_view st view cls cols jd jc fks strict agg mapping).1.
Proof.
  intros Hst. unfold register_type_for_view.
  destruct (view_metadata _ _ _ _ _ _ _) as [[m|]|e] eqn:E; try exact Hst.
  intros v m' Hm. cbn in Hm. destruct (decide (view = v)) as [<-|Hne].
  - rewrite dict_get_set_eq in Hm. injection Hm as <-. by eapply view_metadata_ok.
  - rewrite dict_get_set_ne in Hm by done. by eapply Hst.
Qed.
