(* ===== verification/Normalize.v ===== *)
(** * From a filter dictionary to the tree ([where_normalization.py], [_normalize_where])

    [normalize_dict_where] resolves each field of the dictionary against the
    registered view; column mappings and declared types are applied to the
    finished tree.  [fuel] stands for Python's recursion limit: [RecursionError]
    when it runs out, which it does not on a dictionary smaller than it. *)
From stdpp Require Import base decidable strings list.
From Stdlib Require Import ZArith Lia Ascii.
From S2P Require Import Prelude PyVal Sql Shape OpBase FieldCondition WhereClause Casing Views.

Local Open Scope py_scope.

Definition _normalize_operator (op : string) : string :=
  if Str.has_char underscore op || dict_has op ALL_OPERATORS then op
  else
    let snake_op := to_snake_case op in
    if dict_has snake_op ALL_OPERATORS then snake_op else op.

(** What the walk reads of the registries: the metadata, and the field names the
    registered type of a view declares. *)
Record resolver := {
  metadata_of : string → option metadata;
  declared_fields : string → list string
}.

(** [table_columns] is [None], or the set of columns. *)
Definition known (table_columns : option (list string)) (column : string) : bool :=
  match table_columns with Some cols => column in_ cols | None => false end.

Definition _reject_operator_suffix_key (res : resolver) (key view_name : string)
    (table_columns : option (list string)) : result unit :=
  match Str.rpartition "__" key with
  | None => Ok tt
  | Some (field, operator) =>
      if negb (Str.nonempty field) || negb (dict_has operator ALL_OPERATORS) then Ok tt
      else if known table_columns key then Ok tt
      else if key in_ declared_fields res view_name then Ok tt
      else Err ValueError
  end.

Definition _is_flat_view (res : resolver) (view_name : string) (table_columns : list string) : bool :=
  match table_columns, metadata_of res view_name with
  | [], Some m => negb (has_jsonb_data m) && bool_decide (Views.jsonb_column m = None)
  | _, _ => false
  end.

(** ** Vector filters *)

(** [hasattr(value, k)] *)
Definition has_attr (k : string) (v : pyval) : bool :=
  match Py.attr k v with Some _ => true | None => false end.

(** The operand of one vector operator, and the threshold beside it. *)
Definition fold_vector_value (threshold value : pyval) : result pyval :=
  let value :=
    if has_attr "dense" value || has_attr "sparse" value then
      PDict [("dense", default PNone (Py.attr "dense" value));
             ("sparse", default PNone (Py.attr "sparse" value))]
    else value in
  let none := Py.is_none threshold in
  value ←
    match value with
    | PDict d =>
        if dict_has "dense" d || dict_has "sparse" d then
          match Py.get "dense" d with
          | PNone => Err ValueError
          | dense => if none then Err ValueError else Ok (PDict [("vector", dense)])
          end
        else Ok value
    | PStr _ => if none then Err ValueError else Ok (PDict [("vector", value)])
    | PList _ => Ok (if none then value else PDict [("vector", value)])
    | _ => Ok value
    end;
  match value with
  | PDict d =>
      if negb none && negb (dict_has "threshold" d) then
        Ok (PDict (dict_set "comparison" (PStr "lte") (dict_set "threshold" threshold d)))
      else Ok value
  | _ => Ok value
  end.

(** One item of the folded dictionary. *)
Definition fold_vector_item (field_filter : list (string * pyval)) (threshold : pyval)
    (folded : list (string * pyval)) (item : string * string) : result (list (string * pyval)) :=
  let '(operator, key) := item in
  let value := Py.get key field_filter in
  if operator =s "distance_within" then Ok folded
  else if negb (dict_has operator VECTOR_OPERATORS) || Py.is_none value then
    Ok (dict_set key value folded)
  else
    value' ← fold_vector_value threshold value;
    Ok (dict_set operator value' folded).

(** [for x in l: acc = f(acc, x)] when [f] can raise. *)
Fixpoint foldR {A B} (f : A → B → result A) (acc : A) (l : list B) : result A :=
  match l with
  | [] => Ok acc
  | x :: l' => acc' ← f acc x; foldR f acc' l'
  end.

Definition _fold_vector_filter (field_filter : list (string * pyval))
    : result (list (string * pyval)) :=
  let operators := dict_of (map (λ kv, (_normalize_operator kv.1, kv.1)) field_filter) in
  if negb (existsb (λ o, dict_has o VECTOR_OPERATORS) (dict_keys operators)) then Ok field_filter
  else
    let threshold :=
      Py.get (default "distance_within" (dict_get "distance_within" operators)) field_filter in
    foldR (fold_vector_item field_filter threshold) [] operators.

(** ** Nested objects *)

(** [isinstance(v, dict) and not any(k in ("OR", "AND", "NOT") for k in v)] *)
Definition plain_dict (v : pyval) : bool :=
  match v with
  | PDict d => negb (existsb (λ kv, kv.1 in_ ["OR"; "AND"; "NOT"]) d)
  | _ => false
  end.

Definition _is_nested_object_filter (res : resolver) (field_name : string)
    (field_filter : list (string * pyval)) (table_columns : option (list string))
    (view_name : string) : result (bool * bool) :=
  if existsb (λ kv, dict_has kv.1 VECTOR_OPERATORS
                    || dict_has (_normalize_operator kv.1) LTREE_INDEX_COMPARISONS
                    || (_normalize_operator kv.1 =s "distance_within")) field_filter
  then Ok (false, false)
  else if negb (existsb (λ kv, plain_dict kv.2) field_filter) then Ok (false, false)
  else
    let by_convention :=
      match dict_get "id" field_filter with
      | Some (PDict _) =>
          if known table_columns (field_name +:+ "_id")%stdpp then (true, true) else (true, false)
      | _ => (true, false)
      end in
    match metadata_of res view_name with
    | Some m =>
        match dict_get field_name (fk_relationships m) with
        | Some fk_column =>
            if known table_columns fk_column then Ok (true, true)
            else if validate_fk_strict m then Err RuntimeError
            else Ok by_convention
        | None => Ok by_convention
        end
    | None => Ok by_convention
    end.

(** ** The walk *)

(** [name if "_" in name else to_snake_case(name)] *)
Definition database_name (name : string) : string :=
  if Str.has_char underscore name then name else to_snake_case name.

(** A condition for each operator whose operand is not [None]. *)
Definition operator_conditions (mk : string → pyval → field_condition)
    (ops : list (string * pyval)) : result (list field_condition) :=
  mapR (λ kv, FieldCondition.__post_init__ (mk (_normalize_operator kv.1) kv.2))
    (List.filter (λ kv, negb (Py.is_none kv.2)) ops).

Definition fk_condition (field_name operator : string) (v : pyval) : field_condition :=
  {| field_path := [field_name; "id"]; operator := operator; value := v;
     lookup_strategy := "fk_column"; target_column := (field_name +:+ "_id")%stdpp;
     jsonb_path := None; temporal_cast := None |}.

Definition jsonb_condition (jsonb : string) (path : list string) (operator : string) (v : pyval)
    : field_condition :=
  {| field_path := path; operator := operator; value := v; lookup_strategy := "jsonb_path";
     target_column := jsonb; jsonb_path := Some path; temporal_cast := None |}.

Definition column_condition (field_name operator : string) (v : pyval) : field_condition :=
  {| field_path := [field_name]; operator := operator; value := v;
     lookup_strategy := "sql_column"; target_column := field_name;
     jsonb_path := None; temporal_cast := None |}.

(** What the loop of [normalize_dict_where] has collected. *)
Record collected := {
  conditions : list field_condition;
  nested_clauses : list where_clause;
  not_clause : option where_clause
}.

Definition add_conditions (acc : collected) (cs : list field_condition) : collected :=
  {| conditions := conditions acc ++ cs; nested_clauses := nested_clauses acc;
     not_clause := not_clause acc |}.

Definition add_nested (acc : collected) (ws : list where_clause) : collected :=
  {| conditions := conditions acc; nested_clauses := nested_clauses acc ++ ws;
     not_clause := not_clause acc |}.

(** [condition.field_path.insert(0, name)], and the JSONB path when there is one. *)
Definition prepend (name : string) (c : field_condition) : field_condition :=
  {| field_path := name :: field_path c; operator := operator c; value := value c;
     lookup_strategy := lookup_strategy c; target_column := target_column c;
     jsonb_path := match jsonb_path c with
                   | Some (k :: ks) => Some (name :: k :: ks)
                   | p => p
                   end;
     temporal_cast := temporal_cast c |}.

(** The parent prepended to the conditions of one clause, not of its sub-clauses. *)
Definition prepend_clause (name : string) (w : where_clause) : where_clause :=
  match w with Clause cs op nested not => Clause (map (prepend name) cs) op nested not end.

Section walk.
Context (res : resolver) (view_name jsonb : string) (table_columns : option (list string)).

(** The filters under a foreign key: [id] on the key column, the rest in JSONB. *)
Definition fk_field (field_name : string) (acc : collected) (item : string * pyval)
    : result collected :=
  let nested_field := database_name item.1 in
  match item.2 with
  | PDict ops =>
      cs ← operator_conditions
             (if nested_field =s "id" then fk_condition field_name
              else jsonb_condition jsonb [field_name; nested_field]) ops;
      Ok (add_conditions acc cs)
  | _ => Ok acc
  end.

(** The filters under a JSONB object, one level or more deep. *)
Definition jsonb_field (rec : pyval → result where_clause) (field_name : string)
    (acc : collected) (item : string * pyval) : result collected :=
  let nested_field := database_name item.1 in
  match item.2 with
  | PDict ops =>
      if existsb (λ kv, plain_dict kv.2) ops then
        w ← rec (PDict [(nested_field, item.2)]);
        match w with
        | Clause cs _ nested not =>
            Ok {| conditions := conditions acc ++ map (prepend field_name) cs;
                  nested_clauses := nested_clauses acc ++ map (prepend_clause field_name) nested;
                  not_clause :=
                    match not with
                    | Some n => Some (prepend_clause field_name n)
                    | None => not_clause acc
                    end |}
        end
      else
        cs ← operator_conditions (jsonb_condition jsonb [field_name; nested_field]) ops;
        Ok (add_conditions acc cs)
  | _ => Ok acc
  end.

(** Where a direct filter looks: the column, or the JSONB document. *)
Definition direct_lookup (field_name : string) : string :=
  match table_columns with
  | Some cols =>
      if negb (field_name in_ cols) && negb (_is_flat_view res view_name cols) then "jsonb_path"
      else "sql_column"
  | None =>
      match metadata_of res view_name with
      | Some m =>
          if has_jsonb_data m && negb (field_name =s "id") then "jsonb_path" else "sql_column"
      | None => "sql_column"
      end
  end.

Definition direct_field (field_name : string) (ops : list (string * pyval))
    : result (list field_condition) :=
  operator_conditions
    (λ operator v,
      if (direct_lookup field_name =s "jsonb_path") && negb (dict_has operator VECTOR_OPERATORS)
      then jsonb_condition jsonb [field_name] operator v
      else column_condition field_name operator v)
    ops.

(** A field that is no logical operator. *)
Definition field_step (rec : pyval → result where_clause) (acc : collected)
    (original_field_name : string) (field_value : pyval) : result collected :=
  _reject_operator_suffix_key res original_field_name view_name table_columns;;
  let field_name := database_name original_field_name in
  let filter := match field_value with PDict d => d | v => [("eq", v)] end in
  filter ← _fold_vector_filter filter;
  '(is_nested, use_fk) ← _is_nested_object_filter res field_name filter table_columns view_name;
  if is_nested && use_fk then foldR (fk_field field_name) acc filter
  else if is_nested then foldR (jsonb_field rec field_name) acc filter
  else cs ← direct_field field_name filter; Ok (add_conditions acc cs).

(** A clause of an AND list: flattened when it holds conditions alone. *)
Definition and_step (rec : pyval → result where_clause) (acc : collected) (and_dict : pyval)
    : result collected :=
  w ← rec and_dict;
  match w with
  | Clause cs _ [] None => Ok (add_conditions acc cs)
  | _ => Ok (add_nested acc [w])
  end.

Definition item_step (rec : pyval → result where_clause) (acc : collected)
    (item : string * pyval) : result collected :=
  let '(name, field_value) := item in
  if name =s "OR" then
    match field_value with
    | PList l =>
        or_clauses ← mapR rec l;
        match or_clauses with
        | [] => Ok acc
        | _ => w ← WhereClause.__post_init__ (Clause [] "OR" or_clauses None);
               Ok (add_nested acc [w])
        end
    | _ => Ok acc
    end
  else if name =s "AND" then
    match field_value with
    | PList l => foldR (and_step rec) acc l
    | _ => Ok acc
    end
  else if name =s "NOT" then
    match field_value with
    | PDict _ =>
        w ← rec field_value;
        Ok {| conditions := conditions acc; nested_clauses := nested_clauses acc;
              not_clause := Some w |}
    | _ => Ok acc
    end
  else field_step rec acc name field_value.
End walk.

(** The columns a walk without [table_columns] reads from the metadata. *)
Definition columns_of (res : resolver) (view_name : string) (table_columns : option (list string))
    : option (list string) :=
  match table_columns with
  | Some _ => table_columns
  | None => columns <$> metadata_of res view_name
  end.

Fixpoint normalize_dict_where (fuel : nat) (res : resolver) (view_name jsonb : string)
    (table_columns : option (list string)) (where_dict : pyval) : result where_clause :=
  match fuel with
  | O => Err RecursionError
  | S fuel' =>
      if negb (Py.truthy where_dict) then Err ValueError
      else match where_dict with
           | PDict items =>
               let table_columns := columns_of res view_name table_columns in
               acc ← foldR (item_step res view_name jsonb table_columns
                              (normalize_dict_where fuel' res view_name jsonb table_columns))
                       {| conditions := []; nested_clauses := []; not_clause := None |} items;
               WhereClause.__post_init__
                 (Clause (conditions acc) "AND" (nested_clauses acc) (not_clause acc))
           | _ => Err AttributeError
           end
  end.

(** ** Column mappings *)

Definition _mapped_lookup_strategy (column : string) (v : pyval) : string :=
  if Str.ends_with "_id" column then "fk_column"
  else if Py.is_uuid v then "fk_column"
  else match Py.seq_items v with
       | Some ((_ :: _) as l) => if forallb Py.is_uuid l then "fk_column" else "sql_column"
       | _ => "sql_column"
       end.

(** [replace(condition, ...)]: the checks of the record run again. *)
Definition _map_condition (mapping : list (string * string)) (table_columns : option (list string))
    (strict : bool) (c : field_condition) : result field_condition :=
  match dict_get (Str.join "." (field_path c)) mapping with
  | None => Ok c
  | Some column =>
      if match table_columns with Some ((_ :: _) as cols) => negb (column in_ cols) | _ => false end
      then if strict then Err RuntimeError else Ok c
      else FieldCondition.__post_init__
             {| field_path := field_path c; operator := operator c; value := value c;
                lookup_strategy := _mapped_lookup_strategy column (value c);
                target_column := column; jsonb_path := None; temporal_cast := temporal_cast c |}
  end.

Fixpoint map_tree (f : field_condition → result field_condition) (w : where_clause)
    : result where_clause :=
  match w with
  | Clause cs op nested not =>
      cs' ← mapR f cs;
      nested' ← mapR (map_tree f) nested;
      not' ← match not with Some n => n' ← map_tree f n; Ok (Some n') | None => Ok None end;
      WhereClause.__post_init__ (Clause cs' op nested' not')
  end.

Definition _apply_column_mapping (w : where_clause) (mapping : list (string * string))
    (table_columns : option (list string)) (strict : bool) : result where_clause :=
  match mapping with
  | [] => Ok w
  | _ => map_tree (_map_condition mapping table_columns strict) w
  end.

Definition _apply_view_column_mapping (st : views) (w : where_clause) (view_name : string)
    (table_columns : option (list string)) : result where_clause :=
  match _view_column_mapping st view_name with
  | [] => Ok w
  | mapping =>
      let m := dict_get view_name (table_metadata st) in
      let cols := match table_columns with Some _ => table_columns | None => columns <$> m end in
      _apply_column_mapping w mapping cols
        (match m with Some m => validate_fk_strict m | None => true end)
  end.

(** ** Declared types *)

(** A type hint: a class, [X | Y], [list[...]], [None] or another hint. *)
Inductive annotation :=
| AnnNone
| AnnClass (name : string)
| AnnUnion (args : list annotation)
| AnnList (args : list annotation)
| AnnOther (text : string).

(** Strip [| None], and [list[...]] when walking on. *)
Fixpoint _unwrap_annotation (into_list : bool) (a : annotation) : option annotation :=
  match a with
  | AnnUnion args =>
      (fix first (l : list annotation) : option annotation :=
         match l with
         | [] => None
         | AnnNone :: l' => first l'
         | x :: _ => _unwrap_annotation into_list x
         end) args
  | AnnList args =>
      if into_list then
        match args with x :: _ => _unwrap_annotation into_list x | [] => None end
      else Some a
  | _ => Some a
  end.

(** The classes: [get_type_hints] ([None] when it raises) and the names of the
    class and its bases. *)
Record class_info := {
  type_hints : option (list (string * annotation));
  bases : list string
}.

Section types.
Context (classes : string → class_info).

(** Walk [path] from an annotation; only a class can be walked into. *)
Fixpoint _resolve_field_type (current : annotation) (path : list string) : option annotation :=
  match path with
  | [] => Some current
  | segment :: path' =>
      match current with
      | AnnClass c =>
          match type_hints (classes c) with
          | None => None
          | Some hints =>
              match dict_get segment hints with
              | None => None
              | Some a =>
                  match path' with
                  | [] => _unwrap_annotation false a
                  | _ => match _unwrap_annotation true a with
                         | Some next => _resolve_field_type next path'
                         | None => None
                         end
                  end
              end
          end
      | _ => None
      end
  end.

(** [isinstance(t, type) and issubclass(t, one of names)] for the field's type. *)
Definition declares (source_type : string) (path names : list string) : bool :=
  match _resolve_field_type (AnnClass source_type) path with
  | Some (AnnClass c) => existsb (λ n, n in_ bases (classes c)) names
  | _ => false
  end.

Definition _declared_temporal_cast (source_type : string) (path : list string) : option cast :=
  if declares source_type path ["datetime"; "DateTimeField"] then Some timestamptz
  else if declares source_type path ["date"; "DateField"] then Some date
  else None.

Definition _declared_ltree (source_type : string) (path : list string) : bool :=
  declares source_type path ["LTreeField"].

Definition _declared_coordinate (source_type : string) (path : list string) : bool :=
  declares source_type path ["CoordinateField"].

Definition set_cast (c : field_condition) (k : option cast) : field_condition :=
  {| field_path := field_path c; operator := operator c; value := value c;
     lookup_strategy := lookup_strategy c; target_column := target_column c;
     jsonb_path := jsonb_path c; temporal_cast := k |}.

Definition annotate_condition (source_type : string) (c : field_condition) : field_condition :=
  match temporal_cast c with
  | Some _ => c
  | None =>
      let cast :=
        if lookup_strategy c =s "jsonb_path" then
          match _declared_temporal_cast source_type (field_path c) with
          | Some k => Some k
          | None => if _declared_ltree source_type (field_path c) then Some ltree else None
          end
        else None in
      let cast :=
        match cast with
        | None => if _declared_coordinate source_type (field_path c) then Some point else None
        | k => k
        end in
      set_cast c cast
  end.

Fixpoint annotate_tree (source_type : string) (w : where_clause) : where_clause :=
  match w with
  | Clause cs op nested not =>
      Clause (map (annotate_condition source_type) cs) op (map (annotate_tree source_type) nested)
        (match not with Some n => Some (annotate_tree source_type n) | None => None end)
  end.

Definition annotate_temporal_casts (w : where_clause) (source_type : option string) : where_clause :=
  match source_type with None => w | Some t => annotate_tree t w end.
End types.

(** ** [_normalize_where] on a dictionary *)

Definition resolver_of (st : views) (fields : string → list string) : resolver :=
  {| metadata_of := λ view, dict_get view (table_metadata st);
     declared_fields := λ view,
       match dict_get view (type_registry st) with Some t => fields t | None => [] end |}.

Definition jsonb_column_of (st : views) (view_name : string) : string :=
  match dict_get view_name (table_metadata st) with
  | Some m =>
      if has_jsonb_data m then
        match Views.jsonb_column m with Some (String c s) => String c s | _ => "data" end
      else "data"
  | None => "data"
  end.

(** [fields] and [classes] describe the registered classes. *)
Definition _normalize_where (fuel : nat) (st : views) (fields : string → list string)
    (classes : string → class_info) (where_ : pyval) (view_name : string)
    (table_columns : option (list string)) : result where_clause :=
  match where_ with
  | PDict _ =>
      w ← normalize_dict_where fuel (resolver_of st fields) view_name
            (jsonb_column_of st view_name) table_columns where_;
      w ← _apply_view_column_mapping st w view_name table_columns;
      Ok (annotate_temporal_casts classes w (dict_get view_name (type_registry st)))
  | _ => Err TypeError
  end.
