(* ===== verification/NormalizeLaws.v ===== *)
(** * Laws of the normalisation

    The walk terminates, what it raises, and what it resolves each condition to. *)
From stdpp Require Import base decidable strings list.
From Stdlib Require Import ZArith Lia Ascii.
From S2P Require Import Prelude PyVal Sql Shape OpBase FieldCondition WhereClause Casing Views Normalize.

Local Open Scope py_scope.

(** ** Sizes *)

Fixpoint size (v : pyval) : nat :=
  match v with
  | PDict d => S (sum_list_with (λ kv, size kv.2) d)
  | PList l | PTuple l => S (sum_list_with size l)
  | _ => 1
  end.

Lemma size_pos v : 0 < size v.
Proof. destruct v; cbn; lia. Qed.

Lemma sum_elem {A} (f : A → nat) l x : x ∈ l → f x ≤ sum_list_with f l.
Proof. induction 1; cbn; lia. Qed.

Lemma size_item (d : list (string * pyval)) kv : kv ∈ d → size kv.2 < size (PDict d).
Proof. intros H%(sum_elem (λ kv, size kv.2)). cbn. lia. Qed.

Lemma size_element l v : v ∈ l → size v < size (PList l).
Proof. intros H%(sum_elem size). cbn. lia. Qed.

(** ** Loops *)

(** A loop that keeps an invariant, and does not raise [e] when its steps do not. *)
Lemma foldR_inv {A B} (P : A → Prop) (f : A → B → result A) acc l acc' :
  P acc → (∀ a x a', x ∈ l → P a → f a x = Ok a' → P a') → foldR f acc l = Ok acc' → P acc'.
Proof.
  revert acc. induction l as [|x l IH]; intros acc Ha Hf; cbn; [by intros [= <-]|].
  intros (a' & Hx & Hl)%bind_Ok. eapply IH; [| |exact Hl].
  - eapply Hf; [|exact Ha|exact Hx]. left.
  - intros a y a'' Hy. apply Hf. by right.
Qed.

Lemma foldR_avoids {A B} (f : A → B → result A) acc l e :
  (∀ a x, x ∈ l → f a x ≠ Err e) → foldR f acc l ≠ Err e.
Proof.
  revert acc. induction l as [|x l IH]; intros acc Hf; cbn; [done|].
  destruct (f acc x) as [a|e'] eqn:E; cbn.
  - apply IH. intros a' y Hy. apply Hf. by right.
  - rewrite <- E. apply Hf. left.
Qed.

Lemma foldR_ext {A B} (f g : A → B → result A) acc l :
  (∀ a x, x ∈ l → f a x = g a x) → foldR f acc l = foldR g acc l.
Proof.
  revert acc. induction l as [|x l IH]; intros acc Hfg; cbn; [done|].
  rewrite Hfg by left. destruct (g acc x); cbn; [|done]. apply IH. intros b y Hy.
  apply Hfg. by right.
Qed.

Lemma mapR_avoids {A B} (f : A → result B) l e : (∀ x, x ∈ l → f x ≠ Err e) → mapR f l ≠ Err e.
Proof.
  induction l as [|x l IH]; intros Hf; cbn; [done|].
  destruct (f x) as [y|e'] eqn:E; cbn; [|intros [= ->]; eapply Hf; [left|exact E]].
  assert (mapR f l ≠ Err e) as IH' by (apply IH; intros z Hz; apply Hf; by right).
  by destruct (mapR f l); cbn; [|congruence].
Qed.

Lemma mapR_ext {A B} (f g : A → result B) l : (∀ x, x ∈ l → f x = g x) → mapR f l = mapR g l.
Proof.
  induction l as [|x l IH]; intros H; cbn; [done|]. rewrite H by left.
  rewrite IH; [done|]. intros y Hy. apply H. by right.
Qed.

Lemma bind_avoids {A B} (m : result A) (f : A → result B) e :
  m ≠ Err e → (∀ a, m = Ok a → f a ≠ Err e) → m ≫= f ≠ Err e.
Proof. intros Hm Hf. destruct m; cbn; [by apply Hf|congruence]. Qed.

(** ** The values a nested filter keeps *)

Lemma get_elem k (d : list (string * pyval)) :
  Py.get k d = PNone ∨ ∃ kv, kv ∈ d ∧ kv.2 = Py.get k d.
Proof.
  unfold Py.get. induction d as [|[k' v'] d IH]; cbn; [by left|].
  case_decide; cbn; [right; exists (k', v'); split; [left|done]|].
  destruct IH as [IH|(kv & Hin & E)]; [by left|right]. exists kv. split; [by right|done].
Qed.

(** An item of a folded filter is an item's value of the filter, a [None], or
    under a vector operator. *)
Definition kept (d : list (string * pyval)) (kv : string * pyval) : Prop :=
  kv.2 = PNone ∨ (∃ kv', kv' ∈ d ∧ kv'.2 = kv.2) ∨ dict_has kv.1 VECTOR_OPERATORS = true.

Lemma fold_item_kept d threshold folded item folded' :
  Forall (kept d) folded → fold_vector_item d threshold folded item = Ok folded' →
  Forall (kept d) folded'.
Proof.
  destruct item as [op key]. unfold fold_vector_item. cbn. intros Hf H.
  destruct (op =s "distance_within"); [by injection H as <-|].
  destruct (negb (dict_has op VECTOR_OPERATORS) || Py.is_none (Py.get key d)) eqn:E.
  - injection H as <-. apply Forall_forall. intros x [->|Hx]%dict_set_elem.
    + unfold kept. cbn. destruct (get_elem key d) as [->|?]; auto.
    + by eapply Forall_forall in Hf.
  - apply bind_Ok in H as (v' & _ & [= <-]). apply orb_false_iff in E as [E%negb_false_iff _].
    apply Forall_forall. intros x [->|Hx]%dict_set_elem; [by right; right|].
    by eapply Forall_forall in Hf.
Qed.

Lemma fold_filter_kept d d' : _fold_vector_filter d = Ok d' → Forall (kept d) d'.
Proof.
  unfold _fold_vector_filter. cbn zeta. case_match.
  - intros [= <-]. apply Forall_forall. intros x Hx. right. left. eauto.
  - apply (foldR_inv (Forall (kept d))); [constructor|]. intros a x a' _. apply fold_item_kept.
Qed.

Lemma nested_no_vector res field d tc view use_fk :
  _is_nested_object_filter res field d tc view = Ok (true, use_fk) →
  Forall (λ kv, dict_has kv.1 VECTOR_OPERATORS = false) d.
Proof.
  unfold _is_nested_object_filter. destruct (existsb _ d) eqn:E; [done|]. intros _.
  apply Forall_forall. intros x Hx%list_elem_of_In.
  destruct (dict_has x.1 VECTOR_OPERATORS) eqn:Ex; [|done].
  enough (existsb (λ kv, dict_has kv.1 VECTOR_OPERATORS
    || dict_has (_normalize_operator kv.1) LTREE_INDEX_COMPARISONS
    || (_normalize_operator kv.1 =s "distance_within")) d = true) by congruence.
  apply existsb_exists. exists x. by rewrite Ex.
Qed.

(** The dictionary a nested walk is called on is smaller than the whole. *)
Lemma nested_smaller res field value d d' tc view use_fk item ops k :
  (match value with PDict d => d | v => [("eq", v)] end) = d →
  _fold_vector_filter d = Ok d' →
  _is_nested_object_filter res field d' tc view = Ok (true, use_fk) →
  item ∈ d' → item.2 = PDict ops → size (PDict [(k, item.2)]) ≤ size value.
Proof.
  intros Hd Hf Hn Hitem Hops. apply fold_filter_kept in Hf. apply nested_no_vector in Hn.
  eapply Forall_forall in Hf; [|exact Hitem]. eapply Forall_forall in Hn; [|exact Hitem].
  destruct Hf as [Hf|[(kv & Hkv & E)|Hf]]; [congruence| |congruence].
  rewrite <- E. cbn. rewrite Nat.add_0_r.
  destruct value; subst d; try (apply list_elem_of_singleton in Hkv as ->; cbn in E; congruence).
  by apply size_item in Hkv.
Qed.

(** ** The walk depends on its smaller calls alone *)

Section steps.
Context (res : resolver) (view jsonb : string) (tc : option (list string)).

Lemma field_step_ext rec rec' acc name v :
  (∀ w, size w ≤ size v → rec w = rec' w) →
  field_step res view jsonb tc rec acc name v = field_step res view jsonb tc rec' acc name v.
Proof using Type.
  intros Hrec. unfold field_step. destruct (_reject_operator_suffix_key _ _ _ _); cbn; [|done].
  cbn zeta. destruct (_fold_vector_filter _) as [d|] eqn:Hf; cbn; [|done].
  destruct (_is_nested_object_filter _ _ _ _ _) as [[[] []]|] eqn:Hn; cbn; try done.
  apply foldR_ext. intros acc' item Hitem. unfold jsonb_field. cbn zeta.
  destruct (item.2) as [| | | | | | | | | | |ops| |] eqn:Hops; try done.
  destruct (existsb _ ops); [|done]. rewrite Hrec; [done|].
  rewrite <- Hops. by eapply nested_smaller.
Qed.

Lemma item_step_ext rec rec' acc item :
  (∀ w, size w ≤ size item.2 → rec w = rec' w) →
  item_step res view jsonb tc rec acc item = item_step res view jsonb tc rec' acc item.
Proof using Type.
  destruct item as [name v]. cbn [snd]. intros Hrec. unfold item_step.
  destruct (name =s "OR").
  { destruct v as [| | | | | | | | |l| | | |]; try done.
    rewrite (mapR_ext rec rec'); [done|]. intros x Hx%size_element. apply Hrec. lia. }
  destruct (name =s "AND").
  { destruct v as [| | | | | | | | |l| | | |]; try done. apply foldR_ext.
    intros a x Hx%size_element. unfold and_step. rewrite Hrec by lia. done. }
  destruct (name =s "NOT").
  { destruct v; try done. by rewrite Hrec. }
  by apply field_step_ext.
Qed.

(** ** What the walk can raise *)

Section avoids.
Context (e : exn) (Hvalue : e ≠ ValueError) (Hattr : e ≠ AttributeError).
Context (Hnested : ∀ field d, _is_nested_object_filter res field d tc view ≠ Err e).

Lemma reject_avoids key : _reject_operator_suffix_key res key view tc ≠ Err e.
Proof using Hvalue. unfold _reject_operator_suffix_key. repeat case_match; congruence. Qed.

Lemma fold_avoids d : _fold_vector_filter d ≠ Err e.
Proof using Hvalue.
  unfold _fold_vector_filter. cbn zeta. case_match; [done|]. apply foldR_avoids.
  intros a [op key] _. unfold fold_vector_item. case_match; [done|]. case_match; [done|].
  apply bind_avoids; [|done]. unfold fold_vector_value. apply bind_avoids.
  - cbn zeta. repeat case_match; congruence.
  - intros v _. repeat case_match; congruence.
Qed.

Lemma condition_avoids c : FieldCondition.__post_init__ c ≠ Err e.
Proof using Hvalue. unfold FieldCondition.__post_init__. repeat case_match; congruence. Qed.

Lemma clause_avoids w : WhereClause.__post_init__ w ≠ Err e.
Proof using Hvalue. destruct w. cbn. repeat case_match; congruence. Qed.

Lemma conditions_avoid mk ops : operator_conditions mk ops ≠ Err e.
Proof using Hvalue. apply mapR_avoids. intros x _. apply condition_avoids. Qed.

Lemma item_step_avoids rec acc item :
  (∀ w, size w ≤ size item.2 → rec w ≠ Err e) →
  item_step res view jsonb tc rec acc item ≠ Err e.
Proof using Hvalue Hnested.
  destruct item as [name v]. cbn [snd]. intros Hrec. unfold item_step.
  case_match.
  { destruct v as [| | | | | | | | |l| | | |]; try done. apply bind_avoids.
    - apply mapR_avoids. intros x Hx%size_element. apply Hrec. lia.
    - intros [|w ws] _; [done|]. apply bind_avoids; [apply clause_avoids|done]. }
  case_match.
  { destruct v as [| | | | | | | | |l| | | |]; try done. apply foldR_avoids.
    intros a x Hx%size_element. apply bind_avoids; [apply Hrec; lia|].
    intros [? ? [|] [|]] _; done. }
  case_match.
  { destruct v; try done. apply bind_avoids; [by apply Hrec|done]. }
  unfold field_step. apply bind_avoids; [apply reject_avoids|]. intros _ _. cbn zeta.
  apply bind_avoids; [apply fold_avoids|]. intros d Hd.
  apply bind_avoids; [apply Hnested|]. intros [[] []] Hn; cbn [andb].
  - apply foldR_avoids. intros a x _. unfold fk_field. destruct (x.2); try done.
    apply bind_avoids; [apply conditions_avoid|done].
  - apply foldR_avoids. intros a item Hitem. unfold jsonb_field. cbn zeta.
    destruct (item.2) as [| | | | | | | | | | |ops| |] eqn:Hops; try done.
    destruct (existsb _ ops).
    + apply bind_avoids; [|by intros [? ? ? ?] _]. rewrite <- Hops. apply Hrec.
      by eapply nested_smaller.
    + apply bind_avoids; [apply conditions_avoid|done].
  - apply bind_avoids; [apply conditions_avoid|done].
  - apply bind_avoids; [apply conditions_avoid|done].
Qed.
End avoids.
End steps.

Lemma columns_of_idem res view tc : columns_of res view (columns_of res view tc) = columns_of res view tc.
Proof. unfold columns_of. destruct tc; [done|]. by destruct (metadata_of res view). Qed.

(** Fuel above the size of the dictionary is enough. *)
Lemma normalize_fuel fuel fuel' res view jsonb tc w :
  size w < fuel → size w < fuel' →
  normalize_dict_where fuel res view jsonb tc w = normalize_dict_where fuel' res view jsonb tc w.
Proof.
  revert fuel' tc w. induction fuel as [|fuel IH]; intros [|fuel'] tc w; try lia. intros H H'.
  cbn [normalize_dict_where]. case_match; [done|].
  destruct w as [| | | | | | | | | | |items| |]; try done. cbn zeta.
  rewrite (foldR_ext _ (item_step res view jsonb (columns_of res view tc)
    (normalize_dict_where fuel' res view jsonb (columns_of res view tc)))); [done|].
  intros a item Hitem%size_item. apply item_step_ext. intros w Hw. apply IH; lia.
Qed.

Lemma normalize_avoids e fuel res view jsonb tc w :
  e ≠ ValueError → e ≠ AttributeError →
  (∀ field d, _is_nested_object_filter res field d (columns_of res view tc) view ≠ Err e) →
  size w < fuel → normalize_dict_where fuel res view jsonb tc w ≠ Err e.
Proof.
  intros Hv Ha Hn. revert tc w Hn. induction fuel as [|fuel IH]; intros tc w Hn; [lia|].
  intros Hw. cbn [normalize_dict_where]. case_match; [congruence|].
  destruct w as [| | | | | | | | | | |items| |]; try congruence. cbn zeta.
  apply bind_avoids; [|intros acc _; by apply clause_avoids].
  apply foldR_avoids. intros a item Hitem%size_item. apply item_step_avoids; [done..|].
  intros w Hsize. apply IH; [|lia]. by rewrite columns_of_idem.
Qed.

Lemma nested_no_recursion res field d tc view :
  _is_nested_object_filter res field d tc view ≠ Err RecursionError.
Proof. unfold _is_nested_object_filter. cbn zeta. repeat case_match; congruence. Qed.

(** ** What each condition is resolved to *)

Section resolved.
Context (res : resolver) (view jsonb : string) (tc : option (list string)).

(** Where a condition looks, and why it may. *)
Inductive origin (c : field_condition) : Prop :=
| in_document :
    lookup_strategy c = "jsonb_path" → target_column c = jsonb →
    jsonb_path c = Some (field_path c) → origin c
| in_column :
    lookup_strategy c = "sql_column" → jsonb_path c = None →
    match tc with
    | Some cols =>
        target_column c ∈ cols ∨ _is_flat_view res view cols = true
        ∨ dict_has (operator c) VECTOR_OPERATORS = true
    | None => True
    end → origin c
| by_key before field :
    lookup_strategy c = "fk_column" → jsonb_path c = None →
    field_path c = before ++ [field; "id"] → target_column c = (field +:+ "_id")%stdpp →
    known tc (target_column c) = true
    ∨ (∃ m column, metadata_of res view = Some m
         ∧ dict_get field (fk_relationships m) = Some column ∧ known tc column = true) →
    origin c.

Definition resolved (c : field_condition) : Prop :=
  FieldCondition.__post_init__ c = Ok c ∧ value c ≠ PNone ∧ temporal_cast c = None ∧ origin c.

Definition resolved_clause (w : where_clause) : Prop := valid w ∧ each resolved w.

Definition resolved_parts (acc : collected) : Prop :=
  Forall resolved (conditions acc) ∧ Forall resolved_clause (nested_clauses acc)
  ∧ match not_clause acc with Some w => resolved_clause w | None => True end.

(** What the checks of a condition amount to. *)
Lemma init_spec c c' :
  FieldCondition.__post_init__ c = Ok c' ↔
  c' = c ∧ dict_has (operator c) ALL_OPERATORS = true
  ∧ (lookup_strategy c in_ ["fk_column"; "jsonb_path"; "sql_column"]) = true
  ∧ (lookup_strategy c =s "jsonb_path") && no_path (jsonb_path c) = false
  ∧ field_path c ≠ [].
Proof using Type.
  unfold FieldCondition.__post_init__.
  destruct (dict_has _ _); [|by split; [|intros (_ & ? & _)]].
  destruct (lookup_strategy c in_ _); [|by split; [|intros (_ & _ & ? & _)]].
  destruct (_ && no_path _); [by split; [|intros (_ & _ & _ & ? & _)]|].
  cbn [negb]. destruct (bool_decide_reflect (field_path c = [])) as [H|H].
  - split; [done|]. by intros (_ & _ & _ & _ & ?).
  - split; [by intros [= <-]|]. by intros (-> & _).
Qed.

Lemma init_id c c' : FieldCondition.__post_init__ c = Ok c' → c' = c.
Proof using Type. by intros (-> & _)%init_spec. Qed.

Lemma clause_init_id w w' : WhereClause.__post_init__ w = Ok w' → w' = w.
Proof using Type.
  destruct w as [cs op nested not]. unfold WhereClause.__post_init__.
  destruct (negb _); [done|]. destruct cs, nested, not; by intros [= <-].
Qed.

(** The conditions of the operators of one field. *)
Lemma operator_conditions_resolved mk ops cs :
  (∀ op v, value (mk op v) = v ∧ temporal_cast (mk op v) = None ∧ origin (mk op v)) →
  operator_conditions mk ops = Ok cs → Forall resolved cs.
Proof using Type.
  intros Hmk Hcs%mapR_Ok. apply Forall_forall. intros c Hc.
  apply list_elem_of_lookup in Hc as [i Hi].
  destruct (Forall2_lookup_r _ _ _ _ _ Hcs Hi) as (kv & Hkv & Hinit).
  apply init_id in Hinit as E. subst c.
  destruct (Hmk (_normalize_operator kv.1) kv.2) as (Ev & Et & Ho).
  split_and!; [done| |done|done]. rewrite Ev.
  apply list_elem_of_lookup_2, list_elem_of_In, filter_In in Hkv as [_ Hkv].
  intros E. by rewrite E in Hkv.
Qed.

Lemma add_conditions_resolved acc cs :
  resolved_parts acc → Forall resolved cs → resolved_parts (add_conditions acc cs).
Proof using Type. intros (H1 & H2 & H3) Hc. split_and!; [by apply Forall_app|done..]. Qed.

Lemma add_nested_resolved acc ws :
  resolved_parts acc → Forall resolved_clause ws → resolved_parts (add_nested acc ws).
Proof using Type. intros (H1 & H2 & H3) Hw. split_and!; [done|by apply Forall_app|done]. Qed.

Lemma prepend_resolved name c : resolved c → resolved (prepend name c).
Proof using Type.
  intros (Hi & Hv & Ht & Ho). apply init_spec in Hi as (_ & H1 & H2 & H3 & H4).
  split_and!; [|exact Hv|exact Ht|].
  - apply init_spec. split_and!; [done|exact H1|exact H2| |done].
    change (lookup_strategy (prepend name c)) with (lookup_strategy c).
    destruct (lookup_strategy c =s "jsonb_path"); [|done]. unfold prepend; cbn [jsonb_path].
    by destruct (jsonb_path c) as [[|? ?]|].
  - destruct Ho as [E1 E2 E3|E1 E2 E3|before field E1 E2 E3 E4 E5].
    + apply in_document; [done|done|]. unfold prepend; cbn [jsonb_path field_path].
      rewrite E3. by destruct (field_path c).
    + apply in_column; [done| |done]. unfold prepend; cbn [jsonb_path]. by rewrite E2.
    + apply (by_key _ (name :: before) field); [done| | |done|done].
      * unfold prepend; cbn [jsonb_path]. by rewrite E2.
      * unfold prepend; cbn [field_path]. by rewrite E3.
Qed.

Lemma prepend_clause_resolved name w : resolved_clause w → resolved_clause (prepend_clause name w).
Proof using Type.
  destruct w as [cs op nested not]. intros [Hv He]. inversion_clear Hv as [? ? ? ? Hi Hvn Hvo].
  inversion_clear He as [? ? ? ? Hc Hen Heo]. split; constructor; try done.
  - destruct cs, nested, not; cbn in *; destruct (op in_ _); done.
  - apply Forall_map. eapply Forall_impl; [exact Hc|]. apply prepend_resolved.
Qed.

Lemma prepends_resolved name cs : Forall resolved cs → Forall resolved (map (prepend name) cs).
Proof using Type.
  intros H. apply Forall_map. eapply Forall_impl; [exact H|]. apply prepend_resolved.
Qed.

(** A clause taken apart: its conditions, nested clauses and negation. *)
Lemma resolved_clause_parts cs op nested not :
  resolved_clause (Clause cs op nested not) →
  Forall resolved cs ∧ Forall resolved_clause nested
  ∧ (∀ w, not = Some w → resolved_clause w).
Proof using Type.
  intros [Hv He]. inversion_clear Hv as [? ? ? ? _ Hvn Hvo].
  inversion_clear He as [? ? ? ? Hc Hen Heo]. split_and!; [done| |].
  - apply Forall_and. done.
  - intros w ->. split; auto.
Qed.

Lemma clause_resolved cs op nested not w :
  Forall resolved cs → Forall resolved_clause nested →
  (∀ w, not = Some w → resolved_clause w) →
  WhereClause.__post_init__ (Clause cs op nested not) = Ok w → resolved_clause w.
Proof using Type.
  intros Hc Hn Ho Hi. apply clause_init_id in Hi as E. subst w.
  apply Forall_and in Hn as [Hn1 Hn2]. split; constructor; try done; intros w Hw; by apply Ho.
Qed.

Lemma fk_field_resolved field acc item acc' :
  (known tc (field +:+ "_id")%stdpp = true
   ∨ ∃ m column, metadata_of res view = Some m
       ∧ dict_get field (fk_relationships m) = Some column ∧ known tc column = true) →
  resolved_parts acc → fk_field jsonb field acc item = Ok acc' → resolved_parts acc'.
Proof using Type.
  intros Hk Hacc. unfold fk_field. cbn zeta. destruct (item.2); try by intros [= <-].
  intros (cs & Hcs & [= <-])%bind_Ok. apply add_conditions_resolved; [done|].
  eapply operator_conditions_resolved; [|exact Hcs]. intros op v.
  case_match; split_and!; try done.
  - by apply (by_key _ [] field).
  - by apply in_document.
Qed.

Lemma jsonb_field_resolved rec field acc item acc' :
  (∀ w w', rec w = Ok w' → resolved_clause w') →
  resolved_parts acc → jsonb_field jsonb rec field acc item = Ok acc' → resolved_parts acc'.
Proof using Type.
  intros Hrec Hacc. unfold jsonb_field. cbn zeta. destruct (item.2) as [| | | | | | | | | | |ops| |];
    try by intros [= <-].
  destruct (existsb _ ops).
  - intros ([cs op nested not] & Hw%Hrec & [= <-])%bind_Ok.
    apply resolved_clause_parts in Hw as (Hc & Hn & Ho). destruct Hacc as (H1 & H2 & H3).
    split_and!; cbn.
    + apply Forall_app. split; [done|]. by apply prepends_resolved.
    + apply Forall_app. split; [done|]. apply Forall_map.
      eapply Forall_impl; [exact Hn|]. apply prepend_clause_resolved.
    + destruct not as [n|]; [|done]. by apply prepend_clause_resolved, Ho.
  - intros (cs & Hcs & [= <-])%bind_Ok. apply add_conditions_resolved; [done|].
    eapply operator_conditions_resolved; [|exact Hcs]. intros op v. split_and!; [done..|].
    by apply in_document.
Qed.

Lemma direct_field_resolved field ops cs :
  direct_field res view jsonb tc field ops = Ok cs → Forall resolved cs.
Proof using Type.
  apply operator_conditions_resolved. intros op v. unfold direct_lookup.
  destruct (_ && _) eqn:E; split_and!; try done.
  - by apply in_document.
  - apply in_column; [done..|]. cbn. destruct tc as [cols|]; [|done].
    destruct (field in_ cols) eqn:Hc; [left; by apply str_in_true|].
    destruct (_is_flat_view res view cols) eqn:Hflat; [by right; left|]. right; right.
    cbn in E. by apply negb_false_iff in E.
Qed.

(** A nested filter uses the key column when it exists, or is declared to. *)
Lemma nested_fk field d :
  _is_nested_object_filter res field d tc view = Ok (true, true) →
  known tc (field +:+ "_id")%stdpp = true
  ∨ ∃ m column, metadata_of res view = Some m
      ∧ dict_get field (fk_relationships m) = Some column ∧ known tc column = true.
Proof using Type.
  unfold _is_nested_object_filter. cbn zeta. destruct (existsb _ d); [done|].
  destruct (negb _); [done|].
  set (conv := match dict_get "id" d with Some (PDict _) => _ | _ => _ end).
  assert (Ok conv = Ok (true, true) → known tc (field +:+ "_id")%stdpp = true) as Hconv.
  { unfold conv. intros [= Hc]. repeat case_match; congruence. }
  destruct (metadata_of res view) as [m|] eqn:Hm; [|auto].
  destruct (dict_get field (fk_relationships m)) as [column|] eqn:Hfk; [|auto].
  destruct (known tc column) eqn:Hk; [eauto 10|]. case_match; [done|auto].
Qed.

Lemma item_step_resolved rec acc item acc' :
  (∀ w w', rec w = Ok w' → resolved_clause w') →
  resolved_parts acc → item_step res view jsonb tc rec acc item = Ok acc' → resolved_parts acc'.
Proof using Type.
  intros Hrec Hacc. destruct item as [name v]. unfold item_step.
  destruct (name =s "OR").
  { destruct v as [| | | | | | | | |l| | | |]; try by intros [= <-].
    intros (ws & Hws%mapR_Ok & H)%bind_Ok.
    assert (Forall resolved_clause ws) as Hall.
    { clear -Hws Hrec. induction Hws; constructor; eauto. }
    destruct ws as [|w ws]; [by injection H as <-|].
    apply bind_Ok in H as (w' & Hw' & [= <-]). apply add_nested_resolved; [done|].
    constructor; [|constructor]. by eapply (clause_resolved [] "OR" (w :: ws) None). }
  destruct (name =s "AND").
  { destruct v as [| | | | | | | | |l| | | |]; try by intros [= <-].
    apply (foldR_inv resolved_parts); [done|]. intros a x a' _ Ha.
    intros (w & Hw%Hrec & H)%bind_Ok.
    destruct w as [cs op [|n nested] [o|]]; injection H as <-;
      try (apply add_nested_resolved; [done|by constructor; [exact Hw|constructor]]).
    apply add_conditions_resolved; [done|]. by apply resolved_clause_parts in Hw as [? _]. }
  destruct (name =s "NOT").
  { destruct v; try by intros [= <-]. intros (w & Hw%Hrec & [= <-])%bind_Ok.
    destruct Hacc as (H1 & H2 & _). split_and!; [exact H1|exact H2|exact Hw]. }
  unfold field_step. intros H3. apply bind_Ok in H3 as (_ & _ & H3). cbn zeta in H3.
  apply bind_Ok in H3 as (d & _ & H3). apply bind_Ok in H3 as ([is_nested use_fk] & Hn & H3).
  destruct is_nested; cbn [andb] in H3; [destruct use_fk|].
  - revert H3. apply (foldR_inv resolved_parts); [done|]. intros a x a' _.
    apply fk_field_resolved. by eapply nested_fk.
  - revert H3. apply (foldR_inv resolved_parts); [done|]. intros a x a' _.
    by apply jsonb_field_resolved.
  - apply bind_Ok in H3 as (cs & Hcs & [= <-]). apply add_conditions_resolved; [done|].
    by eapply direct_field_resolved.
Qed.
End resolved.

Lemma normalize_resolved fuel res view jsonb tc w w' :
  normalize_dict_where fuel res view jsonb tc w = Ok w' →
  resolved_clause res view jsonb (columns_of res view tc) w'.
Proof.
  revert tc w w'. induction fuel as [|fuel IH]; intros tc w w'; [done|].
  cbn [normalize_dict_where]. destruct (negb _); [done|]. destruct w as [| | | | | | | | | | |items| |]; try done.
  intros (acc & Hacc & Hi)%bind_Ok.
  assert (resolved_parts res view jsonb (columns_of res view tc) acc) as (H1 & H2 & H3).
  { revert Hacc. apply foldR_inv; [by split_and!; constructor|]. intros a x a' _.
    apply item_step_resolved. intros u u' Hu%IH. by rewrite columns_of_idem in Hu. }
  eapply clause_resolved; [exact H1|exact H2| |exact Hi]. intros u E. by rewrite E in H3.
Qed.
