(* ===== verification/Meaning.v ===== *)
(** * What a filter dictionary means

    The truth of a clause over given truths of its conditions, and of a filter
    dictionary over the conditions of its fields; normalisation keeps it. *)
From stdpp Require Import base decidable strings list sets.
From Stdlib Require Import ZArith Lia Ascii.
From S2P Require Import Prelude PyVal Sql Shape OpBase FieldCondition WhereClause Casing Views Normalize NormalizeLaws.

Local Open Scope py_scope.

(** The logical keys, at the level where the walk reads them. *)
Definition logical (name : string) : bool := name in_ ["OR"; "AND"; "NOT"].

(** A clause holds when its parts do: all of them, or one under OR. *)
Fixpoint holds (sat : field_condition → bool) (w : where_clause) : bool :=
  match w with
  | Clause cs op nested not =>
      let parts :=
        map sat cs ++ map (holds sat) nested
          ++ match not with Some c => [negb (holds sat c)] | None => [] end in
      if op =s "OR" then existsb id parts else forallb id parts
  end.

Definition nothing : collected :=
  {| conditions := []; nested_clauses := []; not_clause := None |}.

Section spec.
Context (res : resolver) (view jsonb : string) (sat : field_condition → bool).

(** The conditions of one field, each of which must hold. *)
Definition field_conditions (fuel : nat) (tc : option (list string)) (name : string) (v : pyval)
    : list field_condition :=
  match field_step res view jsonb tc (normalize_dict_where fuel res view jsonb tc) nothing name v with
  | Ok acc => conditions acc
  | Err _ => []
  end.

(** A dictionary asks for all its items; [OR], [AND] and [NOT] have their usual
    meaning, an empty [OR] asks for nothing, and so does a logical key with a value
    of another type. *)
Fixpoint asks (fuel : nat) (tc : option (list string)) (w : pyval) : bool :=
  match fuel, w with
  | S fuel', PDict items =>
      let tc := columns_of res view tc in
      forallb
        (λ item,
           if item.1 =s "OR" then
             match item.2 with
             | PList ((_ :: _) as l) => existsb (asks fuel' tc) l
             | _ => true
             end
           else if item.1 =s "AND" then
             match item.2 with PList l => forallb (asks fuel' tc) l | _ => true end
           else if item.1 =s "NOT" then
             match item.2 with PDict _ => negb (asks fuel' tc item.2) | _ => true end
           else forallb sat (field_conditions fuel' tc item.1 item.2))
        items
  | _, _ => true
  end.
End spec.

(** The keys of every dictionary are distinct, as in Python. *)
Inductive distinct_keys : pyval → Prop :=
| distinct_dict d : NoDup d.*1 → Forall (λ kv, distinct_keys kv.2) d → distinct_keys (PDict d)
| distinct_list l : Forall distinct_keys l → distinct_keys (PList l)
| distinct_other v : (∀ d, v ≠ PDict d) → (∀ l, v ≠ PList l) → distinct_keys v.

(** ** A field adds conditions and nothing else *)

Definition only_conditions (w : where_clause) : Prop :=
  match w with Clause _ op nested not => op = "AND" ∧ nested = [] ∧ not = None end.

Lemma database_name_not_logical name : logical (database_name name) = false.
Proof.
  assert (∀ s, s ∈ ["OR"; "AND"; "NOT"] → database_name name ≠ s) as H.
  { intros s Hs E. unfold database_name in E.
    assert (Str.has_char underscore s = false ∧ no_upper s = false) as [Hu Hn].
    { repeat (apply elem_of_cons in Hs as [->|Hs]; [done|]). by apply not_elem_of_nil in Hs. }
    destruct (Str.has_char underscore name) eqn:En; [congruence|].
    assert (no_upper (to_snake_case name) = true) by apply lower_no_upper. congruence. }
  unfold logical. apply not_true_iff_false. intros Hs%str_in_true. by eapply H.
Qed.

Section flat.
Context (res : resolver) (view jsonb : string) (tc : option (list string)).
Context (rec : pyval → result where_clause).
Context (Hrec : ∀ name v w, logical name = false → rec (PDict [(name, v)]) = Ok w → only_conditions w).

(** A step of a loop that appends conditions that do not depend on what is there. *)
Definition appends {B} (f : collected → B → result collected) : Prop :=
  ∀ acc x,
    match f nothing x with
    | Ok a => ∃ cs, a = add_conditions nothing cs ∧ f acc x = Ok (add_conditions acc cs)
    | Err e => f acc x = Err e
    end.

Lemma add_conditions_nil acc : add_conditions acc [] = acc.
Proof using Type. destruct acc. unfold add_conditions. cbn. by rewrite app_nil_r. Qed.

Lemma add_conditions_app acc cs cs' :
  add_conditions (add_conditions acc cs) cs' = add_conditions acc (cs ++ cs').
Proof using Type. unfold add_conditions. cbn. by rewrite app_assoc. Qed.

Lemma appends_loop {B} (f : collected → B → result collected) l acc :
  appends f →
  match foldR f nothing l with
  | Ok a => ∃ cs, a = add_conditions nothing cs ∧ foldR f acc l = Ok (add_conditions acc cs)
  | Err e => foldR f acc l = Err e
  end.
Proof using Type.
  intros Hf.
  enough (∀ cs, match foldR f (add_conditions nothing cs) l with
                | Ok a => ∃ cs', a = add_conditions nothing (cs ++ cs')
                    ∧ foldR f (add_conditions acc cs) l = Ok (add_conditions acc (cs ++ cs'))
                | Err e => foldR f (add_conditions acc cs) l = Err e
                end) as H.
  { specialize (H []). by rewrite !add_conditions_nil in H. }
  induction l as [|x l IH]; intros cs; cbn.
  - exists []. by rewrite app_nil_r.
  - pose proof (Hf (add_conditions nothing cs) x) as H1.
    pose proof (Hf (add_conditions acc cs) x) as H2.
    destruct (f nothing x) as [a|e]; [|by rewrite H1, H2].
    destruct H1 as (cs1 & -> & ->), H2 as (cs2 & E & ->). injection E as <-. cbn.
    rewrite !add_conditions_app. specialize (IH (cs ++ cs1)).
    destruct (foldR f _ l); [|exact IH]. destruct IH as (cs' & -> & ->).
    exists (cs1 ++ cs'). by rewrite !app_assoc.
Qed.

Lemma appends_nothing {B} (f : collected → B → result collected) acc x :
  f nothing x = Ok nothing → f acc x = Ok acc →
  match f nothing x with
  | Ok a => ∃ cs, a = add_conditions nothing cs ∧ f acc x = Ok (add_conditions acc cs)
  | Err e => f acc x = Err e
  end.
Proof using Type. intros -> ->. exists []. by rewrite !add_conditions_nil. Qed.

Lemma appends_fk field : appends (fk_field jsonb field).
Proof using Type.
  intros acc item. unfold fk_field. cbn zeta.
  destruct (item.2); try (exists []; by rewrite !add_conditions_nil).
  destruct (operator_conditions _ _); cbn; eauto.
Qed.

Lemma appends_jsonb field : appends (jsonb_field jsonb rec field).
Proof using Hrec.
  intros acc item. unfold jsonb_field. cbn zeta.
  destruct (item.2) as [| | | | | | | | | | |ops| |];
    try (exists []; by rewrite !add_conditions_nil).
  destruct (existsb _ ops).
  - destruct (rec _) as [w|] eqn:Hw; cbn; [|done].
    apply Hrec in Hw; [|apply database_name_not_logical].
    destruct w as [cs op nested not], Hw as (_ & -> & ->). cbn.
    eexists. split; [done|]. unfold add_conditions. cbn. by rewrite app_nil_r.
  - destruct (operator_conditions _ _); cbn; eauto.
Qed.

Lemma appends_field : appends (λ acc item, field_step res view jsonb tc rec acc item.1 item.2).
Proof using Hrec.
  intros acc [name v]. unfold field_step. cbn [fst snd].
  destruct (_reject_operator_suffix_key _ _ _ _); cbn; [|done]. cbn zeta.
  destruct (_fold_vector_filter _) as [d|]; cbn; [|done].
  destruct (_is_nested_object_filter _ _ _ _ _) as [[[] []]|]; cbn; try done.
  - apply appends_loop, appends_fk.
  - apply appends_loop, appends_jsonb.
  - destruct (direct_field _ _ _ _ _ _); cbn; eauto.
  - destruct (direct_field _ _ _ _ _ _); cbn; eauto.
Qed.
End flat.

Lemma logical_cases name :
  logical name = false →
  (name =s "OR") = false ∧ (name =s "AND") = false ∧ (name =s "NOT") = false.
Proof.
  intros H. assert (∀ s, s ∈ ["OR"; "AND"; "NOT"] → (name =s s) = false) as Hs.
  { intros s Hs. apply not_true_iff_false. intros ->%bool_decide_eq_true. unfold logical in H.
    apply str_in_true in Hs. congruence. }
  split_and!; apply Hs; set_solver.
Qed.

(** Without logical keys the clause is a list of conditions under AND. *)
Lemma normalize_flat fuel res view jsonb tc items w :
  Forall (λ kv, logical kv.1 = false) items →
  normalize_dict_where fuel res view jsonb tc (PDict items) = Ok w → only_conditions w.
Proof.
  revert tc items w. induction fuel as [|fuel IH]; intros tc items w Hl; [done|].
  cbn [normalize_dict_where]. destruct (negb _); [done|]. cbn zeta.
  set (tc' := columns_of res view tc). set (rec := normalize_dict_where fuel res view jsonb tc').
  intros (acc & Hacc & Hi)%bind_Ok. apply clause_init_id in Hi as ->.
  rewrite (foldR_ext _ (λ acc item, field_step res view jsonb tc' rec acc item.1 item.2)) in Hacc.
  - pose proof (appends_loop (λ acc item, field_step res view jsonb tc' rec acc item.1 item.2)
      items nothing) as H. fold nothing in Hacc. rewrite Hacc in H. destruct H as (cs & -> & _); [|done].
    apply appends_field. intros name v w' Hname. apply IH. by constructor.
  - intros a [name v] Hin. eapply Forall_forall in Hl; [|exact Hin].
    apply logical_cases in Hl as (H1 & H2 & H3). cbn [fst] in *. unfold item_step. by rewrite H1, H2, H3.
Qed.

(** What has been collected holds when all of it does. *)
Definition holds_so_far (sat : field_condition → bool) (acc : collected) : bool :=
  forallb sat (conditions acc) && forallb (holds sat) (nested_clauses acc)
  && match not_clause acc with Some w => negb (holds sat w) | None => true end.

Lemma forallb_map {A B} (f : A → B) (p : B → bool) l : forallb p (map f l) = forallb (p ∘ f) l.
Proof. induction l as [|x l IH]; cbn; [done|]. by rewrite IH. Qed.

Lemma existsb_map {A B} (f : A → B) (p : B → bool) l : existsb p (map f l) = existsb (p ∘ f) l.
Proof. induction l as [|x l IH]; cbn; [done|]. by rewrite IH. Qed.

Lemma holds_and sat cs nested not :
  holds sat (Clause cs "AND" nested not)
  = holds_so_far sat {| conditions := cs; nested_clauses := nested; not_clause := not |}.
Proof.
  unfold holds_so_far. cbn [holds conditions nested_clauses not_clause].
  change ("AND" =s "OR") with false. cbn iota.
  rewrite !List.forallb_app, !forallb_map, <- andb_assoc. f_equal. f_equal.
  destruct not; cbn; by rewrite ?andb_true_r.
Qed.

Lemma holds_add_conditions sat acc cs :
  holds_so_far sat (add_conditions acc cs) = holds_so_far sat acc && forallb sat cs.
Proof.
  unfold holds_so_far. cbn. rewrite List.forallb_app.
  destruct (forallb sat (conditions acc)), (forallb sat cs); cbn;
    by rewrite ?andb_true_r, ?andb_false_r.
Qed.

Lemma holds_add_nested sat acc ws :
  holds_so_far sat (add_nested acc ws) = holds_so_far sat acc && forallb (holds sat) ws.
Proof.
  unfold holds_so_far. cbn. rewrite List.forallb_app.
  destruct (forallb sat (conditions acc)), (forallb (holds sat) ws); cbn;
    by rewrite ?andb_true_r, ?andb_false_r.
Qed.

Section meaning.
Context (res : resolver) (view jsonb : string) (sat : field_condition → bool).

(** The clause of a dictionary holds when the dictionary's items do; it is an AND. *)
Definition means (fuel : nat) (tc : option (list string)) (w : pyval) (c : where_clause) : Prop :=
  holds sat c = asks res view jsonb sat fuel tc w
  ∧ ∃ cs nested not, c = Clause cs "AND" nested not.

Section step.
Context (fuel : nat) (tc : option (list string)).
Notation rec := (normalize_dict_where fuel res view jsonb tc).
Notation truth := (asks res view jsonb sat fuel tc).
Context (Hrec : ∀ w c, distinct_keys w → rec w = Ok c → means fuel tc w c).

Lemma or_step l ws :
  Forall distinct_keys l → mapR rec l = Ok ws → existsb (holds sat) ws = existsb truth l.
Proof using Hrec.
  intros Hd Hws%mapR_Ok. induction Hws as [|w c l ws Hw _ IH]; [done|].
  inversion_clear Hd as [|? ? Hdw Hdl]. cbn. destruct (Hrec _ _ Hdw Hw) as [-> _]. by rewrite IH.
Qed.

Lemma and_loop l acc acc' :
  Forall distinct_keys l → foldR (and_step rec) acc l = Ok acc' →
  holds_so_far sat acc' = holds_so_far sat acc && forallb truth l
  ∧ not_clause acc' = not_clause acc.
Proof using Hrec.
  revert acc. induction l as [|w l IH]; intros acc Hd; cbn [foldR].
  { intros [= <-]. cbn. by rewrite andb_true_r. }
  intros (a & Ha & Hl)%bind_Ok. inversion_clear Hd as [|? ? Hdw Hdl].
  destruct (IH a Hdl Hl) as [-> ->]. cbn [forallb]. rewrite andb_assoc.
  unfold and_step in Ha. apply bind_Ok in Ha as (c & Hc & Ha).
  destruct (Hrec _ _ Hdw Hc) as [Hm (cs & nested & not & ->)]. rewrite <- Hm.
  destruct nested as [|n nested]; [destruct not as [o|]|]; injection Ha as <-.
  - rewrite holds_add_nested. cbn [forallb]. by rewrite andb_true_r.
  - rewrite holds_add_conditions, holds_and. unfold holds_so_far at 3. cbn.
    by rewrite !andb_true_r.
  - rewrite holds_add_nested. cbn [forallb]. by rewrite andb_true_r.
Qed.

(** One item: its truth is added, and only [NOT] changes the negation. *)
Lemma item_meaning acc item acc' :
  distinct_keys item.2 → (item.1 = "NOT" → not_clause acc = None) →
  item_step res view jsonb tc rec acc item = Ok acc' →
  holds_so_far sat acc'
  = holds_so_far sat acc
    && (if item.1 =s "OR" then
          match item.2 with PList ((_ :: _) as l) => existsb truth l | _ => true end
        else if item.1 =s "AND" then
          match item.2 with PList l => forallb truth l | _ => true end
        else if item.1 =s "NOT" then
          match item.2 with PDict _ => negb (truth item.2) | _ => true end
        else forallb sat (field_conditions res view jsonb fuel tc item.1 item.2))
  ∧ (item.1 ≠ "NOT" → not_clause acc' = not_clause acc).
Proof using Hrec.
  destruct item as [name v]. cbn [fst snd]. intros Hd Hnot. unfold item_step, Str.eqb.
  destruct (bool_decide_reflect (name = "OR")) as [->|H1].
  { destruct v as [| | | | | | | | |l| | | |]; try (intros [= <-]; by rewrite andb_true_r).
    inversion Hd as [|? Hl E|? ? Hl]; [|by destruct (Hl l)]; subst.
    intros (ws & Hws & H)%bind_Ok. pose proof (or_step _ _ Hl Hws) as Hor.
    destruct ws as [|w ws].
    - apply mapR_Ok in Hws. inversion Hws; subst. injection H as <-. by rewrite andb_true_r.
    - apply bind_Ok in H as (c & Hc & [= <-]). apply clause_init_id in Hc as ->.
      rewrite holds_add_nested. cbn [forallb]. rewrite andb_true_r. split; [|done]. f_equal.
      destruct l as [|x l]; [discriminate Hws|]. rewrite <- Hor. cbn [holds].
      change ("OR" =s "OR") with true. cbn iota.
      by rewrite app_nil_r, app_nil_l, existsb_map. }
  destruct (bool_decide_reflect (name = "AND")) as [->|H2].
  { destruct v as [| | | | | | | | |l| | | |]; try (intros [= <-]; by rewrite andb_true_r).
    inversion Hd as [|? Hl E|? ? Hl]; [|by destruct (Hl l)]; subst.
    intros H. destruct (and_loop _ _ _ Hl H); auto. }
  destruct (bool_decide_reflect (name = "NOT")) as [->|H3].
  { destruct v as [| | | | | | | | | | |d| |]; try (intros [= <-]; by rewrite andb_true_r).
    intros (c & Hc & [= <-])%bind_Ok. destruct (Hrec _ _ Hd Hc) as [<- _]. split; [|done].
    unfold holds_so_far. cbn. by rewrite (Hnot eq_refl), andb_true_r. }
  intros H. unfold field_conditions.
  pose proof (appends_field res view jsonb tc rec) as Hf.
  assert (∀ name v w, logical name = false → rec (PDict [(name, v)]) = Ok w → only_conditions w) as Hflat.
  { intros n u w Hn. apply normalize_flat. by constructor. }
  specialize (Hf Hflat acc (name, v)). cbn [fst snd] in Hf.
  destruct (field_step _ _ _ _ _ nothing _ _) as [a|e]; [|congruence].
  destruct Hf as (cs & -> & E). rewrite E in H. injection H as <-. split; [|done].
  apply holds_add_conditions.
Qed.
End step.

Lemma normalize_means fuel tc w c :
  distinct_keys w → normalize_dict_where fuel res view jsonb tc w = Ok c → means fuel tc w c.
Proof using Type.
  revert tc w c. induction fuel as [|fuel IH]; intros tc w c Hd; [done|].
  cbn [normalize_dict_where]. destruct (negb _); [done|].
  destruct w as [| | | | | | | | | | |items| |]; try done. cbn zeta.
  set (tc' := columns_of res view tc).
  intros (acc & Hacc & Hi)%bind_Ok. apply clause_init_id in Hi as ->.
  split; [|by eauto]. rewrite holds_and. cbn [asks]. cbn zeta. fold tc'.
  inversion Hd as [? Hnd Hv| |? Hn]; [subst|by destruct (Hn items)].
  change acc with {| conditions := conditions acc; nested_clauses := nested_clauses acc;
    not_clause := not_clause acc |} in Hacc || idtac.
  enough (∀ l a, NoDup l.*1 → Forall (λ kv, distinct_keys kv.2) l →
    ("NOT" ∈ l.*1 → not_clause a = None) →
    foldR (item_step res view jsonb tc' (normalize_dict_where fuel res view jsonb tc')) a l = Ok acc →
    holds_so_far sat acc = holds_so_far sat a && forallb (λ item,
      if item.1 =s "OR" then
        match item.2 with PList ((_ :: _) as l) => existsb (asks res view jsonb sat fuel tc') l | _ => true end
      else if item.1 =s "AND" then
        match item.2 with PList l => forallb (asks res view jsonb sat fuel tc') l | _ => true end
      else if item.1 =s "NOT" then
        match item.2 with PDict _ => negb (asks res view jsonb sat fuel tc' item.2) | _ => true end
      else forallb sat (field_conditions res view jsonb fuel tc' item.1 item.2)) l) as H.
  { destruct acc. apply (H items nothing); try done. }
  clear items Hd Hnd Hv Hacc. induction l as [|item l IHl]; intros a Hnd Hv Hnot; cbn [foldR].
  { intros [= <-]. cbn. by rewrite andb_true_r. }
  intros (a' & Ha & Hl)%bind_Ok. cbn [forallb]. rewrite andb_assoc.
  inversion_clear Hv as [|? ? Hvi Hvl]. cbn in Hnd. apply NoDup_cons in Hnd as [Hni Hnd].
  destruct (item_meaning fuel tc' (IH tc') a item a') as [<- Hkeep]; [done| |done|].
  { intros E. apply Hnot. rewrite <- E. left. }
  apply IHl; [done..| |done]. intros Hin. rewrite Hkeep; [apply Hnot; by right|].
  intros E. by rewrite E in Hni.
Qed.
End meaning.

(** ** A list inside a nested object *)

Lemma nested_or res field l ops tc view :
  plain_dict (PDict ops) = true →
  _is_nested_object_filter res field [("OR", PList l); ("name", PDict ops)] tc view
  = _is_nested_object_filter res field [("name", PDict ops)] tc view.
Proof.
  intros H. unfold _is_nested_object_filter. cbn zeta. cbn [existsb fst snd].
  change (plain_dict (PList l)) with false. rewrite H.
  reflexivity.
Qed.

Lemma nested_no_direct res field ops tc view use_fk :
  plain_dict (PDict ops) = true →
  _is_nested_object_filter res field [("name", PDict ops)] tc view ≠ Ok (false, use_fk).
Proof.
  intros H. unfold _is_nested_object_filter. cbn zeta. cbn [existsb fst snd]. rewrite H.
  set (b := _ || _). change b with false. cbn [orb negb].
  repeat case_match; congruence.
Qed.

(** ** Theorems *)

(** The walk terminates: with more fuel than the dictionary has entries and
    list elements the recursion is never exhausted, and the result does not depend
    on the fuel. *)
Theorem normalize_dict_where_terminates fuel res view jsonb tc w :
  size w < fuel →
  normalize_dict_where fuel res view jsonb tc w ≠ Err RecursionError
  ∧ ∀ fuel', size w < fuel' →
      normalize_dict_where fuel' res view jsonb tc w = normalize_dict_where fuel res view jsonb tc w.
Proof.
  intros H. split; [|intros fuel' H'; by apply normalize_fuel].
  apply normalize_avoids; [done..| |done]. intros. apply nested_no_recursion.
Qed.

(** Every condition of a normalised dictionary passes its checks, has an
    operand, and is resolved to a place the view has: its JSONB column under the
    field's own path, a known column (any field when no column is known or the
    view is flat, a vector operator on any view), or the key column of a declared
    or conventional foreign key. *)
Theorem normalize_dict_where_resolves fuel res view jsonb tc w c :
  normalize_dict_where fuel res view jsonb tc w = Ok c →
  valid c ∧ each (resolved res view jsonb (columns_of res view tc)) c.
Proof. apply normalize_resolved. Qed.

(** The clause means what the dictionary says: whatever the conditions' truth,
    the clause holds exactly when all items of the dictionary do, [OR] reading as
    one of its list, [AND] as all, [NOT] as the negation of its dictionary, and a
    field as all of its conditions, at every depth. *)
Theorem normalize_dict_where_meaning fuel res view jsonb tc sat w c :
  distinct_keys w → normalize_dict_where fuel res view jsonb tc w = Ok c →
  holds sat c = asks res view jsonb sat fuel tc w.
Proof. intros Hd Hc. by destruct (normalize_means res view jsonb sat fuel tc w c Hd Hc). Qed.

(** A list under a key of a nested object is not part of the filter: [OR]
    beside another filter of a nested object is dropped, and the clause is the one
    of the object without it. *)
Theorem nested_or_is_dropped fuel res view jsonb tc field l ops :
  logical field = false → plain_dict (PDict ops) = true →
  normalize_dict_where fuel res view jsonb tc
    (PDict [(field, PDict [("OR", PList l); ("name", PDict ops)])])
  = normalize_dict_where fuel res view jsonb tc (PDict [(field, PDict [("name", PDict ops)])]).
Proof.
  intros (H1 & H2 & H3)%logical_cases Hops. destruct fuel as [|fuel]; [done|].
  cbn [normalize_dict_where]. change (negb (Py.truthy (PDict [_]))) with false. cbn iota zeta.
  set (tc' := columns_of res view tc). f_equal. cbn [foldR]. unfold item_step. rewrite H1, H2, H3.
  f_equal. unfold field_step. destruct (_reject_operator_suffix_key _ _ _ _); [|done].
  cbn [mbind result_bind]. cbn zeta.
  change (_fold_vector_filter [("OR", PList l); ("name", PDict ops)])
    with (Ok [("OR", PList l); ("name", PDict ops)]).
  change (_fold_vector_filter [("name", PDict ops)]) with (Ok [("name", PDict ops)]).
  cbn [mbind result_bind]. rewrite nested_or by done.
  destruct (_is_nested_object_filter _ _ _ _ _) as [[[] use_fk]|] eqn:Hn; [|by apply nested_no_direct in Hn|done].
  by destruct use_fk.
Qed.

(** ** A concrete view and filter *)

Definition example_metadata : metadata :=
  {| columns := ["id"; "status"; "machine_id"; "data"]; has_jsonb_data := true;
     jsonb_column := Some "data"; fk_relationships := [("machine", "machine_id")];
     validate_fk_strict := true; aggregation_of := None; column_mapping := [] |}.

Definition example_resolver : resolver :=
  {| metadata_of := λ v, if v =s "tv_allocation" then Some example_metadata else None;
     declared_fields := λ _, [] |}.

(** A column, a foreign key, and an OR of a deep JSONB field and a negation. *)
Definition example_filter : pyval :=
  PDict
    [("status", PStr "active");
     ("machine", PDict [("id", PDict [("eq", PUUID "u")]); ("name", PDict [("contains", PStr "P")])]);
     ("OR", PList
        [PDict [("device", PDict [("network", PDict [("ipAddress", PDict [("isPrivate", PBool true)])])])];
         PDict [("NOT", PDict [("createdAt", PDict [("gte", PStr "2024-01-01"); ("lt", PNone)])])]])].

Definition example_normalized : where_clause :=
  Eval vm_compute in
    match normalize_dict_where 20 example_resolver "tv_allocation" "data" None example_filter with
    | Ok c => c
    | Err _ => Clause [] "AND" [] None
    end.

Lemma example_normalizes :
  normalize_dict_where 20 example_resolver "tv_allocation" "data" None example_filter
  = Ok example_normalized.
Proof. vm_compute. reflexivity. Qed.

Ltac check_keys :=
  repeat first
    [ apply distinct_dict; [apply (bool_decide_unpack _); vm_compute; exact I|]
    | apply distinct_list | apply Forall_nil_2 | apply Forall_cons_2
    | apply distinct_other; intros; discriminate
    | cbn [snd] ].

Lemma normalize_dict_where_terminates_witness :
  size example_filter < 20
  ∧ normalize_dict_where 20 example_resolver "tv_allocation" "data" None example_filter
    ≠ Err RecursionError.
Proof.
  split; [vm_compute; lia|].
  apply (normalize_dict_where_terminates 20 example_resolver "tv_allocation" "data" None example_filter).
  vm_compute. lia.
Defined.

Lemma normalize_dict_where_resolves_witness :
  length (all_conditions example_normalized) = 5
  ∧ each (resolved example_resolver "tv_allocation" "data" (Some (columns example_metadata)))
      example_normalized.
Proof.
  split; [reflexivity|].
  apply (normalize_dict_where_resolves 20 example_resolver "tv_allocation" "data" None example_filter).
  exact example_normalizes.
Defined.

Lemma normalize_dict_where_meaning_witness :
  (** status and the key hold, the address does not, no row is as new as asked. *)
  let sat c := operator c in_ ["eq"; "contains"] in
  holds sat example_normalized
  = asks example_resolver "tv_allocation" "data" sat 20 None example_filter
  ∧ holds sat example_normalized = true.
Proof.
  cbn zeta. split; [|reflexivity].
  apply (normalize_dict_where_meaning 20 example_resolver "tv_allocation" "data" None);
    [check_keys|exact example_normalizes].
Defined.

Lemma nested_or_is_dropped_witness :
  let name := ("name", PDict [("eq", PStr "x")]) in
  let status := PDict [("status", PDict [("eq", PStr "active")])] in
  normalize_dict_where 20 example_resolver "tv_allocation" "data" None
    (PDict [("device", PDict [("OR", PList [status]); name])])
  = normalize_dict_where 20 example_resolver "tv_allocation" "data" None
      (PDict [("device", PDict [name])])
  ∧ normalize_dict_where 20 example_resolver "tv_allocation" "data" None
      (PDict [("device", PDict [name])])
    = Ok (Clause [on_path ["device"; "name"] "eq" (PStr "x")] "AND" [] None).
Proof.
  cbn zeta. split; [|reflexivity].
  apply (nested_or_is_dropped 20 example_resolver "tv_allocation" "data" None); reflexivity.
Defined.
