(* ===== verification/ValueFree.v ===== *)
(** * Values do not decide what is asked

    Two filter dictionaries with the same keys and values of the same shape are
    normalised to the same tree but for the values, or refused alike. *)
From stdpp Require Import base decidable strings list.
From Stdlib Require Import ZArith Lia Ascii.
From S2P Require Import Prelude PyVal Sql Shape OpBase OpLaws FieldCondition FieldLaws WhereClause Casing Views Normalize Meaning.

Local Open Scope py_scope.

(** ** Results that agree *)

Definition agree {A B} (R : A → B → Prop) (x : result A) (y : result B) : Prop :=
  match x, y with
  | Ok a, Ok b => R a b
  | Err e, Err e' => e = e'
  | _, _ => False
  end.

Lemma agree_bind {A A' B B'} (R : A → A' → Prop) (S : B → B' → Prop) x x' f f' :
  agree R x x' → (∀ a a', R a a' → agree S (f a) (f' a')) → agree S (x ≫= f) (x' ≫= f').
Proof. destruct x, x'; cbn; [|done|done|congruence]. intros H Hf. by apply Hf. Qed.

Lemma agree_foldR {A A' B B'} (R : A → A' → Prop) (S : B → B' → Prop) f f' acc acc' l l' :
  R acc acc' → Forall2 S l l' →
  (∀ a a' x x', R a a' → S x x' → agree R (f a x) (f' a' x')) →
  agree R (foldR f acc l) (foldR f' acc' l').
Proof.
  intros Ha Hl Hf. revert acc acc' Ha. induction Hl as [|x x' l l' Hx _ IH]; intros acc acc' Ha.
  - done.
  - cbn. apply (agree_bind R); [by apply Hf|]. intros a a'. apply IH.
Qed.

Lemma agree_mapR {A A' B B'} (R : A → A' → Prop) (S : B → B' → Prop) f f' l l' :
  Forall2 R l l' → (∀ x x', R x x' → agree S (f x) (f' x')) →
  agree (Forall2 S) (mapR f l) (mapR f' l').
Proof.
  intros Hl Hf. induction Hl as [|x x' l l' Hx _ IH]; [constructor|]. cbn.
  apply (agree_bind S); [by apply Hf|]. intros a a' Ha.
  apply (agree_bind (Forall2 S)); [exact IH|]. intros k k' Hk. by constructor.
Qed.

Lemma agree_eq {A} (x y : result A) : x = y → agree eq x y.
Proof. intros ->. by destruct y. Qed.

(** ** Values of the same shape *)

(** Dictionaries with the same keys and values of the same shape. *)
Definition alike_item (kv kv' : string * pyval) : Prop := kv.1 = kv'.1 ∧ alike kv.2 kv'.2.
Notation alike_items := (Forall2 alike_item).

Lemma alike_items_iff d d' : alike (PDict d) (PDict d') ↔ alike_items d d'.
Proof.
  unfold alike. cbn [shape]. split.
  - intros [= H]. revert d' H. induction d as [|kv d IH]; intros [|kv' d'] [=]; constructor; auto.
    by split.
  - intros H. f_equal. induction H as [|kv kv' d d' [E1 E2] _ IH]; [done|]. cbn.
    rewrite E1, IH. by rewrite E2.
Qed.

Lemma alike_none v v' : alike v v' → Py.is_none v = Py.is_none v'.
Proof. by destruct v, v'; intros [=]. Qed.

Lemma alike_existsb (f g : string * pyval → bool) d d' :
  (∀ kv kv', alike_item kv kv' → f kv = g kv') → alike_items d d' → existsb f d = existsb g d'.
Proof. intros Hf. induction 1 as [|kv kv' d d' H _ IH]; [done|]. cbn. by rewrite (Hf _ _ H), IH. Qed.

Lemma alike_plain v v' : alike v v' → plain_dict v = plain_dict v'.
Proof.
  destruct v as [| | | | | | | | | | |d| |], v' as [| | | | | | | | | | |d'| |]; try by intros [=].
  intros H%alike_items_iff. unfold plain_dict. f_equal. apply alike_existsb; [|done].
  by intros [k u] [k' u'] [[= ->] _].
Qed.

Lemma alike_keys d d' : alike_items d d' → d.*1 = d'.*1.
Proof. induction 1 as [|kv kv' d d' [E _] _ IH]; [done|]. cbn. by rewrite E, IH. Qed.

Lemma alike_has k d d' : alike_items d d' → dict_has k d = dict_has k d'.
Proof.
  intros H%alike_items_iff. unfold dict_has. by destruct (alike_dict d d' k H).
Qed.

Lemma alike_set k v v' d d' :
  alike v v' → alike_items d d' → alike_items (dict_set k v d) (dict_set k v' d').
Proof.
  intros Hv. induction 1 as [|[k1 v1] [k2 v2] d d' [[= ->] H] Hd IH]; cbn.
  - by repeat constructor.
  - case_decide; (constructor; [by split|done]).
Qed.

Lemma alike_has_attr k v v' : alike v v' → has_attr k v = has_attr k v'.
Proof. intros H%(alike_attr k). unfold has_attr. by destruct H. Qed.

Lemma alike_attr_or_none k v v' :
  alike v v' → alike (default PNone (Py.attr k v)) (default PNone (Py.attr k v')).
Proof. intros H%(alike_attr k). by destruct H. Qed.

(** ** Vector filters *)

Lemma alike_fold_value t t' v v' :
  alike t t' → alike v v' → agree alike (fold_vector_value t v) (fold_vector_value t' v').
Proof.
  intros Ht Hv. unfold fold_vector_value. cbn zeta. rewrite <- (alike_none _ _ Ht).
  set (u := if _ : bool then PDict _ else v). set (u' := if _ : bool then PDict _ else v').
  assert (alike u u') as Hu.
  { unfold u, u'. rewrite <- (alike_has_attr "dense" _ _ Hv), <- (alike_has_attr "sparse" _ _ Hv).
    destruct (_ || _); [|done]. apply alike_items_iff.
    repeat constructor; by apply alike_attr_or_none. }
  clearbody u u'. clear Hv. apply (agree_bind alike).
  - destruct u as [| | | | | | | | | | |d| |], u' as [| | | | | | | | | | |d'| |];
      try discriminate Hu; try exact Hu.
    + destruct (Py.is_none t); [done|]. apply alike_items_iff. by repeat constructor.
    + destruct (Py.is_none t); [done|]. apply alike_items_iff. by repeat constructor.
    + pose proof (alike_get "dense" _ _ Hu) as Hd. apply alike_items_iff in Hu as Hi.
      rewrite <- (alike_has "dense" _ _ Hi), <- (alike_has "sparse" _ _ Hi).
      destruct (_ || _); [|exact Hu].
      destruct (Py.get "dense" d), (Py.get "dense" d'); try discriminate Hd; try done;
        (destruct (Py.is_none t); [done|]; apply alike_items_iff; by repeat constructor).
  - clear u u' Hu. intros u u' Hu.
    destruct u as [| | | | | | | | | | |d| |], u' as [| | | | | | | | | | |d'| |];
      try discriminate Hu; try exact Hu.
    apply alike_items_iff in Hu as Hi. rewrite <- (alike_has "threshold" _ _ Hi).
    destruct (_ && _); [|exact Hu]. apply alike_items_iff. by repeat apply alike_set.
Qed.

Lemma alike_fold d d' :
  alike_items d d' → agree alike_items (_fold_vector_filter d) (_fold_vector_filter d').
Proof.
  intros H. unfold _fold_vector_filter. cbn zeta.
  assert (map (λ kv, (_normalize_operator kv.1, kv.1)) d
          = map (λ kv, (_normalize_operator kv.1, kv.1)) d') as <-.
  { induction H as [|kv kv' d d' [E _] _ IH]; [done|]. cbn. by rewrite E, IH. }
  destruct (negb _); [exact H|].
  apply alike_items_iff in H as Hd.
  apply (agree_foldR alike_items eq); [done|by apply list_eq_Forall2|].
  intros a a' [op key] _ Ha <-. unfold fold_vector_item.
  destruct (op =s "distance_within"); [exact Ha|].
  pose proof (alike_get key _ _ Hd) as Hk. rewrite <- (alike_none _ _ Hk).
  destruct (_ || _); [by apply alike_set|].
  apply (agree_bind alike); [apply alike_fold_value; [by apply alike_get|done]|].
  intros v v' Hv. by apply alike_set.
Qed.

Lemma alike_nested res field d d' tc view :
  alike_items d d' →
  _is_nested_object_filter res field d tc view = _is_nested_object_filter res field d' tc view.
Proof.
  intros H. unfold _is_nested_object_filter. cbn zeta.
  assert (match dict_get "id" d with
          | Some (PDict _) => if known tc (field +:+ "_id")%stdpp then (true, true) else (true, false)
          | _ => (true, false)
          end = match dict_get "id" d' with
          | Some (PDict _) => if known tc (field +:+ "_id")%stdpp then (true, true) else (true, false)
          | _ => (true, false)
          end) as ->.
  { apply alike_items_iff in H. destruct (alike_dict d d' "id" H) as [v v' Hv|]; [|done].
    by destruct v, v'. }
  rewrite (alike_existsb _ (λ kv, dict_has kv.1 VECTOR_OPERATORS
    || dict_has (_normalize_operator kv.1) LTREE_INDEX_COMPARISONS
    || (_normalize_operator kv.1 =s "distance_within")) d d'); [|by intros [] [] [[= ->] _]|done].
  rewrite (alike_existsb _ (λ kv, plain_dict kv.2) d d'); [done| |done].
  intros kv kv' [_ Hv]. by apply alike_plain.
Qed.

(** ** Conditions and clauses *)

Definition alike_condition (c c' : field_condition) : Prop :=
  c' = with_value c (value c') ∧ alike (value c) (value c').

(** The conditions of the operators: as many, alike. *)
Lemma alike_operators mk d d' :
  (∀ op v v', alike v v' → alike_condition (mk op v) (mk op v')) → alike_items d d' →
  agree (Forall2 alike_condition) (operator_conditions mk d) (operator_conditions mk d').
Proof.
  intros Hmk Hd. unfold operator_conditions. apply (agree_mapR alike_item).
  - induction Hd as [|kv kv' d d' [E Hv] _ IH]; [constructor|]. cbn.
    rewrite <- (alike_none _ _ Hv). destruct (negb _); [|exact IH]. by constructor.
  - intros [k v] [k' v'] [[= <-] Hv]. cbn [fst snd] in *.
    destruct (Hmk (_normalize_operator k) _ _ Hv) as [E Ha]. rewrite E.
    unfold FieldCondition.__post_init__. unfold with_value.
    cbn [operator lookup_strategy jsonb_path field_path].
    destruct (negb (dict_has _ _)); [done|]. destruct (negb _); [done|].
    destruct (_ && _); [done|]. destruct (bool_decide _); [done|]. by split.
Qed.

Definition alike_parts (a a' : collected) : Prop :=
  Forall2 alike_condition (conditions a) (conditions a')
  ∧ Forall2 alike_clause (nested_clauses a) (nested_clauses a')
  ∧ option_Forall2 alike_clause (not_clause a) (not_clause a').

Lemma alike_add_conditions a a' cs cs' :
  alike_parts a a' → Forall2 alike_condition cs cs' →
  alike_parts (add_conditions a cs) (add_conditions a' cs').
Proof. intros (H1 & H2 & H3) H. split_and!; [by apply Forall2_app|done..]. Qed.

Lemma alike_add_nested a a' ws ws' :
  alike_parts a a' → Forall2 alike_clause ws ws' →
  alike_parts (add_nested a ws) (add_nested a' ws').
Proof. intros (H1 & H2 & H3) H. split_and!; [done|by apply Forall2_app|done]. Qed.

Lemma alike_prepend name c c' :
  alike_condition c c' → alike_condition (prepend name c) (prepend name c').
Proof. intros [E H]. split; [|done]. rewrite E. done. Qed.

Lemma alike_prepend_clause name w w' :
  alike_clause w w' → alike_clause (prepend_clause name w) (prepend_clause name w').
Proof.
  inversion_clear 1 as [? ? ? ? ? ? ? Hc Hn Ho]. constructor; [|done..].
  apply Forall2_fmap. eapply Forall2_impl; [exact Hc|]. intros c c' H. by apply alike_prepend.
Qed.

Lemma alike_clause_init w w' :
  alike_clause w w' → agree alike_clause (WhereClause.__post_init__ w) (WhereClause.__post_init__ w').
Proof.
  intros H. inversion H as [? ? ? ? ? ? ? Hc Hn Ho]; subst. unfold WhereClause.__post_init__.
  destruct (negb _); [done|]. by destruct Hc, Hn, Ho.
Qed.

Section walk.
Context (res : resolver) (view jsonb : string) (tc : option (list string)).
Context (rec : pyval → result where_clause).
Context (Hrec : ∀ w w', alike w w' → agree alike_clause (rec w) (rec w')).

Lemma alike_jsonb_condition path op v v' :
  alike v v' → alike_condition (jsonb_condition jsonb path op v) (jsonb_condition jsonb path op v').
Proof using Type. by split. Qed.

Lemma alike_fk_field field a a' kv kv' :
  alike_parts a a' → alike_item kv kv' →
  agree alike_parts (fk_field jsonb field a kv) (fk_field jsonb field a' kv').
Proof using Type.
  intros Ha [E Hv]. unfold fk_field. cbn zeta. rewrite <- E.
  destruct (kv.2) as [| | | | | | | | | | |d| |], (kv'.2) as [| | | | | | | | | | |d'| |];
    try discriminate Hv; try exact Ha.
  apply (agree_bind (Forall2 alike_condition)); [|intros; by apply alike_add_conditions].
  apply alike_operators; [|by apply alike_items_iff]. intros op v v' H. by destruct (_ =s "id").
Qed.

Lemma alike_jsonb_field field a a' kv kv' :
  alike_parts a a' → alike_item kv kv' →
  agree alike_parts (jsonb_field jsonb rec field a kv) (jsonb_field jsonb rec field a' kv').
Proof using Hrec.
  intros Ha [E Hv]. unfold jsonb_field. cbn zeta. rewrite <- E.
  destruct (kv.2) as [| | | | | | | | | | |d| |] eqn:Ed, (kv'.2) as [| | | | | | | | | | |d'| |] eqn:Ed';
    try discriminate Hv; try exact Ha.
  apply alike_items_iff in Hv as Hd. rewrite (alike_existsb _ (λ kv, plain_dict kv.2) d d');
    [|intros ? ? [_ ?]; by apply alike_plain|done].
  destruct (existsb _ d').
  - apply (agree_bind alike_clause).
    { apply Hrec, alike_items_iff. constructor; [|constructor]. by split. }
    intros w w' Hw. inversion Hw as [? ? ? ? ? ? ? Hc Hn Ho]; subst.
    destruct Ha as (H1 & H2 & H3). split_and!; cbn.
    + apply Forall2_app; [done|]. apply Forall2_fmap. eapply Forall2_impl; [exact Hc|].
      intros c c' H. by apply alike_prepend.
    + apply Forall2_app; [done|]. apply Forall2_fmap. eapply Forall2_impl; [exact Hn|].
      intros c c' H. by apply alike_prepend_clause.
    + destruct Ho; [|done]. constructor. by apply alike_prepend_clause.
  - apply (agree_bind (Forall2 alike_condition)); [|intros; by apply alike_add_conditions].
    by apply alike_operators.
Qed.

Lemma alike_field_step a a' name v v' :
  alike_parts a a' → alike v v' →
  agree alike_parts (field_step res view jsonb tc rec a name v)
    (field_step res view jsonb tc rec a' name v').
Proof using Hrec.
  intros Ha Hv. unfold field_step. destruct (_reject_operator_suffix_key _ _ _ _); [|done].
  cbn [mbind result_bind]. cbn zeta. set (f := database_name name). clearbody f.
  apply (agree_bind alike_items).
  { apply alike_fold. destruct v, v'; try discriminate Hv; try (constructor; [by split|constructor]).
    by apply alike_items_iff. }
  intros d d' Hd. rewrite (alike_nested _ _ _ _ _ _ Hd).
  destruct (_is_nested_object_filter _ _ _ _ _) as [[[] []]|]; cbn; [| | | |done].
  - apply (agree_foldR alike_parts alike_item); [done..|]. intros. by apply alike_fk_field.
  - apply (agree_foldR alike_parts alike_item); [done..|]. intros. by apply alike_jsonb_field.
  - apply (agree_bind (Forall2 alike_condition)); [|intros; by apply alike_add_conditions].
    apply alike_operators; [|done]. intros op u u' Hu. by destruct (_ && _).
  - apply (agree_bind (Forall2 alike_condition)); [|intros; by apply alike_add_conditions].
    apply alike_operators; [|done]. intros op u u' Hu. by destruct (_ && _).
Qed.

Lemma alike_item_step a a' kv kv' :
  alike_parts a a' → alike_item kv kv' →
  agree alike_parts (item_step res view jsonb tc rec a kv) (item_step res view jsonb tc rec a' kv').
Proof using Hrec.
  intros Ha [E Hv]. destruct kv as [name v], kv' as [name' v']. cbn in E, Hv. subst name'.
  unfold item_step. destruct (name =s "OR").
  { destruct v as [| | | | | | | | |l| | | |], v' as [| | | | | | | | |l'| | | |];
      try discriminate Hv; try exact Ha.
    apply alike_list in Hv. apply (agree_bind (Forall2 alike_clause)).
    - by apply (agree_mapR alike).
    - intros ws ws' Hws. pose proof Hws as Hws'. destruct Hws as [|w w' ws ws' Hw Hws]; [exact Ha|].
      apply (agree_bind alike_clause);
        [apply alike_clause_init; constructor; [done|by constructor|constructor]|].
      intros c c' Hc. apply alike_add_nested; [done|by repeat constructor]. }
  destruct (name =s "AND").
  { destruct v as [| | | | | | | | |l| | | |], v' as [| | | | | | | | |l'| | | |];
      try discriminate Hv; try exact Ha.
    apply alike_list in Hv. apply (agree_foldR alike_parts alike); [done..|].
    intros b b' x x' Hb Hx. apply (agree_bind alike_clause); [by apply Hrec|].
    intros w w' Hw. pose proof Hw as Hw'. inversion Hw' as [? ? ? ? ? ? ? Hc Hn Ho]; subst.
    destruct Hn; [destruct Ho|]; try (apply alike_add_nested; [done|by constructor; [|constructor]]).
    by apply alike_add_conditions. }
  destruct (name =s "NOT").
  { destruct v as [| | | | | | | | | | |d| |], v' as [| | | | | | | | | | |d'| |];
      try discriminate Hv; try exact Ha.
    apply (agree_bind alike_clause); [by apply Hrec|]. intros w w' Hw.
    destruct Ha as (H1 & H2 & _). split_and!; [done..|by constructor]. }
  by apply alike_field_step.
Qed.
End walk.

Lemma alike_normalize fuel res view jsonb tc w w' :
  alike w w' →
  agree alike_clause (normalize_dict_where fuel res view jsonb tc w)
    (normalize_dict_where fuel res view jsonb tc w').
Proof.
  revert tc w w'. induction fuel as [|fuel IH]; intros tc w w' H; [done|].
  cbn [normalize_dict_where]. rewrite <- (alike_truthy _ _ H). destruct (negb _); [done|].
  destruct w as [| | | | | | | | | | |d| |], w' as [| | | | | | | | | | |d'| |];
    try discriminate H; try done.
  cbn zeta. apply alike_items_iff in H. apply (agree_bind alike_parts).
  - apply (agree_foldR alike_parts alike_item); [|done|].
    + split_and!; constructor.
    + intros. apply alike_item_step; [|done..]. intros u u' Hu. by apply IH.
  - intros a a' (H1 & H2 & H3). apply alike_clause_init. by constructor.
Qed.

Section annotate.
Context (classes : string → class_info) (source_type : string).

Lemma alike_annotate_condition c c' :
  alike_condition c c' →
  alike_condition (annotate_condition classes source_type c) (annotate_condition classes source_type c').
Proof using Type.
  intros [E H]. split.
  - rewrite E. unfold annotate_condition. cbn [temporal_cast with_value]. by destruct (temporal_cast c).
  - unfold annotate_condition. by destruct (temporal_cast c), (temporal_cast c').
Qed.

Lemma alike_annotate w w' :
  alike_clause w w' →
  alike_clause (annotate_tree classes source_type w) (annotate_tree classes source_type w').
Proof using Type.
  revert w'. induction w as [cs op nested not IHn IHo] using where_ind'. intros w' H.
  inversion H as [? ? ? ? nested' ? not' Hc Hn Ho]; subst. cbn. constructor.
  - apply Forall2_fmap. eapply Forall2_impl; [exact Hc|]. intros c c' Ha.
    by apply alike_annotate_condition.
  - clear -IHn Hn. induction Hn as [|x x' nested nested' Hx _ IH]; [constructor|].
    inversion_clear IHn as [|? ? Hi IHn']. cbn. constructor; [by apply Hi|by apply IH].
  - destruct Ho as [x x' Hx|]; constructor. by apply IHo.
Qed.
End annotate.

(** ** Theorem *)

(** C13. No text of a filter reaches the SQL: two dictionaries with the same keys
    and values of the same shape are refused alike, or are normalised (on a view
    without column mapping) to clauses whose SQL, where both are rendered, has the same
    texts, whatever the values. *)
Theorem filter_values_stay_parameters fuel st fields classes view tc w w' :
  alike w w' → _view_column_mapping st view = [] →
  match _normalize_where fuel st fields classes w view tc,
        _normalize_where fuel st fields classes w' view tc with
  | Ok c, Ok c' =>
      ∀ env s ps s' ps', to_sql env c = Ok (Some s, ps) → to_sql env c' = Ok (Some s', ps') →
        raw_texts s = raw_texts s'
  | Err e, Err e' => e = e'
  | _, _ => False
  end.
Proof.
  intros H Hm.
  enough (agree alike_clause (_normalize_where fuel st fields classes w view tc)
            (_normalize_where fuel st fields classes w' view tc)) as Ha.
  { unfold agree in Ha. destruct (_normalize_where _ _ _ _ w _ _) as [c|];
      destruct (_normalize_where _ _ _ _ w' _ _) as [c'|]; try done.
    intros env s ps s' ps' Hs Hs'. pose proof (clause_same _ _ _ _ _ Ha Hs Hs') as Hr.
    by inversion Hr. }
  unfold _normalize_where.
  destruct w as [| | | | | | | | | | |d| |], w' as [| | | | | | | | | | |d'| |];
    try discriminate H; try done.
  apply (agree_bind alike_clause); [by apply alike_normalize|]. intros c c' Hc.
  unfold _apply_view_column_mapping. rewrite Hm. cbn.
  destruct (dict_get view (type_registry st)); [|done]. by apply alike_annotate.
Qed.

Definition example_views : views :=
  {| type_registry := [("tv_allocation", "Allocation")];
     table_metadata := [("tv_allocation", example_metadata)] |}.

(** [createdAt] is declared a date. *)
Definition example_classes (name : string) : class_info :=
  if name =s "Allocation" then
    {| type_hints := Some [("created_at", AnnUnion [AnnClass "date"; AnnNone])];
       bases := ["Allocation"] |}
  else {| type_hints := Some []; bases := [name] |}.

Definition text_filter (s t : string) : pyval :=
  PDict [("status", PStr s); ("OR", PList [PDict [("device", PDict [("name", PDict [("contains", PStr t)])])];
                                           PDict [("createdAt", PDict [("gte", PStr t)])]])].

Lemma filter_values_stay_parameters_witness :
  let normal s t :=
    _normalize_where 20 example_views (λ _, []) example_classes (text_filter s t) "tv_allocation" None in
  match normal "active" "Printer", normal "'; DROP TABLE users --" "%s" with
  | Ok c, Ok c' =>
      ∀ env s ps s' ps', to_sql env c = Ok (Some s, ps) → to_sql env c' = Ok (Some s', ps') →
        raw_texts s = raw_texts s'
  | Err e, Err e' => e = e'
  | _, _ => False
  end
  ∧ (c ← normal "active" "Printer"; to_sql example_env c)
    = Ok (Some (Join " AND "
        [Composed [Identifier "status"; SQL " = "; SQL "%s"];
         Composed [SQL "("; Join " OR "
           [Composed [SQL "("; Composed [jsonb_expr "data" ["device"; "name"]; SQL " LIKE "; SQL "%s"];
                      SQL ")"];
            Composed [SQL "("; Composed [SQL "("; jsonb_expr "data" ["created_at"]; SQL ")::date";
                                         SQL " >= %s::date"]; SQL ")"]];
           SQL ")"]]), [PStr "active"; PStr "%Printer%"; PStr "Printer"]).
Proof.
  cbn zeta. split; [|vm_compute; reflexivity].
  apply (filter_values_stay_parameters 20 example_views (λ _, []) example_classes "tv_allocation" None
    (text_filter "active" "Printer") (text_filter "'; DROP TABLE users --" "%s")); reflexivity.
Defined.
