(* ===== verification/ViewLaws.v ===== *)
(** * Laws of the registered views

    What registration promises the filters: no declared column is found missing
    when a filter is normalised, and the SQL reads the view's own columns. *)
From stdpp Require Import base decidable strings list sets.
From Stdlib Require Import ZArith Lia Ascii.
From S2P Require Import Prelude PyVal Sql Shape OpBase SqlBuilder FieldCondition FieldLaws WhereClause Casing Views Normalize NormalizeLaws Meaning.

Local Open Scope py_scope.

(** The registries a program reaches: any sequence of registrations, raising ones
    included. *)
Inductive registered : views → Prop :=
| no_views : registered {| type_registry := []; table_metadata := [] |}
| one_more st view cls cols jd jc fks strict agg mapping :
    registered st →
    registered (register_type_for_view st view cls cols jd jc fks strict agg mapping).1.

Lemma registered_ok st : registered st → views_ok st.
Proof.
  induction 1 as [|st view cls cols jd jc fks strict agg mapping _ IH].
  - by intros view m.
  - by apply register_views_ok.
Qed.

(** ** The column mapping of a view *)

Lemma dict_set_forall {V} (P : string * V → Prop) k v d :
  P (k, v) → Forall P d → Forall P (dict_set k v d).
Proof.
  intros Hk Hd. apply Forall_forall. intros x [->|Hx]%dict_set_elem; [done|].
  by eapply Forall_forall in Hd.
Qed.

Lemma dict_of_forall {V} (P : string * V → Prop) (d : list (string * V)) :
  Forall P d → Forall P (dict_of d).
Proof.
  unfold dict_of. enough (∀ acc, Forall P acc → Forall P d →
    Forall P (foldl (λ d kv, dict_set kv.1 kv.2 d) acc d)) as H by (intros; by apply H).
  induction d as [|[k v] d IH]; intros acc Ha Hd; cbn; [done|].
  inversion_clear Hd as [|? ? Hk Hd']. apply IH; [by apply dict_set_forall|done].
Qed.

(** In strict mode every column of the mapping is registered. *)
Lemma view_mapping_ok st view m :
  views_ok st → dict_get view (table_metadata st) = Some m → validate_fk_strict m = true →
  columns m ≠ [] → Forall (λ kv, kv.2 ∈ columns m) (_view_column_mapping st view).
Proof.
  intros Hst Hm Hs Hc. destruct (Hst _ _ Hm Hs Hc) as (_ & H1 & H2).
  unfold _view_column_mapping. rewrite Hm. apply dict_of_forall, Forall_app. split; [|done].
  by destruct (aggregation_of m).
Qed.

(** ** Steps over all conditions of a clause *)

(** The same clause with related conditions. *)
Inductive clause_rel (R : field_condition → field_condition → Prop) : where_clause → where_clause → Prop :=
| clause_rel_intro cs cs' op nested nested' not not' :
    Forall2 R cs cs' → Forall2 (clause_rel R) nested nested' →
    option_Forall2 (clause_rel R) not not' →
    clause_rel R (Clause cs op nested not) (Clause cs' op nested' not').

Lemma mapR_rel {A B} (R : A → B → Prop) (f : A → result B) l k :
  (∀ x y, f x = Ok y → R x y) → mapR f l = Ok k → Forall2 R l k.
Proof. intros Hf Hk%mapR_Ok. eapply Forall2_impl; [exact Hk|]. exact Hf. Qed.

Lemma map_tree_rel (R : field_condition → field_condition → Prop) f w w' :
  (∀ c c', f c = Ok c' → R c c') → map_tree f w = Ok w' → clause_rel R w w'.
Proof.
  intros Hf. revert w'. induction w as [cs op nested not IHn IHo] using where_ind'. intros w'.
  cbn [map_tree]. intros (cs' & Hcs & H)%bind_Ok. apply bind_Ok in H as (ns & Hns & H).
  apply bind_Ok in H as (o & Ho & H). apply clause_init_id in H as ->. constructor.
  - by eapply mapR_rel.
  - apply mapR_Ok in Hns. clear -IHn Hns. induction Hns as [|x y l k Hx _ IH]; [constructor|].
    inversion_clear IHn as [|? ? Hi IHn']. constructor; [by apply Hi|by apply IH].
  - destruct not as [n|]; [|injection Ho as <-; constructor].
    apply bind_Ok in Ho as (n' & Hn' & [= <-]). constructor. by apply IHo.
Qed.

Lemma map_tree_avoids f w e :
  e ≠ ValueError → (∀ c, f c ≠ Err e) → map_tree f w ≠ Err e.
Proof.
  intros He Hf. induction w as [cs op nested not IHn IHo] using where_ind'. cbn [map_tree].
  apply bind_avoids; [by apply mapR_avoids|]. intros cs' _.
  apply bind_avoids.
  - apply mapR_avoids. intros x Hx. by eapply Forall_forall in IHn.
  - intros ns _. apply bind_avoids; [|intros; by apply clause_avoids].
    destruct not as [n|]; [|done]. apply bind_avoids; [by apply IHo|done].
Qed.

(** What the mapping does to one condition: nothing, or its dotted path is mapped,
    and it reads that column directly. *)
Definition remapped (mapping : list (string * string)) (table_columns : option (list string))
    (strict : bool) (c c' : field_condition) : Prop :=
  match dict_get (Str.join "." (field_path c)) mapping with
  | None => c' = c
  | Some column =>
      (c' = c ∧ strict = false ∧ known table_columns column = false)
      ∨ (target_column c' = column ∧ jsonb_path c' = None
         ∧ lookup_strategy c' ∈ ["fk_column"; "sql_column"]
         ∧ field_path c' = field_path c ∧ operator c' = operator c ∧ value c' = value c
         ∧ match table_columns with
           | Some ((_ :: _) as cols) => column ∈ cols
           | _ => True
           end)
  end.

Lemma mapped_strategy column v : _mapped_lookup_strategy column v ∈ ["fk_column"; "sql_column"].
Proof. unfold _mapped_lookup_strategy. repeat case_match; set_solver. Qed.

Lemma map_condition_remapped mapping cols strict c c' :
  _map_condition mapping cols strict c = Ok c' → remapped mapping cols strict c c'.
Proof.
  unfold _map_condition, remapped. destruct (dict_get _ mapping) as [column|]; [|by intros [= <-]].
  destruct cols as [[|k cols]|]; cbn [known].
  1, 3: intros ->%init_id; right; split_and!; try done; apply mapped_strategy.
  destruct (column in_ (k :: cols)) eqn:E; cbn [negb].
  - intros ->%init_id. right. split_and!; try done; [apply mapped_strategy|by apply str_in_true].
  - destruct strict; [done|]. intros [= <-]. by left.
Qed.

(** ** A view whose columns are known *)

Definition columns_known (st : views) (view : string) (table_columns : option (list string)) : Prop :=
  ∀ m, dict_get view (table_metadata st) = Some m → validate_fk_strict m = true →
    columns m ≠ []
    ∧ match table_columns with Some cols => columns m ⊆ cols | None => True end.

Lemma known_column st fields view tc m column :
  columns_known st view tc → dict_get view (table_metadata st) = Some m →
  validate_fk_strict m = true → column ∈ columns m →
  known (columns_of (resolver_of st fields) view tc) column = true.
Proof.
  intros Hk Hm Hs Hc. destruct (Hk _ Hm Hs) as [_ Hsub]. unfold known, columns_of.
  destruct tc as [cols|]; [by apply str_in_true, Hsub|]. cbn. rewrite Hm. by apply str_in_true.
Qed.

Lemma nested_no_runtime st fields view tc field d :
  views_ok st → columns_known st view tc →
  _is_nested_object_filter (resolver_of st fields) field d
    (columns_of (resolver_of st fields) view tc) view ≠ Err RuntimeError.
Proof.
  intros Hst Hk. unfold _is_nested_object_filter. cbn zeta.
  destruct (existsb _ d); [done|]. destruct (negb _); [done|].
  cbn [metadata_of resolver_of]. destruct (dict_get view (table_metadata st)) as [m|] eqn:Hm; [|done].
  destruct (dict_get field (fk_relationships m)) as [column|] eqn:Hf; [|done].
  destruct (known _ column) eqn:Hn; [done|]. destruct (validate_fk_strict m) eqn:Hs; [|done].
  destruct (Hst _ _ Hm Hs) as (H1 & _); [by apply (Hk m)|].
  apply dict_get_elem in Hf. eapply Forall_forall in H1; [|exact Hf].
  by rewrite (known_column _ _ _ _ m) in Hn.
Qed.

Lemma mapping_no_runtime st view tc w :
  views_ok st → columns_known st view tc →
  _apply_view_column_mapping st w view tc ≠ Err RuntimeError.
Proof.
  intros Hst Hk. unfold _apply_view_column_mapping. cbn zeta.
  destruct (_view_column_mapping st view) as [|kv mapping] eqn:Em; [done|].
  destruct (dict_get view (table_metadata st)) as [m|] eqn:Hm;
    [|unfold _view_column_mapping in Em; by rewrite Hm in Em].
  cbn [_apply_column_mapping]. apply map_tree_avoids; [done|]. intros c. unfold _map_condition.
  destruct (dict_get (Str.join _ _) _) as [column|] eqn:Hc; [|done].
  destruct (validate_fk_strict m) eqn:Hs;
    [|repeat case_match; try done; by apply condition_avoids].
  destruct (Hk m Hm Hs) as [Hne Hsub].
  pose proof (view_mapping_ok st view m Hst Hm Hs Hne) as Hall. rewrite Em in Hall.
  apply dict_get_elem in Hc. eapply Forall_forall in Hall; [|exact Hc]. cbn in Hall.
  set (cols := match tc with Some _ => tc | None => _ end).
  assert (match cols with Some ((_ :: _) as l) => negb (column in_ l) | _ => false end = false) as ->.
  { unfold cols. destruct tc as [[|k l]|]; cbn; [done| |].
    - apply negb_false_iff, str_in_true. by apply Hsub.
    - destruct (columns m) as [|k l]; [done|]. by apply negb_false_iff, str_in_true. }
  apply condition_avoids. done.
Qed.

(** ** What the steps keep *)

Lemma map_tree_valid f w w' : map_tree f w = Ok w' → valid w'.
Proof.
  revert w'. induction w as [cs op nested not IHn IHo] using where_ind'. intros w'.
  cbn [map_tree]. intros (cs' & _ & H)%bind_Ok. apply bind_Ok in H as (ns & Hns & H).
  apply bind_Ok in H as (o & Ho & H). apply clause_init_id in H as E. subst w'. constructor; [exact H| |].
  - apply mapR_Ok in Hns. clear -IHn Hns. induction Hns as [|x y l k Hx _ IH]; [constructor|].
    inversion_clear IHn as [|? ? Hi IHn']. constructor; [by apply Hi|by apply IH].
  - intros n' ->. destruct not as [n|]; [|discriminate Ho].
    apply bind_Ok in Ho as (n'' & Hn' & [= <-]). by apply (IHo n).
Qed.

Lemma each_rel (P Q : field_condition → Prop) R w w' :
  (∀ c c', P c → R c c' → Q c') → each P w → clause_rel R w w' → each Q w'.
Proof.
  intros HR. revert w'. induction w as [cs op nested not IHn IHo] using where_ind'.
  intros w' He Hw. inversion_clear He as [? ? ? ? Hc Hn Ho].
  inversion_clear Hw as [? cs' ? ? nested' ? not' Rc Rn Ro]. constructor.
  - clear -HR Hc Rc. induction Rc as [|c c' cs cs' H _ IH]; [constructor|].
    inversion_clear Hc as [|? ? Hp Hc']. constructor; [by eapply HR|by apply IH].
  - clear -IHn Hn Rn. induction Rn as [|x x' l l' H _ IH]; [constructor|].
    inversion_clear Hn as [|? ? Hp Hn']. inversion_clear IHn as [|? ? Hi IHn'].
    constructor; [by apply Hi|by apply IH].
  - intros n' ->. inversion Ro as [x ? Hx|]; subst. apply (IHo x); [done|by apply Ho|exact Hx].
Qed.

Lemma each_forall (P : field_condition → Prop) w : each P w → Forall P (all_conditions w).
Proof.
  induction w as [cs op nested not IHn IHo] using where_ind'.
  inversion_clear 1 as [? ? ? ? Hc Hn Ho]. cbn. apply Forall_app. split; [done|].
  apply Forall_app. split.
  - clear -IHn Hn. induction Hn as [|x l Hx _ IH]; [constructor|].
    inversion_clear IHn as [|? ? Hi IHn']. cbn. apply Forall_app. split; [by apply Hi|by apply IH].
  - destruct not as [n|]; [|constructor]. apply IHo; [done|]. by apply Ho.
Qed.

Lemma clause_rel_refl (R : field_condition → field_condition → Prop) w :
  (∀ c, R c c) → clause_rel R w w.
Proof.
  intros HR. induction w as [cs op nested not IHn IHo] using where_ind'. constructor.
  - by induction cs; constructor.
  - by induction IHn; constructor.
  - destruct not; constructor. by apply IHo.
Qed.

Lemma view_mapping_rel st view tc m w w' :
  dict_get view (table_metadata st) = Some m →
  _apply_view_column_mapping st w view tc = Ok w' →
  clause_rel (remapped (_view_column_mapping st view)
    (match tc with Some _ => tc | None => Some (columns m) end) (validate_fk_strict m)) w w'.
Proof.
  intros Hm. unfold _apply_view_column_mapping. cbn zeta. rewrite Hm.
  destruct (_view_column_mapping st view) as [|kv mapping].
  - intros [= <-]. by apply clause_rel_refl.
  - apply map_tree_rel. intros c c'. apply map_condition_remapped.
Qed.

Lemma view_mapping_valid st view tc w w' :
  valid w → _apply_view_column_mapping st w view tc = Ok w' → valid w'.
Proof.
  unfold _apply_view_column_mapping. cbn zeta.
  destruct (_view_column_mapping st view); [by intros ? [= <-]|]. intros _. apply map_tree_valid.
Qed.

Section annotated.
Context (classes : string → class_info).

Lemma annotate_tree_rel t w :
  clause_rel (λ c c', c' = annotate_condition classes t c) w (annotate_tree classes t w).
Proof using Type.
  induction w as [cs op nested not IHn IHo] using where_ind'. cbn. constructor.
  - induction cs; cbn; by constructor.
  - induction IHn; cbn; by constructor.
  - destruct not; constructor. by apply IHo.
Qed.

Lemma annotate_valid t w : valid w → valid (annotate_tree classes t w).
Proof using Type.
  induction w as [cs op nested not IHn IHo] using where_ind'.
  inversion_clear 1 as [? ? ? ? Hi Hn Ho]. cbn. constructor.
  - revert Hi. unfold WhereClause.__post_init__. destruct (negb _); [done|].
    by destruct cs, nested, not.
  - clear -IHn Hn. induction Hn as [|x l Hx _ IH]; [constructor|].
    inversion_clear IHn as [|? ? Hi IHn']. cbn. constructor; [by apply Hi|by apply IH].
  - intros n'. destruct not as [n|]; [|done]. intros [= <-]. apply IHo; [done|]. by apply Ho.
Qed.

(** The walk's answer is a cast of a declared class and nothing else changes. *)
Definition annotated (source_type : string) (c c' : field_condition) : Prop :=
  c' = set_cast c (temporal_cast c')
  ∧ match temporal_cast c with
    | Some k => temporal_cast c' = Some k
    | None =>
        match temporal_cast c' with
        | None => True
        | Some k =>
            declares classes source_type (field_path c)
              (match k with
               | timestamptz => ["datetime"; "DateTimeField"]
               | date => ["date"; "DateField"]
               | ltree => ["LTreeField"]
               | point => ["CoordinateField"]
               end) = true
            ∧ (lookup_strategy c = "jsonb_path" ∨ k = point)
        end
    end.

Lemma annotate_condition_spec t c : annotated t c (annotate_condition classes t c).
Proof using Type.
  unfold annotated, annotate_condition. destruct (temporal_cast c) as [k|] eqn:Hk.
  { split; [|done]. rewrite Hk. destruct c; cbn in *; by subst. }
  split; [done|]. cbn [set_cast temporal_cast].
  unfold _declared_temporal_cast, _declared_ltree, _declared_coordinate.
  destruct (lookup_strategy c =s "jsonb_path") eqn:Hl.
  - apply bool_decide_eq_true in Hl. repeat case_match; simplify_eq; auto.
  - repeat case_match; simplify_eq; auto.
Qed.
End annotated.

(** Where a condition on a strict view reads: a column, the document, or the column
    of a vector operator. *)
Definition reads_view (m : metadata) (jsonb : string) (c : field_condition) : Prop :=
  target_column c ∈ columns m ∨ target_column c = jsonb
  ∨ dict_has (operator c) VECTOR_OPERATORS = true.

Lemma resolved_reads res view jsonb m c :
  metadata_of res view = Some m → columns m ≠ [] →
  Forall (λ kv, kv.2 = (kv.1 +:+ "_id")%stdpp) (fk_relationships m) →
  resolved res view jsonb (Some (columns m)) c → reads_view m jsonb c.
Proof.
  intros Hm Hne Hfk (_ & _ & _ & Ho). unfold reads_view.
  destruct Ho as [_ E _|_ _ [H|[H|H]]|before field _ _ _ E [H|(m' & column & E' & Hc & H)]]; auto.
  - unfold _is_flat_view in H. by destruct (columns m).
  - left. by apply str_in_true.
  - left. rewrite Hm in E'. injection E' as <-. apply dict_get_elem in Hc.
    eapply Forall_forall in Hfk; [|exact Hc]. cbn in Hfk. rewrite E, <- Hfk. by apply str_in_true.
Qed.

Lemma remapped_reads mapping m jsonb c c' :
  columns m ≠ [] → reads_view m jsonb c →
  remapped mapping (Some (columns m)) true c c' → reads_view m jsonb c'.
Proof.
  intros Hne Hc. unfold remapped. destruct (dict_get _ mapping) as [column|]; [|by intros ->].
  intros [(_ & [=] & _)|(<- & _ & _ & _ & _ & _ & H)]. left. by destruct (columns m).
Qed.

Lemma normalize_reads fuel st fields classes w view m c :
  views_ok st → dict_get view (table_metadata st) = Some m →
  validate_fk_strict m = true → columns m ≠ [] →
  Forall (λ kv, kv.2 = (kv.1 +:+ "_id")%stdpp) (fk_relationships m) →
  _normalize_where fuel st fields classes w view None = Ok c →
  valid c ∧ each (reads_view m (jsonb_column_of st view)) c.
Proof.
  intros Hst Hm Hs Hne Hfk. unfold _normalize_where.
  destruct w as [| | | | | | | | | | |d| |]; try done.
  intros (c1 & Hn & H)%bind_Ok. apply bind_Ok in H as (c2 & Hmap & [= <-]).
  apply normalize_resolved in Hn as [Hv1 He1].
  unfold columns_of in He1. cbn [metadata_of resolver_of] in He1. rewrite Hm in He1.
  assert (valid c2) as Hv2 by (by eapply view_mapping_valid).
  assert (each (reads_view m (jsonb_column_of st view)) c2) as He2.
  { apply (view_mapping_rel _ _ _ m) in Hmap; [|done]. rewrite Hs in Hmap.
    eapply each_rel; [|exact He1|exact Hmap]. intros k k' Hk. apply remapped_reads; [done|].
    by apply (resolved_reads (resolver_of st fields) view). }
  destruct (dict_get view (type_registry st)) as [t|]; [|done]. split; [by apply annotate_valid|].
  eapply each_rel; [|exact He2|apply annotate_tree_rel].
  intros k k' Hk ->. unfold reads_view, annotate_condition in *. by destruct (temporal_cast k).
Qed.

(** ** Theorems *)

(** A strict view is checked once: whatever was registered, in any order and
    with registrations that raised, normalising a filter on a view whose columns
    were registered never raises [RuntimeError] (a declared foreign key or mapped
    column that is missing), in strict mode as in lenient mode. *)
Theorem registered_filters_raise_no_RuntimeError fuel st fields classes w view tc :
  registered st → columns_known st view tc → size w < fuel →
  _normalize_where fuel st fields classes w view tc ≠ Err RuntimeError
  ∧ _normalize_where fuel st fields classes w view tc ≠ Err RecursionError.
Proof.
  intros Hst%registered_ok Hk Hw. unfold _normalize_where.
  destruct w as [| | | | | | | | | | |d| |]; try done.
  split; (apply bind_avoids; [apply normalize_avoids; try done|]).
  - intros field d'. by apply nested_no_runtime.
  - intros c _. apply bind_avoids; [by apply mapping_no_runtime|done].
  - intros field d'. apply nested_no_recursion.
  - intros c _. apply bind_avoids; [|done]. unfold _apply_view_column_mapping. cbn zeta.
    destruct (_view_column_mapping st view); [done|]. apply map_tree_avoids; [done|].
    intros c'. unfold _map_condition. repeat case_match; try done; by apply condition_avoids.
Qed.

(** Without registered columns the check never ran: a strict view registered
    with a foreign key and no columns is accepted, and every nested filter on that
    key raises [RuntimeError]. *)
Theorem unchecked_foreign_key_raises fuel st fields classes view cls jd jc field column ops :
  database_name field = field → logical field = false → Str.rpartition "__" field = None →
  plain_dict (PDict ops) = true →
  let reg := register_type_for_view st view cls None jd jc [(field, column)] true None [] in
  reg.2 = Ok tt
  ∧ _normalize_where (S fuel) reg.1 fields classes (PDict [(field, PDict [("name", PDict ops)])])
      view None = Err RuntimeError.
Proof.
  intros Hf (H1 & H2 & H3)%logical_cases Hp Hops. cbn zeta. split; [by destruct jd, jc|].
  set (m := {| columns := []; has_jsonb_data := default false jd; jsonb_column := jc;
               fk_relationships := [(field, column)]; validate_fk_strict := true;
               aggregation_of := None; column_mapping := [] |}).
  assert ((register_type_for_view st view cls None jd jc [(field, column)] true None []).1
    = {| type_registry := dict_set view cls (type_registry st);
         table_metadata := dict_set view m (table_metadata st) |}) as ->
    by (by destruct jd, jc).
  set (st' := {| type_registry := _; table_metadata := _ |}).
  assert (dict_get view (table_metadata st') = Some m) as Hm by apply dict_get_set_eq.
  unfold _normalize_where. cbn [normalize_dict_where].
  change (negb (Py.truthy (PDict [_]))) with false. cbn iota zeta.
  unfold columns_of. cbn [metadata_of resolver_of]. rewrite Hm. cbn [fmap option_fmap option_map foldR].
  unfold item_step. rewrite H1, H2, H3. unfold field_step, _reject_operator_suffix_key.
  rewrite Hp, Hf. cbn [mbind result_bind]. cbn zeta.
  change (_fold_vector_filter [("name", PDict ops)]) with (Ok [("name", PDict ops)]).
  cbn [mbind result_bind]. unfold _is_nested_object_filter. cbn zeta.
  cbn [existsb fst snd]. rewrite Hops. set (b := _ || false). change b with false.
  cbn [orb negb metadata_of resolver_of]. rewrite Hm. cbn [fk_relationships m dict_get].
  by rewrite decide_True.
Qed.

(** The column mapping changes where conditions look and nothing else: on a
    registered view the mapped clause has the same shape, each condition whose
    dotted path is mapped reads that column directly (a column of the view, when
    its columns are known; in lenient mode it stays as it was when the column is
    missing), and every other condition is unchanged. *)
Theorem column_mapping_redirects st view tc m w w' :
  dict_get view (table_metadata st) = Some m →
  _apply_view_column_mapping st w view tc = Ok w' →
  clause_rel (remapped (_view_column_mapping st view)
    (match tc with Some _ => tc | None => Some (columns m) end) (validate_fk_strict m)) w w'.
Proof. apply view_mapping_rel. Qed.

(** Annotation sets casts and nothing else, and only casts the registered
    type declares for the condition's own path: [timestamptz], [date] and [ltree]
    for a JSONB extraction, [point] anywhere; a cast already set is kept. *)
Theorem annotation_casts_declared classes w t :
  clause_rel (annotated classes t) w (annotate_temporal_casts classes w (Some t)).
Proof.
  cbn [annotate_temporal_casts].
  induction w as [cs op nested not IHn IHo] using where_ind'. cbn. constructor.
  - induction cs; cbn; constructor; [apply annotate_condition_spec|done].
  - induction IHn; cbn; by constructor.
  - destruct not; constructor. by apply IHo.
Qed.

(** C32. A filter reads the view it is on: on a strict registered view with
    columns and key columns named [field_id], every identifier of the SQL of a
    normalised dictionary is a registered column, the view's JSONB column, the
    configured entity schema, an entity table of a hierarchy operator, or the
    column a vector operator names. *)
Theorem filter_reads_its_view fuel st fields classes w view m c env sql ps :
  registered st → dict_get view (table_metadata st) = Some m →
  validate_fk_strict m = true → columns m ≠ [] →
  Forall (λ kv, kv.2 = (kv.1 +:+ "_id")%stdpp) (fk_relationships m) →
  _normalize_where fuel st fields classes w view None = Ok c →
  to_sql env c = Ok (Some sql, ps) →
  Forall (λ x, x ∈ columns m ∨ x = jsonb_column_of st view ∨ default_entity_schema env = Some x
               ∨ (∃ e, x = ("tb_" +:+ e)%stdpp)
               ∨ (∃ k, k ∈ all_conditions c ∧ dict_has (operator k) VECTOR_OPERATORS = true
                       ∧ target_column k = x))
    (identifiers sql).
Proof.
  intros Hst%registered_ok Hm Hs Hne Hfk Hc Hsql.
  destruct (normalize_reads _ _ _ _ _ _ _ _ Hst Hm Hs Hne Hfk Hc) as [Hv He%each_forall].
  pose proof (to_sql_names _ _ _ _ Hv Hsql) as Hids. apply Forall_forall. intros x Hx%Hids.
  apply list_elem_of_In, in_flat_map in Hx as (k & Hk%list_elem_of_In & Hx%list_elem_of_In).
  assert (∀ name, x ∈ entity_names name → ∃ e, x = ("tb_" +:+ e)%stdpp) as Hentity.
  { intros name. unfold entity_names. destruct (_resolve_entity_name name) as [e|];
      [intros ->%list_elem_of_singleton; by exists e|by intros ?%not_elem_of_nil]. }
  unfold schema_names in Hx.
  apply elem_of_app in Hx as [->%list_elem_of_singleton|[Hx|[Hx|Hx]%elem_of_app]%elem_of_app].
  - eapply Forall_forall in He; [|exact Hk]. destruct He as [?|[?|?]]; eauto 10.
  - destruct (default_entity_schema env); [|by apply not_elem_of_nil in Hx].
    apply list_elem_of_singleton in Hx as ->. by right; right; left.
  - right; right; right; left. by eapply Hentity.
  - right; right; right; left.
    destruct (jsonb_path k) as [[|? ?]|]; [by apply not_elem_of_nil in Hx| |by apply not_elem_of_nil in Hx].
    by eapply Hentity.
Qed.

(** ** A concrete registration *)

Definition registration : views * result unit :=
  register_type_for_view {| type_registry := []; table_metadata := [] |} "tv_allocation" "Allocation"
    (Some ["id"; "status"; "machine_id"; "location_id"; "data"]) (Some true) (Some "data")
    [("machine", "machine_id")] true None [("location.id", "location_id")].

Definition location_metadata : metadata :=
  {| columns := ["id"; "status"; "machine_id"; "location_id"; "data"]; has_jsonb_data := true;
     jsonb_column := Some "data"; fk_relationships := [("machine", "machine_id")];
     validate_fk_strict := true; aggregation_of := None;
     column_mapping := [("location.id", "location_id")] |}.

Lemma registration_registered : registered registration.1.
Proof. apply one_more, no_views. Qed.

Definition location_filter : pyval :=
  PDict [("status", PStr "active");
         ("location", PDict [("name", PDict [("eq", PStr "HQ")])]);
         ("machine", PDict [("id", PDict [("descendantOfId", PUUID "u")]); ("name", PDict [("eq", PStr "M")])]);
         ("NOT", PDict [("location", PDict [("site", PDict [("id", PDict [("eq", PUUID "v")])])])])].

Definition normal_location : result where_clause :=
  _normalize_where 20 registration.1 (λ _, []) (λ _, {| type_hints := Some []; bases := [] |})
    location_filter "tv_allocation" None.

Lemma registered_filters_raise_no_RuntimeError_witness :
  normal_location ≠ Err RuntimeError ∧ normal_location ≠ Err RecursionError.
Proof.
  apply (registered_filters_raise_no_RuntimeError 20 registration.1 (λ _, [])
           (λ _, {| type_hints := Some []; bases := [] |}) location_filter "tv_allocation" None).
  - exact registration_registered.
  - intros m. vm_compute. intros [= <-] _. split; [discriminate|exact I].
  - vm_compute. lia.
Defined.

Lemma unchecked_foreign_key_raises_witness :
  let reg := register_type_for_view {| type_registry := []; table_metadata := [] |} "v" "T" None
               (Some true) None [("machine", "machine_id")] true None [] in
  reg.2 = Ok tt
  ∧ _normalize_where 5 reg.1 (λ _, []) (λ _, {| type_hints := None; bases := [] |})
      (PDict [("machine", PDict [("name", PDict [("eq", PStr "x")])])]) "v" None
    = Err RuntimeError.
Proof.
  apply (unchecked_foreign_key_raises 4 _ (λ _, []) (λ _, {| type_hints := None; bases := [] |})
           "v" "T" (Some true) None "machine" "machine_id"); reflexivity.
Defined.

Definition mapped_condition (op : string) (v : pyval) : where_clause :=
  Clause [{| field_path := ["location"; "id"]; operator := op; value := v;
             lookup_strategy := "jsonb_path"; target_column := "data";
             jsonb_path := Some ["location"; "id"]; temporal_cast := None |}] "AND" [] None.

Lemma column_mapping_redirects_witness :
  ∃ w', _apply_view_column_mapping registration.1 (mapped_condition "eq" (PUUID "u"))
          "tv_allocation" None = Ok w'
    ∧ Forall (λ c, target_column c = "location_id") (all_conditions w')
    ∧ clause_rel (remapped [("location.id", "location_id")]
        (Some ["id"; "status"; "machine_id"; "location_id"; "data"]) true)
        (mapped_condition "eq" (PUUID "u")) w'.
Proof.
  eexists. split; [vm_compute; reflexivity|]. split; [repeat constructor|].
  apply (column_mapping_redirects registration.1 "tv_allocation" None location_metadata);
    vm_compute; reflexivity.
Defined.

Definition normal_identifiers : list string :=
  match c ← normal_location; to_sql example_env c with
  | Ok (Some sql, _) => identifiers sql
  | _ => []
  end.

Lemma filter_reads_its_view_witness :
  normal_identifiers = ["status"; "data"; "machine_id"; "tenant"; "tb_machine";
                        "data"; "data"]
  ∧ ∃ c sql ps, normal_location = Ok c ∧ to_sql example_env c = Ok (Some sql, ps)
    ∧ Forall (λ x, x ∈ columns location_metadata ∨ x = jsonb_column_of registration.1 "tv_allocation"
               ∨ default_entity_schema example_env = Some x ∨ (∃ e, x = ("tb_" +:+ e)%stdpp)
               ∨ (∃ k, k ∈ all_conditions c ∧ dict_has (operator k) VECTOR_OPERATORS = true
                       ∧ target_column k = x))
    (identifiers sql).
Proof.
  split; [vm_compute; reflexivity|].
  eexists _, _, _. split; [vm_compute; reflexivity|]. split; [vm_compute; reflexivity|].
  eapply (filter_reads_its_view 20 registration.1 (λ _, [])
           (λ _, {| type_hints := Some []; bases := [] |}) location_filter "tv_allocation" location_metadata
           _ example_env).
  - exact registration_registered.
  - vm_compute. reflexivity.
  - reflexivity.
  - discriminate.
  - repeat constructor.
  - vm_compute. reflexivity.
  - vm_compute. reflexivity.
Defined.
