(* ===== verification/RateLimiter.v ===== *)
(** * Rate limiting ([middleware/rate_limiter.py])

    The in-memory limiter: two deques of request times per key, checked and
    cleaned under one lock, so each call is one step.  Times are clock readings in
    microseconds; [int(...)] of a number of seconds truncates towards zero. *)
From stdpp Require Import base decidable strings list gmap.
From Stdlib Require Import ZArith Lia Sorted.
From S2P Require Import Prelude PyVal.

Local Open Scope py_scope.
Local Open Scope Z_scope.

(** ** Data *)

(** [RateLimitConfig]; [window_type] is read nowhere and [key_func] is an argument
    of [dispatch]. *)
Record config := {
  enabled : bool;
  requests_per_minute : Z;
  requests_per_hour : Z;
  burst_size : Z;
  whitelist : list string;
  blacklist : list string
}.

(** [RateLimitInfo] *)
Record info := {
  allowed : bool;
  remaining : Z;
  reset_after : Z;
  retry_after : Z;
  minute_requests : Z;
  hour_requests : Z;
  minute_limit : Z;
  hour_limit : Z
}.

(** [_minute_windows] and [_hour_windows]: reading a key creates its deque. *)
Record windows := {
  minute_windows : gmap string (list Z);
  hour_windows : gmap string (list Z)
}.

Definition second : Z := 1000000.

(** ** Operations *)

Definition _is_allowed (cfg : config) (minute_count hour_count : Z) : bool :=
  if requests_per_hour cfg <=? hour_count then false
  else minute_count <? Z.max (requests_per_minute cfg) (burst_size cfg).

Fixpoint _clean_window (window : list Z) (cutoff : Z) : list Z :=
  match window with
  | t :: window' => if t <? cutoff then _clean_window window' cutoff else window
  | [] => []
  end.

Definition window_of (m : gmap string (list Z)) (key : string) : list Z := default [] (m !! key).

(** The two cleanings every call starts with. *)
Definition clean_key (now : Z) (key : string) (st : windows) : windows :=
  {| minute_windows :=
       <[key := _clean_window (window_of (minute_windows st) key) (now - 60 * second)]> (minute_windows st);
     hour_windows :=
       <[key := _clean_window (window_of (hour_windows st) key) (now - 3600 * second)]> (hour_windows st) |}.

(** [int(period - (now - window[0]))] *)
Definition time_left (period now : Z) (window : list Z) : result Z :=
  match window with
  | [] => Err IndexError
  | t :: _ => Ok (Z.quot (period * second - (now - t)) second)
  end.

Definition record_request (now : Z) (key : string) (st : windows) : windows :=
  {| minute_windows := <[key := window_of (minute_windows st) key ++ [now]]> (minute_windows st);
     hour_windows := <[key := window_of (hour_windows st) key ++ [now]]> (hour_windows st) |}.

Definition check_rate_limit (cfg : config) (now : Z) (key : string) (st : windows)
    : windows * result info :=
  let st := clean_key now key st in
  let minute := window_of (minute_windows st) key in
  let hour := window_of (hour_windows st) key in
  let minute_count := Z.of_nat (length minute) in
  let hour_count := Z.of_nat (length hour) in
  if key in_ blacklist cfg then
    (st, Ok {| allowed := false; remaining := 0; reset_after := 3600; retry_after := 3600;
               minute_requests := minute_count; hour_requests := hour_count;
               minute_limit := 0; hour_limit := 0 |})
  else if key in_ whitelist cfg then
    (st, Ok {| allowed := true; remaining := 999999; reset_after := 0; retry_after := 0;
               minute_requests := minute_count; hour_requests := hour_count;
               minute_limit := 999999; hour_limit := 999999 |})
  else if _is_allowed cfg minute_count hour_count then
    let st := record_request now key st in
    (st,
     reset ← time_left 60 now (window_of (minute_windows st) key);
     Ok {| allowed := true;
           remaining := Z.min (Z.max 0 (requests_per_minute cfg - minute_count - 1))
                              (Z.max 0 (requests_per_hour cfg - hour_count - 1));
           reset_after := reset; retry_after := 0;
           minute_requests := minute_count + 1; hour_requests := hour_count + 1;
           minute_limit := requests_per_minute cfg; hour_limit := requests_per_hour cfg |})
  else
    (st,
     retry ← (if hour_count <? requests_per_hour cfg then time_left 60 now minute
              else time_left 3600 now hour);
     Ok {| allowed := false; remaining := 0; reset_after := retry; retry_after := retry;
           minute_requests := minute_count; hour_requests := hour_count;
           minute_limit := requests_per_minute cfg; hour_limit := requests_per_hour cfg |}).

Definition get_rate_limit_info (cfg : config) (now : Z) (key : string) (st : windows)
    : windows * result info :=
  let st := clean_key now key st in
  let minute := window_of (minute_windows st) key in
  let minute_count := Z.of_nat (length minute) in
  let hour_count := Z.of_nat (length (window_of (hour_windows st) key)) in
  let left := Z.min (Z.max 0 (requests_per_minute cfg - minute_count))
                    (Z.max 0 (requests_per_hour cfg - hour_count)) in
  (st,
   reset ← match minute with [] => Ok 0 | _ => time_left 60 now minute end;
   Ok {| allowed := 0 <? left; remaining := left; reset_after := reset; retry_after := 0;
         minute_requests := minute_count; hour_requests := hour_count;
         minute_limit := requests_per_minute cfg; hour_limit := requests_per_hour cfg |}).

(** Clean every window and drop the empty ones. *)
Definition clean_all (cutoff : Z) (m : gmap string (list Z)) : gmap string (list Z) :=
  omap (λ w, match _clean_window w cutoff with [] => None | w' => Some w' end) m.

Definition cleanup_expired (now : Z) (st : windows) : windows * Z :=
  let st' := {| minute_windows := clean_all (now - 60 * second) (minute_windows st);
                hour_windows := clean_all (now - 3600 * second) (hour_windows st) |} in
  (st', Z.of_nat (size (minute_windows st) - size (minute_windows st'))
        + Z.of_nat (size (hour_windows st) - size (hour_windows st'))).

Definition get_limited_keys (st : windows) : gset string :=
  dom (minute_windows st) ∪ dom (hour_windows st).

(** ** The middleware *)

(** What [dispatch] answers: the application's response, with the limit headers
    when the request was checked, or a rejection. *)
Inductive response :=
| Next (headers : option (Z * Z * Z))
| Forbidden
| TooManyRequests (retry_after limit reset : Z).

(** [now'] is the clock when the headers are written. *)
Definition dispatch (cfg : config) (path key : string) (now now' : Z) (st : windows)
    : windows * result response :=
  if negb (enabled cfg) || (path in_ ["/health"; "/ready"; "/metrics"; "/"]) then (st, Ok (Next None))
  else if key in_ blacklist cfg then (st, Ok Forbidden)
  else
    let '(st', r) := check_rate_limit cfg now key st in
    (st',
     i ← r;
     if negb (allowed i) then
       let retry := Z.max 1 (retry_after i) in
       Ok (TooManyRequests retry (minute_limit i) (Z.quot now' second + retry))
     else Ok (Next (Some (minute_limit i, remaining i, Z.quot now' second + reset_after i)))).

(** ** Runs: calls one after the other, at clock readings that do not go back *)

(** [admitted] is the history of the recorded requests, the latest last. *)
Record world := { clock : Z; state : windows; admitted : list (string * Z) }.

Definition start (now : Z) : world :=
  {| clock := now; state := {| minute_windows := ∅; hour_windows := ∅ |}; admitted := [] |}.

Definition admits (r : result info) : bool :=
  match r with Ok i => allowed i | Err _ => false end.

(** Listed keys are not counted. *)
Definition counted (cfg : config) (key : string) : bool :=
  negb (key in_ blacklist cfg) && negb (key in_ whitelist cfg).

Inductive step (cfg : config) : world → world → Prop :=
| step_check w now key st r :
    clock w ≤ now → check_rate_limit cfg now key (state w) = (st, r) →
    step cfg w
      {| clock := now; state := st;
         admitted := admitted w ++ (if counted cfg key && admits r then [(key, now)] else []) |}
| step_info w now key st r :
    clock w ≤ now → get_rate_limit_info cfg now key (state w) = (st, r) →
    step cfg w {| clock := now; state := st; admitted := admitted w |}
| step_cleanup w now st n :
    clock w ≤ now → cleanup_expired now (state w) = (st, n) →
    step cfg w {| clock := now; state := st; admitted := admitted w |}.

Definition reachable (cfg : config) (w : world) : Prop := ∃ now, rtc (step cfg) (start now) w.

(** The recorded times of one key, and how many of them are recent. *)
Definition times (key : string) (log : list (string * Z)) : list Z :=
  (filter (λ e : string * Z, e.1 = key) log).*2.

Definition since (t : Z) (l : list Z) : list Z := filter (λ u, t ≤ u) l.

Definition recent (period now : Z) (key : string) (log : list (string * Z)) : Z :=
  Z.of_nat (length (since (now - period * second) (times key log))).

(** ** Sorted times *)

Lemma since_app t l k : since t (l ++ k) = since t l ++ since t k.
Proof. apply filter_app. Qed.

Lemma since_since t t' l : t ≤ t' → since t' (since t l) = since t' l.
Proof.
  intros H. unfold since. rewrite list_filter_filter. apply list_filter_iff.
  intros x. lia.
Qed.

Lemma since_all t l : Forall (λ u, t ≤ u) l → since t l = l.
Proof. induction 1 as [|u l Hu _ IH]; cbn; [done|]. rewrite decide_True by done. f_equal. exact IH. Qed.

Lemma since_sorted t l : StronglySorted Z.le l → StronglySorted Z.le (since t l).
Proof.
  induction 1 as [|u l _ IH Hu]; cbn; [constructor|]. case_decide; [|done].
  constructor; [done|]. apply list.Forall_forall. intros x [_ Hx]%list_elem_of_filter.
  by eapply Forall_forall in Hu.
Qed.

(** Cleaning a sorted window keeps what is recent. *)
Lemma clean_since l t : StronglySorted Z.le l → _clean_window l t = since t l.
Proof.
  induction 1 as [|u l Hl IH Hu]; cbn; [done|]. destruct (Z.ltb_spec u t).
  - by rewrite decide_False by lia.
  - rewrite decide_True by lia. f_equal. symmetry. apply since_all.
    eapply Forall_impl; [exact Hu|]. intros x ?. lia.
Qed.

Lemma sorted_snoc l u : StronglySorted Z.le l → Forall (λ x, x ≤ u) l → StronglySorted Z.le (l ++ [u]).
Proof.
  induction 1 as [|x l _ IH Hx]; intros H; cbn; [repeat constructor|].
  inversion_clear H as [|? ? Hxu Hl]. constructor; [by apply IH|].
  apply Forall_app. by split; [|constructor].
Qed.

Lemma times_app key log log' : times key (log ++ log') = times key log ++ times key log'.
Proof. unfold times. by rewrite filter_app, fmap_app. Qed.

Lemma times_one key key' now :
  times key [(key', now)] = if decide (key' = key) then [now] else [].
Proof. unfold times. cbn. by case_decide. Qed.

(** ** The windows hold the recent history *)

(** A window of a key is its history since some moment that every later cleaning
    is past. *)
Definition holds_recent (period : Z) (clock : Z) (log : list (string * Z)) (m : gmap string (list Z))
    : Prop :=
  ∀ key, ∃ c, c ≤ clock - period * second ∧ window_of m key = since c (times key log).

Record consistent (w : world) : Prop := {
  sorted_times key : StronglySorted Z.le (times key (admitted w));
  past_times key : Forall (λ t, t ≤ clock w) (times key (admitted w));
  minute_recent : holds_recent 60 (clock w) (admitted w) (minute_windows (state w));
  hour_recent : holds_recent 3600 (clock w) (admitted w) (hour_windows (state w))
}.

Lemma window_insert m key key' l :
  window_of (<[key := l]> m) key' = if decide (key = key') then l else window_of m key'.
Proof.
  unfold window_of. case_decide as H; [subst; by rewrite lookup_insert_eq|].
  by rewrite lookup_insert_ne.
Qed.

Section cleaning.
Context (period clk now : Z) (log : list (string * Z)) (m : gmap string (list Z)).
Context (Hnow : clk ≤ now) (Hsorted : ∀ key, StronglySorted Z.le (times key log)).
Context (Hm : holds_recent period clk log m).

(** A cleaned window is exactly the recent history. *)
Lemma cleaned_window key :
  _clean_window (window_of m key) (now - period * second) = since (now - period * second) (times key log).
Proof using Type*.
  destruct (Hm key) as (c & Hc & ->). rewrite clean_since by (by apply since_sorted).
  apply since_since. lia.
Qed.

Lemma holds_recent_clean key :
  holds_recent period now log
    (<[key := _clean_window (window_of m key) (now - period * second)]> m).
Proof using Type*.
  intros key'. rewrite window_insert. case_decide as H; [subst key'|].
  - exists (now - period * second). split; [lia|]. apply cleaned_window.
  - destruct (Hm key') as (c & Hc & E). exists c. split; [lia|done].
Qed.

Lemma holds_recent_clean_all : holds_recent period now log (clean_all (now - period * second) m).
Proof using Type*.
  intros key. exists (now - period * second). split; [lia|]. rewrite <- cleaned_window.
  unfold window_of, clean_all. rewrite lookup_omap. destruct (m !! key) as [l|]; [|done]. cbn.
  by destruct (_clean_window l _).
Qed.
End cleaning.

(** Recording a request in the history and in the windows. *)
Lemma holds_recent_record period now log m key :
  0 ≤ period → holds_recent period now log m →
  holds_recent period now (log ++ [(key, now)]) (<[key := window_of m key ++ [now]]> m).
Proof.
  intros Hp Hm key'. destruct (Hm key') as (c & Hc & E). exists c. split; [done|].
  rewrite times_app, times_one, since_app, window_insert. case_decide as H; [subst key'|].
  - rewrite E. f_equal. unfold since. cbn. rewrite decide_True; [done|]. unfold second in *. lia.
  - by rewrite app_nil_r.
Qed.

Lemma check_windows cfg now key st :
  (check_rate_limit cfg now key st).1
  = if counted cfg key
       && _is_allowed cfg
            (Z.of_nat (length (window_of (minute_windows (clean_key now key st)) key)))
            (Z.of_nat (length (window_of (hour_windows (clean_key now key st)) key)))
    then record_request now key (clean_key now key st) else clean_key now key st.
Proof.
  unfold check_rate_limit, counted. cbn zeta.
  destruct (key in_ blacklist cfg), (key in_ whitelist cfg); cbn [negb andb fst]; try done.
  by destruct (_is_allowed _ _ _).
Qed.

Lemma check_admits cfg now key st :
  counted cfg key = true →
  admits (check_rate_limit cfg now key st).2
  = _is_allowed cfg
      (Z.of_nat (length (window_of (minute_windows (clean_key now key st)) key)))
      (Z.of_nat (length (window_of (hour_windows (clean_key now key st)) key))).
Proof.
  unfold check_rate_limit, counted. cbn zeta. intros [Hb Hw]%andb_true_iff.
  apply negb_true_iff in Hb, Hw. rewrite Hb, Hw.
  destruct (_is_allowed _ _ _); cbn [snd].
  - unfold record_request. cbn [minute_windows]. rewrite window_insert, decide_True by done.
    by destruct (window_of _ _).
  - destruct (if _ : bool then _ else _); done.
Qed.

(** The history without the new request is still consistent at a later clock. *)
Lemma consistent_later w now st :
  consistent w → clock w ≤ now →
  holds_recent 60 now (admitted w) (minute_windows st) →
  holds_recent 3600 now (admitted w) (hour_windows st) →
  consistent {| clock := now; state := st; admitted := admitted w |}.
Proof.
  intros [H1 H2 H3 H4] Hnow Hm Hh. split; cbn [admitted clock state]; [done| |done|done].
  intros key. eapply Forall_impl; [apply H2|]. cbn. intros; lia.
Qed.

Lemma consistent_clean w now key :
  consistent w → clock w ≤ now →
  consistent {| clock := now; state := clean_key now key (state w); admitted := admitted w |}.
Proof.
  intros Hw Hnow. pose proof Hw as [H1 H2 H3 H4].
  by apply consistent_later; [..|eapply holds_recent_clean|eapply holds_recent_clean].
Qed.

Lemma consistent_record w now key :
  consistent w → clock w = now →
  consistent {| clock := now; state := record_request now key (state w);
                admitted := admitted w ++ [(key, now)] |}.
Proof.
  intros [H1 H2 H3 H4] <-.
  split; cbn [admitted clock state minute_windows hour_windows record_request].
  - intros key'. rewrite times_app, times_one. case_decide; [|by rewrite app_nil_r].
    by apply sorted_snoc.
  - intros key'. rewrite times_app, times_one. case_decide; [|by rewrite app_nil_r].
    apply Forall_app. split; [done|]. constructor; [lia|constructor].
  - by apply holds_recent_record.
  - by apply holds_recent_record.
Qed.

(** The decision of a check is the one of the history. *)
Lemma check_by_history cfg w now key :
  consistent w → clock w ≤ now → counted cfg key = true →
  admits (check_rate_limit cfg now key (state w)).2
  = _is_allowed cfg (recent 60 now key (admitted w)) (recent 3600 now key (admitted w)).
Proof.
  intros [H1 H2 H3 H4] Hnow Hc. rewrite check_admits by done. unfold clean_key.
  cbn [minute_windows hour_windows]. rewrite !window_insert, !decide_True by done.
  by rewrite (cleaned_window 60 (clock w) now (admitted w)),
    (cleaned_window 3600 (clock w) now (admitted w)).
Qed.

Lemma step_consistent cfg w w' : consistent w → step cfg w w' → consistent w'.
Proof.
  intros Hw Hs. destruct Hs as [w now key st r Hnow Hc|w now key st r Hnow Hc|w now st n Hnow Hc].
  - assert (st = (check_rate_limit cfg now key (state w)).1) as Est by (by rewrite Hc).
    assert (r = (check_rate_limit cfg now key (state w)).2) as Er by (by rewrite Hc).
    rewrite check_windows in Est. pose proof (consistent_clean w now key Hw Hnow) as Hclean.
    destruct (counted cfg key) eqn:Ek; cbn [andb] in *; subst st.
    + rewrite Er, check_admits by done. destruct (_is_allowed _ _ _).
      * exact (consistent_record _ now key Hclean eq_refl).
      * rewrite app_nil_r. exact Hclean.
    + rewrite app_nil_r. exact Hclean.
  - assert (st = clean_key now key (state w)) as -> by (unfold get_rate_limit_info in Hc; congruence).
    by apply consistent_clean.
  - injection Hc as <- <-. pose proof Hw as [H1 H2 H3 H4].
    by apply consistent_later; [..|eapply holds_recent_clean_all|eapply holds_recent_clean_all].
Qed.

Lemma start_consistent now : consistent (start now).
Proof.
  split; cbn; try (intros; constructor); intros key; exists (now - 3600 * second);
    (split; [unfold second; lia|done]).
Qed.

Lemma reachable_consistent cfg w : reachable cfg w → consistent w.
Proof.
  intros [now H]. remember (start now) as w0. assert (consistent w0) as Hw0
    by (subst; apply start_consistent). clear Heqw0.
  induction H as [|w0 w1 w2 Hs _ IH]; [done|]. apply IH. by eapply step_consistent.
Qed.

(** ** The limits *)

Definition between (t t' : Z) (l : list Z) : list Z := filter (λ u, t ≤ u ≤ t') l.

Lemma between_since t t' c l : c ≤ t → (length (between t t' l) ≤ length (since c l))%nat.
Proof.
  intros H. induction l as [|u l IH]; [done|].
  assert (between t t' (u :: l) = (if decide (t ≤ u ≤ t') then [u] else []) ++ between t t' l) as ->
    by (unfold between; cbn; by case_decide).
  assert (since c (u :: l) = (if decide (c ≤ u) then [u] else []) ++ since c l) as ->
    by (unfold since; cbn; by case_decide).
  rewrite !length_app. repeat case_decide; cbn [length]; lia.
Qed.

Definition limits_hold (cfg : config) (log : list (string * Z)) : Prop :=
  ∀ key t,
    Z.of_nat (length (between t (t + 60 * second) (times key log)))
      ≤ Z.max 0 (Z.max (requests_per_minute cfg) (burst_size cfg))
    ∧ Z.of_nat (length (between t (t + 3600 * second) (times key log)))
      ≤ Z.max 0 (requests_per_hour cfg).

(** One more request at [now] when fewer than [limit] are recent. *)
Lemma between_snoc period limit t now l :
  Forall (λ x, x ≤ now) l → 0 ≤ period →
  Z.of_nat (length (since (now - period * second) l)) < limit →
  Z.of_nat (length (between t (t + period * second) l)) ≤ Z.max 0 limit →
  Z.of_nat (length (between t (t + period * second) (l ++ [now]))) ≤ Z.max 0 limit.
Proof.
  intros Hl Hp Hlim Hb. unfold between. rewrite filter_app, length_app. cbn. case_decide as Hn.
  - assert (length (between t (t + period * second) l) ≤ length (since (now - period * second) l))%nat.
    { apply between_since. lia. }
    cbn. unfold between in *. lia.
  - cbn. unfold between in Hb. lia.
Qed.

Lemma step_limits cfg w w' :
  consistent w → limits_hold cfg (admitted w) → step cfg w w' → limits_hold cfg (admitted w').
Proof.
  intros Hw Hlim Hs. destruct Hs as [w now key st r Hnow Hc|w now key st r Hnow Hc|w now st n Hnow Hc];
    [|exact Hlim|exact Hlim].
  cbn [admitted]. destruct (counted cfg key) eqn:Ek; [|by rewrite app_nil_r].
  assert (r = (check_rate_limit cfg now key (state w)).2) as -> by (by rewrite Hc).
  rewrite check_by_history by done. destruct (_is_allowed _ _ _) eqn:Ha; [|by rewrite app_nil_r].
  cbn [andb]. unfold _is_allowed in Ha. destruct (Z.leb_spec (requests_per_hour cfg)
    (recent 3600 now key (admitted w))); [done|]. apply Z.ltb_lt in Ha.
  assert (∀ key', Forall (λ x, x ≤ now) (times key' (admitted w))) as Hpast.
  { intros key'. eapply Forall_impl; [by apply past_times|]. cbn. intros; lia. }
  intros key' t. rewrite times_app, times_one. case_decide as E; [subst key'|by rewrite app_nil_r].
  destruct (Hlim key t). split; apply between_snoc; try done.
Qed.

Lemma reachable_limits cfg w : reachable cfg w → limits_hold cfg (admitted w).
Proof.
  intros [now H]. remember (start now) as w0 eqn:E.
  assert (consistent w0 ∧ limits_hold cfg (admitted w0)) as [Hc Hl].
  { subst. split; [apply start_consistent|]. intros key t. cbn. lia. }
  clear E. induction H as [|w0 w1 w2 Hs _ IH]; [done|].
  apply IH; [by eapply step_consistent|by eapply step_limits].
Qed.

Lemma check_Ok cfg now key st :
  0 < requests_per_hour cfg → 0 < Z.max (requests_per_minute cfg) (burst_size cfg) →
  is_Ok (check_rate_limit cfg now key st).2.
Proof.
  intros Hh Hm. unfold check_rate_limit. cbn zeta.
  destruct (key in_ blacklist cfg); [by eexists|]. destruct (key in_ whitelist cfg); [by eexists|].
  set (minute := window_of (minute_windows _) key). set (hour := window_of (hour_windows _) key).
  unfold _is_allowed. destruct (Z.leb_spec (requests_per_hour cfg) (Z.of_nat (length hour))).
  - rewrite (proj2 (Z.ltb_ge _ _)) by done. destruct hour; [cbn in *; lia|]. by eexists.
  - destruct (Z.ltb_spec (Z.of_nat (length minute)) (Z.max (requests_per_minute cfg) (burst_size cfg))).
    + cbn [snd record_request minute_windows]. rewrite window_insert, decide_True by done.
      fold minute. destruct minute; by eexists.
    + rewrite (proj2 (Z.ltb_lt _ _)) by done. destruct minute; [cbn in *; lia|]. by eexists.
Qed.

(** A window that starts late enough is not cleaned. *)
Lemma clean_kept l cutoff : match l with t :: _ => cutoff ≤ t | [] => True end → _clean_window l cutoff = l.
Proof. destruct l as [|t l]; cbn; [done|]. intros H. by rewrite (proj2 (Z.ltb_ge _ _)). Qed.

Lemma clean_head l cutoff : match _clean_window l cutoff with t :: _ => cutoff ≤ t | [] => True end.
Proof.
  induction l as [|t l IH]; cbn; [done|]. destruct (Z.ltb_spec t cutoff); [exact IH|done].
Qed.

(** Whatever was announced by [time_left], the window is the same then. *)
Lemma kept_until period now l left :
  match l with t :: _ => now - period * second ≤ t | [] => True end →
  time_left period now l = Ok left →
  _clean_window l (now + left * second - period * second) = l.
Proof.
  destruct l as [|t l]; [done|]. intros Ht [= <-]. apply clean_kept.
  pose proof (Z.mul_quot_le (period * second - (now - t)) second) as H.
  unfold second in *. lia.
Qed.

(** The windows a refused check leaves, and what it announces. *)
Lemma cleaned_minute now key st :
  match window_of (minute_windows (clean_key now key st)) key with
  | t :: _ => now - 60 * second ≤ t
  | [] => True
  end.
Proof.
  unfold clean_key. cbn [minute_windows]. rewrite window_insert, decide_True by done. apply clean_head.
Qed.

Lemma cleaned_hour now key st :
  match window_of (hour_windows (clean_key now key st)) key with
  | t :: _ => now - 3600 * second ≤ t
  | [] => True
  end.
Proof.
  unfold clean_key. cbn [hour_windows]. rewrite window_insert, decide_True by done. apply clean_head.
Qed.

Lemma refused_check cfg now key st :
  counted cfg key = true → admits (check_rate_limit cfg now key st).2 = false →
  let st1 := clean_key now key st in
  let minute := window_of (minute_windows st1) key in
  let hour := window_of (hour_windows st1) key in
  (check_rate_limit cfg now key st).1 = st1
  ∧ (check_rate_limit cfg now key st).2
    = (retry ← (if Z.of_nat (length hour) <? requests_per_hour cfg then time_left 60 now minute
                else time_left 3600 now hour);
       Ok {| allowed := false; remaining := 0; reset_after := retry; retry_after := retry;
             minute_requests := Z.of_nat (length minute); hour_requests := Z.of_nat (length hour);
             minute_limit := requests_per_minute cfg; hour_limit := requests_per_hour cfg |}).
Proof.
  intros Hc Hr. rewrite check_admits in Hr by done. unfold counted in Hc.
  apply andb_true_iff in Hc as [Hb%negb_true_iff Hw%negb_true_iff].
  unfold check_rate_limit. cbn zeta. rewrite Hb, Hw. by rewrite Hr.
Qed.

Lemma refused_minute cfg now key st :
  counted cfg key = true → admits (check_rate_limit cfg now key st).2 = false →
  Z.of_nat (length (window_of (hour_windows (clean_key now key st)) key)) < requests_per_hour cfg →
  Z.max (requests_per_minute cfg) (burst_size cfg)
    ≤ Z.of_nat (length (window_of (minute_windows (clean_key now key st)) key)).
Proof.
  intros Hc Hr Hh. rewrite check_admits in Hr by done. unfold _is_allowed in Hr.
  rewrite (proj2 (Z.leb_gt _ _)) in Hr by done. by apply Z.ltb_ge.
Qed.

(** ** Theorems *)

(** C28. The limiter is a sliding window over the history: after any run of checks,
    status reads and cleanups, a check of a key that is on no list admits exactly
    when fewer than [requests_per_hour] requests of the key were admitted in the
    last hour and fewer than the larger of [requests_per_minute] and [burst_size]
    in the last minute; with positive limits it never raises. *)
Theorem check_decides_by_history cfg w now key :
  reachable cfg w → clock w ≤ now → counted cfg key = true →
  admits (check_rate_limit cfg now key (state w)).2
  = (recent 3600 now key (admitted w) <? requests_per_hour cfg)
    && (recent 60 now key (admitted w) <? Z.max (requests_per_minute cfg) (burst_size cfg))
  ∧ (0 < requests_per_hour cfg → 0 < Z.max (requests_per_minute cfg) (burst_size cfg) →
     is_Ok (check_rate_limit cfg now key (state w)).2).
Proof.
  intros Hw Hnow Hc. split; [|apply check_Ok].
  apply reachable_consistent in Hw. rewrite check_by_history by done. unfold _is_allowed.
  by destruct (Z.leb_spec (requests_per_hour cfg) (recent 3600 now key (admitted w))),
    (Z.ltb_spec (recent 3600 now key (admitted w)) (requests_per_hour cfg)); try lia.
Qed.

(** No key exceeds the limits: in any run, no minute holds more admitted
    requests of a key than the larger of [requests_per_minute] and [burst_size],
    and no hour more than [requests_per_hour], wherever the interval starts. *)
Theorem admitted_within_limits cfg w key t :
  reachable cfg w →
  Z.of_nat (length (between t (t + 60 * second) (times key (admitted w))))
    ≤ Z.max 0 (Z.max (requests_per_minute cfg) (burst_size cfg))
  ∧ Z.of_nat (length (between t (t + 3600 * second) (times key (admitted w))))
    ≤ Z.max 0 (requests_per_hour cfg).
Proof. intros Hw. by apply reachable_limits. Qed.

(** The announced wait is too short: a key refused with [retry_after] seconds
    to wait is refused again when it comes back exactly then, even if nothing
    happened in between, since the wait is rounded down and a request exactly a
    period old still counts. *)
Theorem retry_after_is_refused cfg now key st st' i :
  check_rate_limit cfg now key st = (st', Ok i) → allowed i = false → counted cfg key = true →
  admits (check_rate_limit cfg (now + retry_after i * second) key st').2 = false.
Proof.
  intros Hcheck Hi Hc.
  destruct (refused_check cfg now key st) as [E Hr]; [done|by rewrite Hcheck; cbn; rewrite Hi|].
  rewrite Hcheck in E, Hr. cbn [fst snd] in E, Hr. subst st'. rewrite check_admits by done.
  symmetry in Hr. apply bind_Ok in Hr as (left & Hleft & [= Ei]). rewrite <- Ei. cbn [retry_after].
  unfold clean_key at 1 3. cbn [minute_windows hour_windows].
  rewrite !window_insert, !decide_True by done. unfold _is_allowed.
  destruct (Z.ltb_spec (Z.of_nat (length (window_of (hour_windows (clean_key now key st)) key)))
              (requests_per_hour cfg)) as [Hh|Hh].
  - rewrite (kept_until 60 now (window_of (minute_windows (clean_key now key st)) key))
      by (done || apply cleaned_minute).
    pose proof (refused_minute cfg now key st) as Hm. specialize (Hm Hc).
    rewrite Hcheck in Hm. cbn [snd admits] in Hm. specialize (Hm Hi Hh).
    destruct (_ <=? _); [done|]. by apply Z.ltb_ge.
  - rewrite (kept_until 3600 now (window_of (hour_windows (clean_key now key st)) key))
      by (done || apply cleaned_hour).
    by rewrite (proj2 (Z.leb_le _ _)).
Qed.

(** An hour limit of 0 does not refuse the first request but raises: the deque the
    wait is computed from is empty. *)
Lemma zero_limit_raises cfg now key st :
  counted cfg key = true → requests_per_hour cfg ≤ 0 →
  window_of (hour_windows (clean_key now key st)) key = [] →
  (check_rate_limit cfg now key st).2 = Err IndexError.
Proof.
  intros Hc Hz He. assert (admits (check_rate_limit cfg now key st).2 = false) as Ha.
  { rewrite check_admits by done. unfold _is_allowed. by rewrite He, (proj2 (Z.leb_le _ _)). }
  destruct (refused_check cfg now key st Hc Ha) as [_ ->]. rewrite He. cbn [length time_left].
  by rewrite (proj2 (Z.ltb_ge _ _)).
Qed.

(** The status of a key ignores the burst: with a burst above the minute limit it
    says a request is not allowed that the check admits. *)
Lemma status_ignores_burst cfg now key st :
  counted cfg key = true →
  let count := Z.of_nat (length (window_of (minute_windows (clean_key now key st)) key)) in
  requests_per_minute cfg ≤ count < burst_size cfg →
  Z.of_nat (length (window_of (hour_windows (clean_key now key st)) key)) < requests_per_hour cfg →
  admits (get_rate_limit_info cfg now key st).2 = false
  ∧ admits (check_rate_limit cfg now key st).2 = true.
Proof.
  cbn zeta. intros Hc Hm Hh. split.
  - unfold get_rate_limit_info. cbn zeta. cbn [snd].
    destruct (match window_of _ _ with [] => _ | _ => _ end) as [r|]; [|done].
    cbn [mbind result_bind admits allowed]. apply Z.ltb_ge. lia.
  - rewrite check_admits by done. unfold _is_allowed. rewrite (proj2 (Z.leb_gt _ _)) by done.
    apply Z.ltb_lt. lia.
Qed.

(** ** A concrete run *)

Definition example_config : config :=
  {| enabled := true; requests_per_minute := 2; requests_per_hour := 3; burst_size := 1;
     whitelist := ["127.0.0.1"]; blacklist := ["6.6.6.6"] |}.

(** Checks of one key at the given seconds: the answers, and the world after. *)
Fixpoint checks (cfg : config) (key : string) (l : list Z) (w : world) : list bool * world :=
  match l with
  | [] => ([], w)
  | s :: l' =>
      let '(st, r) := check_rate_limit cfg (s * second) key (state w) in
      let ok := admits r in
      let '(oks, w') :=
        checks cfg key l'
          {| clock := s * second; state := st;
             admitted := admitted w ++ (if counted cfg key && ok then [(key, s * second)] else []) |} in
      (ok :: oks, w')
  end.

Lemma checks_reachable cfg key l w :
  reachable cfg w → StronglySorted Z.le (clock w :: map (λ s, s * second) l) →
  reachable cfg (checks cfg key l w).2.
Proof.
  revert w. induction l as [|s l IH]; intros w Hw Hs; cbn [checks]; [done|].
  destruct (check_rate_limit cfg (s * second) key (state w)) as [st r] eqn:E.
  apply StronglySorted_inv in Hs as [Hs Hle]. inversion_clear Hle as [|? ? Hle' _].
  set (w' := {| clock := s * second; state := st; admitted := _ |}).
  assert (reachable cfg w') as Hw'.
  { destruct Hw as [now Hw]. exists now. eapply rtc_r; [exact Hw|]. by apply step_check. }
  specialize (IH w' Hw' Hs). by destruct (checks cfg key l w').
Qed.

Definition example_world : world := (checks example_config "10.0.0.1" [0; 10; 20; 65; 70] (start 0)).2.

Lemma example_reachable : reachable example_config example_world.
Proof.
  apply checks_reachable; [by exists 0|]. cbn.
  repeat (apply SSorted_cons; [|repeat (apply List.Forall_cons; [unfold second; lia|]); apply List.Forall_nil]).
  apply SSorted_nil.
Qed.

Lemma check_decides_by_history_witness :
  (checks example_config "10.0.0.1" [0; 10; 20; 65; 70] (start 0)).1 = [true; true; false; true; false]
  ∧ admits (check_rate_limit example_config (3600 * second) "10.0.0.1" (state example_world)).2
    = (recent 3600 (3600 * second) "10.0.0.1" (admitted example_world) <? 3)
      && (recent 60 (3600 * second) "10.0.0.1" (admitted example_world) <? 2)
  ∧ is_Ok (check_rate_limit example_config (3600 * second) "10.0.0.1" (state example_world)).2.
Proof.
  split; [vm_compute; reflexivity|].
  destruct (check_decides_by_history example_config example_world (3600 * second) "10.0.0.1") as [H1 H2].
  - exact example_reachable.
  - vm_compute. discriminate.
  - reflexivity.
  - split; [exact H1|]. apply H2; vm_compute; reflexivity.
Defined.

Lemma admitted_within_limits_witness :
  times "10.0.0.1" (admitted example_world) = [0; 10 * second; 65 * second]
  ∧ Z.of_nat (length (between (10 * second) (10 * second + 60 * second)
                        (times "10.0.0.1" (admitted example_world)))) ≤ 2.
Proof.
  split; [vm_compute; reflexivity|].
  apply (admitted_within_limits example_config example_world "10.0.0.1" (10 * second)).
  exact example_reachable.
Defined.

Definition full : windows := state (checks example_config "10.0.0.1" [0; 10] (start 0)).2.

Lemma retry_after_is_refused_witness :
  ∃ st i, check_rate_limit example_config (20 * second + 300000) "10.0.0.1" full = (st, Ok i)
    ∧ retry_after i = 39
    ∧ admits (check_rate_limit example_config (20 * second + 300000 + retry_after i * second)
                "10.0.0.1" st).2 = false.
Proof.
  destruct (check_rate_limit example_config (20 * second + 300000) "10.0.0.1" full) as [st [i|e]] eqn:E;
    [|vm_compute in E; discriminate E].
  assert (retry_after i = 39 ∧ allowed i = false) as [Hr Ha]
    by (vm_compute in E; injection E as <- <-; split; reflexivity).
  exists st, i. split; [reflexivity|]. split; [exact Hr|].
  exact (retry_after_is_refused example_config (20 * second + 300000) "10.0.0.1" full st i E Ha eq_refl).
Defined.
