(* ===== verification/Dates.v ===== *)
(** * Calendar dates

    Python's [datetime.date]: the proleptic Gregorian calendar between the years 1
    and 9999, its order, and the arithmetic of [timedelta(days=n)]. *)
From stdpp Require Import base decidable strings list.
From Stdlib Require Import ZArith Lia.
From S2P Require Import Prelude PyVal.

Local Open Scope py_scope.
Local Open Scope Z_scope.

Record pydate := Date { year : Z; month : Z; day : Z }.

#[export] Instance pydate_eq_dec : EqDecision pydate.
Proof. solve_decision. Defined.

Definition is_leap (y : Z) : bool :=
  (y mod 4 =? 0) && (negb (y mod 100 =? 0) || (y mod 400 =? 0)).

Definition days_in_month (y m : Z) : Z :=
  if m =? 2 then (if is_leap y then 29 else 28)
  else if (m =? 4) || (m =? 6) || (m =? 9) || (m =? 11) then 30 else 31.

Definition valid_date (d : pydate) : bool :=
  (1 <=? year d) && (year d <=? 9999) && (1 <=? month d) && (month d <=? 12)
  && (1 <=? day d) && (day d <=? days_in_month (year d) (month d)).

(** [date(y, m, d)] *)
Definition date_new (y m d : Z) : result pydate :=
  if valid_date (Date y m d) then Ok (Date y m d) else Err ValueError.

(** [d < e], on the triples. *)
Definition date_ltb (d e : pydate) : bool :=
  (year d <? year e)
  || ((year d =? year e)
      && ((month d <? month e) || ((month d =? month e) && (day d <? day e)))).

Definition date_min (d e : pydate) : pydate := if date_ltb e d then e else d.
Definition date_max (d e : pydate) : pydate := if date_ltb d e then e else d.

(** ** Ordinals and days of the week *)

Definition days_before_year (y : Z) : Z :=
  let y := y - 1 in y * 365 + y / 4 - y / 100 + y / 400.

Definition days_before_month (y m : Z) : Z :=
  let leap := if is_leap y then 1 else 0 in
  if m =? 1 then 0 else if m =? 2 then 31 else if m =? 3 then 59 + leap
  else if m =? 4 then 90 + leap else if m =? 5 then 120 + leap else if m =? 6 then 151 + leap
  else if m =? 7 then 181 + leap else if m =? 8 then 212 + leap else if m =? 9 then 243 + leap
  else if m =? 10 then 273 + leap else if m =? 11 then 304 + leap else 334 + leap.

Definition toordinal (d : pydate) : Z :=
  days_before_year (year d) + days_before_month (year d) (month d) + day d.

Definition weekday (d : pydate) : Z := (toordinal d + 6) mod 7.

(** ** Adding days *)

Definition next_day (d : pydate) : result pydate :=
  if day d <? days_in_month (year d) (month d) then Ok (Date (year d) (month d) (day d + 1))
  else if month d <? 12 then Ok (Date (year d) (month d + 1) 1)
  else if year d <? 9999 then Ok (Date (year d + 1) 1 1)
  else Err OverflowError.

Definition previous_day (d : pydate) : result pydate :=
  if 1 <? day d then Ok (Date (year d) (month d) (day d - 1))
  else if 1 <? month d then
    Ok (Date (year d) (month d - 1) (days_in_month (year d) (month d - 1)))
  else if 1 <? year d then Ok (Date (year d - 1) 12 31)
  else Err OverflowError.

Fixpoint days_times (n : nat) (f : pydate → result pydate) (d : pydate) : result pydate :=
  match n with
  | O => Ok d
  | S n' => d' ← f d; days_times n' f d'
  end.

(** [d + timedelta(days=n)] *)
Definition add_days (n : Z) (d : pydate) : result pydate :=
  if 0 <=? n then days_times (Z.to_nat n) next_day d
  else days_times (Z.to_nat (- n)) previous_day d.

Example day_numbers :
  map (λ d, (toordinal d, weekday d))
    [Date 1 1 1; Date 1970 1 1; Date 2024 2 29; Date 2026 1 31; Date 9999 12 31]
  = [(1, 0); (719163, 3); (738945, 3); (739647, 5); (3652059, 4)].
Proof. reflexivity. Qed.

Example day_sums :
  [add_days 1 (Date 2024 2 28); add_days 1 (Date 2023 2 28); add_days (-31) (Date 2024 1 15);
   add_days 1 (Date 9999 12 31); add_days (-1) (Date 1 1 1)]
  = [Ok (Date 2024 2 29); Ok (Date 2023 3 1); Ok (Date 2023 12 15); Err OverflowError;
     Err OverflowError].
Proof. reflexivity. Qed.

(** ** The order and the ordinals agree *)

(** Reflection of the arithmetic tests of a hypothesis or goal. *)
Ltac zbool :=
  repeat match goal with
  | H : _ && _ = true |- _ => apply andb_true_iff in H as [? ?]
  | H : (_ <=? _) = true |- _ => apply Z.leb_le in H
  | H : (_ <? _) = true |- _ => apply Z.ltb_lt in H
  | H : (_ =? _) = true |- _ => apply Z.eqb_eq in H
  | H : (_ <=? _) = false |- _ => apply Z.leb_gt in H
  | H : (_ <? _) = false |- _ => apply Z.ltb_ge in H
  | H : (_ =? _) = false |- _ => apply Z.eqb_neq in H
  end.

Lemma month_days y m : 28 ≤ days_in_month y m ≤ 31.
Proof. unfold days_in_month. repeat case_match; lia. Qed.

Lemma valid_spec d :
  valid_date d = true ↔
  1 ≤ year d ≤ 9999 ∧ 1 ≤ month d ≤ 12 ∧ 1 ≤ day d ≤ days_in_month (year d) (month d).
Proof. unfold valid_date. rewrite !andb_true_iff, !Z.leb_le. lia. Qed.

(** The number a valid date reads as, [yyyymmdd]. *)
Definition date_key (d : pydate) : Z := year d * 10000 + month d * 100 + day d.

Lemma ltb_key d e :
  valid_date d = true → valid_date e = true → date_ltb d e = true ↔ date_key d < date_key e.
Proof.
  intros Hd%valid_spec He%valid_spec. pose proof (month_days (year d) (month d)).
  pose proof (month_days (year e) (month e)). unfold date_ltb, date_key.
  rewrite !orb_true_iff, !andb_true_iff, !orb_true_iff, !andb_true_iff, !Z.ltb_lt, !Z.eqb_eq. lia.
Qed.

Lemma key_inj d e :
  valid_date d = true → valid_date e = true → date_key d = date_key e → d = e.
Proof.
  intros Hd%valid_spec He%valid_spec Hk. pose proof (month_days (year d) (month d)).
  pose proof (month_days (year e) (month e)). unfold date_key in Hk.
  destruct d as [y m d], e as [y' m' d']. cbn [year month day] in *. f_equal; lia.
Qed.

Lemma year_days y : days_before_year (y + 1) = days_before_year y + 365 + (if is_leap y then 1 else 0).
Proof.
  unfold days_before_year, is_leap. replace (y + 1 - 1) with y by lia.
  destruct (Z.eqb_spec (y mod 4) 0), (Z.eqb_spec (y mod 100) 0), (Z.eqb_spec (y mod 400) 0); cbn;
    Z.to_euclidean_division_equations; lia.
Qed.

Lemma days_before_year_mono y y' : y ≤ y' → days_before_year y ≤ days_before_year y'.
Proof.
  intros H. replace y' with (y + (y' - y)) by lia.
  apply (natlike_ind (λ n, days_before_year y ≤ days_before_year (y + n))); [|..|lia].
  - by rewrite Z.add_0_r.
  - intros n _ IH. rewrite Z.add_succ_r. unfold Z.succ. rewrite year_days. destruct (is_leap _); lia.
Qed.

(** Every month starts where the month before ends. *)
Lemma month_step y m :
  1 ≤ m < 12 → days_before_month y (m + 1) = days_before_month y m + days_in_month y m.
Proof.
  intros H. assert (m = 1 ∨ m = 2 ∨ m = 3 ∨ m = 4 ∨ m = 5 ∨ m = 6 ∨ m = 7 ∨ m = 8 ∨ m = 9 ∨ m = 10
    ∨ m = 11) as Hm by lia.
  unfold days_before_month, days_in_month.
  repeat destruct Hm as [->|Hm]; subst; cbn; destruct (is_leap y); reflexivity.
Qed.

Lemma december y :
  days_before_month y 12 + days_in_month y 12 = 365 + (if is_leap y then 1 else 0).
Proof. unfold days_before_month, days_in_month. cbn. destruct (is_leap y); reflexivity. Qed.

Lemma days_before_month_mono y m m' :
  1 ≤ m → m < m' → m' ≤ 12 → days_before_month y m + days_in_month y m ≤ days_before_month y m'.
Proof.
  intros H1 H2 H3. rewrite <- month_step by lia.
  assert (∀ n, (0 ≤ n) → m + 1 + n ≤ 12 → days_before_month y (m + 1) ≤ days_before_month y (m + 1 + n)) as H.
  { apply (natlike_ind (λ n, m + 1 + n ≤ 12 →
      days_before_month y (m + 1) ≤ days_before_month y (m + 1 + n))); [intros _; by rewrite Z.add_0_r|].
    intros n Hn IH Hle. rewrite Z.add_succ_r. unfold Z.succ. rewrite (month_step y (m + 1 + n)) by lia.
    pose proof (month_days y (m + 1 + n)). specialize (IH ltac:(lia)). lia. }
  replace m' with (m + 1 + (m' - m - 1)) by lia. apply H; lia.
Qed.

Lemma ordinal_mono d e :
  valid_date d = true → valid_date e = true → date_key d < date_key e → toordinal d < toordinal e.
Proof.
  intros Hd%valid_spec He%valid_spec Hk. unfold toordinal.
  pose proof (month_days (year d) (month d)). pose proof (month_days (year e) (month e)).
  unfold date_key in Hk.
  assert (year d < year e ∨ year d = year e ∧ (month d < month e ∨ month d = month e ∧ day d < day e))
    as [Hy|[Hy [Hm|[Hm Hday]]]] by lia.
  - pose proof (days_before_year_mono (year d + 1) (year e)) as H1. rewrite year_days in H1.
    pose proof (december (year d)).
    assert (days_before_month (year d) (month d) + days_in_month (year d) (month d)
            ≤ days_before_month (year d) 12 + days_in_month (year d) 12).
    { destruct (Z.eq_dec (month d) 12) as [->|]; [lia|].
      pose proof (days_before_month_mono (year d) (month d) 12).
      pose proof (month_days (year d) 12). lia. }
    assert (0 ≤ days_before_month (year e) (month e)).
    { unfold days_before_month. repeat case_match; lia. }
    lia.
  - rewrite Hy. pose proof (days_before_month_mono (year e) (month d) (month e)). rewrite Hy in *. lia.
  - rewrite Hy, Hm. lia.
Qed.

Lemma ordinal_lt d e :
  valid_date d = true → valid_date e = true → date_key d < date_key e ↔ toordinal d < toordinal e.
Proof.
  intros Hd He. split; [by apply ordinal_mono|]. intros Ho.
  destruct (Z.lt_trichotomy (date_key d) (date_key e)) as [|[Hk|Hk]]; [done| |].
  - apply key_inj in Hk; [subst; lia|done|done].
  - apply ordinal_mono in Hk; [lia|done|done].
Qed.

Lemma ordinal_inj d e :
  valid_date d = true → valid_date e = true → toordinal d = toordinal e → d = e.
Proof.
  intros Hd He Ho. apply key_inj; [done..|].
  destruct (Z.lt_trichotomy (date_key d) (date_key e)) as [Hk|[|Hk]]; [|done|];
    apply ordinal_lt in Hk; done || lia.
Qed.

(** ** Days added *)

Lemma next_day_spec d d' :
  valid_date d = true → next_day d = Ok d' → valid_date d' = true ∧ toordinal d' = toordinal d + 1.
Proof.
  intros Hd%valid_spec. unfold next_day.
  destruct (Z.ltb_spec (day d) (days_in_month (year d) (month d))) as [H1|H1].
  { intros [= <-]. split; [apply valid_spec; cbn [year month day]; lia|].
    unfold toordinal. cbn [year month day]. lia. }
  destruct (Z.ltb_spec (month d) 12) as [H2|H2].
  { intros [= <-]. split.
    - apply valid_spec; cbn [year month day]. pose proof (month_days (year d) (month d + 1)). lia.
    - unfold toordinal. cbn [year month day]. rewrite month_step by lia. lia. }
  destruct (Z.ltb_spec (year d) 9999) as [H3|H3]; [|done]. intros [= <-].
  assert (month d = 12) as E by lia. split; [apply valid_spec; cbn; lia|].
  unfold toordinal. cbn [year month day]. rewrite year_days. pose proof (december (year d)).
  rewrite E in *. change (days_before_month (year d + 1) 1) with 0. lia.
Qed.

Lemma next_day_Ok d : valid_date d = true → year d < 9999 → is_Ok (next_day d).
Proof.
  intros Hd%valid_spec Hy. unfold next_day. destruct (_ <? _); [by eexists|].
  destruct (_ <? 12); [by eexists|]. rewrite (proj2 (Z.ltb_lt _ _)) by done. by eexists.
Qed.

Lemma previous_day_spec d d' :
  valid_date d = true → previous_day d = Ok d' → valid_date d' = true ∧ toordinal d' = toordinal d - 1.
Proof.
  intros Hd%valid_spec. unfold previous_day.
  destruct (Z.ltb_spec 1 (day d)) as [H1|H1].
  { intros [= <-]. split; [apply valid_spec; cbn [year month day]; lia|].
    unfold toordinal. cbn [year month day]. lia. }
  destruct (Z.ltb_spec 1 (month d)) as [H2|H2].
  { intros [= <-]. pose proof (month_days (year d) (month d - 1)). split.
    - apply valid_spec; cbn [year month day]. lia.
    - unfold toordinal. cbn [year month day].
      pose proof (month_step (year d) (month d - 1)) as E. replace (month d - 1 + 1) with (month d) in E by lia.
      lia. }
  destruct (Z.ltb_spec 1 (year d)) as [H3|H3]; [|done]. intros [= <-].
  assert (month d = 1) as E by lia. split; [apply valid_spec; cbn; lia|].
  unfold toordinal. cbn [year month day]. pose proof (year_days (year d - 1)) as Hy.
  replace (year d - 1 + 1) with (year d) in Hy by lia. pose proof (december (year d - 1)) as Hdec.
  change (days_in_month (year d - 1) 12) with 31 in Hdec. rewrite E.
  change (days_before_month (year d) 1) with 0. lia.
Qed.

Lemma add_days_spec n d d' :
  valid_date d = true → add_days n d = Ok d' → valid_date d' = true ∧ toordinal d' = toordinal d + n.
Proof.
  intros Hd. unfold add_days.
  assert (∀ k f s d d', (∀ d d', valid_date d = true → f d = Ok d' →
      valid_date d' = true ∧ toordinal d' = toordinal d + s) →
    valid_date d = true → days_times k f d = Ok d' →
    valid_date d' = true ∧ toordinal d' = toordinal d + s * Z.of_nat k) as H.
  { intros k f s. induction k as [|k IH]; intros u u' Hf Hu; cbn [days_times].
    - intros [= <-]. split; [done|lia].
    - intros (v & Hv & Hk)%bind_Ok. apply Hf in Hv as [Hv1 Hv2]; [|done].
      apply IH in Hk as [Hk1 Hk2]; [|done|done]. split; [done|]. lia. }
  destruct (Z.leb_spec 0 n) as [Hn|Hn].
  - intros [H1 H2]%(H _ _ 1); [split; [done|lia]|apply next_day_spec|done].
  - intros [H1 H2]%(H _ _ (-1)); [split; [done|lia]|apply previous_day_spec|done].
Qed.

(** Going back to the first day of the calendar never fails. *)
Lemma add_days_back n d :
  valid_date d = true → 0 ≤ n → 1 ≤ toordinal d - n → is_Ok (add_days (- n) d).
Proof.
  intros Hd Hn Ho. unfold add_days.
  destruct (Z.leb_spec 0 (- n)) as [H|H]; [replace n with 0 by lia; by eexists|].
  rewrite Z.opp_involutive. assert (1 ≤ toordinal d - Z.of_nat (Z.to_nat n)) as Hk by lia.
  clear -Hd Hk. revert d Hd Hk.
  induction (Z.to_nat n) as [|k IH]; intros d Hd Ho; [by eexists|].
  cbn [days_times]. assert (is_Ok (previous_day d)) as [d' Hd'].
  { unfold previous_day. destruct (Z.ltb_spec 1 (day d)) as [|H1]; [by eexists|].
    destruct (Z.ltb_spec 1 (month d)) as [|H2]; [by eexists|].
    destruct (Z.ltb_spec 1 (year d)) as [|H3]; [by eexists|]. exfalso.
    apply valid_spec in Hd. unfold toordinal in Ho.
    assert (year d = 1 ∧ month d = 1 ∧ day d = 1) as (E1 & E2 & E3) by lia.
    rewrite E1, E2, E3 in Ho. change (days_before_year 1) with 0 in Ho.
    change (days_before_month 1 1) with 0 in Ho. lia. }
  rewrite Hd'. apply previous_day_spec in Hd' as [H1 H2]; [|done]. apply IH; [done|lia].
Qed.

Lemma ordinal_positive d : valid_date d = true → 1 ≤ toordinal d.
Proof.
  intros Hd%valid_spec. unfold toordinal. pose proof (days_before_year_mono 1 (year d)) as H.
  change (days_before_year 1) with 0 in H.
  assert (0 ≤ days_before_month (year d) (month d)) by (unfold days_before_month; repeat case_match; lia).
  lia.
Qed.

(** Going forward to the last day never fails. *)
Definition last_ordinal : Z := 3652059.

Lemma next_day_total d : valid_date d = true → toordinal d < last_ordinal → is_Ok (next_day d).
Proof.
  intros Hd Ho. unfold next_day. destruct (Z.ltb_spec (day d) (days_in_month (year d) (month d))); [by eexists|].
  destruct (Z.ltb_spec (month d) 12); [by eexists|]. destruct (Z.ltb_spec (year d) 9999); [by eexists|].
  exfalso. apply valid_spec in Hd. unfold toordinal in Ho.
  assert (year d = 9999 ∧ month d = 12) as [E1 E2] by lia. rewrite E1, E2 in *.
  change (days_before_year 9999) with 3651694 in Ho. change (days_before_month 9999 12) with 334 in Ho.
  change (days_in_month 9999 12) with 31 in *. unfold last_ordinal in Ho. lia.
Qed.

Lemma add_days_forward n d :
  valid_date d = true → 0 ≤ n → toordinal d + n ≤ last_ordinal → is_Ok (add_days n d).
Proof.
  intros Hd Hn Ho. unfold add_days. rewrite (proj2 (Z.leb_le _ _)) by done.
  assert (toordinal d + Z.of_nat (Z.to_nat n) ≤ last_ordinal) as Hk by lia. clear -Hd Hk.
  revert d Hd Hk. induction (Z.to_nat n) as [|k IH]; intros d Hd Ho; [by eexists|].
  cbn [days_times]. destruct (next_day_total d) as [d' Hd']; [done|lia|]. rewrite Hd'.
  apply next_day_spec in Hd' as [H1 H2]; [|done]. apply IH; [done|lia].
Qed.

Lemma ordinal_year d : valid_date d = true → toordinal d ≤ days_before_year (year d + 1).
Proof.
  intros Hd%valid_spec. unfold toordinal. rewrite year_days. pose proof (december (year d)) as Hdec.
  destruct (Z.eq_dec (month d) 12) as [E|E]; [rewrite E in *; lia|].
  pose proof (days_before_month_mono (year d) (month d) 12). pose proof (month_days (year d) 12). lia.
Qed.
