(* ===== verification/PartialPeriod.v ===== *)
(** * Partial periods ([partial_period.py], [_build_partial_period_union_query])

    A date filter on a view aggregated by period is answered from two views: whole
    finished periods from the aggregated one, the rest from a finer one.  Here the
    periods and the cut points; the SQL of the branches is not modelled. *)
From stdpp Require Import base decidable strings list.
From Stdlib Require Import ZArith Lia Ascii.
From S2P Require Import Prelude PyVal Dates Views.

Local Open Scope py_scope.
Local Open Scope Z_scope.

(** ** Periods *)

Definition _is_period_aligned (dt : pydate) (trunc : string) : result bool :=
  _validate_grain_trunc trunc;;
  if trunc =s "day" then Ok true
  else if trunc =s "week" then Ok (weekday dt =? 0)
  else if trunc =s "half_month" then Ok ((day dt =? 1) || (day dt =? 16))
  else if trunc =s "month" then Ok (day dt =? 1)
  else if trunc =s "quarter" then
    Ok ((day dt =? 1) && ((month dt =? 1) || (month dt =? 4) || (month dt =? 7) || (month dt =? 10)))
  else if trunc =s "semester" then Ok ((day dt =? 1) && ((month dt =? 1) || (month dt =? 7)))
  else Ok ((day dt =? 1) && (month dt =? 1)).

Definition _period_start (dt : pydate) (trunc : string) : result pydate :=
  _validate_grain_trunc trunc;;
  if trunc =s "day" then Ok dt
  else if trunc =s "week" then add_days (- weekday dt) dt
  else if trunc =s "half_month" then
    if day dt <=? 15 then date_new (year dt) (month dt) 1 else date_new (year dt) (month dt) 16
  else if trunc =s "month" then date_new (year dt) (month dt) 1
  else if trunc =s "quarter" then date_new (year dt) ((month dt - 1) / 3 * 3 + 1) 1
  else if trunc =s "semester" then date_new (year dt) (if month dt <=? 6 then 1 else 7) 1
  else date_new (year dt) 1 1.

Definition _next_period_start (dt : pydate) (trunc : string) : result pydate :=
  start ← _period_start dt trunc;
  if trunc =s "day" then add_days 1 start
  else if trunc =s "week" then add_days 7 start
  else if trunc =s "half_month" then
    if day start =? 1 then date_new (year start) (month start) 16
    else if month start =? 12 then date_new (year start + 1) 1 1
    else date_new (year start) (month start + 1) 1
  else if trunc =s "month" then
    if month start =? 12 then date_new (year start + 1) 1 1
    else date_new (year start) (month start + 1) 1
  else if trunc =s "quarter" then
    if month start =? 10 then date_new (year start + 1) 1 1
    else date_new (year start) (month start + 3) 1
  else if trunc =s "semester" then
    if month start =? 7 then date_new (year start + 1) 1 1 else date_new (year start) 7 1
  else date_new (year start + 1) 1 1.

(** ** The cut points of the union *)

(** [min] and [max] return the first of two equal dates. *)
Record cuts := { p0 : pydate; p1 : pydate; p2 : pydate; p3 : pydate }.

Definition cut_points (trunc : string) (lower_bound : pydate) (upper_bound_exclusive : option pydate)
    (today : pydate) : result cuts :=
  today_exclusive ← add_days 1 today;
  current_ps ← _period_start today trunc;
  let lo := lower_bound in
  let hi :=
    match upper_bound_exclusive with
    | None => today_exclusive
    | Some u => date_min u today_exclusive
    end in
  lo_aligned ← _is_period_aligned lo trunc;
  coarse_start ← (if lo_aligned : bool then Ok lo else _next_period_start lo trunc);
  hi_aligned ← _is_period_aligned hi trunc;
  upper_coarse_end ←
    (if hi_aligned : bool then Ok hi else last ← add_days (-1) hi; _period_start last trunc);
  let coarse_end := date_min upper_coarse_end current_ps in
  let p1 := date_min (date_max coarse_start lo) hi in
  let p2 := date_min (date_max coarse_end p1) hi in
  Ok {| p0 := lo; p1 := p1; p2 := p2; p3 := hi |}.

Inductive grain := Fine | Coarse.

(** The branches of the union: the view they read and their half-open interval. *)
Definition branches (c : cuts) : list (grain * (pydate * pydate)) :=
  let l :=
    (if date_ltb (p0 c) (p1 c) then [(Fine, (p0 c, p1 c))] else [])
      ++ (if date_ltb (p1 c) (p2 c) then [(Coarse, (p1 c, p2 c))] else [])
      ++ (if date_ltb (p2 c) (p3 c) then [(Fine, (p2 c, p3 c))] else []) in
  match l with [] => [(Fine, (p0 c, p0 c))] | _ => l end.

Definition union_branches (trunc : string) (lower_bound : pydate)
    (upper_bound_exclusive : option pydate) (today : pydate)
    : result (list (grain * (pydate * pydate))) :=
  branches <$> cut_points trunc lower_bound upper_bound_exclusive today.

Example union_example :
  union_branches "month" (Date 2024 1 15) None (Date 2024 6 20)
  = Ok [(Fine, (Date 2024 1 15, Date 2024 2 1)); (Coarse, (Date 2024 2 1, Date 2024 6 1));
        (Fine, (Date 2024 6 1, Date 2024 6 21))].
Proof. vm_compute. reflexivity. Qed.

(** ** Laws of the periods *)

Definition le (d e : pydate) : Prop := date_key d ≤ date_key e.
Definition lt (d e : pydate) : Prop := date_key d < date_key e.

Definition is_trunc (trunc : string) : bool := trunc in_ _VALID_GRAIN_TRUNCS.

(** One proof per grain: the seven cases of a valid one. *)
Ltac each_trunc H :=
  unfold is_trunc in H; apply str_in_true in H;
  repeat (apply elem_of_cons in H as [->|H]); [..|by apply not_elem_of_nil in H].

Lemma date_new_valid y m d e : date_new y m d = Ok e → e = Date y m d ∧ valid_date e = true.
Proof. unfold date_new. destruct (valid_date _) eqn:E; [by intros [= <-]|done]. Qed.

Lemma date_new_first y m : 1 ≤ y ≤ 9999 → 1 ≤ m ≤ 12 → date_new y m 1 = Ok (Date y m 1).
Proof.
  intros Hy Hm. unfold date_new. destruct (valid_date _) eqn:E; [done|].
  apply not_true_iff_false in E. exfalso. apply E, valid_spec. cbn [year month day].
  pose proof (month_days y m). lia.
Qed.

Lemma date_new_sixteenth y m : 1 ≤ y ≤ 9999 → 1 ≤ m ≤ 12 → date_new y m 16 = Ok (Date y m 16).
Proof.
  intros Hy Hm. unfold date_new. destruct (valid_date _) eqn:E; [done|].
  apply not_true_iff_false in E. exfalso. apply E, valid_spec. cbn [year month day].
  pose proof (month_days y m). lia.
Qed.

Lemma valid_first y m k : 1 ≤ y ≤ 9999 → 1 ≤ m ≤ 12 → 1 ≤ k ≤ 28 → valid_date (Date y m k) = true.
Proof.
  intros. apply valid_spec. cbn [year month day]. pose proof (month_days y m). lia.
Qed.

(** Reduce the code on a concrete grain. *)
Ltac grain :=
  unfold _period_start, _next_period_start, _is_period_aligned in *;
  repeat match goal with
  | |- context [_validate_grain_trunc ?t] => change (_validate_grain_trunc t) with (Ok t)
  | H : context [_validate_grain_trunc ?t] |- _ => change (_validate_grain_trunc t) with (Ok t) in H
  end;
  repeat match goal with
  | |- context [?a =s ?b] => (change (a =s b) with true || change (a =s b) with false)
  | H : context [?a =s ?b] |- _ =>
      (change (a =s b) with true in H || change (a =s b) with false in H)
  end;
  cbn [mbind result_bind] in *.

(** The start of a calendar period, and of the next one, as dates. *)
Definition start_of (d : pydate) (trunc : string) : pydate :=
  if trunc =s "day" then d
  else if trunc =s "half_month" then Date (year d) (month d) (if day d <=? 15 then 1 else 16)
  else if trunc =s "month" then Date (year d) (month d) 1
  else if trunc =s "quarter" then Date (year d) ((month d - 1) / 3 * 3 + 1) 1
  else if trunc =s "semester" then Date (year d) (if month d <=? 6 then 1 else 7) 1
  else Date (year d) 1 1.

Ltac start_eq :=
  unfold start_of in *;
  repeat match goal with
  | |- context [?a =s ?b] => (change (a =s b) with true || change (a =s b) with false)
  | H : context [?a =s ?b] |- _ =>
      (change (a =s b) with true in H || change (a =s b) with false in H)
  end; cbn iota in *.

Lemma start_calendar d trunc :
  valid_date d = true → is_trunc trunc = true → trunc ≠ "week" →
  _period_start d trunc = Ok (start_of d trunc) ∧ valid_date (start_of d trunc) = true
  ∧ le (start_of d trunc) d.
Proof.
  intros Hd Ht Hw. pose proof Hd as (Hy & Hm & Hday)%valid_spec. unfold le, date_key.
  each_trunc Ht; try done; grain; start_eq; cbn [year month day].
  - destruct (Z.leb_spec (day d) 15).
    + rewrite date_new_first by lia. split_and!; [done|apply valid_first; lia|lia].
    + rewrite date_new_sixteenth by lia. split_and!; [done|apply valid_first; lia|lia].
  - rewrite date_new_first by lia. split_and!; [done|apply valid_first; lia|lia].
  - assert (1 ≤ (month d - 1) / 3 * 3 + 1 ≤ month d) by (Z.to_euclidean_division_equations; lia).
    rewrite date_new_first by lia. split_and!; [done|apply valid_first; lia|lia].
  - assert (1 ≤ (if month d <=? 6 then 1 else 7) ≤ month d) by (destruct (Z.leb_spec (month d) 6); lia).
    rewrite date_new_first by lia. split_and!; [done|apply valid_first; lia|lia].
  - rewrite date_new_first by lia. split_and!; [done|apply valid_first; lia|lia].
Qed.

(** Dates between the start of a period and one of its dates have that start. *)
Lemma start_between d e trunc :
  valid_date d = true → valid_date e = true → is_trunc trunc = true → trunc ≠ "week" →
  trunc ≠ "day" → le (start_of d trunc) e → le e d → start_of e trunc = start_of d trunc.
Proof.
  intros Hd He Ht Hw Hday H1 H2. apply valid_spec in Hd, He. unfold le, date_key in *.
  pose proof (month_days (year d) (month d)). pose proof (month_days (year e) (month e)).
  each_trunc Ht; try done; start_eq; cbn [year month day] in *.
  - destruct (Z.leb_spec (day d) 15), (Z.leb_spec (day e) 15); f_equal; lia.
  - f_equal; lia.
  - f_equal; Z.to_euclidean_division_equations; lia.
  - destruct (Z.leb_spec (month d) 6), (Z.leb_spec (month e) 6); f_equal; lia.
  - f_equal; lia.
Qed.

(** The week starts on the Monday on or before the date. *)
Lemma start_week d :
  valid_date d = true →
  ∃ s, _period_start d "week" = Ok s ∧ valid_date s = true
       ∧ toordinal s = toordinal d - weekday d.
Proof.
  intros Hd. grain. pose proof (ordinal_positive d Hd) as Ho.
  assert (0 ≤ weekday d < 7) as Hw by (apply Z.mod_pos_bound; lia).
  destruct (add_days_back (weekday d) d) as [s Hs]; [done|lia| |].
  { unfold weekday in *. Z.to_euclidean_division_equations; lia. }
  exists s. split; [done|]. apply add_days_spec in Hs as [H1 H2]; [|done]. split; [done|lia].
Qed.

Lemma le_ordinal d e : valid_date d = true → valid_date e = true → le d e ↔ toordinal d ≤ toordinal e.
Proof. intros Hd He. pose proof (ordinal_lt e d He Hd). unfold le. lia. Qed.

Lemma lt_ordinal d e : valid_date d = true → valid_date e = true → lt d e ↔ toordinal d < toordinal e.
Proof. intros Hd He. by apply ordinal_lt. Qed.

Lemma le_antisym d e : valid_date d = true → valid_date e = true → le d e → le e d → d = e.
Proof. intros Hd He H1 H2. apply key_inj; [done..|]. unfold le in *. lia. Qed.

(** Two dates less than a week after the same Monday have it as their start. *)
Lemma week_start_eq s e :
  valid_date s = true → valid_date e = true → weekday s = 0 →
  toordinal s ≤ toordinal e < toordinal s + 7 → _period_start e "week" = Ok s.
Proof.
  intros Hs He Hw Ho. destruct (start_week e He) as (s' & -> & Hs' & E). f_equal.
  apply ordinal_inj; [done..|]. unfold weekday in *. Z.to_euclidean_division_equations; lia.
Qed.

Lemma week_monday d s :
  valid_date d = true → _period_start d "week" = Ok s →
  valid_date s = true ∧ weekday s = 0 ∧ toordinal s ≤ toordinal d < toordinal s + 7.
Proof.
  intros Hd Hs. destruct (start_week d Hd) as (s' & E & Hv & Ho). rewrite E in Hs. injection Hs as ->.
  split; [done|]. unfold weekday in *. Z.to_euclidean_division_equations; lia.
Qed.

Lemma week_cases trunc : trunc = "week" ∨ trunc ≠ "week".
Proof. destruct (decide (trunc = "week")); auto. Qed.

Lemma period_start_laws d trunc :
  valid_date d = true → is_trunc trunc = true →
  ∃ s, _period_start d trunc = Ok s ∧ valid_date s = true ∧ le s d
    ∧ ∀ e, valid_date e = true → le s e → le e d → _period_start e trunc = Ok s.
Proof.
  intros Hd Ht. destruct (week_cases trunc) as [->|Hw].
  - destruct (start_week d Hd) as (s & Hs & _). destruct (week_monday d s Hd Hs) as (Hv & Hm & Ho).
    exists s. split_and!; [done|done|by apply le_ordinal; [..|lia]|].
    intros e He H1 H2. apply le_ordinal in H1, H2; [|done..]. apply week_start_eq; [done..|lia].
  - destruct (start_calendar d trunc Hd Ht Hw) as (Hs & Hv & Hle).
    exists (start_of d trunc). split_and!; [done..|]. intros e He H1 H2.
    destruct (start_calendar e trunc He Ht Hw) as (-> & _). f_equal.
    destruct (decide (trunc = "day")) as [->|Hday]; [|by apply start_between].
    start_eq. by apply le_antisym.
Qed.

Lemma next_calendar d trunc n :
  valid_date d = true → is_trunc trunc = true → trunc ≠ "week" → trunc ≠ "day" →
  _next_period_start d trunc = Ok n →
  valid_date n = true ∧ lt d n ∧ start_of n trunc = n
  ∧ ∀ e, valid_date e = true → le (start_of d trunc) e → lt e n → start_of e trunc = start_of d trunc.
Proof.
  intros Hd Ht Hw Hday Hn. destruct (start_calendar d trunc Hd Ht Hw) as (Hs & Hv & Hle).
  unfold _next_period_start in Hn. rewrite Hs in Hn. cbn [mbind result_bind] in Hn.
  apply valid_spec in Hd, Hv. unfold le, lt, date_key in *.
  pose proof (month_days (year d) (month d)).
  assert (∀ e, valid_date e = true → 1 ≤ month e ≤ 12 ∧ 1 ≤ day e ≤ 31) as Hval.
  { intros e He%valid_spec. pose proof (month_days (year e) (month e)). lia. }
  each_trunc Ht; try done; grain; start_eq; cbn [year month day] in *.
  - destruct (Z.leb_spec (day d) 15); cbn in Hn;
      [|destruct (Z.eqb_spec (month d) 12)]; apply date_new_valid in Hn as [-> Hn];
      cbn [year month day] in *; (split_and!; [done|lia|done|]); intros u Hu%Hval H1 H2;
      destruct (Z.leb_spec (day u) 15); f_equal; lia.
  - destruct (Z.eqb_spec (month d) 12); apply date_new_valid in Hn as [-> Hn];
      cbn [year month day] in *; (split_and!; [done|lia|done|]); intros u Hu%Hval H1 H2; f_equal; lia.
  - assert (1 ≤ (month d - 1) / 3 * 3 + 1 ≤ month d ∧ month d ≤ (month d - 1) / 3 * 3 + 3) as Hq
      by (Z.to_euclidean_division_equations; lia).
    destruct (Z.eqb_spec ((month d - 1) / 3 * 3 + 1) 10); apply date_new_valid in Hn as [-> Hn];
      cbn [year month day] in *;
      (split_and!; [done|lia|f_equal; Z.to_euclidean_division_equations; lia|]);
      intros u Hu%Hval H1 H2; f_equal; Z.to_euclidean_division_equations; lia.
  - destruct (Z.leb_spec (month d) 6); cbn in Hn; apply date_new_valid in Hn as [-> Hn];
      cbn [year month day] in *; (split_and!; [done|lia|done|]); intros u Hu%Hval H1 H2;
      destruct (Z.leb_spec (month u) 6); f_equal; lia.
  - apply date_new_valid in Hn as [-> Hn];
      cbn [year month day] in *; (split_and!; [done|lia|done|]); intros u Hu%Hval H1 H2; f_equal; lia.
Qed.

Lemma next_period_laws d trunc s n :
  valid_date d = true → is_trunc trunc = true →
  _period_start d trunc = Ok s → _next_period_start d trunc = Ok n →
  valid_date n = true ∧ lt d n ∧ _period_start n trunc = Ok n
  ∧ ∀ e, valid_date e = true → le s e → lt e n → _period_start e trunc = Ok s.
Proof.
  intros Hd Ht Hs Hn. destruct (week_cases trunc) as [->|Hw].
  - destruct (week_monday d s Hd Hs) as (Hv & Hm & Ho).
    unfold _next_period_start in Hn. rewrite Hs in Hn. cbn [mbind result_bind] in Hn.
    change (add_days 7 s = Ok n) in Hn. apply add_days_spec in Hn as [Hvn Hon]; [|done].
    split_and!; [done|apply lt_ordinal; [done..|lia]| |].
    + apply week_start_eq; [done..| |lia]. unfold weekday in *. Z.to_euclidean_division_equations; lia.
    + intros e He H1 H2. apply le_ordinal in H1; [|done..]. apply lt_ordinal in H2; [|done..].
      apply week_start_eq; [done..|lia].
  - destruct (start_calendar d trunc Hd Ht Hw) as (E & Hv & Hle).
    destruct (decide (trunc = "day")) as [->|Hday].
    + rewrite E in Hs. injection Hs as <-. unfold _next_period_start in Hn. rewrite E in Hn.
      change (add_days 1 d = Ok n) in Hn. apply add_days_spec in Hn as [Hvn Hon]; [|done].
      split_and!; [done|apply lt_ordinal; [done..|lia]|done|].
      intros e He H1 H2. change (Ok e = Ok d). f_equal. start_eq.
      apply le_ordinal in H1; [|done..]. apply lt_ordinal in H2; [|done..].
      apply ordinal_inj; [done..|lia].
    + destruct (next_calendar d trunc n Hd Ht Hw Hday Hn) as (H1 & H2 & H3 & H4).
      rewrite E in Hs. injection Hs as <-. split_and!; [done..| |].
      * destruct (start_calendar n trunc H1 Ht Hw) as (-> & _). by rewrite H3.
      * intros e He H5 H6. destruct (start_calendar e trunc He Ht Hw) as (-> & _). f_equal. by apply H4.
Qed.

(** A date is aligned when it starts its period. *)
Lemma aligned_laws d trunc :
  valid_date d = true → is_trunc trunc = true →
  ∃ b, _is_period_aligned d trunc = Ok b ∧ (b = true ↔ _period_start d trunc = Ok d).
Proof.
  intros Hd Ht. destruct (week_cases trunc) as [->|Hw].
  - grain. eexists. split; [done|]. rewrite Z.eqb_eq. split.
    + intros ->. done.
    + intros H. apply add_days_spec in H as [_ H]; [lia|done].
  - destruct (start_calendar d trunc Hd Ht Hw) as (-> & _ & _).
    pose proof Hd as (Hy & Hm & Hday)%valid_spec. pose proof (month_days (year d) (month d)).
    destruct d as [y m k]. cbn [year month day] in *.
    each_trunc Ht; try done; grain; start_eq; cbn [year month day]; eexists; (split; [done|]);
      rewrite ?andb_true_iff, ?orb_true_iff, ?Z.eqb_eq.
    + done.
    + destruct (Z.leb_spec k 15); (split; [intros ?; f_equal; f_equal; lia|intros [=]; lia]).
    + split; [intros ->; done|by intros [=]].
    + split; [intros [-> ?]; f_equal; f_equal; Z.to_euclidean_division_equations; lia|].
      intros [= H1 H2]. split; [done|]. Z.to_euclidean_division_equations; lia.
    + destruct (Z.leb_spec m 6); (split; [intros [-> ?]; f_equal; f_equal; lia|intros [=]; lia]).
    + split; [intros [-> ->]; done|by intros [=]].
Qed.

(** ** The branches *)

Lemma key_min d e :
  valid_date d = true → valid_date e = true →
  valid_date (date_min d e) = true ∧ date_key (date_min d e) = Z.min (date_key d) (date_key e).
Proof.
  intros Hd He. unfold date_min. destruct (date_ltb e d) eqn:E.
  - apply ltb_key in E; [|done..]. split; [done|lia].
  - split; [done|]. apply not_true_iff_false in E. rewrite ltb_key in E by done. lia.
Qed.

Lemma key_max d e :
  valid_date d = true → valid_date e = true →
  valid_date (date_max d e) = true ∧ date_key (date_max d e) = Z.max (date_key d) (date_key e).
Proof.
  intros Hd He. unfold date_max. destruct (date_ltb d e) eqn:E.
  - apply ltb_key in E; [|done..]. split; [done|lia].
  - split; [done|]. apply not_true_iff_false in E. rewrite ltb_key in E by done. lia.
Qed.

(** A date that starts a period. *)
Definition boundary (trunc : string) (d : pydate) : Prop :=
  valid_date d = true ∧ _period_start d trunc = Ok d.

Lemma start_boundary d trunc s :
  valid_date d = true → is_trunc trunc = true → _period_start d trunc = Ok s →
  boundary trunc s ∧ le s d.
Proof.
  intros Hd Ht Hs. destruct (period_start_laws d trunc Hd Ht) as (s' & E & Hv & Hle & Hb).
  rewrite Hs in E. injection E as <-. split; [|done]. split; [done|]. apply Hb; [done|unfold le; lia|done].
Qed.

(** No period reaches over a boundary. *)
Lemma boundary_splits trunc b e u s :
  is_trunc trunc = true → boundary trunc b → valid_date e = true → valid_date u = true →
  _period_start e trunc = Ok s → _period_start u trunc = Ok s → lt e b → lt u b.
Proof.
  intros Ht [Hb Hbb] He Hu Hse Hsu Heb. unfold lt.
  destruct (Z.lt_ge_cases (date_key u) (date_key b)) as [|Hge]; [done|exfalso].
  destruct (start_boundary e trunc s He Ht Hse) as [[Hs _] Hle].
  destruct (period_start_laws u trunc Hu Ht) as (s' & E & _ & _ & Hbetween).
  rewrite Hsu in E. injection E as <-.
  unfold lt, le in *. rewrite (Hbetween b) in Hbb; [|done|unfold le; lia|unfold le; lia].
  injection Hbb as ->. lia.
Qed.

(** No period starts between a date that starts none and the next start. *)
Lemma next_boundary trunc d n b :
  is_trunc trunc = true → valid_date d = true → _period_start d trunc ≠ Ok d → _next_period_start d trunc = Ok n →
  boundary trunc b → le d b → le n b.
Proof.
  intros Ht Hd Hno Hn [Hvb Hb] Hle. destruct (Z.le_gt_cases (date_key n) (date_key b)) as [|Hlt]; [done|exfalso].
  destruct (period_start_laws d trunc Hd Ht) as (s & Hs & Hvs & Hsd & _).
  destruct (next_period_laws d trunc s n Hd Ht Hs Hn) as (_ & _ & _ & Hin).
  rewrite (Hin b) in Hb; [|done|unfold le in *; lia|unfold lt; lia]. injection Hb as ->.
  apply Hno. rewrite Hs. f_equal. apply key_inj; [done..|]. unfold le in *. lia.
Qed.

(** The period of a date that starts none is that of the day before. *)
Lemma before_unaligned trunc hi last s e :
  is_trunc trunc = true → valid_date hi = true → _period_start hi trunc ≠ Ok hi → add_days (-1) hi = Ok last →
  _period_start last trunc = Ok s → valid_date e = true → le s e → lt e hi →
  _period_start e trunc = Ok s ∧ _period_start hi trunc = Ok s.
Proof.
  intros Ht Hhi Hno Hlast Hs He Hse Hlt. apply add_days_spec in Hlast as [Hvl Hol]; [|done].
  destruct (period_start_laws last trunc Hvl Ht) as (s' & E & Hvs & Hle & Hin). rewrite Hs in E. injection E as <-. split.
  - apply Hin; [done..|]. apply lt_ordinal in Hlt; [|done..]. apply le_ordinal; [done..|lia].
  - destruct (period_start_laws hi trunc Hhi Ht) as (h & Hh & Hvh & Hlh & Hinh). rewrite Hh. f_equal.
    apply le_ordinal in Hlh as Hlo; [|done..].
    assert (toordinal h ≠ toordinal hi) by (intros E%ordinal_inj; [by subst h|done..]).
    assert (_period_start last trunc = Ok h) as E; [|congruence].
    apply Hinh; [done|apply le_ordinal; [done..|lia]|apply le_ordinal; [done..|lia]].
Qed.

(** What the code of [cut_points] computes. *)
Lemma cut_points_inv trunc lo upper today c :
  is_trunc trunc = true → valid_date lo = true → valid_date today = true →
  (∀ u, upper = Some u → valid_date u = true) →
  cut_points trunc lo upper today = Ok c →
  ∃ tomorrow hi cs uce cps,
    add_days 1 today = Ok tomorrow
    ∧ hi = match upper with Some u => date_min u tomorrow | None => tomorrow end
    ∧ valid_date hi = true
    ∧ boundary trunc cs ∧ le lo cs ∧ boundary trunc uce ∧ le uce hi
    ∧ (∀ b, boundary trunc b → le lo b → le cs b)
    ∧ (∀ e, valid_date e = true → le uce e → lt e hi → _period_start hi trunc = _period_start e trunc)
    ∧ boundary trunc cps ∧ _period_start today trunc = Ok cps
    ∧ c = {| p0 := lo; p1 := date_min (date_max cs lo) hi;
             p2 := date_min (date_max (date_min uce cps) (date_min (date_max cs lo) hi)) hi; p3 := hi |}.
Proof.
  intros Ht Hlo Htoday Hup. unfold cut_points.
  intros (tomorrow & Htm & H)%bind_Ok. apply bind_Ok in H as (cps & Hcps & H). cbn zeta in H.
  apply bind_Ok in H as (b1 & Hb1 & H). apply bind_Ok in H as (cs & Hcs & H).
  apply bind_Ok in H as (b2 & Hb2 & H). apply bind_Ok in H as (uce & Huce & [= <-]).
  set (hi := match upper with None => tomorrow | Some u => date_min u tomorrow end) in *.
  apply add_days_spec in Htm as Hv; [|done]. destruct Hv as [Hvt _].
  assert (valid_date hi = true) as Hhi.
  { unfold hi. destruct upper as [u|]; [|done]. apply key_min; [by apply Hup|done]. }
  exists tomorrow, hi, cs, uce, cps. split_and!; try done.
  - destruct (aligned_laws lo trunc Hlo Ht) as (b & E & Hb). rewrite Hb1 in E. injection E as <-.
    destruct b1; [injection Hcs as <-; split; [done|by apply Hb]|].
    destruct (period_start_laws lo trunc Hlo Ht) as (s & Hs & _).
    destruct (next_period_laws lo trunc s cs Hlo Ht Hs Hcs) as (H1 & _ & H2 & _). by split.
  - destruct b1; [injection Hcs as <-; unfold le; lia|].
    destruct (period_start_laws lo trunc Hlo Ht) as (s & Hs & _).
    destruct (next_period_laws lo trunc s cs Hlo Ht Hs Hcs) as (_ & H1 & _). unfold lt, le in *. lia.
  - destruct (aligned_laws hi trunc Hhi Ht) as (b & E & Hb). rewrite Hb2 in E. injection E as <-.
    destruct b2; [injection Huce as <-; split; [done|by apply Hb]|].
    apply bind_Ok in Huce as (last & Hlast & Hs). apply add_days_spec in Hlast as [H1 _]; [|done].
    by apply (start_boundary last).
  - destruct b2; [injection Huce as <-; unfold le; lia|].
    apply bind_Ok in Huce as (last & Hlast & Hs). apply add_days_spec in Hlast as [H1 H2]; [|done].
    destruct (start_boundary last trunc uce H1 Ht Hs) as [[Hvu _] Hle].
    apply le_ordinal in Hle; [|done..]. apply le_ordinal; [done..|]. lia.
  - destruct b1; [by injection Hcs as <-|]. intros b Hb Hle.
    destruct (aligned_laws lo trunc Hlo Ht) as (b' & E & Hal). rewrite Hb1 in E. injection E as <-.
    apply (next_boundary trunc lo cs b); try done. by intros H3%Hal.
  - destruct b2; [injection Huce as <-; intros e _ H1 H2; unfold le, lt in *; lia|].
    destruct (aligned_laws hi trunc Hhi Ht) as (b' & E & Hal). rewrite Hb2 in E. injection E as <-.
    apply bind_Ok in Huce as (last & Hlast & Hs). intros e He H1 H2.
    destruct (before_unaligned trunc hi last uce e) as [-> ->]; try done. by intros H3%Hal.
  - by apply (start_boundary today).
Qed.

(** [a ≤ e < b] *)
Definition inside (e : pydate) (seg : pydate * pydate) : bool :=
  negb (date_ltb e seg.1) && date_ltb e seg.2.

Definition covering (e : pydate) (bs : list (grain * (pydate * pydate))) : nat :=
  length (List.filter (λ b, inside e b.2) bs).

Lemma inside_key e a b :
  valid_date e = true → valid_date a = true → valid_date b = true →
  inside e (a, b) = (date_key a <=? date_key e) && (date_key e <? date_key b).
Proof.
  intros He Ha Hb. unfold inside. cbn [fst snd].
  assert (∀ d d', valid_date d = true → valid_date d' = true →
    date_ltb d d' = (date_key d <? date_key d')) as H.
  { intros d d' Hd Hd'. apply eq_true_iff_eq. by rewrite ltb_key, Z.ltb_lt. }
  rewrite !H by done. by rewrite Z.ltb_antisym, negb_involutive.
Qed.

Lemma branches_cover c e :
  valid_date (p0 c) = true → valid_date (p1 c) = true → valid_date (p2 c) = true →
  valid_date (p3 c) = true → valid_date e = true →
  date_key (p2 c) ≤ date_key (p3 c) → date_key (p1 c) ≤ date_key (p2 c) →
  (date_key (p0 c) ≤ date_key (p1 c) ∨ date_key (p1 c) = date_key (p3 c)) →
  covering e (branches c) = (if inside e (p0 c, p3 c) then 1%nat else 0%nat).
Proof.
  intros H0 H1 H2 H3 He H23 H12 H01. unfold covering, branches.
  assert (∀ d d', valid_date d = true → valid_date d' = true →
    date_ltb d d' = (date_key d <? date_key d')) as Hltb.
  { intros d d' Hd Hd'. apply eq_true_iff_eq. by rewrite ltb_key, Z.ltb_lt. }
  rewrite !Hltb by done.
  destruct (Z.ltb_spec (date_key (p0 c)) (date_key (p1 c))),
    (Z.ltb_spec (date_key (p1 c)) (date_key (p2 c))),
    (Z.ltb_spec (date_key (p2 c)) (date_key (p3 c))); cbn [app List.filter snd];
    rewrite !inside_key by done;
    destruct (Z.leb_spec (date_key (p0 c)) (date_key e)), (Z.ltb_spec (date_key e) (date_key (p3 c)));
    destruct (Z.leb_spec (date_key (p1 c)) (date_key e)), (Z.ltb_spec (date_key e) (date_key (p1 c)));
    destruct (Z.leb_spec (date_key (p2 c)) (date_key e)), (Z.ltb_spec (date_key e) (date_key (p2 c)));
    try (destruct (Z.ltb_spec (date_key e) (date_key (p0 c)))); cbn; lia.
Qed.

(** The branches of the cut points cover each day of the window once. *)
Lemma cut_points_cover trunc lo upper today c :
  is_trunc trunc = true → valid_date lo = true → valid_date today = true →
  (∀ u, upper = Some u → valid_date u = true) → cut_points trunc lo upper today = Ok c →
  ∃ tomorrow hi, add_days 1 today = Ok tomorrow
    ∧ hi = match upper with Some u => date_min u tomorrow | None => tomorrow end
    ∧ ∀ e, valid_date e = true → covering e (branches c) = if inside e (lo, hi) then 1%nat else 0%nat.
Proof.
  intros Ht Hlo Htoday Hup Hc. destruct (cut_points_inv _ _ _ _ _ Ht Hlo Htoday Hup Hc)
    as (tomorrow & hi & cs & uce & cps & Htm & Hhi & Hvhi & [Hvcs _] & Hlocs & [Hvuce _] & _ & _ & _ & [Hvcps _] & _ & ->).
  exists tomorrow, hi. split; [done|]. split; [done|].
  destruct (key_max cs lo) as [V1 K1]; [done..|].
  destruct (key_min (date_max cs lo) hi) as [V2 K2]; [done..|].
  destruct (key_min uce cps) as [V3 K3]; [done..|].
  destruct (key_max (date_min uce cps) (date_min (date_max cs lo) hi)) as [V4 K4]; [done..|].
  destruct (key_min (date_max (date_min uce cps) (date_min (date_max cs lo) hi)) hi) as [V5 K5]; [done..|].
  intros e He. apply branches_cover; cbn [p0 p1 p2 p3]; try done; unfold le in *; lia.
Qed.

(** Between two boundaries lie whole periods. *)
Lemma whole_periods trunc a b e u s :
  is_trunc trunc = true → boundary trunc a → boundary trunc b →
  valid_date e = true → valid_date u = true →
  _period_start e trunc = Ok s → _period_start u trunc = Ok s →
  inside e (a, b) = true → inside u (a, b) = true.
Proof.
  intros Ht Ha Hb He Hu Hse Hsu. pose proof Ha as [Hva _]. pose proof Hb as [Hvb _].
  rewrite !inside_key, !andb_true_iff, !Z.leb_le, !Z.ltb_lt by done. intros [H1 H2]. split.
  - destruct (Z.lt_ge_cases (date_key u) (date_key a)) as [Hlt|]; [|done].
    apply (boundary_splits trunc a u e s) in Hlt; try done. unfold lt in *. lia.
  - by apply (boundary_splits trunc b e u s).
Qed.

Lemma coarse_periods trunc lo hi cs uce cps a b e u s :
  is_trunc trunc = true → valid_date lo = true → valid_date hi = true →
  boundary trunc cs → le lo cs → boundary trunc uce → le uce hi → boundary trunc cps →
  (Coarse, (a, b)) ∈ branches
    {| p0 := lo; p1 := date_min (date_max cs lo) hi;
       p2 := date_min (date_max (date_min uce cps) (date_min (date_max cs lo) hi)) hi; p3 := hi |} →
  valid_date e = true → valid_date u = true → inside e (a, b) = true →
  _period_start e trunc = Ok s → _period_start u trunc = Ok s →
  inside u (a, b) = true ∧ lt u cps.
Proof.
  intros Ht Hlo Hhi Hcs Hlocs Huce Hucehi Hcps Hin He Hu Hinside Hse Hsu.
  pose proof Hcs as [Hvcs _]. pose proof Huce as [Hvuce _]. pose proof Hcps as [Hvcps _].
  destruct (key_max cs lo) as [V1 K1]; [done..|].
  destruct (key_min (date_max cs lo) hi) as [V2 K2]; [done..|].
  destruct (key_min uce cps) as [V3 K3]; [done..|].
  destruct (key_max (date_min uce cps) (date_min (date_max cs lo) hi)) as [V4 K4]; [done..|].
  destruct (key_min (date_max (date_min uce cps) (date_min (date_max cs lo) hi)) hi) as [V5 K5]; [done..|].
  set (q1 := date_min (date_max cs lo) hi) in *.
  set (q2 := date_min (date_max (date_min uce cps) q1) hi) in *.
  assert (a = q1 ∧ b = q2 ∧ date_key q1 < date_key q2) as (-> & -> & H12).
  { unfold branches in Hin. cbn [p0 p1 p2 p3] in Hin.
    destruct (date_ltb q1 q2) eqn:E; [apply ltb_key in E; [|done..]|];
      destruct (date_ltb lo q1), (date_ltb q2 hi); cbn in Hin;
      repeat (apply elem_of_cons in Hin as [[=]|Hin]); subst; try done; by apply not_elem_of_nil in Hin. }
  assert (boundary trunc q1) as Hb1.
  { assert (q1 = cs) as ->; [|done]. apply key_inj; [done..|]. unfold le in *. lia. }
  assert (boundary trunc q2 ∧ date_key q2 ≤ date_key cps) as [Hb2 Hq2].
  { unfold le in *. split; [|lia].
    destruct (Z.le_gt_cases (date_key uce) (date_key cps)).
    - assert (q2 = uce) as ->; [|done]. apply key_inj; [done..|]. lia.
    - assert (q2 = cps) as ->; [|done]. apply key_inj; [done..|]. lia. }
  assert (inside u (q1, q2) = true) as Hiu by (by apply (whole_periods trunc q1 q2 e u s)).
  split; [done|]. rewrite inside_key, andb_true_iff, Z.ltb_lt in Hiu by done. unfold lt. lia.
Qed.

(** A period that is over, all of whose days are asked for, is in the branch of the
    aggregated view. *)
Lemma finished_periods trunc lo hi cs uce cps e s :
  is_trunc trunc = true → valid_date lo = true → valid_date hi = true →
  boundary trunc cs → le lo cs → boundary trunc uce → le uce hi → boundary trunc cps →
  (∀ b, boundary trunc b → le lo b → le cs b) →
  (∀ e, valid_date e = true → le uce e → lt e hi → _period_start hi trunc = _period_start e trunc) →
  valid_date e = true → inside e (lo, hi) = true → _period_start e trunc = Ok s →
  (∀ u, valid_date u = true → _period_start u trunc = Ok s → inside u (lo, hi) = true ∧ lt u cps) →
  ∃ seg, (Coarse, seg) ∈ branches
    {| p0 := lo; p1 := date_min (date_max cs lo) hi;
       p2 := date_min (date_max (date_min uce cps) (date_min (date_max cs lo) hi)) hi; p3 := hi |} ∧ inside e seg = true.
Proof.
  intros Ht Hlo Hhi Hcs Hlocs Huce Hucehi Hcps Hleast Hlast He Hin Hse Hall.
  pose proof Hcs as [Hvcs _]. pose proof Huce as [Hvuce _]. pose proof Hcps as [Hvcps _].
  destruct (start_boundary e trunc s He Ht Hse) as [Hbs Hsle]. pose proof Hbs as [Hvs Hss].
  rewrite inside_key, andb_true_iff, Z.leb_le, Z.ltb_lt in Hin by done.
  destruct (Hall s Hvs Hss) as [Hins _]. rewrite inside_key, andb_true_iff, Z.leb_le, Z.ltb_lt in Hins by done.
  destruct (Hall e He Hse) as [_ Hecps].
  assert (le cs s) as Hcss by (apply Hleast; [done|unfold le; lia]).
  assert (lt e uce) as Heuce.
  { unfold lt. destruct (Z.lt_ge_cases (date_key e) (date_key uce)) as [|Hge]; [done|exfalso].
    assert (_period_start hi trunc = Ok s) as Hhis by (rewrite (Hlast e); [done..|unfold lt; lia]).
    destruct (Hall hi Hhi Hhis) as [Hih _]. rewrite inside_key, andb_true_iff, Z.ltb_lt in Hih by done. lia. }
  destruct (key_max cs lo) as [V1 K1]; [done..|].
  destruct (key_min (date_max cs lo) hi) as [V2 K2]; [done..|].
  destruct (key_min uce cps) as [V3 K3]; [done..|].
  destruct (key_max (date_min uce cps) (date_min (date_max cs lo) hi)) as [V4 K4]; [done..|].
  destruct (key_min (date_max (date_min uce cps) (date_min (date_max cs lo) hi)) hi) as [V5 K5]; [done..|].
  set (q1 := date_min (date_max cs lo) hi) in *.
  set (q2 := date_min (date_max (date_min uce cps) q1) hi) in *.
  unfold le, lt in *. exists (q1, q2). split.
  - unfold branches. cbn [p0 p1 p2 p3]. assert (date_ltb q1 q2 = true) as -> by (apply ltb_key; [done..|lia]).
    destruct (date_ltb lo q1); cbn [app]; [right; left|left].
  - rewrite inside_key by done. rewrite andb_true_iff, Z.leb_le, Z.ltb_lt. lia.
Qed.

(** ** The code returns, away from the last year *)

Lemma year_room d : valid_date d = true → year d < 9999 → toordinal d + 7 ≤ last_ordinal.
Proof.
  intros Hd Hy. pose proof (ordinal_year d Hd). pose proof (days_before_year_mono (year d + 1) 9999).
  change (days_before_year 9999) with 3651694 in *. unfold last_ordinal. lia.
Qed.

Lemma next_period_total d trunc :
  valid_date d = true → is_trunc trunc = true → year d < 9999 → is_Ok (_next_period_start d trunc).
Proof.
  intros Hd Ht Hy. unfold _next_period_start.
  destruct (period_start_laws d trunc Hd Ht) as (s & Hstart & Hs & Hle & _).
  pose proof Hd as Hvd%valid_spec.
  assert (trunc = "quarter" → month s = (month d - 1) / 3 * 3 + 1) as Hq.
  { intros ->. destruct (start_calendar d "quarter") as (E & _); [done..|].
    rewrite Hstart in E. injection E as ->. by start_eq. }
  rewrite Hstart. cbn [mbind result_bind]. pose proof Hs as Hvs%valid_spec.
  pose proof (month_days (year d) (month d)). pose proof (month_days (year s) (month s)).
  assert (year s ≤ year d) by (unfold le, date_key in Hle; lia).
  pose proof (year_room s Hs) as Hroom.
  assert (∀ y m, 1 ≤ y ≤ 9999 → 1 ≤ m ≤ 12 → is_Ok (date_new y m 1)) as Hfirst.
  { intros y m Hy' Hm'. rewrite date_new_first by done. by eexists. }
  each_trunc Ht; grain; try done.
  - apply add_days_forward; [done|lia|lia].
  - apply add_days_forward; [done|lia|lia].
  - destruct (_ =? 1); [rewrite date_new_sixteenth by lia; by eexists|].
    destruct (Z.eqb_spec (month s) 12); apply Hfirst; lia.
  - destruct (Z.eqb_spec (month s) 12); apply Hfirst; lia.
  - specialize (Hq eq_refl). destruct (Z.eqb_spec (month s) 10); apply Hfirst; lia.
  - destruct (Z.eqb_spec (month s) 7); apply Hfirst; lia.
  - apply Hfirst; lia.
Qed.

Lemma cut_points_total trunc lo upper today :
  is_trunc trunc = true → valid_date lo = true → valid_date today = true →
  (∀ u, upper = Some u → valid_date u = true) → year lo < 9999 → year today < 9999 →
  is_Ok (cut_points trunc lo upper today).
Proof.
  intros Ht Hlo Htoday Hup Hy1 Hy2. unfold cut_points.
  destruct (add_days_forward 1 today) as [tomorrow Htm]; [done|lia| |].
  { pose proof (year_room today Htoday Hy2). lia. }
  rewrite Htm. apply add_days_spec in Htm as [Hvt _]; [|done]. cbn [mbind result_bind].
  destruct (period_start_laws today trunc Htoday Ht) as (cps & -> & _). cbn [mbind result_bind]. cbn zeta.
  set (hi := match upper with None => tomorrow | Some u => date_min u tomorrow end).
  assert (valid_date hi = true) as Hhi.
  { unfold hi. destruct upper as [u|]; [|done]. apply key_min; [by apply Hup|done]. }
  destruct (aligned_laws lo trunc Hlo Ht) as (b1 & -> & _). cbn [mbind result_bind].
  destruct (next_period_total lo trunc Hlo Ht Hy1) as [n Hn].
  destruct (aligned_laws hi trunc Hhi Ht) as (b2 & Hb2 & Hal).
  assert (is_Ok (if b2 then Ok hi else last ← add_days (-1) hi; _period_start last trunc)) as [uce Hu].
  { destruct b2; [by eexists|]. destruct (add_days_back 1 hi) as [last Hlast]; [done|lia| |].
    - destruct (Z.le_gt_cases 2 (toordinal hi)); [lia|]. exfalso.
      assert (hi = Date 1 1 1) as E.
      { apply ordinal_inj; [done..|]. pose proof (ordinal_positive hi Hhi).
        change (toordinal (Date 1 1 1)) with 1. lia. }
      rewrite E in Hal. assert (_period_start (Date 1 1 1) trunc = Ok (Date 1 1 1)) as Hfirst.
      { clear -Ht. each_trunc Ht; reflexivity. }
      by apply Hal in Hfirst.
    - change (- (1)) with (-1) in Hlast. rewrite Hlast. cbn [mbind result_bind].
      apply add_days_spec in Hlast as [Hv _]; [|done].
      destruct (period_start_laws last trunc Hv Ht) as (s & -> & _). by eexists. }
  rewrite Hb2. cbn [mbind result_bind].
  destruct b1; cbn [mbind result_bind]; rewrite ?Hn; cbn [mbind result_bind]; rewrite Hu; by eexists.
Qed.

(** ** Theorems *)

(** The periods of a grain partition the calendar: every date has a period
    start on or before it, the next period starts after it on a boundary, exactly
    the dates from the start to the next start have that start, and a date is
    aligned exactly when it is its own start. *)
Theorem periods_partition d trunc :
  valid_date d = true → is_trunc trunc = true →
  ∃ s b, _period_start d trunc = Ok s ∧ valid_date s = true ∧ le s d
    ∧ _period_start s trunc = Ok s
    ∧ _is_period_aligned d trunc = Ok b ∧ (b = true ↔ s = d)
    ∧ ∀ n, _next_period_start d trunc = Ok n →
        lt d n ∧ _period_start n trunc = Ok n
        ∧ ∀ e, valid_date e = true → _period_start e trunc = Ok s ↔ le s e ∧ lt e n.
Proof.
  intros Hd Ht. destruct (period_start_laws d trunc Hd Ht) as (s & Hs & Hv & Hle & _).
  destruct (aligned_laws d trunc Hd Ht) as (b & Hb & Hbd). exists s, b.
  destruct (start_boundary d trunc s Hd Ht Hs) as [[_ Hss] _]. split_and!; try done.
  { rewrite Hbd, Hs. split; [by intros [= ->]|by intros ->]. }
  intros n Hn. destruct (next_period_laws d trunc s n Hd Ht Hs Hn) as (Hvn & H1 & H2 & H3).
  split_and!; [done..|]. intros e He. split; [|intros [? ?]; by apply H3].
  intros Hse. split; [by apply (start_boundary e trunc s)|].
  by apply (boundary_splits trunc n d e s).
Qed.

(** C16. The union reads each day once, and from the aggregated view exactly the whole
    periods that are over: away from the last year the branches are always built, and with
    [hi] the earlier of the upper bound and tomorrow, their intervals cover each day of
    [lo, hi) exactly once and no other day, and a day of them is read from the aggregated
    view if and only if every day of its period is in [lo, hi) and before the current
    period; a branch of that view has all days of a period or none. *)
Theorem union_reads_each_day_once trunc lo upper today :
  is_trunc trunc = true → valid_date lo = true → valid_date today = true →
  (∀ u, upper = Some u → valid_date u = true) → year lo < 9999 → year today < 9999 →
  ∃ bs tomorrow hi current,
    union_branches trunc lo upper today = Ok bs
    ∧ add_days 1 today = Ok tomorrow
    ∧ hi = match upper with Some u => date_min u tomorrow | None => tomorrow end
    ∧ _period_start today trunc = Ok current
    ∧ (∀ e, valid_date e = true →
         covering e bs = if inside e (lo, hi) then 1%nat else 0%nat)
    ∧ (∀ e s, valid_date e = true → inside e (lo, hi) = true → _period_start e trunc = Ok s →
         (∃ seg, (Coarse, seg) ∈ bs ∧ inside e seg = true) ↔
         ∀ u, valid_date u = true → _period_start u trunc = Ok s → inside u (lo, hi) = true ∧ lt u current)
    ∧ (∀ seg e s u, (Coarse, seg) ∈ bs → valid_date e = true → valid_date u = true →
         inside e seg = true → _period_start e trunc = Ok s → _period_start u trunc = Ok s →
         inside u seg = true).
Proof.
  intros Ht Hlo Htoday Hup Hy1 Hy2. unfold union_branches.
  destruct (cut_points_total trunc lo upper today) as [c Hc]; [done..|].
  destruct (cut_points_inv _ _ _ _ _ Ht Hlo Htoday Hup Hc)
    as (tomorrow & hi & cs & uce & cps & Htm & Hhi & Hvhi & Hcs & Hlocs & Huce & Hucehi & Hleast & Hlast & Hcps & Hcur & ->).
  rewrite Hc. eexists _, tomorrow, hi, cps. split; [reflexivity|].
  assert (∀ e, valid_date e = true → covering e (branches {| p0 := lo; p1 := date_min (date_max cs lo) hi;
             p2 := date_min (date_max (date_min uce cps) (date_min (date_max cs lo) hi)) hi; p3 := hi |})
             = if inside e (lo, hi) then 1%nat else 0%nat) as Hcover.
  { destruct (cut_points_cover trunc lo upper today _ Ht Hlo Htoday Hup Hc) as (t & h & E & -> & Hcover).
    rewrite Htm in E. injection E as <-. intros e He. rewrite Hcover by done. by subst hi. }
  split_and!; try done.
  - intros e s He Hin Hse. split.
    + intros ([a b] & Hseg & Hinseg) u Hu Hsu.
      destruct (coarse_periods trunc lo hi cs uce cps a b e u s) as [Hiu Hcps']; try done. split; [|done].
      specialize (Hcover u Hu). destruct (inside u (lo, hi)); [done|].
      exfalso. revert Hcover. unfold covering. rewrite List.length_zero_iff_nil. intros Hnil.
      assert (In (Coarse, (a, b)) []) as []. rewrite <- Hnil. apply filter_In. split; [by apply list_elem_of_In|done].
    + intros Hall. by apply (finished_periods trunc lo hi cs uce cps e s).
  - intros [a b] e s u Hin He Hu Hinside Hse Hsu.
    by apply (coarse_periods trunc lo hi cs uce cps a b e u s).
Qed.

Lemma periods_partition_witness :
  ∃ s b, _period_start (Date 2024 2 29) "quarter" = Ok s ∧ valid_date s = true ∧ le s (Date 2024 2 29)
    ∧ _period_start s "quarter" = Ok s
    ∧ _is_period_aligned (Date 2024 2 29) "quarter" = Ok b ∧ (b = true ↔ s = Date 2024 2 29)
    ∧ ∀ n, _next_period_start (Date 2024 2 29) "quarter" = Ok n →
        lt (Date 2024 2 29) n ∧ _period_start n "quarter" = Ok n
        ∧ ∀ e, valid_date e = true → _period_start e "quarter" = Ok s ↔ le s e ∧ lt e n.
Proof. apply (periods_partition (Date 2024 2 29) "quarter"); reflexivity. Defined.

Lemma union_reads_each_day_once_witness :
  ∃ bs tomorrow hi current,
    union_branches "week" (Date 2024 1 10) (Some (Date 2024 2 6)) (Date 2024 2 1) = Ok bs
    ∧ add_days 1 (Date 2024 2 1) = Ok tomorrow
    ∧ hi = date_min (Date 2024 2 6) tomorrow
    ∧ _period_start (Date 2024 2 1) "week" = Ok current
    ∧ (∀ e, valid_date e = true →
         covering e bs = if inside e (Date 2024 1 10, hi) then 1%nat else 0%nat)
    ∧ (∀ e s, valid_date e = true → inside e (Date 2024 1 10, hi) = true → _period_start e "week" = Ok s →
         (∃ seg, (Coarse, seg) ∈ bs ∧ inside e seg = true) ↔
         ∀ u, valid_date u = true → _period_start u "week" = Ok s → inside u (Date 2024 1 10, hi) = true ∧ lt u current)
    ∧ (∀ seg e s u, (Coarse, seg) ∈ bs → valid_date e = true → valid_date u = true →
         inside e seg = true → _period_start e "week" = Ok s → _period_start u "week" = Ok s →
         inside u seg = true).
Proof.
  apply (union_reads_each_day_once "week" (Date 2024 1 10) (Some (Date 2024 2 6)) (Date 2024 2 1));
    try reflexivity.
  intros u [= <-]. reflexivity.
Defined.
