(* ===== verification/PeriodFilter.v ===== *)
(** * The filter of a partial-period query ([partial_period.py])

    The date bounds of the union are taken out of the caller's clause, and the rest
    of the clause is applied to every branch. *)
From stdpp Require Import base decidable strings list.
From Stdlib Require Import ZArith Lia Ascii.
From S2P Require Import Prelude PyVal Sql Shape OpBase Dates FieldCondition WhereClause Normalize NormalizeLaws Meaning.

Local Open Scope py_scope.
Local Open Scope Z_scope.

(** ** [date.fromisoformat] *)

(** A decimal number of exactly [n] digits at the start of a text. *)
Fixpoint fixed_digits (n : nat) (acc : Z) (s : string) : option (Z * string) :=
  match n, s with
  | O, _ => Some (acc, s)
  | S n', String c s' => if Str.is_digit c then fixed_digits n' (acc * 10 + Str.digit c) s' else None
  | S _, EmptyString => None
  end.

Definition digits (n : nat) (s : string) : option (Z * string) := fixed_digits n 0 s.

(** The Monday of the first ISO week, and the date of a day of an ISO week. *)
Definition isoweek_date (y week dow : Z) : result pydate :=
  let jan1 := Date y 1 1 in
  let first := (toordinal jan1) mod 7 in
  let long := (first =? 4) || ((first =? 3) && is_leap y) in
  if (week <? 1) || (53 <? week) || ((week =? 53) && negb long) || (dow <? 1) || (7 <? dow) then
    Err ValueError
  else if negb (valid_date jan1) then Err ValueError
  else
    let monday := if weekday jan1 <=? 3 then - weekday jan1 else 7 - weekday jan1 in
    match add_days (monday + (week - 1) * 7 + (dow - 1)) jan1 with
    | Ok d => Ok d
    | Err _ => Err ValueError
    end.

(** The documented forms [YYYY-MM-DD], [YYYYMMDD], [YYYY-Www], [YYYYWww],
    [YYYY-Www-D] and [YYYYWwwD]. *)
Definition fromisoformat (s : string) : result pydate :=
  match digits 4 s with
  | None => Err ValueError
  | Some (y, s1) =>
      let '(sep, s2) := match s1 with String "-" s2 => (true, s2) | _ => (false, s1) end in
      match s2 with
      | String "W" s3 =>
          match digits 2 s3 with
          | None => Err ValueError
          | Some (week, EmptyString) => isoweek_date y week 1
          | Some (week, s4) =>
              match sep, s4 with
              | true, String "-" s5 | false, s5 =>
                  match digits 1 s5 with
                  | Some (dow, EmptyString) => isoweek_date y week dow
                  | _ => Err ValueError
                  end
              | true, _ => Err ValueError
              end
          end
      | _ =>
          match digits 2 s2 with
          | None => Err ValueError
          | Some (m, s4) =>
              match sep, s4 with
              | true, String "-" s5 | false, s5 =>
                  match digits 2 s5 with
                  | Some (d, EmptyString) => date_new y m d
                  | _ => Err ValueError
                  end
              | true, _ => Err ValueError
              end
          end
      end
  end.

Example iso_examples :
  map fromisoformat ["2024-02-29"; "20240229"; "2021-W01-1"; "2020W53"; "2021W53"; "2024-2-29"; "2023-02-29"]
  = [Ok (Date 2024 2 29); Ok (Date 2024 2 29); Ok (Date 2021 1 4); Ok (Date 2020 12 28);
     Err ValueError; Err ValueError; Err ValueError].
Proof. vm_compute. reflexivity. Qed.

(** ** Bounds *)

(** A bound of a clause; a datetime is a date too, and only its kind is kept. *)
Inductive bound := OnDate (d : pydate) | OnDatetime.

(** The value of a condition as a bound: ISO texts are parsed, other values that
    are no dates are passed over. *)
Definition as_bound (v : pyval) : result (option bound) :=
  match v with
  | PStr s => d ← fromisoformat s; Ok (Some (OnDate d))
  | PDate s _ => Ok (match fromisoformat s with Ok d => Some (OnDate d) | Err _ => None end)
  | PDatetime _ _ => Ok (Some OnDatetime)
  | _ => Ok None
  end.

(** The first condition on [column] with one of two operators; the bound of the
    second operator is the day after its value. *)
Fixpoint first_bound (same next column : string) (conditions : list field_condition)
    : result (option bound) :=
  match conditions with
  | [] => Ok None
  | c :: conditions' =>
      if negb (target_column c =s column) then first_bound same next column conditions'
      else if negb (operator c in_ [same; next]) then first_bound same next column conditions'
      else
        b ← as_bound (value c);
        match b with
        | None => first_bound same next column conditions'
        | Some (OnDate d) =>
            if operator c =s next then d' ← add_days 1 d; Ok (Some (OnDate d')) else Ok (Some (OnDate d))
        | Some OnDatetime => Ok (Some OnDatetime)
        end
  end.

Definition _extract_lower_date_bound (w : where_clause) (column : string) : result (option bound) :=
  match w with Clause conditions _ _ _ => first_bound "gte" "gt" column conditions end.

Definition _extract_upper_date_bound (w : where_clause) (column : string) : result (option bound) :=
  match w with Clause conditions _ _ _ => first_bound "lt" "lte" column conditions end.

Definition _build_extra_where (w : where_clause) (time_grain_column : string)
    (mandatory : list field_condition) : result (option where_clause) :=
  match w with
  | Clause conditions op nested not =>
      let remaining := List.filter (λ c, negb (target_column c =s time_grain_column)) conditions in
      match mandatory, remaining, nested, not with
      | [], [], [], None => Ok None
      | _, _, _, _ => Some <$> WhereClause.__post_init__ (Clause (mandatory ++ remaining) op nested not)
      end
  end.

(** ** What the parts mean *)

(** A condition on the column, and one of its bounds. *)
Definition on (column : string) (c : field_condition) : bool := target_column c =s column.

Definition is_lower (c : field_condition) : bool := operator c in_ ["gte"; "gt"].
Definition is_upper (c : field_condition) : bool := operator c in_ ["lt"; "lte"].

(** The truth of bounds on a row whose date is [r]. *)
Definition reads_dates (column : string) (r : pydate) (sat : field_condition → bool) : Prop :=
  ∀ c d, on column c = true → as_bound (value c) = Ok (Some (OnDate d)) →
    sat c = (if operator c =s "gte" then negb (date_ltb r d)
             else if operator c =s "gt" then date_ltb d r
             else if operator c =s "lte" then negb (date_ltb d r)
             else if operator c =s "lt" then date_ltb r d else sat c).

Definition above (lower : option bound) (r : pydate) : bool :=
  match lower with Some (OnDate d) => negb (date_ltb r d) | _ => true end.

Definition below (upper : option bound) (r : pydate) : bool :=
  match upper with Some (OnDate d) => date_ltb r d | _ => true end.

(** ** The bounds of the clause *)

Section bounds.
Context (column : string) (same next : string).
Notation mine := (λ c, on column c && (operator c in_ [same; next])).

Definition bound_of (c : field_condition) : result (option bound) :=
  b ← as_bound (value c);
  match b with
  | Some (OnDate d) =>
      if operator c =s next then d' ← add_days 1 d; Ok (Some (OnDate d')) else Ok (Some (OnDate d))
  | b => Ok b
  end.

Lemma first_bound_filter cs :
  first_bound same next column cs = first_bound same next column (List.filter mine cs).
Proof using Type.
  induction cs as [|c cs IH]; [done|]. cbn [first_bound List.filter]. unfold on.
  destruct (target_column c =s column) eqn:Ec; cbn [negb andb]; [|exact IH].
  destruct (operator c in_ [same; next]) eqn:Eo; cbn [negb]; [|exact IH].
  cbn [first_bound]. rewrite Ec, Eo. cbn [negb]. by rewrite IH.
Qed.

Lemma first_bound_one c :
  mine c = true → first_bound same next column [c] = bound_of c.
Proof using Type.
  intros [H1 H2]%andb_true_iff. cbn. unfold on in H1. rewrite H1, H2. cbn [negb]. unfold bound_of.
  destruct (as_bound (value c)) as [[[d|]|]|]; reflexivity.
Qed.
End bounds.

(** The day after a bound. *)
Lemma next_ltb d d' r :
  valid_date d = true → valid_date r = true → add_days 1 d = Ok d' →
  date_ltb r d' = negb (date_ltb d r).
Proof.
  intros Hd Hr Hn. apply add_days_spec in Hn as [Hv Ho]; [|done].
  apply eq_true_iff_eq. rewrite negb_true_iff, ltb_key by done.
  rewrite ordinal_lt by done. rewrite <- not_true_iff_false, ltb_key, ordinal_lt by done. lia.
Qed.

Section split.
Context (column : string) (r : pydate) (sat : field_condition → bool).
Context (Hr : valid_date r = true) (Hsat : reads_dates column r sat).

(** A bound that is read as a date. *)
Definition dated (c : field_condition) : Prop :=
  ∃ d, valid_date d = true ∧ as_bound (value c) = Ok (Some (OnDate d)).

Lemma lower_bound_holds c b :
  on column c = true → is_lower c = true → dated c → bound_of "gt" c = Ok b → above b r = sat c.
Proof using Hr Hsat.
  intros Hc Hl (d & Hd & Hv) Hb. rewrite (Hsat c d Hc Hv). unfold bound_of in Hb. rewrite Hv in Hb.
  cbn [mbind result_bind] in Hb. unfold is_lower in Hl. apply str_in_true in Hl.
  apply elem_of_cons in Hl as [Hl|Hl%list_elem_of_singleton].
  - rewrite Hl in *. cbn in Hb. injection Hb as <-. done.
  - rewrite Hl in *. apply bind_Ok in Hb as (d' & Hd' & [= <-]). cbn [above].
    by rewrite (next_ltb d d' r), negb_involutive.
Qed.

Lemma upper_bound_holds c b :
  on column c = true → is_upper c = true → dated c → bound_of "lte" c = Ok b → below b r = sat c.
Proof using Hr Hsat.
  intros Hc Hl (d & Hd & Hv) Hb. rewrite (Hsat c d Hc Hv). unfold bound_of in Hb. rewrite Hv in Hb.
  cbn [mbind result_bind] in Hb. unfold is_upper in Hl. apply str_in_true in Hl.
  apply elem_of_cons in Hl as [Hl|Hl%list_elem_of_singleton].
  - rewrite Hl in *. cbn in Hb. injection Hb as <-. done.
  - rewrite Hl in *. apply bind_Ok in Hb as (d' & Hd' & [= <-]). cbn [below]. by apply next_ltb.
Qed.

(** At most one condition of a kind, read through the bound. *)
Lemma one_kind (p : field_condition → bool) (side : option bound → pydate → bool) same next cs b :
  (∀ c, p c = (operator c in_ [same; next])) → side None r = true →
  (∀ c b, on column c = true → p c = true → dated c → bound_of next c = Ok b → side b r = sat c) →
  Forall (λ c, on column c = true → dated c) cs →
  (length (List.filter (λ c, on column c && p c) cs) ≤ 1)%nat →
  first_bound same next column cs = Ok b →
  side b r = forallb sat (List.filter (λ c, on column c && p c) cs).
Proof using Type.
  intros Hp Hnone Hside Hd Hlen Hb. rewrite first_bound_filter in Hb.
  rewrite (filter_ext _ (λ c, on column c && p c)) in Hb by (intros c; by rewrite Hp).
  destruct (List.filter (λ c, on column c && p c) cs) as [|c [|? ?]] eqn:E; [|..|cbn in Hlen; lia].
  - injection Hb as <-. done.
  - assert (c ∈ List.filter (λ c, on column c && p c) cs) as Hc by (rewrite E; left).
    apply list_elem_of_In, filter_In in Hc as [Hin [Hc Hpc]%andb_true_iff].
    rewrite first_bound_one in Hb by (cbn beta; by rewrite Hc, <- Hp, Hpc).
    cbn [forallb]. rewrite andb_true_r.
    apply (Hside c b); try done. apply list_elem_of_In in Hin.
    eapply Forall_forall in Hd; [by apply Hd|done].
Qed.

Lemma forallb_split (p : field_condition → bool) cs :
  forallb sat cs
  = forallb sat (List.filter p cs) && forallb sat (List.filter (λ c, negb (p c)) cs).
Proof using Type.
  induction cs as [|c cs IH]; [done|]. cbn. rewrite IH. destruct (p c); cbn.
  - by rewrite andb_assoc.
  - destruct (sat c), (forallb sat (List.filter p cs)); cbn; done.
Qed.

Lemma forallb_kinds cs :
  Forall (λ c, on column c = true → is_lower c = true ∨ is_upper c = true) cs →
  forallb sat (List.filter (on column) cs)
  = forallb sat (List.filter (λ c, on column c && is_lower c) cs)
    && forallb sat (List.filter (λ c, on column c && is_upper c) cs).
Proof using Type.
  induction 1 as [|c cs Hc _ IH]; [done|]. cbn. destruct (on column c) eqn:Eo; cbn [andb]; [|exact IH].
  assert (is_lower c = true → is_upper c = false) as Hx.
  { unfold is_lower, is_upper. intros Hl%str_in_true.
    by apply elem_of_cons in Hl as [E|E%list_elem_of_singleton]; rewrite E. }
  destruct (is_lower c) eqn:El; [rewrite Hx by done|destruct (is_upper c) eqn:Eu; [|naive_solver]];
    cbn; rewrite IH; destruct (sat c), (forallb sat (List.filter (λ c, on column c && is_lower c) cs)); done.
Qed.
End split.

(** ** Theorems *)

(** The union's filter is the caller's: for a clause under AND whose conditions
    on the period column are at most one lower and at most one upper date bound,
    the extracted bounds on a row's date and the clause left for the branches,
    with the mandatory conditions in front, hold exactly when the clause and the
    mandatory conditions do. *)
Theorem bounds_and_rest_are_the_filter column sat r cs nested not mandatory lower upper extra :
  let w := Clause cs "AND" nested not in
  valid_date r = true → reads_dates column r sat →
  Forall (λ c, on column c = true → (is_lower c = true ∨ is_upper c = true) ∧ dated c) cs →
  (length (List.filter (λ c, on column c && is_lower c) cs) ≤ 1)%nat →
  (length (List.filter (λ c, on column c && is_upper c) cs) ≤ 1)%nat →
  _extract_lower_date_bound w column = Ok lower → _extract_upper_date_bound w column = Ok upper →
  _build_extra_where w column mandatory = Ok extra →
  above lower r && below upper r && match extra with Some w' => holds sat w' | None => true end
  = forallb sat mandatory && holds sat w.
Proof.
  cbn zeta. intros Hr Hsat Hcs Hl Hu Hlower Hupper Hextra.
  assert (Forall (λ c, on column c = true → dated c) cs) as Hdated
    by (eapply Forall_impl; [exact Hcs|]; cbn; naive_solver).
  assert (above lower r = forallb sat (List.filter (λ c, on column c && is_lower c) cs)) as ->.
  { apply (one_kind column r sat is_lower above "gte" "gt"); try done.
    intros c b. by apply lower_bound_holds. }
  assert (below upper r = forallb sat (List.filter (λ c, on column c && is_upper c) cs)) as ->.
  { apply (one_kind column r sat is_upper below "lt" "lte"); try done.
    intros c b. by apply upper_bound_holds. }
  rewrite <- forallb_kinds by (eapply Forall_impl; [exact Hcs|]; cbn; naive_solver).
  rewrite holds_and. unfold holds_so_far. cbn [conditions nested_clauses not_clause].
  rewrite (forallb_split sat (on column) cs).
  assert (match extra with Some w' => holds sat w' | None => true end
          = forallb sat mandatory && forallb sat (List.filter (λ c, negb (on column c)) cs)
            && forallb (holds sat) nested
            && match not with Some c => negb (holds sat c) | None => true end) as ->.
  { unfold _build_extra_where in Hextra.
    change (λ c, negb (target_column c =s column)) with (λ c, negb (on column c)) in Hextra.
    set (rest := List.filter (λ c, negb (on column c)) cs) in *.
    destruct mandatory as [|m ms], rest as [|k ks], nested as [|n ns], not as [o|];
      try (injection Hextra as <-; done);
      apply fmap_Ok in Hextra as (w' & Hw' & <-); apply clause_init_id in Hw' as ->;
      rewrite holds_and; unfold holds_so_far; cbn [conditions nested_clauses not_clause];
      by rewrite List.forallb_app. }
  destruct (forallb sat mandatory), (forallb sat (List.filter (on column) cs)); cbn [andb];
    by rewrite ?andb_true_r, ?andb_false_r.
Qed.

(** Any other condition on the period column is lost: it is neither a bound nor
    part of what the branches apply, so the union answers as if it had not been
    asked. *)
Theorem other_period_conditions_are_dropped column cs1 c cs2 op nested not mandatory :
  on column c = true → is_lower c = false → is_upper c = false →
  let w := Clause (cs1 ++ c :: cs2) op nested not in
  let without := Clause (cs1 ++ cs2) op nested not in
  _extract_lower_date_bound w column = _extract_lower_date_bound without column
  ∧ _extract_upper_date_bound w column = _extract_upper_date_bound without column
  ∧ _build_extra_where w column mandatory = _build_extra_where without column mandatory.
Proof.
  intros Hc Hl Hu. cbn zeta. unfold _extract_lower_date_bound, _extract_upper_date_bound, _build_extra_where.
  split_and!.
  - rewrite first_bound_filter, (first_bound_filter _ _ _ (cs1 ++ cs2)), !List.filter_app. cbn [List.filter].
    unfold is_lower in Hl. by rewrite Hl, andb_false_r.
  - rewrite first_bound_filter, (first_bound_filter _ _ _ (cs1 ++ cs2)), !List.filter_app. cbn [List.filter].
    unfold is_upper in Hu. by rewrite Hu, andb_false_r.
  - rewrite !List.filter_app. cbn [List.filter]. unfold on in Hc. by rewrite Hc.
Qed.

(** ** A concrete filter *)

Definition bounded : list field_condition :=
  [on_column "date" "gt" (PStr "2024-01-14"); on_column "status" "eq" (PStr "active");
   on_column "date" "lte" (PDate "2024-06-30" "datetime.date(2024, 6, 30)")].

(** The truth of the conditions on a row of that date and of another status. *)
Definition row_sat (r : pydate) (c : field_condition) : bool :=
  match target_column c =s "date", as_bound (value c) with
  | true, Ok (Some (OnDate d)) =>
      if operator c =s "gte" then negb (date_ltb r d)
      else if operator c =s "gt" then date_ltb d r
      else if operator c =s "lte" then negb (date_ltb d r)
      else if operator c =s "lt" then date_ltb r d else false
  | _, _ => false
  end.

Lemma row_sat_reads r : reads_dates "date" r (row_sat r).
Proof.
  intros c d Hc Hv. unfold row_sat. unfold on in Hc. rewrite Hc, Hv.
  by destruct (operator c =s "gte"), (operator c =s "gt"), (operator c =s "lte"), (operator c =s "lt").
Qed.

Lemma bounds_and_rest_are_the_filter_witness :
  ∃ lower upper extra,
    _extract_lower_date_bound (Clause bounded "AND" [] None) "date" = Ok lower
    ∧ lower = Some (OnDate (Date 2024 1 15))
    ∧ _extract_upper_date_bound (Clause bounded "AND" [] None) "date" = Ok upper
    ∧ upper = Some (OnDate (Date 2024 7 1))
    ∧ above lower (Date 2024 3 1) && below upper (Date 2024 3 1)
      && match extra with Some w' => holds (row_sat (Date 2024 3 1)) w' | None => true end
      = holds (row_sat (Date 2024 3 1)) (Clause bounded "AND" [] None).
Proof.
  eexists _, _, _. split; [vm_compute; reflexivity|]. split; [reflexivity|].
  split; [vm_compute; reflexivity|]. split; [reflexivity|].
  apply (bounds_and_rest_are_the_filter "date" (row_sat (Date 2024 3 1)) (Date 2024 3 1) bounded [] None []).
  - reflexivity.
  - apply row_sat_reads.
  - unfold bounded. repeat apply Forall_cons_2; try apply Forall_nil_2; intros Hon; try discriminate Hon.
    + split; [left; reflexivity|]. eexists. split; [|vm_compute; reflexivity]. reflexivity.
    + split; [right; reflexivity|]. eexists. split; [|vm_compute; reflexivity]. reflexivity.
  - vm_compute. lia.
  - vm_compute. lia.
  - vm_compute. reflexivity.
  - vm_compute. reflexivity.
  - vm_compute. reflexivity.
Defined.

Lemma other_period_conditions_are_dropped_witness :
  let holiday := on_column "date" "neq" (PStr "2024-05-01") in
  _build_extra_where (Clause (bounded ++ holiday :: []) "AND" [] None) "date" []
  = _build_extra_where (Clause (bounded ++ []) "AND" [] None) "date" []
  ∧ _extract_lower_date_bound (Clause (bounded ++ [holiday]) "AND" [] None) "date"
    = Ok (Some (OnDate (Date 2024 1 15))).
Proof.
  cbn zeta. split; [|vm_compute; reflexivity].
  apply (other_period_conditions_are_dropped "date" bounded
           (on_column "date" "neq" (PStr "2024-05-01")) [] "AND" [] None []); reflexivity.
Defined.
