(* ===== verification/Tokens.v ===== *)
(** * Refresh tokens ([auth/native/tokens.py], [router.py], [provider.py])

    Issuing, verifying and rotating tokens over the tables of sessions and of
    exchanged refresh tokens.  Times are seconds; the [jwt] library, and the random
    identifiers, are parameters. *)
From stdpp Require Import base decidable strings list.
From Stdlib Require Import ZArith Lia.
From S2P Require Import Prelude PyVal.

Local Open Scope py_scope.
Local Open Scope Z_scope.

(** A token's payload, a dictionary. *)
Definition claims : Type := list (string * pyval).

(** What [jwt.decode] answers. *)
Inductive decoded := Payload (p : claims) | ExpiredSignature | BadToken.

(** The [jwt] library, with one algorithm. *)
Class Jwt := {
  jwt : Type;
  jwt_encode : claims → string → jwt;
  jwt_decode : jwt → string → Z → decoded
}.

(** A text claim. *)
Definition text_claim (k : string) (p : claims) : option string :=
  match dict_get k p with Some (PStr s) => Some s | _ => None end.

(** Its documented behaviour: a payload with a text subject and identifier, and with
    no other claims the library checks, encoded under a key is decoded under it from
    [iat] on until [exp] is reached. *)
Class JwtLaws `{Jwt} : Prop :=
  decode_encode : ∀ p key now exp iat,
    dict_get "exp" p = Some (PInt exp) → dict_get "iat" p = Some (PInt iat) → iat ≤ now →
    text_claim "sub" p ≠ None → text_claim "jti" p ≠ None →
    dict_get "nbf" p = None → dict_get "aud" p = None → dict_get "iss" p = None →
    jwt_decode (jwt_encode p key) key now = (if exp <=? now then ExpiredSignature else Payload p).

Inductive auth_error := TokenExpiredError | InvalidTokenError | SecurityError | MissingClaim | UniqueViolation.

Inductive answer (A : Type) := Got (a : A) | Refused (e : auth_error).
Arguments Got {_} _.
Arguments Refused {_} _.

Record manager := { secret_key : string; access_token_ttl : Z; refresh_token_ttl : Z }.

Record tokens `{Jwt} := { access_token : jwt; refresh_token : jwt; family_id : string; expires_at : Z }.

(** ** Issuing and verifying *)

Section manager.
Context `{Jwt} (self : manager).

(** [access_payload.update(user_claims)] *)
Definition update (p extra : claims) : claims := foldl (λ d kv, dict_set kv.1 kv.2 d) p extra.

Definition access_payload (user_id jti : string) (now : Z) (user_claims : claims) : claims :=
  update [("sub", PStr user_id); ("type", PStr "access"); ("exp", PInt (now + access_token_ttl self));
          ("iat", PInt now); ("jti", PStr jti)] user_claims.

Definition refresh_payload (user_id family jti : string) (now : Z) : claims :=
  [("sub", PStr user_id); ("type", PStr "refresh"); ("family", PStr family);
   ("exp", PInt (now + refresh_token_ttl self)); ("iat", PInt now); ("jti", PStr jti)].

(** [new_family] is the identifier drawn when none is given (an empty one counts as none),
    [jti1] and [jti2] those of the two tokens; [expires_at] is read back from the
    access payload. *)
Definition generate_tokens (user_id : string) (family : option string) (user_claims : claims)
    (now : Z) (new_family jti1 jti2 : string) : tokens :=
  let family :=
    match family with Some f => if Str.nonempty f then f else new_family | None => new_family end in
  let access := access_payload user_id jti1 now user_claims in
  {| access_token := jwt_encode access (secret_key self);
     refresh_token := jwt_encode (refresh_payload user_id family jti2 now) (secret_key self);
     family_id := family;
     expires_at := match dict_get "exp" access with Some (PInt z) => z | _ => 0 end |}.

Definition verify (kind : string) (token : jwt) (now : Z) : answer claims :=
  match jwt_decode token (secret_key self) now with
  | Payload p =>
      match dict_get "type" p with
      | Some (PStr k) => if k =s kind then Got p else Refused InvalidTokenError
      | _ => Refused InvalidTokenError
      end
  | ExpiredSignature => Refused TokenExpiredError
  | BadToken => Refused InvalidTokenError
  end.

Definition verify_access_token : jwt → Z → answer claims := verify "access".
Definition verify_refresh_token : jwt → Z → answer claims := verify "refresh".
End manager.

(** ** The tables *)

Record session := { token_family : string; revoked_at : option Z }.

(** [tb_used_refresh_token], whose [token_jti] is the primary key, and [tb_session]. *)
Record database := { used : list (string * string); sessions : list session }.

Definition is_used (db : database) (jti : string) : bool := existsb (λ row, row.1 =s jti) (used db).

Definition insert_used (db : database) (jti family : string) : option database :=
  if is_used db jti then None
  else Some {| used := used db ++ [(jti, family)]; sessions := sessions db |}.

(** [UPDATE tb_session SET revoked_at = NOW() WHERE token_family = family], of all
    sessions or of those not revoked yet. *)
Definition revoke_family (all : bool) (now : Z) (family : string) (db : database) : database :=
  {| used := used db;
     sessions :=
       map (λ s, if (token_family s =s family) && (all || bool_decide (revoked_at s = None))
                 then {| token_family := token_family s; revoked_at := Some now |} else s)
         (sessions db) |}.

(** ** Rotation *)

Section rotation.
Context `{Jwt} (self : manager).

(** [rotate_refresh_token] in one transaction: the database as the transaction
    leaves it, whether or not the caller commits. *)
Definition rotate_refresh_token (db : database) (token : jwt) (now : Z) (jti1 jti2 : string)
    : database * answer tokens :=
  match verify_refresh_token self token now with
  | Refused e => (db, Refused e)
  | Got p =>
      match text_claim "jti" p, text_claim "family" p with
      | Some jti, Some family =>
          if is_used db jti then (revoke_family false now family db, Refused SecurityError)
          else
            match insert_used db jti family with
            | None => (db, Refused UniqueViolation)
            | Some db' =>
                (db',
                 match text_claim "sub" p with
                 | Some sub => Got (generate_tokens self sub (Some family) [] now EmptyString jti1 jti2)
                 | None => Refused MissingClaim
                 end)
            end
      | _, _ => (db, Refused MissingClaim)
      end
  end.

(** [NativeAuthProvider.refresh_token]: the connection's context commits when the
    block ends and rolls back when it raises. *)
Definition provider_refresh (db : database) (token : jwt) (now : Z) (jti1 jti2 : string)
    : database * answer tokens :=
  match rotate_refresh_token db token now jti1 jti2 with
  | (db', Got t) => (db', Got t)
  | (_, Refused e) => (db, Refused e)
  end.

(** [POST /refresh]: the revocation is committed before the request is refused. *)
Definition refresh (db : database) (token : jwt) (now : Z) (jti1 jti2 : string)
    : database * answer tokens :=
  match verify_refresh_token self token now with
  | Refused e => (db, Refused e)
  | Got p =>
      match text_claim "jti" p, text_claim "family" p with
      | Some jti, Some family =>
          if is_used db jti then (revoke_family true now family db, Refused SecurityError)
          else
            match insert_used db jti family with
            | None => (db, Refused UniqueViolation)
            | Some db' =>
                (db',
                 match text_claim "sub" p with
                 | Some sub => Got (generate_tokens self sub (Some family) [] now EmptyString jti1 jti2)
                 | None => Refused MissingClaim
                 end)
            end
      | _, _ => (db, Refused MissingClaim)
      end
  end.

(** [POST /logout] for an authenticated user: it succeeds whatever the token is. *)
Definition logout (db : database) (token : jwt) (now : Z) : database :=
  match verify_refresh_token self token now with
  | Refused _ => db
  | Got p =>
      match text_claim "family" p with Some family => revoke_family true now family db | None => db end
  end.
End rotation.

(** ** Concurrent refreshes

    [POST /refresh] reads the table, then inserts; other requests may run in
    between.  A request that found its token unused is pending until its insert,
    which the primary key decides. *)
Record server := { committed : database; pending : list (string * string); issued : list string }.

Inductive refresh_step (now : Z) : server → server → Prop :=
| found_unused s jti family :
    is_used (committed s) jti = false →
    refresh_step now s
      {| committed := committed s; pending := (jti, family) :: pending s; issued := issued s |}
| found_used s jti family :
    is_used (committed s) jti = true →
    refresh_step now s
      {| committed := revoke_family true now family (committed s); pending := pending s;
         issued := issued s |}
| inserted s before jti family after db :
    pending s = before ++ (jti, family) :: after →
    insert_used (committed s) jti family = Some db →
    refresh_step now s {| committed := db; pending := before ++ after; issued := jti :: issued s |}
| insert_failed s before jti family after :
    pending s = before ++ (jti, family) :: after →
    insert_used (committed s) jti family = None →
    refresh_step now s {| committed := committed s; pending := before ++ after; issued := issued s |}.

(** Any number of requests, at any times. *)
Inductive serves : server → server → Prop :=
| serves_none s : serves s s
| serves_more now s s' s'' : refresh_step now s s' → serves s' s'' → serves s s''.

(** ** Lemmas *)

Lemma is_used_spec db jti : is_used db jti = true ↔ jti ∈ (used db).*1.
Proof.
  unfold is_used. rewrite existsb_exists, list_elem_of_fmap. split.
  - intros ([j f] & Hin & Hj%bool_decide_eq_true). exists (j, f). split; [done|by apply list_elem_of_In].
  - intros ([j f] & -> & Hin). exists (j, f). split; [by apply list_elem_of_In|].
    by apply bool_decide_eq_true.
Qed.

Lemma is_used_revoke db b now family jti : is_used (revoke_family b now family db) jti = is_used db jti.
Proof. done. Qed.

Lemma insert_used_spec db jti family db' :
  insert_used db jti family = Some db' →
  is_used db jti = false ∧ used db' = used db ++ [(jti, family)] ∧ sessions db' = sessions db.
Proof. unfold insert_used. destruct (is_used db jti); [done|]. by intros [= <-]. Qed.

(** Every exchanged token is in the table, and was exchanged once. *)
Definition exchanged_once (s : server) : Prop :=
  NoDup (issued s) ∧ ∀ jti, jti ∈ issued s → is_used (committed s) jti = true.

Lemma step_exchanged_once now s s' :
  exchanged_once s → refresh_step now s s' → exchanged_once s'.
Proof.
  intros [Hn Hu] Hs. destruct Hs as [s jti family Hf|s jti family Hf|s before jti family after db Hp Hi|
    s before jti family after Hp Hi]; [by split|by split| |by split].
  apply insert_used_spec in Hi as (Hf & Hused & _). split; cbn.
  - constructor; [|done]. intros Hin%Hu. congruence.
  - intros j [->|Hin]%elem_of_cons; apply is_used_spec; rewrite Hused, fmap_app; apply elem_of_app.
    + right. cbn. left.
    + left. by apply is_used_spec, Hu.
Qed.

Lemma update_get k p extra :
  dict_get k extra = None → dict_get k (update p extra) = dict_get k p.
Proof.
  unfold update. revert p. induction extra as [|[k' v] extra IH]; intros p; cbn; [done|].
  destruct (decide (k' = k)) as [->|Hne]; [by rewrite decide_True by done|].
  rewrite decide_False by done. intros Hk. rewrite IH by done. by apply dict_get_set_ne.
Qed.

Lemma revoke_family_all now family db :
  Forall (λ s, token_family s = family → revoked_at s ≠ None)
    (sessions (revoke_family true now family db)).
Proof.
  cbn. apply Forall_map, Forall_forall. intros s _. unfold Str.eqb. rewrite andb_true_r.
  case_bool_decide; done.
Qed.

(** ** Issued tokens *)

Section laws.
Context `{JwtLaws} (self : manager).

Lemma refresh_decodes user family jti issued now :
  issued ≤ now < issued + refresh_token_ttl self →
  verify_refresh_token self (jwt_encode (refresh_payload self user family jti issued) (secret_key self)) now
  = Got (refresh_payload self user family jti issued).
Proof using All.
  intros Hnow. unfold verify_refresh_token, verify.
  rewrite (decode_encode _ _ _ (issued + refresh_token_ttl self) issued) by (done || lia).
  rewrite (proj2 (Z.leb_gt _ _)) by lia. done.
Qed.

(** No claim of the library's or of the tokens' own. *)
Definition only_user_claims (extra : claims) : Prop :=
  Forall (λ k, dict_get k extra = None) ["sub"; "type"; "exp"; "iat"; "jti"; "nbf"; "aud"; "iss"].

Lemma access_decodes user jti extra issued now :
  only_user_claims extra → issued ≤ now < issued + access_token_ttl self →
  jwt_decode (jwt_encode (access_payload self user jti issued extra) (secret_key self)) (secret_key self) now
  = Payload (access_payload self user jti issued extra)
  ∧ dict_get "type" (access_payload self user jti issued extra) = Some (PStr "access").
Proof using All.
  intros He Hnow. unfold only_user_claims in He. rewrite !Forall_cons in He.
  destruct He as (E1 & E2 & E3 & E4 & E5 & E6 & E7 & E8 & _).
  unfold access_payload, text_claim. split; [|by rewrite update_get].
  rewrite (decode_encode _ _ _ (issued + access_token_ttl self) issued);
    try (unfold text_claim; by rewrite update_get); [|lia].
  by rewrite (proj2 (Z.leb_gt _ _)) by lia.
Qed.
End laws.

(** ** Theorems *)

(** C19. A refresh token is exchanged at most once: whatever requests run between
    the lookup of one and its insert, no token identifier is issued for twice, none
    that had been exchanged before, and each that was is recorded. *)
Theorem refresh_exchanges_once db s :
  serves {| committed := db; pending := []; issued := [] |} s →
  NoDup (issued s)
  ∧ ∀ jti, jti ∈ issued s → is_used db jti = false ∧ is_used (committed s) jti = true.
Proof.
  enough (∀ s s', serves s s' → exchanged_once s →
    (∀ jti, is_used db jti = true → is_used (committed s) jti = true) →
    (∀ jti, jti ∈ issued s → is_used db jti = false) →
    exchanged_once s' ∧ ∀ jti, jti ∈ issued s' → is_used db jti = false) as Hall.
  { intros Hs. destruct (Hall _ _ Hs) as [[H1 H2] H3]; cbn [issued committed].
    - split; [apply NoDup_nil_2|]. by intros j ?%not_elem_of_nil.
    - done.
    - by intros j ?%not_elem_of_nil.
    - split; [done|]. auto. }
  clear s. induction 1 as [s|now s s1 s2 Hstep _ IH]; intros Honce Hmono Hfresh; [done|].
  apply IH; [by eapply step_exchanged_once| |].
  - intros j Hj%Hmono. destruct Hstep as [| |? ? ? ? ? ? ? Hi|]; [done|done| |done].
    apply insert_used_spec in Hi as (_ & Hused & _). apply is_used_spec. cbn [committed].
    rewrite Hused, fmap_app. apply elem_of_app. left. by apply is_used_spec.
  - intros j. destruct Hstep as [| |s before jti family after db' Hp Hi|]; try apply Hfresh. cbn [issued].
    intros [->|Hin]%elem_of_cons; [|by apply Hfresh].
    apply insert_used_spec in Hi as (Hf & _). apply not_true_iff_false. intros Ht%Hmono. congruence.
Qed.

(** Presenting a refresh token again revokes its family: once its identifier is
    recorded, [POST /refresh] refuses the token until it expires, leaves every
    session of its family revoked and every other session as it was. *)
Theorem reuse_revokes_family `{JwtLaws} self db user family jti issued now jti1 jti2 :
  issued ≤ now < issued + refresh_token_ttl self → is_used db jti = true →
  let token := jwt_encode (refresh_payload self user family jti issued) (secret_key self) in
  let '(db', r) := refresh self db token now jti1 jti2 in
  r = Refused SecurityError
  ∧ Forall (λ s, token_family s = family → revoked_at s ≠ None) (sessions db')
  ∧ Forall2 (λ s s', token_family s' = token_family s ∧ (token_family s ≠ family → s' = s))
      (sessions db) (sessions db')
  ∧ used db' = used db.
Proof.
  intros Hnow Hused. cbn zeta. unfold refresh. rewrite refresh_decodes by done.
  change (text_claim "jti" _) with (Some jti). change (text_claim "family" _) with (Some family).
  change (text_claim "sub" _) with (Some user). cbn iota. rewrite Hused.
  split_and!; [done|apply revoke_family_all| |done]. cbn [sessions revoke_family].
  induction (sessions db) as [|s l IH]; cbn; constructor; [|done].
  unfold Str.eqb. case_bool_decide; cbn; [|done]. by split.
Qed.

(** The provider's refresh does not revoke: the same token presented through
    [NativeAuthProvider.refresh_token] is refused, but the exception leaves the
    connection's block, the revocation is rolled back and the database is as
    before. *)
Theorem provider_reuse_rolls_back `{JwtLaws} self db user family jti issued now jti1 jti2 :
  issued ≤ now < issued + refresh_token_ttl self → is_used db jti = true →
  provider_refresh self db
    (jwt_encode (refresh_payload self user family jti issued) (secret_key self)) now jti1 jti2
  = (db, Refused SecurityError).
Proof.
  intros Hnow Hused. unfold provider_refresh, rotate_refresh_token. rewrite refresh_decodes by done.
  change (text_claim "jti" _) with (Some jti). change (text_claim "family" _) with (Some family).
  change (text_claim "sub" _) with (Some user). cbn iota. by rewrite Hused.
Qed.

(** Logging out does not end the family: after [POST /logout] with a refresh
    token not exchanged yet, which revokes the sessions of its family, the same
    token still gives new tokens of the family. *)
Theorem logout_leaves_tokens_valid `{JwtLaws} self db user family jti issued now now' jti1 jti2 :
  issued ≤ now ≤ now' → now' < issued + refresh_token_ttl self → is_used db jti = false →
  family ≠ EmptyString →
  let token := jwt_encode (refresh_payload self user family jti issued) (secret_key self) in
  let db1 := logout self db token now in
  Forall (λ s, token_family s = family → revoked_at s ≠ None) (sessions db1)
  ∧ ∃ db2 t, refresh self db1 token now' jti1 jti2 = (db2, Got t) ∧ family_id t = family.
Proof.
  intros Hnow Hnow' Hused Hf. cbn zeta. unfold logout, refresh.
  rewrite !refresh_decodes by lia.
  change (text_claim "jti" _) with (Some jti). change (text_claim "family" _) with (Some family).
  change (text_claim "sub" _) with (Some user). cbn iota. split; [apply revoke_family_all|].
  rewrite is_used_revoke, Hused. unfold insert_used. rewrite is_used_revoke, Hused.
  eexists _, _. split; [done|]. unfold generate_tokens. cbn [family_id]. by destruct family.
Qed.

(** The two kinds of tokens do not stand in for each other: of a generated pair,
    before they expire, each is accepted as its own kind with the payload it was
    made of, and refused as the other, as long as the user's claims use no claim of
    the token's own. *)
Theorem tokens_keep_their_kind `{JwtLaws} self user family extra issued now jti1 jti2 :
  issued ≤ now → now < issued + access_token_ttl self → now < issued + refresh_token_ttl self →
  family ≠ EmptyString → only_user_claims extra →
  let t := generate_tokens self user (Some family) extra issued EmptyString jti1 jti2 in
  verify_access_token self (access_token t) now = Got (access_payload self user jti1 issued extra)
  ∧ verify_refresh_token self (refresh_token t) now = Got (refresh_payload self user family jti2 issued)
  ∧ verify_refresh_token self (access_token t) now = Refused InvalidTokenError
  ∧ verify_access_token self (refresh_token t) now = Refused InvalidTokenError.
Proof.
  intros H1 H2 H3 Hf He. cbn zeta. unfold generate_tokens. cbn [access_token refresh_token].
  destruct family as [|c family]; [done|]. cbn [Str.nonempty].
  pose proof (refresh_decodes self user (String c family) jti2 issued now) as Hr.
  destruct (access_decodes self user jti1 extra issued now He) as [Ha Ht]; [lia|].
  specialize (Hr ltac:(lia)). unfold verify_access_token, verify_refresh_token in *.
  split_and!; [|done| |].
  - unfold verify. by rewrite Ha, Ht.
  - unfold verify. by rewrite Ha, Ht.
  - unfold verify in *. destruct (jwt_decode _ _ _); try done.
    destruct (dict_get "type" p) as [[]|] eqn:Ep; try done.
    destruct (s =s "refresh") eqn:Es; [|done]. apply bool_decide_eq_true in Es as ->. done.
Qed.

(** ** A concrete library and concrete requests *)

(** A token that carries its payload and the key it was signed with. *)
#[export] Instance plain_jwt : Jwt := {|
  jwt := claims * string;
  jwt_encode p key := (p, key);
  jwt_decode t key now :=
    if negb (t.2 =s key) then BadToken
    else match dict_get "exp" t.1, dict_get "iat" t.1 with
         | Some (PInt exp), Some (PInt iat) =>
             if now <? iat then BadToken else if exp <=? now then ExpiredSignature else Payload t.1
         | _, _ => BadToken
         end
|}.

#[export] Instance plain_jwt_laws : JwtLaws.
Proof.
  intros p key now exp iat He Hi Hnow _ _ _ _ _. cbn. unfold Str.eqb.
  rewrite bool_decide_eq_true_2 by done. cbn [negb]. rewrite He, Hi.
  by rewrite (proj2 (Z.ltb_ge _ _)).
Qed.

Definition example_manager : manager :=
  {| secret_key := "k"; access_token_ttl := 900; refresh_token_ttl := 2592000 |}.

Definition example_db : database :=
  {| used := [("old", "fam")];
     sessions := [{| token_family := "fam"; revoked_at := None |};
                  {| token_family := "other"; revoked_at := None |}] |}.

Definition example_token (jti : string) : jwt :=
  jwt_encode (refresh_payload example_manager "u1" "fam" jti 1000) "k".

(** Two requests with one token, the second one looking it up before the first
    one's insert. *)
Definition raced : server :=
  {| committed := {| used := [("old", "fam"); ("new", "fam")]; sessions := sessions example_db |};
     pending := []; issued := ["new"] |}.

Lemma refresh_exchanges_once_witness :
  serves {| committed := example_db; pending := []; issued := [] |} raced
  ∧ NoDup (issued raced)
  ∧ (∀ jti, jti ∈ issued raced → is_used example_db jti = false ∧ is_used (committed raced) jti = true).
Proof.
  assert (serves {| committed := example_db; pending := []; issued := [] |} raced) as Hs.
  { eapply (serves_more 5); [by apply (found_unused 5 _ "new" "fam")|].
    eapply (serves_more 5); [by apply (found_unused 5 _ "new" "fam")|].
    eapply (serves_more 6); [by apply (inserted 6 _ [] "new" "fam" [("new", "fam")])|].
    eapply (serves_more 6); [by apply (insert_failed 6 _ [] "new" "fam" [])|]. apply serves_none. }
  split; [exact Hs|]. apply (refresh_exchanges_once example_db raced Hs).
Defined.

Lemma reuse_revokes_family_witness :
  let '(db', r) := refresh example_manager example_db (example_token "old") 2000 "a" "b" in
  r = Refused SecurityError
  ∧ Forall (λ s, token_family s = "fam" → revoked_at s ≠ None) (sessions db')
  ∧ Forall2 (λ s s', token_family s' = token_family s ∧ (token_family s ≠ "fam" → s' = s))
      (sessions example_db) (sessions db')
  ∧ used db' = used example_db.
Proof.
  apply (reuse_revokes_family example_manager example_db "u1" "fam" "old" 1000 2000 "a" "b");
    [cbn; lia|reflexivity].
Defined.

Lemma provider_reuse_rolls_back_witness :
  provider_refresh example_manager example_db (example_token "old") 2000 "a" "b"
  = (example_db, Refused SecurityError)
  ∧ Exists (λ s, token_family s = "fam" ∧ revoked_at s = None) (sessions example_db).
Proof.
  split; [|left; split; reflexivity].
  apply (provider_reuse_rolls_back example_manager example_db "u1" "fam" "old" 1000 2000 "a" "b");
    [cbn; lia|reflexivity].
Defined.

Lemma logout_leaves_tokens_valid_witness :
  let db1 := logout example_manager example_db (example_token "new") 2000 in
  Forall (λ s, token_family s = "fam" → revoked_at s ≠ None) (sessions db1)
  ∧ ∃ db2 t, refresh example_manager db1 (example_token "new") 3000 "a" "b" = (db2, Got t)
      ∧ family_id t = "fam".
Proof.
  apply (logout_leaves_tokens_valid example_manager example_db "u1" "fam" "new" 1000 2000 3000 "a" "b");
    [lia|cbn; lia|reflexivity|discriminate].
Defined.

Lemma tokens_keep_their_kind_witness :
  let t := generate_tokens example_manager "u1" (Some "fam") [("session_id", PStr "s")] 1000
             EmptyString "a" "b" in
  verify_access_token example_manager (access_token t) 1500
  = Got (access_payload example_manager "u1" "a" 1000 [("session_id", PStr "s")])
  ∧ verify_refresh_token example_manager (refresh_token t) 1500
    = Got (refresh_payload example_manager "u1" "fam" "b" 1000)
  ∧ verify_refresh_token example_manager (access_token t) 1500 = Refused InvalidTokenError
  ∧ verify_access_token example_manager (refresh_token t) 1500 = Refused InvalidTokenError.
Proof.
  apply (tokens_keep_their_kind example_manager "u1" "fam" [("session_id", PStr "s")] 1000 1500 "a" "b");
    [lia|cbn; lia|cbn; lia|discriminate|repeat constructor].
Defined.
