(* ===== verification/Turbo.v ===== *)
(** * The registry of persisted queries ([fastapi/turbo.py])

    [TurboRegistry]: an ordered dictionary of queries with eviction of the least
    recently used, and the map from a client's hash to the registry's.  The hashes
    of a query's text are arguments. *)
From stdpp Require Import base decidable strings list.
From Stdlib Require Import ZArith Lia Ascii.
From S2P Require Import Prelude PyVal.

Local Open Scope py_scope.

Record turbo_query := {
  graphql_query : string;
  sql_template : string;
  param_mapping : list (string * string);
  operation_name : option string;
  apollo_client_hash : option string;
  context_params : option (list (string * string))
}.

(** A part of a variable path, in a dictionary. *)
Fixpoint follow (value : pyval) (parts : list string) : pyval :=
  match parts with
  | [] => value
  | part :: parts' =>
      match value with
      | PDict d => match dict_get part d with Some v => follow v parts' | None => PNone end
      | _ => PNone
      end
  end.

Definition map_variables (self : turbo_query) (variables : list (string * pyval))
    : list (string * pyval) :=
  foldl (λ params kv, dict_set kv.2 (follow (PDict variables) (Str.split "." kv.1)) params)
    [] (param_mapping self).

(** [_queries] in order, the least recently used first, and [_apollo_hash_to_primary]. *)
Record registry := {
  max_size : nat;
  queries : list (string * turbo_query);
  apollo : list (string * string)
}.

Definition remove_key {V} (k : string) (d : list (string * V)) : list (string * V) :=
  List.filter (λ kv, negb (kv.1 =s k)) d.

Definition set_queries (self : registry) (q : list (string * turbo_query)) : registry :=
  {| max_size := max_size self; queries := q; apollo := apollo self |}.

Definition set_apollo (self : registry) (a : list (string * string)) : registry :=
  {| max_size := max_size self; queries := queries self; apollo := a |}.

(** [_queries.move_to_end(k)] for a key that is there. *)
Definition move_to_end (self : registry) (k : string) : registry :=
  match dict_get k (queries self) with
  | Some q => set_queries self (remove_key k (queries self) ++ [(k, q)])
  | None => self
  end.

(** [popitem(last=False)] when the dictionary is over its limit. *)
Definition evict (self : registry) : registry * option turbo_query :=
  if Nat.ltb (max_size self) (length (queries self)) then
    match queries self with
    | (_, q) :: rest => (set_queries self rest, Some q)
    | [] => (self, None)
    end
  else (self, None).

Section registry_ops.
Context (hash_query hash_query_raw : string → string).

Definition register (self : registry) (q : turbo_query) : registry * string :=
  let h := hash_query (graphql_query q) in
  (if dict_has h (queries self) then move_to_end self h
   else (evict (set_queries self (queries self ++ [(h, q)]))).1, h).

Definition register_with_raw_hash (self : registry) (q : turbo_query) (raw_hash : string)
    : registry * string :=
  let st :=
    if dict_has raw_hash (queries self) then move_to_end self raw_hash
    else
      let '(st, evicted) := evict (set_queries self (queries self ++ [(raw_hash, q)])) in
      match evicted with
      | Some e =>
          match apollo_client_hash e with
          | Some (String c s) => set_apollo st (remove_key (String c s) (apollo st))
          | _ => st
          end
      | None => st
      end in
  (match apollo_client_hash q with
   | Some (String c s) =>
       if negb (String c s =s raw_hash) then set_apollo st (dict_set (String c s) raw_hash (apollo st))
       else st
   | _ => st
   end, raw_hash).

(** A query under its own hash; a hit moves it to the end. *)
Definition direct (self : registry) (h : string) : registry * option turbo_query :=
  match dict_get h (queries self) with
  | Some q => (move_to_end self h, Some q)
  | None => (self, None)
  end.

Definition via_apollo (self : registry) (h : string) : registry * option turbo_query :=
  match dict_get h (apollo self) with
  | Some primary => direct self primary
  | None => (self, None)
  end.

(** [first], and [second] when it found nothing. *)
Definition or_else (first second : registry → registry * option turbo_query) (self : registry)
    : registry * option turbo_query :=
  match first self with
  | (st, Some q) => (st, Some q)
  | (_, None) => second self
  end.

Definition get_by_hash (self : registry) (h : string) : registry * option turbo_query :=
  or_else (λ st, direct st h) (λ st, via_apollo st h) self.

Definition get (self : registry) (query : string) : registry * option turbo_query :=
  let normalized := hash_query query in
  let raw := hash_query_raw query in
  or_else (λ st, direct st normalized)
    (or_else (λ st, direct st raw)
       (or_else (λ st, via_apollo st normalized) (λ st, via_apollo st raw))) self.

Definition clear (self : registry) : registry :=
  {| max_size := max_size self; queries := []; apollo := [] |}.

(** ** Runs *)

Inductive call :=
| Register (q : turbo_query)
| RegisterRaw (q : turbo_query) (raw_hash : string)
| Get (query : string)
| GetByHash (h : string).

Definition run1 (self : registry) (c : call) : registry :=
  match c with
  | Register q => (register self q).1
  | RegisterRaw q h => (register_with_raw_hash self q h).1
  | Get query => (get self query).1
  | GetByHash h => (get_by_hash self h).1
  end.

(** The hash a lookup finds: its own, or the one of the client's hash. *)
Definition found (self : registry) (h : string) : option string :=
  if dict_has h (queries self) then Some h else None.

Definition found_apollo (self : registry) (h : string) : option string :=
  dict_get h (apollo self) ≫= found self.

(** The hash a call uses, if any. *)
Definition touched (self : registry) (c : call) : list string :=
  match c with
  | Register q => [hash_query (graphql_query q)]
  | RegisterRaw _ h => [h]
  | Get query =>
      let n := hash_query query in
      let r := hash_query_raw query in
      match found self n, found self r, found_apollo self n, found_apollo self r with
      | Some h, _, _, _ | None, Some h, _, _ | None, None, Some h, _ | None, None, None, Some h => [h]
      | _, _, _, _ => []
      end
  | GetByHash h =>
      match found self h, found_apollo self h with
      | Some h, _ | None, Some h => [h]
      | _, _ => []
      end
  end.

(** A run and the hashes used along it, the latest last. *)
Fixpoint run (self : registry) (trace : list string) (calls : list call) : registry * list string :=
  match calls with
  | [] => (self, trace)
  | c :: calls' => run (run1 self c) (trace ++ touched self c) calls'
  end.

End registry_ops.

(** ** The specification: the last distinct hashes *)

Definition without (k : string) (l : list string) : list string := List.filter (λ x, negb (x =s k)) l.

(** The distinct hashes of a trace in the order of their last use. *)
Definition recency (trace : list string) : list string :=
  foldl (λ l k, without k l ++ [k]) [] trace.

Definition lastn {A} (n : nat) (l : list A) : list A := drop (length l - n) l.

(** ** Lemmas on the specification *)

Lemma lastn_app {A} n (k l : list A) : n ≤ length l → lastn n (k ++ l) = lastn n l.
Proof.
  intros H. unfold lastn. rewrite length_app, drop_app.
  rewrite (drop_ge k) by lia. replace (length k + length l - n - length k) with (length l - n) by lia. done.
Qed.

Lemma lastn_all {A} n (l : list A) : length l ≤ n → lastn n l = l.
Proof. intros H. unfold lastn. by replace (length l - n) with 0 by lia. Qed.

Lemma length_lastn {A} n (l : list A) : length (lastn n l) = Nat.min n (length l).
Proof. unfold lastn. rewrite length_drop. lia. Qed.

Lemma lastn_split {A} n (l : list A) : l = take (length l - n) l ++ lastn n l.
Proof. unfold lastn. by rewrite take_drop. Qed.

Lemma without_app k l l' : without k (l ++ l') = without k l ++ without k l'.
Proof. apply List.filter_app. Qed.

Lemma without_cons k x l : without k (x :: l) = if decide (x = k) then without k l else x :: without k l.
Proof. unfold without. cbn. unfold Str.eqb. by case_bool_decide; case_decide. Qed.

Lemma without_id k l : k ∉ l → without k l = l.
Proof.
  induction l as [|x l IH]; [done|]. intros Hk%not_elem_of_cons. destruct Hk as [Hx Hl].
  rewrite without_cons, decide_False by (by intros ->). by rewrite IH.
Qed.

Lemma without_elem k l x : x ∈ without k l ↔ x ∈ l ∧ x ≠ k.
Proof.
  unfold without. rewrite !list_elem_of_In, filter_In. unfold Str.eqb.
  by rewrite negb_true_iff, bool_decide_eq_false.
Qed.

Lemma without_NoDup k l : NoDup l → NoDup (without k l).
Proof.
  induction 1 as [|x l Hx _ IH]; [constructor|]. rewrite without_cons. case_decide; [done|].
  constructor; [|done]. by intros [? _]%without_elem.
Qed.

Lemma without_length k l : NoDup l → k ∈ l → S (length (without k l)) = length l.
Proof.
  induction 1 as [|x l Hx Hl IH]; [by intros ?%not_elem_of_nil|].
  rewrite without_cons. intros Hk. case_decide as E; [subst; by rewrite without_id|].
  cbn [length]. rewrite IH; [done|]. apply elem_of_cons in Hk as [->|]; done.
Qed.

Lemma recency_snoc trace k : recency (trace ++ [k]) = without k (recency trace) ++ [k].
Proof. unfold recency. by rewrite foldl_app. Qed.

Lemma recency_NoDup trace : NoDup (recency trace).
Proof.
  induction trace as [|k trace IH] using rev_ind; [constructor|]. rewrite recency_snoc.
  apply NoDup_app. split_and!; [by apply without_NoDup| |apply NoDup_singleton].
  intros x [_ Hx]%without_elem ->%list_elem_of_singleton. done.
Qed.

(** Using a hash, on the last [n] and on all. *)
Lemma lastn_use n k l :
  NoDup l → lastn n (without k (lastn n l) ++ [k]) = lastn n (without k l ++ [k]).
Proof.
  intros Hl. pose proof (lastn_split n l) as E. pose proof (length_lastn n l) as Hlen.
  set (b := lastn n l) in *. set (a := take (length l - n) l) in *.
  destruct (decide (length l ≤ n)) as [Hle|Hgt].
  { assert (b = l) as -> by (by apply lastn_all). done. }
  assert (length b = n) as Hb by lia. rewrite E in Hl |- *. apply NoDup_app in Hl as (_ & Hab & HNb).
  rewrite without_app, <- app_assoc. rewrite (lastn_app n (without k a)); [done|].
  rewrite length_app. cbn. destruct (decide (k ∈ b)) as [Hk|Hk].
  - pose proof (without_length k b HNb Hk). lia.
  - rewrite without_id by done. lia.
Qed.

(** ** The registry's keys *)

Definition keys (self : registry) : list string := (queries self).*1.

Lemma keys_remove k (d : list (string * turbo_query)) : (remove_key k d).*1 = without k d.*1.
Proof.
  induction d as [|[x q] d IH]; [done|]. unfold remove_key, without in *. cbn.
  destruct (negb (x =s k)); cbn; by rewrite IH.
Qed.

Lemma has_keys self k : dict_has k (queries self) = true ↔ k ∈ keys self.
Proof. apply dict_has_In. Qed.

Lemma keys_move self k : k ∈ keys self → keys (move_to_end self k) = without k (keys self) ++ [k].
Proof.
  intros Hk%has_keys. unfold move_to_end. unfold dict_has in Hk.
  destruct (dict_get k (queries self)) as [q|]; [|done].
  unfold keys. cbn. by rewrite fmap_app, keys_remove.
Qed.

Lemma keys_evict self :
  length (keys self) ≤ S (max_size self) → keys (evict self).1 = lastn (max_size self) (keys self).
Proof.
  intros H. unfold evict, keys in *. rewrite length_fmap in H.
  destruct (Nat.ltb_spec (max_size self) (length (queries self))) as [Hlt|Hge].
  - destruct (queries self) as [|[k q] rest]; [cbn in Hlt; lia|]. cbn in *. unfold lastn. cbn.
    rewrite length_fmap. replace (S (length rest) - max_size self) with 1 by lia. done.
  - cbn. rewrite lastn_all; [done|]. by rewrite length_fmap.
Qed.

Lemma max_size_evict self : max_size (evict self).1 = max_size self.
Proof. unfold evict. destruct (Nat.ltb _ _), (queries self) as [|[] ?]; done. Qed.

Lemma max_size_move self k : max_size (move_to_end self k) = max_size self.
Proof. unfold move_to_end. by destruct (dict_get _ _). Qed.

(** The registry against its specification. *)
Definition is_lru (self : registry) (trace : list string) : Prop :=
  keys self = lastn (max_size self) (recency trace).

Lemma lru_length self trace : is_lru self trace → length (keys self) ≤ max_size self.
Proof. intros ->. rewrite length_lastn. lia. Qed.

Lemma lru_hit self trace k :
  is_lru self trace → k ∈ keys self → is_lru (move_to_end self k) (trace ++ [k]).
Proof.
  intros Hl Hk. pose proof (lru_length _ _ Hl) as Hlen. unfold is_lru in *.
  rewrite max_size_move, recency_snoc, keys_move by done.
  rewrite <- (lastn_use _ _ _ (recency_NoDup trace)), <- Hl. symmetry. apply lastn_all.
  rewrite length_app. cbn.
  assert (NoDup (keys self)) as Hn.
  { rewrite Hl. pose proof (recency_NoDup trace) as HN.
    rewrite (lastn_split (max_size self) (recency trace)) in HN. by apply NoDup_app in HN as (_ & _ & ?). }
  pose proof (without_length k (keys self) Hn Hk). lia.
Qed.

Lemma lru_new self trace k q :
  is_lru self trace → k ∉ keys self →
  is_lru (evict (set_queries self (queries self ++ [(k, q)]))).1 (trace ++ [k]).
Proof.
  intros Hl Hk. pose proof (lru_length _ _ Hl) as Hlen. unfold is_lru in *.
  rewrite max_size_evict, recency_snoc. cbn [max_size set_queries].
  rewrite <- (lastn_use _ _ _ (recency_NoDup trace)), <- Hl, without_id by done.
  assert (keys (set_queries self (queries self ++ [(k, q)])) = keys self ++ [k]) as E
    by (unfold keys; cbn; by rewrite fmap_app).
  rewrite keys_evict; rewrite E; [done|]. rewrite length_app. cbn. lia.
Qed.

Lemma lru_same self self' trace :
  keys self' = keys self → max_size self' = max_size self → is_lru self trace → is_lru self' trace.
Proof. unfold is_lru. by intros -> ->. Qed.

(** The recency, a call after the other. *)
Section runs.
Context (hash_query hash_query_raw : string → string).

Lemma lru_register self trace q :
  is_lru self trace →
  is_lru (register hash_query self q).1 (trace ++ [hash_query (graphql_query q)]).
Proof using Type.
  intros Hl. unfold register. cbn [fst]. destruct (dict_has _ _) eqn:E.
  - by apply lru_hit; [|apply has_keys].
  - apply lru_new; [done|]. intros Hk%has_keys. congruence.
Qed.

Lemma lru_register_raw self trace q h :
  is_lru self trace → is_lru (register_with_raw_hash self q h).1 (trace ++ [h]).
Proof using Type.
  intros Hl. unfold register_with_raw_hash. cbn [fst].
  set (st := if dict_has h (queries self) then _ else _).
  assert (is_lru st (trace ++ [h])) as Hst.
  { unfold st. destruct (dict_has _ _) eqn:E; [by apply lru_hit; [|apply has_keys]|].
    pose proof (lru_new self trace h q Hl) as Hn.
    destruct (evict _) as [st' [e|]]; cbn [fst] in Hn.
    - destruct (apollo_client_hash e) as [[|? ?]|]; try (apply Hn; intros Hk%has_keys; congruence).
    - apply Hn. intros Hk%has_keys; congruence. }
  destruct (apollo_client_hash q) as [[|? ?]|]; try done. destruct (negb _); [|done].
  by eapply lru_same.
Qed.

Lemma direct_lru self trace h :
  is_lru self trace →
  match found self h with
  | Some k => is_lru (direct self h).1 (trace ++ [k]) ∧ (direct self h).2 ≠ None
  | None => direct self h = (self, None)
  end.
Proof using Type.
  intros Hl. unfold found, direct. destruct (dict_has h (queries self)) eqn:E.
  - assert (h ∈ keys self) as Hk by (by apply has_keys). unfold dict_has in E.
    destruct (dict_get h (queries self)); [|done]. split; [by apply lru_hit|done].
  - unfold dict_has in E. by destruct (dict_get h (queries self)).
Qed.

Lemma via_apollo_lru self trace h :
  is_lru self trace →
  match found_apollo self h with
  | Some k => is_lru (via_apollo self h).1 (trace ++ [k]) ∧ (via_apollo self h).2 ≠ None
  | None => via_apollo self h = (self, None)
  end.
Proof using Type.
  intros Hl. unfold found_apollo, via_apollo. destruct (dict_get h (apollo self)) as [p|]; cbn; [|done].
  by apply direct_lru.
Qed.

(** One alternative of a lookup. *)
Lemma or_else_lru self trace (k1 : option string) (k2 : list string) f g :
  match k1 with
  | Some k => is_lru (f self).1 (trace ++ [k]) ∧ (f self).2 ≠ None
  | None => f self = (self, None)
  end →
  is_lru (g self).1 (trace ++ k2) →
  is_lru (or_else f g self).1 (trace ++ match k1 with Some k => [k] | None => k2 end).
Proof using Type.
  unfold or_else. destruct k1 as [k|].
  - intros [H1 H2] _. by destruct (f self) as [st [q|]].
  - by intros ->.
Qed.

Lemma last_lru self trace (k : option string) (r : registry * option turbo_query) :
  is_lru self trace →
  match k with
  | Some k => is_lru r.1 (trace ++ [k]) ∧ r.2 ≠ None
  | None => r = (self, None)
  end →
  is_lru r.1 (trace ++ match k with Some k => [k] | None => [] end).
Proof using Type. intros Hl. destruct k; [by intros [? _]|]. intros ->. by rewrite app_nil_r. Qed.

Lemma run1_lru self trace c :
  is_lru self trace →
  is_lru (run1 hash_query hash_query_raw self c) (trace ++ touched hash_query hash_query_raw self c).
Proof using Type.
  intros Hl. destruct c as [q|q h|query|h]; cbn [run1 touched].
  - by apply lru_register.
  - by apply lru_register_raw.
  - unfold get. cbn zeta. set (n := hash_query query). set (r := hash_query_raw query).
    pose proof (last_lru self trace _ _ Hl (via_apollo_lru self trace r Hl)) as H4.
    pose proof (or_else_lru self trace _ _ (λ st, via_apollo st n) (λ st, via_apollo st r)
      (via_apollo_lru self trace n Hl) H4) as H3.
    pose proof (or_else_lru self trace _ _ (λ st, direct st r) _ (direct_lru self trace r Hl) H3) as H2.
    pose proof (or_else_lru self trace _ _ (λ st, direct st n) _ (direct_lru self trace n Hl) H2) as H1.
    by destruct (found self n), (found self r), (found_apollo self n), (found_apollo self r).
  - unfold get_by_hash.
    pose proof (last_lru self trace _ _ Hl (via_apollo_lru self trace h Hl)) as H2.
    pose proof (or_else_lru self trace _ _ (λ st, direct st h) (λ st, via_apollo st h)
      (direct_lru self trace h Hl) H2) as H1.
    by destruct (found self h), (found_apollo self h).
Qed.

Lemma run_lru self trace calls :
  is_lru self trace →
  let '(self', trace') := run hash_query hash_query_raw self trace calls in is_lru self' trace'.
Proof using Type.
  revert self trace. induction calls as [|c calls IH]; intros self trace Hl; cbn [run]; [done|].
  apply IH. by apply run1_lru.
Qed.
End runs.

(** ** Where the queries come from *)

(** The calls register [q] under [k]. *)
Definition registered (hash_query : string → string) (calls : list call) (k : string)
    (q : turbo_query) : Prop :=
  (Register q ∈ calls ∧ k = hash_query (graphql_query q)) ∨ RegisterRaw q k ∈ calls.

(** The calls make [a] a client's hash of [k]. *)
Definition aliased (calls : list call) (a k : string) : Prop :=
  ∃ q, RegisterRaw q k ∈ calls ∧ apollo_client_hash q = Some a.

(** The queries and the client's hashes of a registry come from the calls. *)
Record sourced (hash_query : string → string) (calls : list call) (self : registry) : Prop := {
  queries_sourced : ∀ k q, (k, q) ∈ queries self → registered hash_query calls k q;
  apollo_sourced : ∀ a k, (a, k) ∈ apollo self → aliased calls a k
}.

Lemma remove_key_elem {V} k (d : list (string * V)) p : p ∈ remove_key k d → p ∈ d.
Proof. unfold remove_key. rewrite !list_elem_of_In, filter_In. by intros [? _]. Qed.

Section sources.
Context (hash_query hash_query_raw : string → string) (calls : list call).
Notation sourced := (sourced hash_query calls).

Lemma sourced_move self k : sourced self → sourced (move_to_end self k).
Proof using Type.
  intros [Hq Ha]. unfold move_to_end. destruct (dict_get k (queries self)) as [q|] eqn:E; [|by split].
  split; cbn; [|done]. intros k' q' [?%remove_key_elem|H%list_elem_of_singleton]%elem_of_app; [by apply Hq|].
  injection H as -> ->. by apply Hq, dict_get_elem.
Qed.

Lemma sourced_evict self : sourced self → sourced (evict self).1.
Proof using Type.
  intros [Hq Ha]. unfold evict. destruct (Nat.ltb _ _); [|by split].
  destruct (queries self) as [|[k q] rest] eqn:E.
  - split; cbn; [by rewrite E|done].
  - split; cbn; [|done]. intros k' q' H. apply Hq. by right.
Qed.

Lemma sourced_add self k q :
  registered hash_query calls k q → sourced self → sourced (set_queries self (queries self ++ [(k, q)])).
Proof using Type.
  intros Hr [Hq Ha]. split; cbn; [|done].
  intros k' q' [H|H%list_elem_of_singleton]%elem_of_app; [by apply Hq|]. by injection H as -> ->.
Qed.

Lemma sourced_unalias self a : sourced self → sourced (set_apollo self (remove_key a (apollo self))).
Proof using Type. intros [Hq Ha]. split; cbn; [done|]. intros a' k H%remove_key_elem. by apply Ha. Qed.

Lemma sourced_alias self a k :
  aliased calls a k → sourced self → sourced (set_apollo self (dict_set a k (apollo self))).
Proof using Type.
  intros Hk [Hq Ha]. split; cbn; [done|].
  intros a' k' [H|H]%dict_set_elem; [by injection H as -> ->|by apply Ha].
Qed.

Lemma direct_sourced self h :
  sourced self →
  sourced (direct self h).1 ∧ ∀ q, (direct self h).2 = Some q → registered hash_query calls h q.
Proof using Type.
  intros Hs. unfold direct. destruct (dict_get h (queries self)) as [q|] eqn:E; [|done].
  split; [by apply sourced_move|]. intros q' [= <-]. by apply Hs, dict_get_elem.
Qed.

Lemma via_apollo_sourced self h :
  sourced self →
  sourced (via_apollo self h).1
  ∧ ∀ q, (via_apollo self h).2 = Some q → ∃ k, aliased calls h k ∧ registered hash_query calls k q.
Proof using Type.
  intros Hs. unfold via_apollo. destruct (dict_get h (apollo self)) as [k|] eqn:E; [|done].
  destruct (direct_sourced self k Hs) as [H1 H2]. split; [done|]. intros q Hq. exists k.
  split; [by apply Hs, dict_get_elem|by apply H2].
Qed.

(** [P] and [Q] hold of what the alternatives find. *)
Lemma or_else_sourced self f g (P Q : turbo_query → Prop) :
  sourced (f self).1 ∧ (∀ q, (f self).2 = Some q → P q) →
  sourced (g self).1 ∧ (∀ q, (g self).2 = Some q → Q q) →
  sourced (or_else f g self).1 ∧ ∀ q, (or_else f g self).2 = Some q → P q ∨ Q q.
Proof using Type.
  unfold or_else. destruct (f self) as [st [q|]]; cbn; intros [Hf1 Hf2] [Hg1 Hg2].
  - split; [done|]. intros q' [= <-]. left. by apply Hf2.
  - split; [done|]. intros q' Hq. right. by apply Hg2.
Qed.

(** What a lookup of [h] may find. *)
Definition under (h : string) (q : turbo_query) : Prop :=
  registered hash_query calls h q ∨ ∃ k, aliased calls h k ∧ registered hash_query calls k q.

Lemma get_by_hash_sourced self h :
  sourced self →
  sourced (get_by_hash self h).1 ∧ ∀ q, (get_by_hash self h).2 = Some q → under h q.
Proof using Type.
  intros Hs. apply or_else_sourced; [by apply direct_sourced|by apply via_apollo_sourced].
Qed.

Lemma get_sourced self query :
  sourced self →
  sourced (get hash_query hash_query_raw self query).1
  ∧ ∀ q, (get hash_query hash_query_raw self query).2 = Some q →
      under (hash_query query) q ∨ under (hash_query_raw query) q.
Proof using Type.
  intros Hs. unfold get. cbn zeta.
  destruct (or_else_sourced self (λ st, via_apollo st (hash_query query))
    (λ st, via_apollo st (hash_query_raw query)) _ _ (via_apollo_sourced self (hash_query query) Hs)
    (via_apollo_sourced self (hash_query_raw query) Hs)) as [H1 H2].
  destruct (or_else_sourced self (λ st, direct st (hash_query_raw query)) _ _ _
    (direct_sourced self (hash_query_raw query) Hs)
    (conj H1 H2)) as [H3 H4].
  destruct (or_else_sourced self (λ st, direct st (hash_query query)) _ _ _
    (direct_sourced self (hash_query query) Hs)
    (conj H3 H4)) as [H5 H6].
  split; [done|]. intros q Hq. specialize (H6 q Hq). unfold under. naive_solver.
Qed.

Lemma run1_sourced self c :
  c ∈ calls → sourced self → sourced (run1 hash_query hash_query_raw self c).
Proof using Type.
  intros Hc Hs. destruct c as [q|q h|query|h]; cbn [run1].
  - unfold register. cbn [fst]. destruct (dict_has _ _); [by apply sourced_move|].
    apply sourced_evict, sourced_add; [by left|done].
  - unfold register_with_raw_hash. cbn [fst]. set (st := if dict_has h (queries self) then _ else _).
    assert (sourced st) as Hst.
    { unfold st. destruct (dict_has _ _); [by apply sourced_move|].
      pose proof (sourced_evict _ (sourced_add self h q (or_intror Hc) Hs)) as He.
      destruct (evict _) as [st' [e|]]; [|done].
      destruct (apollo_client_hash e) as [[|? ?]|]; try done. by apply sourced_unalias. }
    destruct (apollo_client_hash q) as [[|? ?]|] eqn:E; try done. destruct (negb _); [|done].
    apply sourced_alias; [|done]. by exists q.
  - by apply get_sourced.
  - by apply get_by_hash_sourced.
Qed.

Lemma run_sourced self trace more :
  more ⊆ calls → sourced self → sourced (run hash_query hash_query_raw self trace more).1.
Proof using Type.
  revert self trace. induction more as [|c more IH]; intros self trace Hm Hs; cbn [run]; [done|].
  apply IH; [intros x Hx; apply Hm; by right|]. apply run1_sourced; [apply Hm; by left|done].
Qed.
End sources.

(** ** Properties *)

Definition empty_registry (n : nat) : registry := {| max_size := n; queries := []; apollo := [] |}.

Lemma empty_lru n : is_lru (empty_registry n) [].
Proof. unfold is_lru, lastn. cbn. done. Qed.

Lemma run_max_size hq hr self trace calls : max_size (run hq hr self trace calls).1 = max_size self.
Proof.
  revert self trace. induction calls as [|c calls IH]; intros self trace; cbn [run]; [done|].
  rewrite IH. assert (∀ st h, max_size (direct st h).1 = max_size st) as Hd.
  { intros st h. unfold direct. destruct (dict_get h (queries st)); [|done]. apply max_size_move. }
  assert (∀ st h, max_size (via_apollo st h).1 = max_size st) as Ha.
  { intros st h. unfold via_apollo. destruct (dict_get h (apollo st)); [|done]. apply Hd. }
  assert (∀ f g st, max_size (f st).1 = max_size st → max_size (g st).1 = max_size st →
    max_size (or_else f g st).1 = max_size st) as Ho.
  { intros f g st Hf Hg. unfold or_else. by destruct (f st) as [? [?|]]. }
  destruct c as [q|q h|query|h]; cbn [run1].
  - unfold register. cbn [fst]. destruct (dict_has _ _).
    + apply max_size_move.
    + by rewrite max_size_evict.
  - unfold register_with_raw_hash. cbn [fst]. set (st := if dict_has h (queries self) then _ else _).
    assert (max_size st = max_size self) as Hst.
    { unfold st. destruct (dict_has _ _); [apply max_size_move|].
      pose proof (max_size_evict (set_queries self (queries self ++ [(h, q)]))) as He.
      destruct (evict _) as [st' [e|]]; [|done].
      by destruct (apollo_client_hash e) as [[|? ?]|]. }
    destruct (apollo_client_hash q) as [[|? ?]|]; try done. by destruct (negb _).
  - by repeat apply Ho.
  - by apply Ho.
Qed.

(** C27. Whatever is registered and looked up, the registry keeps exactly the last
    [max_size] distinct hashes that were used, in the order of their last use: the
    least recently used ones are evicted, and each of the others is found. *)
Theorem turbo_registry_is_lru hash_query hash_query_raw n calls :
  let '(st, trace) := run hash_query hash_query_raw (empty_registry n) [] calls in
  keys st = lastn n (recency trace)
  ∧ length (queries st) ≤ n
  ∧ ∀ h, h ∈ lastn n (recency trace) → (get_by_hash st h).2 ≠ None.
Proof.
  pose proof (run_lru hash_query hash_query_raw (empty_registry n) [] calls (empty_lru n)) as Hl.
  pose proof (run_max_size hash_query hash_query_raw (empty_registry n) [] calls) as Hm.
  destruct (run _ _ _ _ _) as [st trace]. cbn in Hm. pose proof (lru_length _ _ Hl) as Hn.
  unfold is_lru in Hl. rewrite Hm in *. split_and!; [done|by unfold keys in Hn; rewrite length_fmap in Hn|].
  intros h Hh. rewrite <- Hl in Hh. apply has_keys in Hh. unfold dict_has in Hh.
  unfold get_by_hash, or_else, direct. by destruct (dict_get h (queries st)).
Qed.

(** What a lookup of a hash returns was registered under that hash, or under
    a hash some registration gave it as a client's hash for; what a lookup of a
    query's text returns is so for its normalised or its raw hash. *)
Theorem lookups_return_registered hash_query hash_query_raw n calls :
  let st := (run hash_query hash_query_raw (empty_registry n) [] calls).1 in
  (∀ h q, (get_by_hash st h).2 = Some q → under hash_query calls h q)
  ∧ (∀ query q, (get hash_query hash_query_raw st query).2 = Some q →
      under hash_query calls (hash_query query) q ∨ under hash_query calls (hash_query_raw query) q).
Proof.
  cbn zeta. assert (sourced hash_query calls (run hash_query hash_query_raw (empty_registry n) [] calls).1) as Hs.
  { apply run_sourced; [done|]. split; cbn; intros ? ? ?%elem_of_nil; done. }
  split.
  - intros h. exact (proj2 (get_by_hash_sourced hash_query calls _ h Hs)).
  - intros query. exact (proj2 (get_sourced hash_query hash_query_raw calls _ query Hs)).
Qed.

Definition sample_query (text : string) (client : option string) : turbo_query :=
  {| graphql_query := text; sql_template := "SELECT 1"; param_mapping := [];
     operation_name := None; apollo_client_hash := client; context_params := None |}.

(** Two of three queries fit: the first is evicted unless it was just used. *)
Lemma lookups_return_registered_witness :
  let calls := [RegisterRaw (sample_query "{ a }" (Some "c")) "a"; Register (sample_query "{ b }" None);
                GetByHash "c"; Register (sample_query "{ d }" None)] in
  let st := (run id id (empty_registry 2) [] calls).1 in
  keys st = ["a"; "{ d }"]
  ∧ (get_by_hash st "c").2 = Some (sample_query "{ a }" (Some "c"))
  ∧ under id calls "c" (sample_query "{ a }" (Some "c")).
Proof.
  split; [reflexivity|]. split; [reflexivity|].
  apply (lookups_return_registered id id 2). reflexivity.
Defined.

(** A registration under a hash that is there keeps the query that was there. *)
Lemma registering_again_keeps_the_query hash_query self q old :
  dict_get (hash_query (graphql_query q)) (queries self) = Some old →
  dict_get (hash_query (graphql_query q)) (queries (register hash_query self q).1) = Some old.
Proof.
  intros H. unfold register, move_to_end. cbn [fst]. unfold dict_has. rewrite H. cbn.
  assert (∀ d, dict_get (hash_query (graphql_query q)) (remove_key (hash_query (graphql_query q)) d
    ++ [(hash_query (graphql_query q), old)]) = Some old) as E; [|apply E].
  clear. induction d as [|[x w] d IH]; cbn; [by rewrite decide_True|].
  unfold remove_key in *. cbn. unfold Str.eqb at 1. case_bool_decide; cbn; [done|].
  rewrite decide_False by done. done.
Qed.

(** Evicting a query takes a client's hash with it that another query has now: the
    other query is no longer found under it. *)
Example eviction_drops_a_live_alias :
  let a := sample_query "{ a }" (Some "c") in
  let b := sample_query "{ b }" (Some "c") in
  let before := [RegisterRaw a "a"; RegisterRaw b "b"] in
  let st := (run id id (empty_registry 2) [] before).1 in
  let st' := (register_with_raw_hash st (sample_query "{ d }" None) "d").1 in
  (get_by_hash st "c").2 = Some b
  ∧ (get_by_hash st' "c").2 = None ∧ (get_by_hash st' "b").2 = Some b.
Proof. by vm_compute. Qed.
