(* ===== verification/Regex.v ===== *)
(** * Regular expressions ([re])

    The part of Python's [re] the program uses: the syntax of a pattern, parsed from
    the very text the source has; what it matches, as a relation between positions
    of a text; and the matcher.  A position is the text before it, the nearest
    character first, and the text after it.  Patterns are used for whether they
    match, so the order in which alternatives are tried does not appear. *)
From stdpp Require Import base decidable strings list relations.
From Stdlib Require Import ZArith Lia Ascii.
From S2P Require Import Prelude PyVal.

(** ** Syntax *)

(** A class of characters: ranges, negated or not. *)
Record class := Class { negated : bool; ranges : list (ascii * ascii) }.

Inductive re :=
| Never
| Empty
| Chr (k : class)
| Seq (r1 r2 : re)
| Alt (r1 r2 : re)
| Star (r : re)
| Begin
| End_
| Ahead (r : re)
| NotAhead (r : re)
| NotBehind (k : class).

Definition in_range (c : ascii) (r : ascii * ascii) : bool :=
  (Str.code r.1 <=? Str.code c)%Z && (Str.code c <=? Str.code r.2)%Z.

Definition in_class (k : class) (c : ascii) : bool :=
  xorb (negated k) (existsb (in_range c) (ranges k)).

Definition newline : ascii := "010"%char.

(** ** What a pattern matches *)

Definition pos : Type := list ascii * list ascii.

Fixpoint matches (r : re) (p q : pos) : Prop :=
  match r with
  | Never => False
  | Empty => q = p
  | Chr k => ∃ c rest, p.2 = c :: rest ∧ in_class k c = true ∧ q = (c :: p.1, rest)
  | Seq r1 r2 => ∃ m, matches r1 p m ∧ matches r2 m q
  | Alt r1 r2 => matches r1 p q ∨ matches r2 p q
  | Star r => rtc (matches r) p q
  | Begin => p.1 = [] ∧ q = p
  | End_ => (p.2 = [] ∨ p.2 = [newline]) ∧ q = p
  | Ahead r => (∃ m, matches r p m) ∧ q = p
  | NotAhead r => ¬ (∃ m, matches r p m) ∧ q = p
  | NotBehind k => (∀ c b, p.1 = c :: b → in_class k c = false) ∧ q = p
  end.

(** ** The matcher *)

(** The positions reached from [p] by up to [n] rounds that each go forward. *)
Fixpoint rounds (f : pos → list pos) (n : nat) (p : pos) : list pos :=
  p :: match n with
       | O => []
       | S n => flat_map (rounds f n) (List.filter (λ q : pos, Nat.ltb (length q.2) (length p.2)) (f p))
       end.

Definition null {A} (l : list A) : bool := match l with [] => true | _ => false end.

Fixpoint ends (r : re) (p : pos) : list pos :=
  match r with
  | Never => []
  | Empty => [p]
  | Chr k =>
      match p.2 with
      | c :: rest => if in_class k c then [(c :: p.1, rest)] else []
      | [] => []
      end
  | Seq r1 r2 => flat_map (ends r2) (ends r1 p)
  | Alt r1 r2 => ends r1 p ++ ends r2 p
  | Star r => rounds (ends r) (length p.2) p
  | Begin => if null p.1 then [p] else []
  | End_ => match p.2 with [] => [p] | [c] => if Ascii.eqb c newline then [p] else [] | _ => [] end
  | Ahead r => if null (ends r p) then [] else [p]
  | NotAhead r => if null (ends r p) then [p] else []
  | NotBehind k =>
      match p.1 with c :: _ => if in_class k c then [] else [p] | [] => [p] end
  end.

(** [pattern.match(s)] as a truth value. *)
Definition re_match (r : re) (s : string) : bool :=
  negb (null (ends r ([], String.list_ascii_of_string s))).

(** ** The syntax of patterns

    Recursive descent over the text of the pattern; [fuel] is its length, of which
    every call takes a character.  Groups are not captured.  A construct outside
    the fragment gives no pattern. *)

Definition one (c : ascii) : class := Class false [(c, c)].

Definition digit_class : list (ascii * ascii) := [("0", "9")]%char.
Definition space_class : list (ascii * ascii) := [("009", "013"); ("028", " "); ("133", "133"); ("160", "160")]%char.
Definition word_class : list (ascii * ascii) :=
  [("0", "9"); ("A", "Z"); ("a", "z"); ("_", "_")]%char.

Definition dot : class := Class true [(newline, newline)].

Definition hex_value (c : ascii) : Z :=
  let z := Str.code c in
  if Str.is_digit c then z - 48 else if Str.is_upper c then z - 55 else z - 87.

(** What follows a backslash, as ranges. *)
Definition escape (s : list ascii) : option (list (ascii * ascii) * list ascii) :=
  match s with
  | ("d" :: s)%char => Some (digit_class, s)
  | ("s" :: s)%char => Some (space_class, s)
  | ("w" :: s)%char => Some (word_class, s)
  | ("x" :: h :: l :: s)%char =>
      if Str.is_hex h && Str.is_hex l then
        let c := Str.chr (16 * hex_value h + hex_value l) in Some ([(c, c)], s)
      else None
  | c :: s => if Str.is_alpha c || Str.is_digit c then None else Some ([(c, c)], s)
  | [] => None
  end.

(** The ranges of a class, up to its bracket. *)
Fixpoint class_items (fuel : nat) (first : bool) (s : list ascii)
    : option (list (ascii * ascii) * list ascii) :=
  match fuel with
  | O => None
  | S fuel =>
      match s with
      | ("]" :: s')%char => if first then None else Some ([], s')
      | ("\" :: s')%char =>
          '(k, s1) ← escape s';
          match k, s1 with
          | [(a, _)], ("-" :: "\" :: s2)%char =>
              '(k2, s3) ← escape s2;
              match k2 with
              | [(b, _)] => '(l, s4) ← class_items fuel false s3; Some ((a, b) :: l, s4)
              | _ => None
              end
          | _, _ => '(l, s2) ← class_items fuel false s1; Some (k ++ l, s2)
          end
      | a :: s' =>
          match s' with
          | ("-" :: b :: s2)%char =>
              if Ascii.eqb b "]" then '(l, s3) ← class_items fuel false s'; Some ((a, a) :: l, s3)
              else '(l, s3) ← class_items fuel false s2; Some ((a, b) :: l, s3)
          | _ => '(l, s2) ← class_items fuel false s'; Some ((a, a) :: l, s2)
          end
      | [] => None
      end
  end.

Fixpoint number (acc : nat) (s : list ascii) : nat * list ascii :=
  match s with
  | c :: s' =>
      if Str.is_digit c then number (10 * acc + Z.to_nat (Str.digit c)) s' else (acc, s)
  | [] => (acc, [])
  end.

(** [r{lo}], and [r{lo,lo+n}]. *)
Fixpoint times (r : re) (lo : nat) : re :=
  match lo with O => Empty | S O => r | S lo => Seq r (times r lo) end.

Fixpoint up_to (r : re) (n : nat) : re :=
  match n with O => Empty | S n => Alt Empty (Seq r (up_to r n)) end.

Definition rep (r : re) (lo : nat) (hi : option nat) : re :=
  match hi with
  | Some hi => if Nat.eqb lo hi then times r lo else Seq (times r lo) (up_to r (hi - lo))
  | None => Seq (times r lo) (Star r)
  end.

(** The quantifier after an atom, if there is one. *)
Definition quantified (r : re) (s : list ascii) : option (re * list ascii) :=
  match s with
  | ("*" :: s)%char => Some (Star r, s)
  | ("+" :: s)%char => Some (Seq r (Star r), s)
  | ("?" :: s)%char => Some (Alt Empty r, s)
  | ("{" :: s)%char =>
      let '(lo, s1) := number 0 s in
      match s1 with
      | ("}" :: s2)%char => Some (rep r lo (Some lo), s2)
      | ("," :: "}" :: s2)%char => Some (rep r lo None, s2)
      | ("," :: s2)%char =>
          let '(hi, s3) := number 0 s2 in
          match s3 with ("}" :: s4)%char => Some (rep r lo (Some hi), s4) | _ => None end
      | _ => None
      end
  | _ => Some (r, s)
  end.

(** Alternatives, up to a closing parenthesis or the end; each is a sequence of
    atoms with their quantifiers. *)
Fixpoint alternatives (fuel : nat) (s : list ascii) : option (re * list ascii) :=
  match fuel with
  | O => None
  | S fuel =>
      '(r, s1) ← sequence fuel s;
      match s1 with
      | ("|" :: s2)%char => '(r', s3) ← alternatives fuel s2; Some (Alt r r', s3)
      | _ => Some (r, s1)
      end
  end
with sequence (fuel : nat) (s : list ascii) : option (re * list ascii) :=
  match fuel with
  | O => None
  | S fuel =>
      match s with
      | [] => Some (Empty, [])
      | (")" :: _)%char | ("|" :: _)%char => Some (Empty, s)
      | _ =>
          '(a, s1) ← atom fuel s;
          '(r, s2) ← quantified a s1;
          '(rest, s3) ← sequence fuel s2;
          Some (match rest with Empty => r | _ => Seq r rest end, s3)
      end
  end
with atom (fuel : nat) (s : list ascii) : option (re * list ascii) :=
  match fuel with
  | O => None
  | S fuel =>
      let group (f : re → option re) (s : list ascii) :=
        '(r, s1) ← alternatives fuel s;
        match s1 with
        | (")" :: s2)%char => r' ← f r; Some (r', s2)
        | _ => None
        end in
      match s with
      | ("^" :: s)%char => Some (Begin, s)
      | ("$" :: s)%char => Some (End_, s)
      | ("." :: s)%char => Some (Chr dot, s)
      | ("\" :: s)%char => '(k, s1) ← escape s; Some (Chr (Class false k), s1)
      | ("[" :: "^" :: s)%char => '(l, s1) ← class_items fuel true s; Some (Chr (Class true l), s1)
      | ("[" :: s)%char => '(l, s1) ← class_items fuel true s; Some (Chr (Class false l), s1)
      | ("(" :: "?" :: ":" :: s)%char => group Some s
      | ("(" :: "?" :: "=" :: s)%char => group (λ r, Some (Ahead r)) s
      | ("(" :: "?" :: "!" :: s)%char => group (λ r, Some (NotAhead r)) s
      | ("(" :: "?" :: "<" :: "!" :: s)%char =>
          group (λ r, match r with Chr k => Some (NotBehind k) | _ => None end) s
      | ("(" :: "?" :: _)%char => None
      | ("(" :: s)%char => group Some s
      | ("*" :: _)%char | ("+" :: _)%char | ("?" :: _)%char => None
      | c :: s => Some (Chr (one c), s)
      | [] => None
      end
  end.

(** [re.compile(p)] *)
Definition parse (p : string) : option re :=
  let s := String.list_ascii_of_string p in
  match alternatives (S (S (3 * length s))) s with
  | Some (r, []) => Some r
  | _ => None
  end.

(** A text that is no pattern of the fragment matches nothing. *)
Definition compile (p : string) : re := default Never (parse p).

(** [re.IGNORECASE]: a class holds a letter when it holds either case of it. *)
Definition overlap (a b : ascii * ascii) (shift : Z) : list (ascii * ascii) :=
  let lo := Z.max (Str.code a.1) (Str.code b.1) in
  let hi := Z.min (Str.code a.2) (Str.code b.2) in
  if (lo <=? hi)%Z then [(Str.chr (lo + shift), Str.chr (hi + shift))] else [].

Definition both_cases (k : class) : class :=
  Class (negated k)
    (ranges k
       ++ flat_map (λ r, overlap r ("A", "Z")%char 32 ++ overlap r ("a", "z")%char (-32)) (ranges k)).

Fixpoint ignorecase (r : re) : re :=
  match r with
  | Chr k => Chr (both_cases k)
  | Seq r1 r2 => Seq (ignorecase r1) (ignorecase r2)
  | Alt r1 r2 => Alt (ignorecase r1) (ignorecase r2)
  | Star r => Star (ignorecase r)
  | Ahead r => Ahead (ignorecase r)
  | NotAhead r => NotAhead (ignorecase r)
  | NotBehind k => NotBehind (both_cases k)
  | Never | Empty | Begin | End_ => r
  end.

Example slug_matches :
  let r := compile "^[a-z0-9]+(?:-[a-z0-9]+)*$" in
  re_match r "a-b2-c" = true ∧ re_match r "a--b" = false ∧ re_match r "a-" = false.
Proof. by vm_compute. Qed.

Example label_matches :
  let r := compile "^(?!-)[a-z-]{1,63}(?<!-)(\.[a-z]{2,})?$" in
  re_match r "a-b.org" = true ∧ re_match r "a-.org" = false ∧ re_match r "-a" = false.
Proof. by vm_compute. Qed.
