(* ===== verification/RegexLaws.v ===== *)
(** * Laws of the regular expressions

    The matcher finds exactly the positions of the relation; a match takes a stretch
    of the text, of characters and a length the pattern bounds; an anchored pattern
    is a language, and its dollar lets one newline stand after the text. *)
From stdpp Require Import base decidable strings list relations.
From Stdlib Require Import ZArith Lia Ascii.
From S2P Require Import Prelude PyVal Regex.

(** ** A match takes a stretch of text *)

Definition moved (p q : pos) (w : list ascii) : Prop := p.2 = w ++ q.2 ∧ q.1 = reverse w ++ p.1.

Lemma moved_refl p : moved p p [].
Proof. done. Qed.

Lemma moved_trans p m q w1 w2 : moved p m w1 → moved m q w2 → moved p q (w1 ++ w2).
Proof.
  intros [E1 F1] [E2 F2]. split; [by rewrite E1, E2, app_assoc|].
  by rewrite F2, F1, reverse_app, app_assoc.
Qed.

Lemma moved_nil p q : moved p q [] → q = p.
Proof. destruct p, q. intros [E F]. cbn in *. by subst. Qed.

(** The characters a pattern may take, and how many at least and at most. *)
Fixpoint may_take (r : re) (c : ascii) : bool :=
  match r with
  | Chr k => in_class k c
  | Seq r1 r2 | Alt r1 r2 => may_take r1 c || may_take r2 c
  | Star r => may_take r c
  | _ => false
  end.

Fixpoint at_least (r : re) : nat :=
  match r with
  | Chr _ => 1
  | Seq r1 r2 => at_least r1 + at_least r2
  | Alt r1 r2 => Nat.min (at_least r1) (at_least r2)
  | _ => 0
  end.

Fixpoint at_most (r : re) : option nat :=
  match r with
  | Chr _ => Some 1
  | Seq r1 r2 => n1 ← at_most r1; n2 ← at_most r2; Some (n1 + n2)
  | Alt r1 r2 => n1 ← at_most r1; n2 ← at_most r2; Some (Nat.max n1 n2)
  | Star _ => None
  | _ => Some 0
  end.

Definition fits (r : re) (w : list ascii) : Prop :=
  Forall (λ c, may_take r c = true) w ∧ at_least r ≤ length w
  ∧ (∀ n, at_most r = Some n → length w ≤ n).

Lemma may_take_mono (f g : ascii → bool) w :
  (∀ c, f c = true → g c = true) → Forall (λ c, f c = true) w → Forall (λ c, g c = true) w.
Proof. intros H Hw. by eapply Forall_impl. Qed.

Lemma fits_nothing r : at_least r = 0 → fits r [].
Proof. intros E. split_and!; [constructor|by rewrite E|intros; cbn; lia]. Qed.

Lemma fits_seq r1 r2 w1 w2 : fits r1 w1 → fits r2 w2 → fits (Seq r1 r2) (w1 ++ w2).
Proof.
  intros (H1 & L1 & U1) (H2 & L2 & U2). split_and!; cbn.
  - apply Forall_app. split; eapply may_take_mono; [|exact H1| |exact H2]; intros c ->;
      by rewrite ?orb_true_r.
  - rewrite length_app. lia.
  - intros n Hn. rewrite length_app. destruct (at_most r1) as [n1|], (at_most r2) as [n2|]; try done.
    injection Hn as <-. specialize (U1 _ eq_refl). specialize (U2 _ eq_refl). lia.
Qed.

Lemma fits_alt r1 r2 w : fits r1 w ∨ fits r2 w → fits (Alt r1 r2) w.
Proof.
  intros [(H & L & U)|(H & L & U)]; split_and!; cbn; try lia;
    try (eapply may_take_mono; [|exact H]; intros c ->; by rewrite ?orb_true_r).
  all: intros n Hn; destruct (at_most r1) as [n1|], (at_most r2) as [n2|]; try done;
    injection Hn as <-; specialize (U _ eq_refl); lia.
Qed.

Lemma matches_moved r p q : matches r p q → ∃ w, moved p q w ∧ fits r w.
Proof.
  revert p q.
  induction r as [| |k|r1 IH1 r2 IH2|r1 IH1 r2 IH2|r IH| | |r IH|r IH|k]; intros p q; cbn [matches];
    try (by intros [_ ->]; exists []; split; [done|by apply fits_nothing]).
  - done.
  - intros ->. exists []. split; [done|by apply fits_nothing].
  - intros (c & rest & E & Hc & ->). exists [c]. split; [done|].
    split_and!; [by repeat constructor|done|by intros n [= <-]].
  - intros (m & H1 & H2). apply IH1 in H1 as (w1 & M1 & F1). apply IH2 in H2 as (w2 & M2 & F2).
    exists (w1 ++ w2). split; [by eapply moved_trans|by apply fits_seq].
  - intros [H|H]; [apply IH1 in H as (w & M & F)|apply IH2 in H as (w & M & F)];
      exists w; (split; [done|apply fits_alt; tauto]).
  - induction 1 as [p|p m q H1 _ IHs]; [exists []; split; [done|by apply fits_nothing]|].
    apply IH in H1 as (w1 & M1 & F1 & _). destruct IHs as (w2 & M2 & F2 & _).
    exists (w1 ++ w2). split; [by eapply moved_trans|].
    split_and!; [by apply Forall_app|cbn; lia|done].
Qed.

(** ** The matcher is the relation *)

Lemma null_spec {A} (l : list A) : null l = false ↔ ∃ x, x ∈ l.
Proof.
  destruct l as [|x l]; cbn; (split; [|by intros [? H]; try by apply not_elem_of_nil in H]); [done|].
  intros _. exists x. left.
Qed.

Lemma elem_of_flat_map {A B} (f : A → list B) l y : y ∈ flat_map f l ↔ ∃ x, x ∈ l ∧ y ∈ f x.
Proof.
  rewrite list_elem_of_In, in_flat_map.
  split; intros (x & H1 & H2); exists x; by rewrite ?list_elem_of_In in *.
Qed.

Section star.
Context (f : pos → list pos) (R : pos → pos → Prop).
Hypothesis f_spec : ∀ p q, q ∈ f p ↔ R p q.
Hypothesis R_moved : ∀ p q, R p q → ∃ w, moved p q w.

Lemma rounds_spec n p q : length p.2 ≤ n → q ∈ rounds f n p ↔ rtc R p q.
Proof using All.
  revert p. induction n as [|n IH]; intros p Hn; cbn [rounds]; rewrite elem_of_cons.
  - split; [intros [->|?%not_elem_of_nil]; [apply rtc_refl|done]|]. intros H. left.
    induction H as [p|p m q H1 H2 IHs]; [done|]. apply R_moved in H1 as (w & M).
    assert (w = []) as ->.
    { destruct w; [done|]. destruct M as [E _]. rewrite E in Hn. cbn in Hn. lia. }
    apply moved_nil in M. subst. by apply IHs.
  - rewrite elem_of_flat_map. split.
    + intros [->|(m & Hm & Hq)]; [apply rtc_refl|]. rewrite list_elem_of_In, filter_In in Hm.
      destruct Hm as [Hm Hl%Nat.ltb_lt]. apply list_elem_of_In, f_spec in Hm.
      eapply rtc_l; [exact Hm|]. apply IH; [lia|done].
    + induction 1 as [p|p m q H1 H2 IHs]; [by left|].
      destruct (R_moved _ _ H1) as ([|c w] & M); [apply moved_nil in M; subst; by apply IHs|].
      assert (length m.2 < length p.2) as Hl.
      { destruct M as [E _]. rewrite E. cbn. rewrite length_app. lia. }
      right. exists m. split; [|apply IH; [lia|done]].
      rewrite list_elem_of_In, filter_In. split; [by apply list_elem_of_In, f_spec|by apply Nat.ltb_lt].
Qed.
End star.

Lemma ends_spec r p q : q ∈ ends r p ↔ matches r p q.
Proof.
  revert p q.
  induction r as [| |k|r1 IH1 r2 IH2|r1 IH1 r2 IH2|r IH| | |r IH|r IH|k]; intros [b s] q;
    cbn [matches ends fst snd].
  - by rewrite elem_of_nil.
  - by rewrite list_elem_of_singleton.
  - split.
    + destruct s as [|c s]; [by intros ?%not_elem_of_nil|].
      destruct (in_class k c) eqn:E; [|by intros ?%not_elem_of_nil].
      intros ->%list_elem_of_singleton. by exists c, s.
    + intros (c & rest & -> & -> & ->). by apply list_elem_of_singleton.
  - rewrite elem_of_flat_map. split; intros (m & H1 & H2); exists m; by rewrite IH1, IH2 in *.
  - rewrite elem_of_app. by rewrite IH1, IH2.
  - apply rounds_spec; [exact IH| |done]. intros p' q' H%matches_moved. destruct H as (w & M & _).
    by exists w.
  - destruct b; cbn; rewrite ?list_elem_of_singleton, ?elem_of_nil; [|by split; [|intros []]].
    split; [by intros ->|by intros [_ ->]].
  - destruct s as [|c [|c' s]].
    + rewrite list_elem_of_singleton. split; [intros ->; tauto|by intros [_ ->]].
    + destruct (Ascii.eqb_spec c newline) as [->|Hc]; rewrite ?list_elem_of_singleton, ?elem_of_nil.
      * split; [intros ->; tauto|by intros [_ ->]].
      * split; [done|]. by intros [[H|[= H]] _].
    + rewrite elem_of_nil. split; [done|]. by intros [[H|H] _].
  - destruct (null (ends r (b, s))) eqn:E; rewrite ?list_elem_of_singleton, ?elem_of_nil.
    + split; [done|]. intros [(m & Hm) _]. apply IH in Hm.
      assert (null (ends r (b, s)) = false) by (apply null_spec; by exists m). congruence.
    + apply null_spec in E as (m & Hm). apply IH in Hm. split; [intros ->; eauto|by intros [_ ->]].
  - destruct (null (ends r (b, s))) eqn:E; rewrite ?list_elem_of_singleton, ?elem_of_nil.
    + split; [|by intros [_ ->]]. intros ->. split; [|done]. intros (m & Hm). apply IH in Hm.
      assert (null (ends r (b, s)) = false) by (apply null_spec; by exists m). congruence.
    + apply null_spec in E as (m & Hm). apply IH in Hm. split; [done|]. intros [H _]. destruct H. eauto.
  - destruct b as [|c b]; [rewrite list_elem_of_singleton; split; [by intros ->|by intros [_ ->]]|].
    destruct (in_class k c) eqn:E; rewrite ?list_elem_of_singleton, ?elem_of_nil.
    + split; [done|]. intros [H _]. specialize (H _ _ eq_refl). congruence.
    + split; [intros ->; split; [by intros ? ? [= <- <-]|done]|by intros [_ ->]].
Qed.

Lemma re_match_spec r s :
  re_match r s = true ↔ ∃ q, matches r ([], String.list_ascii_of_string s) q.
Proof.
  unfold re_match. rewrite negb_true_iff, null_spec.
  split; intros (q & H); exists q; by apply ends_spec.
Qed.

(** ** Anchored patterns *)

(** Patterns that look at nothing but the text they take. *)
Fixpoint plain (r : re) : bool :=
  match r with
  | Never | Empty | Chr _ => true
  | Seq r1 r2 | Alt r1 r2 => plain r1 && plain r2
  | Star r => plain r
  | _ => false
  end.

(** The words of a plain pattern. *)
Definition lang (r : re) (w : list ascii) : Prop := matches r ([], w) (reverse w, []).

Lemma plain_context r b b' w l l' :
  plain r = true → matches r (b, w ++ l) (reverse w ++ b, l) → matches r (b', w ++ l') (reverse w ++ b', l').
Proof.
  revert b b' w l l'.
  enough (∀ p q, plain r = true → matches r p q → ∀ w b' l', moved p q w →
    matches r (b', w ++ l') (reverse w ++ b', l')) as H.
  { intros b b' w l l' Hp Hm. by eapply H. }
  induction r as [| |k|r1 IH1 r2 IH2|r1 IH1 r2 IH2|r IH| | |r IH|r IH|k]; intros p q Hp; cbn [matches];
    try discriminate Hp.
  - done.
  - intros -> w b' l' [E F]. assert (w = []) as ->; [|done].
    apply (f_equal length) in E. rewrite length_app in E. destruct w; [done|cbn in E; lia].
  - intros (c & rest & E & Hc & ->) w b' l' [E' F]. cbn in E', F.
    assert (w = [c]) as -> by (symmetry; apply (app_inv_tail rest [c] w); by rewrite <- E', E).
    by exists c, l'.
  - apply andb_true_iff in Hp as [Hp1 Hp2]. intros (m & H1 & H2) w b' l' M.
    destruct (matches_moved _ _ _ H1) as (w1 & M1 & _). destruct (matches_moved _ _ _ H2) as (w2 & M2 & _).
    assert (w = w1 ++ w2) as ->.
    { destruct (moved_trans _ _ _ _ _ M1 M2) as [E _], M as [E' _]. rewrite E in E'.
      by apply app_inv_tail in E'. }
    exists (reverse w1 ++ b', w2 ++ l'). rewrite <- app_assoc, reverse_app, <- app_assoc.
    split; [by eapply IH1|by eapply IH2].
  - apply andb_true_iff in Hp as [Hp1 Hp2]. intros [H|H] w b' l' M; [left|right]; eauto.
  - intros H. induction H as [p|p m q H1 H2 IHs]; intros w b' l' M.
    + assert (w = []) as ->; [|apply rtc_refl]. destruct M as [E _]. apply (f_equal length) in E.
      rewrite length_app in E. destruct w; [done|cbn in E; lia].
    + destruct (matches_moved _ _ _ H1) as (w1 & M1 & _).
      destruct (matches_moved (Star r) _ _ H2) as (w2 & M2 & _).
      assert (w = w1 ++ w2) as ->.
      { destruct (moved_trans _ _ _ _ _ M1 M2) as [E _], M as [E' _]. rewrite E in E'.
        by apply app_inv_tail in E'. }
      rewrite <- app_assoc, reverse_app, <- app_assoc.
      eapply rtc_l; [by eapply IH|]. by apply IHs.
Qed.

(** A pattern without the dollar at its end. *)
Fixpoint strip_end (r : re) : option re :=
  match r with
  | End_ => Some Empty
  | Seq r1 r2 => Seq r1 <$> strip_end r2
  | _ => None
  end.

(** The pattern between the anchors. *)
Fixpoint body (r : re) : option re :=
  match r with
  | Seq Begin r => strip_end r
  | Alt r1 r2 => b1 ← body r1; b2 ← body r2; Some (Alt b1 b2)
  | _ => None
  end.

Lemma strip_end_spec r r' p q :
  strip_end r = Some r' → matches r p q ↔ matches r' p q ∧ (q.2 = [] ∨ q.2 = [newline]).
Proof.
  revert r' p. induction r as [| |k|r1 IH1 r2 IH2|r1 IH1 r2 IH2|r IH| | |r IH|r IH|k]; intros r' p E;
    try discriminate E.
  - cbn in E. destruct (strip_end r2) as [r2'|]; [|done]. injection E as <-. cbn [matches]. split.
    + intros (m & H1 & H2). apply (IH2 r2') in H2 as [H2 Hq]; [|done]. split; [by exists m|done].
    + intros [(m & H1 & H2) Hq]. exists m. split; [done|]. by apply (IH2 r2').
  - injection E as <-. cbn [matches]. split; [by intros [H ->]|by intros [-> H]].
Qed.

Lemma body_spec r r' s q :
  body r = Some r' → matches r ([], s) q ↔ matches r' ([], s) q ∧ (q.2 = [] ∨ q.2 = [newline]).
Proof.
  revert r'. induction r as [| |k|r1 IH1 r2 IH2|r1 IH1 r2 IH2|r IH| | |r IH|r IH|k]; intros r' E;
    try discriminate E.
  - cbn in E. destruct r1; try discriminate E. cbn [matches]. rewrite <- (strip_end_spec r2) by exact E. split.
    + by intros (m & (_ & ->) & H).
    + intros H. by exists ([], s).
  - cbn in E. destruct (body r1) as [b1|], (body r2) as [b2|]; try discriminate E. injection E as <-.
    cbn [matches]. rewrite (IH1 b1), (IH2 b2) by done. tauto.
Qed.

(** An anchored plain pattern accepts its words, alone or before one newline. *)
Lemma anchored_spec r r' s :
  body r = Some r' → plain r' = true →
  re_match r s = true
  ↔ ∃ w, lang r' w ∧ (String.list_ascii_of_string s = w ∨ String.list_ascii_of_string s = w ++ [newline]).
Proof.
  intros E Hp. rewrite re_match_spec. set (l := String.list_ascii_of_string s). split.
  - intros (q & H). apply (body_spec _ r') in H as [H Hq]; [|done].
    destruct (matches_moved _ _ _ H) as (w & [M1 M2] & _). cbn in M1, M2. rewrite app_nil_r in M2.
    exists w. split.
    + unfold lang. rewrite <- (app_nil_r w) at 1. rewrite <- (app_nil_r (reverse w)).
      apply (plain_context r' [] [] w q.2 []); [done|]. rewrite <- M1, app_nil_r, <- M2. by destruct q.
    + destruct Hq as [Hq|Hq]; rewrite Hq in M1; [left; by rewrite app_nil_r in M1|by right].
  - intros (w & Hw & Hs). unfold lang in Hw. rewrite <- (app_nil_r w) in Hw at 1.
    rewrite <- (app_nil_r (reverse w)) in Hw.
    destruct Hs as [Hs|Hs]; [exists (reverse w, [])|exists (reverse w, [newline])];
      apply (body_spec _ r'); try done; (split; [|cbn; tauto]); rewrite Hs.
    + by rewrite !app_nil_r in Hw.
    + rewrite <- (app_nil_r (reverse w)). by eapply plain_context.
Qed.

(** ** Patterns of one shape: a class for each character *)

Fixpoint shape_of (r : re) : option (list class) :=
  match r with
  | Empty => Some []
  | Chr k => Some [k]
  | Seq r1 r2 => l1 ← shape_of r1; l2 ← shape_of r2; Some (l1 ++ l2)
  | _ => None
  end.

Lemma shape_matches r l p q :
  shape_of r = Some l →
  matches r p q ↔ ∃ w, moved p q w ∧ Forall2 (λ k c, in_class k c = true) l w.
Proof.
  revert l p q. induction r as [| |k|r1 IH1 r2 IH2|r1 IH1 r2 IH2|r IH| | |r IH|r IH|k]; intros l p q E;
    try discriminate E; cbn in E.
  - injection E as <-. cbn. split; [intros ->; by exists []|]. intros (w & M & ->%Forall2_nil_inv_l).
    by apply moved_nil.
  - injection E as <-. cbn. split.
    + intros (c & rest & E & Hc & ->). exists [c]. split; [done|by repeat constructor].
    + intros (w & [M1 M2] & H). apply Forall2_cons_inv_l in H as (c & w' & Hc & ->%Forall2_nil_inv_l & ->).
      exists c, q.2. split_and!; [done|done|]. destruct q. cbn in *. by subst.
  - destruct (shape_of r1) as [l1|], (shape_of r2) as [l2|]; try discriminate E. injection E as <-.
    cbn [matches]. split.
    + intros (m & H1 & H2). apply (IH1 l1) in H1 as (w1 & M1 & F1); [|done].
      apply (IH2 l2) in H2 as (w2 & M2 & F2); [|done].
      exists (w1 ++ w2). split; [by eapply moved_trans|by apply Forall2_app].
    + intros (w & M & H). apply Forall2_app_inv_l in H as (w1 & w2 & F1 & F2 & ->).
      exists (reverse w1 ++ p.1, w2 ++ q.2). destruct M as [M1 M2].
      rewrite (IH1 l1), (IH2 l2) by done. split; [exists w1|exists w2]; (split; [|done]); split; cbn.
      * by rewrite M1, app_assoc.
      * done.
      * done.
      * by rewrite M2, reverse_app, app_assoc.
Qed.

Lemma shape_spec r l w : shape_of r = Some l → lang r w ↔ Forall2 (λ k c, in_class k c = true) l w.
Proof.
  intros E. unfold lang. rewrite (shape_matches r l) by done. split.
  - intros (w' & [M _] & H). cbn in M. rewrite app_nil_r in M. by subst.
  - intros H. exists w. split; [|done]. split; cbn; by rewrite app_nil_r.
Qed.

Lemma lang_fits r w : lang r w → fits r w.
Proof.
  intros (w' & [M _] & F)%matches_moved. cbn in M. rewrite app_nil_r in M. by subst.
Qed.
