(* ===== verification/Scalars.v ===== *)
(** * Text scalars ([types/scalars])

    Each scalar of this file is a module of the source with the same four functions:
    [serialize_x], [parse_x_value], [parse_x_literal] and [XField.__new__].  They
    normalise a text, match it against a pattern, and some compute a check digit; a
    [text_scalar] is what a module puts in their place, and the functions are given
    once.  The patterns are the source's texts. *)
From stdpp Require Import base decidable strings list.
From Stdlib Require Import ZArith Lia Ascii.
From S2P Require Import Prelude PyVal Regex.

Local Open Scope py_scope.

(** A literal of a GraphQL document, as graphql-core gives it to [parse_literal]. *)
Inductive value_node :=
| StringValueNode (value : string)
| IntValueNode (value : string)
| FloatValueNode (value : string)
| BooleanValueNode (value : bool)
| NullValueNode
| EnumValueNode (value : string)
| ListValueNode (values : list value_node)
| ObjectValueNode (fields : list (string * value_node))
| VariableNode (name : string).

(** [normalise] is what is done to the text first, [patterns] those of which one has
    to match, and [finish e] checks and completes a text that matched, raising [e]
    where the module raises its own error. *)
Record text_scalar := {
  name : string;
  normalise : string → string;
  patterns : list re;
  finish : exn → string → result string
}.

Definition matches_any (sc : text_scalar) (s : string) : bool :=
  existsb (λ r, re_match r s) (patterns sc).

Definition accept (sc : text_scalar) (e : exn) (text : string) : result string :=
  let s := normalise sc text in
  if negb (matches_any sc s) then Err e else finish sc e s.

Definition serialize (sc : text_scalar) (value : pyval) : result pyval :=
  match value with
  | PNone => Ok PNone
  | v => PStr <$> accept sc GraphQLError (Py.str v)
  end.

Definition parse_value (sc : text_scalar) (value : pyval) : result string :=
  match value with
  | PStr s => accept sc GraphQLError s
  | _ => Err GraphQLError
  end.

Definition parse_literal (sc : text_scalar) (ast : value_node) : result string :=
  match ast with
  | StringValueNode s => parse_value sc (PStr s)
  | _ => Err GraphQLError
  end.

(** [XField.__new__]: a wrong text is a [ValueError]. *)
Definition field_new (sc : text_scalar) (value : string) : result string :=
  accept sc ValueError value.

Definition as_is (e : exn) (s : string) : result string := Ok s.

(** A scalar that is its pattern. *)
Definition pattern_scalar (name : string) (normalise : string → string) (r : re) : text_scalar :=
  {| name := name; normalise := normalise; patterns := [r]; finish := as_is |}.

(** ** Codes in capitals *)

Definition AirportCode := pattern_scalar "AirportCode" Str.upper (compile "^[A-Z]{3}$").
Definition CurrencyCode := pattern_scalar "CurrencyCode" Str.upper (compile "^[A-Z]{3}$").
Definition CUSIP := pattern_scalar "CUSIP" Str.upper (compile "^[0-9]{3}[A-Z0-9]{5}[0-9]$").
Definition ExchangeCode := pattern_scalar "ExchangeCode" Str.upper (compile "^[A-Z]{2,6}$").
Definition FlightNumber :=
  pattern_scalar "FlightNumber" Str.upper (compile "^[A-Z]{2}[0-9]{1,4}[A-Z]?$").
Definition LEI := pattern_scalar "LEI" Str.upper (compile "^[A-Z0-9]{18}[0-9]{2}$").
Definition MIC := pattern_scalar "MIC" Str.upper (compile "^[A-Z]{4}$").
Definition PortCode := pattern_scalar "PortCode" Str.upper (compile "^[A-Z]{2}[A-Z0-9]{3}$").
Definition SEDOL := pattern_scalar "SEDOL" Str.upper (compile "^[B-DF-HJ-NP-TV-Z0-9]{6}[0-9]$").
Definition StockSymbol := pattern_scalar "StockSymbol" Str.upper (compile "^[A-Z]{1,5}(\.[A-Z])?$").

(** ** Small letters *)

Definition LanguageCode := pattern_scalar "LanguageCode" Str.lower (compile "^[a-z]{2}$").
Definition DomainName :=
  pattern_scalar "DomainName" Str.lower
    (compile ("^(?=.{1,253}$)" +:+ "(?!.*--)" +:+ "(?!-)[a-zA-Z0-9-]{1,63}(?<!-)" +:+ "(\."
              +:+ "(?!-)[a-zA-Z0-9-]{1,63}(?<!-))*" +:+ "\.[a-zA-Z]{2,}$")%stdpp).
Definition Hostname :=
  pattern_scalar "Hostname" Str.lower
    (compile ("^(?=.{1,253}$)" +:+ "(?!-)" +:+ "(?!.*--)" +:+ "((?!-)[a-zA-Z0-9-]{1,63}(?<!-)\.)*"
              +:+ "(?!-)[a-zA-Z0-9-]{1,63}(?<!-)$")%stdpp).

(** ** Texts as they are *)

Definition ApiKey := pattern_scalar "ApiKey" id (compile "^[A-Za-z0-9_-]{16,128}$").
Definition Color := pattern_scalar "Color" id (compile "^#(?:[0-9a-fA-F]{3}|[0-9a-fA-F]{6})$").
Definition Duration :=
  pattern_scalar "Duration" id
    (compile ("^P(?=\d+[YMWD])?(?:\d+Y)?(?:\d+M)?(?:\d+W)?(?:\d+D)?"
              +:+ "(?:T(?:\d+H)?(?:\d+M)?(?:\d+S)?)?$")%stdpp).
Definition HashSHA256 := pattern_scalar "HashSHA256" id (compile "^[a-fA-F0-9]{64}$").
Definition Latitude :=
  pattern_scalar "Latitude" id (compile "^-?90(?:\.0{1,8})?$|^-?[1-8]?\d(?:\.\d{1,8})?$").
Definition Longitude :=
  pattern_scalar "Longitude" id
    (compile "^-?180(?:\.0{1,8})?$|^-?(?:1[0-7]|[1-9])?\d(?:\.\d{1,8})?$").
Definition LicensePlate := pattern_scalar "LicensePlate" id (compile "^[A-Z0-9 -]{2,12}$").
Definition LocaleCode := pattern_scalar "LocaleCode" id (compile "^[a-z]{2}(-[A-Z]{2})?$").
Definition MimeType :=
  pattern_scalar "MimeType" id
    (compile ("^[a-zA-Z][a-zA-Z0-9][a-zA-Z0-9!#$&^_-]*\/[a-zA-Z][a-zA-Z0-9][a-zA-Z0-9!#$&^_-]*"
              +:+ "(?:\+[a-zA-Z][a-zA-Z0-9][a-zA-Z0-9!#$&^_-]*)?$")%stdpp).
Definition PhoneNumber := pattern_scalar "PhoneNumber" id (compile "^\+[1-9]\d{6,14}$").
Definition SemanticVersion :=
  pattern_scalar "SemanticVersion" id
    (compile ("^(0|[1-9]\d*)\.(0|[1-9]\d*)\.(0|[1-9]\d*)"
              +:+ "(?:-((?:0|[1-9]\d*|\d*[a-z-][0-9a-z-]*)"
              +:+ "(?:\.(?:0|[1-9]\d*|\d*[a-z-][0-9a-z-]*))*))?"
              +:+ "(?:\+([0-9a-z-]+(?:\.[0-9a-z-]+)*))?$")%stdpp).
Definition Slug := pattern_scalar "Slug" id (compile "^[a-z0-9]+(?:-[a-z0-9]+)*$").
Definition Time :=
  pattern_scalar "Time" id (compile "^(?:[01]\d|2[0-3]):[0-5]\d(?::[0-5]\d)?$").
Definition Timezone :=
  pattern_scalar "Timezone" id (compile "^[A-Z][a-z]+[a-zA-Z_]*(/[A-Z][a-z]+[a-zA-Z_]*){1,2}$").
Definition TrackingNumber := pattern_scalar "TrackingNumber" id (compile "^[A-Z0-9]{8,30}$").

(** ** Texts without surrounding white space, and patterns that ignore case *)

Definition PostalCode :=
  pattern_scalar "PostalCode" Str.strip (ignorecase (compile "^[A-Z0-9][A-Z0-9 -]{1,8}[A-Z0-9]$")).

Definition File_ :=
  pattern_scalar "File" id
    (ignorecase (compile
      ("^(?:" +:+ "https?://.+" +:+ "|" +:+ "(?:\./|/|\.\./|\.\./\.\./)?[^\x00-\x1f\x7f-\x9f<>:\"
       +:+ String Py.dquote "|?*\x00]+" +:+ ")$")%stdpp)).

(** The extensions are a set, in some order. *)
Definition _IMAGE_EXTENSIONS : list string :=
  [".jpg"; ".jpeg"; ".png"; ".gif"; ".webp"; ".svg"; ".bmp"; ".tiff"; ".tif"].

Definition Image :=
  let any := Str.join "|" (map (Str.drop 1) _IMAGE_EXTENSIONS) in
  pattern_scalar "Image" id
    (ignorecase (compile
      ("^(?:" +:+ "https?://.*\.(?:" +:+ any +:+ ")" +:+ "|" +:+ ".*\.(?:" +:+ any +:+ ")" +:+ ")$")%stdpp)).

(** ** MAC addresses *)

Definition _MAC_PATTERNS : list re :=
  [compile "^([0-9A-Fa-f]{2}:){5}[0-9A-Fa-f]{2}$"; compile "^([0-9A-Fa-f]{2}-){5}[0-9A-Fa-f]{2}$";
   compile "^([0-9A-Fa-f]{4}\.){2}[0-9A-Fa-f]{4}$"; compile "^[0-9A-Fa-f]{12}$"].

Fixpoint pairs (s : string) : list string :=
  match s with
  | String a (String b s') => String a (String b EmptyString) :: pairs s'
  | EmptyString => []
  | s => [s]
  end.

Definition normalize_mac_address (mac : string) : result string :=
  let clean := Str.remove_char "." (Str.remove_char "-" (Str.remove_char ":" (Str.upper mac))) in
  if negb (Nat.eqb (String.length clean) 12)
     || negb (Str.forallb (λ c, Str.has_char c "0123456789ABCDEF") clean)
  then Err ValueError
  else Ok (Str.join ":" (pairs clean)).

Definition MacAddress :=
  {| name := "MacAddress"; normalise := id; patterns := _MAC_PATTERNS;
     finish e s := match normalize_mac_address s with Ok m => Ok m | Err _ => Err e end |}.

(** ** Scalars that check less *)

(** [EmailAddress] serialises anything; [LTree] accepts every text, and [HTML] and
    [Markdown] every text and the text of every value. *)
Definition EmailAddress := pattern_scalar "EmailAddress" id (compile "^[^@]+@[^@]+\.[^@]+$").

Definition serialize_email_address (value : pyval) : result pyval := Ok value.

Definition serialize_ltree (value : pyval) : result string :=
  match value with PStr s => Ok s | _ => Err GraphQLError end.

Definition parse_ltree_value : pyval → result string := serialize_ltree.

Definition parse_ltree_literal (ast : value_node) : result string :=
  match ast with StringValueNode s => Ok s | _ => Err GraphQLError end.

Definition serialize_html (value : pyval) : result pyval :=
  match value with PNone => Ok PNone | v => Ok (PStr (Py.str v)) end.

Definition parse_html_value (value : pyval) : result string :=
  match value with PStr s => Ok s | _ => Err GraphQLError end.

Definition parse_html_literal (ast : value_node) : result string :=
  match ast with StringValueNode s => parse_html_value (PStr s) | _ => Err GraphQLError end.

Definition serialize_markdown : pyval → result pyval := serialize_html.
Definition parse_markdown_value : pyval → result string := parse_html_value.
Definition parse_markdown_literal : value_node → result string := parse_html_literal.

(** The scalars without check digits. *)
Definition pattern_scalars : list text_scalar :=
  [AirportCode; CurrencyCode; CUSIP; ExchangeCode; FlightNumber; LEI; MIC; PortCode; SEDOL; StockSymbol;
   LanguageCode; DomainName; Hostname; ApiKey; Color; Duration; HashSHA256; Latitude; Longitude;
   LicensePlate; LocaleCode; MimeType; PhoneNumber; SemanticVersion; Slug; Time; Timezone;
   TrackingNumber; PostalCode; File_; Image].

(** Every pattern is in the fragment. *)
Definition never (r : re) : bool := match r with Never => true | _ => false end.

Example patterns_compile :
  forallb (λ sc, negb (existsb never (patterns sc))) (EmailAddress :: MacAddress :: pattern_scalars) = true.
Proof. by vm_compute. Qed.
