(* ===== verification/Checksums.v ===== *)
(** * Scalars with check digits ([isin.py], [iban.py], [vin.py], [container_number.py])

    The four algorithms as the modules write them, over the characters of a text
    that has matched its pattern, and the scalars they complete. *)
From stdpp Require Import base decidable strings list.
From Stdlib Require Import ZArith Lia Ascii.
From S2P Require Import Prelude PyVal Regex Scalars.

Local Open Scope py_scope.
Local Open Scope Z_scope.

Notation chars := String.list_ascii_of_string.
Notation text := String.string_of_list_ascii.

(** [ord(c) - ord("A") + 10] *)
Definition letter (c : ascii) : Z := Str.code c - 65 + 10.

(** A module's scalar: its pattern, and a check that may raise. *)
Definition checked (valid : string → result bool) (e : exn) (s : string) : result string :=
  ok ← valid s; if ok : bool then Ok s else Err e.

Definition checked_scalar (name : string) (normalise : string → string) (r : re)
    (valid : string → result bool) : text_scalar :=
  {| name := name; normalise := normalise; patterns := [r]; finish := checked valid |}.

(** ** ISIN: the Luhn sum of the digits, letters as two of them *)

Definition isin_digits (l : list ascii) : list Z :=
  flat_map (λ c, if Str.is_digit c then [Str.digit c] else [letter c / 10; letter c mod 10]) l.

(** [enumerate(reversed(digits))], every second digit doubled from the first on. *)
Fixpoint luhn (doubled : bool) (digits : list Z) : Z :=
  match digits with
  | [] => 0
  | d :: digits' =>
      (if doubled then if d * 2 <? 10 then d * 2 else d * 2 - 9 else d) + luhn (negb doubled) digits'
  end.

Definition isin_check_digit (l : list ascii) : Z :=
  (10 - luhn true (reverse (isin_digits l)) mod 10) mod 10.

(** [int(isin[-1])] raises on what is no digit. *)
Definition _validate_isin_check_digit (isin : string) : result bool :=
  match reverse (chars isin) with
  | [] => Err IndexError
  | last :: init =>
      d ← Num.int_of_string (String last EmptyString);
      Ok (isin_check_digit (reverse init) =? d)
  end.

Definition ISIN :=
  checked_scalar "ISIN" Str.upper (compile "^[A-Z]{2}[A-Z0-9]{9}[0-9]$") _validate_isin_check_digit.

(** ** IBAN: a number modulo 97 *)

Definition _IBAN_LENGTHS : list (string * Z) :=
  [("AL", 28); ("AD", 24); ("AT", 20); ("AZ", 28); ("BH", 22); ("BY", 28); ("BE", 16); ("BA", 20);
   ("BR", 29); ("BG", 22); ("CR", 22); ("HR", 21); ("CY", 28); ("CZ", 24); ("DK", 18); ("DO", 28);
   ("EG", 29); ("EE", 20); ("FO", 18); ("FI", 18); ("FR", 27); ("GE", 22); ("DE", 22); ("GI", 23);
   ("GR", 27); ("GL", 18); ("GT", 28); ("HU", 28); ("IS", 26); ("IQ", 23); ("IE", 22); ("IL", 23);
   ("IT", 27); ("JO", 30); ("KZ", 20); ("XK", 20); ("KW", 30); ("LV", 21); ("LB", 28); ("LY", 25);
   ("LI", 21); ("LT", 20); ("LU", 20); ("MK", 19); ("MT", 31); ("MR", 27); ("MU", 30); ("MD", 24);
   ("MC", 27); ("ME", 22); ("NL", 18); ("NO", 15); ("PK", 24); ("PS", 29); ("PL", 28); ("PT", 25);
   ("QA", 29); ("RO", 24); ("LC", 32); ("SM", 27); ("ST", 25); ("SA", 24); ("RS", 22); ("SC", 31);
   ("SK", 24); ("SI", 19); ("ES", 24); ("SE", 24); ("CH", 21); ("TL", 23); ("TN", 24); ("TR", 26);
   ("UA", 29); ("AE", 23); ("GB", 22); ("VA", 22); ("VG", 24); ("DZ", 24); ("AO", 25); ("BJ", 28);
   ("BF", 28); ("BI", 16); ("CM", 27); ("CV", 25); ("CF", 27); ("TD", 27); ("KM", 27); ("CG", 27);
   ("DJ", 27); ("GQ", 27); ("GA", 27); ("GW", 25); ("HN", 28); ("IR", 26); ("CI", 28); ("MG", 27);
   ("ML", 28); ("MA", 28); ("MZ", 25); ("NI", 32); ("NE", 28); ("SN", 28); ("TG", 28)].

Definition numeric_string (l : list ascii) : string :=
  foldr (λ c acc,
    ((if Str.is_digit c then String c EmptyString
      else Num.string_of_Z (letter (Str.upper_ascii c))) +:+ acc)%stdpp) EmptyString l.

Definition _validate_iban_check_digits (iban : string) : bool :=
  let l := chars iban in
  match Num.int_of_string (numeric_string (drop 4 l ++ take 4 l)) with
  | Ok number => number mod 97 =? 1
  | Err _ => false
  end.

Definition iban_length_ok (iban : string) : bool :=
  match dict_get (Str.take 2 iban) _IBAN_LENGTHS with
  | Some n => (n =? 0) || (Z.of_nat (String.length iban) =? n)
  | None => true
  end.

Definition IBAN :=
  checked_scalar "IBAN" (λ s, Str.remove_char " " (Str.upper s))
    (compile "^[A-Z]{2}[0-9]{2}[A-Z0-9]{11,30}$")
    (λ s, Ok (iban_length_ok s && _validate_iban_check_digits s)).

(** ** VIN: a weighted sum modulo 11 *)

Definition table (keys : string) (values : list Z) : list (ascii * Z) := zip (chars keys) values.

Definition value_of (t : list (ascii * Z)) (c : ascii) : option Z :=
  snd <$> List.find (λ kv, Ascii.eqb kv.1 c) t.

Definition _VIN_CHAR_VALUES : list (ascii * Z) :=
  table "0123456789ABCDEFGHIJKLMNOPQRSTUVWXYZ"
    [0; 1; 2; 3; 4; 5; 6; 7; 8; 9;
     1; 2; 3; 4; 5; 6; 7; 8; 9; 1; 2; 3; 4; 5; 0; 7; 0; 9; 2; 3; 4; 5; 6; 7; 8; 9].

Definition _VIN_WEIGHTS : list Z := [8; 7; 6; 5; 4; 3; 2; 10; 0; 9; 8; 7; 6; 5; 4; 3; 2].

(** The sum of the weighted values, [None] for a character without one. *)
Fixpoint weighted_sum (t : list (ascii * Z)) (weights : list Z) (l : list ascii) : option Z :=
  match weights, l with
  | w :: weights', c :: l' =>
      v ← value_of t (Str.upper_ascii c); rest ← weighted_sum t weights' l'; Some (v * w + rest)
  | _, _ => Some 0
  end.

Definition _calculate_vin_check_digit (vin : list ascii) : result string :=
  if negb (Nat.eqb (length vin) 17) then Err ValueError
  else match weighted_sum _VIN_CHAR_VALUES _VIN_WEIGHTS vin with
       | None => Err ValueError
       | Some total =>
           let remainder := total mod 11 in
           Ok (if remainder =? 10 then "X" else Num.string_of_Z remainder)
       end.

Definition _validate_vin_check_digit (vin : string) : bool :=
  let l := chars vin in
  if negb (Nat.eqb (length l) 17) then false
  else match _calculate_vin_check_digit l, l !! 8%nat with
       | Ok calculated, Some provided =>
           Str.upper calculated =s String (Str.upper_ascii provided) EmptyString
       | _, _ => false
       end.

Definition VIN :=
  checked_scalar "VIN" Str.upper (compile "^[A-HJ-NPR-Z0-9]{17}$")
    (λ s, Ok (_validate_vin_check_digit s)).

(** ** Container numbers: powers of two as weights *)

Definition _CHAR_VALUES : list (ascii * Z) :=
  table "0123456789ABCDEFGHIJKLMNOPQRSTUVWXYZ"
    [0; 1; 2; 3; 4; 5; 6; 7; 8; 9;
     10; 12; 13; 14; 15; 16; 17; 18; 19; 20; 21; 23; 24; 25; 26; 27; 28; 29; 30; 31; 32; 34; 35; 36; 37; 38].

Definition powers (n : nat) : list Z := map (λ i, 2 ^ Z.of_nat i) (seq 0 n).

Definition _calculate_iso6346_check_digit (container : list ascii) : result Z :=
  if negb (Nat.eqb (length container) 11) then Err ValueError
  else match weighted_sum _CHAR_VALUES (powers 10) (take 10 container) with
       | None => Err ValueError
       | Some total => Ok ((total mod 11) mod 10)
       end.

Definition _validate_container_check_digit (container : string) : bool :=
  let l := chars container in
  if negb (Nat.eqb (length l) 11) then false
  else match _calculate_iso6346_check_digit l, l !! 10%nat with
       | Ok calculated, Some last =>
           match Num.int_of_string (String last EmptyString) with
           | Ok provided => calculated =? provided
           | Err _ => false
           end
       | _, _ => false
       end.

Definition ContainerNumber :=
  checked_scalar "ContainerNumber" Str.upper (compile "^[A-Z]{3}[UJZ][0-9]{6}[0-9]$")
    (λ s, Ok (_validate_container_check_digit s)).

(** What the modules document as examples: three are refused. *)
Example documented_codes :
  map (λ s, parse_value ISIN (PStr s)) ["US0378331005"; "gb0002374006"]
  = [Ok "US0378331005"; Ok "GB0002374006"]
  ∧ map (λ s, parse_value IBAN (PStr s)) ["GB82 WEST 1234 5698 7654 32"; "DE89370400440532013000"]
    = [Ok "GB82WEST12345698765432"; Ok "DE89370400440532013000"]
  ∧ map (λ s, parse_value VIN (PStr s)) ["1HGBH41JXMN109186"; "JH4KA8260MC000000"]
    = [Ok "1HGBH41JXMN109186"; Err GraphQLError]
  ∧ map (λ s, parse_value ContainerNumber (PStr s)) ["CSQU3054383"; "MSKU1234567"; "TCLU1234560"]
    = [Ok "CSQU3054383"; Err GraphQLError; Err GraphQLError].
Proof. by vm_compute. Qed.
