(* ===== verification/ScalarLaws.v ===== *)
(** * Laws of the text scalars

    What a scalar accepts is a canonical form that it keeps; it holds no character
    that would end a quoted text; and a newline may follow it. *)
From stdpp Require Import base decidable strings list.
From Stdlib Require Import ZArith Lia Ascii.
From S2P Require Import Prelude PyVal Regex RegexLaws Scalars Checksums.

Local Open Scope py_scope.

(** ** Characters and texts *)

(** A property of characters, checked on all of them. *)
Definition all_chars : list ascii := map ascii_of_nat (seq 0 256).

Lemma all_chars_spec c : c ∈ all_chars.
Proof.
  apply list_elem_of_In, in_map_iff. exists (nat_of_ascii c). split; [apply ascii_nat_embedding|].
  apply in_seq. split; [lia|]. apply nat_ascii_bounded.
Qed.

Lemma chars_forallb (P : ascii → bool) : forallb P all_chars = true → ∀ c, P c = true.
Proof. intros H c. eapply forallb_forall in H; [exact H|]. apply list_elem_of_In, all_chars_spec. Qed.

Lemma upper_ascii_idem c : Str.upper_ascii (Str.upper_ascii c) = Str.upper_ascii c.
Proof.
  apply Ascii.eqb_eq. revert c. apply (chars_forallb (λ c, Ascii.eqb _ (Str.upper_ascii c))).
  by vm_compute.
Qed.

Lemma lower_ascii_idem c : Str.lower_ascii (Str.lower_ascii c) = Str.lower_ascii c.
Proof.
  apply Ascii.eqb_eq. revert c. apply (chars_forallb (λ c, Ascii.eqb _ (Str.lower_ascii c))).
  by vm_compute.
Qed.

Lemma upper_idem s : Str.upper (Str.upper s) = Str.upper s.
Proof. unfold Str.upper. induction s as [|c s IH]; cbn; [done|]. by rewrite upper_ascii_idem, IH. Qed.

Lemma lower_idem s : Str.lower (Str.lower s) = Str.lower s.
Proof. unfold Str.lower. induction s as [|c s IH]; cbn; [done|]. by rewrite lower_ascii_idem, IH. Qed.

Lemma rstrip_cons c s : ∃ t, Str.rstrip (String c s) = EmptyString ∨ Str.rstrip (String c s) = String c t.
Proof.
  cbn. destruct (Str.rstrip s) as [|a t] eqn:E; [|by exists (String a t); right].
  destruct (Str.is_space c); [exists EmptyString; by left|exists EmptyString; by right].
Qed.

Lemma rstrip_idem s : Str.rstrip (Str.rstrip s) = Str.rstrip s.
Proof.
  induction s as [|c s IH]; [done|]. cbn. destruct (Str.rstrip s) as [|a t] eqn:E.
  - destruct (Str.is_space c) eqn:Ec; cbn; by rewrite ?Ec.
  - cbn [Str.rstrip] in *. by rewrite IH.
Qed.

Lemma strip_idem s : Str.strip (Str.strip s) = Str.strip s.
Proof.
  unfold Str.strip. enough (Str.lstrip (Str.rstrip (Str.lstrip s)) = Str.rstrip (Str.lstrip s)) as ->
    by apply rstrip_idem.
  induction s as [|c s IH]; [done|]. cbn [Str.lstrip]. destruct (Str.is_space c) eqn:E; [done|].
  destruct (rstrip_cons c s) as [t [->| ->]]; [done|]. cbn. by rewrite E.
Qed.

Lemma remove_char_idem c s : Str.remove_char c (Str.remove_char c s) = Str.remove_char c s.
Proof.
  induction s as [|a s IH]; [done|]. cbn [Str.remove_char].
  destruct (Ascii.eqb a c) eqn:E; [done|]. cbn [Str.remove_char]. by rewrite E, IH.
Qed.

Lemma upper_remove_char c s :
  Str.upper_ascii c = c → (∀ a, Str.upper_ascii a = c → a = c) →
  Str.upper (Str.remove_char c s) = Str.remove_char c (Str.upper s).
Proof.
  intros Hc Hinv. unfold Str.upper. induction s as [|a s IH]; [done|]. cbn.
  destruct (Ascii.eqb_spec a c) as [->|Ha].
  - by rewrite Hc, Ascii.eqb_refl.
  - destruct (Ascii.eqb_spec (Str.upper_ascii a) c) as [E|_]; [|cbn; by rewrite IH].
    destruct Ha. by apply Hinv.
Qed.

Lemma text_chars s : text (chars s) = s.
Proof. apply String.string_of_list_ascii_of_string. Qed.

Lemma chars_text l : chars (text l) = l.
Proof. apply String.list_ascii_of_string_of_list_ascii. Qed.

Lemma chars_app s t : chars (s +:+ t)%stdpp = chars s ++ chars t.
Proof. induction s as [|c s IH]; [done|]. change (c :: chars (s +:+ t)%stdpp = c :: chars s ++ chars t). by rewrite IH. Qed.

(** ** Canonical forms *)

(** What a scalar makes of a text matches its pattern, and is kept as it is. *)
Class Canonical (sc : text_scalar) : Prop :=
  canonical : ∀ e e' s t, accept sc e s = Ok t → matches_any sc t = true ∧ accept sc e' t = Ok t.

Class Idempotent (f : string → string) : Prop := idempotent : ∀ s, f (f s) = f s.

#[export] Instance idempotent_id : Idempotent id := λ _, eq_refl.
#[export] Instance idempotent_upper : Idempotent Str.upper := upper_idem.
#[export] Instance idempotent_lower : Idempotent Str.lower := lower_idem.
#[export] Instance idempotent_strip : Idempotent Str.strip := strip_idem.

#[export] Instance idempotent_iban : Idempotent (λ s, Str.remove_char " " (Str.upper s)).
Proof.
  intros s. rewrite upper_remove_char, upper_idem; [apply remove_char_idem|done|].
  intros a H. apply Ascii.eqb_eq.
  assert (implb (Ascii.eqb (Str.upper_ascii a) " ") (Ascii.eqb a " ") = true) as Ha
    by (revert a H; intros a _; revert a; apply chars_forallb; by vm_compute).
  by rewrite H in Ha.
Qed.

Lemma accept_pattern n f r e s t :
  accept (pattern_scalar n f r) e s = Ok t → t = f s ∧ re_match r t = true.
Proof.
  unfold accept, matches_any. cbn. rewrite orb_false_r. destruct (re_match r (f s)) eqn:E; cbn; [|done].
  unfold as_is. by intros [= <-].
Qed.

Lemma accept_checked n f r v e s t :
  accept (checked_scalar n f r v) e s = Ok t → t = f s ∧ re_match r t = true ∧ v t = Ok true.
Proof.
  unfold accept, matches_any, checked. cbn. rewrite orb_false_r. destruct (re_match r (f s)) eqn:E; cbn; [|done].
  intros ([|] & Hv & H)%bind_Ok; [|done]. by injection H as <-.
Qed.

#[export] Instance pattern_canonical n f r `{!Idempotent f} : Canonical (pattern_scalar n f r).
Proof.
  intros e e' s t [-> H]%accept_pattern. unfold accept, matches_any. cbn.
  by rewrite (idempotent (f:=f)), H.
Qed.

#[export] Instance checked_canonical n f r v `{!Idempotent f} : Canonical (checked_scalar n f r v).
Proof.
  intros e e' s t (-> & H & Hv)%accept_checked. unfold accept, matches_any. cbn.
  rewrite (idempotent (f:=f)), H. cbn. unfold checked. by rewrite Hv.
Qed.

(** *** MAC addresses *)

Definition hex_capital : class := Class false [("0", "9"); ("A", "F")]%char.

Lemma hex_spec c : Str.has_char c "0123456789ABCDEF" = in_class hex_capital c.
Proof.
  apply eqb_prop. revert c.
  apply (chars_forallb (λ c, Bool.eqb (Str.has_char c "0123456789ABCDEF") (in_class hex_capital c))).
  by vm_compute.
Qed.

(** The twelve digits of a normal form. *)
Lemma normalize_mac_inv s t :
  normalize_mac_address s = Ok t →
  ∃ l, Forall (λ c, in_class hex_capital c = true) l ∧ length l = 12 ∧ t = Str.join ":" (pairs (text l)).
Proof.
  unfold normalize_mac_address. set (clean := Str.remove_char _ _). cbn zeta.
  destruct (Nat.eqb_spec (String.length clean) 12) as [Hl|]; [|done].
  destruct (Str.forallb _ clean) eqn:E; [|done]. cbn [negb orb]. intros [= <-].
  exists (chars clean). rewrite text_chars. split_and!; [|by rewrite <- Hl, <- (text_chars clean) at 1;
    clear; induction clean; cbn; congruence|done].
  clear Hl. revert E. induction clean as [|c s' IH]; cbn [Str.forallb String.list_ascii_of_string]; [constructor|].
  intros [Hc Hs]%andb_true_iff. apply Forall_cons. split; [by rewrite <- hex_spec|by apply IH].
Qed.

Lemma hex_fixed c : in_class hex_capital c = true → Str.upper_ascii c = c ∧ c ∉ [":"; "-"; "."]%char.
Proof.
  intros H. assert (implb (in_class hex_capital c)
    (Ascii.eqb (Str.upper_ascii c) c && negb (Ascii.eqb c ":" || Ascii.eqb c "-" || Ascii.eqb c "."))%char = true)
    as E by (revert c H; intros c _; revert c; apply chars_forallb; by vm_compute).
  rewrite H in E. cbn in E. apply andb_true_iff in E as [E1%Ascii.eqb_eq E2].
  split; [done|]. rewrite !not_elem_of_cons. apply negb_true_iff in E2.
  apply orb_false_iff in E2 as [[E2%Ascii.eqb_neq E3%Ascii.eqb_neq]%orb_false_iff E4%Ascii.eqb_neq].
  split_and!; [done|done|done|by intros ?%not_elem_of_nil].
Qed.

Lemma hex_any c :
  in_class hex_capital c = true → in_class (Class false [("0", "9"); ("A", "F"); ("a", "f")]%char) c = true.
Proof. unfold in_class. cbn. by intros [->|[->|?]%orb_true_iff]%orb_true_iff; rewrite ?orb_true_r. Qed.

(** The normal form of twelve digits. *)
Definition mac_form (l : list ascii) : list ascii :=
  match l with
  | [a; b; c; d; e; f; g; h; i; j; k; m] =>
      [a; b; ":"; c; d; ":"; e; f; ":"; g; h; ":"; i; j; ":"; k; m]%char
  | _ => []
  end.

Lemma mac_form_match l :
  Forall (λ c, in_class hex_capital c = true) l → length l = 12 →
  Str.join ":" (pairs (text l)) = text (mac_form l)
  ∧ re_match (compile "^([0-9A-Fa-f]{2}:){5}[0-9A-Fa-f]{2}$") (text (mac_form l)) = true
  ∧ normalize_mac_address (text (mac_form l)) = Ok (text (mac_form l)).
Proof.
  intros Hl Hn.
  do 12 (destruct l as [|? l]; [discriminate Hn|]). destruct l; [|discriminate Hn]. clear Hn.
  split; [done|]. rewrite !Forall_cons in Hl. destruct_and! Hl. split.
  - eapply anchored_spec; [by vm_compute|by vm_compute|].
    eexists. split; [|by left]. rewrite chars_text.
    eapply shape_spec; [by vm_compute|]. cbn [mac_form].
    repeat (apply Forall2_cons; split; [first [by apply hex_any|reflexivity]|]). by apply Forall2_nil.
  - repeat match goal with
    | H : in_class hex_capital ?c = true |- _ =>
        let E := fresh "E" in let N := fresh "N" in
        pose proof (hex_fixed _ H) as [E N]; rewrite <- hex_spec in H;
        rewrite !not_elem_of_cons in N; destruct N as (? & ? & ? & _)
    end.
    unfold normalize_mac_address. cbn [mac_form].
    cbn [String.string_of_list_ascii]. unfold Str.upper. cbn [Str.map].
    repeat match goal with E : Str.upper_ascii ?c = ?c |- _ => rewrite E; clear E end.
    change (Str.upper_ascii ":") with ":"%char.
    repeat (cbn [Str.remove_char];
      repeat match goal with
      | |- context [Ascii.eqb ":" ":"] => change (Ascii.eqb ":" ":") with true; cbn iota
      | |- context [Ascii.eqb ?c ?k] => rewrite (proj2 (Ascii.eqb_neq c k)) by congruence; cbn iota
      end).
    cbn [String.length Nat.eqb negb orb Str.forallb].
    repeat match goal with H : Str.has_char ?c _ = true |- _ => rewrite H; clear H end.
    reflexivity.
Qed.

#[export] Instance mac_canonical : Canonical MacAddress.
Proof.
  intros e e' s t. unfold accept. cbn [MacAddress normalise finish]. unfold id. destruct (matches_any _ _); cbn [negb]; [|done].
  destruct (normalize_mac_address s) as [m|] eqn:E; [|done]. intros [= <-].
  apply normalize_mac_inv in E as (l & Hl & Hn & ->).
  destruct (mac_form_match l Hl Hn) as (-> & Hm & Hf).
  assert (matches_any MacAddress (text (mac_form l)) = true) as ->.
  { apply existsb_exists. eexists. split; [left; reflexivity|exact Hm]. }
  cbn [negb]. by rewrite Hf.
Qed.

(** ** Every scalar *)

(** One instance for each scalar of a list. *)
Ltac each_canonical :=
  repeat (apply Forall_cons; split;
    [first [apply mac_canonical | apply pattern_canonical; apply _ | apply checked_canonical; apply _]|]);
  apply Forall_nil; exact I.

Definition checked_scalars : list text_scalar := [ISIN; IBAN; VIN; ContainerNumber; MacAddress].

Definition text_scalars : list text_scalar := checked_scalars ++ pattern_scalars.

Lemma text_scalars_canonical : Forall Canonical text_scalars.
Proof. unfold text_scalars, checked_scalars, pattern_scalars. cbn [app]. each_canonical. Qed.

(** ** The texts of a pattern *)

(** Characters that end no quoted text, tag or statement. *)
Definition harmless (c : ascii) : bool :=
  (32 <=? Str.code c)%Z && (Str.code c <=? 126)%Z
  && negb (existsb (Ascii.eqb c) (Py.dquote :: ["'"; "\"; "`"; ";"; "<"; ">"; "("; ")"; "%"; "="; ","; "*"]%char)).

(** A scalar's patterns take harmless characters only, [lo] of them at least and [hi]
    at most. *)
Definition takes (lo : nat) (hi : option nat) (r : re) : bool :=
  match body r with
  | Some r' =>
      forallb (λ c, implb (may_take r' c) (harmless c)) all_chars
      && Nat.leb lo (at_least r')
      && match hi, at_most r' with Some n, Some m => Nat.leb m n | None, _ => true | _, _ => false end
  | None => false
  end.

(** [t] is [w], or [w] and a newline. *)
Definition up_to_newline (t : string) (w : list ascii) : Prop := chars t = w ∨ chars t = w ++ [newline].

Lemma takes_spec lo hi r t :
  takes lo hi r = true → re_match r t = true →
  ∃ w, up_to_newline t w ∧ Forall (λ c, harmless c = true) w ∧ lo ≤ length w
    ∧ (∀ n, hi = Some n → length w ≤ n).
Proof.
  unfold takes. destruct (body r) as [r'|] eqn:E; [|done].
  intros [[Hc Hlo%Nat.leb_le]%andb_true_iff Hhi]%andb_true_iff (q & Hq)%re_match_spec.
  apply (body_spec _ r') in Hq as [Hq Hend]; [|done].
  destruct (matches_moved _ _ _ Hq) as (w & [M _] & Hw & Hl & Hu). cbn in M.
  exists w. split_and!.
  - unfold up_to_newline. destruct Hend as [Hend|Hend]; rewrite Hend in M; [left|by right].
    by rewrite M, app_nil_r.
  - eapply Forall_impl; [exact Hw|]. intros c Hm. pose proof (chars_forallb _ Hc c) as H. cbn in H.
    by rewrite Hm in H.
  - lia.
  - intros n ->. destruct (at_most r') as [m|]; [|done]. apply Nat.leb_le in Hhi.
    specialize (Hu _ eq_refl). lia.
Qed.

(** The documented lengths of the scalars whose alphabet is restricted. *)
Definition documented_lengths : list (text_scalar * (nat * option nat)) :=
  [(AirportCode, (3, Some 3)); (CurrencyCode, (3, Some 3)); (CUSIP, (9, Some 9));
   (ExchangeCode, (2, Some 6)); (FlightNumber, (3, Some 7)); (LEI, (20, Some 20)); (MIC, (4, Some 4));
   (PortCode, (5, Some 5)); (SEDOL, (7, Some 7)); (StockSymbol, (1, Some 7)); (LanguageCode, (2, Some 2));
   (DomainName, (4, None)); (Hostname, (1, None)); (ApiKey, (16, Some 128)); (Color, (4, Some 7));
   (Duration, (1, None)); (HashSHA256, (64, Some 64)); (Latitude, (1, Some 12)); (Longitude, (1, Some 13));
   (LicensePlate, (2, Some 12)); (LocaleCode, (2, Some 5)); (MimeType, (5, None));
   (PhoneNumber, (8, Some 16)); (SemanticVersion, (5, None)); (Slug, (1, None)); (Time, (5, Some 8));
   (Timezone, (5, None)); (TrackingNumber, (8, Some 30)); (PostalCode, (3, Some 10));
   (ISIN, (12, Some 12)); (IBAN, (15, Some 34)); (VIN, (17, Some 17)); (ContainerNumber, (11, Some 11));
   (MacAddress, (12, Some 17))].

Lemma documented_lengths_ok :
  forallb (λ x, forallb (takes x.2.1 x.2.2) (patterns x.1)) documented_lengths = true.
Proof. by vm_compute. Qed.

Lemma documented_lengths_canonical : Forall (λ x, Canonical x.1) documented_lengths.
Proof. unfold documented_lengths. each_canonical. Qed.

(** ** A newline at the end *)

Definition with_newline (s : string) : string := (s +:+ String newline EmptyString)%stdpp.

Definition ends_newline (s : string) : Prop := last (chars s) = Some newline.

(** A scalar that takes a newline after what it takes. *)
Class OpenEnded (sc : text_scalar) : Prop :=
  open_ended : ∀ e s t, accept sc e s = Ok t → ¬ ends_newline t →
    accept sc e (with_newline s) = Ok (with_newline t).

Lemma chars_with_newline s : chars (with_newline s) = chars s ++ [newline].
Proof. unfold with_newline. by rewrite chars_app. Qed.

Lemma pattern_open_ended n f r r' :
  (∀ s, f (with_newline s) = with_newline (f s)) → body r = Some r' → plain r' = true →
  OpenEnded (pattern_scalar n f r).
Proof.
  intros Hf Hb Hp e s t [-> H]%accept_pattern Hn. unfold accept, matches_any. cbn. rewrite Hf.
  enough (re_match r (with_newline (f s)) = true) as -> by done.
  apply (anchored_spec r r') in H as (w & Hw & [E|E]); [| |done|done].
  - apply (anchored_spec r r'); [done|done|]. exists w. split; [done|]. right. by rewrite chars_with_newline, E.
  - destruct Hn. unfold ends_newline. by rewrite E, last_snoc.
Qed.

Lemma map_with_newline g s :
  g newline = newline → Str.map g (with_newline s) = with_newline (Str.map g s).
Proof.
  intros Hg. unfold with_newline. induction s as [|c s IH].
  { change (String (g newline) EmptyString = String newline EmptyString). by rewrite Hg. }
  change (String (g c) (Str.map g (s +:+ String newline "")%stdpp)
    = String (g c) (Str.map g s +:+ String newline "")%stdpp). by rewrite IH.
Qed.

(** Every pattern scalar but those that strip the text or look around in it. *)
Definition newline_scalars : list text_scalar :=
  [AirportCode; CurrencyCode; CUSIP; ExchangeCode; FlightNumber; LEI; MIC; PortCode; SEDOL; StockSymbol;
   LanguageCode; ApiKey; Color; HashSHA256; Latitude; Longitude; LicensePlate; LocaleCode; MimeType;
   PhoneNumber; SemanticVersion; Slug; Time; Timezone; TrackingNumber; File_; Image].

Lemma newline_scalars_open_ended : Forall OpenEnded newline_scalars.
Proof.
  unfold newline_scalars.
  repeat (apply Forall_cons; split;
    [eapply pattern_open_ended; [|vm_compute; reflexivity|vm_compute; reflexivity];
     intros s; unfold Str.upper, Str.lower; first [by apply map_with_newline|done]|]).
  by apply Forall_nil.
Qed.

(** ** Properties *)

(** A text scalar keeps what it makes: the text that [parse_value],
    [parse_literal] or the field's constructor gives is accepted again by each of them
    and by [serialize], and stays the same; what [serialize] writes is read back. *)
Theorem scalars_roundtrip sc v t :
  sc ∈ text_scalars →
  parse_value sc v = Ok t ∨ serialize sc v = Ok (PStr t) →
  parse_value sc (PStr t) = Ok t ∧ parse_literal sc (StringValueNode t) = Ok t
  ∧ field_new sc t = Ok t ∧ serialize sc (PStr t) = Ok (PStr t).
Proof.
  intros Hsc H. pose proof text_scalars_canonical as Hall. eapply Forall_forall in Hall; [|exact Hsc].
  assert (∃ s, accept sc GraphQLError s = Ok t) as (s & Hs).
  { destruct H as [H|H].
    - destruct v; try discriminate H. by eexists.
    - destruct v; try discriminate H; cbn [serialize] in H; apply fmap_Ok in H as (t' & Ht & [= <-]);
        by eexists. }
  unfold field_new, serialize, parse_literal, parse_value. cbn [Py.str].
  destruct (Hall _ GraphQLError _ _ Hs) as [_ E]. destruct (Hall _ ValueError _ _ Hs) as [_ E'].
  by rewrite E, E'.
Qed.

Lemma scalars_roundtrip_witness :
  parse_value MacAddress (PStr "00-1a-2b-3c-4d-5e") = Ok "00:1A:2B:3C:4D:5E"
  ∧ parse_value MacAddress (PStr "00:1A:2B:3C:4D:5E") = Ok "00:1A:2B:3C:4D:5E"
  ∧ serialize MacAddress (PStr "00:1A:2B:3C:4D:5E") = Ok (PStr "00:1A:2B:3C:4D:5E").
Proof.
  assert (parse_value MacAddress (PStr "00-1a-2b-3c-4d-5e") = Ok "00:1A:2B:3C:4D:5E") as H
    by (vm_compute; reflexivity).
  split; [exact H|].
  destruct (scalars_roundtrip MacAddress (PStr "00-1a-2b-3c-4d-5e") "00:1A:2B:3C:4D:5E") as (H1 & _ & _ & H2);
    [|left; exact H|split; assumption].
  unfold text_scalars, checked_scalars. right; right; right; right; left.
Defined.

(** What these scalars accept can be quoted: it is, up to one newline at the end,
    of harmless characters only (no quote, backslash, bracket of a tag, semicolon or
    control character), and as long as its module documents. *)
Theorem accepted_texts_are_harmless sc lo hi e s t :
  (sc, (lo, hi)) ∈ documented_lengths → accept sc e s = Ok t →
  ∃ w, up_to_newline t w ∧ Forall (λ c, harmless c = true) w ∧ lo ≤ length w
    ∧ (∀ n, hi = Some n → length w ≤ n).
Proof.
  intros Hsc Ht. pose proof documented_lengths_canonical as Hall.
  eapply Forall_forall in Hall; [|exact Hsc]. destruct (Hall _ e _ _ Ht) as [Hm _]. cbn in Hm.
  apply existsb_exists in Hm as (r & Hr & Hm). eapply takes_spec; [|exact Hm].
  pose proof documented_lengths_ok as Hok. eapply forallb_forall in Hok; [|by apply list_elem_of_In].
  by eapply forallb_forall in Hok.
Qed.

Lemma accepted_texts_are_harmless_witness :
  accept Slug ValueError "my-post-123" = Ok "my-post-123"
  ∧ ∃ w, up_to_newline "my-post-123" w ∧ Forall (λ c, harmless c = true) w ∧ 1 ≤ length w
    ∧ (∀ n, @None nat = Some n → length w ≤ n).
Proof.
  assert (accept Slug ValueError "my-post-123" = Ok "my-post-123") as H by (vm_compute; reflexivity).
  split; [exact H|]. eapply accepted_texts_are_harmless; [|exact H].
  unfold documented_lengths. do 24 right. left.
Defined.

(** The dollar of these patterns lets a newline through: a scalar that accepts a
    text also accepts it with a newline after it, and keeps the newline, whatever its
    documented length or alphabet. *)
Theorem trailing_newline_is_accepted sc e s t :
  sc ∈ newline_scalars → accept sc e s = Ok t → ¬ ends_newline t →
  accept sc e (with_newline s) = Ok (with_newline t).
Proof.
  intros Hsc. pose proof newline_scalars_open_ended as Hall. eapply Forall_forall in Hall; [|exact Hsc].
  apply Hall.
Qed.

Lemma trailing_newline_is_accepted_witness :
  accept CurrencyCode GraphQLError "usd" = Ok "USD"
  ∧ accept CurrencyCode GraphQLError (with_newline "usd") = Ok (with_newline "USD").
Proof.
  assert (accept CurrencyCode GraphQLError "usd" = Ok "USD") as H by (vm_compute; reflexivity).
  split; [exact H|]. apply trailing_newline_is_accepted; [unfold newline_scalars; right; left|exact H|].
  unfold ends_newline. vm_compute. discriminate.
Defined.

(** An ISIN with a newline raises the [ValueError] of [int], not the scalar's own error;
    the other check digits refuse it. *)
Example newline_after_check_digits :
  parse_value ISIN (PStr (with_newline "US0378331005")) = Err ValueError
  ∧ parse_value IBAN (PStr (with_newline "DE89370400440532013000")) = Err GraphQLError
  ∧ parse_value VIN (PStr (with_newline "1HGBH41JXMN109186")) = Err GraphQLError
  ∧ parse_value ContainerNumber (PStr (with_newline "CSQU3054383")) = Err GraphQLError.
Proof. by vm_compute. Qed.

(** A duration may have no part at all, and a time zone no zone. *)
Example empty_durations :
  parse_value Duration (PStr "P") = Ok "P" ∧ parse_value Duration (PStr "PT") = Ok "PT"
  ∧ parse_value Timezone (PStr "UTC") = Err GraphQLError
  ∧ parse_value Timezone (PStr "America/Port-au-Prince") = Err GraphQLError.
Proof. by vm_compute. Qed.
