(* ===== verification/ChecksumLaws.v ===== *)
(** * What the check digits catch

    A code that was accepted is no longer accepted when one of its characters is
    replaced, or two neighbours are exchanged, up to the confusions the algorithms
    are known to leave. *)
From stdpp Require Import base decidable strings list.
From Stdlib Require Import ZArith Lia Ascii.
From S2P Require Import Prelude PyVal Regex RegexLaws Scalars Checksums ScalarLaws.

Local Open Scope py_scope.
Local Open Scope Z_scope.

(** A capital or a digit. *)
Definition code_char (c : ascii) : bool := Str.is_digit c || Str.is_upper c.

Lemma digit_range c : Str.is_digit c = true → 0 <= Str.digit c <= 9.
Proof. unfold Str.is_digit, Str.digit. rewrite andb_true_iff, !Z.leb_le. lia. Qed.

Lemma letter_range c : Str.is_upper c = true → 10 <= letter c <= 35.
Proof. unfold Str.is_upper, letter. rewrite andb_true_iff, !Z.leb_le. lia. Qed.

Lemma code_inj c d : Str.code c = Str.code d → c = d.
Proof.
  unfold Str.code. intros H%N2Z.inj. rewrite <- (ascii_N_embedding c), <- (ascii_N_embedding d).
  by rewrite H.
Qed.

(** ** Numbers from digits *)

Definition num (ds : list Z) : Z := foldl (λ a d, a * 10 + d) 0 ds.

Definition is_figure (d : Z) : Prop := 0 <= d <= 9.

Lemma foldl_num ds acc : foldl (λ a d, a * 10 + d) acc ds = acc * 10 ^ Z.of_nat (length ds) + num ds.
Proof.
  unfold num. revert acc. induction ds as [|d ds IH]; intros acc; cbn [foldl length]; [cbn; lia|].
  rewrite (IH (acc * 10 + d)), (IH (0 * 10 + d)), Nat2Z.inj_succ, Z.pow_succ_r by lia. lia.
Qed.

Lemma num_app ds es : num (ds ++ es) = num ds * 10 ^ Z.of_nat (length es) + num es.
Proof. unfold num at 1. by rewrite foldl_app, foldl_num. Qed.

Lemma isin_digits_app l k : isin_digits (l ++ k) = isin_digits l ++ isin_digits k.
Proof. apply flat_map_app. Qed.

Lemma isin_digits_digit c : Str.is_digit c = true → isin_digits [c] = [Str.digit c].
Proof. intros H. unfold isin_digits. cbn. by rewrite H. Qed.

(** The characters as a number, letters as two figures. *)
Definition code_number (l : list ascii) : Z := num (isin_digits l).

(** The figures of one character. *)
Definition worth (c : ascii) : Z := if Str.is_digit c then Str.digit c else letter c.

Lemma worth_spec c : code_char c = true →
  num (isin_digits [c]) = worth c ∧ 0 <= worth c <= 35
  ∧ length (isin_digits [c]) = (if Str.is_digit c then 1%nat else 2%nat).
Proof.
  unfold code_char, worth, isin_digits, num. cbn. destruct (Str.is_digit c) eqn:E; cbn.
  - intros _. pose proof (digit_range c E). split_and!; lia.
  - intros H%letter_range. pose proof (Z.div_mod (letter c) 10). split_and!; lia.
Qed.

Lemma worth_inj c d :
  code_char c = true → code_char d = true → Str.is_digit c = Str.is_digit d → worth c = worth d → c = d.
Proof.
  unfold code_char, worth, letter, Str.digit. intros Hc Hd E. rewrite E in *. intros H. apply code_inj.
  destruct (Str.is_digit d); lia.
Qed.

(** *** Reading the number back *)

Fixpoint all_figures (s : string) : bool :=
  match s with String c s' => Str.is_digit c && all_figures s' | EmptyString => true end.

Lemma all_figures_app s t : all_figures (s +:+ t)%stdpp = all_figures s && all_figures t.
Proof.
  induction s as [|c s IH]; [done|].
  change (Str.is_digit c && all_figures (s +:+ t)%stdpp = (Str.is_digit c && all_figures s) && all_figures t).
  by rewrite IH, andb_assoc.
Qed.

Lemma digits_figures s acc n :
  all_figures s = true →
  Num.digits acc n s
  = (foldl (λ a d, a * 10 + d) acc (map Str.digit (chars s)), (n + String.length s)%nat, EmptyString).
Proof.
  revert acc n. induction s as [|c s IH]; intros acc n; cbn [all_figures Num.digits].
  - intros _. cbn. by rewrite Nat.add_0_r.
  - intros [Hc Hs]%andb_true_iff. rewrite Hc, IH by done. cbn. by rewrite Nat.add_succ_r.
Qed.

Lemma figure_not_space c : Str.is_digit c = true → Str.is_space c = false.
Proof.
  unfold Str.is_digit, Str.is_space. rewrite andb_true_iff, !Z.leb_le. intros H.
  rewrite !orb_false_iff, !andb_false_iff, Z.eqb_neq, !Z.leb_gt. lia.
Qed.

Lemma rstrip_figures s : all_figures s = true → Str.rstrip s = s.
Proof.
  induction s as [|c s IH]; [done|]. cbn. intros [Hc Hs]%andb_true_iff. rewrite IH by done.
  destruct s; [by rewrite figure_not_space|done].
Qed.

Lemma strip_figures s : all_figures s = true → Str.strip s = s.
Proof.
  intros H. unfold Str.strip. rewrite <- (rstrip_figures s H) at 2. f_equal.
  destruct s as [|c s]; [done|]. cbn in *. apply andb_true_iff in H as [Hc _]. by rewrite figure_not_space.
Qed.

Lemma sign_figures s : all_figures s = true → Num.sign s = (false, s).
Proof.
  destruct s as [|c s]; [done|]. cbn. intros [Hc _]%andb_true_iff.
  unfold Num.sign. destruct (Ascii.eqb_spec c "-") as [->|H1]; [done|].
  destruct (Ascii.eqb_spec c "+") as [->|H2]; [done|].
  destruct c as [[] [] [] [] [] [] [] []]; try done; congruence.
Qed.

Lemma int_of_figures s :
  all_figures s = true → s ≠ EmptyString →
  Num.int_of_string s = Ok (num (map Str.digit (chars s))).
Proof.
  intros H Hs. unfold Num.int_of_string. rewrite strip_figures, sign_figures by done.
  rewrite digits_figures by done. by destruct s.
Qed.

Lemma letter_figures c :
  Str.is_upper c = true →
  let s := Num.string_of_Z (letter (Str.upper_ascii c)) in
  all_figures s = true ∧ map Str.digit (chars s) = [letter c / 10; letter c mod 10].
Proof.
  intros H. cbn zeta.
  assert (implb (Str.is_upper c)
    (let s := Num.string_of_Z (letter (Str.upper_ascii c)) in
     all_figures s && bool_decide (map Str.digit (chars s) = [letter c / 10; letter c mod 10])) = true) as E
    by (revert c H; intros c _; revert c; apply chars_forallb; by vm_compute).
  rewrite H in E. cbn [implb] in E. apply andb_true_iff in E as [E1 E2%bool_decide_eq_true]. done.
Qed.

Lemma numeric_string_spec l :
  Forall (λ c, code_char c = true) l →
  all_figures (numeric_string l) = true ∧ map Str.digit (chars (numeric_string l)) = isin_digits l.
Proof.
  induction 1 as [|c l Hc _ [IH1 IH2]]; [done|].
  change (numeric_string (c :: l)) with
    ((if Str.is_digit c then String c EmptyString
      else Num.string_of_Z (letter (Str.upper_ascii c))) +:+ numeric_string l)%stdpp.
  rewrite all_figures_app, chars_app, map_app, IH1, IH2.
  change (isin_digits (c :: l)) with
    ((if Str.is_digit c then [Str.digit c] else [letter c / 10; letter c mod 10]) ++ isin_digits l).
  unfold code_char in Hc. destruct (Str.is_digit c) eqn:E; cbn [orb] in Hc.
  - cbn [all_figures]. rewrite E. done.
  - destruct (letter_figures c Hc) as [H1 H2]. by rewrite H1, H2.
Qed.

(** ** IBAN *)

Definition rearranged (l : list ascii) : list ascii := drop 4 l ++ take 4 l.

Lemma iban_valid_spec s :
  Forall (λ c, code_char c = true) (chars s) → chars s ≠ [] →
  _validate_iban_check_digits s = (code_number (rearranged (chars s)) mod 97 =? 1).
Proof.
  intros H Hs. unfold _validate_iban_check_digits. fold (rearranged (chars s)).
  assert (Forall (λ c, code_char c = true) (rearranged (chars s))) as Hr
    by (unfold rearranged; apply Forall_app; split; [by apply Forall_drop|by apply Forall_take]).
  destruct (numeric_string_spec _ Hr) as [H1 H2]. rewrite int_of_figures; [by rewrite H2|done|].
  intros E. rewrite E in H2. cbn in H2. symmetry in H2.
  assert (rearranged (chars s) ≠ []) as Hne.
  { unfold rearranged. destruct (chars s); [done|]. cbn. intros [_ ?]%app_eq_nil. done. }
  destruct (rearranged (chars s)) as [|c l]; [done|]. unfold isin_digits in H2. cbn in H2.
  by destruct (Str.is_digit c).
Qed.

(** Ten is invertible modulo 97. *)
Lemma ninety_seven x k : 0 <= k → (x * 10 ^ k) mod 97 = 0 → x mod 97 = 0.
Proof.
  intros Hk. revert k Hk x. apply (natlike_ind (λ k, ∀ x, (x * 10 ^ k) mod 97 = 0 → x mod 97 = 0)).
  - intros x. by rewrite Z.pow_0_r, Z.mul_1_r.
  - intros k Hk IH x. rewrite Z.pow_succ_r by done. intros H. apply IH.
    replace (x * (10 * 10 ^ k)) with (10 * (x * 10 ^ k)) in H by lia.
    set (y := x * 10 ^ k) in *. Z.div_mod_to_equations. lia.
Qed.

(** Figures that differ in one stretch of the same length. *)
Lemma iban_stretch a b ds es :
  length ds = length es → num (a ++ ds ++ b) mod 97 = num (a ++ es ++ b) mod 97 →
  (num ds - num es) mod 97 = 0.
Proof.
  intros Hl H. apply (ninety_seven _ (Z.of_nat (length b))); [lia|].
  rewrite !num_app, !length_app, Hl in H.
  set (p := 10 ^ Z.of_nat (length b)) in *. set (q := num a * _) in *.
  replace ((num ds - num es) * p) with ((q + (num ds * p + num b)) - (q + (num es * p + num b))) by lia.
  by rewrite Zminus_mod, H, Z.sub_diag.
Qed.

(** A place of the code is a place of the rearranged code, and two neighbours stay
    together unless they are the fourth and the fifth. *)
Lemma rearranged_place (a m b : list ascii) :
  (length a + length m <= 4)%nat ∨ (4 <= length a)%nat →
  ∃ a' b', ∀ m', length m' = length m → rearranged (a ++ m' ++ b) = a' ++ m' ++ b'.
Proof.
  unfold rearranged. intros [H|H].
  - exists (drop (4 - length a - length m) b ++ a), (take (4 - length a - length m) b).
    intros m' Hm. rewrite !drop_app, !take_app, Hm. rewrite (drop_ge a), (take_ge a) by lia.
    rewrite (drop_ge m'), (take_ge m') by lia. cbn. by rewrite <- app_assoc.
  - exists (drop 4 a), (b ++ take 4 a). intros m' Hm.
    rewrite drop_app_le, take_app_le by lia. by rewrite <- !app_assoc.
Qed.

(** *** A newline in the middle is no number *)

Lemma digits_only acc n s z k c :
  Num.digits acc n s = (z, k, EmptyString) → c ∈ chars s → Str.is_digit c = true ∨ c = "_"%char.
Proof.
  revert acc n. induction s as [|a s IH]; intros acc n; cbn [Num.digits chars].
  - by intros _ ?%not_elem_of_nil.
  - destruct (Str.is_digit a) eqn:E.
    + intros H [->|Hc]%elem_of_cons; [by left|by eapply IH].
    + destruct n as [|n]; [by intros [= _ _ ?]|].
      destruct (Ascii.eqb_spec a "_") as [->|Ha].
      * destruct s as [|b s]; [by intros [= _ _ ?]|]. destruct (Str.is_digit b) eqn:Eb; [|by intros [= _ _ ?]].
        intros H [->|Hc]%elem_of_cons; [by right|by eapply IH].
      * intros H. exfalso. assert (∃ r, (acc, S n, String a r) = (z, k, EmptyString)) as [r Hr]; [|done].
        destruct a as [[] [] [] [] [] [] [] []]; try (by exists s); congruence.
Qed.

Lemma rstrip_elem c s : c ∈ chars s → Str.is_space c = false → c ∈ chars (Str.rstrip s).
Proof.
  intros Hc Hs. induction s as [|a s IH]; [done|]. cbn in Hc. cbn [Str.rstrip].
  apply elem_of_cons in Hc as [<-|Hc].
  - destruct (Str.rstrip s); [rewrite Hs; by left|by left].
  - specialize (IH Hc). destruct (Str.rstrip s); [by apply not_elem_of_nil in IH|by right].
Qed.

Lemma no_int_inside c s d :
  Str.is_digit c = true → d ∈ chars s → Str.is_space d = false → Str.is_digit d = false → d ≠ "_"%char →
  Num.int_of_string (String c s) = Err ValueError.
Proof.
  intros Hc Hd Hsp Hdig Hu. unfold Num.int_of_string, Str.strip. cbn [Str.lstrip].
  rewrite figure_not_space by done.
  assert (∃ t, Str.rstrip (String c s) = String c t ∧ d ∈ chars t) as (t & -> & Ht).
  { cbn [Str.rstrip]. pose proof (rstrip_elem d s Hd Hsp) as H. destruct (Str.rstrip s) as [|a t].
    - by apply not_elem_of_nil in H.
    - by exists (String a t). }
  assert (Num.sign (String c t) = (false, String c t)) as ->.
  { unfold Num.sign. destruct (Ascii.eqb_spec c "-") as [->|H1]; [done|].
    destruct (Ascii.eqb_spec c "+") as [->|H2]; [done|].
    destruct c as [[] [] [] [] [] [] [] []]; try done; congruence. }
  destruct (Num.digits 0 0 (String c t)) as [[z k] r] eqn:E. destruct k; [done|]. destruct r; [|done].
  exfalso. destruct (digits_only _ _ _ _ _ d E) as [?|?]; [by right|congruence|done].
Qed.

(** *** Accepted codes *)

(** The characters of a pattern of capitals and digits. *)
Lemma code_match r r' lo s :
  body r = Some r' → forallb (λ c, implb (may_take r' c) (code_char c)) all_chars = true →
  at_least r' = lo → re_match r s = true →
  ∃ w, up_to_newline s w ∧ Forall (λ c, code_char c = true) w ∧ (lo <= length w)%nat.
Proof.
  intros Hb Hc Hl (q & Hq)%re_match_spec. apply (body_spec _ r') in Hq as [Hq Hend]; [|done].
  destruct (matches_moved _ _ _ Hq) as (w & [M _] & Hw & Hlo & _). cbn in M.
  exists w. split_and!; [|eapply Forall_impl; [exact Hw|]|lia].
  - unfold up_to_newline. destruct Hend as [Hend|Hend]; rewrite Hend in M; [left|by right].
    by rewrite M, app_nil_r.
  - intros c Hm. pose proof (chars_forallb _ Hc c) as H. cbn in H. by rewrite Hm in H.
Qed.

Lemma iban_newline s w :
  chars s = w ++ [newline] → Forall (λ c, code_char c = true) w → (5 <= length w)%nat →
  _validate_iban_check_digits s = false.
Proof.
  intros E Hw Hl. unfold _validate_iban_check_digits. rewrite E.
  destruct w as [|w0 [|w1 [|w2 [|w3 [|w4 w]]]]]; cbn in Hl; try lia. cbn [drop take app].
  rewrite <- app_assoc.
  set (rest := w ++ [newline] ++ [w0; w1; w2; w3]).
  assert (∃ c s', numeric_string (w4 :: rest) = String c (s' +:+ numeric_string rest)%stdpp
    ∧ Str.is_digit c = true) as (c & s' & -> & Hc).
  { rewrite !Forall_cons in Hw. destruct Hw as (_ & _ & _ & _ & H4 & _). unfold code_char in H4.
    change (numeric_string (w4 :: rest)) with
      ((if Str.is_digit w4 then String w4 EmptyString
        else Num.string_of_Z (letter (Str.upper_ascii w4))) +:+ numeric_string rest)%stdpp.
    destruct (Str.is_digit w4) eqn:Ed; [by exists w4, EmptyString|]. cbn [orb] in H4.
    destruct (letter_figures w4 H4) as [H1 H2].
    destruct (Num.string_of_Z _) as [|c s']; [done|]. exists c, s'. split; [done|].
    cbn in H1. by apply andb_true_iff in H1 as [? _]. }
  rewrite (no_int_inside c _ "-"%char); [done|done| |done|done|done].
  rewrite chars_app. apply elem_of_app. right. unfold rest.
  enough (∀ l k, "-"%char ∈ chars (numeric_string (l ++ newline :: k))) as H by apply H.
  clear. intros l k. induction l as [|a l IH].
  - cbn [app]. change (numeric_string (newline :: k)) with ("-45" +:+ numeric_string k)%stdpp.
    rewrite chars_app. left.
  - change (numeric_string ((a :: l) ++ newline :: k)) with
      ((if Str.is_digit a then String a EmptyString
        else Num.string_of_Z (letter (Str.upper_ascii a))) +:+ numeric_string (l ++ newline :: k))%stdpp.
    rewrite chars_app. apply elem_of_app. by right.
Qed.

(** What an accepted code is made of. *)
Lemma iban_accepted e s t :
  accept IBAN e s = Ok t →
  Forall (λ c, code_char c = true) (chars t) ∧ code_number (rearranged (chars t)) mod 97 = 1.
Proof.
  intros (_ & Hm & Hv)%accept_checked. injection Hv as Hv. apply andb_true_iff in Hv as [_ Hv].
  eapply (code_match _ _ 15) in Hm as (w & [Hw|Hw] & Hc & Hl);
    [| |vm_compute; reflexivity|by vm_compute|by vm_compute].
  - rewrite Hw. split; [done|]. rewrite iban_valid_spec in Hv; rewrite Hw in *;
      [by apply Z.eqb_eq|done|intros ->; cbn in Hl; lia].
  - rewrite (iban_newline t w) in Hv; [done|done|done|lia].
Qed.

(** Two accepted codes that differ in one stretch of as many figures. *)
Lemma iban_accepted_both e s e' s' a m m' b :
  accept IBAN e s = Ok (text (a ++ m ++ b)) → accept IBAN e' s' = Ok (text (a ++ m' ++ b)) →
  length m = length m' → length (isin_digits m) = length (isin_digits m') →
  (length a + length m <= 4)%nat ∨ (4 <= length a)%nat →
  (code_number m - code_number m') mod 97 = 0.
Proof.
  intros [_ H1]%iban_accepted [_ H2]%iban_accepted Hl Hd Hp. rewrite chars_text in H1, H2.
  destruct (rearranged_place a m b Hp) as (a' & b' & E). rewrite E in H1, H2 by done.
  unfold code_number in *. rewrite !isin_digits_app in H1, H2.
  apply (iban_stretch (isin_digits a') (isin_digits b')); [done|]. congruence.
Qed.

(** ** ISIN *)

Lemma luhn_app p ds es :
  luhn p (ds ++ es) = luhn p ds + luhn (if Nat.even (length ds) then p else negb p) es.
Proof.
  revert p. induction ds as [|d ds IH]; intros p; [done|].
  change (luhn p ((d :: ds) ++ es)) with
    ((if p then if d * 2 <? 10 then d * 2 else d * 2 - 9 else d) + luhn (negb p) (ds ++ es)).
  change (luhn p (d :: ds)) with
    ((if p then if d * 2 <? 10 then d * 2 else d * 2 - 9 else d) + luhn (negb p) ds).
  rewrite IH. cbn [length]. rewrite Nat.even_succ, <- Nat.negb_even.
  destruct (Nat.even (length ds)); cbn [negb]; rewrite ?negb_involutive; lia.
Qed.

(** The figures of a stretch count for themselves. *)
Lemma luhn_stretch (a m b : list Z) p :
  ∃ k q, ∀ m', length m' = length m → luhn p (a ++ m' ++ b) = k + luhn q m'.
Proof.
  set (q := if Nat.even (length a) then p else negb p).
  exists (luhn p a + luhn (if Nat.even (length m) then q else negb q) b), q.
  intros m' Hm. rewrite !luhn_app. fold q. rewrite Hm. lia.
Qed.

Lemma isin_last c :
  code_char c = true →
  Num.int_of_string (String c EmptyString) = (if Str.is_digit c then Ok (Str.digit c) else Err ValueError).
Proof.
  intros H.
  set (same (x y : result Z) := match x, y with
                                | Ok a, Ok b => a =? b
                                | Err ValueError, Err ValueError => true
                                | _, _ => false
                                end).
  assert (implb (code_char c) (same (Num.int_of_string (String c EmptyString))
    (if Str.is_digit c then Ok (Str.digit c) else Err ValueError)) = true) as E
    by (revert c H; intros c _; revert c; apply chars_forallb; by vm_compute).
  rewrite H in E. cbn [implb] in E. unfold same in E.
  destruct (Num.int_of_string _) as [x|[]], (Str.is_digit c); try done. apply Z.eqb_eq in E. by subst.
Qed.

Lemma isin_accepted e s t :
  accept ISIN e s = Ok t →
  ∃ init c, chars t = init ++ [c] ∧ Forall (λ c, code_char c = true) init ∧ Str.is_digit c = true
    ∧ isin_check_digit init = Str.digit c.
Proof.
  intros (_ & Hm & Hv)%accept_checked.
  eapply (code_match _ _ 12) in Hm as (w & Hw & Hc & Hl);
    [|vm_compute; reflexivity|by vm_compute|by vm_compute].
  unfold _validate_isin_check_digit in Hv. destruct Hw as [Hw|Hw]; rewrite Hw in Hv |- *.
  - destruct w as [|c init _] using rev_ind; [cbn in Hl; lia|]. rewrite reverse_snoc in Hv.
    apply Forall_app in Hc as [Hi [Hc _]%Forall_cons]. rewrite (isin_last c Hc) in Hv.
    destruct (Str.is_digit c) eqn:E; [|discriminate Hv]. rewrite reverse_involutive in Hv.
    injection Hv as Hv%Z.eqb_eq. by exists init, c.
  - rewrite reverse_snoc in Hv. discriminate Hv.
Qed.

Lemma check_digit_luhn l k :
  isin_check_digit l = isin_check_digit k →
  luhn true (reverse (isin_digits l)) mod 10 = luhn true (reverse (isin_digits k)) mod 10.
Proof. unfold isin_check_digit. Z.div_mod_to_equations. lia. Qed.

(** Two accepted codes that differ in one stretch before the check digit. *)
Lemma isin_accepted_both e s e' s' a m m' b z :
  accept ISIN e s = Ok (text (a ++ m ++ b ++ [z])) → accept ISIN e' s' = Ok (text (a ++ m' ++ b ++ [z])) →
  length (isin_digits m) = length (isin_digits m') →
  ∃ q, luhn q (reverse (isin_digits m)) mod 10 = luhn q (reverse (isin_digits m')) mod 10.
Proof.
  intros (i & c & E1 & _ & _ & H1)%isin_accepted (i' & c' & E2 & _ & _ & H2)%isin_accepted Hl.
  rewrite chars_text, !app_assoc in E1, E2. apply app_inj_tail in E1 as [<- <-].
  apply app_inj_tail in E2 as [<- <-]. rewrite <- H2 in H1. apply check_digit_luhn in H1.
  rewrite <- !app_assoc, !isin_digits_app, !reverse_app, <- !app_assoc in H1.
  destruct (luhn_stretch (reverse (isin_digits b)) (reverse (isin_digits m)) (reverse (isin_digits a)) true)
    as (k & q & Hq).
  rewrite !Hq in H1 by (rewrite ?length_reverse; lia). exists q. Z.div_mod_to_equations. lia.
Qed.

Lemma luhn_figure q c d :
  is_figure c → is_figure d → luhn q [c] mod 10 = luhn q [d] mod 10 → c = d.
Proof.
  unfold is_figure. cbn. intros Hc Hd.
  destruct q; [destruct (Z.ltb_spec (c * 2) 10), (Z.ltb_spec (d * 2) 10)|]; Z.div_mod_to_equations; lia.
Qed.

Lemma luhn_swap q c d :
  is_figure c → is_figure d → luhn q [d; c] mod 10 = luhn q [c; d] mod 10 →
  c = d ∨ (c = 0 ∧ d = 9) ∨ (c = 9 ∧ d = 0).
Proof.
  unfold is_figure. cbn. intros Hc Hd.
  destruct q; cbn; destruct (Z.ltb_spec (c * 2) 10), (Z.ltb_spec (d * 2) 10); Z.div_mod_to_equations; lia.
Qed.

Lemma digit_inj c d : Str.digit c = Str.digit d → c = d.
Proof. unfold Str.digit. intros H. apply code_inj. lia. Qed.

(** ** Weighted sums *)

Lemma weighted_place t ws a w b m l r :
  length a = length ws → weighted_sum t (ws ++ w :: b) (a ++ m :: l) = Some r →
  ∃ k v, value_of t (Str.upper_ascii m) = Some v ∧ r = k + v * w
    ∧ (∀ m' r', weighted_sum t (ws ++ w :: b) (a ++ m' :: l) = Some r' →
        ∃ v', value_of t (Str.upper_ascii m') = Some v' ∧ r' = k + v' * w).
Proof.
  revert a r. induction ws as [|u ws IH]; intros [|x a] r Hl; try discriminate Hl; cbn [app weighted_sum].
  - intros H. destruct (value_of t (Str.upper_ascii m)) as [v|]; [|done].
    destruct (weighted_sum t b l) as [k|] eqn:Ek; [|done]. injection H as <-.
    exists k, v. split_and!; [done|lia|]. intros m' r' H'.
    destruct (value_of t (Str.upper_ascii m')) as [v'|]; [|done]. injection H' as <-.
    exists v'. split; [done|lia].
  - intros H. destruct (value_of t (Str.upper_ascii x)) as [vx|]; [|done]. cbn [mbind option_bind] in H |- *.
    destruct (weighted_sum t (ws ++ w :: b) (a ++ m :: l)) as [r1|] eqn:E1; [|done]. injection H as <-.
    injection Hl as Hl. destruct (IH a r1 Hl E1) as (k & v & Hv & -> & Hall).
    exists (vx * u + k), v. split_and!; [done|lia|]. intros m' r' H'.
    destruct (weighted_sum t (ws ++ w :: b) (a ++ m' :: l)) as [r2|] eqn:E2; [|done]. injection H' as <-.
    destruct (Hall m' r2 E2) as (v' & Hv' & ->). exists v'. split; [done|lia].
Qed.

Lemma eleven_prime x y : 0 <= x < 11 → 0 < y < 11 → (x * y) mod 11 = 0 → x = 0.
Proof.
  intros Hx Hy.
  assert (y = 1 ∨ y = 2 ∨ y = 3 ∨ y = 4 ∨ y = 5 ∨ y = 6 ∨ y = 7 ∨ y = 8 ∨ y = 9 ∨ y = 10) as H by lia.
  clear Hy. repeat (destruct H as [->|H]; [Z.div_mod_to_equations; lia|]). subst.
  Z.div_mod_to_equations. lia.
Qed.

(** Values that differ modulo 11, under a weight 11 does not divide. *)
Lemma mod_eleven k v v' w :
  w mod 11 ≠ 0 → (k + v * w) mod 11 = (k + v' * w) mod 11 → v mod 11 = v' mod 11.
Proof.
  intros Hw H.
  assert (((v - v') mod 11 * (w mod 11)) mod 11 = 0) as E.
  { rewrite <- Zmult_mod. replace ((v - v') * w) with ((k + v * w) - (k + v' * w)) by lia.
    by rewrite Zminus_mod, H, Z.sub_diag. }
  pose proof (Z.mod_pos_bound (v - v') 11). pose proof (Z.mod_pos_bound w 11).
  apply eleven_prime in E; [|lia|lia]. clear - E. Z.div_mod_to_equations. lia.
Qed.

(** *** VIN *)

Lemma vin_accepted e s t :
  accept VIN e s = Ok t →
  ∃ total, length (chars t) = 17%nat ∧ weighted_sum _VIN_CHAR_VALUES _VIN_WEIGHTS (chars t) = Some total
    ∧ ∀ c, chars t !! 8%nat = Some c →
        Str.upper (if total mod 11 =? 10 then "X" else Num.string_of_Z (total mod 11))
        = String (Str.upper_ascii c) EmptyString.
Proof.
  intros (_ & _ & Hv)%accept_checked. injection Hv as Hv. unfold _validate_vin_check_digit in Hv.
  cbn zeta in Hv. destruct (Nat.eqb_spec (length (chars t)) 17) as [Hl|]; [|done]. cbn [negb] in Hv.
  unfold _calculate_vin_check_digit in Hv. rewrite Hl in Hv. cbn [Nat.eqb negb] in Hv.
  destruct (weighted_sum _ _ _) as [total|]; [|done].
  exists total. split_and!; [done|done|]. intros c Hc. rewrite Hc in Hv. cbn zeta in Hv.
  by apply bool_decide_eq_true in Hv.
Qed.

Lemma vin_remainder r r' :
  0 <= r < 11 → 0 <= r' < 11 →
  Str.upper (if r =? 10 then "X" else Num.string_of_Z r)
  = Str.upper (if r' =? 10 then "X" else Num.string_of_Z r') → r = r'.
Proof.
  intros Hr Hr'.
  set (f r := Str.upper (if r =? 10 then "X" else Num.string_of_Z r)).
  assert (forallb (λ r, forallb (λ r', implb (bool_decide (f r = f r')) (r =? r'))
    [0; 1; 2; 3; 4; 5; 6; 7; 8; 9; 10]) [0; 1; 2; 3; 4; 5; 6; 7; 8; 9; 10] = true) as E by by vm_compute.
  assert (∀ r, 0 <= r < 11 → In r [0; 1; 2; 3; 4; 5; 6; 7; 8; 9; 10]) as Hin by (intros; cbn; lia).
  intros H. pose proof (proj1 (forallb_forall _ _) E r (Hin r Hr)) as E1. cbn beta in E1.
  pose proof (proj1 (forallb_forall _ _) E1 r' (Hin r' Hr')) as E2. cbn beta in E2.
  rewrite bool_decide_eq_true_2 in E2 by exact H. by apply Z.eqb_eq.
Qed.

(** *** Containers *)

Lemma container_accepted e s t :
  accept ContainerNumber e s = Ok t →
  ∃ total, length (chars t) = 11%nat
    ∧ weighted_sum _CHAR_VALUES (powers 10) (take 10 (chars t)) = Some total
    ∧ ∀ c, chars t !! 10%nat = Some c → Num.int_of_string (String c EmptyString) = Ok ((total mod 11) mod 10).
Proof.
  intros (_ & _ & Hv)%accept_checked. injection Hv as Hv. unfold _validate_container_check_digit in Hv.
  cbn zeta in Hv. destruct (Nat.eqb_spec (length (chars t)) 11) as [Hl|]; [|done]. cbn [negb] in Hv.
  unfold _calculate_iso6346_check_digit in Hv. rewrite Hl in Hv. cbn [Nat.eqb negb] in Hv.
  destruct (weighted_sum _ _ _) as [total|]; [|done].
  exists total. split_and!; [done|done|]. intros c Hc. rewrite Hc in Hv.
  destruct (Num.int_of_string _) as [p|]; [|done]. apply Z.eqb_eq in Hv. by subst.
Qed.

(** ** Properties *)

(** The code with the characters [m] for others is never the outcome. *)
Definition never_accepted (sc : text_scalar) (l : list ascii) : Prop :=
  ∀ e s, accept sc e s ≠ Ok (text l).

Lemma text_eq t l : chars t = l → t = text l.
Proof. intros <-. by rewrite text_chars. Qed.

(** The check digits of an IBAN catch the common errors: of an accepted number,
    replacing a letter by another or a figure by another gives a number that is never
    accepted, and so does exchanging two neighbouring figures, other than the last
    check digit and the first of the account. *)
Theorem iban_catches_errors e s t :
  accept IBAN e s = Ok t →
  (∀ a c d b, chars t = a ++ c :: b → c ≠ d → Str.is_digit c = Str.is_digit d →
    never_accepted IBAN (a ++ d :: b))
  ∧ (∀ a c d b, chars t = a ++ c :: d :: b → c ≠ d → Str.is_digit c = true → Str.is_digit d = true →
      length a ≠ 3%nat → never_accepted IBAN (a ++ d :: c :: b)).
Proof.
  intros Ht. split.
  - intros a c d b Hc Hcd Hdig e' s' H'. apply text_eq in Hc. subst t.
    pose proof (iban_accepted _ _ _ Ht) as [F1 _]. pose proof (iban_accepted _ _ _ H') as [F2 _].
    rewrite chars_text in F1, F2. apply Forall_app in F1 as [_ [F1 _]%Forall_cons].
    apply Forall_app in F2 as [_ [F2 _]%Forall_cons].
    pose proof (worth_spec c F1) as (W1 & R1 & L1). pose proof (worth_spec d F2) as (W2 & R2 & L2).
    pose proof (iban_accepted_both e s e' s' a [c] [d] b Ht H') as E.
    unfold code_number in E. rewrite W1, W2, L1, L2, Hdig in E.
    specialize (E eq_refl eq_refl ltac:(cbn; lia)). destruct Hcd. apply worth_inj; [done|done|done|].
    Z.div_mod_to_equations. lia.
  - intros a c d b Hc Hcd Dc Dd Ha e' s' H'. apply text_eq in Hc. subst t.
    pose proof (iban_accepted_both e s e' s' a [c; d] [d; c] b Ht H') as E.
    unfold code_number in E. change (isin_digits [c; d]) with (isin_digits ([c] ++ [d])) in E.
    change (isin_digits [d; c]) with (isin_digits ([d] ++ [c])) in E.
    rewrite !isin_digits_app, !isin_digits_digit in E by done.
    specialize (E eq_refl eq_refl ltac:(cbn; lia)). unfold num in E. cbn in E.
    pose proof (digit_range c Dc). pose proof (digit_range d Dd).
    destruct Hcd. apply digit_inj. Z.div_mod_to_equations. lia.
Qed.

Lemma iban_catches_errors_witness :
  accept IBAN GraphQLError "GB82 WEST 1234 5698 7654 32" = Ok "GB82WEST12345698765432"
  ∧ never_accepted IBAN (chars "GB82WEST12345698765482")
  ∧ never_accepted IBAN (chars "GB82WEST12345698765423").
Proof.
  assert (accept IBAN GraphQLError "GB82 WEST 1234 5698 7654 32" = Ok "GB82WEST12345698765432") as H
    by (vm_compute; reflexivity).
  split; [exact H|]. split.
  - apply (proj1 (iban_catches_errors _ _ _ H) (chars "GB82WEST123456987654") "3"%char "8"%char ["2"%char]);
      [reflexivity|discriminate|reflexivity].
  - apply (proj2 (iban_catches_errors _ _ _ H) (chars "GB82WEST123456987654") "3"%char "2"%char []);
      [reflexivity|discriminate|reflexivity|reflexivity|discriminate].
Defined.

(** The check digit of an ISIN catches a wrong figure anywhere, and exchanged
    neighbouring figures before it unless they are a nought and a nine. *)
Theorem isin_catches_errors e s t :
  accept ISIN e s = Ok t →
  (∀ a c d b, chars t = a ++ c :: b → c ≠ d → Str.is_digit c = true → Str.is_digit d = true →
    never_accepted ISIN (a ++ d :: b))
  ∧ (∀ a c d b, chars t = a ++ c :: d :: b → c ≠ d → Str.is_digit c = true → Str.is_digit d = true →
      b ≠ [] → ¬ (Str.digit c = 0 ∧ Str.digit d = 9) → ¬ (Str.digit c = 9 ∧ Str.digit d = 0) →
      never_accepted ISIN (a ++ d :: c :: b)).
Proof.
  intros Ht. split.
  - intros a c d b Hc Hcd Dc Dd e' s' H'. apply text_eq in Hc. subst t.
    destruct b as [|z b _] using rev_ind.
    + apply isin_accepted in Ht as (i & x & E1 & _ & _ & H1), H' as (i' & x' & E2 & _ & _ & H2).
      rewrite chars_text in E1, E2. apply app_inj_tail in E1 as [<- <-]. apply app_inj_tail in E2 as [<- <-].
      destruct Hcd. apply digit_inj. congruence.
    + destruct (isin_accepted_both e s e' s' a [c] [d] b z Ht H') as [q Hq];
        rewrite !isin_digits_digit in * by done; [done|].
      destruct Hcd. apply digit_inj. by apply (luhn_figure q); [apply digit_range..|].
  - intros a c d b Hc Hcd Dc Dd Hb H09 H90 e' s' H'. apply text_eq in Hc. subst t.
    destruct b as [|z b _] using rev_ind; [done|].
    assert (∀ x y, Str.is_digit x = true → Str.is_digit y = true →
      isin_digits [x; y] = [Str.digit x; Str.digit y]) as Hxy.
    { intros x y Hx Hy. unfold isin_digits. cbn. by rewrite Hx, Hy. }
    destruct (isin_accepted_both e s e' s' a [c; d] [d; c] b z Ht H') as [q Hq];
      rewrite !Hxy in * by done; [done|].
    apply luhn_swap in Hq as [Hq|[?|?]]; [|done|done|by apply digit_range|by apply digit_range].
    destruct Hcd. by apply digit_inj.
Qed.

Lemma isin_catches_errors_witness :
  accept ISIN GraphQLError "us0378331005" = Ok "US0378331005"
  ∧ never_accepted ISIN (chars "US0378331505") ∧ never_accepted ISIN (chars "US0738331005").
Proof.
  assert (accept ISIN GraphQLError "us0378331005" = Ok "US0378331005") as H by (vm_compute; reflexivity).
  split; [exact H|]. split.
  - apply (proj1 (isin_catches_errors _ _ _ H) (chars "US0378331") "0"%char "5"%char (chars "05"));
      [reflexivity|discriminate|reflexivity|reflexivity].
  - apply (proj2 (isin_catches_errors _ _ _ H) (chars "US0") "3"%char "7"%char (chars "8331005"));
      [reflexivity|discriminate|reflexivity|reflexivity|discriminate| |]; vm_compute; intros [? ?]; discriminate.
Defined.

Lemma code_char_upper c : code_char c = true → Str.upper_ascii c = c.
Proof.
  intros H. apply Ascii.eqb_eq.
  assert (implb (code_char c) (Ascii.eqb (Str.upper_ascii c) c) = true) as E
    by (revert c H; intros c _; revert c; apply chars_forallb; by vm_compute).
  by rewrite H in E.
Qed.

(** The characters of an accepted code of a fixed length. *)
Lemma fixed_code name f r r' v n e s t :
  body r = Some r' → forallb (λ c, implb (may_take r' c) (code_char c)) all_chars = true → at_least r' = n →
  accept (checked_scalar name f r v) e s = Ok t → length (chars t) = n →
  Forall (λ c, code_char c = true) (chars t).
Proof.
  intros Hb Hc Hn (_ & Hm & _)%accept_checked Hl.
  destruct (code_match r r' n t Hb Hc Hn Hm) as (w & [Hw|Hw] & Hcc & Hlw); rewrite Hw in *; [done|].
  rewrite length_app in Hl. cbn in Hl. lia.
Qed.

(** Another place of the code is as it was. *)
Lemma other_place (a : list ascii) c d b i :
  length a ≠ i → (a ++ c :: b) !! i = (a ++ d :: b) !! i.
Proof.
  intros H. destruct (decide (i < length a)%nat).
  - by rewrite !lookup_app_l by lia.
  - rewrite !lookup_app_r by lia. destruct (i - length a)%nat eqn:E; [lia|done].
Qed.

Lemma vin_value_range c v : value_of _VIN_CHAR_VALUES c = Some v → 0 <= v <= 9.
Proof.
  intros H.
  assert (match value_of _VIN_CHAR_VALUES c with Some v => (0 <=? v) && (v <=? 9) | None => true end = true) as E.
  { revert c H. intros c _. revert c.
    apply (chars_forallb (λ c, match value_of _VIN_CHAR_VALUES c with
                               | Some v => (0 <=? v) && (v <=? 9) | None => true end)). by vm_compute. }
  rewrite H in E. apply andb_true_iff in E as [?%Z.leb_le ?%Z.leb_le]. lia.
Qed.

Lemma vin_weight i w : _VIN_WEIGHTS !! i = Some w → i ≠ 8%nat → w mod 11 ≠ 0.
Proof.
  intros H Hi. do 17 (destruct i as [|i]; [cbn in H; injection H as <-; try lia; by vm_compute|]). done.
Qed.

(** The check digit of a VIN catches a wrong character: replacing the check digit,
    or a character by one of another value, gives a number that is never accepted. *)
Theorem vin_catches_errors e s t a c d b :
  accept VIN e s = Ok t → chars t = a ++ c :: b → c ≠ d →
  length a = 8%nat ∨ value_of _VIN_CHAR_VALUES c ≠ value_of _VIN_CHAR_VALUES d →
  never_accepted VIN (a ++ d :: b).
Proof.
  intros Ht Hc Hcd Hplace e' s' H'. apply text_eq in Hc. subst t.
  destruct (vin_accepted _ _ _ Ht) as (r1 & L1 & W1 & P1).
  destruct (vin_accepted _ _ _ H') as (r2 & L2 & W2 & P2).
  eapply (fixed_code _ _ _ _ _ 17) in Ht as F1;
    [|vm_compute; reflexivity|by vm_compute|by vm_compute|exact L1].
  eapply (fixed_code _ _ _ _ _ 17) in H' as F2;
    [|vm_compute; reflexivity|by vm_compute|by vm_compute|exact L2].
  rewrite chars_text in *. apply Forall_app in F1 as [_ [F1 _]%Forall_cons].
  apply Forall_app in F2 as [_ [F2 _]%Forall_cons].
  rewrite length_app in L1. cbn in L1.
  destruct (lookup_lt_is_Some_2 _VIN_WEIGHTS (length a)) as [w Hw]; [cbn; lia|].
  rewrite <- (take_drop_middle _ _ _ Hw) in W1, W2.
  destruct (weighted_place _VIN_CHAR_VALUES (take (length a) _VIN_WEIGHTS) a w
    (drop (S (length a)) _VIN_WEIGHTS) c b r1) as (k & v & V1 & -> & Hall);
    [rewrite length_take; cbn; lia|exact W1|].
  destruct (Hall d r2 W2) as (v' & V2 & ->). rewrite code_char_upper in V1, V2 by done.
  destruct (decide (length a = 8%nat)) as [Ha|Ha].
  - rewrite Ha in Hw. injection Hw as <-. rewrite !Z.mul_0_r in *.
    specialize (P1 c). specialize (P2 d).
    rewrite <- Ha, list_lookup_middle in P1, P2 by done.
    specialize (P1 eq_refl). specialize (P2 eq_refl). rewrite P1 in P2. injection P2 as P2.
    by rewrite !code_char_upper in P2.
  - destruct Hplace as [|Hv]; [done|]. rewrite V1, V2 in Hv.
    destruct (lookup_lt_is_Some_2 (a ++ c :: b) 8) as [z Hz]; [rewrite length_app; cbn; lia|].
    specialize (P1 z Hz). rewrite (other_place a c d b 8 Ha) in Hz. specialize (P2 z Hz).
    rewrite <- P2 in P1. apply vin_remainder in P1; [|apply Z.mod_pos_bound; lia..].
    apply mod_eleven in P1; [|by eapply vin_weight].
    apply vin_value_range in V1, V2. destruct Hv. f_equal. Z.div_mod_to_equations. lia.
Qed.

Lemma vin_catches_errors_witness :
  accept VIN GraphQLError "1hgbh41jxmn109186" = Ok "1HGBH41JXMN109186"
  ∧ never_accepted VIN (chars "1HGBH41JXMN109187").
Proof.
  assert (accept VIN GraphQLError "1hgbh41jxmn109186" = Ok "1HGBH41JXMN109186") as H by (vm_compute; reflexivity).
  split; [exact H|].
  apply (vin_catches_errors _ _ _ (chars "1HGBH41JXMN10918") "6"%char "7"%char [] H);
    [reflexivity|discriminate|right; vm_compute; discriminate].
Defined.

(** The same characters are values of a letter and of a figure of the same remainder. *)
Lemma power_weight i w : powers 10 !! i = Some w → w mod 11 ≠ 0.
Proof. intros H. do 10 (destruct i as [|i]; [cbn in H; injection H as <-; by vm_compute|]). done. Qed.

Lemma zero_figure c : code_char c = true → Num.int_of_string (String c EmptyString) = Ok 0 → c = "0"%char.
Proof.
  intros Hc. rewrite isin_last by done. destruct (Str.is_digit c) eqn:E; [|done]. intros [= H].
  by apply (digit_inj c "0").
Qed.

(** The check digit of a container number catches a wrong check digit, and, unless
    it is nought, a character replaced by one whose value has another remainder modulo
    11 (a nought stands for two remainders). *)
Theorem container_catches_errors e s t a c d b :
  accept ContainerNumber e s = Ok t → chars t = a ++ c :: b → c ≠ d →
  b = [] ∨ (last (chars t) ≠ Some "0"%char
            ∧ (λ v, v mod 11) <$> value_of _CHAR_VALUES c ≠ (λ v, v mod 11) <$> value_of _CHAR_VALUES d) →
  never_accepted ContainerNumber (a ++ d :: b).
Proof.
  intros Ht Hc Hcd Hplace e' s' H'. rewrite Hc in Hplace. apply text_eq in Hc. subst t.
  destruct (container_accepted _ _ _ Ht) as (r1 & L1 & W1 & P1).
  destruct (container_accepted _ _ _ H') as (r2 & L2 & W2 & P2).
  eapply (fixed_code _ _ _ _ _ 11) in Ht as F1;
    [|vm_compute; reflexivity|by vm_compute|by vm_compute|exact L1].
  eapply (fixed_code _ _ _ _ _ 11) in H' as F2;
    [|vm_compute; reflexivity|by vm_compute|by vm_compute|exact L2].
  rewrite chars_text in *. rewrite length_app in L1. cbn in L1.
  destruct b as [|z b _] using rev_ind.
  - cbn in L1. assert (length a = 10%nat) as Ha by lia.
    rewrite take_app_length' in W1, W2 by done. rewrite W1 in W2. injection W2 as <-.
    specialize (P1 c). specialize (P2 d). rewrite <- Ha, list_lookup_middle in P1, P2 by done.
    specialize (P1 eq_refl). specialize (P2 eq_refl).
    apply Forall_app in F1 as [_ [F1 _]%Forall_cons]. apply Forall_app in F2 as [_ [F2 _]%Forall_cons].
    rewrite isin_last in P1, P2 by done.
    destruct (Str.is_digit c), (Str.is_digit d); try done. destruct Hcd. apply digit_inj. congruence.
  - destruct Hplace as [Hb|[Hlast Hv]]; [by destruct b|].
    rewrite length_app in L1. cbn in L1.
    assert (∀ x, take 10 (a ++ x :: b ++ [z]) = a ++ x :: b) as Htake.
    { intros x. rewrite app_comm_cons, app_assoc. apply take_app_length'. rewrite length_app. cbn. lia. }
    assert (∀ x, (a ++ x :: b ++ [z]) !! 10%nat = Some z) as Hz.
    { intros x. rewrite app_comm_cons, app_assoc. apply list_lookup_middle. rewrite length_app. cbn. lia. }
    rewrite Htake in W1, W2. specialize (P1 z (Hz c)). specialize (P2 z (Hz d)).
    destruct (lookup_lt_is_Some_2 (powers 10) (length a)) as [w Hw]; [cbn; lia|].
    rewrite <- (take_drop_middle _ _ _ Hw) in W1, W2.
    destruct (weighted_place _CHAR_VALUES (take (length a) (powers 10)) a w
      (drop (S (length a)) (powers 10)) c b r1) as (k & v & V1 & -> & Hall);
      [rewrite length_take; cbn; lia|exact W1|].
    destruct (Hall d r2 W2) as (v' & V2 & ->).
    apply Forall_app in F1 as [_ F1]. apply Forall_app in F2 as [_ F2].
    apply Forall_cons in F1 as [F1 [_ Fz]%Forall_app]. apply Forall_cons in F2 as [F2 _].
    apply Forall_cons in Fz as [Fz _]. rewrite code_char_upper in V1, V2 by done.
    rewrite V1, V2 in Hv. cbn in Hv. rewrite app_comm_cons, app_assoc, last_snoc in Hlast.
    assert ((k + v * w) mod 11 = (k + v' * w) mod 11) as E.
    { rewrite P1 in P2. injection P2 as P2.
      pose proof (Z.mod_pos_bound (k + v * w) 11). pose proof (Z.mod_pos_bound (k + v' * w) 11).
      destruct (decide (((k + v * w) mod 11) mod 10 = 0)) as [E0|E0].
      - rewrite E0 in P1. destruct Hlast. f_equal. by apply zero_figure.
      - Z.div_mod_to_equations. lia. }
    apply mod_eleven in E; [|by eapply power_weight]. by destruct Hv; f_equal.
Qed.

Lemma container_catches_errors_witness :
  accept ContainerNumber GraphQLError "csqu3054383" = Ok "CSQU3054383"
  ∧ never_accepted ContainerNumber (chars "CSQU3054393").
Proof.
  assert (accept ContainerNumber GraphQLError "csqu3054383" = Ok "CSQU3054383") as H by (vm_compute; reflexivity).
  split; [exact H|].
  apply (container_catches_errors _ _ _ (chars "CSQU30543") "8"%char "9"%char (chars "3") H);
    [reflexivity|discriminate|right; split; vm_compute; discriminate].
Defined.

(** A nought stands for two remainders: both numbers are accepted. *)
Example container_nought :
  parse_value ContainerNumber (PStr "AAAU0000080") = Ok "AAAU0000080"
  ∧ parse_value ContainerNumber (PStr "AAAU2000080") = Ok "AAAU2000080".
Proof. by vm_compute. Qed.
