(* ===== verification/Cursor.v ===== *)
(** * Cursors ([encode_cursor] and [decode_cursor] of [cqrs/pagination.py])

    A text is given by the bytes of its UTF-8 form, so that [encode()] changes
    nothing and [decode()] checks that the bytes are such a form.  [base64] is written
    out as the language's library has it: encoding in groups of three bytes, decoding
    with characters outside the alphabet passed over. *)
From stdpp Require Import base decidable strings list.
From Stdlib Require Import ZArith Lia Ascii.
From S2P Require Import Prelude PyVal.

Local Open Scope Z_scope.

Local Notation chars := String.list_ascii_of_string.
Local Notation text := String.string_of_list_ascii.

(** ** UTF-8 *)

Definition between (lo hi : Z) (c : ascii) : bool := (lo <=? Str.code c) && (Str.code c <=? hi).

Definition continuation : ascii → bool := between 128 191.

Fixpoint utf8 (bytes : list ascii) : bool :=
  match bytes with
  | [] => true
  | a :: rest =>
      if between 0 127 a then utf8 rest
      else match rest with
           | [] => false
           | b :: rest =>
               if between 194 223 a then continuation b && utf8 rest
               else match rest with
                    | [] => false
                    | c :: rest =>
                        if between 224 239 a then
                          (if Str.code a =? 224 then between 160 191 b
                           else if Str.code a =? 237 then between 128 159 b else continuation b)
                          && continuation c && utf8 rest
                        else match rest with
                             | [] => false
                             | d :: rest =>
                                 between 240 244 a
                                 && (if Str.code a =? 240 then between 144 191 b
                                     else if Str.code a =? 244 then between 128 143 b else continuation b)
                                 && continuation c && continuation d && utf8 rest
                             end
                    end
           end
  end.

(** [bytes.decode()]; [UnicodeDecodeError] is a [ValueError]. *)
Definition decode_utf8 (bytes : list ascii) : result string :=
  if utf8 bytes then Ok (text bytes) else Err ValueError.

(** ** Base64 *)

Definition alphabet : string := "ABCDEFGHIJKLMNOPQRSTUVWXYZabcdefghijklmnopqrstuvwxyz0123456789+/".

Definition symbol (i : Z) : ascii := default "="%char (chars alphabet !! Z.to_nat i).

Definition pad : ascii := "="%char.

Fixpoint b64encode (bytes : list ascii) : list ascii :=
  match bytes with
  | [] => []
  | [a] => [symbol (Str.code a / 4); symbol (Str.code a mod 4 * 16); pad; pad]
  | [a; b] =>
      [symbol (Str.code a / 4); symbol (Str.code a mod 4 * 16 + Str.code b / 16);
       symbol (Str.code b mod 16 * 4); pad]
  | a :: b :: c :: rest =>
      symbol (Str.code a / 4) :: symbol (Str.code a mod 4 * 16 + Str.code b / 16)
      :: symbol (Str.code b mod 16 * 4 + Str.code c / 64) :: symbol (Str.code c mod 64)
      :: b64encode rest
  end.

(** The six bits of a symbol. *)
Fixpoint index_of (c : ascii) (l : list ascii) (i : Z) : option Z :=
  match l with
  | [] => None
  | x :: l' => if Ascii.eqb x c then Some i else index_of c l' (i + 1)
  end.

Definition sextet (c : ascii) : option Z := index_of c (chars alphabet) 0.

(** [binascii.a2b_base64], not strict: [quad] counts the symbols of the group, [left]
    holds the bits not written yet, [pads] the padding characters seen in a row.
    [binascii.Error] is a [ValueError]. *)
Fixpoint a2b (quad : Z) (left : Z) (pads : Z) (s : list ascii) : result (list ascii) :=
  match s with
  | [] => if quad =? 0 then Ok [] else Err ValueError
  | c :: s' =>
      if Ascii.eqb c pad then
        if 2 <=? quad then
          if 4 <=? quad + (pads + 1) then Ok [] else a2b quad left (pads + 1) s'
        else a2b quad left pads s'
      else
        match sextet c with
        | None => a2b quad left pads s'
        | Some v =>
            if quad =? 0 then a2b 1 v 0 s'
            else if quad =? 1 then
              out ← a2b 2 (v mod 16) 0 s'; Ok (Str.chr (left * 4 + v / 16) :: out)
            else if quad =? 2 then
              out ← a2b 3 (v mod 4) 0 s'; Ok (Str.chr (left * 16 + v / 4) :: out)
            else
              out ← a2b 0 0 0 s'; Ok (Str.chr (left * 64 + v) :: out)
        end
  end.

Definition b64decode (s : list ascii) : result (list ascii) := a2b 0 0 0 s.

(** ** Cursors *)

Definition encode_cursor (value : string) : string := text (b64encode (chars value)).

Definition decode_cursor (cursor : string) : result string :=
  bytes ← b64decode (chars cursor); decode_utf8 bytes.

Example cursor_example :
  encode_cursor "user-42" = "dXNlci00Mg=="
  ∧ decode_cursor "dXNl ci00Mg==" = Ok "user-42"
  ∧ decode_cursor "dXNlci00Mg" = Err ValueError.
Proof. by vm_compute. Qed.

(** ** The round trip *)

Lemma sextet_symbol i : 0 <= i < 64 → sextet (symbol i) = Some i ∧ symbol i ≠ pad.
Proof.
  intros Hi.
  assert (forallb (λ n, let i := Z.of_nat n in
    bool_decide (sextet (symbol i) = Some i) && negb (Ascii.eqb (symbol i) pad)) (seq 0 64) = true) as E
    by by vm_compute.
  pose proof (proj1 (forallb_forall _ _) E (Z.to_nat i)) as H. cbn beta zeta in H.
  rewrite Z2Nat.id in H by lia.
  specialize (H ltac:(apply in_seq; lia)). apply andb_true_iff in H as [H1%bool_decide_eq_true H2].
  split; [done|]. by apply negb_true_iff, Ascii.eqb_neq in H2.
Qed.

Lemma code_range c : 0 <= Str.code c < 256.
Proof. unfold Str.code. pose proof (N_ascii_bounded c). lia. Qed.

Lemma chr_code c : Str.chr (Str.code c) = c.
Proof. unfold Str.chr, Str.code. by rewrite N2Z.id, ascii_N_embedding. Qed.

(** One symbol that starts, goes on with, or ends a group. *)
Lemma a2b_symbol quad left pads i s :
  0 <= i < 64 →
  a2b quad left pads (symbol i :: s)
  = if quad =? 0 then a2b 1 i 0 s
    else if quad =? 1 then out ← a2b 2 (i mod 16) 0 s; Ok (Str.chr (left * 4 + i / 16) :: out)
    else if quad =? 2 then out ← a2b 3 (i mod 4) 0 s; Ok (Str.chr (left * 16 + i / 4) :: out)
    else out ← a2b 0 0 0 s; Ok (Str.chr (left * 64 + i) :: out).
Proof.
  intros Hi. destruct (sextet_symbol i Hi) as [H1 H2]. cbn [a2b].
  rewrite (proj2 (Ascii.eqb_neq _ _)) by done. by rewrite H1.
Qed.

Lemma first_byte a x : 0 <= x < 16 → Str.chr (Str.code a / 4 * 4 + (Str.code a mod 4 * 16 + x) / 16) = a.
Proof.
  intros Hx. rewrite <- (chr_code a) at 3. f_equal. pose proof (code_range a). Z.div_mod_to_equations. lia.
Qed.

Lemma second_byte y b x :
  0 <= x < 4 →
  Str.chr ((y * 16 + Str.code b / 16) mod 16 * 16 + (Str.code b mod 16 * 4 + x) / 4) = b.
Proof.
  intros Hx. rewrite <- (chr_code b) at 3. f_equal. pose proof (code_range b).
  assert (0 <= Str.code b / 16 < 16) by (Z.div_mod_to_equations; lia).
  rewrite (Z.add_comm (y * 16)), Z.mod_add, (Z.mod_small (Str.code b / 16)) by lia.
  Z.div_mod_to_equations. lia.
Qed.

Lemma third_byte y c :
  Str.chr ((y * 4 + Str.code c / 64) mod 4 * 64 + Str.code c mod 64) = c.
Proof.
  rewrite <- (chr_code c) at 3. f_equal. pose proof (code_range c).
  assert (0 <= Str.code c / 64 < 4) by (Z.div_mod_to_equations; lia).
  rewrite (Z.add_comm (y * 4)), Z.mod_add, (Z.mod_small (Str.code c / 64)) by lia.
  Z.div_mod_to_equations. lia.
Qed.

Lemma b64_roundtrip bytes : b64decode (b64encode bytes) = Ok bytes.
Proof.
  unfold b64decode. revert bytes.
  enough (∀ n bytes, (length bytes <= n)%nat → a2b 0 0 0 (b64encode bytes) = Ok bytes) as H by eauto.
  induction n as [|n IH]; intros [|a [|b [|c rest]]] Hn; cbn [length] in Hn; try lia; [done|done|..].
  - pose proof (code_range a). cbn [b64encode].
    rewrite !a2b_symbol by (Z.div_mod_to_equations; lia). cbn.
    rewrite <- (Z.add_0_r (Str.code a mod 4 * 16)). by rewrite first_byte by lia.
  - pose proof (code_range a). pose proof (code_range b). cbn [b64encode].
    rewrite !a2b_symbol by (Z.div_mod_to_equations; lia). cbn -[Z.div Z.modulo Z.mul Z.add].
    rewrite first_byte by (Z.div_mod_to_equations; lia).
    rewrite <- (Z.add_0_r (Str.code b mod 16 * 4)). by rewrite second_byte by lia.
  - pose proof (code_range a). pose proof (code_range b). pose proof (code_range c). cbn [b64encode].
    rewrite !a2b_symbol by (Z.div_mod_to_equations; lia). cbn -[Z.div Z.modulo Z.mul Z.add b64encode].
    rewrite IH by lia. cbn -[Z.div Z.modulo Z.mul Z.add].
    rewrite first_byte, second_byte, third_byte by (Z.div_mod_to_equations; lia). done.
Qed.

Lemma cursor_roundtrip value : utf8 (chars value) = true → decode_cursor (encode_cursor value) = Ok value.
Proof.
  intros H. unfold decode_cursor, encode_cursor.
  rewrite String.list_ascii_of_string_of_list_ascii, b64_roundtrip. cbn. unfold decode_utf8.
  rewrite H. by rewrite String.string_of_list_ascii_of_string.
Qed.
