(* ===== verification/Pagination.v ===== *)
(** * Cursor pagination ([cqrs/pagination.py])

    [PaginationParams], the statement [CursorPaginator.paginate] builds, and the page
    it makes of the rows.  The database is a parameter; [PageStore] says what it
    answers to statements of this form. *)
From stdpp Require Import base decidable strings list.
From Stdlib Require Import ZArith Lia Ascii.
From S2P Require Import Prelude PyVal Sql Cursor.

Local Open Scope py_scope.
Local Open Scope Z_scope.

(** ** Parameters *)

Record pagination_params := {
  first : option Z;
  after : option string;
  last : option Z;
  before : option string;
  order_by : string;
  order_direction : string;
  is_forward : bool;
  is_backward : bool
}.

Definition negative (o : option Z) : bool := match o with Some n => n <? 0 | None => false end.

(** [PaginationParams.__init__]: the direction is decided before the default is set. *)
Definition PaginationParams (first : option Z) (after : option string) (last : option Z)
    (before : option string) (order_by order_direction : string) : result pagination_params :=
  if is_some first && is_some last then Err ValueError
  else if negative first then Err ValueError
  else if negative last then Err ValueError
  else
    Ok {| first := if negb (is_some first) && negb (is_some last) then Some 20 else first;
          after := after; last := last; before := before; order_by := order_by;
          order_direction := Str.upper order_direction;
          is_forward := is_some first || (negb (is_some first) && negb (is_some last));
          is_backward := is_some last |}.

(** ** The statement *)

(** A name with its schema is two identifiers with a dot between them. *)
Definition qualified_identifier (name : string) : composable :=
  match Str.split1 "." name with
  | Some (schema_name, object_name) => Join "." [Identifier schema_name; Identifier object_name]
  | None => Identifier name
  end.

(** One filter: a clause and its parameter. *)
Definition filter_clause (kv : string * pyval) : composable * pyval :=
  match kv.2 with
  | PList _ => (Format "data->{} ?| %s" [Literal (PStr kv.1)], kv.2)
  | v => (Format "data->>{} = %s" [Literal (PStr kv.1)], PStr (Py.str v))
  end.

Definition cursor_field (params : pagination_params) : composable :=
  Format "data->>{}" [Literal (PStr (order_by params))].

(** A bound, under [ASC] and under another direction; an empty cursor is none. *)
Definition cursor_clause (params : pagination_params) (asc other : string) (cursor : option string)
    : result (list (composable * pyval)) :=
  match cursor with
  | Some (String _ _ as c) =>
      cursor_value ← decode_cursor c;
      let template := if order_direction params =s "ASC" then asc else other in
      Ok [(Format template [cursor_field params], PStr cursor_value)]
  | _ => Ok []
  end.

Definition descending (params : pagination_params) : bool :=
  if is_backward params then order_direction params =s "ASC" else order_direction params =s "DESC".

Definition page_limit (params : pagination_params) : result Z :=
  match (if is_forward params then first params else last params) with
  | Some n => Ok n
  | None => Err ValueError
  end.

(** The statement of a page, and its parameters. *)
Definition page_query (view_name : string) (params : pagination_params)
    (filters : list (string * pyval)) : result (composable * list pyval) :=
  let filter_clauses := map filter_clause filters in
  after_clauses ← cursor_clause params "{} > %s" "{} < %s" (after params);
  before_clauses ← cursor_clause params "{} < %s" "{} > %s" (before params);
  let clauses := filter_clauses ++ after_clauses ++ before_clauses in
  limit ← page_limit params;
  Ok (Join ""
        ([Format "SELECT id, data FROM {}" [qualified_identifier view_name]]
           ++ (match clauses with
               | [] => []
               | _ => [Composed [SQL " WHERE "; Join " AND " clauses.*1]]
               end)
           ++ [Composed [Format " ORDER BY {} " [cursor_field params];
                         SQL (if descending params then "DESC" else "ASC")];
               SQL " LIMIT %s"]),
      clauses.*2 ++ [PInt (limit + 1)]).

(** The statement of [_get_total_count]. *)
Definition count_query (view_name : string) (filters : list (string * pyval)) : composable * list pyval :=
  let clauses := map filter_clause filters in
  (Join ""
     ([Format ("SELECT COUNT(" +:+ "*" +:+ ") FROM {}")%stdpp [qualified_identifier view_name]]
        ++ match clauses with
           | [] => []
           | _ => [Composed [SQL " WHERE "; Join " AND " clauses.*1]]
           end),
   clauses.*2).

(** ** The page *)

(** A row's document. *)
Definition document : Type := list (string * pyval).

Record edge := { node : document; cursor : string }.

Record page_info := {
  has_next_page : bool;
  has_previous_page : bool;
  start_cursor : option string;
  end_cursor : option string
}.

Record page := { edges : list edge; info : page_info; total_count : option Z }.

(** A row whose key is missing or null has no edge. *)
Definition edge_of (key : string) (row : document) : list edge :=
  match Py.get key row with
  | PNone => []
  | v => [{| node := row; cursor := encode_cursor (Py.str v) |}]
  end.

Definition build_page (params : pagination_params) (limit : Z) (rows : list document)
    (total : option Z) : page :=
  let has_extra := limit <? Z.of_nat (length rows) in
  let rows := if has_extra then take (Z.to_nat limit) rows else rows in
  let rows := if is_backward params then reverse rows else rows in
  let edges := flat_map (edge_of (order_by params)) rows in
  {| edges := edges;
     info := {| has_next_page := if is_forward params then has_extra else is_some (after params);
                has_previous_page := if is_backward params then has_extra else is_some (before params);
                start_cursor := cursor <$> head edges;
                end_cursor := cursor <$> list.last edges |};
     total_count := total |}.

(** [CursorPaginator.paginate] *)
Definition paginate (run : composable * list pyval → list document)
    (count : composable * list pyval → Z) (view_name : string) (params : pagination_params)
    (filters : list (string * pyval)) (include_total : bool) : result page :=
  q ← page_query view_name params filters;
  limit ← page_limit params;
  let rows := run q in
  let total := if include_total then Some (count (count_query view_name filters)) else None in
  Ok (build_page params limit rows total).

(** [paginate_query] *)
Definition paginate_query (run : composable * list pyval → list document)
    (count : composable * list pyval → Z) (view_name : string) (first : option Z)
    (after : option string) (last : option Z) (before : option string)
    (filters : list (string * pyval)) (order_by order_direction : string) (include_total : bool)
    : result page :=
  params ← PaginationParams first after last before order_by order_direction;
  paginate run count view_name params filters include_total.
