(* ===== verification/PageStore.v ===== *)
(** * What the database answers to the statements of pagination

    A statement is read back from the fragments psycopg is given; PostgreSQL's
    documented meaning of its clauses on the documents of a view gives the rows it may
    answer with. *)
From stdpp Require Import base decidable strings list sorting.
From Stdlib Require Import ZArith Lia Ascii.
From S2P Require Import Prelude PyVal Sql Cursor Pagination.

Local Open Scope py_scope.
Local Open Scope Z_scope.

(** The order of texts in the database. *)
Class Collation := {
  text_le : relation string;
  text_le_dec :: RelDecision text_le;
  text_le_order :: PartialOrder text_le;
  text_le_total :: Total text_le
}.

(** ** Values and clauses *)

(** What [data->>'key'] gives for a value of a document. *)
Definition arrow_text (v : pyval) : option string :=
  match v with
  | PNone => None
  | PStr s => Some s
  | PBool b => Some (if b then "true" else "false")
  | PInt z => Some (Num.string_of_Z z)
  | v => match Json.dumps v with Ok s => Some s | Err _ => None end
  end.

Definition key_text (key : string) (row : document) : option string := arrow_text (Py.get key row).

Definition text_items (v : pyval) : list string :=
  match v with
  | PStr s => [s]
  | PList l => flat_map (λ x, match x with PStr s => [s] | _ => [] end) l
  | PDict d => dict_keys d
  | _ => []
  end.

(** [data->'key' ?| texts] *)
Definition any_text (key : string) (texts : pyval) (row : document) : bool :=
  existsb (λ s, s in_ text_items texts) (text_items (Py.get key row)).

Section store.
Context `{Hcoll : Collation}.

(** [data->>'key' > bound] and [data->>'key' < bound]: false of a row without the key. *)
Definition above (key bound : string) (row : document) : bool :=
  match key_text key row with Some k => negb (bool_decide (text_le k bound)) | None => false end.

Definition below (key bound : string) (row : document) : bool :=
  match key_text key row with Some k => negb (bool_decide (text_le bound k)) | None => false end.

(** A clause with its parameter. *)
Definition clause_holds (clause : composable * pyval) (row : document) : bool :=
  match clause with
  | (Format t [Literal (PStr key)], v) =>
      if t =s "data->{} ?| %s" then any_text key v row
      else if t =s "data->>{} = %s" then
        match v with PStr s => bool_decide (key_text key row = Some s) | _ => false end
      else false
  | (Format t [Format f [Literal (PStr key)]], PStr bound) =>
      if f =s "data->>{}" then
        if t =s "{} > %s" then above key bound row
        else if t =s "{} < %s" then below key bound row else false
      else false
  | _ => false
  end.

(** ** Statements *)

Record statement := {
  view : composable;
  clauses : list (composable * pyval);
  key : string;
  desc : bool;
  limit : Z
}.

Definition read_where (c : composable) : option (list composable) :=
  match c with
  | Composed [SQL w; Join a cs] => if (w =s " WHERE ") && (a =s " AND ") then Some cs else None
  | _ => None
  end.

Definition read_order (c : composable) : option (string * bool) :=
  match c with
  | Composed [Format t [Format f [Literal (PStr key)]]; SQL dir] =>
      if (t =s " ORDER BY {} ") && (f =s "data->>{}") && (dir in_ ["ASC"; "DESC"])
      then Some (key, dir =s "DESC") else None
  | _ => None
  end.

(** The clauses with their parameters, and the limit after them. *)
Fixpoint read_params (cs : list composable) (params : list pyval)
    : option (list (composable * pyval) * Z) :=
  match cs, params with
  | [], [PInt n] => Some ([], n)
  | c :: cs', v :: params' => '(l, n) ← read_params cs' params'; Some ((c, v) :: l, n)
  | _, _ => None
  end.

Definition read_select (c : composable) : option composable :=
  match c with
  | Format t [v] => if t =s "SELECT id, data FROM {}" then Some v else None
  | _ => None
  end.

Definition read_statement (q : composable * list pyval) : option statement :=
  match q.1 with
  | Join sep (select :: rest) =>
      view ← read_select select;
      '(cs, order, last) ← match rest with
                           | [order; last] => Some ([], order, last)
                           | [where_; order; last] => cs ← read_where where_; Some (cs, order, last)
                           | _ => None
                           end;
      '(key, desc) ← read_order order;
      '(clauses, n) ← read_params cs q.2;
      match last with
      | SQL t => if (t =s " LIMIT %s") && (sep =s "") then
                   Some {| view := view; clauses := clauses; key := key; desc := desc; limit := n |}
                 else None
      | _ => None
      end
  | _ => None
  end.

(** ** Answers *)

(** [ORDER BY data->>'key' ASC], with the rows without the key last, and its reverse. *)
Definition row_le (key : string) (r1 r2 : document) : Prop :=
  match key_text key r1, key_text key r2 with
  | Some k1, Some k2 => text_le k1 k2
  | _, None => True
  | None, Some _ => False
  end.

Definition ordered (key : string) (desc : bool) (r1 r2 : document) : Prop :=
  if desc then row_le key r2 r1 else row_le key r1 r2.

Definition selected (st : statement) (row : document) : bool :=
  forallb (λ c, clause_holds c row) (clauses st).

(** What PostgreSQL documents: the rows the clauses hold of, in an order the keys allow,
    up to the limit. *)
Definition answers (view_name : string) (rows : list document)
    (run : composable * list pyval → list document) : Prop :=
  ∀ q st, read_statement q = Some st → view st = qualified_identifier view_name →
    ∃ l, l ≡ₚ filter (λ r, selected st r = true) rows
      ∧ Sorted (ordered (key st) (desc st)) l
      ∧ run q = take (Z.to_nat (limit st)) l.
End store.
