(* ===== verification/PageLaws.v ===== *)
(** * Laws of cursor pagination

    The statement of a page is read back as the clauses, order and limit the parameters
    stand for; a page holds the rows that follow its cursor; and a client that goes on
    from cursor to cursor gets every row once and comes to an end. *)
From stdpp Require Import base decidable strings list sets sorting.
From Stdlib Require Import ZArith Lia Ascii.
From S2P Require Import Prelude PyVal Sql Cursor Pagination PageStore.

Local Open Scope py_scope.
Local Open Scope Z_scope.

(** ** The statement *)

Lemma read_params_clauses (l : list (composable * pyval)) n :
  read_params l.*1 (l.*2 ++ [PInt n]) = Some (l, n).
Proof. induction l as [|[c v] l IH]; cbn; [done|]. fold (l.*1) (l.*2). by rewrite IH. Qed.

Lemma page_query_reads view_name params filters q :
  page_query view_name params filters = Ok q →
  ∃ afters befores n,
    cursor_clause params "{} > %s" "{} < %s" (after params) = Ok afters
    ∧ cursor_clause params "{} < %s" "{} > %s" (before params) = Ok befores
    ∧ page_limit params = Ok n
    ∧ read_statement q
      = Some {| view := qualified_identifier view_name;
                clauses := map filter_clause filters ++ afters ++ befores;
                key := order_by params; desc := descending params; limit := n + 1 |}.
Proof.
  unfold page_query. intros (afters & Ea & H)%bind_Ok.
  apply bind_Ok in H as (befores & Eb & H). apply bind_Ok in H as (n & En & [= <-]).
  exists afters, befores, n. do 3 (split; [done|]).
  set (cs := map filter_clause filters ++ afters ++ befores).
  pose proof (read_params_clauses cs (n + 1)) as Hp.
  unfold read_statement. cbn [fst snd].
  destruct cs as [|c cs].
  - destruct (descending params); by cbn in *; rewrite ?Hp.
  - revert Hp. generalize ((c :: cs).*1) ((c :: cs).*2 ++ [PInt (n + 1)]). intros l1 l2 Hp.
    by destruct (descending params); cbv -[read_params Z.add cursor_field qualified_identifier]; rewrite Hp.
Qed.

(** ** Orders of rows *)

Section store.
Context `{Hcoll : Collation}.

#[export] Instance row_le_trans key : Transitive (row_le key).
Proof.
  intros r1 r2 r3. unfold row_le.
  destruct (key_text key r1), (key_text key r2), (key_text key r3); try done. apply transitivity.
Qed.

#[export] Instance row_le_total key : Total (row_le key).
Proof.
  intros r1 r2. unfold row_le. destruct (key_text key r1), (key_text key r2); auto. apply total, _.
Qed.

#[export] Instance ordered_trans key desc : Transitive (ordered key desc).
Proof. intros r1 r2 r3. destruct desc; cbn; [intros H1 H2; by trans r2|apply transitivity]. Qed.

#[export] Instance ordered_total key desc : Total (ordered key desc).
Proof. intros r1 r2. destruct desc; cbn; apply total, _. Qed.

#[export] Instance ordered_dec key desc : RelDecision (ordered key desc).
Proof.
  intros r1 r2. unfold ordered, row_le.
  destruct desc, (key_text key r1), (key_text key r2); try apply _; by (left + right; intros []).
Defined.

(** Rows with different keys are in one order only. *)
Lemma ordered_anti key desc r1 r2 :
  ordered key desc r1 r2 → ordered key desc r2 r1 → key_text key r1 = key_text key r2.
Proof.
  unfold ordered, row_le. destruct desc, (key_text key r1), (key_text key r2); try done;
    intros; f_equal; by apply (anti_symm text_le).
Qed.

(** ** Rows a page selects *)

Definition passes (filters : list (string * pyval)) (row : document) : bool :=
  forallb (λ c, clause_holds c row) (map filter_clause filters).

(** The rows past a value, upwards or downwards. *)
Definition beyond (down : bool) (key v : string) (row : document) : bool :=
  if down then below key v row else above key v row.

Definition bounded (down : bool) (key : string) (cursor : option string) (row : document) : bool :=
  match cursor with
  | Some (String _ _ as c) =>
      match decode_cursor c with Ok v => beyond down key v row | Err _ => false end
  | _ => true
  end.

Definition in_range (params : pagination_params) (filters : list (string * pyval)) (row : document) : bool :=
  let asc := order_direction params =s "ASC" in
  passes filters row && bounded (negb asc) (order_by params) (after params) row
  && bounded asc (order_by params) (before params) row.

Lemma cursor_clause_holds params (down : bool) cursor cs row :
  cursor_clause params (if down then "{} < %s" else "{} > %s") (if down then "{} > %s" else "{} < %s") cursor
    = Ok cs →
  forallb (λ c, clause_holds c row) cs
  = bounded (if order_direction params =s "ASC" then down else negb down) (order_by params) cursor row.
Proof.
  unfold cursor_clause, bounded. destruct cursor as [[|a c]|]; [intros [= <-]; done| |intros [= <-]; done].
  intros (v & -> & [= <-])%bind_Ok. cbn [forallb]. rewrite andb_true_r.
  destruct (order_direction params =s "ASC"), down; done.
Qed.

Lemma page_query_selected view_name params filters q :
  page_query view_name params filters = Ok q →
  ∃ n st, page_limit params = Ok n ∧ read_statement q = Some st
    ∧ view st = qualified_identifier view_name ∧ key st = order_by params
    ∧ desc st = descending params ∧ limit st = n + 1
    ∧ ∀ row, selected st row = in_range params filters row.
Proof.
  intros (afters & befores & n & Ha & Hb & Hn & Hq)%page_query_reads.
  exists n. eexists. do 2 (split; [done|]). do 4 (split; [done|]). intros row.
  unfold selected, in_range. cbn [clauses]. rewrite !List.forallb_app, andb_assoc.
  rewrite (cursor_clause_holds params false _ _ _ Ha), (cursor_clause_holds params true _ _ _ Hb).
  by destruct (order_direction params =s "ASC").
Qed.

(** What [PaginationParams] makes of its arguments. *)
Definition page_size (first last : option Z) : Z :=
  match first, last with Some n, _ | None, Some n => n | None, None => 20 end.

Lemma PaginationParams_Ok first after last before order_by order_direction params :
  PaginationParams first after last before order_by order_direction = Ok params →
  0 <= page_size first last ∧ page_limit params = Ok (page_size first last)
  ∧ is_forward params = negb (is_some last) ∧ is_backward params = is_some last
  ∧ Pagination.after params = after ∧ Pagination.before params = before
  ∧ Pagination.order_by params = order_by
  ∧ Pagination.order_direction params = Str.upper order_direction.
Proof.
  unfold PaginationParams.
  destruct first as [n|], last as [m|]; cbn [is_some negative andb negb]; [done|..];
    repeat case_match; try done; intros [= <-]; cbn;
    repeat match goal with H : (_ <? _) = false |- _ => apply Z.ltb_ge in H end;
    unfold page_limit; cbn; (split; [lia|done]).
Qed.

(** ** One page *)

Definition nodes (p : page) : list document := node <$> edges p.

Definition has_key (key : string) (row : document) : bool := is_some (head (edge_of key row)).

Definition oriented {A} (backward : bool) (l : list A) : list A := if backward then reverse l else l.

Lemma nodes_of key rows :
  node <$> flat_map (edge_of key) rows = filter (λ r, has_key key r = true) rows.
Proof.
  induction rows as [|r rows IH]; [done|]. cbn [flat_map]. rewrite fmap_app, IH, filter_cons.
  unfold has_key, edge_of. by destruct (Py.get key r).
Qed.

Lemma take_extra {A} (l : list A) n :
  0 <= n →
  (n <? Z.of_nat (length (take (Z.to_nat (n + 1)) l))) = (n <? Z.of_nat (length l))
  ∧ (if n <? Z.of_nat (length l) then take (Z.to_nat n) (take (Z.to_nat (n + 1)) l)
     else take (Z.to_nat (n + 1)) l) = take (Z.to_nat n) l.
Proof.
  intros Hn. rewrite length_take. destruct (Z.ltb_spec n (Z.of_nat (length l))) as [H|H].
  - split; [apply Z.ltb_lt; lia|]. rewrite take_take. f_equal. lia.
  - split; [apply Z.ltb_ge; lia|]. rewrite !take_ge by lia. done.
Qed.

Section database.
Context {view_name : string} {rows : list document} {run : composable * list pyval → list document}.
Context (Hrun : answers view_name rows run).

(** The edges of a page are the first of the rows in range, in the order of the page;
    only the flag of the page's own direction looks at the rows. *)
Lemma page_spec count first after last before filters key dir total p :
  paginate_query run count view_name first after last before filters key dir total = Ok p →
  ∃ params l,
    let n := page_size first last in
    PaginationParams first after last before key dir = Ok params
    ∧ l ≡ₚ filter (λ r, in_range params filters r = true) rows
    ∧ Sorted (ordered key (descending params)) l
    ∧ edges p = flat_map (edge_of key) (oriented (is_some last) (take (Z.to_nat n) l))
    ∧ info p = {| has_next_page := if is_some last then is_some after else n <? Z.of_nat (length l);
                  has_previous_page := if is_some last then n <? Z.of_nat (length l) else is_some before;
                  start_cursor := cursor <$> head (edges p);
                  end_cursor := cursor <$> list.last (edges p) |}.
Proof.
  unfold paginate_query. intros (params & Hp & H)%bind_Ok.
  destruct (PaginationParams_Ok _ _ _ _ _ _ _ Hp) as (Hn & Hlim & Hf & Hb & <- & <- & <- & Hd).
  unfold paginate in H. apply bind_Ok in H as (q & Hq & H).
  rewrite Hlim in H. cbn [mbind result_bind] in H. injection H as <-.
  destruct (page_query_selected _ _ _ _ Hq) as (n & st & Hn' & Hst & Hv & Hk & Hdesc & Hl & Hsel).
  rewrite Hlim in Hn'. injection Hn' as <-.
  destruct (Hrun q st Hst Hv) as (l & Hperm & Hsort & ->).
  destruct (take_extra l (page_size first last) Hn) as [Hx Hrows].
  exists params, l. cbn zeta. split; [done|]. split.
  { rewrite Hperm. apply reflexive_eq, list_filter_iff. intros r. by rewrite Hsel. }
  split; [by rewrite <- Hk, <- Hdesc|].
  unfold build_page. cbn [edges info]. rewrite Hl, Hx, Hrows, Hf, Hb.
  split; [done|]. by destruct (is_some last).
Qed.
End database.

Lemma filter_all {A} (P : A → Prop) `{!∀ x, Decision (P x)} (l : list A) : (∀ x, x ∈ l → P x) → filter P l = l.
Proof.
  induction l as [|x l IH]; intros Hl; [done|]. rewrite filter_cons_True by (apply Hl; left).
  rewrite IH; [done|]. intros y Hy. apply Hl. by right.
Qed.

Lemma filter_none {A} (P : A → Prop) `{!∀ x, Decision (P x)} (l : list A) : (∀ x, x ∈ l → ¬ P x) → filter P l = [].
Proof.
  induction l as [|x l IH]; intros Hl; [done|]. rewrite filter_cons_False by (apply Hl; left).
  apply IH. intros y Hy. apply Hl. by right.
Qed.

(** ** A walk over all pages *)

Lemma NoDup_fmap_filter {A B} (f : A → B) (P : A → Prop) `{!∀ x, Decision (P x)} (l : list A) :
  NoDup (f <$> l) → NoDup (f <$> filter P l).
Proof.
  induction l as [|x l IH]; [done|]. rewrite filter_cons, fmap_cons. intros [Hx Hl]%NoDup_cons.
  case_decide; [|by apply IH]. rewrite fmap_cons. apply NoDup_cons. split; [|by apply IH].
  intros (y & E & [_ Hy]%list_elem_of_filter)%list_elem_of_fmap.
  apply Hx. rewrite E. by apply list_elem_of_fmap_2.
Qed.

(** A client asks for [n] rows from the start, or from the end when [backward]. *)
Definition ask (view_name : string) (run : composable * list pyval → list document)
    (count : composable * list pyval → Z) (backward : bool) (n : Z) (key dir : string)
    (filters : list (string * pyval)) (at_cursor : option string) : result page :=
  if backward
  then paginate_query run count view_name None None (Some n) at_cursor filters key dir false
  else paginate_query run count view_name (Some n) at_cursor None None filters key dir false.

Definition more (backward : bool) (p : page) : bool :=
  (if backward then has_previous_page else has_next_page) (info p).

Definition next_cursor (backward : bool) (p : page) : option string :=
  (if backward then start_cursor else end_cursor) (info p).

(** It goes on from the page's outer cursor as long as the page says there are more. *)
Fixpoint walk (view_name : string) (run : composable * list pyval → list document)
    (count : composable * list pyval → Z) (backward : bool) (n : Z) (key dir : string)
    (filters : list (string * pyval)) (fuel : nat) (at_cursor : option string) : option (list document) :=
  match fuel with
  | O => None
  | S fuel =>
      match ask view_name run count backward n key dir filters at_cursor with
      | Err _ => None
      | Ok p =>
          if more backward p then
            rest ← walk view_name run count backward n key dir filters fuel (next_cursor backward p);
            Some (if backward then rest ++ nodes p else nodes p ++ rest)
          else Some (nodes p)
      end
  end.

(** Rows whose key is a text that is not empty. *)
Definition text_keyed (key : string) (row : document) : Prop :=
  ∃ k, Py.get key row = PStr k ∧ utf8 (String.list_ascii_of_string k) = true ∧ k ≠ "".

Lemma text_keyed_text key row k : Py.get key row = PStr k → key_text key row = Some k.
Proof. unfold key_text. by intros ->. Qed.

Lemma edges_of_text_keyed key l :
  Forall (text_keyed key) l →
  flat_map (edge_of key) l
  = map (λ r, {| node := r; cursor := encode_cursor (Py.str (Py.get key r)) |}) l.
Proof.
  induction 1 as [|r l (k & Hk & _) _ IH]; [done|]. cbn [flat_map map]. rewrite IH.
  unfold edge_of. by rewrite Hk.
Qed.

Lemma encode_cursor_nonempty k : k ≠ "" → encode_cursor k ≠ "".
Proof.
  destruct k as [|a k]; [done|]. intros _. unfold encode_cursor. cbn.
  by destruct (String.list_ascii_of_string k) as [|? [|? ?]].
Qed.

Lemma bounded_encoded down key k row :
  utf8 (String.list_ascii_of_string k) = true → k ≠ "" →
  bounded down key (Some (encode_cursor k)) row = beyond down key k row.
Proof.
  intros Hu Hk%encode_cursor_nonempty. unfold bounded.
  destruct (encode_cursor k) as [|a c] eqn:E; [done|]. rewrite <- E. by rewrite cursor_roundtrip.
Qed.

Lemma beyond_ordered down key k x y :
  key_text key x = Some k → key_text key y ≠ None →
  beyond down key k y = negb (bool_decide (ordered key down y x)).
Proof.
  intros Hx Hy. unfold beyond, above, below.
  destruct (key_text key y) as [ky|] eqn:Ey; [|done].
  destruct down; f_equal; apply bool_decide_ext; unfold ordered, row_le; by rewrite Hx, Ey.
Qed.

Lemma beyond_trans down key v k x y :
  key_text key x = Some k → beyond down key v x = true → beyond down key k y = true →
  beyond down key v y = true.
Proof.
  unfold beyond, above, below. intros Hx.
  destruct down; rewrite Hx; destruct (key_text key y) as [ky|]; try done;
    rewrite !negb_true_iff, !bool_decide_eq_false; intros H1 H2 H3;
    apply H2; [trans v; [|done]|trans v; [done|]];
    match goal with |- text_le ?a ?b => by destruct (total text_le a b) end.
Qed.

(** What lies past the last row of a page is the rest of the sorted rows. *)
Lemma filter_beyond down key k x l1 l2 :
  key_text key x = Some k → Forall (λ r, key_text key r ≠ None) (l1 ++ x :: l2) →
  StronglySorted (ordered key down) (l1 ++ x :: l2) → NoDup (key_text key <$> (l1 ++ x :: l2)) →
  filter (λ r, beyond down key k r = true) (l1 ++ x :: l2) = l2.
Proof.
  intros Hx Hkeys Hs Hnd. rewrite filter_app, filter_cons.
  rewrite decide_False.
  2:{ rewrite (beyond_ordered _ _ _ x) by (done || by rewrite Hx).
      rewrite bool_decide_true; [done|]. destruct (total (ordered key down) x x); done. }
  rewrite fmap_app in Hnd. apply NoDup_app in Hnd as (_ & _ & [Hnx Hnd]%NoDup_cons).
  apply Forall_app in Hkeys as [Hk1 [_ Hk2]%Forall_cons].
  replace (filter _ l1) with (@nil document).
  - cbn [app]. apply filter_all. intros z Hz.
    rewrite Forall_forall in Hk2.
    rewrite (beyond_ordered _ _ _ x) by (done || by apply Hk2).
    apply negb_true_iff, bool_decide_eq_false. intros Hzx. apply Hnx.
    assert (ordered key down x z) as Hxz.
    { apply StronglySorted_app_1_r in Hs. apply StronglySorted_inv in Hs as [_ Hs].
      by apply (proj1 (Forall_forall _ _) Hs). }
    rewrite (ordered_anti _ _ _ _ Hxz Hzx). by apply list_elem_of_fmap_2.
  - symmetry. apply filter_none. intros y Hy. rewrite Forall_forall in Hk1.
    rewrite (beyond_ordered _ _ _ x) by (done || by apply Hk1).
    rewrite bool_decide_true; [done|]. apply (StronglySorted_app_1_elem_of _ _ _ _ _ Hs Hy). by left.
Qed.

(** A cursor the walk can be at. *)
Definition resumable (c : option string) : Prop :=
  c = None ∨ ∃ k, c = Some (encode_cursor k) ∧ utf8 (String.list_ascii_of_string k) = true ∧ k ≠ "".

Lemma cursor_clause_resumable params asc other c :
  resumable c → is_Ok (cursor_clause params asc other c).
Proof.
  intros [->|(k & -> & Hu & Hk%encode_cursor_nonempty)]; [by eexists|].
  unfold cursor_clause. destruct (encode_cursor k) eqn:E; [done|]. rewrite <- E, cursor_roundtrip by done.
  by eexists.
Qed.

Lemma page_query_resumable view_name params filters :
  resumable (after params) → resumable (before params) → is_Ok (page_limit params) →
  is_Ok (page_query view_name params filters).
Proof.
  intros Ha Hb [n Hn]. unfold page_query.
  destruct (cursor_clause_resumable params "{} > %s" "{} < %s" _ Ha) as [l1 ->].
  destruct (cursor_clause_resumable params "{} < %s" "{} > %s" _ Hb) as [l2 ->].
  rewrite Hn. by eexists.
Qed.

Section walk.
Context {view_name : string} {rows : list document} {run : composable * list pyval → list document}.
Context (Hrun : answers view_name rows run).
Context {count : composable * list pyval → Z} {backward : bool} {n : Z} {key dir : string}.
Context {filters : list (string * pyval)}.
Context (Hn : 0 < n) (Hdir : Str.upper dir ∈ ["ASC"; "DESC"]).
Context (Hrows : Forall (text_keyed key) rows) (Hnd : NoDup (key_text key <$> rows)).

Let down : bool := xorb backward (Str.upper dir =s "DESC").

Lemma ask_Ok c : resumable c → ∃ p, ask view_name run count backward n key dir filters c = Ok p.
Proof.
  intros Hc. unfold ask, paginate_query, PaginationParams.
  destruct backward; cbn [is_some negative andb negb];
    rewrite (proj2 (Z.ltb_ge n 0)) by lia; cbn [mbind result_bind];
    unfold paginate; (edestruct page_query_resumable as [q ->];
      [done || by left|done || by left|by eexists|by eexists]).
Qed.

Lemma asked_params c params :
  (if backward then PaginationParams None None (Some n) c key dir
   else PaginationParams (Some n) c None None key dir) = Ok params →
  descending params = down
  ∧ ∀ r, in_range params filters r = passes filters r && bounded down key c r.
Proof.
  unfold descending, in_range, down.
  pose proof Hdir as Hd. rewrite elem_of_cons, list_elem_of_singleton in Hd.
  destruct backward; intros (_ & _ & _ & -> & -> & -> & -> & ->)%PaginationParams_Ok;
    destruct Hd as [-> | ->]; by split; [|intros r; cbn; rewrite ?andb_true_r].
Qed.

(** The rows that are left at a cursor. *)
Definition remaining (c : option string) : list document :=
  filter (λ r, passes filters r && bounded down key c r = true) rows.

Lemma remaining_keyed c l :
  l ≡ₚ remaining c → Forall (text_keyed key) l ∧ NoDup (key_text key <$> l).
Proof.
  intros ->. unfold remaining. split.
  - rewrite Forall_forall in *. intros r [_ Hr]%list_elem_of_filter. by apply Hrows.
  - by apply NoDup_fmap_filter.
Qed.

Lemma keyed_key_text l : Forall (text_keyed key) l → Forall (λ r, key_text key r ≠ None) l.
Proof. intros Hl. apply (Forall_impl _ _ _ Hl). intros r (k & Hk & _). by rewrite (text_keyed_text _ _ _ Hk). Qed.

(** Sorted rows with keys of their own are in one order. *)
Lemma sorted_unique c l1 l2 :
  l1 ≡ₚ remaining c → l2 ≡ₚ remaining c →
  StronglySorted (ordered key down) l1 → Sorted (ordered key down) l2 → l1 = l2.
Proof.
  intros H1 H2 Hs1 Hs2%Sorted_StronglySorted; [|apply _].
  assert (l1 ≡ₚ l2) as H12 by by rewrite H1, H2.
  apply (StronglySorted_unique_strong (ordered key down)); try done.
  intros x y Hx Hy Hxy Hyx. rewrite <- H12 in Hy.
  pose proof (ordered_anti _ _ _ _ Hxy Hyx) as E.
  destruct (remaining_keyed _ _ H1) as [_ Hl].
  apply list_elem_of_lookup in Hx as [i Hi], Hy as [j Hj].
  assert (i = j) as <-; [|congruence].
  eapply (NoDup_lookup _ _ _ (key_text key x) Hl); rewrite list_lookup_fmap; [by rewrite Hi|].
  rewrite Hj, E. done.
Qed.

Definition cursor_of (r : document) : string := encode_cursor (Py.str (Py.get key r)).

Lemma ask_spec c l :
  resumable c → StronglySorted (ordered key down) l → l ≡ₚ remaining c →
  ∃ p, ask view_name run count backward n key dir filters c = Ok p
    ∧ nodes p = oriented backward (take (Z.to_nat n) l)
    ∧ more backward p = (n <? Z.of_nat (length l))
    ∧ next_cursor backward p = cursor_of <$> list.last (take (Z.to_nat n) l).
Proof.
  intros Hc Hs Hl. destruct (ask_Ok c Hc) as [p Hp]. exists p. split; [done|].
  assert (∃ params l',
    (if backward then PaginationParams None None (Some n) c key dir
     else PaginationParams (Some n) c None None key dir) = Ok params
    ∧ l' ≡ₚ filter (λ r, in_range params filters r = true) rows
    ∧ Sorted (ordered key (descending params)) l'
    ∧ edges p = flat_map (edge_of key) (oriented backward (take (Z.to_nat n) l'))
    ∧ more backward p = (n <? Z.of_nat (length l'))
    ∧ next_cursor backward p = cursor <$> (if backward then head (edges p) else list.last (edges p)))
    as (params & l' & Hpar & Hperm & Hsort & He & Hm & Hnext).
  { unfold ask in Hp. unfold more, next_cursor.
    clear Hl Hs. clear down. destruct backward; apply (page_spec Hrun) in Hp as (params & l' & ? & ? & ? & ? & ->); by exists params, l'. }
  destruct (asked_params _ _ Hpar) as [Hd Hin].
  assert (l = l') as <-.
  { apply (sorted_unique c); [done| |done|by rewrite <- Hd].
    rewrite Hperm. apply reflexive_eq, list_filter_iff. intros r. by rewrite Hin. }
  assert (Forall (text_keyed key) (oriented backward (take (Z.to_nat n) l))) as Hk.
  { destruct (remaining_keyed _ _ Hl) as [Hk _]. apply (Forall_take _ (Z.to_nat n)) in Hk.
    unfold oriented. case backward; [by apply Forall_reverse|done]. }
  rewrite edges_of_text_keyed in He by done.
  unfold nodes. rewrite He. split; [|split; [done|]].
  - rewrite <- list_fmap_compose. by rewrite list_fmap_id.
  - rewrite Hnext, He. unfold oriented. case backward.
    + change (map ?f ?l) with (f <$> l). by rewrite fmap_reverse, head_reverse, fmap_last, <- option_fmap_compose.
    + change (map ?f ?l) with (f <$> l). by rewrite fmap_last, <- option_fmap_compose.
Qed.

(** After a full page the rest of the rows is what is left at its cursor. *)
Lemma remaining_after c l1 x l2 :
  resumable c → StronglySorted (ordered key down) (l1 ++ x :: l2) → l1 ++ x :: l2 ≡ₚ remaining c →
  resumable (Some (cursor_of x)) ∧ l2 ≡ₚ remaining (Some (cursor_of x)).
Proof.
  intros Hc Hs Hl. destruct (remaining_keyed _ _ Hl) as [Hk Hnd'].
  assert (x ∈ l1 ++ x :: l2) as Hx by (apply elem_of_app; right; left).
  destruct (proj1 (Forall_forall _ _) Hk x Hx) as (k & Hxk & Hu & Hne).
  assert (cursor_of x = encode_cursor k) as -> by (unfold cursor_of; by rewrite Hxk).
  split; [by right; exists k|].
  assert (passes filters x && bounded down key c x = true) as Hin.
  { rewrite Hl in Hx. by apply list_elem_of_filter in Hx as [? _]. }
  apply andb_true_iff in Hin as [_ Hin].
  rewrite <- (filter_beyond down key k x l1 l2) by
    (done || by apply text_keyed_text || by apply keyed_key_text).
  rewrite Hl. unfold remaining. apply reflexive_eq. rewrite list_filter_filter.
  apply list_filter_iff. intros y. rewrite bounded_encoded by done.
  rewrite !andb_true_iff. split; [by intros (? & ? & ?)|]. intros [Hy1 Hy2]. split; [done|]. split; [done|].
  destruct Hc as [->|(v & -> & Hv & Hv0)]; [done|].
  rewrite bounded_encoded in * by done. eapply beyond_trans; [|done|done]. by apply text_keyed_text.
Qed.

Lemma walk_from fuel : ∀ l c,
  resumable c → StronglySorted (ordered key down) l → l ≡ₚ remaining c → (length l < fuel)%nat →
  walk view_name run count backward n key dir filters fuel c = Some (oriented backward l).
Proof.
  induction fuel as [|fuel IH]; intros l c Hc Hs Hl Hfuel; [lia|]. cbn [walk].
  destruct (ask_spec c l Hc Hs Hl) as (p & -> & Hnodes & -> & ->). rewrite Hnodes.
  destruct (Z.ltb_spec n (Z.of_nat (length l))) as [Hlt|Hge]; [|by rewrite take_ge by lia].
  set (m := Z.to_nat n) in *.
  destruct (exists_last (l := take m l)) as (l1 & x & E).
  { intros E%(f_equal length). rewrite length_take in E. cbn in E. lia. }
  rewrite E, last_snoc. cbn [fmap option_fmap option_map].
  rewrite <- (take_drop m l), E in Hs, Hl. rewrite <- app_assoc in Hs, Hl. cbn [app] in Hs, Hl.
  destruct (remaining_after c l1 x (drop m l) Hc Hs Hl) as [Hc' Hl'].
  rewrite (IH (drop m l) (Some (cursor_of x))); [|done| |done|rewrite length_drop; lia].
  - cbn [mbind option_bind]. f_equal. transitivity (oriented backward (take m l ++ drop m l));
      [rewrite E|by rewrite take_drop].
    unfold oriented. case backward; [|done]. by rewrite (reverse_app (l1 ++ [x])).
  - apply StronglySorted_app_1_r in Hs. by apply StronglySorted_inv in Hs as [Hs _].
Qed.
End walk.

(** C11. A client that goes on from cursor to cursor gets every row the filters hold of
    exactly once and comes to an end.  For a page size above zero, a direction ASC or
    DESC and rows whose keys are texts, not empty and all different: one list holds
    exactly the selected rows in the order of the direction, and both the walk forwards
    by [first] and [after] and the walk backwards by [last] and [before] return that
    list, in at most one page more than there are rows. *)
Theorem walk_gets_every_row_once view_name rows run count n key dir filters :
  answers view_name rows run → 0 < n → Str.upper dir ∈ ["ASC"; "DESC"] →
  Forall (text_keyed key) rows → NoDup (key_text key <$> rows) →
  ∃ l,
    l ≡ₚ filter (λ r, passes filters r = true) rows
    ∧ Sorted (ordered key (Str.upper dir =s "DESC")) l
    ∧ ∀ backward fuel, (length rows < fuel)%nat →
        walk view_name run count backward n key dir filters fuel None = Some l.
Proof.
  intros Hrun Hn Hdir Hrows Hnd.
  set (desc := Str.upper dir =s "DESC").
  set (l := merge_sort (ordered key desc) (filter (λ r, passes filters r = true) rows)).
  assert (l ≡ₚ filter (λ r, passes filters r = true) rows) as Hl by apply merge_sort_Permutation.
  assert (StronglySorted (ordered key desc) l) as Hs by (apply (StronglySorted_merge_sort _)).
  exists l. split; [done|]. split; [by apply StronglySorted_Sorted|].
  intros backward fuel Hfuel.
  transitivity (Some (oriented backward (oriented backward l)));
    [|f_equal; unfold oriented; case backward; [by rewrite reverse_involutive|done]].
  apply (walk_from Hrun Hn Hdir Hrows Hnd); [by left| | |].
  - destruct backward; [|done]. unfold oriented. fold desc. apply (Sorted_StronglySorted _).
    apply StronglySorted_Sorted, Sorted_reverse in Hs.
    by destruct desc.
  - transitivity l; [unfold oriented; case backward; [apply reverse_Permutation|done]|].
    rewrite Hl. unfold remaining. apply reflexive_eq, list_filter_iff. intros r. cbn. by rewrite andb_true_r.
  - eapply Nat.le_lt_trans; [|exact Hfuel]. transitivity (length l);
      [unfold oriented; case backward; rewrite ?length_reverse; done|]. rewrite Hl. apply length_filter.
Qed.
(** What the rows of a page are: no more than asked for, all of the view and in range,
    and before every row in range that the page leaves out. *)

(** A page of rows with keys: at most as many as asked for, each a row of the view
    that the filters and both cursors let through, and each before, in the order of the
    page's statement, every such row that is not on the page.  The flag of the page's
    own direction tells whether rows were left out. *)
Theorem page_holds_first_rows_in_range view_name rows run count first after last before filters key dir total p :
  answers view_name rows run → Forall (λ r, has_key key r = true) rows →
  paginate_query run count view_name first after last before filters key dir total = Ok p →
  ∃ params,
    PaginationParams first after last before key dir = Ok params
    ∧ let selected := filter (λ r, in_range params filters r = true) rows in
      let n := page_size first last in
      Z.of_nat (length (nodes p)) = Z.min n (Z.of_nat (length selected))
      ∧ (∀ r, r ∈ nodes p → r ∈ selected)
      ∧ (∀ r, r ∈ selected →
          r ∈ nodes p ∨ ∀ r', r' ∈ nodes p → ordered key (descending params) r' r)
      ∧ (if is_some last then has_previous_page else has_next_page) (info p)
        = (n <? Z.of_nat (length selected)).
Proof.
  intros Hrun Hkeys Hp. destruct (page_spec Hrun _ _ _ _ _ _ _ _ _ _ Hp) as (params & l & Hpar & Hl & Hs & He & Hi).
  destruct (PaginationParams_Ok _ _ _ _ _ _ _ Hpar) as (Hn & _).
  exists params. split; [done|]. cbn zeta.
  set (m := Z.to_nat (page_size first last)) in *.
  assert (nodes p ≡ₚ take m l) as Hnodes.
  { unfold nodes. rewrite He, nodes_of, filter_all.
    - unfold oriented. case_match; [apply reverse_Permutation|done].
    - intros r Hr. rewrite Forall_forall in Hkeys. apply Hkeys.
      assert (r ∈ take m l) as Hr' by (revert Hr; unfold oriented; case_match; by rewrite ?elem_of_reverse).
      apply elem_of_take in Hr' as (i & Hr' & _). apply list_elem_of_lookup_2 in Hr'.
      rewrite Hl in Hr'. by apply list_elem_of_filter in Hr' as [_ ?]. }
  rewrite <- Hl. split; [rewrite Hnodes, length_take; lia|]. split; [|split].
  - intros r. rewrite Hnodes, <- Hl. intros (i & Hr & _)%elem_of_take. by apply list_elem_of_lookup_2 in Hr.
  - intros r. rewrite <- Hl. setoid_rewrite Hnodes. rewrite <- (take_drop m l) at 1.
    intros [Hr|Hr]%elem_of_app; [by left|right]. intros r' Hr'.
    apply Sorted_StronglySorted in Hs; [|apply _]. rewrite <- (take_drop m l) in Hs.
    by apply (StronglySorted_app_1_elem_of _ _ _ _ _ Hs).
  - rewrite Hi. by case_match.
Qed.
End store.

(** ** A database that answers *)

(** Texts in the order of their bytes. *)
#[export] Instance bytes_order : Collation := {| text_le := String.le |}.

Definition reference_run (rows : list document) (q : composable * list pyval) : list document :=
  match read_statement q with
  | Some st =>
      take (Z.to_nat (limit st))
        (merge_sort (ordered (key st) (desc st)) (filter (λ r, selected st r = true) rows))
  | None => []
  end.

Lemma reference_answers view_name rows : answers view_name rows (reference_run rows).
Proof.
  intros q st Hq _. exists (merge_sort (ordered (key st) (desc st)) (filter (λ r, selected st r = true) rows)).
  split; [apply merge_sort_Permutation|]. split; [apply (Sorted_merge_sort _)|].
  unfold reference_run. by rewrite Hq.
Qed.

Definition users : list document :=
  [[("id", PStr "c"); ("team", PStr "x")]; [("id", PStr "a"); ("team", PStr "x")];
   [("id", PStr "d"); ("team", PStr "y")]; [("id", PStr "b"); ("team", PStr "x")]].

Lemma users_keyed : Forall (text_keyed "id") users.
Proof. repeat constructor; eexists; (split; [reflexivity|]; by split; [vm_compute|]). Qed.

Lemma walk_gets_every_row_once_witness :
  ∃ l,
    l ≡ₚ filter (λ r, passes [("team", PStr "x")] r = true) users
    ∧ Sorted (ordered "id" true) l
    ∧ ∀ backward fuel, (length users < fuel)%nat →
        walk "v_user" (reference_run users) (λ _, 0) backward 2 "id" "desc" [("team", PStr "x")] fuel None
        = Some l.
Proof.
  apply (walk_gets_every_row_once "v_user" users (reference_run users) (λ _, 0) 2 "id" "desc"
           [("team", PStr "x")]).
  - apply reference_answers.
  - lia.
  - vm_compute. right. left.
  - exact users_keyed.
  - apply (bool_decide_unpack _). by vm_compute.
Defined.

Lemma page_holds_first_rows_in_range_witness :
  ∃ p params,
    paginate_query (reference_run users) (λ _, 0) "v_user" (Some 2) (Some (encode_cursor "a")) None None
      [] "id" "ASC" false = Ok p
    ∧ PaginationParams (Some 2) (Some (encode_cursor "a")) None None "id" "ASC" = Ok params
    ∧ nodes p = [[("id", PStr "b"); ("team", PStr "x")]; [("id", PStr "c"); ("team", PStr "x")]]
    ∧ has_next_page (info p) = (2 <? Z.of_nat (length (filter (λ r, in_range params [] r = true) users))).
Proof.
  eexists. edestruct (page_holds_first_rows_in_range "v_user" users (reference_run users) (λ _, 0)
    (Some 2) (Some (encode_cursor "a")) None None [] "id" "ASC" false) as (params & Hp & _ & _ & _ & Hflag).
  - apply reference_answers.
  - repeat constructor.
  - vm_compute. reflexivity.
  - exists params. split; [vm_compute; reflexivity|]. split; [exact Hp|]. split; [vm_compute; reflexivity|].
    exact Hflag.
Defined.

(** ** Where a walk goes wrong *)

Lemma walk_stuck rows n key dir p fuel :
  ask "v" (reference_run rows) (λ _, 0) false n key dir [] None = Ok p →
  more false p = true → next_cursor false p = None →
  walk "v" (reference_run rows) (λ _, 0) false n key dir [] fuel None = None.
Proof.
  intros Hp Hm Hc. induction fuel as [|fuel IH]; [done|]. cbn [walk]. by rewrite Hp, Hm, Hc, IH.
Qed.

(** Rows without the key come first under DESC: a page of them says there are more and
    has no cursor to go on from. *)
Example null_keys_stop_the_walk fuel :
  walk "v" (reference_run [[("id", PStr "a")]; [("id", PNone)]]) (λ _, 0) false 1 "id" "DESC" [] fuel None = None.
Proof. eapply walk_stuck; by vm_compute. Qed.

(** The cursor of an empty key is the empty text, which counts as no cursor. *)
Example empty_key_repeats_the_page :
  (λ p, (nodes p, more false p, next_cursor false p))
    <$> ask "v" (reference_run [[("id", PStr "a")]; [("id", PStr "")]]) (λ _, 0) false 1 "id" "ASC" [] (Some "")
  = Ok ([[("id", PStr "")]], true, Some "").
Proof. by vm_compute. Qed.

(** Another direction orders upwards and bounds downwards: the second page is empty. *)
Example other_directions_lose_rows :
  walk "v" (reference_run [[("id", PStr "a")]; [("id", PStr "b")]]) (λ _, 0) false 1 "id" "ascending" [] 9 None
  = Some [[("id", PStr "a")]].
Proof. by vm_compute. Qed.

(** A filter by a boolean or by [None] compares the text JSON gives with Python's:
    of the rows whose value is that very boolean or null it lets none through. *)
Theorem boolean_filters_match_no_row `{Hcoll : Collation} key v row :
  v = PNone ∨ (∃ b, v = PBool b) → Py.get key row = v → passes [(key, v)] row = false.
Proof.
  intros [-> | [[] ->]] Hrow; unfold passes, filter_clause; cbn; unfold key_text; by rewrite Hrow.
Qed.

Lemma boolean_filters_match_no_row_witness : passes [("active", PBool true)] [("active", PBool true)] = false.
Proof. apply boolean_filters_match_no_row; [right; by exists true|reflexivity]. Defined.
