(* ===== verification/QueryLimits.v ===== *)
(** * Query depth and complexity limits ([gql/query_limits.py])

    [_Measurer] walks a parsed document against a schema with a table of the fragments
    measured so far and the set of those being measured; [QueryLimits.check] refuses a
    document above a limit.  The parser and the schema are graphql-core's: the parser
    is a parameter, and a schema is the lookups the walk makes in it. *)
From stdpp Require Import base decidable strings list.
From Stdlib Require Import ZArith Lia Ascii.
From S2P Require Import Prelude PyVal.

Local Open Scope py_scope.
Local Open Scope Z_scope.

(** ** Documents *)

(** The argument nodes the walk tells apart; the text of an integer is its number. *)
Inductive argument_node := IntValueNode (value : Z) | VariableNode (name : string) | OtherValueNode.

Inductive selection :=
| FieldNode (alias : option string) (name : string) (arguments : list (string * argument_node))
    (selection_set : option (list selection))
| InlineFragmentNode (type_condition : option string) (selection_set : list selection)
| FragmentSpreadNode (name : string).

Record fragment := { type_condition : string; fragment_selections : list selection }.

Inductive operation_type := Query | Mutation | Subscription.

(** [variable_definitions] are the names with their defaults. *)
Record operation := {
  op_name : option string;
  op_type : operation_type;
  variable_definitions : list (string * option pyval);
  op_selections : list selection
}.

Inductive definition :=
| FragmentDefinitionNode (name : string) (f : fragment)
| OperationDefinitionNode (o : operation)
| OtherDefinitionNode.

(** ** Schemas *)

(** [base_type] is the name of [get_named_type(field.type)], [is_list] is
    [is_list_type(get_nullable_type(field.type))], and [args] the arguments with their
    defaults. *)
Record field_def := { base_type : string; is_list : bool; args : list (string * pyval) }.

(** [fields] of an object or interface type, [None] of any other. *)
Record named_type := { type_name : string; fields : option (list (string * field_def)) }.

Record schema := {
  get_type : string → option named_type;
  query_type : option named_type;
  mutation_type : option named_type;
  subscription_type : option named_type
}.

Definition _root_type (s : schema) (o : operation_type) : option named_type :=
  match o with
  | Mutation => mutation_type s
  | Subscription => subscription_type s
  | Query => query_type s
  end.

(** ** Settings *)

Record config := {
  max_query_depth : option Z;
  complexity_enabled : bool;
  complexity_max_score : Z;
  complexity_max_depth : Z;
  complexity_default_list_size : Z;
  complexity_field_multipliers : list (string * Z)
}.

Record limits := {
  max_depth : option Z;
  max_complexity : option Z;
  default_list_size : Z;
  field_multipliers : list (string * Z)
}.

(** [QueryLimits.from_config] *)
Definition from_config (c : config) : option limits :=
  let depths := match max_query_depth c with Some d => [d] | None => [] end in
  let depths := if complexity_enabled c then depths ++ [complexity_max_depth c] else depths in
  let max_complexity := if complexity_enabled c then Some (complexity_max_score c) else None in
  match depths, max_complexity with
  | [], None => None
  | _, _ =>
      Some {| max_depth := match depths with [] => None | d :: ds => Some (foldl Z.min d ds) end;
              max_complexity := max_complexity;
              default_list_size := complexity_default_list_size c;
              field_multipliers := complexity_field_multipliers c |}
  end.

(** ** The walk *)

(** Depth and complexity. *)
Definition cost : Type := Z * Z.

Record state := { _fragment_costs : list (string * cost); _visiting : list string }.

(** A step of the walk; [None] when the fuel for nested fragments is used up. *)
Definition walk (A : Type) : Type := state → option (A * state).

Definition ret {A} (a : A) : walk A := λ st, Some (a, st).
Definition bind {A B} (m : walk A) (f : A → walk B) : walk B :=
  λ st, match m st with Some (a, st') => f a st' | None => None end.

Local Notation "x <- m ;; k" := (bind m (λ x, k)) (at level 60, m at level 59, right associativity).

(** A loop that takes the deepest and combines the complexities: adding them up in a
    selection set, taking the highest among operations. *)
Fixpoint total {A} (op : Z → Z → Z) (f : A → walk cost) (acc : cost) (l : list A) : walk cost :=
  match l with
  | [] => ret acc
  | x :: l' => c <- f x;; total op f (Z.max acc.1 c.1, op acc.2 c.2) l'
  end.

Definition _INTROSPECTION_FIELDS : list string := ["__schema"; "__type"].

(** Fields that are not counted. *)
Definition uncounted (name : string) : bool :=
  (name in_ _INTROSPECTION_FIELDS) || (name =s "__typename").

Definition _LIST_SIZE_ARGUMENTS : list string := ["limit"; "first"].

Section measurer.
Context (s : schema) (fragments : list (string * fragment)) (variables : list (string * pyval)).
Context (default_list_size : Z) (field_multipliers : list (string * Z)).

Definition field_def_of (parent : option named_type) (name : string) : option field_def :=
  t ← parent; fs ← fields t; dict_get name fs.

Definition multiplier_of (parent : option named_type) (name : string) : Z :=
  let multiplier :=
    match parent with
    | Some t => default 1 (dict_get (type_name t +:+ "." +:+ name)%stdpp field_multipliers)
    | None => 1
    end in
  default multiplier (dict_get name field_multipliers).

(** The size an argument gives, when it gives one. *)
Definition argument_size (arguments : list (string * argument_node)) (f : field_def) (name : string)
    : option Z :=
  let size := match dict_get name arguments with
              | Some (IntValueNode n) => PInt n
              | Some (VariableNode v) => Py.get v variables
              | Some OtherValueNode => PNone
              | None => Py.get name (args f)
              end in
  match size with PInt n => if 0 <=? n then Some n else None | _ => None end.

Fixpoint first_size (arguments : list (string * argument_node)) (f : field_def) (names : list string) : Z :=
  match names with
  | [] => default_list_size
  | name :: names => match argument_size arguments f name with
                     | Some n => n
                     | None => first_size arguments f names
                     end
  end.

(** The arguments as a dictionary: the last of a name counts. *)
Definition argument_dict (arguments : list (string * argument_node)) : list (string * argument_node) :=
  foldl (λ d a, dict_set a.1 a.2 d) [] arguments.

Definition _list_size (arguments : list (string * argument_node)) (f : field_def) : Z :=
  first_size (argument_dict arguments) f _LIST_SIZE_ARGUMENTS.

(** How often a field's selections are counted. *)
Definition size_of (f : option field_def) (arguments : list (string * argument_node)) : Z :=
  match f with
  | Some f => if is_list f then _list_size arguments f else 1
  | None => 1
  end.

Definition child_type (f : option field_def) : option named_type :=
  f ← f; get_type s (base_type f).

Definition fragment_type (parent : option named_type) (condition : option string) : option named_type :=
  match condition with Some c => get_type s c | None => parent end.

(** One selection; [spread] measures a fragment by its name. *)
Fixpoint measure_selection (spread : string → walk cost) (parent : option named_type) (sel : selection)
    : walk cost :=
  match sel with
  | FieldNode _ name arguments selections =>
      if uncounted name then ret (0, 0)
      else
        let f := field_def_of parent name in
        let multiplier := multiplier_of parent name in
        match selections with
        | None => ret (0, multiplier)
        | Some sels =>
            c <- total Z.add (measure_selection spread (child_type f)) (0, 0) sels;;
            ret (c.1 + 1, multiplier + size_of f arguments * c.2)
        end
  | InlineFragmentNode condition sels =>
      total Z.add (measure_selection spread (fragment_type parent condition)) (0, 0) sels
  | FragmentSpreadNode name => spread name
  end.

Definition selection_set (spread : string → walk cost) (parent : option named_type)
    (sels : list selection) : walk cost :=
  total Z.add (measure_selection spread parent) (0, 0) sels.

Definition visit (name : string) : walk () :=
  λ st, Some ((), {| _fragment_costs := _fragment_costs st; _visiting := name :: _visiting st |}).

Definition leave (name : string) : walk () :=
  λ st, Some ((), {| _fragment_costs := _fragment_costs st;
                     _visiting := filter (λ n, n ≠ name) (_visiting st) |}).

Definition remember (name : string) (c : cost) : walk () :=
  λ st, Some ((), {| _fragment_costs := dict_set name c (_fragment_costs st);
                     _visiting := _visiting st |}).

Definition get : walk state := λ st, Some (st, st).

Fixpoint _fragment (fuel : nat) (name : string) : walk cost :=
  match fuel with
  | O => λ _, None
  | S fuel =>
      st <- get;;
      match dict_get name (_fragment_costs st) with
      | Some c => ret c
      | None =>
          match dict_get name fragments with
          | None => ret (0, 0)
          | Some f =>
              if name in_ _visiting st then ret (0, 0)
              else
                _ <- visit name;;
                c <- selection_set (_fragment fuel) (get_type s (type_condition f)) (fragment_selections f);;
                _ <- leave name;;
                _ <- remember name c;;
                ret c
          end
      end
  end.

(** Every operation with one measurer; more nested fragments than there are cannot be
    visited at once. *)
Definition operations_cost (operations : list operation) : option cost :=
  fst <$> total Z.max (λ o, selection_set (_fragment (S (length fragments))) (_root_type s (op_type o))
                        (op_selections o))
            (0, 0) operations {| _fragment_costs := []; _visiting := [] |}.
End measurer.

(** ** A request *)

Definition fragments_of (document : list definition) : list (string * fragment) :=
  foldl (λ d x, match x with FragmentDefinitionNode name f => dict_set name f d | _ => d end) [] document.

Definition operations_of (document : list definition) (operation_name : option string) : list operation :=
  let operations := omap (λ x, match x with OperationDefinitionNode o => Some o | _ => None end) document in
  match operation_name with
  | Some (String _ _ as n) => filter (λ o, op_name o = Some n) operations
  | _ => operations
  end.

(** [QueryLimits.measure] of a document: [Ok None] when there is nothing to measure. *)
Definition measure (l : limits) (s : schema) (document : option (list definition))
    (operation_name : option string) (variables : list (string * pyval)) : option (option cost) :=
  match document with
  | None => Some None
  | Some d =>
      match operations_of d operation_name with
      | [] => Some None
      | operations =>
          Some <$> operations_cost s (fragments_of d) variables (default_list_size l) (field_multipliers l)
                     operations
      end
  end.

Definition _error_response (message : string) (extensions : list (string * pyval)) : pyval :=
  PDict [("errors", PList [PDict [("message", PStr message); ("extensions", PDict extensions)]])].

Definition exceeds (value : Z) (limit : option Z) : option Z :=
  match limit with Some n => if n <? value then Some n else None | None => None end.

(** [QueryLimits.check]; the log of the refusal is left out. *)
Definition check (parse : string → option (list definition)) (l : limits) (s : schema) (query : string)
    (operation_name : option string) (variables : list (string * pyval)) : option (option pyval) :=
  cost ← measure l s (parse query) operation_name variables;
  Some match cost with
       | None => None
       | Some (depth, complexity) =>
           match exceeds depth (max_depth l), exceeds complexity (max_complexity l) with
           | Some limit, _ =>
               Some (_error_response
                 ("Query depth " +:+ Num.string_of_Z depth +:+ " exceeds the maximum depth of "
                  +:+ Num.string_of_Z limit)%stdpp
                 [("code", PStr "QUERY_TOO_DEEP"); ("depth", PInt depth); ("maxDepth", PInt limit)])
           | None, Some limit =>
               Some (_error_response
                 ("Query complexity " +:+ Num.string_of_Z complexity
                  +:+ " exceeds the maximum complexity of " +:+ Num.string_of_Z limit)%stdpp
                 [("code", PStr "QUERY_TOO_COMPLEX"); ("complexity", PInt complexity);
                  ("maxComplexity", PInt limit)])
           | None, None => None
           end
       end.
