(* ===== verification/QueryLaws.v ===== *)
(** * Laws of the query limits

    The walk always ends; on a document whose fragments have no cycle it gives the cost
    of the document with the fragments written out, however often and in whatever order
    they are used; and that cost bounds the size and the depth of every response. *)
From stdpp Require Import base decidable strings list.
From Stdlib Require Import ZArith Lia Ascii.
From S2P Require Import Prelude PyVal QueryLimits.

Local Open Scope py_scope.
Local Open Scope Z_scope.

#[local] Arguments uncounted : simpl never.

(** ** Selections *)

Section selection_ind.
Context (P : selection → Prop).
Context (Hleaf : ∀ alias name args, P (FieldNode alias name args None)).
Context (Hfield : ∀ alias name args sels, Forall P sels → P (FieldNode alias name args (Some sels))).
Context (Hinline : ∀ condition sels, Forall P sels → P (InlineFragmentNode condition sels)).
Context (Hspread : ∀ name, P (FragmentSpreadNode name)).

Fixpoint selection_nested_ind (sel : selection) : P sel :=
  let all := fix all (l : list selection) : Forall P l :=
    match l with
    | [] => List.Forall_nil P
    | x :: l' => List.Forall_cons P x l' (selection_nested_ind x) (all l')
    end in
  match sel with
  | FieldNode alias name args None => Hleaf alias name args
  | FieldNode alias name args (Some sels) => Hfield alias name args sels (all sels)
  | InlineFragmentNode condition sels => Hinline condition sels (all sels)
  | FragmentSpreadNode name => Hspread name
  end.
End selection_ind.

(** The fragments a selection uses. *)
Fixpoint spreads (sel : selection) : list string :=
  match sel with
  | FieldNode _ _ _ None => []
  | FieldNode _ _ _ (Some sels) => flat_map spreads sels
  | InlineFragmentNode _ sels => flat_map spreads sels
  | FragmentSpreadNode name => [name]
  end.

Lemma spreads_of_member sels sel name :
  sel ∈ sels → name ∈ spreads sel → name ∈ flat_map spreads sels.
Proof.
  rewrite !list_elem_of_In. intros H1 H2. apply in_flat_map. by exists sel.
Qed.

(** ** Costs without a state *)
Definition pure_total {A} (op : Z → Z → Z) (f : A → cost) (acc : cost) (l : list A) : cost :=
  foldl (λ acc x, (Z.max acc.1 (f x).1, op acc.2 (f x).2)) acc l.

Section laws.
Context (s : schema) (fragments : list (string * fragment)) (variables : list (string * pyval)).
Context (default_list_size : Z) (field_multipliers : list (string * Z)).

Notation multiplier_of := (multiplier_of field_multipliers).
Notation size_of := (size_of variables default_list_size).
Notation child_type := (child_type s).
Notation fragment_type := (fragment_type s).
Notation measure_selection := (measure_selection s variables default_list_size field_multipliers).
Notation selection_set := (selection_set s variables default_list_size field_multipliers).
Notation _fragment := (_fragment s fragments variables default_list_size field_multipliers).

(** The cost of a selection where a fragment costs what [g] says. *)
Fixpoint cost_with (g : string → cost) (parent : option named_type) (sel : selection) : cost :=
  match sel with
  | FieldNode _ name arguments selections =>
      if uncounted name then (0, 0)
      else
        let f := field_def_of parent name in
        match selections with
        | None => (0, multiplier_of parent name)
        | Some sels =>
            let c := pure_total Z.add (cost_with g (child_type f)) (0, 0) sels in
            (c.1 + 1, multiplier_of parent name + size_of f arguments * c.2)
        end
  | InlineFragmentNode condition sels => pure_total Z.add (cost_with g (fragment_type parent condition)) (0, 0) sels
  | FragmentSpreadNode name => g name
  end.

(** ** Steps that keep an invariant *)

Definition runs (I : state → Prop) (m : walk cost) (Q : cost → Prop) : Prop :=
  ∀ st, I st → ∃ c st', m st = Some (c, st') ∧ I st' ∧ Q c.

Lemma runs_ret (I : state → Prop) c (Q : cost → Prop) : Q c → runs I (ret c) Q.
Proof. intros Hc st Hst. by exists c, st. Qed.

Lemma runs_bind (I : state → Prop) m k (Q R : cost → Prop) :
  runs I m Q → (∀ c, Q c → runs I (k c) R) → runs I (bind m k) R.
Proof.
  intros Hm Hk st Hst. destruct (Hm st Hst) as (c & st1 & E & Hst1 & Hc).
  destruct (Hk c Hc st1 Hst1) as (d & st2 & E2 & ?). exists d, st2. unfold bind. by rewrite E.
Qed.

Lemma runs_weaken (I : state → Prop) m (Q R : cost → Prop) :
  runs I m Q → (∀ c, Q c → R c) → runs I m R.
Proof. intros Hm HR st Hst. destruct (Hm st Hst) as (c & st' & ? & ? & ?). exists c, st'. auto. Qed.

Lemma total_runs {A} (I : state → Prop) (f : A → walk cost) (op : Z → Z → Z) (l : list A) acc :
  (∀ x, x ∈ l → runs I (f x) (λ _, True)) → runs I (total op f acc l) (λ _, True).
Proof.
  revert acc. induction l as [|x l IH]; intros acc Hf; cbn; [by apply runs_ret|].
  eapply runs_bind; [apply Hf; left|]. intros c _. apply IH. intros y Hy. apply Hf. by right.
Qed.

Lemma total_runs_eq {A} (I : state → Prop) (f : A → walk cost) (g : A → cost) (op : Z → Z → Z) (l : list A) acc :
  (∀ x, x ∈ l → runs I (f x) (λ c, c = g x)) → runs I (total op f acc l) (λ c, c = pure_total op g acc l).
Proof.
  revert acc. induction l as [|x l IH]; intros acc Hf; cbn; [by apply runs_ret|].
  eapply runs_bind; [apply Hf; left|]. intros c ->. apply IH. intros y Hy. apply Hf. by right.
Qed.

Lemma measure_selection_runs (I : state → Prop) spread sel :
  (∀ name, name ∈ spreads sel → runs I (spread name) (λ _, True)) →
  ∀ parent, runs I (measure_selection spread parent sel) (λ _, True).
Proof.
  induction sel as [alias name args|alias name args sels IH|condition sels IH|name]
    using selection_nested_ind; intros Hs parent; cbn; try rewrite Forall_forall in IH.
  - case_match; by apply runs_ret.
  - case_match; [by apply runs_ret|]. eapply runs_bind.
    + apply total_runs. intros x Hx. apply (IH x Hx). intros n Hn. apply Hs. by eapply spreads_of_member.
    + intros c _. by apply runs_ret.
  - apply total_runs. intros x Hx. apply (IH x Hx). intros n Hn. apply Hs. by eapply spreads_of_member.
  - apply Hs. by left.
Qed.

Lemma measure_selection_runs_eq (I : state → Prop) spread g sel :
  (∀ name, name ∈ spreads sel → runs I (spread name) (λ c, c = g name)) →
  ∀ parent, runs I (measure_selection spread parent sel) (λ c, c = cost_with g parent sel).
Proof.
  induction sel as [alias name args|alias name args sels IH|condition sels IH|name]
    using selection_nested_ind; intros Hs parent; cbn; try rewrite Forall_forall in IH.
  - case_match; by apply runs_ret.
  - case_match; [by apply runs_ret|]. eapply runs_bind.
    + apply total_runs_eq. intros x Hx. apply (IH x Hx). intros n Hn. apply Hs. by eapply spreads_of_member.
    + intros c ->. by apply runs_ret.
  - apply total_runs_eq. intros x Hx. apply (IH x Hx). intros n Hn. apply Hs. by eapply spreads_of_member.
  - apply Hs. by left.
Qed.

Lemma selection_set_runs (I : state → Prop) spread parent sels :
  (∀ name, name ∈ flat_map spreads sels → runs I (spread name) (λ _, True)) →
  runs I (selection_set spread parent sels) (λ _, True).
Proof.
  intros Hs. apply total_runs. intros x Hx. apply measure_selection_runs.
  intros n Hn. apply Hs. by eapply spreads_of_member.
Qed.

Lemma selection_set_runs_eq (I : state → Prop) spread g parent sels :
  (∀ name, name ∈ flat_map spreads sels → runs I (spread name) (λ c, c = g name)) →
  runs I (selection_set spread parent sels) (λ c, c = pure_total Z.add (cost_with g parent) (0, 0) sels).
Proof.
  intros Hs. apply total_runs_eq. intros x Hx. apply measure_selection_runs_eq.
  intros n Hn. apply Hs. by eapply spreads_of_member.
Qed.

(** ** The walk ends *)

Definition visiting (V : list string) : Prop := NoDup V ∧ V ⊆ dict_keys fragments.

Lemma visiting_length V : visiting V → (length V <= length fragments)%nat.
Proof.
  intros [Hnd Hsub]. rewrite <- (length_fmap fst fragments). fold (dict_keys fragments).
  apply NoDup_incl_length; [by apply NoDup_ListNoDup|].
  intros x Hx. apply list_elem_of_In, Hsub, list_elem_of_In, Hx.
Qed.

Lemma visiting_cons V name f :
  visiting V → dict_get name fragments = Some f → name ∉ V → visiting (name :: V).
Proof.
  intros [Hnd Hsub] Hf Hn. split; [by apply NoDup_cons|].
  intros x [->|Hx]%elem_of_cons; [|by apply Hsub].
  by apply (list_elem_of_fmap_2 fst _ (name, f)), dict_get_elem.
Qed.

Lemma leave_visited (name : string) V : name ∉ V → filter (λ n, n ≠ name) (name :: V) = V.
Proof.
  intros Hn. rewrite filter_cons_False by tauto. induction V as [|v V IH]; [done|].
  rewrite not_elem_of_cons in Hn. destruct Hn as [Hv Hn].
  rewrite filter_cons_True by done. by rewrite IH.
Qed.

(** A fragment that is measured: its selections with the fragment being visited. *)
Lemma fragment_body (I : list string → state → Prop) fuel V name f (Q : cost → Prop) st :
  dict_get name (_fragment_costs st) = None → dict_get name fragments = Some f → name ∉ V →
  _visiting st = V →
  (I (name :: V) {| _fragment_costs := _fragment_costs st; _visiting := name :: V |}) →
  (∀ st c, I (name :: V) st → Q c →
     I V {| _fragment_costs := dict_set name c (_fragment_costs st); _visiting := V |}) →
  (∀ st, I (name :: V) st → _visiting st = name :: V) →
  runs (I (name :: V))
    (selection_set (_fragment fuel) (get_type s (type_condition f)) (fragment_selections f)) Q →
  ∃ c st', _fragment (S fuel) name st = Some (c, st') ∧ I V st' ∧ Q c.
Proof.
  intros Hnew Hf Hn HV Hst Hback Hvis Hbody. cbn [QueryLimits._fragment].
  unfold bind at 1, get. rewrite Hnew, Hf, HV.
  rewrite (proj1 (not_true_iff_false (name in_ V))) by (by rewrite str_in_true).
  unfold bind, visit, leave, remember, ret. cbn beta iota. rewrite HV.
  destruct (Hbody _ Hst) as (c & st' & -> & Hst' & Hc).
  exists c. eexists. split; [reflexivity|]. split; [|done].
  rewrite (Hvis _ Hst'), leave_visited by done. cbn. by apply Hback.
Qed.

Lemma fragment_runs fuel : ∀ V name,
  visiting V → (length fragments < fuel + length V)%nat →
  runs (λ st, _visiting st = V) (_fragment fuel name) (λ _, True).
Proof.
  induction fuel as [|fuel IH]; intros V name HV Hfuel st Hst.
  { pose proof (visiting_length V HV). lia. }
  destruct (dict_get name (_fragment_costs st)) as [c|] eqn:Hnew.
  { exists c, st. split; [|done]. cbn. unfold bind, get. by rewrite Hnew. }
  destruct (dict_get name fragments) as [f|] eqn:Hf.
  2:{ exists (0, 0), st. split; [|done]. cbn. unfold bind, get. by rewrite Hnew, Hf. }
  destruct (decide (name ∈ V)) as [Hn|Hn].
  { exists (0, 0), st. split; [|done]. cbn. unfold bind, get. rewrite Hnew, Hf, Hst.
    by rewrite (proj2 (str_in_true _ _) Hn). }
  apply (fragment_body (λ V st, _visiting st = V) fuel V name f (λ _, True) st); auto.
  apply selection_set_runs. intros n _. apply IH; [by eapply visiting_cons|]. cbn. lia.
Qed.

(** ** Documents without cycles *)

(** The fragments written out, down to [n] nested ones. *)
Fixpoint written_out (e : string → selection) (sel : selection) : selection :=
  match sel with
  | FieldNode alias name arguments selections =>
      FieldNode alias name arguments (map (written_out e) <$> selections)
  | InlineFragmentNode condition sels => InlineFragmentNode condition (map (written_out e) sels)
  | FragmentSpreadNode name => e name
  end.

Fixpoint expand (n : nat) (name : string) : selection :=
  match n with
  | O => InlineFragmentNode None []
  | S n =>
      match dict_get name fragments with
      | Some f => InlineFragmentNode (Some (type_condition f)) (map (written_out (expand n)) (fragment_selections f))
      | None => InlineFragmentNode None []
      end
  end.

Definition acyclic (rank : string → nat) : Prop :=
  ∀ name f n, dict_get name fragments = Some f → n ∈ flat_map spreads (fragment_selections f) →
    (rank n < rank name)%nat.

(** The cost of a selection without fragments. *)
Definition cost_of : option named_type → selection → cost := cost_with (λ _, (0, 0)).

Lemma expand_type n name p q : cost_of p (expand n name) = cost_of q (expand n name).
Proof. destruct n; cbn; [done|]. by case_match. Qed.

Lemma pure_total_ext {A B} op (f : A → cost) (g : B → cost) (h : A → B) l acc :
  (∀ x, x ∈ l → f x = g (h x)) → pure_total op f acc l = pure_total op g acc (map h l).
Proof.
  revert acc. induction l as [|x l IH]; intros acc Hf; [done|]. cbn.
  rewrite (Hf x) by left. apply IH. intros y Hy. apply Hf. by right.
Qed.

Lemma cost_written_out g e sel :
  (∀ name, name ∈ spreads sel → ∀ p, g name = cost_of p (e name)) →
  ∀ parent, cost_with g parent sel = cost_of parent (written_out e sel).
Proof.
  induction sel as [alias name args|alias name args sels IH|condition sels IH|name]
    using selection_nested_ind; intros He parent; cbn; try rewrite Forall_forall in IH.
  - done.
  - case_match; [done|].
    erewrite (pure_total_ext _ _ _ (written_out e)); [reflexivity|].
    intros x Hx. apply (IH x Hx). intros n Hn. apply He. by eapply spreads_of_member.
  - apply pure_total_ext. intros x Hx. apply (IH x Hx). intros n Hn. apply He. by eapply spreads_of_member.
  - apply He. by left.
Qed.

Section acyclic.
Context {rank : string → nat} (Hrank : acyclic rank).

Lemma written_out_ext e1 e2 sel :
  (∀ name, name ∈ spreads sel → e1 name = e2 name) → written_out e1 sel = written_out e2 sel.
Proof.
  induction sel as [alias name args|alias name args sels IH|condition sels IH|name]
    using selection_nested_ind; intros He; cbn; try rewrite Forall_forall in IH.
  - done.
  - do 2 f_equal. apply map_ext_in. intros x Hx%list_elem_of_In. apply (IH x Hx).
    intros n Hn. apply He. by eapply spreads_of_member.
  - f_equal. apply map_ext_in. intros x Hx%list_elem_of_In. apply (IH x Hx).
    intros n Hn. apply He. by eapply spreads_of_member.
  - apply He. by left.
Qed.

Lemma expand_stable n : ∀ m name, (rank name < n)%nat → (rank name < m)%nat → expand n name = expand m name.
Proof.
  induction n as [|n IH]; intros [|m] name Hn Hm; try lia. cbn.
  destruct (dict_get name fragments) as [f|] eqn:Hf; [|done].
  f_equal. apply map_ext_in. intros x Hx%list_elem_of_In. apply written_out_ext. intros k Hk.
  assert (rank k < rank name)%nat by (eapply Hrank; [done|by eapply spreads_of_member]).
  apply IH; lia.
Qed.

(** What a fragment costs. *)
Definition fragment_cost (name : string) : cost := cost_of None (expand (S (rank name)) name).

Lemma fragment_cost_expand n name p : (rank name < n)%nat → fragment_cost name = cost_of p (expand n name).
Proof. intros Hn. unfold fragment_cost. rewrite (expand_stable _ n) by lia. apply expand_type. Qed.

Lemma fragment_cost_body name f :
  dict_get name fragments = Some f →
  pure_total Z.add (cost_with fragment_cost (get_type s (type_condition f))) (0, 0) (fragment_selections f)
  = fragment_cost name.
Proof.
  intros Hf. unfold fragment_cost at 2. cbn. rewrite Hf. cbn.
  apply pure_total_ext. intros x Hx. apply cost_written_out. intros n Hn p.
  apply fragment_cost_expand. eapply Hrank; [done|]. by eapply spreads_of_member.
Qed.

Definition correct (st : state) : Prop :=
  ∀ name c, dict_get name (_fragment_costs st) = Some c → c = fragment_cost name.

Lemma fragment_runs_eq fuel : ∀ V name,
  visiting V → (length fragments < fuel + length V)%nat → (∀ v, v ∈ V → (rank name < rank v)%nat) →
  runs (λ st, _visiting st = V ∧ correct st) (_fragment fuel name) (λ c, c = fragment_cost name).
Proof.
  induction fuel as [|fuel IH]; intros V name HV Hfuel HVr st [Hst Hcorrect].
  { pose proof (visiting_length V HV). lia. }
  destruct (dict_get name (_fragment_costs st)) as [c|] eqn:Hnew.
  { exists c, st. split; [|split; [done|by apply Hcorrect]]. cbn. unfold bind, get. by rewrite Hnew. }
  destruct (dict_get name fragments) as [f|] eqn:Hf.
  2:{ exists (0, 0), st. split; [cbn; unfold bind, get; by rewrite Hnew, Hf|]. split; [done|].
      unfold fragment_cost. cbn. by rewrite Hf. }
  assert (name ∉ V) as Hn by (intros Hn%HVr; lia).
  apply (fragment_body (λ V st, _visiting st = V ∧ correct st) fuel V name f _ st); try done.
  - intros st' c [_ Hc] ->. split; [done|]. intros k c Hk. cbn in Hk.
    destruct (decide (k = name)) as [->|Hne].
    + rewrite dict_get_set_eq in Hk. by injection Hk.
    + rewrite dict_get_set_ne in Hk by done. by apply Hc.
  - by intros st' [? _].
  - eapply runs_weaken.
    + apply (selection_set_runs_eq _ _ fragment_cost). intros n Hspread.
      assert (rank n < rank name)%nat by (by eapply Hrank).
      apply IH; [by eapply visiting_cons|cbn; lia|].
      intros v [->|Hv]%elem_of_cons; [done|]. specialize (HVr v Hv). lia.
    + intros c ->. by apply fragment_cost_body.
Qed.
End acyclic.

(** ** All operations *)

Notation operations_cost := (operations_cost s fragments variables default_list_size field_multipliers).

Lemma visiting_nil : visiting [].
Proof. split; [constructor|]. by intros x Hx%elem_of_nil. Qed.

Lemma operations_cost_runs (I : state → Prop) Q ops :
  I {| _fragment_costs := []; _visiting := [] |} →
  runs I (total Z.max (λ o, selection_set (_fragment (S (length fragments))) (_root_type s (op_type o))
                              (op_selections o)) (0, 0) ops) Q →
  ∃ c, operations_cost ops = Some c ∧ Q c.
Proof.
  intros HI Hruns. destruct (Hruns _ HI) as (c & st & E & _ & Hc). exists c. split; [|done].
  unfold QueryLimits.operations_cost. by rewrite E.
Qed.

Lemma operations_cost_total ops : ∃ c, operations_cost ops = Some c.
Proof.
  destruct (operations_cost_runs (λ st, _visiting st = []) (λ _, True) ops) as (c & E & _);
    [done| |by exists c].
  apply total_runs. intros o _. apply selection_set_runs. intros n _. apply fragment_runs; [apply visiting_nil|cbn; lia].
Qed.

Definition operation_cost (n : nat) (o : operation) : cost :=
  pure_total Z.add (cost_of (_root_type s (op_type o))) (0, 0)
    (map (written_out (expand n)) (op_selections o)).

Lemma operations_cost_acyclic rank n ops :
  acyclic rank → (∀ name, rank name < n)%nat →
  operations_cost ops = Some (pure_total Z.max (operation_cost n) (0, 0) ops).
Proof.
  intros Hrank Hn.
  destruct (operations_cost_runs (λ st, _visiting st = [] ∧ correct (rank := rank) st)
    (λ c, c = pure_total Z.max (operation_cost n) (0, 0) ops) ops) as (c & -> & ->); [done| |done].
  apply total_runs_eq. intros o _. eapply runs_weaken.
  - apply (selection_set_runs_eq _ _ (fragment_cost (rank := rank))). intros name _.
    apply (fragment_runs_eq Hrank); [apply visiting_nil|cbn; lia|].
    by intros v Hv%elem_of_nil.
  - intros c ->. apply pure_total_ext. intros x Hx. apply cost_written_out. intros name _ p.
    by apply (fragment_cost_expand Hrank).
Qed.

(** ** Responses *)

(** The counted fields of an object of the response, each with the objects it leads to:
    none for a leaf or a null, the items of a list. *)
Inductive object := Object (answered : list (string * list object)).

Definition sum {A} (f : A → Z) : list A → Z := foldr (λ x acc, f x + acc) 0.
Definition highest {A} (f : A → Z) : list A → Z := foldr (λ x acc, Z.max (f x) acc) 0.

Fixpoint field_count (o : object) : Z :=
  match o with Object fs => sum (λ kv, 1 + sum field_count kv.2) fs end.

Fixpoint object_depth (o : object) : Z :=
  match o with Object fs => highest (λ kv, highest (λ o, 1 + object_depth o) kv.2) fs end.

(** A field of the document, with the type it is on. *)
Record source := {
  parent : option named_type;
  response_key : string;
  source_name : string;
  arguments : list (string * argument_node);
  selections : option (list selection)
}.

(** The counted fields of a selection on an object that satisfies the type conditions
    [applies] tells. *)
Fixpoint collected (applies : string → bool) (parent : option named_type) (sel : selection) : list source :=
  match sel with
  | FieldNode alias name arguments selections =>
      if uncounted name then []
      else [{| parent := parent; response_key := default name alias; source_name := name;
               arguments := arguments; selections := selections |}]
  | InlineFragmentNode condition sels =>
      if match condition with Some c => applies c | None => true end
      then flat_map (collected applies (fragment_type parent condition)) sels else []
  | FragmentSpreadNode _ => []
  end.

Definition source_size (src : source) : Z :=
  size_of (field_def_of (parent src) (source_name src)) (arguments src).

Definition children (src : source) : list (option named_type * selection) :=
  match selections src with
  | Some sels => map (pair (child_type (field_def_of (parent src) (source_name src)))) sels
  | None => []
  end.

Definition collected_all (applies : string → bool) (srcs : list (option named_type * selection)) : list source :=
  flat_map (λ ps, collected applies ps.1 ps.2) srcs.

Definition under (key : string) (l : list source) : list source :=
  filter (λ src, response_key src = key) l.

(** What the request says for an argument of a field: the number it gives, the value it sends
    for the variable it gives, or the schema's default when it gives nothing. *)
Inductive given (f : field_def) (args : list (string * argument_node)) (name : string) : Z → Prop :=
| given_number n : (name, IntValueNode n) ∈ args → given f args name n
| given_variable v n : (name, VariableNode v) ∈ args → dict_get v variables = Some (PInt n) → given f args name n
| given_default n : name ∉ args.*1 → dict_get name (QueryLimits.args f) = Some (PInt n) → given f args name n.

Definition not_given (f : field_def) (args : list (string * argument_node)) (name : string) : Prop :=
  ∀ n, 0 <= n → ¬ given f args name n.

(** A list is as long as [limit] says at most, or else [first], or else the size the server
    takes for a list; what is no list is one object.  No argument is given twice. *)
Definition in_size (src : source) (len : Z) : Prop :=
  match selections src with
  | None => len = 0
  | Some _ =>
      NoDup (arguments src).*1 ∧
      (∀ t fs f, parent src = Some t → fields t = Some fs → dict_get (source_name src) fs = Some f → is_list f = true →
         (∀ n, 0 <= n → given f (arguments src) "limit" n → len <= n) ∧
         (not_given f (arguments src) "limit" → ∀ n, 0 <= n → given f (arguments src) "first" n → len <= n) ∧
         (not_given f (arguments src) "limit" → not_given f (arguments src) "first" → len <= default_list_size)) ∧
      ((∀ t fs f, parent src = Some t → fields t = Some fs → dict_get (source_name src) fs = Some f → is_list f = false) → len <= 1)
  end.

(** An object that answers selections: fields of one key are answered together, a field
    leads to at most as many objects as its arguments say, and each of them answers the
    selections of all fields of the key. *)
Inductive answers : list (option named_type * selection) → object → Prop :=
| answers_object applies srcs fs :
    NoDup fs.*1 →
    (∀ k objs, (k, objs) ∈ fs → under k (collected_all applies srcs) ≠ []) →
    (∀ k objs src, (k, objs) ∈ fs → src ∈ under k (collected_all applies srcs) →
       in_size src (Z.of_nat (length objs))) →
    (∀ k objs o, (k, objs) ∈ fs → o ∈ objs →
       answers (flat_map children (under k (collected_all applies srcs))) o) →
    answers srcs (Object fs).

Lemma argument_dict_get args name :
  match dict_get name (argument_dict args) with Some a => (name, a) ∈ args | None => name ∉ args.*1 end.
Proof.
  unfold argument_dict. induction args as [|[k a] args IH] using rev_ind; [by apply not_elem_of_nil|].
  rewrite foldl_app. cbn [foldl fst snd]. destruct (decide (k = name)) as [<-|Hne].
  - rewrite dict_get_set_eq. apply elem_of_app. right. by left.
  - rewrite dict_get_set_ne by done. destruct (dict_get name _) as [b|]; [apply elem_of_app; by left|].
    rewrite fmap_app, elem_of_app. intros [?|Hin]; [done|]. cbn in Hin. apply list_elem_of_singleton in Hin. congruence.
Qed.

(** The size an argument is measured by is one the request gives, and none is passed over
    when arguments are not repeated. *)
Lemma argument_size_given f args name n :
  argument_size variables (argument_dict args) f name = Some n → 0 <= n ∧ given f args name n.
Proof.
  unfold argument_size. pose proof (argument_dict_get args name) as Ha.
  destruct (dict_get name (argument_dict args)) as [[m|v|]|].
  - destruct (Z.leb_spec 0 m); [|done]. intros [= <-]. split; [done|by apply given_number].
  - unfold Py.get. destruct (dict_get v variables) as [[]|] eqn:Hv; try done. cbn. destruct (Z.leb_spec 0 z); [|done].
    intros [= <-]. split; [done|by eapply given_variable].
  - done.
  - unfold Py.get. destruct (dict_get name (QueryLimits.args f)) as [[]|] eqn:Hv; try done. cbn. destruct (Z.leb_spec 0 z); [|done].
    intros [= <-]. split; [done|by apply given_default].
Qed.

Lemma given_once (args : list (string * argument_node)) name a b :
  NoDup args.*1 → (name, a) ∈ args → (name, b) ∈ args → a = b.
Proof.
  intros Hnd H1 H2. induction args as [|[k x] args IH]; [by apply elem_of_nil in H1|].
  cbn in Hnd. apply NoDup_cons in Hnd as [Hk Hnd].
  assert (∀ c, (k, c) ∈ args → False) as Hno by (intros c Hc; apply Hk, list_elem_of_fmap; by exists (k, c)).
  apply elem_of_cons in H1 as [E1|H1]; apply elem_of_cons in H2 as [E2|H2].
  - congruence.
  - injection E1 as -> ->. by apply Hno in H2.
  - injection E2 as -> ->. by apply Hno in H1.
  - by apply IH.
Qed.

Lemma given_unique f args name n m : NoDup args.*1 → given f args name n → given f args name m → n = m.
Proof.
  intros Hnd Hn Hm.
  assert (∀ a, (name, a) ∈ args → name ∉ args.*1 → False) as Hno by (intros a Ha Hnot; apply Hnot, list_elem_of_fmap; by exists (name, a)).
  destruct Hn as [n Hn|v n Hn Hv|n Hn Hv], Hm as [m Hm|u m Hm Hu|m Hm Hu];
    try (by destruct (Hno _ Hn Hm)); try (by destruct (Hno _ Hm Hn)); try (pose proof (given_once _ _ _ _ Hnd Hn Hm)); congruence.
Qed.

Lemma argument_size_none f args name :
  NoDup args.*1 → argument_size variables (argument_dict args) f name = None → not_given f args name.
Proof.
  unfold argument_size. intros Hnd Hnone n Hn Hg. pose proof (argument_dict_get args name) as Ha.
  assert (∀ a b, (name, a) ∈ args → (name, b) ∈ args → a = b) as Hone by (intros a b; by apply given_once).
  destruct (dict_get name (argument_dict args)) as [a|].
  - destruct Hg as [m Hin|v m Hin Hv|m Hin Hv].
    + assert (a = IntValueNode m) as -> by by eapply Hone. destruct (Z.leb_spec 0 m); [done|lia].
    + assert (a = VariableNode v) as -> by by eapply Hone. unfold Py.get in Hnone. rewrite Hv in Hnone. cbn in Hnone.
      destruct (Z.leb_spec 0 m); [done|lia].
    + apply Hin. apply list_elem_of_fmap. by exists (name, a).
  - destruct Hg as [m Hin|v m Hin Hv|m Hin Hv]; [apply Ha, list_elem_of_fmap; by eexists (_, _)|apply Ha, list_elem_of_fmap; by eexists (_, _)|].
    unfold Py.get in Hnone. rewrite Hv in Hnone. cbn in Hnone. destruct (Z.leb_spec 0 m); [done|lia].
Qed.

(** ** Sums *)

Lemma sum_app {A} (f : A → Z) l1 l2 : sum f (l1 ++ l2) = sum f l1 + sum f l2.
Proof. induction l1 as [|x l1 IH]; cbn; [done|]. unfold sum in *. lia. Qed.

Lemma sum_map {A B} (f : B → Z) (h : A → B) l : sum f (map h l) = sum (λ x, f (h x)) l.
Proof. induction l as [|x l IH]; cbn; [done|]. unfold sum in *. lia. Qed.

Lemma highest_map {A B} (f : B → Z) (h : A → B) l : highest f (map h l) = highest (λ x, f (h x)) l.
Proof. induction l as [|x l IH]; cbn; [done|]. unfold highest in *. lia. Qed.

Lemma sum_flat_map {A B} (f : B → Z) (g : A → list B) l : sum f (flat_map g l) = sum (λ x, sum f (g x)) l.
Proof. induction l as [|x l IH]; [done|]. cbn [flat_map]. rewrite sum_app, IH. done. Qed.

Lemma sum_le {A} (f g : A → Z) l : (∀ x, x ∈ l → f x <= g x) → sum f l <= sum g l.
Proof.
  induction l as [|x l IH]; intros H; [done|]. cbn.
  pose proof (H x ltac:(left)). pose proof (IH ltac:(intros y Hy; apply H; by right)). unfold sum in *. lia.
Qed.

Lemma sum_nonneg {A} (f : A → Z) l : (∀ x, 0 <= f x) → 0 <= sum f l.
Proof. intros H. induction l as [|x l IH]; cbn; [lia|]. specialize (H x). unfold sum in *. lia. Qed.

Lemma sum_bound {A} (f : A → Z) l b : (∀ x, x ∈ l → f x <= b) → sum f l <= Z.of_nat (length l) * b.
Proof.
  induction l as [|x l IH]; intros H; [cbn; lia|]. cbn [sum foldr length].
  pose proof (H x ltac:(left)). pose proof (IH ltac:(intros y Hy; apply H; by right)). unfold sum in *. lia.
Qed.

Lemma highest_le {A} (f : A → Z) l b : 0 <= b → (∀ x, x ∈ l → f x <= b) → highest f l <= b.
Proof.
  intros Hb. induction l as [|x l IH]; intros H; cbn; [done|].
  pose proof (H x ltac:(left)). pose proof (IH ltac:(intros y Hy; apply H; by right)). unfold highest in *. lia.
Qed.

Lemma highest_elem {A} (f : A → Z) l x : x ∈ l → f x <= highest f l.
Proof.
  induction 1 as [x l|x y l _ IH]; cbn; [|unfold highest in *; lia]. unfold highest. lia.
Qed.

Lemma highest_nonneg {A} (f : A → Z) l : 0 <= highest f l.
Proof. induction l as [|x l IH]; cbn; [done|]. unfold highest in *. lia. Qed.

Lemma pure_total_sum {A} (f : A → cost) l :
  pure_total Z.add f (0, 0) l = (highest (λ x, (f x).1) l, sum (λ x, (f x).2) l).
Proof.
  assert (∀ acc, 0 <= acc.1 →
    pure_total Z.add f acc l = (Z.max acc.1 (highest (λ x, (f x).1) l), acc.2 + sum (λ x, (f x).2) l)) as H.
  { induction l as [|x l IH]; intros [d c] Hd; cbn [fst snd] in *.
    - cbn. f_equal; lia.
    - cbn [pure_total foldl]. unfold pure_total in IH. rewrite IH by (cbn; lia). cbn. f_equal; unfold highest, sum; lia. }
  rewrite H by (cbn; lia). pose proof (highest_nonneg (λ x, (f x).1) l). cbn. f_equal; lia.
Qed.

Lemma under_cons key x l :
  under key (x :: l) = if decide (response_key x = key) then x :: under key l else under key l.
Proof. unfold under. by rewrite filter_cons. Qed.

(** Groups of distinct keys hold at most everything. *)
Lemma sum_groups (w : source → Z) (ks : list string) (l : list source) :
  (∀ x, 0 <= w x) → NoDup ks → sum (λ k, sum w (under k l)) ks <= sum w l.
Proof.
  intros Hw. induction l as [|x l IH]; intros Hks.
  - clear Hks. induction ks as [|k ks IHk]; [done|]. cbn in *. unfold sum in *. lia.
  - specialize (IH Hks). cbn [sum foldr].
    assert (sum (λ k, sum w (under k (x :: l))) ks
            <= (if decide (response_key x ∈ ks) then w x else 0) + sum (λ k, sum w (under k l)) ks) as H.
    { clear IH. induction Hks as [|k ks Hk Hks IHk]; [done|].
      cbn [sum foldr]. rewrite (under_cons k x l).
      unfold sum in IHk |- *. destruct (decide (response_key x = k)) as [<-|Hne].
      - rewrite decide_False in IHk by done. rewrite decide_True by left. cbn [foldr]. lia.
      - destruct (decide (response_key x ∈ ks)).
        + rewrite decide_True by (by right). lia.
        + rewrite decide_False; [lia|]. by intros [?|?]%elem_of_cons. }
    specialize (Hw x). unfold sum in *. case_decide; lia.
Qed.

(** ** The cost bounds the response *)

Section bounds.
Context (Hmult : ∀ key m, dict_get key field_multipliers = Some m → 1 <= m).
Context (Hsize : 0 <= default_list_size).

Lemma multiplier_pos parent name : 1 <= multiplier_of parent name.
Proof.
  assert (∀ key m, 1 <= m → 1 <= default m (dict_get key field_multipliers)) as H.
  { intros key m Hm. destruct (dict_get key field_multipliers) eqn:E; [by apply Hmult in E|done]. }
  unfold QueryLimits.multiplier_of. apply H. destruct parent; [by apply H|done].
Qed.

Lemma size_nonneg f arguments : 0 <= size_of f arguments.
Proof.
  unfold QueryLimits.size_of. destruct f as [f|]; [|lia]. destruct (is_list f); [|lia].
  unfold _list_size. generalize _LIST_SIZE_ARGUMENTS (argument_dict arguments). intros names d.
  induction names as [|name names IH]; cbn; [done|].
  destruct (argument_size variables d f name) eqn:E; [|done].
  unfold argument_size in E. revert E. repeat case_match; try done; intros [= <-]; lia.
Qed.

(** What the response keeps to is what was measured. *)
Lemma in_size_measured src len : in_size src len → len <= match selections src with Some _ => source_size src | None => 0 end.
Proof.
  unfold in_size, source_size. destruct (selections src) as [sels|]; [|lia]. intros (Hnd & Hlist & Hone).
  assert (∀ f, field_def_of (parent src) (source_name src) = Some f →
            ∃ t fs, parent src = Some t ∧ fields t = Some fs ∧ dict_get (source_name src) fs = Some f) as Hf.
  { intros f. unfold field_def_of. destruct (parent src) as [t|]; [|done]. cbn. destruct (fields t) as [fs|] eqn:Hfs; [|done].
    cbn. intros Hf. by exists t, fs. }
  assert (∀ t fs f, parent src = Some t → fields t = Some fs → dict_get (source_name src) fs = Some f →
            field_def_of (parent src) (source_name src) = Some f) as Hdef.
  { intros t fs f Ht Hfs Hget. unfold field_def_of. rewrite Ht. cbn. by rewrite Hfs. }
  unfold QueryLimits.size_of. destruct (field_def_of (parent src) (source_name src)) as [f|] eqn:E.
  - destruct (Hf f eq_refl) as (t & fs & Ht & Hfs & Hget). destruct (is_list f) eqn:El.
    + destruct (Hlist t fs f Ht Hfs Hget El) as (Hl & Hfirst & Hdefault). unfold _list_size. cbn.
      destruct (argument_size variables _ f "limit") as [n|] eqn:E1; [apply argument_size_given in E1 as [? ?]; auto|].
      apply argument_size_none in E1; [|done].
      destruct (argument_size variables _ f "first") as [n|] eqn:E2; [apply argument_size_given in E2 as [? ?]; auto|].
      apply argument_size_none in E2; [|done]. auto.
    + apply Hone. intros t' fs' f' Ht' Hfs' Hget'. specialize (Hdef _ _ _ Ht' Hfs' Hget'). congruence.
  - apply Hone. intros t fs f Ht Hfs Hget. specialize (Hdef _ _ _ Ht Hfs Hget). congruence.
Qed.

Lemma given_size f args name n :
  NoDup args.*1 → 0 <= n → given f args name n → argument_size variables (argument_dict args) f name = Some n.
Proof.
  intros Hnd Hn Hg. destruct (argument_size _ _ f name) as [m|] eqn:E.
  - apply argument_size_given in E as [_ Hm]. by rewrite (given_unique _ _ _ _ _ Hnd Hg Hm).
  - by destruct (argument_size_none f args name Hnd E n Hn Hg).
Qed.

Lemma measured_in_size src len :
  NoDup (arguments src).*1 →
  match selections src with Some _ => len <= source_size src | None => len = 0 end → in_size src len.
Proof.
  unfold in_size, source_size, QueryLimits.size_of. intros Hnd. destruct (selections src) as [sels|]; [|done]. intros Hlen.
  assert (∀ t fs f, parent src = Some t → fields t = Some fs → dict_get (source_name src) fs = Some f →
            field_def_of (parent src) (source_name src) = Some f) as Hdef.
  { intros t fs f Ht Hfs Hget. unfold field_def_of. rewrite Ht. cbn. by rewrite Hfs. }
  split; [done|]. split.
  - intros t fs f Ht Hfs Hget El. rewrite (Hdef _ _ _ Ht Hfs Hget), El in Hlen. unfold _list_size in Hlen. cbn in Hlen.
    assert (∀ name, not_given f (arguments src) name → argument_size variables (argument_dict (arguments src)) f name = None) as Hnone.
    { intros name Hno. destruct (argument_size _ _ f name) as [m|] eqn:E; [|done]. apply argument_size_given in E as [Hm Hg].
      by destruct (Hno m Hm Hg). }
    split; [|split].
    + intros n Hn Hg. by rewrite (given_size _ _ _ _ Hnd Hn Hg) in Hlen.
    + intros Hl n Hn Hg. by rewrite (Hnone _ Hl), (given_size _ _ _ _ Hnd Hn Hg) in Hlen.
    + intros Hl Hf. by rewrite (Hnone _ Hl), (Hnone _ Hf) in Hlen.
  - intros Hno. destruct (field_def_of (parent src) (source_name src)) as [f|] eqn:E; [|done].
    destruct (is_list f) eqn:El; [|done]. exfalso. unfold field_def_of in E. destruct (parent src) as [t|] eqn:Ht; [|done].
    cbn in E. destruct (fields t) as [fs|] eqn:Hfs; [|done]. cbn in E. specialize (Hno t fs f eq_refl Hfs E). congruence.
Qed.

Definition source_cost (src : source) : cost :=
  cost_of (parent src)
    (FieldNode None (source_name src) (arguments src) (selections src)).

Lemma cost_nonneg sel : ∀ parent, 0 <= (cost_of parent sel).1 ∧ 0 <= (cost_of parent sel).2.
Proof.
  unfold cost_of.
  induction sel as [alias name args|alias name args sels IH|condition sels IH|name]
    using selection_nested_ind; intros p; cbn; try rewrite Forall_forall in IH.
  - case_match; cbn; [done|]. pose proof (multiplier_pos p name). lia.
  - case_match; cbn; [done|]. rewrite pure_total_sum. cbn.
    pose proof (highest_nonneg (λ x, (cost_with (λ _, (0, 0)) (child_type (field_def_of p name)) x).1) sels).
    assert (0 <= sum (λ x, (cost_with (λ _, (0, 0)) (child_type (field_def_of p name)) x).2) sels) as Hs.
    { etransitivity; [|apply (sum_le (λ _, 0))]; [apply sum_nonneg; lia|].
      intros x Hx. by apply IH. }
    pose proof (multiplier_pos p name). pose proof (size_nonneg (field_def_of p name) args). nia.
  - rewrite pure_total_sum. cbn. split; [apply highest_nonneg|].
    etransitivity; [|apply (sum_le (λ _, 0))]; [apply sum_nonneg; lia|]. intros x Hx. by apply IH.
  - done.
Qed.

Lemma collected_cost applies sel : ∀ parent,
  sum (λ src, (source_cost src).2) (collected applies parent sel) <= (cost_of parent sel).2
  ∧ ∀ src, src ∈ collected applies parent sel → (source_cost src).1 <= (cost_of parent sel).1.
Proof.
  unfold source_cost, cost_of.
  induction sel as [alias name args|alias name args sels IH|condition sels IH|name]
    using selection_nested_ind; intros p; cbn [collected]; try rewrite Forall_forall in IH.
  - destruct (uncounted name) eqn:E; cbn; rewrite ?E; cbn; (split; [lia|]).
    + by intros src Hsrc%elem_of_nil.
    + intros src ->%list_elem_of_singleton. cbn. by rewrite E.
  - destruct (uncounted name) eqn:E; [cbn; rewrite E; split; [done|by intros src Hsrc%elem_of_nil]|].
    split; [cbn [sum foldr]; by rewrite Z.add_0_r|]. by intros src ->%list_elem_of_singleton.
  - destruct (match condition with Some c => applies c | None => true end).
    + cbn. rewrite sum_flat_map, pure_total_sum. cbn. split; [apply sum_le; intros x Hx; by apply IH|].
      intros src (x & Hx & Hsrc)%list_elem_of_In%in_flat_map. apply list_elem_of_In in Hx, Hsrc.
      etransitivity; [by apply (IH x Hx)|].
      apply (highest_elem (λ x, (cost_with (λ _, (0, 0)) (fragment_type p condition) x).1) sels x Hx).
    + split; [apply cost_nonneg|by intros src Hsrc%elem_of_nil].
  - split; [done|by intros src Hsrc%elem_of_nil].
Qed.

Lemma children_cost src :
  uncounted (source_name src) = false →
  (source_cost src).2 = multiplier_of (parent src) (source_name src)
    + match selections src with
      | Some _ => source_size src * sum (λ ps, (cost_of ps.1 ps.2).2) (children src)
      | None => 0
      end
  ∧ (selections src ≠ None →
     (source_cost src).1 = 1 + highest (λ ps, (cost_of ps.1 ps.2).1) (children src)).
Proof.
  intros Hc. unfold source_cost, children, source_size, cost_of. destruct src as [p k name args [sels|]]; cbn in *;
    rewrite Hc; [|split; [cbn; lia|done]]. rewrite pure_total_sum. cbn.
  rewrite sum_map, highest_map. split; [done|]. intros _. cbn. lia.
Qed.

Lemma collected_counted applies sel : ∀ parent src,
  src ∈ collected applies parent sel → uncounted (source_name src) = false.
Proof.
  induction sel as [alias name args|alias name args sels IH|condition sels IH|name]
    using selection_nested_ind; intros p src; cbn [collected]; try rewrite Forall_forall in IH.
  - destruct (uncounted name) eqn:E; [by intros ?%elem_of_nil|]. by intros ->%list_elem_of_singleton.
  - destruct (uncounted name) eqn:E; [by intros ?%elem_of_nil|]. by intros ->%list_elem_of_singleton.
  - destruct (match condition with Some c => applies c | None => true end); [|by intros ?%elem_of_nil].
    intros (x & Hx & Hsrc)%list_elem_of_In%in_flat_map. apply list_elem_of_In in Hx, Hsrc. by eapply IH.
  - by intros ?%elem_of_nil.
Qed.

Notation complexity := (λ ps, (cost_of ps.1 ps.2).2).
Notation depth := (λ ps, (cost_of ps.1 ps.2).1).

Lemma collected_all_cost applies srcs :
  sum (λ src, (source_cost src).2) (collected_all applies srcs) <= sum complexity srcs
  ∧ ∀ src, src ∈ collected_all applies srcs →
      uncounted (source_name src) = false ∧ (source_cost src).1 <= highest depth srcs.
Proof.
  unfold collected_all. rewrite sum_flat_map. split; [apply sum_le; intros x _; apply collected_cost|].
  intros src (x & Hx & Hsrc)%list_elem_of_In%in_flat_map. apply list_elem_of_In in Hx, Hsrc.
  split; [by eapply collected_counted|].
  destruct (collected_cost applies x.2 x.1) as [_ H].
  etransitivity; [by apply H|]. apply (highest_elem depth srcs x Hx).
Qed.

Lemma under_elem key l src : src ∈ under key l → src ∈ l.
Proof. by intros [_ ?]%list_elem_of_filter. Qed.

(** What one key of the response holds against the fields it answers. *)
Lemma group_count (group : list source) (objs : list object) :
  group ≠ [] → (∀ src, src ∈ group → uncounted (source_name src) = false) →
  (∀ src, src ∈ group →
     Z.of_nat (length objs) <= match selections src with Some _ => source_size src | None => 0 end) →
  (∀ o, o ∈ objs → field_count o <= sum complexity (flat_map children group)) →
  1 + sum field_count objs <= sum (λ src, (source_cost src).2) group.
Proof.
  intros Hne Hc Hlen Hobjs. apply sum_bound in Hobjs. rewrite sum_flat_map in Hobjs.
  set (n := Z.of_nat (length objs)) in *.
  assert (0 <= n) as Hn by lia. clearbody n.
  transitivity (sum (λ src, 1 + n * sum complexity (children src)) group).
  - assert (∀ l : list source, sum (λ src, 1 + n * sum complexity (children src)) l
              = Z.of_nat (length l) + n * sum (λ src, sum complexity (children src)) l) as ->.
    { induction l as [|x l IH]; [cbn; lia|]. cbn [sum foldr length]. unfold sum in *. nia. }
    destruct group; [done|]. cbn [length]. lia.
  - apply sum_le. intros src Hsrc. destruct (children_cost src (Hc src Hsrc)) as [-> _].
    pose proof (multiplier_pos (parent src) (source_name src)). specialize (Hlen src Hsrc).
    assert (0 <= sum complexity (children src)).
    { apply sum_nonneg. intros x. by apply cost_nonneg. }
    unfold children in *. destruct (selections src); [nia|cbn in *; lia].
Qed.

Lemma answers_bounded srcs o :
  answers srcs o → field_count o <= sum complexity srcs ∧ object_depth o <= highest depth srcs.
Proof.
  induction 1 as [applies srcs fs Hnd Hne Hlen Hans IH].
  destruct (collected_all_cost applies srcs) as [Hsum Hall].
  assert (∀ k objs src, (k, objs) ∈ fs → src ∈ under k (collected_all applies srcs) →
    Z.of_nat (length objs) <= match selections src with Some _ => source_size src | None => 0 end) as Hsizes.
  { intros k objs src Hk Hsrc. apply in_size_measured. by eapply Hlen. }
  clear Hlen. rename Hsizes into Hlen.
  set (all := collected_all applies srcs) in *.
  assert (∀ k src, src ∈ under k all → uncounted (source_name src) = false) as Hcounted.
  { intros k src Hsrc%under_elem. by apply Hall. }
  split.
  - transitivity (sum (λ kv, sum (λ src, (source_cost src).2) (under kv.1 all)) fs).
    + cbn. apply sum_le. intros [k objs] Hk. cbn.
      apply group_count; [by eapply Hne|by intros src; apply Hcounted|by intros src; apply Hlen|].
      intros o Ho. by apply (IH k objs o Hk Ho).
    + rewrite <- (sum_map (λ k, sum (λ src, (source_cost src).2) (under k all)) fst).
      etransitivity; [apply sum_groups; [|done]|done].
      intros src. apply cost_nonneg.
  - cbn. apply highest_le; [apply highest_nonneg|]. intros [k objs] Hk. cbn.
    apply highest_le; [apply highest_nonneg|]. intros o Ho.
    destruct (IH k objs o Hk Ho) as [_ Hd].
    assert (∀ src, src ∈ under k all → selections src ≠ None) as Hsome.
    { intros src Hsrc E. specialize (Hlen k objs src Hk Hsrc). rewrite E in Hlen.
      destruct objs; [by apply elem_of_nil in Ho|cbn in Hlen; lia]. }
    assert (∀ src, src ∈ under k all → 1 + highest depth (children src) <= highest depth srcs) as Hchild.
    { intros src Hsrc. destruct (children_cost src (Hcounted k src Hsrc)) as [_ <-]; [|by apply Hsome].
      by apply Hall, (under_elem k). }
    enough (highest depth (flat_map children (under k all)) <= highest depth srcs - 1) by lia.
    apply highest_le.
    + destruct (under k all) as [|src l] eqn:E; [by destruct (Hne k objs Hk)|].
      specialize (Hchild src (list_elem_of_here _ _)). pose proof (highest_nonneg depth (children src)). lia.
    + intros ps (src & Hsrc & Hps)%list_elem_of_In%in_flat_map. apply list_elem_of_In in Hsrc, Hps.
      specialize (Hchild src Hsrc). pose proof (highest_elem depth (children src) ps Hps). cbn in *. lia.
Qed.
End bounds.
End laws.

(** ** Requests *)

(** The walk ends on every document, also when its fragments use each other in a
    cycle: measuring gives a cost, or nothing when there is no operation to measure. *)
Theorem measuring_ends l s document operation_name variables :
  ∃ r, measure l s document operation_name variables = Some r.
Proof.
  unfold measure. destruct document as [d|]; [|by eexists].
  destruct (operations_of d operation_name) as [|o ops]; [by eexists|].
  destruct (operations_cost_total s (fragments_of d) variables (default_list_size l) (field_multipliers l)
    (o :: ops)) as [c ->]. by eexists.
Qed.

Lemma measure_acyclic l s d operation_name variables rank n :
  acyclic (fragments_of d) rank → (∀ name, rank name < n)%nat → operations_of d operation_name ≠ [] →
  measure l s (Some d) operation_name variables
  = Some (Some (pure_total Z.max
      (operation_cost s (fragments_of d) variables (default_list_size l) (field_multipliers l) n) (0, 0)
      (operations_of d operation_name))).
Proof.
  intros Hrank Hn Hops. unfold measure. destruct (operations_of d operation_name) as [|o ops]; [done|].
  by rewrite (operations_cost_acyclic _ _ _ _ _ rank n) by done.
Qed.

(** The table of measured fragments changes nothing: when the fragments have no
    cycle (each uses only fragments of lower rank), the measured cost is the cost of the
    document with every fragment written out where it is used, the highest of the
    operations that may run. *)
Theorem measure_is_cost_written_out l s d operation_name variables rank n :
  acyclic (fragments_of d) rank → (∀ name, rank name < n)%nat → operations_of d operation_name ≠ [] →
  measure l s (Some d) operation_name variables
  = Some (Some (pure_total Z.max
      (operation_cost s (fragments_of d) variables (default_list_size l) (field_multipliers l) n) (0, 0)
      (operations_of d operation_name))).
Proof. apply measure_acyclic. Qed.

Lemma pure_total_max {A} (f : A → cost) acc l x :
  x ∈ l → (f x).1 <= (pure_total Z.max f acc l).1 ∧ (f x).2 <= (pure_total Z.max f acc l).2.
Proof.
  assert (∀ l acc, acc.1 <= (pure_total Z.max f acc l).1 ∧ acc.2 <= (pure_total Z.max f acc l).2) as Hacc.
  { intros l'. induction l' as [|y l' IH]; intros acc'; cbn; [lia|].
    destruct (IH (Z.max acc'.1 (f y).1, Z.max acc'.2 (f y).2)). unfold pure_total in *. cbn in *. lia. }
  intros Hx. revert acc. induction Hx as [x l|x y l _ IH]; intros acc; cbn.
  - destruct (Hacc l (Z.max acc.1 (f x).1, Z.max acc.2 (f x).2)). unfold pure_total in *. cbn in *. lia.
  - apply IH.
Qed.

(** What a request may answer: the operation's selections with the fragments written
    out, on the root type. *)
Definition asked (s : schema) (fragments : list (string * fragment)) (n : nat) (o : operation)
    : list (option named_type * selection) :=
  map (pair (_root_type s (op_type o))) (map (written_out (expand fragments n)) (op_selections o)).

Lemma exceeds_None value limit n : exceeds value limit = None → limit = Some n → value <= n.
Proof. unfold exceeds. intros H ->. destruct (Z.ltb_spec n value); [done|lia]. Qed.


(** ** Examples *)

Definition scalar (name : string) : string * field_def :=
  (name, {| base_type := "String"; is_list := false; args := [] |}).

Definition user_type : named_type :=
  {| type_name := "User";
     fields := Some [scalar "id";
                     ("posts", {| base_type := "Post"; is_list := true; args := [("first", PInt 5)] |})] |}.

Definition post_type : named_type := {| type_name := "Post"; fields := Some [scalar "title"] |}.

Definition root : named_type :=
  {| type_name := "Query";
     fields := Some [("users", {| base_type := "User"; is_list := true; args := [("limit", PNone)] |});
                     ("me", {| base_type := "User"; is_list := false; args := [] |})] |}.

Definition blog : schema :=
  {| get_type := λ name, if name =s "User" then Some user_type
                         else if name =s "Post" then Some post_type else None;
     query_type := Some root; mutation_type := None; subscription_type := None |}.

Definition leaf (name : string) : selection := FieldNode None name [] None.

(** [query { users(limit: 3) { ...U } me { ...U } } fragment U on User { id posts { title } }] *)
Definition users_and_me : operation :=
  {| op_name := None; op_type := Query; variable_definitions := [];
     op_selections :=
       [FieldNode None "users" [("limit", IntValueNode 3)] (Some [FragmentSpreadNode "U"]);
        FieldNode None "me" [] (Some [FragmentSpreadNode "U"])] |}.

Definition user_fragment : fragment :=
  {| type_condition := "User";
     fragment_selections := [leaf "id"; FieldNode None "posts" [] (Some [leaf "title"])] |}.

Definition blog_document : list definition :=
  [OperationDefinitionNode users_and_me; FragmentDefinitionNode "U" user_fragment].

Definition blog_limits : limits :=
  {| max_depth := Some 2; max_complexity := Some 30; default_list_size := 10; field_multipliers := [] |}.

Lemma blog_acyclic : acyclic (fragments_of blog_document) (λ _, 0%nat).
Proof.
  intros name f n Hf Hn. cbn in Hf. case_decide; [|done]. injection Hf as <-.
  by apply elem_of_nil in Hn.
Qed.

Lemma measure_is_cost_written_out_witness :
  measure blog_limits blog (Some blog_document) None []
  = Some (Some (pure_total Z.max
      (operation_cost blog (fragments_of blog_document) [] 10 [] 1) (0, 0) [users_and_me]))
  ∧ measure blog_limits blog (Some blog_document) None [] = Some (Some (2, 30)).
Proof.
  split; [|vm_compute; reflexivity].
  apply (measure_is_cost_written_out blog_limits blog blog_document None [] (λ _, 0%nat) 1).
  - exact blog_acyclic.
  - intros name. lia.
  - discriminate.
Defined.

Definition blog_response : object :=
  Object [("users", [Object [("id", []); ("posts", [Object [("title", [])]])]]); ("me", [])].

Ltac answer :=
  apply (answers_object _ _ _ (λ _, true));
  [ apply (bool_decide_unpack _); by vm_compute
  | intros k objs Hk; repeat (apply elem_of_cons in Hk as [[= -> ->]|Hk]; [by vm_compute|]); by apply elem_of_nil in Hk
  | intros k objs src Hk Hsrc; repeat (apply elem_of_cons in Hk as [[= -> ->]|Hk];
      [vm_compute in Hsrc; repeat (apply elem_of_cons in Hsrc as [->|Hsrc];
         [apply measured_in_size; [apply (bool_decide_unpack _)|]; by vm_compute|]);
       by apply elem_of_nil in Hsrc|]); by apply elem_of_nil in Hk
  | intros k objs o Hk Ho; repeat (apply elem_of_cons in Hk as [[= -> ->]|Hk];
      [repeat (apply elem_of_cons in Ho as [->|Ho]; [|]); try by apply elem_of_nil in Ho|]);
    try by apply elem_of_nil in Hk ].

Lemma blog_answers :
  answers blog [] 10 (asked blog (fragments_of blog_document) 1 users_and_me) blog_response.
Proof. answer. answer. answer. Qed.


(** A size argument given by a variable that the request leaves to its default counts as
    the default list size, whatever the default is: [query ($n: Int = n) { users(limit:
    $n) { id } }] costs 11 and may answer with any number of users. *)
Definition users_by_default (n : Z) : list definition :=
  [OperationDefinitionNode
     {| op_name := None; op_type := Query; variable_definitions := [("n", Some (PInt n))];
        op_selections := [FieldNode None "users" [("limit", VariableNode "n")] (Some [leaf "id"])] |}].

Example defaults_are_not_measured n :
  check (λ _, Some (users_by_default n)) blog_limits blog "" None [] = Some None
  ∧ measure blog_limits blog (Some (users_by_default n)) None [] = Some (Some (1, 11))
  ∧ measure blog_limits blog (Some (users_by_default n)) None [("n", PInt 1000)] = Some (Some (1, 1001)).
Proof. by vm_compute. Qed.

(** A cycle of fragments is measured too: the spread that closes it costs nothing. *)
Example cycles_are_measured :
  measure blog_limits blog
    (Some [OperationDefinitionNode
             {| op_name := None; op_type := Query; variable_definitions := [];
                op_selections := [FieldNode None "me" [] (Some [FragmentSpreadNode "A"])] |};
           FragmentDefinitionNode "A" {| type_condition := "User";
                                         fragment_selections := [leaf "id"; FragmentSpreadNode "B"] |};
           FragmentDefinitionNode "B" {| type_condition := "User";
                                         fragment_selections := [leaf "id"; FragmentSpreadNode "A"] |}])
    None []
  = Some (Some (1, 3)).
Proof. by vm_compute. Qed.
