(* ===== verification/TokenRevocation.v ===== *)
(** * Token revocation ([auth/token_revocation.py])

    [InMemoryRevocationStore] and [PostgreSQLRevocationStore] under the protocol
    [RevocationStore], and [TokenRevocationService] over a store.  A clock reading is a
    number of microseconds, given to each operation; the statements of the PostgreSQL
    store act on a table keyed by [token_id] as PostgreSQL documents them, with [NOW()]
    the same clock. *)
From stdpp Require Import base decidable strings list gmap sets sorting.
From Stdlib Require Import ZArith Lia.
From S2P Require Import Prelude PyVal.

Local Open Scope py_scope.
Local Open Scope Z_scope.

(** The 86400 seconds every revocation lasts. *)
Definition day : Z := 86400 * 1000000.

(** ** The protocol *)

Class RevocationStore (S : Type) := {
  initial : S;
  revoke_token : Z → string → string → S → S;
  is_revoked : Z → string → S → bool * S;
  revoke_all_user_tokens : Z → string → S → S;
  revoked_before : Z → string → S → option Z * S;
  cleanup_expired : Z → S → Z * S;
  get_revoked_count : Z → S → Z
}.

(** ** In memory *)

Module Memory.

Record store := {
  _revoked_tokens : gmap string Z;
  _user_tokens : gmap string (gset string);
  _user_cutoffs : gmap string (Z * Z)
}.

Definition revoke_token (now : Z) (token_id user_id : string) (st : store) : store :=
  {| _revoked_tokens := <[token_id := now + day]> (_revoked_tokens st);
     _user_tokens := <[user_id := {[token_id]} ∪ default ∅ (_user_tokens st !! user_id)]> (_user_tokens st);
     _user_cutoffs := _user_cutoffs st |}.

Definition is_revoked (now : Z) (token_id : string) (st : store) : bool * store :=
  match _revoked_tokens st !! token_id with
  | None => (false, st)
  | Some expiry =>
      if expiry <? now then
        (false, {| _revoked_tokens := delete token_id (_revoked_tokens st);
                   _user_tokens := _user_tokens st; _user_cutoffs := _user_cutoffs st |})
      else (true, st)
  end.

Definition revoke_all_user_tokens (now : Z) (user_id : string) (st : store) : store :=
  let expiry_time := now + day in
  let user_tokens := default ∅ (_user_tokens st !! user_id) in
  {| _revoked_tokens := set_fold (λ token_id m, <[token_id := expiry_time]> m) (_revoked_tokens st) user_tokens;
     _user_tokens := _user_tokens st;
     _user_cutoffs := <[user_id := (now, expiry_time)]> (_user_cutoffs st) |}.

Definition revoked_before (now : Z) (user_id : string) (st : store) : option Z * store :=
  match _user_cutoffs st !! user_id with
  | None => (None, st)
  | Some (revoked_before, expiry) =>
      if expiry <? now then
        (None, {| _revoked_tokens := _revoked_tokens st; _user_tokens := _user_tokens st;
                  _user_cutoffs := delete user_id (_user_cutoffs st) |})
      else (Some revoked_before, st)
  end.

Definition cleanup_expired (now : Z) (st : store) : Z * store :=
  let expired : gset string := dom (filter (λ kv, kv.2 < now) (_revoked_tokens st)) in
  let expired_cutoffs : gset string := dom (filter (λ kv, kv.2.2 < now) (_user_cutoffs st)) in
  (Z.of_nat (size expired + size expired_cutoffs),
   {| _revoked_tokens := filter (λ kv, ¬ kv.2 < now) (_revoked_tokens st);
      _user_tokens := filter (λ kv, kv.2 ≠ ∅) ((λ tokens, tokens ∖ expired) <$> _user_tokens st);
      _user_cutoffs := filter (λ kv, ¬ kv.2.2 < now) (_user_cutoffs st) |}).

Definition get_revoked_count (now : Z) (st : store) : Z := Z.of_nat (size (_revoked_tokens st)).

End Memory.

#[export] Instance InMemoryRevocationStore : RevocationStore Memory.store := {|
  initial := {| Memory._revoked_tokens := ∅; Memory._user_tokens := ∅; Memory._user_cutoffs := ∅ |};
  revoke_token := Memory.revoke_token;
  is_revoked := Memory.is_revoked;
  revoke_all_user_tokens := Memory.revoke_all_user_tokens;
  revoked_before := Memory.revoked_before;
  cleanup_expired := Memory.cleanup_expired;
  get_revoked_count := Memory.get_revoked_count
|}.

(** ** PostgreSQL *)

Module Postgres.

Record row := { user_id : string; revoked_at : Z; expires_at : Z }.

(** The rows under their primary key [token_id]. *)
Notation table := (gmap string row).

(** [INSERT ... ON CONFLICT (token_id) DO NOTHING] *)
Definition revoke_token (now : Z) (token_id user_id : string) (t : table) : table :=
  match t !! token_id with
  | Some _ => t
  | None => <[token_id := {| user_id := user_id; revoked_at := now; expires_at := now + day |}]> t
  end.

Definition live (now : Z) (token_id : string) (t : table) : option row :=
  r ← t !! token_id; if now <? expires_at r then Some r else None.

Definition is_revoked (now : Z) (token_id : string) (t : table) : bool * table :=
  (match live now token_id t with Some _ => true | None => false end, t).

Definition _cutoff_token_id (user_id : string) : string := ("__all__" +:+ user_id)%stdpp.

(** [INSERT ... ON CONFLICT (token_id) DO UPDATE SET revoked_at, expires_at] *)
Definition revoke_all_user_tokens (now : Z) (user : string) (t : table) : table :=
  let key := _cutoff_token_id user in
  let owner := match t !! key with Some r => user_id r | None => user end in
  <[key := {| user_id := owner; revoked_at := now; expires_at := now + day |}]> t.

Definition revoked_before (now : Z) (user : string) (t : table) : option Z * table :=
  (revoked_at <$> live now (_cutoff_token_id user) t, t).

(** [DELETE ... WHERE expires_at <= NOW()] *)
Definition cleanup_expired (now : Z) (t : table) : Z * table :=
  (Z.of_nat (size (filter (λ kv, expires_at kv.2 <= now) t)), filter (λ kv, ¬ expires_at kv.2 <= now) t).

Definition get_revoked_count (now : Z) (t : table) : Z :=
  Z.of_nat (size (filter (λ kv, now < expires_at kv.2) t)).

End Postgres.

#[export] Instance PostgreSQLRevocationStore : RevocationStore Postgres.table := {|
  initial := ∅;
  revoke_token := Postgres.revoke_token;
  is_revoked := Postgres.is_revoked;
  revoke_all_user_tokens := Postgres.revoke_all_user_tokens;
  revoked_before := Postgres.revoked_before;
  cleanup_expired := Postgres.cleanup_expired;
  get_revoked_count := Postgres.get_revoked_count
|}.

(** ** The service *)

Record RevocationConfig := { enabled : bool; check_revocation : bool; ttl : Z; cleanup_interval : Z }.

(** The claims that are read: [iat] is [None] when it is missing, a bool or no number. *)
Record claims := { jti : option string; sub : option string; iat : option Z }.

(** [if value]: a claim that is there and not empty. *)
Definition given (claim : option string) : option string :=
  match claim with Some EmptyString => None | c => c end.

Module Service.
Section service.
Context {S : Type} `{RevocationStore S} (config : RevocationConfig).

Definition revoke_token (now : Z) (payload : claims) (store : S) : result S :=
  if negb (enabled config) then Ok store
  else match given (jti payload), given (sub payload) with
       | None, _ => Err ValueError
       | Some _, None => Err ValueError
       | Some token_id, Some user_id => Ok (revoke_token now token_id user_id store)
       end.

Definition is_token_revoked (now : Z) (payload : claims) (store : S) : bool * S :=
  if negb (enabled config) || negb (check_revocation config) then (false, store)
  else
    let '(found, store) :=
      match given (jti payload) with Some token_id => is_revoked now token_id store | None => (false, store) end in
    if found then (true, store)
    else match given (sub payload) with
         | None => (false, store)
         | Some user_id =>
             match revoked_before now user_id store with
             | (None, store) => (false, store)
             | (Some cutoff, store) =>
                 match iat payload with
                 | None => (true, store)
                 | Some issued_at => (issued_at <? cutoff, store)
                 end
             end
         end.

Definition revoke_all_user_tokens (now : Z) (user_id : string) (store : S) : S :=
  if negb (enabled config) then store else revoke_all_user_tokens now user_id store.

End service.
End Service.

(** ** The provider mixin *)

(** What a provider's own validation raises, or that the token is revoked. *)
Inductive refusal (E : Type) := NotValid (e : E) | Revoked.
Arguments NotValid {_} _.
Arguments Revoked {_}.

Module Mixin.
Section mixin.
Context {S E : Type} `{RevocationStore S} (config : option RevocationConfig).

(** [_original_validate_token] is the provider's; without a configuration there is no
    revocation service. *)
Definition validate_token (_original_validate_token : string → claims + E) (now : Z) (token : string)
    (store : S) : (claims + refusal E) * S :=
  match _original_validate_token token with
  | inr e => (inr (NotValid e), store)
  | inl payload =>
      match config with
      | None => (inl payload, store)
      | Some config =>
          match Service.is_token_revoked config now payload store with
          | (true, store) => (inr Revoked, store)
          | (false, store) => (inl payload, store)
          end
      end
  end.

Definition logout (now : Z) (payload : claims) (store : S) : result S :=
  match config with
  | None => Ok store
  | Some config => Service.revoke_token config now payload store
  end.

Definition logout_all_sessions (now : Z) (user_id : string) (store : S) : S :=
  match config with
  | None => store
  | Some config => Service.revoke_all_user_tokens config now user_id store
  end.

End mixin.
End Mixin.

(** * Laws: Laws of token revocation

    What a store promises about any history of calls, that both stores keep it, and what
    the service makes of it: revoked tokens are refused for a day and no others are. *)

(** ** Histories *)

Inductive event :=
| Revoke (token_id user_id : string)
| RevokeAll (user_id : string)
| AskToken (token_id : string)
| AskUser (user_id : string)
| Cleanup.

Definition history : Type := list (Z * event).

Section history.
Context {S : Type} `{RevocationStore S}.

Definition step (st : S) (te : Z * event) : S :=
  match te with
  | (now, Revoke token_id user_id) => revoke_token now token_id user_id st
  | (now, RevokeAll user_id) => revoke_all_user_tokens now user_id st
  | (now, AskToken token_id) => (is_revoked now token_id st).2
  | (now, AskUser user_id) => (revoked_before now user_id st).2
  | (now, Cleanup) => (cleanup_expired now st).2
  end.

Definition run (h : history) : S := foldl step initial h.

Lemma run_snoc h te : run (h ++ [te]) = step (run h) te.
Proof. unfold run. by rewrite foldl_app. Qed.
End history.

(** Nothing in the history is later than a moment, and times do not go back. *)
Definition until (h : history) (now : Z) : Prop := Forall (λ te, te.1 <= now) h.

Inductive in_order : history → Prop :=
| in_order_nil : in_order []
| in_order_snoc h te : in_order h → until h te.1 → in_order (h ++ [te]).

(** When a token was revoked, and when all tokens of a user were. *)
Definition revocations (h : history) (token_id : string) : list Z :=
  omap (λ te, match te.2 with
              | Revoke i _ => if decide (i = token_id) then Some te.1 else None
              | _ => None
              end) h.

Definition cutoffs (h : history) (user_id : string) : list Z :=
  omap (λ te, match te.2 with
              | RevokeAll u => if decide (u = user_id) then Some te.1 else None
              | _ => None
              end) h.

Definition names_only (names : string → bool) (h : history) : Prop :=
  Forall (λ te, match te.2 with Revoke i _ => names i = true | _ => True end) h.

(** ** The promise of a store

    [names] are the identifiers a token may have.  A token is revoked for a day from its
    first revocation and never without one; the cutoff of a user is the time of the last
    call for all of the user's tokens, for a day. *)
Record keeps_promise (S : Type) `{RevocationStore S} (names : string → bool) : Prop := {
  revoked_kept h now token_id t :
    in_order h → until h now → names_only names h → names token_id = true →
    head (revocations h token_id) = Some t → now < t + day →
    (is_revoked now token_id (run (S := S) h)).1 = true;
  revoked_only h now token_id :
    in_order h → until h now → names_only names h → names token_id = true →
    (is_revoked now token_id (run (S := S) h)).1 = true → revocations h token_id ≠ [];
  cutoff_kept h now user_id c :
    in_order h → until h now → names_only names h →
    last (cutoffs h user_id) = Some c → now < c + day →
    (revoked_before now user_id (run (S := S) h)).1 = Some c;
  cutoff_only h now user_id c :
    in_order h → until h now → names_only names h →
    (revoked_before now user_id (run (S := S) h)).1 = Some c → last (cutoffs h user_id) = Some c
}.

(** ** Histories and their last event *)

Lemma revocations_snoc h te token_id :
  revocations (h ++ [te]) token_id
  = revocations h token_id
    ++ match te.2 with
       | Revoke i _ => if decide (i = token_id) then [te.1] else []
       | _ => []
       end.
Proof.
  unfold revocations. rewrite omap_app. f_equal. cbn.
  by destruct te as [t []]; cbn; repeat case_decide.
Qed.

Lemma cutoffs_snoc h te user_id :
  cutoffs (h ++ [te]) user_id
  = cutoffs h user_id
    ++ match te.2 with
       | RevokeAll u => if decide (u = user_id) then [te.1] else []
       | _ => []
       end.
Proof.
  unfold cutoffs. rewrite omap_app. f_equal. cbn.
  by destruct te as [t []]; cbn; repeat case_decide.
Qed.

Lemma until_snoc h te now : until (h ++ [te]) now ↔ until h now ∧ te.1 <= now.
Proof. unfold until. by rewrite Forall_app, Forall_singleton. Qed.

Lemma in_order_snoc_inv h te : in_order (h ++ [te]) → in_order h ∧ until h te.1.
Proof.
  inversion 1 as [E|h' te' ? ? E]; [by destruct h|].
  by apply app_inj_tail in E as [-> ->].
Qed.

Lemma until_weaken h a b : until h a → a <= b → until h b.
Proof. intros Ha Hab. eapply Forall_impl; [exact Ha|]. cbn. lia. Qed.

(** ** The store in memory *)

Record memory_inv (h : history) (st : Memory.store) : Prop := {
  mem_only id e : Memory._revoked_tokens st !! id = Some e → revocations h id ≠ [];
  mem_users u ids id : Memory._user_tokens st !! u = Some ids → id ∈ ids → revocations h id ≠ [];
  mem_kept id t : t ∈ revocations h id → until h (t + day) →
    ∃ e, Memory._revoked_tokens st !! id = Some e ∧ t + day <= e;
  mem_cutoff u c e : Memory._user_cutoffs st !! u = Some (c, e) → last (cutoffs h u) = Some c ∧ e = c + day;
  mem_cutoff_kept u c : last (cutoffs h u) = Some c → until h (c + day) →
    Memory._user_cutoffs st !! u = Some (c, c + day)
}.

(** An event that revokes nothing: what is in the store stays or had its day. *)
Lemma memory_inv_quiet h now ev (st st' : Memory.store) :
  memory_inv h st → (∀ id, revocations (h ++ [(now, ev)]) id = revocations h id) →
  (∀ u, cutoffs (h ++ [(now, ev)]) u = cutoffs h u) →
  (∀ id e, Memory._revoked_tokens st' !! id = Some e → Memory._revoked_tokens st !! id = Some e) →
  (∀ id e, Memory._revoked_tokens st !! id = Some e → now <= e → Memory._revoked_tokens st' !! id = Some e) →
  (∀ u ids id, Memory._user_tokens st' !! u = Some ids → id ∈ ids →
     ∃ ids', Memory._user_tokens st !! u = Some ids' ∧ id ∈ ids') →
  (∀ u ce, Memory._user_cutoffs st' !! u = Some ce → Memory._user_cutoffs st !! u = Some ce) →
  (∀ u c e, Memory._user_cutoffs st !! u = Some (c, e) → now <= e → Memory._user_cutoffs st' !! u = Some (c, e)) →
  memory_inv (h ++ [(now, ev)]) st'.
Proof.
  intros [Honly Husers Hkept Hcut Hcutk] Hr Hc H1 H2 H3 H4 H5.
  split; intros; rewrite ?Hr, ?Hc in *.
  - eauto.
  - edestruct H3 as (ids' & ? & ?); eauto.
  - apply until_snoc in H0 as [Hh Hnow]. destruct (Hkept id t H Hh) as (e & He & Hle).
    exists e. split; [|done]. apply H2; [done|]. cbn in Hnow. lia.
  - eauto.
  - apply until_snoc in H0 as [Hh Hnow]. apply H5; [eauto|]. cbn in Hnow. lia.
Qed.

Lemma insert_all_lookup (X : gset string) (e : Z) (m : gmap string Z) id :
  set_fold (λ k m, <[k := e]> m) m X !! id = if decide (id ∈ X) then Some e else m !! id.
Proof.
  assert ((id ∈ X → set_fold (λ k m, <[k := e]> m) m X !! id = Some e)
          ∧ (id ∉ X → set_fold (λ k m, <[k := e]> m) m X !! id = m !! id)) as [H1 H2]; [|case_decide; auto].
  apply (set_fold_ind_L (λ r Y, (id ∈ Y → r !! id = Some e) ∧ (id ∉ Y → r !! id = m !! id))).
  - set_solver.
  - intros k Y r Hk [IH1 IH2]. destruct (decide (id = k)) as [->|Hne].
    + rewrite lookup_insert_eq. set_solver.
    + rewrite lookup_insert_ne by done. set_solver.
Qed.

Lemma revocations_until h id t now : t ∈ revocations h id → until h now → t <= now.
Proof.
  unfold revocations. intros ([t' ev] & Hte & Hev)%list_elem_of_omap Hu.
  unfold until in Hu. rewrite Forall_forall in Hu. specialize (Hu _ Hte). cbn in *.
  destruct ev; try done. case_decide; [|done]. injection Hev as <-. done.
Qed.

Lemma memory_inv_step h now ev (st : Memory.store) :
  memory_inv h st → until h now → memory_inv (h ++ [(now, ev)]) (step st (now, ev)).
Proof.
  intros Hinv Hnow. destruct ev as [i u|u|i|u|].
  - destruct Hinv as [Honly Husers Hkept Hcut Hcutk].
    split; intros *; rewrite ?revocations_snoc, ?cutoffs_snoc, ?until_snoc, ?app_nil_r; cbn.
    + destruct (decide (i = id)) as [->|Hne]; [intros _ E; by apply app_nil in E as [_ ?]|].
      rewrite lookup_insert_ne, app_nil_r by done. apply Honly.
    + destruct (decide (i = id)) as [->|Hne]; [intros _ _ E; by apply app_nil in E as [_ ?]|].
      rewrite app_nil_r. destruct (decide (u = u0)) as [->|Hu].
      * rewrite lookup_insert_eq. intros [= <-] [?%elem_of_singleton|Hid]%elem_of_union; [done|].
        destruct (Memory._user_tokens st !! u0) eqn:E; [by eapply Husers|set_solver].
      * rewrite lookup_insert_ne by done. apply Husers.
    + intros Ht [Hh _]. destruct (decide (i = id)) as [->|Hne].
      * rewrite lookup_insert_eq. eexists. split; [done|].
        apply elem_of_app in Ht as [Ht| ->%list_elem_of_singleton]; [|lia].
        pose proof (revocations_until _ _ _ _ Ht Hnow). lia.
      * rewrite lookup_insert_ne by done. apply Hkept; [by rewrite app_nil_r in Ht|done].
    + apply Hcut.
    + intros Hc [Hh _]. by apply Hcutk.
  - destruct Hinv as [Honly Husers Hkept Hcut Hcutk].
    split; intros *; rewrite ?revocations_snoc, ?cutoffs_snoc, ?until_snoc, ?app_nil_r; cbn.
    + rewrite insert_all_lookup. case_decide as Hid; [|apply Honly]. intros _.
      destruct (Memory._user_tokens st !! u) eqn:E; [by eapply Husers|set_solver].
    + apply Husers.
    + intros Ht [Hh _]. destruct (Hkept id t Ht Hh) as (e & He & Hle). rewrite insert_all_lookup.
      case_decide; [|by exists e]. eexists. split; [done|].
      pose proof (revocations_until _ _ _ _ Ht Hnow). lia.
    + destruct (decide (u = u0)) as [->|Hne].
      * rewrite lookup_insert_eq. intros [= <- <-]. by rewrite last_snoc.
      * rewrite lookup_insert_ne, app_nil_r by done. apply Hcut.
    + destruct (decide (u = u0)) as [->|Hne].
      * rewrite lookup_insert_eq, last_snoc. by intros [= <-].
      * rewrite lookup_insert_ne, app_nil_r by done. intros Hc [Hh _]. by apply Hcutk.
  - apply (memory_inv_quiet h now (AskToken i) st); try done;
      try (intros; rewrite ?revocations_snoc, ?cutoffs_snoc; by rewrite app_nil_r);
      cbn; unfold Memory.is_revoked; destruct (Memory._revoked_tokens st !! i) as [e|] eqn:E; try (by eauto);
      destruct (Z.ltb_spec e now); try (by eauto); cbn; intros *.
    + rewrite lookup_delete_Some. naive_solver.
    + intros Hid Hle. rewrite lookup_delete_Some. split; [|done]. intros ->. rewrite E in Hid. naive_solver lia.
  - apply (memory_inv_quiet h now (AskUser u) st); try done;
      try (intros; rewrite ?revocations_snoc, ?cutoffs_snoc; by rewrite app_nil_r);
      cbn; unfold Memory.revoked_before; destruct (Memory._user_cutoffs st !! u) as [[c e]|] eqn:E; try (by eauto);
      destruct (Z.ltb_spec e now); try (by eauto); cbn; intros *.
    + rewrite lookup_delete_Some. naive_solver.
    + intros Hid Hle. rewrite lookup_delete_Some. split; [|done]. intros ->. rewrite E in Hid. naive_solver lia.
  - apply (memory_inv_quiet h now Cleanup st); try done;
      try (intros; rewrite ?revocations_snoc, ?cutoffs_snoc; by rewrite app_nil_r); cbn; intros *.
    + rewrite map_lookup_filter_Some. tauto.
    + intros He Hle. apply map_lookup_filter_Some. cbn. split; [done|lia].
    + intros [Hu _]%map_lookup_filter_Some Hid. rewrite lookup_fmap in Hu.
      destruct (Memory._user_tokens st !! u) as [ids'|] eqn:E; [|done]. injection Hu as <-.
      exists ids'. set_solver.
    + rewrite map_lookup_filter_Some. tauto.
    + intros He Hle. apply map_lookup_filter_Some. cbn. split; [done|lia].
Qed.

Lemma memory_inv_run h : in_order h → memory_inv h (run h).
Proof.
  induction 1 as [|h [now ev] Hh IH Hu].
  - split; cbn; try done; by intros ? ? ?%elem_of_nil.
  - rewrite run_snoc. by apply memory_inv_step.
Qed.

Lemma memory_keeps : keeps_promise Memory.store (λ _, true).
Proof.
  split; intros h now x.
  - intros c Hh Hu _ _ Hc Hday. destruct (mem_kept _ _ (memory_inv_run h Hh) x c) as (e & He & Hle).
    + destruct (revocations h x); [done|]. injection Hc as ->. left.
    + eapply until_weaken; [exact Hu|lia].
    + cbn. unfold Memory.is_revoked. rewrite He. destruct (Z.ltb_spec e now); [lia|done].
  - intros Hh Hu _ _. cbn. unfold Memory.is_revoked. destruct (_ !! x) eqn:E; [|done].
    intros _. by apply (mem_only _ _ (memory_inv_run h Hh) _ _ E).
  - intros c Hh Hu _ Hc Hday. cbn. unfold Memory.revoked_before.
    rewrite (mem_cutoff_kept _ _ (memory_inv_run h Hh) x c); [|done|eapply until_weaken; [exact Hu|lia]].
    destruct (Z.ltb_spec (c + day) now); [lia|done].
  - intros c Hh Hu _. cbn. unfold Memory.revoked_before. destruct (_ !! x) as [[c' e]|] eqn:E; [|done].
    apply (mem_cutoff _ _ (memory_inv_run h Hh)) in E as [E _]. case_match; cbn; [done|]. by intros [= <-].
Qed.

(** ** The PostgreSQL store *)

(** Identifiers that are not the row of a user's cutoff. *)
Definition token_name (id : string) : bool := negb (String.prefix "__all__" id).

Lemma cutoff_no_token u : token_name (Postgres._cutoff_token_id u) = false.
Proof. unfold token_name, Postgres._cutoff_token_id. cbn. by destruct u. Qed.

Lemma cutoff_id_inj u v : Postgres._cutoff_token_id u = Postgres._cutoff_token_id v → u = v.
Proof. apply String.app_inj. Qed.

Record table_inv (h : history) (t : Postgres.table) : Prop := {
  row_of_token id r : t !! id = Some r → token_name id = true → revocations h id ≠ [];
  row_of_cutoff u r : t !! Postgres._cutoff_token_id u = Some r → last (cutoffs h u) = Some (Postgres.revoked_at r);
  token_row id c : head (revocations h id) = Some c → token_name id = true →
    Forall (λ te, te.1 < c + day) h → ∃ r, t !! id = Some r ∧ Postgres.expires_at r = c + day;
  cutoff_row u c : last (cutoffs h u) = Some c → Forall (λ te, te.1 < c + day) h →
    ∃ r, t !! Postgres._cutoff_token_id u = Some r ∧ Postgres.revoked_at r = c ∧ Postgres.expires_at r = c + day
}.

Lemma table_inv_step h now ev (t : Postgres.table) :
  table_inv h t → until h now → names_only token_name (h ++ [(now, ev)]) →
  table_inv (h ++ [(now, ev)]) (step t (now, ev)).
Proof.
  intros [Hrow Hcut Htok Hck] Hnow Hname. apply Forall_app in Hname as [_ Hname].
  rewrite Forall_singleton in Hname. cbn [snd] in Hname.
  assert (∀ c, Forall (λ te, te.1 < c + day) (h ++ [(now, ev)]) ↔
               Forall (λ te, te.1 < c + day) h ∧ now < c + day) as Hlater.
  { intros c. by rewrite Forall_app, Forall_singleton. }
  destruct ev as [i u|u|i|u|].
  - assert (∀ v, Postgres._cutoff_token_id v ≠ i) as Hni.
    { intros v <-. by rewrite cutoff_no_token in Hname. }
    split; intros *; rewrite ?revocations_snoc, ?cutoffs_snoc, ?Hlater, ?app_nil_r; cbn;
      unfold Postgres.revoke_token.
    + destruct (decide (i = id)) as [->|Hne]; [intros _ _ E; by apply app_nil in E as [_ ?]|].
      rewrite app_nil_r. destruct (t !! i); [apply Hrow|]. rewrite lookup_insert_ne by done. apply Hrow.
    + destruct (t !! i); [apply Hcut|]. rewrite lookup_insert_ne by done. apply Hcut.
    + destruct (decide (i = id)) as [->|Hne].
      * destruct (revocations h id) as [|c' l] eqn:E; cbn.
        -- intros [= <-] _ _. destruct (t !! id) as [r|] eqn:Et; [by apply Hrow in Et|].
           rewrite lookup_insert_eq. by eexists.
        -- intros [= ->] Hid [Hh _]. destruct (Htok id c) as (r & Hr & ?); [by rewrite E|done|done|].
           rewrite Hr. by exists r.
      * rewrite app_nil_r. intros Hc Hid [Hh _]. destruct (t !! i); [by apply Htok|].
        rewrite lookup_insert_ne by done. by apply Htok.
    + intros Hc [Hh _]. destruct (t !! i); [by apply Hck|]. rewrite lookup_insert_ne by done. by apply Hck.
  - split; intros *; rewrite ?revocations_snoc, ?cutoffs_snoc, ?Hlater, ?app_nil_r; cbn;
      unfold Postgres.revoke_all_user_tokens.
    + intros Hr Hid. rewrite lookup_insert_ne in Hr; [by eapply Hrow|]. intros <-. by rewrite cutoff_no_token in Hid.
    + destruct (decide (u = u0)) as [->|Hne].
      * rewrite lookup_insert_eq, last_snoc. by intros [= <-].
      * rewrite lookup_insert_ne, app_nil_r by (by intros ?%cutoff_id_inj). apply Hcut.
    + intros Hc Hid [Hh _]. rewrite lookup_insert_ne; [by apply Htok|]. intros <-. by rewrite cutoff_no_token in Hid.
    + destruct (decide (u = u0)) as [->|Hne].
      * rewrite lookup_insert_eq, last_snoc. intros [= <-] _. by eexists.
      * rewrite lookup_insert_ne, app_nil_r by (by intros ?%cutoff_id_inj). intros Hc [Hh _]. by apply Hck.
  - split; intros *; rewrite ?revocations_snoc, ?cutoffs_snoc, ?Hlater, ?app_nil_r; cbn;
      [apply Hrow|apply Hcut|intros ? ? [? _]; by apply Htok|intros ? [? _]; by apply Hck].
  - split; intros *; rewrite ?revocations_snoc, ?cutoffs_snoc, ?Hlater, ?app_nil_r; cbn;
      [apply Hrow|apply Hcut|intros ? ? [? _]; by apply Htok|intros ? [? _]; by apply Hck].
  - split; intros *; rewrite ?revocations_snoc, ?cutoffs_snoc, ?Hlater, ?app_nil_r; cbn.
    + intros [Hr _]%map_lookup_filter_Some. by eapply Hrow.
    + intros [Hr _]%map_lookup_filter_Some. by eapply Hcut.
    + intros Hc Hid [Hh Hle]. destruct (Htok id c Hc Hid Hh) as (r & Hr & He). exists r. split; [|done].
      apply map_lookup_filter_Some. cbn. split; [done|lia].
    + intros Hc [Hh Hle]. destruct (Hck u c Hc Hh) as (r & Hr & Hat & He). exists r. split; [|done].
      apply map_lookup_filter_Some. cbn. split; [done|lia].
Qed.

Lemma table_inv_run h : in_order h → names_only token_name h → table_inv h (run h).
Proof.
  induction 1 as [|h [now ev] Hh IH Hu]; intros Hn.
  - by split.
  - rewrite run_snoc. apply table_inv_step; [|done|done]. apply IH. by apply Forall_app in Hn as [? _].
Qed.

Lemma until_before h now c : until h now → now < c → Forall (λ te, te.1 < c) h.
Proof. intros Hu Hc. eapply Forall_impl; [exact Hu|]. cbn. lia. Qed.

Lemma postgres_keeps : keeps_promise Postgres.table token_name.
Proof.
  split; intros h now x.
  - intros c Hh Hu Hn Hx Hc Hday.
    pose proof (table_inv_run h Hh Hn) as [Hrow Hcut Htok Hck]. destruct (Htok x c Hc Hx) as (r & Hr & He); [by eapply until_before|].
    cbn. unfold Postgres.is_revoked, Postgres.live. rewrite Hr. cbn. rewrite He.
    destruct (Z.ltb_spec now (c + day)); [done|lia].
  - intros Hh Hu Hn Hx. pose proof (table_inv_run h Hh Hn) as [Hrow Hcut Htok Hck].
    cbn. unfold Postgres.is_revoked, Postgres.live. destruct (run h !! x) as [r|] eqn:E; [|done].
    intros _. by eapply Hrow.
  - intros c Hh Hu Hn Hc Hday. pose proof (table_inv_run h Hh Hn) as [Hrow Hcut Htok Hck]. destruct (Hck x c Hc) as (r & Hr & Hat & He); [by eapply until_before|].
    cbn. unfold Postgres.revoked_before, Postgres.live. rewrite Hr. cbn. rewrite He.
    destruct (Z.ltb_spec now (c + day)); [cbn; by rewrite Hat|lia].
  - intros c Hh Hu Hn. pose proof (table_inv_run h Hh Hn) as [Hrow Hcut Htok Hck].
    cbn. unfold Postgres.revoked_before, Postgres.live. destruct (run h !! _) as [r|] eqn:E; [|done].
    cbn. apply Hcut in E. case_match; [|done]. cbn. intros [= <-]. done.
Qed.

(** ** Theorems *)


Lemma in_order_ask h now id : in_order h → until h now → in_order (h ++ [(now, AskToken id)]).
Proof. intros Hh Hu. by constructor. Qed.

(** The service over any store that keeps the promise: a token is refused for a day
    from its first revocation, and for a day from the last call for all of its user's
    tokens when it was issued before that or does not tell; and no other token is
    refused. *)
Theorem service_refuses_revoked_tokens {S : Type} `{RevocationStore S} names config h now payload j u :
  keeps_promise S names → enabled config = true → check_revocation config = true →
  in_order h → until h now → names_only names h →
  given (jti payload) = Some j → names j = true → given (sub payload) = Some u →
  let refused := (Service.is_token_revoked config now payload (run (S := S) h)).1 in
  (∀ t, head (revocations h j) = Some t → now < t + day → refused = true)
  ∧ (∀ c, last (cutoffs h u) = Some c → now < c + day →
       match iat payload with Some i => i < c | None => True end → refused = true)
  ∧ (revocations h j = [] →
       match last (cutoffs h u), iat payload with
       | None, _ => True
       | Some c, Some i => c <= i
       | Some _, None => False
       end → refused = false).
Proof.
  intros Hp He Hc Hh Hu Hn Hj Hnj Hsub refused. subst refused.
  unfold Service.is_token_revoked. rewrite He, Hc, Hj, Hsub. cbn [negb orb].
  destruct (is_revoked now j (run h)) as [found st] eqn:E.
  assert (run (h ++ [(now, AskToken j)]) = st) as Hst by (rewrite run_snoc; cbn; by rewrite E).
  assert (cutoffs (h ++ [(now, AskToken j)]) u = cutoffs h u) as Hcut by (rewrite cutoffs_snoc; by rewrite app_nil_r).
  assert (in_order (h ++ [(now, AskToken j)])) as Hh' by by apply in_order_ask.
  assert (until (h ++ [(now, AskToken j)]) now) as Hu' by (apply until_snoc; split; [done|cbn; lia]).
  assert (names_only names (h ++ [(now, AskToken j)])) as Hn' by (apply Forall_app; split; [done|by repeat constructor]).
  split; [|split].
  - intros t Ht Hday. pose proof (revoked_kept _ _ Hp h now j t Hh Hu Hn Hnj Ht Hday) as Hr.
    rewrite E in Hr. cbn in Hr. by rewrite Hr.
  - intros c Hlast Hday Hiat. destruct found; [done|].
    rewrite <- Hcut in Hlast. pose proof (cutoff_kept _ _ Hp _ now u c Hh' Hu' Hn' Hlast Hday) as Hr.
    rewrite Hst in Hr. destruct (revoked_before now u st) as [b st']. cbn in Hr. subst b.
    destruct (iat payload); [|done]. cbn. by apply Z.ltb_lt.
  - intros Hnone Hiat. destruct found.
    { exfalso. apply (revoked_only _ _ Hp h now j Hh Hu Hn Hnj); [by rewrite E|done]. }
    destruct (revoked_before now u st) as [[c|] st'] eqn:Eb; [|done].
    assert (last (cutoffs h u) = Some c) as Hlast.
    { rewrite <- Hcut. apply (cutoff_only _ _ Hp _ now u c Hh' Hu' Hn'). by rewrite Hst, Eb. }
    rewrite Hlast in Hiat. destruct (iat payload); [|done]. cbn. by apply Z.ltb_ge.
Qed.

Definition session : history :=
  [(10, Revoke "t1" "ann"); (20, RevokeAll "bob"); (30, Cleanup)].

Definition on : RevocationConfig :=
  {| enabled := true; check_revocation := true; ttl := 86400; cleanup_interval := 3600 |}.

Lemma service_refuses_revoked_tokens_witness :
  let refused p := (Service.is_token_revoked on 40 p (run (S := gmap string Postgres.row) session)).1 in
  refused {| jti := Some "t1"; sub := Some "ann"; iat := Some 5 |} = true
  ∧ refused {| jti := Some "t2"; sub := Some "bob"; iat := Some 5 |} = true
  ∧ refused {| jti := Some "t3"; sub := Some "bob"; iat := Some 25 |} = false.
Proof.
  assert (in_order session) as Hh.
  { unfold session. apply (in_order_snoc [_; _] (30, Cleanup)); [|by repeat constructor].
    apply (in_order_snoc [_] (20, RevokeAll "bob")); [|by repeat constructor].
    apply (in_order_snoc [] (10, Revoke "t1" "ann")); [constructor|by repeat constructor]. }
  assert (until session 40) as Hu by (by repeat constructor).
  assert (names_only token_name session) as Hn by (by repeat constructor).
  pose proof (λ p j u, service_refuses_revoked_tokens (S := gmap string Postgres.row) token_name on session
                40 p j u postgres_keeps eq_refl eq_refl Hh Hu Hn) as thm.
  split; [|split].
  - by apply (proj1 (thm {| jti := Some "t1"; sub := Some "ann"; iat := Some 5 |} "t1" "ann" eq_refl eq_refl eq_refl) 10).
  - by apply (proj1 (proj2 (thm {| jti := Some "t2"; sub := Some "bob"; iat := Some 5 |} "t2" "bob" eq_refl eq_refl eq_refl)) 20).
  - by apply (proj2 (proj2 (thm {| jti := Some "t3"; sub := Some "bob"; iat := Some 25 |} "t3" "bob" eq_refl eq_refl eq_refl))).
Defined.

(** The PostgreSQL store does not extend a revocation: a token whose revocation is over
    but not cleaned up yet cannot be revoked again, where the store in memory can. *)
Lemma revoking_again_is_lost now id user (t : gmap string Postgres.row) r :
  t !! id = Some r → Postgres.expires_at r <= now →
  (Postgres.is_revoked now id (Postgres.revoke_token now id user t)).1 = false.
Proof.
  intros Hr He. unfold Postgres.is_revoked, Postgres.live, Postgres.revoke_token. rewrite Hr, Hr. cbn.
  destruct (Z.ltb_spec now (Postgres.expires_at r)); [lia|done].
Qed.

Lemma memory_revokes_again now id user (st : Memory.store) :
  (Memory.is_revoked now id (Memory.revoke_token now id user st)).1 = true.
Proof.
  unfold Memory.is_revoked, Memory.revoke_token. cbn. rewrite lookup_insert_eq.
  destruct (Z.ltb_spec (now + day) now) as [H|H]; [unfold day in H; lia|done].
Qed.

(** After its day a revoked token is accepted again, whatever its own expiry is. *)
Example a_day_later :
  (Service.is_token_revoked on (10 + day + 1) {| jti := Some "t1"; sub := Some "ann"; iat := Some 5 |}
     (run (S := Memory.store) session)).1 = false.
Proof. by vm_compute. Qed.
