(* ===== verification/Apq.v ===== *)
(** * Automatic persisted queries and their response cache

    [storage/apq_store.py], [storage/backends/memory.py], [middleware/apq_caching.py],
    [middleware/apq_selection.py], and the step of the route that resolves a request to
    a query ([fastapi/routers.py]).  SHA-256 is the parameter [sha256], graphql-core's
    parser the parameter [parse]; a clock reading is a number. *)
From stdpp Require Import base decidable strings list gmap sorting.
From Stdlib Require Import ZArith Lia Ascii.
From S2P Require Import Prelude PyVal QueryLimits.

Local Open Scope py_scope.
Local Open Scope Z_scope.

(** A JSON object. *)
Definition json_object : Type := list (string * pyval).

(** ** [json.dumps(v, sort_keys=True, separators=(",", ":"))] *)

Definition sort_keys (d : list (string * string)) : list (string * string) :=
  merge_sort (λ a b, String.le a.1 b.1) d.

Definition members (d : list (string * string)) : string :=
  Str.join "," (map (λ kv, (Json.quoted kv.1 +:+ ":" +:+ kv.2)%stdpp) d).

Fixpoint dumps (v : pyval) : result string :=
  match v with
  | PNone => Ok "null"
  | PBool b => Ok (if b then "true" else "false")
  | PInt z => Ok (Num.string_of_Z z)
  | PFloat f => Ok (Json.float f)
  | PStr s => Ok (Json.quoted s)
  | PList l | PTuple l => ts ← mapR dumps l; Ok ("[" +:+ Str.join "," ts +:+ "]")%stdpp
  | PDict d =>
      ts ← mapR (λ kv, t ← dumps kv.2; Ok (kv.1, t)) d;
      Ok ("{" +:+ members (sort_keys ts) +:+ "}")%stdpp
  | _ => Err TypeError
  end.

(** ** Filtering a response by the selection of its query *)

Definition extract_selection_set (document : option (list definition)) (operation_name : option string)
    : option (list selection) :=
  let fix find (l : list definition) :=
    match l with
    | [] => None
    | OperationDefinitionNode o :: l' =>
        match operation_name with
        | Some n => if bool_decide (op_name o = Some n) then Some (op_selections o) else find l'
        | None => Some (op_selections o)
        end
    | _ :: l' => find l'
    end in
  d ← document; find d.

Definition extract_fragments (document : option (list definition)) : list (string * fragment) :=
  match document with Some d => fragments_of d | None => [] end.

Section filter.
Context (fragments : list (string * fragment)).

(** [filtered.update(nested)] *)
Definition update (filtered nested : json_object) : json_object :=
  foldl (λ d kv, dict_set kv.1 kv.2 d) filtered nested.

(** The value a field takes from the data: under its response key, else its name. *)
Definition field_value (data : json_object) (response_key field_name : string) : option pyval :=
  match dict_get response_key data with Some v => Some v | None => dict_get field_name data end.

(** [_filter_data_by_selection] and [_handle_field_selection]; the fuel is the depth of
    calls the interpreter allows. *)
Fixpoint _filter_data_by_selection (depth : nat) (data : pyval) (selections : list selection) : result pyval :=
  match depth with
  | O => Err RecursionError
  | S depth =>
      match data with
      | PList items => PList <$> mapR (λ item, _filter_data_by_selection depth item selections) items
      | PDict data =>
          (fix loop (l : list selection) (filtered : json_object) : result pyval :=
             match l with
             | [] => Ok (PDict filtered)
             | FieldNode alias field_name _ nested :: l' =>
                 let response_key := default field_name alias in
                 match field_value data response_key field_name with
                 | None => loop l' filtered
                 | Some value =>
                     match nested with
                     | Some sels =>
                         v ← _filter_data_by_selection depth value sels;
                         loop l' (dict_set response_key v filtered)
                     | None => loop l' (dict_set response_key value filtered)
                     end
                 end
             | FragmentSpreadNode name :: l' =>
                 match dict_get name fragments with
                 | Some f =>
                     v ← _filter_data_by_selection depth (PDict data) (fragment_selections f);
                     loop l' (match v with PDict nested => update filtered nested | _ => filtered end)
                 | None => loop l' filtered
                 end
             | InlineFragmentNode _ sels :: l' =>
                 v ← _filter_data_by_selection depth (PDict data) sels;
                 loop l' (match v with PDict nested => update filtered nested | _ => filtered end)
             end) selections []
      | v => Ok v
      end
  end.

Definition filter_response_by_selection (depth : nat) (response : json_object) (selections : list selection)
    : result json_object :=
  match dict_get "data" response with
  | None | Some PNone => Ok response
  | Some data =>
      filtered ← _filter_data_by_selection depth data selections;
      Ok (dict_set "data" filtered response)
  end.
End filter.

(** ** The backend in memory *)

Record backend := {
  _query_storage : gmap string string;
  _response_storage : gmap string json_object;
  _response_stored_at : gmap string Z;
  _response_ttl : option Z
}.

Definition MemoryAPQBackend (response_ttl : option Z) : backend :=
  {| _query_storage := ∅; _response_storage := ∅; _response_stored_at := ∅;
     _response_ttl := match response_ttl with Some 0 => None | t => t end |}.

(** A context: [None] and an empty dictionary are both false. *)
Definition context : Type := option json_object.

Definition context_items (c : context) : json_object := default [] c.

(** [extract_tenant_id] *)
Definition extract_tenant_id (c : context) : option pyval :=
  let c := context_items c in
  let direct := dict_get "tenant_id" c in
  match dict_get "user" c with
  | Some (PDict user) =>
      match dict_get "metadata" user with
      | Some (PDict metadata) =>
          match dict_get "tenant_id" metadata with
          | Some t => Some t
          | None => match dict_get "tenant_id" user with Some t => Some t | None => direct end
          end
      | _ => match dict_get "tenant_id" user with Some t => Some t | None => direct end
      end
  | _ => direct
  end.

(** The tenant a key is kept apart by. *)
Definition tenant_of (c : context) : option string :=
  match extract_tenant_id c with
  | Some t => if Py.truthy t then Some (Py.str t) else None
  | None => None
  end.

Definition _get_cache_key (hash_value : string) (c : context) : string :=
  match tenant_of c with
  | Some tenant_id => (tenant_id +:+ ":" +:+ hash_value)%stdpp
  | None => hash_value
  end.

Definition get_persisted_query (hash_value : string) (b : backend) : option string :=
  if Str.nonempty hash_value then _query_storage b !! hash_value else None.

Definition drop_response (key : string) (b : backend) : backend :=
  {| _query_storage := _query_storage b;
     _response_storage := delete key (_response_storage b);
     _response_stored_at := delete key (_response_stored_at b);
     _response_ttl := _response_ttl b |}.

Definition get_cached_response (now : Z) (hash_value : string) (c : context) (b : backend)
    : option json_object * backend :=
  if negb (Str.nonempty hash_value) then (None, b)
  else
    let cache_key := _get_cache_key hash_value c in
    let b :=
      match _response_ttl b, _response_storage b !! cache_key with
      | Some ttl, Some _ =>
          let stored_at := default 0 (_response_stored_at b !! cache_key) in
          if ttl <=? now - stored_at then drop_response cache_key b else b
      | _, _ => b
      end in
    (_response_storage b !! cache_key, b).

Definition store_cached_response (now : Z) (hash_value : string) (response : json_object) (c : context)
    (b : backend) : backend :=
  let cache_key := _get_cache_key hash_value c in
  {| _query_storage := _query_storage b;
     _response_storage := <[cache_key := response]> (_response_storage b);
     _response_stored_at := <[cache_key := now]> (_response_stored_at b);
     _response_ttl := _response_ttl b |}.

Section apq.
Context (sha256 : string → string) (parse : string → option (list definition)) (depth : nat).

Definition compute_query_hash : string → string := sha256.

Definition check_query_hash (hash_value query : string) : result () :=
  if hash_value =s compute_query_hash query then Ok () else Err ValueError.

Definition store_in_backend (hash_value query : string) (b : backend) : result backend :=
  _ ← check_query_hash hash_value query;
  Ok {| _query_storage := <[hash_value := query]> (_query_storage b);
        _response_storage := _response_storage b;
        _response_stored_at := _response_stored_at b;
        _response_ttl := _response_ttl b |}.

Definition blank (s : string) : bool := negb (Str.nonempty (Str.strip s)).

(** [apq_store.store_persisted_query] on the module's own backend *)
Definition store_persisted_query (hash_value query : string) (b : backend) : result backend :=
  if blank hash_value then Err ValueError
  else if blank query then Err ValueError
  else store_in_backend hash_value query b.

(** ** The key of a response *)

Definition compute_response_cache_key (query_hash : string) (variables : option json_object)
    (user_id : option string) : result string :=
  match user_id with
  | Some user =>
      combined ← dumps (PList [PStr query_hash; PDict (default [] variables); PStr user]);
      Ok (sha256 ("user:" +:+ combined)%stdpp)
  | None =>
      match variables with
      | None | Some [] => Ok query_hash
      | Some d =>
          var_str ← dumps (PDict d);
          Ok (sha256 (query_hash +:+ ":" +:+ var_str)%stdpp)
      end
  end.

Definition _USER_ID_KEYS : list string := ["user_id"; "id"; "sub"].

Definition no_identifier (v : pyval) : bool :=
  match v with PNone | PBool _ | PDict _ | PList _ | PTuple _ => true | _ => false end.

Fixpoint user_id_of (keys : list string) (user : pyval) : option string :=
  match keys with
  | [] => None
  | key :: keys =>
      let value := match user with PDict d => Py.get key d | u => default PNone (Py.attr key u) end in
      if no_identifier value then user_id_of keys user
      else if Str.nonempty (Py.str value) then Some (Py.str value) else user_id_of keys user
  end.

(** Whether a response may be cached, and for whom. *)
Definition response_cache_user_id (c : context) : bool * option string :=
  match context_items c with
  | [] => (true, None)
  | items =>
      match Py.get "user" items with
      | PNone => (negb (Py.truthy (default (PBool false) (dict_get "authenticated" items))), None)
      | user => match user_id_of _USER_ID_KEYS user with
                | Some text => (true, Some text)
                | None => (false, None)
                end
      end
  end.

(** ** Requests *)

(** [persisted] is [extensions["persistedQuery"]["sha256Hash"]] when there is one: the
    request's validation makes it a text that is not empty. *)
Record request := {
  query : option string;
  variables : option json_object;
  operationName : option string;
  persisted : option string
}.

Inductive mode := OPTIONAL | REQUIRED | DISABLED.

Definition allows_arbitrary_queries (m : mode) : bool := match m with REQUIRED => false | _ => true end.
Definition processes_apq (m : mode) : bool := match m with DISABLED => false | _ => true end.

Record settings := { apq_mode : mode; apq_cache_responses : bool }.

(** The response filtered by the query persisted under the hash, when it has one. *)
Definition filter_cached (query_text : option string) (operation_name : option string)
    (response : json_object) : result json_object :=
  match query_text with
  | Some (String _ _ as text) =>
      match extract_selection_set (parse text) operation_name with
      | Some ((_ :: _) as selections) =>
          filter_response_by_selection (extract_fragments (parse text)) depth response selections
      | _ => Ok response
      end
  | _ => Ok response
  end.

Definition handle_apq_request_with_cache (now : Z) (r : request) (s : settings) (c : context) (b : backend)
    : option json_object * backend :=
  if negb (apq_cache_responses s) then (None, b)
  else
    match persisted r with
    | None | Some EmptyString => (None, b)
    | Some sha256_hash =>
        match response_cache_user_id c with
        | (false, _) => (None, b)
        | (true, user_id) =>
            match compute_response_cache_key sha256_hash (variables r) user_id with
            | Err _ => (None, b)
            | Ok key =>
                match get_cached_response now key c b with
                | (Some ((_ :: _) as cached), b) =>
                    match filter_cached (get_persisted_query sha256_hash b) (operationName r) cached with
                    | Ok filtered => (Some filtered, b)
                    | Err _ => (None, b)
                    end
                | (_, b) => (None, b)
                end
            end
        end
    end.

Definition store_response_in_cache (now : Z) (hash_value : string) (response : json_object) (s : settings)
    (variables : option json_object) (c : context) (query_text operation_name : option string) (b : backend)
    : backend :=
  if negb (apq_cache_responses s) then b
  else if dict_has "errors" response then b
  else if negb (dict_has "data" response) then b
  else
    match response_cache_user_id c with
    | (false, _) => b
    | (true, user_id) =>
        match filter_cached query_text operation_name response with
        | Err _ => b
        | Ok filtered =>
            match compute_response_cache_key hash_value variables user_id with
            | Err _ => b
            | Ok key => store_cached_response now key filtered c b
            end
        end
    end.

(** What the route answered: a dictionary, or a [Response] with its status, media type
    and the reading of its body as JSON. *)
Inductive route_result :=
| Dict (response : json_object)
| Response (status_code : Z) (media_type : string) (body : option (result pyval)).

(** [_is_query_operation]; [get_operation_ast] is graphql-core's. *)
Definition _is_query_operation (get_operation_ast : list definition → option string → option operation)
    (query_text : string) (operation_name : option string) : bool :=
  match parse query_text with
  | None => false
  | Some d => match get_operation_ast d operation_name with
              | Some o => match op_type o with Query => true | _ => false end
              | None => false
              end
  end.

(** The response of a result, when it can be cached. *)
Definition response_of (result : route_result) : option json_object :=
  match result with
  | Dict response => Some response
  | Response status_code media_type (Some (Ok (PDict response))) =>
      if (status_code =? 200) && Str.has_sub "json" media_type then Some response else None
  | _ => None
  end.

Definition without_extensions (response : json_object) : json_object :=
  filter (λ kv, kv.1 ≠ "extensions") response.

Definition store_executed_response (get_operation_ast : list definition → option string → option operation)
    (now : Z) (result : route_result) (hash_value query_text : string) (s : settings)
    (variables : option json_object) (c : context) (operation_name : option string) (b : backend) : backend :=
  if negb (_is_query_operation get_operation_ast query_text operation_name) then b
  else
    match response_of result with
    | None => b
    | Some response =>
        store_response_in_cache now hash_value (without_extensions response) s variables c
          (Some query_text) operation_name b
    end.

(** ** The step of the route *)

Inductive outcome :=
| Refuse (code : string)
| Forbidden
| Served (response : json_object)
| Execute (query : option string) (cache_target : option (string * string)).

(** The two stores: the route's backend and the module's own. *)
Record stores := { apq_backend : backend; global_backend : backend }.

Definition lookup_query (hash_value : string) (st : stores) : option string :=
  match get_persisted_query hash_value (apq_backend st) with
  | Some (String _ _ as q) => Some q
  | _ => get_persisted_query hash_value (global_backend st)
  end.

(** What is executed for an APQ request, and where its response goes. *)
Definition execute (s : settings) (hash_value : string) (q : string) : outcome :=
  Execute (Some q) (if apq_cache_responses s && Str.nonempty q then Some (hash_value, q) else None).

(** [_execute_graphql_request] up to the query limits, without an operation authorizer;
    [field_gate] is the authorisation of a query's fields. *)
Definition resolve_apq (field_gate : string → bool) (now : Z) (r : request) (s : settings) (c : context)
    (st : stores) : result (outcome * stores) :=
  match persisted r with
  | None =>
      if negb (allows_arbitrary_queries (apq_mode s)) then Ok (Refuse "ARBITRARY_QUERY_NOT_ALLOWED", st)
      else Ok (Execute (query r) None, st)
  | Some hash_value =>
      if negb (processes_apq (apq_mode s)) then Ok (Execute (query r) None, st)
      else if blank hash_value then Ok (Refuse "PERSISTED_QUERY_NOT_FOUND", st)
      else
        match query r with
        | Some (String _ _ as q) =>
            if negb (compute_query_hash q =s hash_value) then Ok (Refuse "BAD_REQUEST", st)
            else if negb (allows_arbitrary_queries (apq_mode s)) then
              match lookup_query hash_value st with
              | Some (String _ _ as approved) => Ok (execute s hash_value approved, st)
              | _ => Ok (Refuse "PERSISTED_QUERY_NOT_IN_LIST", st)
              end
            else
              g ← store_persisted_query hash_value q (global_backend st);
              b ← store_in_backend hash_value q (apq_backend st);
              Ok (execute s hash_value q, {| apq_backend := b; global_backend := g |})
        | _ =>
            let '(cached, b) := handle_apq_request_with_cache now r s c (apq_backend st) in
            let st := {| apq_backend := b; global_backend := global_backend st |} in
            match cached with
            | Some ((_ :: _) as response) =>
                match get_persisted_query hash_value b with
                | Some (String _ _ as text) =>
                    if field_gate text then Ok (Served response, st) else Ok (Forbidden, st)
                | _ => Ok (Served response, st)
                end
            | _ =>
                match lookup_query hash_value st with
                | Some (String _ _ as q) => Ok (execute s hash_value q, st)
                | _ => Ok (Refuse "PERSISTED_QUERY_NOT_FOUND", st)
                end
            end
        end
  end.

(** [graphql_endpoint]: [run] is the rest of the route on the query resolved (the query
    limits and the execution), which ends at [later]. *)
Definition graphql_endpoint (get_operation_ast : list definition → option string → option operation)
    (field_gate : string → bool) (run : option string → route_result) (now later : Z) (r : request)
    (s : settings) (c : context) (st : stores) : result (outcome * stores) :=
  '(o, st) ← resolve_apq field_gate now r s c st;
  match o with
  | Execute q (Some (hash_value, query_text)) =>
      Ok (o, {| apq_backend := store_executed_response get_operation_ast later (run q) hash_value query_text s
                                 (variables r) c (operationName r) (apq_backend st);
                global_backend := global_backend st |})
  | _ => Ok (o, st)
  end.
End apq.
