(* ===== verification/CompactJson.v ===== *)
(** * The compact JSON text of values

    The text [Apq.dumps] writes for a dictionary can be told apart from what follows it:
    a reader that counts brackets outside of texts ends exactly at its last brace.  Two
    dictionaries followed by anything have the same text only when the texts agree, and
    a quoted text determines what it quotes. *)
From stdpp Require Import base decidable strings list sorting pretty.
From Stdlib Require Import ZArith NArith Lia Ascii.
From S2P Require Import Prelude PyVal Apq.

Local Open Scope py_scope.
Local Open Scope Z_scope.

(** ** Reading over a value *)

(** What a reader is in: outside of texts, in a text, or after a backslash in one. *)
Inductive place := Outside | Inside | Escaped.

Definition opens (c : ascii) : bool := Ascii.eqb c "[" || Ascii.eqb c "{".
Definition closes (c : ascii) : bool := Ascii.eqb c "]" || Ascii.eqb c "}".

(** The text after the bracket that closes [n] open ones. *)
Fixpoint skip (n : nat) (p : place) (s : string) : option string :=
  match s with
  | EmptyString => None
  | String c s =>
      match p with
      | Outside =>
          if Ascii.eqb c Py.dquote then skip n Inside s
          else if opens c then skip (S n) Outside s
          else if closes c then
            match n with
            | O => None
            | S O => Some s
            | S n => skip n Outside s
            end
          else skip n Outside s
      | Inside =>
          if Ascii.eqb c Py.dquote then skip n Outside s
          else if Ascii.eqb c "\" then skip n Escaped s
          else skip n Inside s
      | Escaped => skip n Inside s
      end
  end.

(** A text the reader goes over, at any depth inside of brackets. *)
Definition even (t : string) : Prop :=
  ∀ n r, (0 < n)%nat → skip n Outside (t +:+ r)%stdpp = skip n Outside r.

Definition plain (c : ascii) : bool := negb (Ascii.eqb c Py.dquote || opens c || closes c).

Lemma plain_char c n r :
  plain c = true → skip n Outside (String c r) = skip n Outside r.
Proof.
  unfold plain. cbn.
  destruct (Ascii.eqb c Py.dquote); [done|]. destruct (opens c); [done|]. by destruct (closes c).
Qed.

Lemma plain_even t : Str.forallb plain t = true → even t.
Proof.
  intros Ht n r _. revert Ht. induction t as [|c t IH]; intros Ht; [done|].
  cbn [Str.forallb] in Ht. apply andb_true_iff in Ht as [Hc Ht].
  rewrite app_cons_str, plain_char; auto.
Qed.

Lemma even_app s t : even s → even t → even (s +:+ t)%stdpp.
Proof. intros Hs Ht n r Hn. rewrite app_assoc_str, Hs, Ht; done. Qed.

Lemma even_nil : even EmptyString.
Proof. done. Qed.

Lemma even_brackets (o c : ascii) t :
  plain o = false → opens o = true → Ascii.eqb o Py.dquote = false →
  closes c = true → opens c = false → Ascii.eqb c Py.dquote = false →
  even t → even (String o (t +:+ String c EmptyString))%stdpp.
Proof.
  intros _ Ho Hq Hc Hc' Hcq Ht n r Hn. rewrite app_cons_str, app_assoc_str. cbn [skip]. rewrite Hq, Ho.
  rewrite Ht by lia. rewrite app_cons_str, app_nil_l_str. cbn [skip]. rewrite Hcq, Hc', Hc.
  by destruct n; [lia|].
Qed.

Lemma even_join sep l : even sep → Forall even l → even (Str.join sep l).
Proof.
  intros Hs Hl. induction Hl as [|t l Ht Hl IH]; [apply even_nil|]. cbn.
  destruct l; [done|]. apply even_app, even_app; done.
Qed.

(** ** Texts *)

Lemma escaped_inside c n r : skip n Inside (Json.esc c +:+ r)%stdpp = skip n Inside r.
Proof. by destruct c as [[] [] [] [] [] [] [] []]. Qed.

Lemma quoted_even s : even (Json.quoted s).
Proof.
  intros n r _. unfold Json.quoted. rewrite app_cons_str, app_assoc_str.
  change (skip n Inside (Json.esc_all s +:+ String Py.dquote r)%stdpp = skip n Outside r).
  induction s as [|c s IH]; [done|]. cbn [Json.esc_all]. by rewrite app_assoc_str, escaped_inside.
Qed.

(** No escape is the beginning of another, nor of the closing quote. *)
Definition starts (p s : string) : bool := Str.starts_with p s.

Definition all_chars : list ascii := map ascii_of_nat (seq 0 256).

Lemma all_chars_in c : In c all_chars.
Proof.
  unfold all_chars. apply in_map_iff. exists (nat_of_ascii c). split; [apply ascii_nat_embedding|].
  apply in_seq. pose proof (nat_ascii_bounded c). lia.
Qed.

Lemma escapes_apart : List.forallb (λ c, List.forallb (λ c',
  Ascii.eqb c c' || negb (starts (Json.esc c) (Json.esc c'))) all_chars) all_chars = true.
Proof. vm_compute. reflexivity. Qed.

Lemma esc_apart c c' : c ≠ c' → starts (Json.esc c) (Json.esc c') = false.
Proof.
  intros Hne. pose proof escapes_apart as H. rewrite List.forallb_forall in H.
  specialize (H c (all_chars_in c)). rewrite List.forallb_forall in H.
  specialize (H c' (all_chars_in c')). apply orb_true_iff in H as [H|H].
  - by apply Ascii.eqb_eq in H.
  - by apply negb_true_iff in H.
Qed.

Lemma starts_app p s r q : (p +:+ r)%stdpp = (s +:+ q)%stdpp → starts p s = true ∨ starts s p = true.
Proof.
  revert s. induction p as [|c p IH]; intros s H; [by left|].
  destruct s as [|c' s]; [by right|]. cbn in H. injection H as -> H.
  destruct (IH _ H) as [Hs|Hs]; [left|right]; cbn; rewrite Ascii.eqb_refl; done.
Qed.

Lemma esc_inj c c' r r' :
  (Json.esc c +:+ r)%stdpp = (Json.esc c' +:+ r')%stdpp → c = c' ∧ r = r'.
Proof.
  intros H. destruct (decide (c = c')) as [->|Hne].
  - split; [done|]. induction (Json.esc c') as [|a t IH]; [done|]. cbn in H. by injection H as H; auto.
  - exfalso. destruct (starts_app _ _ _ _ H) as [Hs|Hs]; by rewrite esc_apart in Hs.
Qed.

Lemma esc_not_quote c r q : (Json.esc c +:+ r)%stdpp ≠ String Py.dquote q.
Proof. by destruct c as [[] [] [] [] [] [] [] []]. Qed.

Lemma quoted_inj s s' r r' :
  (Json.quoted s +:+ r)%stdpp = (Json.quoted s' +:+ r')%stdpp → s = s' ∧ r = r'.
Proof.
  unfold Json.quoted. rewrite !app_cons_str, !app_assoc_str. intros H. injection H as H.
  rewrite !app_cons_str, !app_nil_l_str in H.
  revert s' H. induction s as [|c s IH]; intros [|c' s'] H; cbn [Json.esc_all] in H;
    rewrite ?app_assoc_str, ?app_nil_l_str in H.
  - by injection H as ->.
  - by apply eq_sym, esc_not_quote in H.
  - by apply esc_not_quote in H.
  - apply esc_inj in H as [-> H]. by destruct (IH _ H) as [-> ->].
Qed.

(** ** Numbers *)

Lemma forallb_app_str (p : ascii → bool) s t :
  Str.forallb p (s +:+ t)%stdpp = Str.forallb p s && Str.forallb p t.
Proof.
  induction s as [|c s IH]; [done|]. rewrite app_cons_str. cbn [Str.forallb]. rewrite IH.
  apply andb_assoc.
Qed.

Lemma forallb_take (p : ascii → bool) n s : Str.forallb p s = true → Str.forallb p (Str.take n s) = true.
Proof.
  revert s. induction n as [|n IH]; intros [|c s] H; try done. cbn in *.
  apply andb_true_iff in H as [-> H]. by apply IH.
Qed.

Lemma forallb_drop (p : ascii → bool) n s : Str.forallb p s = true → Str.forallb p (Str.drop n s) = true.
Proof.
  revert s. induction n as [|n IH]; intros [|c s] H; try done. cbn in *.
  apply andb_true_iff in H as [_ H]. by apply IH.
Qed.

Lemma zeros_plain n : Str.forallb plain (Num.zeros n) = true.
Proof. by induction n as [|n IH]. Qed.

Lemma pretty_N_go_plain x s : Str.forallb plain s = true → Str.forallb plain (pretty_N_go x s) = true.
Proof.
  revert s. induction (N.lt_wf_0 x) as [x _ IH]; intros s Hs.
  destruct (decide (x = 0%N)) as [->|Hx]; [done|].
  rewrite pretty_N_go_step by lia. apply IH; [apply N.div_lt; lia|].
  cbn [Str.forallb]. rewrite Hs. unfold pretty_N_char. by repeat case_match.
Qed.

Lemma pretty_N_plain (x : N) : Str.forallb plain (pretty x) = true.
Proof. unfold pretty, pretty_N. case_decide; [done|]. by apply pretty_N_go_plain. Qed.

Lemma integer_plain z : Str.forallb plain (Num.string_of_Z z) = true.
Proof. unfold Num.string_of_Z, pretty, pretty_Z. destruct z; [done|..]; cbn; apply pretty_N_plain. Qed.

Lemma with_point_plain d k : Str.forallb plain d = true → Str.forallb plain (Num.with_point d k) = true.
Proof.
  intros Hd. unfold Num.with_point. repeat case_match; rewrite ?forallb_app_str, ?zeros_plain, ?Hd; try done.
  by rewrite forallb_take, forallb_drop.
Qed.

Lemma scientific_plain d exp w :
  Str.forallb plain d = true → Str.forallb plain (Num.scientific d "e" exp w) = true.
Proof.
  intros Hd. unfold Num.scientific. rewrite !forallb_app_str, zeros_plain, integer_plain.
  case_match; rewrite ?forallb_app_str, ?forallb_take, ?forallb_drop, ?Hd by done; by case_match.
Qed.

Lemma float_plain f : Str.forallb plain (Json.float f) = true.
Proof.
  destruct f as [m e|neg|]; [|by destruct neg|done]. unfold Json.float, Num.float_repr.
  rewrite forallb_app_str. case_match; case_match; try case_match;
    rewrite ?forallb_app_str, ?with_point_plain, ?scientific_plain by apply integer_plain; done.
Qed.

(** ** Values *)

Lemma member_even (kv : string * string) :
  even kv.2 → even (Json.quoted kv.1 +:+ ":" +:+ kv.2)%stdpp.
Proof. intros H. apply even_app; [apply quoted_even|]. apply even_app; [by apply plain_even|done]. Qed.

Lemma members_even d : Forall (λ kv : string * string, even kv.2) d → even (members (sort_keys d)).
Proof.
  intros H. apply even_join; [by apply plain_even|]. apply Forall_map.
  unfold sort_keys. rewrite merge_sort_Permutation. eapply Forall_impl; [exact H|].
  intros kv. apply member_even.
Qed.

Lemma list_even l ts :
  Forall (λ v, ∀ t, dumps v = Ok t → even t) l → mapR dumps l = Ok ts →
  even ("[" +:+ Str.join "," ts +:+ "]")%stdpp.
Proof.
  intros IH H. apply (even_brackets "[" "]"); try done. apply even_join; [by apply plain_even|].
  apply mapR_Ok in H. induction H as [|v t l ts Hv H IHl]; [done|]. apply Forall_cons in IH as [IHv IH].
  constructor; auto.
Qed.

Lemma pairs_even (d : list (string * pyval)) ts :
  Forall (λ kv, ∀ t, dumps kv.2 = Ok t → even t) d →
  mapR (λ kv, t ← dumps kv.2; Ok (kv.1, t)) d = Ok ts →
  Forall (λ kv : string * string, even kv.2) ts.
Proof.
  intros IH H. apply mapR_Ok in H. induction H as [|kv t d ts Hv H IHd]; [done|].
  apply Forall_cons in IH as [IHv IH]. constructor; [|by apply IHd].
  apply bind_Ok in Hv as (s & Hs & [= <-]). by apply IHv.
Qed.

Lemma dumps_even v : ∀ t, dumps v = Ok t → even t.
Proof.
  induction v as [|b|z|f| |s| | | |l IH|l IH|d IH| |] using pyval_ind'; intros t Ht; try discriminate Ht.
  - injection Ht as <-. by apply plain_even.
  - injection Ht as <-. apply plain_even. by destruct b.
  - injection Ht as <-. apply plain_even, integer_plain.
  - injection Ht as <-. apply plain_even, float_plain.
  - injection Ht as <-. apply quoted_even.
  - apply bind_Ok in Ht as (ts & Hts & [= <-]). by apply (list_even l).
  - apply bind_Ok in Ht as (ts & Hts & [= <-]). by apply (list_even l).
  - apply bind_Ok in Ht as (ts & Hts & [= <-]).
    apply (even_brackets "{" "}"); try done. apply members_even. by apply (pairs_even d).
Qed.

(** The reader ends at the last brace of a dictionary's text. *)
Lemma dict_ends d t r : dumps (PDict d) = Ok t → skip 0 Outside (t +:+ r)%stdpp = Some r.
Proof.
  intros H. cbn in H. apply bind_Ok in H as (ts & Hts & [= <-]).
  change (skip 1 Outside ((members (sort_keys ts) +:+ "}") +:+ r)%stdpp = Some r).
  rewrite app_assoc_str. assert (even (members (sort_keys ts))) as Hb.
  { apply members_even, (pairs_even d); [|done]. apply Forall_forall. intros kv _. apply dumps_even. }
  by rewrite Hb by lia.
Qed.

Lemma app_inv_length (s t r q : string) :
  String.length s = String.length t → (s +:+ r)%stdpp = (t +:+ q)%stdpp → s = t ∧ r = q.
Proof.
  revert t. induction s as [|c s IH]; intros [|c' t] Hl H; try done.
  rewrite !app_cons_str in H. injection H as -> H. injection Hl as Hl.
  by destruct (IH t Hl H) as [-> ->].
Qed.

Lemma app_inv_r_str (s t r : string) : (s +:+ r)%stdpp = (t +:+ r)%stdpp → s = t.
Proof.
  intros H. refine (proj1 (app_inv_length _ _ _ _ _ H)).
  apply (f_equal String.length) in H. rewrite !length_app_str in H. lia.
Qed.

Lemma dict_text_inj d d' t t' r r' :
  dumps (PDict d) = Ok t → dumps (PDict d') = Ok t' → (t +:+ r)%stdpp = (t' +:+ r')%stdpp → t = t' ∧ r = r'.
Proof.
  intros H H' E. pose proof (dict_ends _ _ r H) as S. rewrite E, (dict_ends _ _ r' H') in S.
  injection S as ->. split; [|done]. by apply app_inv_r_str in E.
Qed.
