(* ===== verification/ApqLaws.v ===== *)
(** * Laws of the persisted queries and their response cache

    A history is a list of requests served by [Apq.graphql_endpoint] from stores without
    responses.  In every history a text runs only under its own hash; in required mode it
    is one the operator registered; and a cached response goes to the callers it was
    stored for.  The last section shows what the request's hash must satisfy for that. *)
From stdpp Require Import base decidable strings list gmap.
From Stdlib Require Import ZArith Lia Ascii.
From S2P Require Import Prelude PyVal QueryLimits Apq CompactJson.

Local Open Scope py_scope.
Local Open Scope Z_scope.

(** A request as it is served: when, by whom, and what running a query answers. *)
Record event := {
  now : Z; later : Z; asked : request; who : context; answer : option string → route_result
}.

Section laws.
Context (sha256 : string → string) (parse : string → option (list definition)) (depth : nat)
  (get_operation_ast : list definition → option string → option operation)
  (field_gate : string → bool) (s : settings).

Definition serve (e : event) (st : stores) : result (outcome * stores) :=
  graphql_endpoint sha256 parse depth get_operation_ast field_gate (answer e) (now e) (later e)
    (asked e) s (who e) st.

(** A request that raises changes nothing. *)
Definition served (st : stores) (e : event) : stores :=
  match serve e st with Ok (_, st') => st' | Err _ => st end.

Definition after (st : stores) (es : list event) : stores := foldl served st es.

Notation resolve := (resolve_apq sha256 parse depth field_gate).

(** ** Texts and hashes *)

Definition matched (b : backend) : Prop := ∀ h q, _query_storage b !! h = Some q → sha256 q = h.

Definition texts_match (st : stores) : Prop := matched (apq_backend st) ∧ matched (global_backend st).

(** The texts of a store. *)
Notation texts st := (_query_storage (apq_backend st), _query_storage (global_backend st)).

Lemma get_texts now h c b : _query_storage (get_cached_response now h c b).2 = _query_storage b.
Proof. unfold get_cached_response. repeat case_match; done. Qed.

Lemma handle_texts now r c b :
  _query_storage (handle_apq_request_with_cache sha256 parse depth now r s c b).2 = _query_storage b.
Proof.
  unfold handle_apq_request_with_cache. repeat case_match; try done;
    match goal with H : get_cached_response ?n ?k ?c ?b = _ |- _ =>
      pose proof (get_texts n k c b) as E; rewrite H in E; exact E end.
Qed.

Lemma store_response_texts now h resp v c q op b :
  _query_storage (store_response_in_cache sha256 parse depth now h resp s v c q op b) = _query_storage b.
Proof. unfold store_response_in_cache. repeat case_match; done. Qed.

Lemma store_executed_texts now res h q v c op b :
  _query_storage (store_executed_response sha256 parse depth get_operation_ast now res h q s v c op b)
  = _query_storage b.
Proof. unfold store_executed_response. repeat case_match; try done. apply store_response_texts. Qed.

Lemma store_in_backend_Ok h q b b' :
  store_in_backend sha256 h q b = Ok b' → sha256 q = h ∧ _query_storage b' = <[h := q]> (_query_storage b)
    ∧ _response_storage b' = _response_storage b.
Proof.
  unfold store_in_backend, check_query_hash, compute_query_hash, Str.eqb.
  case_bool_decide; cbn; [|done]. intros [= <-]. done.
Qed.

Lemma store_persisted_Ok h q b b' :
  store_persisted_query sha256 h q b = Ok b' → sha256 q = h ∧ _query_storage b' = <[h := q]> (_query_storage b).
Proof. unfold store_persisted_query. repeat case_match; try done. intros Hk%store_in_backend_Ok. naive_solver. Qed.

Lemma matched_insert h q b b' :
  matched b → sha256 q = h → _query_storage b' = <[h := q]> (_query_storage b) → matched b'.
Proof.
  intros Hb Hq E h' q'. rewrite E. destruct (decide (h = h')) as [->|Hne].
  - rewrite lookup_insert_eq. by intros [= <-].
  - rewrite lookup_insert_ne by done. apply Hb.
Qed.

Lemma get_persisted_matched b h q : matched b → get_persisted_query h b = Some q → sha256 q = h.
Proof. unfold get_persisted_query. case_match; [|done]. intros Hb. apply Hb. Qed.

Lemma lookup_matched st h q : texts_match st → lookup_query h st = Some q → sha256 q = h.
Proof.
  intros [Hb Hg]. unfold lookup_query. destruct (get_persisted_query h (apq_backend st)) as [[|x q']|] eqn:E;
    try by apply get_persisted_matched. intros [= <-]. by apply (get_persisted_matched (apq_backend st)).
Qed.

Lemma lookup_texts st st' h : texts st = texts st' → lookup_query h st = lookup_query h st'.
Proof. intros [= E1 E2]. unfold lookup_query, get_persisted_query. by rewrite E1, E2. Qed.

(** What the step of the route does: it refuses or serves with the texts as they were; or it
    runs a text under a hash, one it knew or one the client sent with its hash. *)
Inductive resolved (r : request) (st : stores) : outcome → stores → Prop :=
| resolved_plain : allows_arbitrary_queries (apq_mode s) = true →
    persisted r = None ∨ processes_apq (apq_mode s) = false →
    resolved r st (Execute (query r) None) st
| resolved_refused code : resolved r st (Refuse code) st
| resolved_known h q t st' : persisted r = Some h → texts st' = texts st →
    _response_storage (apq_backend st') ⊆ _response_storage (apq_backend st) →
    lookup_query h st = Some q → (∀ x, t = Some x → x = (h, q)) → resolved r st (Execute (Some q) t) st'
| resolved_sent h q t st' : allows_arbitrary_queries (apq_mode s) = true →
    persisted r = Some h → query r = Some q → sha256 q = h →
    _query_storage (apq_backend st') = <[h := q]> (_query_storage (apq_backend st)) →
    _query_storage (global_backend st') = <[h := q]> (_query_storage (global_backend st)) →
    _response_storage (apq_backend st') = _response_storage (apq_backend st) →
    (∀ x, t = Some x → x = (h, q)) → resolved r st (Execute (Some q) t) st'
| resolved_served o st' : (∀ q t, o ≠ Execute q t) → texts st' = texts st →
    _response_storage (apq_backend st') ⊆ _response_storage (apq_backend st) → resolved r st o st'.

Lemma get_responses now h c b :
  _response_storage (get_cached_response now h c b).2 ⊆ _response_storage b.
Proof. unfold get_cached_response. repeat case_match; try done; apply delete_subseteq. Qed.

Lemma handle_responses now r c b :
  _response_storage (handle_apq_request_with_cache sha256 parse depth now r s c b).2 ⊆ _response_storage b.
Proof.
  unfold handle_apq_request_with_cache. repeat case_match; try done;
    match goal with H : get_cached_response ?n ?k ?c ?b = _ |- _ =>
      pose proof (get_responses n k c b) as E; rewrite H in E; exact E end.
Qed.

Lemma execute_target h q : ∃ t, execute s h q = Execute (Some q) t ∧ ∀ x, t = Some x → x = (h, q).
Proof. unfold execute. eexists; split; [done|]. case_match; intros x Hx; by simplify_eq. Qed.

Lemma resolve_hash_only nw r c st h o st' :
  persisted r = Some h →
  (let '(cached, b) := handle_apq_request_with_cache sha256 parse depth nw r s c (apq_backend st) in
   let st := {| apq_backend := b; global_backend := global_backend st |} in
   match cached with
   | Some ((_ :: _) as response) =>
       match get_persisted_query h b with
       | Some (String _ _ as text) => if field_gate text then Ok (Served response, st) else Ok (Forbidden, st)
       | _ => Ok (Served response, st)
       end
   | _ => match lookup_query h st with
          | Some (String _ _ as q) => Ok (execute s h q, st)
          | _ => Ok (Refuse "PERSISTED_QUERY_NOT_FOUND", st)
          end
   end) = Ok (o, st') → resolved r st o st'.
Proof.
  intros Hp. pose proof (handle_texts nw r c (apq_backend st)) as Et.
  pose proof (handle_responses nw r c (apq_backend st)) as Er.
  destruct (handle_apq_request_with_cache _ _ _ _ _ _ _ _) as [cached b]. cbn in Et, Er.
  set (st1 := {| apq_backend := b; global_backend := global_backend st |}).
  assert (texts st1 = texts st) as E1 by (subst st1; cbn; by rewrite Et).
  assert (∀ q, lookup_query h st1 = Some q → ∀ t, (∀ x, t = Some x → x = (h, q)) →
    resolved r st (Execute (Some q) t) st1) as Hk.
  { intros q Hq t Ht. eapply resolved_known; eauto. by rewrite <- (lookup_texts st1 st h E1). }
  cbv zeta. fold st1.
  destruct (lookup_query h st1) as [[|a q]|] eqn:Hl; cycle 1.
  { destruct (execute_target h (String a q)) as (t & -> & Ht).
    repeat case_match; intros [= <- <-]; try (by apply resolved_served); by apply Hk. }
  all: repeat case_match; intros [= <- <-]; by apply resolved_served.
Qed.

Lemma resolve_resolved nw r c st o st' : resolve nw r s c st = Ok (o, st') → resolved r st o st'.
Proof.
  unfold resolve_apq. destruct (persisted r) as [h|] eqn:Hp; cycle 1.
  { case_match; intros [= <- <-]; [apply resolved_refused|].
    apply resolved_plain; [by apply negb_false_iff|by left]. }
  destruct (processes_apq (apq_mode s)) eqn:Hm; cbn [negb]; cycle 1.
  { intros [= <- <-]. apply resolved_plain; [|by right]. by destruct (apq_mode s). }
  destruct (blank h); [intros [= <- <-]; apply resolved_refused|].
  destruct (query r) as [[|a q]|] eqn:Hq; [by apply resolve_hash_only| |by apply resolve_hash_only].
  set (qs := String a q) in *. unfold compute_query_hash, Str.eqb. case_bool_decide as Hh; cbn [negb];
    [|intros [= <- <-]; apply resolved_refused].
  destruct (execute_target h qs) as (t & Et & Ht).
  destruct (allows_arbitrary_queries (apq_mode s)) eqn:Ha; cbn [negb]; cycle 1.
  { destruct (lookup_query h st) as [[|a' q']|] eqn:Hl; intros [= <- <-]; try apply resolved_refused.
    destruct (execute_target h (String a' q')) as (t' & -> & Ht'). by eapply resolved_known. }
  intros (g & Hg & H)%bind_Ok. apply bind_Ok in H as (b & Hb & H). rewrite Et in H. injection H as <- <-.
  apply store_persisted_Ok in Hg as [_ Hg]. apply store_in_backend_Ok in Hb as (_ & Hb & Hr).
  by eapply resolved_sent.
Qed.

(** The whole request: the step of the route, then perhaps one response stored. *)
Definition stored (e : event) (h q : string) (st : stores) : stores :=
  {| apq_backend := store_executed_response sha256 parse depth get_operation_ast (later e)
       (answer e (Some q)) h q s (variables (asked e)) (who e) (operationName (asked e)) (apq_backend st);
     global_backend := global_backend st |}.

Lemma serve_resolved e st o st' :
  serve e st = Ok (o, st') →
  ∃ st1, resolved (asked e) st o st1 ∧
    (st' = st1 ∨ ∃ q h, o = Execute (Some q) (Some (h, q)) ∧ persisted (asked e) = Some h ∧ st' = stored e h q st1).
Proof.
  unfold serve, graphql_endpoint. intros ([o' st1] & Hr & H)%bind_Ok. apply resolve_resolved in Hr.
  exists st1. destruct o' as [| | |q [[h text]|]]; injection H as <- <-; try (split; [done|by left]).
  split; [done|]. right. inversion Hr as [| |h' q' t st2 Hp Ht Hs Hl Hx|h' q' t st2 Ha Hp Hq Hh Hb Hg Hs Hx|]; subst.
  - specialize (Hx _ eq_refl) as [= -> ->]. by eexists _, _.
  - specialize (Hx _ eq_refl) as [= -> ->]. by eexists _, _.
  - exfalso. naive_solver.
Qed.

Lemma texts_match_eq st st' : texts st' = texts st → texts_match st → texts_match st'.
Proof. intros [= E1 E2] [M1 M2]. split; intros h q; rewrite ?E1, ?E2; [apply M1|apply M2]. Qed.

Lemma resolved_texts_match r st o st' : resolved r st o st' → texts_match st → texts_match st'.
Proof.
  destruct 1 as [| |h q t st' Hp Ht Hs Hl Hx|h q t st' Ha Hp Hq Hh Hb Hg Hs Hx|o st' Ho Ht Hs]; intros Hm;
    try done.
  1, 3: eapply texts_match_eq; eassumption.
  destruct Hm as [M1 M2]. split; [exact (matched_insert _ _ _ _ M1 Hh Hb)|exact (matched_insert _ _ _ _ M2 Hh Hg)].
Qed.

Lemma stored_texts e h q st : texts (stored e h q st) = texts st.
Proof. cbn. by rewrite store_executed_texts. Qed.

Lemma served_invariant (P : stores → Prop) :
  (∀ e st st', P st → (∃ o, serve e st = Ok (o, st')) → P st') → ∀ es st, P st → P (after st es).
Proof.
  intros Hstep es. induction es as [|e es IH]; intros st Hst; [done|]. apply IH. unfold served.
  destruct (serve e st) as [[o st']|] eqn:E; [|done]. eapply Hstep; eauto.
Qed.

Lemma after_texts_match st es : texts_match st → texts_match (after st es).
Proof.
  apply served_invariant. clear st es. intros e st st' Hm [o H]. apply serve_resolved in H as (st1 & Hr & [->|H]).
  - by eapply resolved_texts_match.
  - destruct H as (q & h & -> & Hp & ->). eapply texts_match_eq; [apply stored_texts|].
    by eapply resolved_texts_match.
Qed.

Lemma required_texts r st o st' :
  allows_arbitrary_queries (apq_mode s) = false → resolved r st o st' → texts st' = texts st.
Proof. intros Hm. destruct 1; try done; congruence. Qed.

Lemma after_required_texts st es :
  allows_arbitrary_queries (apq_mode s) = false → texts (after st es) = texts st.
Proof.
  intros Hm. apply (served_invariant (λ st', texts st' = texts st)); [|done].
  intros e st1 st2 E [o H]. rewrite <- E. apply serve_resolved in H as (st3 & Hr & [->|H]).
  - by eapply required_texts.
  - destruct H as (q & h & -> & Hp & ->). rewrite stored_texts. by eapply required_texts.
Qed.

(** C39. A text runs only under its own hash.  Starting from stores whose texts are filed
    under their hashes, whatever requests were served before: a persisted query that runs
    under a hash has that hash; and in required mode every query that runs is one the
    operator had filed at the start, whatever texts the clients sent. *)
Theorem persisted_queries_run_under_their_hash st es e q t st' :
  texts_match st →
  serve e (after st es) = Ok (Execute (Some q) t, st') →
  (∀ h, persisted (asked e) = Some h → processes_apq (apq_mode s) = true → sha256 q = h) ∧
  (apq_mode s = REQUIRED → ∃ h, persisted (asked e) = Some h ∧ lookup_query h st = Some q).
Proof.
  intros Hm H. pose proof (after_texts_match st es Hm) as Hm'.
  pose proof (after_required_texts st es) as Et.
  apply serve_resolved in H as (st1 & Hr & _). remember (Execute (Some q) t) as o eqn:Eo.
  destruct Hr as [Ha Hp|code|h q' t' st1 Hp Ht Hs Hl Hx|h q' t' st1 Ha Hp Hq Hh Hb Hg Hs Hx|o st1 Ho Ht Hs];
    try discriminate Eo.
  - split; [|by intros Em; rewrite Em in Ha]. intros h Hp' Hpr. destruct Hp; congruence.
  - injection Eo as -> ->. split.
    + intros h' Hp' _. replace h' with h by congruence. by eapply lookup_matched.
    + intros Em. exists h. split; [done|]. rewrite <- Hl. apply lookup_texts. symmetry. apply Et. by rewrite Em.
  - injection Eo as -> ->. split; [congruence|]. intros Em. by rewrite Em in Ha.
  - exfalso. by apply (Ho _ _ Eo).
Qed.

(** ** Whose responses the cache holds *)

(** The text hashed to the key of a response; none when the key is the hash itself. *)
Definition key_text (query_hash : string) (variables : option json_object) (user_id : option string)
    : result (option string) :=
  match user_id with
  | Some user =>
      combined ← dumps (PList [PStr query_hash; PDict (default [] variables); PStr user]);
      Ok (Some ("user:" +:+ combined)%stdpp)
  | None =>
      match variables with
      | None | Some [] => Ok None
      | Some d => var_str ← dumps (PDict d); Ok (Some (query_hash +:+ ":" +:+ var_str)%stdpp)
      end
  end.

Lemma key_of_text h v u :
  compute_response_cache_key sha256 h v u =
  (t ← key_text h v u; Ok (match t with Some t => sha256 t | None => h end)).
Proof.
  unfold compute_response_cache_key, key_text. destruct u as [user|].
  - by destruct (dumps _).
  - destruct v as [[|x d]|]; try done. by destruct (dumps _).
Qed.

(** The variables of two requests are written as the same text. *)
Definition same_variables (v v' : option json_object) : Prop :=
  dumps (PDict (default [] v)) = dumps (PDict (default [] v')).

(** The texts hashed for a request: its query's, and the key's. *)
Definition hashed (q : string) (v : option json_object) (u : option string) (a : string) : Prop :=
  a = q ∨ key_text (sha256 q) v u = Ok (Some a).

(** Two texts hashed for two requests, different and with one hash. *)
Definition collide (q : string) (v : option json_object) (u : option string)
    (q' : string) (v' : option json_object) (u' : option string) : Prop :=
  ∃ a b, hashed q v u a ∧ hashed q' v' u' b ∧ a ≠ b ∧ sha256 a = sha256 b.

(** [hashlib.sha256(...).hexdigest()] is 64 hexadecimal digits. *)
Definition hexdigests : Prop := ∀ t, String.length (sha256 t) = 64%nat ∧ Str.forallb Str.is_hex (sha256 t) = true.

(** No document of GraphQL begins with a word and a colon. *)
Definition word_char (c : ascii) : bool := Str.is_alpha c || Str.is_digit c.
Definition no_document_begins_with_a_colon : Prop :=
  ∀ w rest, Str.forallb word_char w = true → parse (w +:+ ":" +:+ rest)%stdpp = None.

Lemma hex_word t : Str.forallb Str.is_hex t = true → Str.forallb word_char t = true.
Proof.
  induction t as [|c t IH]; [done|]. cbn [Str.forallb]. intros [Hc Ht]%andb_true_iff. rewrite IH by done.
  rewrite andb_true_r. revert Hc. by destruct c as [[] [] [] [] [] [] [] []].
Qed.

Lemma key_digest h v u k q : hexdigests → h = sha256 q → compute_response_cache_key sha256 h v u = Ok k →
  String.length k = 64%nat.
Proof.
  intros Hhex -> H. rewrite key_of_text in H. apply bind_Ok in H as ([t|] & _ & [= <-]); apply Hhex.
Qed.

(** A key shows its tenant. *)
Lemma tenant_key k k' c c' :
  String.length k = 64%nat → String.length k' = 64%nat →
  _get_cache_key k c = _get_cache_key k' c' → tenant_of c = tenant_of c' ∧ k = k'.
Proof.
  intros Hk Hk'. unfold _get_cache_key.
  destruct (tenant_of c) as [t|], (tenant_of c') as [t'|]; intros E; [| | |done].
  - assert (String.length t = String.length t') as Hl.
    { apply (f_equal String.length) in E. rewrite !length_app_str in E. cbn in E. lia. }
    apply app_inv_length in E as [-> E]; [|done].
    by apply (app_inv_length ":" ":") in E as [_ ->].
  - apply (f_equal String.length) in E. rewrite !length_app_str in E. cbn in E. lia.
  - apply (f_equal String.length) in E. rewrite !length_app_str in E. cbn in E. lia.
Qed.

Lemma dumps_user h d u a :
  dumps (PList [PStr h; PDict d; PStr u]) = Ok a →
  ∃ t, dumps (PDict d) = Ok t ∧
    a = ("[" +:+ Json.quoted h +:+ "," +:+ t +:+ "," +:+ Json.quoted u +:+ "]")%stdpp.
Proof.
  intros H. change (dumps (PList [PStr h; PDict d; PStr u])) with
    (ts ← mapR dumps [PStr h; PDict d; PStr u]; Ok ("[" +:+ Str.join "," ts +:+ "]")%stdpp) in H.
  apply bind_Ok in H as (ts & Hts & [= <-]). apply mapR_Ok in Hts.
  inversion Hts as [|x1 y1 l1 l1' H1 Ht1]; subst. inversion Ht1 as [|x2 y2 l2 l2' H2 Ht2]; subst.
  inversion Ht2 as [|x3 y3 l3 l3' H3 Ht3]; subst. inversion Ht3; subst.
  injection H1 as <-. injection H3 as <-. exists y2. split; [done|].
  unfold Str.join. cbn [String.concat]. by rewrite !app_assoc_str.
Qed.

Lemma user_text_inj h v u h' v' u' t :
  key_text h v (Some u) = Ok (Some t) → key_text h' v' (Some u') = Ok (Some t) →
  h = h' ∧ u = u' ∧ same_variables v v'.
Proof.
  unfold key_text, same_variables. intros (a & Ha & [= <-])%bind_Ok (b & Hb & [= E])%bind_Ok.
  apply dumps_user in Ha as (d & Hd & ->). apply dumps_user in Hb as (d' & Hd' & ->).
  apply (app_inv_length "[" "[") in E as [_ E]; [|done]. apply quoted_inj in E as [-> E].
  apply (app_inv_length "," ",") in E as [_ E]; [|done].
  rewrite Hd, Hd'. apply (dict_text_inj _ _ _ _ _ _ Hd' Hd) in E as [-> E].
  apply (app_inv_length "," ",") in E as [_ E]; [|done]. by apply quoted_inj in E as [-> _].
Qed.

Lemma anonymous_text_inj h v h' v' t :
  String.length h = String.length h' →
  key_text h v None = Ok (Some t) → key_text h' v' None = Ok (Some t) → h = h' ∧ same_variables v v'.
Proof.
  unfold key_text, same_variables. intros Hl.
  destruct v as [[|x d]|]; try done. intros (a & Ha & [= <-])%bind_Ok.
  destruct v' as [[|x' d']|]; try done. intros (b & Hb & [= E])%bind_Ok.
  apply app_inv_length in E as [-> E]; [|done]. apply (app_inv_length ":" ":") in E as [_ ->]; [|done].
  split; [done|exact (eq_trans Ha (eq_sym Hb))].
Qed.

(** A key's text is not a document. *)
Lemma key_text_no_document h v u t :
  no_document_begins_with_a_colon → Str.forallb Str.is_hex h = true →
  key_text h v u = Ok (Some t) → parse t = None.
Proof.
  intros Hp Hh. unfold key_text. destruct u as [user|].
  - intros (a & _ & [= <-])%bind_Ok. by apply (Hp "user").
  - destruct v as [[|x d]|]; try done. intros (a & _ & [= <-])%bind_Ok. by apply Hp, hex_word.
Qed.

(** A user's text is no anonymous one: [u] is not a hexadecimal digit. *)
Lemma user_not_anonymous h v u h' v' t t' :
  Str.forallb Str.is_hex h' = true → String.length h' = 64%nat →
  key_text h v (Some u) = Ok (Some t) → key_text h' v' None = Ok (Some t') → t ≠ t'.
Proof.
  unfold key_text. intros Hh Hl (a & _ & [= <-])%bind_Ok.
  destruct v' as [[|x d]|]; try done. intros (b & _ & [= <-])%bind_Ok.
  destruct h' as [|c h']; [done|]. cbn [Str.forallb] in Hh. apply andb_true_iff in Hh as [Hc _].
  intros E. injection E as <- _. done.
Qed.

Lemma no_text_cases h v u : key_text h v u = Ok None → u = None ∧ dumps (PDict (default [] v)) = Ok "{}".
Proof.
  unfold key_text. destruct u as [user|]; [by intros (a & _ & [=])%bind_Ok|].
  destruct v as [[|x d]|]; try done. by intros (a & _ & [=])%bind_Ok.
Qed.

(** Equal keys of two requests for documents: one tenant, one hash, one user and the same
    variables, or a collision. *)
Lemma same_key q v u c k q' v' u' c' k' :
  hexdigests → no_document_begins_with_a_colon → parse q ≠ None → parse q' ≠ None →
  compute_response_cache_key sha256 (sha256 q) v u = Ok k →
  compute_response_cache_key sha256 (sha256 q') v' u' = Ok k' →
  _get_cache_key k c = _get_cache_key k' c' →
  (tenant_of c = tenant_of c' ∧ sha256 q = sha256 q' ∧ u = u' ∧ same_variables v v')
  ∨ collide q v u q' v' u'.
Proof.
  intros Hhex Hdoc Hq Hq' Hk Hk' E.
  apply tenant_key in E as [Ht ->]; [|by eapply key_digest|by eapply key_digest].
  rewrite key_of_text in Hk, Hk'.
  apply bind_Ok in Hk as (t & Et & [= E]). apply bind_Ok in Hk' as (t' & Et' & [= <-]).
  assert (∀ a b, hashed q v u a → hashed q' v' u' b → a ≠ b → sha256 a = sha256 b →
    collide q v u q' v' u') as Hcol by (intros a b; exists a, b; done).
  destruct t as [t|], t' as [t'|].
  - destruct (decide (t = t')) as [->|Hne]; [left|right; by apply (Hcol t t'); [right|right| |]].
    destruct u as [user|], u' as [user'|].
    + destruct (user_text_inj _ _ _ _ _ _ _ Et Et') as (? & -> & ?). done.
    + destruct (user_not_anonymous _ _ _ _ _ _ _ (proj2 (Hhex q')) (proj1 (Hhex q')) Et Et'); done.
    + destruct (user_not_anonymous _ _ _ _ _ _ _ (proj2 (Hhex q)) (proj1 (Hhex q)) Et' Et); done.
    + destruct (anonymous_text_inj (sha256 q) v (sha256 q') v' t') as [? ?]; try done.
      rewrite (proj1 (Hhex q)). by rewrite (proj1 (Hhex q')).
  - right. apply (Hcol t q'); [by right|by left| |done].
    intros ->. apply Hq'. by eapply key_text_no_document; [|apply Hhex|].
  - right. apply (Hcol q t'); [by left|by right| |done].
    intros ->. apply Hq. by eapply key_text_no_document; [|apply Hhex|].
  - apply no_text_cases in Et as [-> Ev]. apply no_text_cases in Et' as [-> Ev'].
    left. unfold same_variables. by rewrite Ev, Ev'.
Qed.

(** The response of a request, as it was stored under the hash of its query's text. *)
Definition stored_for (e : event) (text : string) (resp : json_object) : Prop :=
  ∃ body, response_of (answer e (Some text)) = Some body ∧
    dict_has "errors" (without_extensions body) = false ∧
    filter_cached parse depth (Some text) (operationName (asked e)) (without_extensions body) = Ok resp.

(** An entry of the cache and the request that left it. *)
Definition entry (es : list event) (k : string) (resp : json_object) : Prop :=
  ∃ e text u key, e ∈ es ∧ persisted (asked e) = Some (sha256 text) ∧ parse text ≠ None ∧
    response_cache_user_id (who e) = (true, u) ∧
    compute_response_cache_key sha256 (sha256 text) (variables (asked e)) u = Ok key ∧
    k = _get_cache_key key (who e) ∧ stored_for e text resp.

Definition entries (es : list event) (st : stores) : Prop :=
  ∀ k resp, _response_storage (apq_backend st) !! k = Some resp → entry es k resp.

Lemma entry_more es es' k resp : es ⊆ es' → entry es k resp → entry es' k resp.
Proof. intros Hs (e & text & u & key & He & H). exists e, text, u, key. split; [by apply Hs|done]. Qed.

Lemma store_executed_entry e h q b k resp :
  _response_storage (store_executed_response sha256 parse depth get_operation_ast (later e)
    (answer e (Some q)) h q s (variables (asked e)) (who e) (operationName (asked e)) b) !! k = Some resp →
  _response_storage b !! k = Some resp ∨
  (parse q ≠ None ∧ ∃ u key, response_cache_user_id (who e) = (true, u) ∧
    compute_response_cache_key sha256 h (variables (asked e)) u = Ok key ∧
    k = _get_cache_key key (who e) ∧ stored_for e q resp).
Proof.
  unfold store_executed_response, stored_for, _is_query_operation.
  destruct (parse q) as [doc|] eqn:Hdoc; [|by left]. destruct (negb _); [by left|].
  destruct (response_of (answer e (Some q))) as [body|] eqn:Hb; [|by left]. unfold store_response_in_cache.
  destruct (negb (apq_cache_responses s)); [by left|].
  destruct (dict_has "errors" _) eqn:Herr; [by left|]. destruct (negb _); [by left|].
  destruct (response_cache_user_id (who e)) as [[] u] eqn:Hu; [|by left].
  destruct (filter_cached _ _ _ _ _) as [f|] eqn:Hf; [|by left].
  destruct (compute_response_cache_key _ _ _ _) as [key|] eqn:Hk; [|by left].
  unfold store_cached_response. cbn. intros [[<- <-]|[_ H]]%lookup_insert_Some; [right|by left].
  split; [done|]. exists u, key. split; [done|]. split; [done|]. split; [done|]. by exists body.
Qed.

Lemma resolved_responses r st o st' :
  resolved r st o st' → _response_storage (apq_backend st') ⊆ _response_storage (apq_backend st).
Proof.
  destruct 1 as [| |h q t st' Hp Ht Hs Hl Hx|h q t st' Ha Hp Hq Hh Hb Hg Hs Hx|o st' Ho Ht Hs]; try done.
  by rewrite Hs.
Qed.

Lemma after_entries st es :
  texts_match st → _response_storage (apq_backend st) = ∅ → entries es (after st es).
Proof.
  intros Hm H0.
  assert (∀ l, l ⊆ es → ∀ st', texts_match st' → entries es st' → entries es (after st' l)) as Hall.
  2: { apply Hall; [done|done|]. intros k resp. rewrite H0. done. }
  induction l as [|e l IH]; intros Hl st' Hm' He; [done|]. change (entries es (after (served st' e) l)).
  assert (e ∈ es) as Hin by (apply Hl; left). unfold served.
  destruct (serve e st') as [[o st2]|] eqn:E; [|apply IH; try done; set_solver].
  assert (texts_match st2) as Hm2.
  { pose proof (after_texts_match st' [e] Hm') as H. cbn in H. unfold served in H. by rewrite E in H. }
  apply IH; [set_solver|done|]. apply serve_resolved in E as (st1 & Hr & E).
  assert (entries es st1) as H1.
  { intros k resp Hk. apply He. eapply lookup_weaken; [exact Hk|]. by eapply resolved_responses. }
  destruct E as [->|(q & h & -> & Hp & ->)]; [done|]. intros k resp Hk.
  apply store_executed_entry in Hk as [Hk|(Hq & u & key & Hu & Hkey & -> & Hs)]; [by apply H1|].
  assert (sha256 q = h) as <-.
  { inversion Hr as [| |h' q' t st3 Hp' Ht Hs' Hl' Hx|h' q' t st3 Ha Hp' Hq' Hh Hb Hg Hs' Hx|o st3 Ho Ht Hs'];
      subst; [|congruence|by destruct (Ho _ _ eq_refl)].
    assert (h = h') as -> by congruence. exact (lookup_matched _ _ _ Hm' Hl'). }
  exists e, q, u, key. done.
Qed.

(** What the cache gives for a request. *)
Lemma handle_hit nw r c b h resp b' :
  persisted r = Some h →
  handle_apq_request_with_cache sha256 parse depth nw r s c b = (Some resp, b') →
  ∃ u key cached, response_cache_user_id c = (true, u) ∧
    compute_response_cache_key sha256 h (variables r) u = Ok key ∧
    _response_storage b !! _get_cache_key key c = Some cached ∧
    filter_cached parse depth (get_persisted_query h b) (operationName r) cached = Ok resp.
Proof.
  intros Hp. unfold handle_apq_request_with_cache. rewrite Hp.
  destruct (negb (apq_cache_responses s)); [done|]. destruct h as [|a h']; [done|].
  set (h := String a h') in *. destruct (response_cache_user_id c) as [[] u] eqn:Hu; [|done].
  destruct (compute_response_cache_key _ _ _ _) as [key|] eqn:Hk; [|done].
  destruct (get_cached_response nw key c b) as [[[|x cached]|] b1] eqn:Hg; try done.
  pose proof (get_texts nw key c b) as Ht. pose proof (get_responses nw key c b) as Hs. rewrite Hg in Ht, Hs.
  cbn in Ht, Hs. destruct (filter_cached _ _ _ _ _) as [f|] eqn:Hf; [|done]. intros [= <- <-].
  exists u, key, (x :: cached). split; [done|]. split; [done|]. split.
  - eapply lookup_weaken; [|exact Hs]. revert Hg. unfold get_cached_response.
    destruct (negb _); [done|]. intros [= Hc <-]. exact Hc.
  - unfold get_persisted_query in *. by rewrite <- Ht.
Qed.

(** A response served comes from an entry under the request's key. *)
Lemma served_entry nw r c st resp st' :
  resolve nw r s c st = Ok (Served resp, st') →
  ∃ h u key cached, persisted r = Some h ∧ response_cache_user_id c = (true, u) ∧
    compute_response_cache_key sha256 h (variables r) u = Ok key ∧
    _response_storage (apq_backend st) !! _get_cache_key key c = Some cached ∧
    filter_cached parse depth (get_persisted_query h (apq_backend st)) (operationName r) cached = Ok resp.
Proof.
  unfold resolve_apq. destruct (persisted r) as [h|] eqn:Hp; [|by case_match].
  intros H. exists h. cut (∃ b', handle_apq_request_with_cache sha256 parse depth nw r s c (apq_backend st) = (Some resp, b')).
  { intros [b' Hh]. destruct (handle_hit _ _ _ _ _ _ _ Hp Hh) as (u & key & cached & ?). by exists u, key, cached. }
  revert H. destruct (negb (processes_apq _)); [done|]. destruct (blank h); [done|].
  unfold execute.
  destruct (query r) as [[|a q]|]; cycle 1.
  { destruct (negb _); [done|]. destruct (negb _); [repeat case_match; done|].
    intros (g & _ & (b & _ & [=])%bind_Ok)%bind_Ok. }
  all: destruct (handle_apq_request_with_cache _ _ _ _ _ _ _ _) as [[[|x f]|] b]; repeat case_match;
    intros Hr; try discriminate Hr; injection Hr as <- <-; by eexists.
Qed.

(** C34. A cached response goes only to the callers it was stored for.  Starting from
    stores without responses, after any history of requests: when a request that sends the
    hash of a document is served from the cache, an earlier request of the same tenant and
    the same user (or none), for the same hash and the same variables, left that response,
    an answer without errors filtered by the fields of a text with this hash - unless
    SHA-256 gives one digest to two different texts hashed for these two requests. *)
Theorem cached_responses_keep_callers_apart st es nw r c q resp st' :
  hexdigests → no_document_begins_with_a_colon →
  texts_match st → _response_storage (apq_backend st) = ∅ →
  persisted r = Some (sha256 q) → parse q ≠ None →
  resolve nw r s c (after st es) = Ok (Served resp, st') →
  ∃ e text u cached, e ∈ es ∧ persisted (asked e) = Some (sha256 text) ∧
    response_cache_user_id (who e) = (true, u) ∧ stored_for e text cached ∧
    ((tenant_of (who e) = tenant_of c ∧ response_cache_user_id c = (true, u) ∧ sha256 text = sha256 q ∧
      same_variables (variables (asked e)) (variables r) ∧
      filter_cached parse depth (get_persisted_query (sha256 q) (apq_backend (after st es)))
        (operationName r) cached = Ok resp)
     ∨ ∃ u', response_cache_user_id c = (true, u') ∧
         collide text (variables (asked e)) u q (variables r) u').
Proof.
  intros Hhex Hdoc Hm H0 Hp Hq H.
  apply served_entry in H as (h & u' & key & cached & Hp' & Hu' & Hk' & Hget & Hf).
  assert (h = sha256 q) as -> by congruence.
  destruct (after_entries st es Hm H0 _ _ Hget) as (e & text & u & key1 & He & Hpe & Htext & Hu & Hk & E & Hs).
  exists e, text, u, cached. split; [done|]. split; [done|]. split; [done|]. split; [done|].
  destruct (same_key _ _ _ _ _ _ _ _ _ _ Hhex Hdoc Htext Hq Hk Hk' (eq_sym E)) as [(Ht & Eh & -> & Hv)|Hcol].
  - left. done.
  - right. by exists u'.
Qed.
End laws.

(** ** Concrete requests *)
Module Callers.

(** A digest of 64 hexadecimal digits: the text read as a number in base 257. *)
Fixpoint hexes (n : nat) (z : Z) : string :=
  match n with O => EmptyString | S n => String (Py.hex_digit (z mod 16)) (hexes n (z / 16)) end.

Fixpoint number (acc : Z) (t : string) : Z :=
  match t with EmptyString => acc | String c t => number (acc * 257 + Str.code c + 1) t end.

Definition digest (t : string) : string := hexes 64 (number 0 t).

Lemma digest_hex : hexdigests digest.
Proof.
  intros t. unfold digest. generalize (number 0 t) as z. generalize 64%nat as n.
  induction n as [|n IH]; intros z; [done|]. cbn [hexes String.length Str.forallb].
  destruct (IH (z / 16)) as [-> ->]. split; [done|]. rewrite andb_true_r.
  pose proof (Z.mod_pos_bound z 16 ltac:(lia)) as Hb. revert Hb. generalize (z mod 16) as d. intros d Hd.
  assert (In d [0; 1; 2; 3; 4; 5; 6; 7; 8; 9; 10; 11; 12; 13; 14; 15]) as Hin by (cbn; lia).
  cbn in Hin. decompose [or] Hin; subst; done.
Qed.

Definition me : operation :=
  {| op_name := None; op_type := Query; variable_definitions := [];
     op_selections := [FieldNode None "me" [] (Some [FieldNode None "id" [] None])] |}.

Definition text : string := "{me{id}}".

Definition documents (t : string) : option (list definition) :=
  if t =s text then Some [OperationDefinitionNode me] else None.

Lemma documents_no_colon : no_document_begins_with_a_colon documents.
Proof.
  intros w rest Hw. unfold documents, Str.eqb. case_bool_decide as E; [|done].
  destruct w as [|c w]; [done|]. rewrite app_cons_str in E. injection E as -> _. done.
Qed.

Definition first_operation (d : list definition) (_ : option string) : option operation :=
  match d with OperationDefinitionNode o :: _ => Some o | _ => None end.

(** Two users of one tenant. *)
Definition user (id : string) : context :=
  Some [("user", PDict [("sub", PStr id); ("tenant_id", PStr "acme")])].

Definition row (id name : string) : route_result :=
  Dict [("data", PDict [("me", PDict [("id", PStr id); ("name", PStr name)])])].

(** [hash] alone, or a text with its hash. *)
Definition hash_only (hash : string) : request :=
  {| query := None; variables := None; operationName := None; persisted := Some hash |}.
Definition registration (t : string) : request :=
  {| query := Some t; variables := None; operationName := None; persisted := Some (digest t) |}.

Definition caching (m : mode) : settings := {| apq_mode := m; apq_cache_responses := true |}.

Definition alice_asks : event :=
  {| now := 1; later := 2; asked := registration text; who := user "alice"; answer := λ _, row "alice" "Alice" |}.

Definition empty : stores := {| apq_backend := MemoryAPQBackend None; global_backend := MemoryAPQBackend None |}.

(** The stores of an operator who filed the text. *)
Definition filed : stores :=
  {| apq_backend := {| _query_storage := {[digest text := text]}; _response_storage := ∅;
                       _response_stored_at := ∅; _response_ttl := None |};
     global_backend := MemoryAPQBackend None |}.

Definition gate : string → bool := λ _, true.

Notation history m := (after digest documents 100 first_operation gate (caching m)).
Notation answered m r c st := (resolve_apq digest documents 100 gate 3 r (caching m) c st).

(** Alice is served what she left, filtered; Bob's request runs. *)
Example alice_is_served :
  (o ← answered OPTIONAL (hash_only (digest text)) (user "alice") (history OPTIONAL empty [alice_asks]); Ok o.1)
  = Ok (Served [("data", PDict [("me", PDict [("id", PStr "alice")])])]).
Proof. vm_compute. reflexivity. Qed.

Example bob_is_not_served :
  (o ← answered OPTIONAL (hash_only (digest text)) (user "bob") (history OPTIONAL empty [alice_asks]); Ok o.1)
  = Ok (Execute (Some text) (Some (digest text, text))).
Proof. vm_compute. reflexivity. Qed.

(** The hash of a request is not held to be the hash of a query before the cache is read:
    anyone who sends the key of Alice's entry as a hash reads Alice's response, and neither
    the filter nor the gate of fields is asked, since no text is filed under that hash. *)
Example a_key_sent_as_a_hash_reads_its_entry :
  let key := digest ("user:[" +:+ Json.quoted (digest text) +:+ ",{}," +:+ Json.quoted "alice" +:+ "]")%stdpp in
  (o ← resolve_apq digest documents 100 (λ _, false) 3 (hash_only key) (caching OPTIONAL)
     (Some [("tenant_id", PStr "acme")]) (history OPTIONAL empty [alice_asks]); Ok o.1)
  = Ok (Served [("data", PDict [("me", PDict [("id", PStr "alice")])])]).
Proof. vm_compute. reflexivity. Qed.

(** Nor is the tenant held apart from the hash: without a tenant, ["acme:" + key] is the
    entry's own key. *)
Example a_tenant_sent_in_the_hash_reads_its_entry :
  let key := digest ("user:[" +:+ Json.quoted (digest text) +:+ ",{}," +:+ Json.quoted "alice" +:+ "]")%stdpp in
  (o ← resolve_apq digest documents 100 (λ _, false) 3 (hash_only ("acme:" +:+ key)%stdpp) (caching OPTIONAL)
     None (history OPTIONAL empty [alice_asks]); Ok o.1)
  = Ok (Served [("data", PDict [("me", PDict [("id", PStr "alice")])])]).
Proof. vm_compute. reflexivity. Qed.

(** Two selections of one field are merged by GraphQL; the filter keeps the last. *)
Example the_filter_loses_merged_fields :
  filter_response_by_selection [] 100 [("data", PDict [("me", PDict [("id", PInt 1); ("name", PStr "Ann")])])]
    [FieldNode None "me" [] (Some [FieldNode None "id" [] None]);
     FieldNode None "me" [] (Some [FieldNode None "name" [] None])]
  = Ok [("data", PDict [("me", PDict [("name", PStr "Ann")])])].
Proof. vm_compute. reflexivity. Qed.

Lemma filed_texts_match : texts_match digest filed.
Proof.
  split; intros h q H; [|done]. change (({[digest text := text]} : gmap string string) !! h = Some q) in H.
  by apply lookup_singleton_Some in H as [<- <-].
Qed.

Lemma persisted_queries_run_under_their_hash_witness :
  (∀ h, persisted (hash_only (digest text)) = Some h → processes_apq REQUIRED = true → digest text = h) ∧
  (REQUIRED = REQUIRED → ∃ h, persisted (hash_only (digest text)) = Some h ∧ lookup_query h filed = Some text).
Proof.
  refine (persisted_queries_run_under_their_hash digest documents 100 first_operation gate (caching REQUIRED)
    filed [alice_asks]
    {| now := 3; later := 4; asked := hash_only (digest text); who := user "bob"; answer := λ _, row "bob" "Bob" |}
    text (Some (digest text, text)) _ filed_texts_match _).
  vm_compute. reflexivity.
Defined.

Lemma cached_responses_keep_callers_apart_witness :
  ∃ e t u cached, e ∈ [alice_asks] ∧ persisted (asked e) = Some (digest t) ∧
    response_cache_user_id (who e) = (true, u) ∧ stored_for documents 100 e t cached ∧
    ((tenant_of (who e) = tenant_of (user "alice") ∧ response_cache_user_id (user "alice") = (true, u) ∧
      digest t = digest text ∧ same_variables (variables (asked e)) None ∧
      filter_cached documents 100 (get_persisted_query (digest text)
        (apq_backend (history OPTIONAL empty [alice_asks]))) None cached
      = Ok [("data", PDict [("me", PDict [("id", PStr "alice")])])])
     ∨ ∃ u', response_cache_user_id (user "alice") = (true, u') ∧
         collide digest t (variables (asked e)) u text None u').
Proof.
  refine (cached_responses_keep_callers_apart digest documents 100 first_operation gate (caching OPTIONAL)
    empty [alice_asks] 3 (hash_only (digest text)) (user "alice") text
    [("data", PDict [("me", PDict [("id", PStr "alice")])])] (history OPTIONAL empty [alice_asks])
    digest_hex documents_no_colon _ eq_refl eq_refl _ _).
  - split; intros h q H; done.
  - done.
  - vm_compute. reflexivity.
Defined.
End Callers.
