(* ===== verification/OrderBy.v ===== *)
(** * Sort keys

    [sql/order_by_generator.py], [sql/graphql_order_by_generator.py] (the conversion; the
    classes it generates by reflection are objects with attributes here),
    [sql/native_columns.py], and from [db.py] [_resolve_order_by_set],
    [_build_order_by_sql] and the reading of a text as a list of columns. *)
From stdpp Require Import base decidable strings list.
From Stdlib Require Import ZArith Lia Ascii.
From S2P Require Import Prelude PyVal Sql FieldCondition Casing Views Normalize Regex.

Local Open Scope py_scope.

(** ** [resolve_native_column]

    An empty set or mapping is [None] to the code. *)
Definition resolve_native_column (field_path : string) (native_columns : list string)
    (column_mapping native_measures : list (string * string)) : option string :=
  if field_path in_ native_columns then Some field_path
  else match dict_get field_path column_mapping with
       | Some c => Some c
       | None => dict_get field_path native_measures
       end.

(** ** One key *)

Definition VECTOR_DISTANCE_OPERATORS : list string :=
  ["cosine_distance"; "l2_distance"; "l1_distance"; "inner_product"; "hamming_distance"; "jaccard_distance"].

Inductive order_direction := ASC | DESC.

(** The direction is the enumeration's, or a bare text. *)
Record order_by := {
  field : string;
  direction : order_direction + string;
  value : pyval;
  collation : option string;
  temporal_cast : option cast
}.

Definition _direction_sql (self : order_by) : composable :=
  SQL (match direction self with
       | inl ASC => "ASC"
       | inl DESC => "DESC"
       | inr text => Str.upper text
       end).

Definition _collated (self : order_by) (expr : composable) : composable :=
  match collation self with
  | None => expr
  | Some c => Composed [expr; SQL " COLLATE "; Identifier c]
  end.

Definition _flat_column (native_columns : list string) (column_mapping : list (string * string))
    (self : order_by) : option string :=
  resolve_native_column (field self) native_columns column_mapping [].

Definition _bit_cast (bit_string : string) : composable :=
  Format "::bit({})" [Literal (PInt (Z.of_nat (String.length bit_string)))].

Definition unpack_vector_operand (value : pyval) : result pyval :=
  let chosen dense sparse :=
    if negb (Py.is_none dense) then Ok dense
    else match sparse with
         | PNone | PDict _ => Ok sparse
         | o => match Py.attr "indices" o, Py.attr "values" o with
                | Some i, Some v => Ok (PDict [("indices", i); ("values", v)])
                | _, _ => Err AttributeError
                end
         end in
  match value with
  | PDict d =>
      if dict_has "dense" d || dict_has "sparse" d then chosen (Py.get "dense" d) (Py.get "sparse" d)
      else Ok value
  | PObj _ attrs =>
      if dict_has "dense" attrs || dict_has "sparse" attrs
      then chosen (Py.get "dense" attrs) (Py.get "sparse" attrs)
      else Ok value
  | _ => Ok value
  end.

(** [for v in value] *)
Fixpoint characters (s : string) : list pyval :=
  match s with EmptyString => [] | String c s => PStr (String c EmptyString) :: characters s end.

Definition iterate (value : pyval) : result (list pyval) :=
  match value with
  | PList l | PTuple l => Ok l
  | PStr s => Ok (characters s)
  | _ => Err TypeError
  end.

(** The operator and the cast of a distance, or its function. *)
Inductive distance := Infix (operator : string) | Function (name : string).

Definition distance_of (operator : string) (value : pyval) (literal : string)
    : result (distance * string * composable) :=
  if operator =s "cosine_distance" then Ok (Infix "<=>", literal, SQL "::vector")
  else if operator =s "l2_distance" then Ok (Infix "<->", literal, SQL "::vector")
  else if operator =s "l1_distance" then Ok (Infix "<+>", literal, SQL "::vector")
  else if operator =s "inner_product" then Ok (Infix "<#>", literal, SQL "::vector")
  else if operator =s "hamming_distance" then Ok (Infix "<~>", Py.str value, _bit_cast (Py.str value))
  else if operator =s "jaccard_distance" then
    Ok (Function "jaccard_distance", Py.str value, _bit_cast (Py.str value))
  else Err ValueError.

Definition _build_vector_distance_sql (self : order_by) (field_name operator : string) (value : pyval)
    (table_ref : string) (column_mapping : list (string * string)) : result composable :=
  value ← unpack_vector_operand value;
  match value with
  | PDict _ => Err ValueError
  | _ =>
      items ← iterate value;
      '(d, literal_value, type_cast) ← distance_of operator value
        ("[" +:+ Str.join "," (map Py.str items) +:+ "]")%stdpp;
      let direction_sql := _direction_sql self in
      let column := default field_name (dict_get field_name column_mapping) in
      let column_sql :=
        if table_ref =s "t" then Composed [SQL "t."; Identifier column]
        else Composed [Identifier column] in
      Ok match d with
         | Function f =>
             Composed [SQL f; SQL "("; column_sql; SQL ", "; Literal (PStr literal_value); type_cast;
                       SQL ") "; direction_sql]
         | Infix op =>
             Composed [SQL "("; column_sql; SQL ")"; SQL " "; SQL op; SQL " ";
                       Literal (PStr literal_value); type_cast; SQL " "; direction_sql]
         end
  end.

(** The JSONB path of a key. *)
Definition data_expr (table_ref : string) (path : list string) (leaf_op : composable) : composable :=
  let last_key := Literal (PStr (default EmptyString (last path))) in
  match removelast path with
  | [] => Composed [SQL table_ref; leaf_op; last_key]
  | path => Composed [SQL (table_ref +:+ " -> ")%stdpp; Join " -> " (map (λ p, Literal (PStr p)) path);
                      leaf_op; last_key]
  end.

(** The field and the operator of a distance. *)
Definition vector_key (self : order_by) : option (string * string) :=
  if Str.has_char "." (field self) && negb (Py.is_none (value self)) then
    match Str.split "." (field self) with
    | [field_name; operator] =>
        if operator in_ VECTOR_DISTANCE_OPERATORS then Some (field_name, operator) else None
    | _ => None
    end
  else None.

Definition json_key (self : order_by) (table_ref : string) : composable :=
  let as_text := is_some (collation self) || is_some (temporal_cast self) in
  let expr := data_expr table_ref (Str.split "." (field self)) (SQL (if as_text then " ->> " else " -> ")) in
  match temporal_cast self with
  | Some c => Composed [Format "({})::{} " [expr; SQL (cast_name c)]; _direction_sql self]
  | None =>
      let expr := if is_some (collation self) then Format "({})" [expr] else expr in
      Composed [_collated self expr; SQL " "; _direction_sql self]
  end.

(** [OrderBy.to_sql] *)
Definition key_sql (table_ref : string) (native_columns : list string)
    (column_mapping : list (string * string)) (self : order_by) : result composable :=
  match _flat_column native_columns column_mapping self with
  | Some flat_column =>
      Ok (Composed [_collated self (Format "{}.{}" [Identifier "t"; Identifier flat_column]);
                    SQL " "; _direction_sql self])
  | None =>
      match vector_key self with
      | Some (field_name, operator) =>
          _build_vector_distance_sql self field_name operator (value self) table_ref column_mapping
      | None => Ok (json_key self table_ref)
      end
  end.

(** ** Sets of keys *)

(** [OrderBySet.to_sql] *)
Definition to_sql (table_ref : string) (native_columns : list string)
    (column_mapping : list (string * string)) (instructions : list order_by) : result composable :=
  match instructions with
  | [] => Ok (Composed [])
  | _ =>
      clauses ← mapR (key_sql table_ref native_columns column_mapping) instructions;
      Ok (Composed [SQL "ORDER BY "; Join ", " clauses])
  end.

Definition uses_flat_columns (native_columns : list string) (column_mapping : list (string * string))
    (instructions : list order_by) : bool :=
  existsb (λ i, is_some (_flat_column native_columns column_mapping i)) instructions.

Definition with_cast (self : order_by) (c : option cast) : order_by :=
  {| field := field self; direction := direction self; value := value self;
     collation := collation self; temporal_cast := c |}.

Section classes.
Context (classes : string → class_info).

Definition with_temporal_casts (source_type : option string) (instructions : list order_by) : list order_by :=
  match source_type with
  | None => instructions
  | Some t =>
      map (λ i,
        if Py.is_none (value i) && negb (is_some (collation i)) && negb (is_some (temporal_cast i)) then
          match _declared_temporal_cast classes t (Str.split "." (field i)) with
          | Some c => with_cast i (Some c)
          | None => i
          end
        else i) instructions
  end.

(** ** From the shapes a caller may send *)

(** An enumeration is an object with a [value]. *)
Definition _normalize_order_direction (direction : pyval) : result order_direction :=
  let raw := match direction with PObj _ attrs => default direction (dict_get "value" attrs) | v => v end in
  match raw with
  | PStr s =>
      if Str.upper s =s "ASC" then Ok ASC else if Str.upper s =s "DESC" then Ok DESC else Err ValueError
  | _ => Err ValueError
  end.

Definition snake_path (f : string) : string := Str.join "." (map to_snake_case (Str.split "." f)).

Definition key (f : string) (d : order_direction) (v : pyval) (c : option string) : order_by :=
  {| field := f; direction := inl d; value := v; collation := c; temporal_cast := None |}.

Definition _order_by_item_from_sequence (item : pyval) : result order_by :=
  '(f, d) ← match item with
            | PStr s => Ok (s, ASC)
            | PTuple [PStr (String _ _ as s)] => Ok (s, ASC)
            | PTuple [PStr (String _ _ as s); d] => d ← _normalize_order_direction d; Ok (s, d)
            | _ => Err TypeError
            end;
  Ok (key (snake_path f) d PNone None).

Definition _is_text_field (source_type : option string) (dotted_path : string) : bool :=
  match source_type with
  | None => false
  | Some t =>
      match _resolve_field_type classes (AnnClass t) (Str.split "." dotted_path) with
      | Some (AnnClass c) => c =s "str"
      | _ => false
      end
  end.

Definition _apply_collation_default (field_collation global_collation : option string)
    (was_explicitly_set is_text_field : bool) : option string :=
  if was_explicitly_set then field_collation
  else if is_text_field then global_collation else None.

Definition _BIT_DISTANCE_OPERATORS : list string := ["hamming_distance"; "jaccard_distance"].

Definition _is_vector_operand (operator : string) (value : pyval) : bool :=
  (operator in_ VECTOR_DISTANCE_OPERATORS) &&
  match value with
  | PList _ | PTuple _ => true
  | PDict d =>
      negb (bool_decide (d = [])) &&
      (forallb (λ k, k in_ ["dense"; "sparse"]) (dict_keys d)
       || (forallb (λ k, k in_ ["indices"; "values"]) (dict_keys d)
           && dict_has "indices" d && dict_has "values" d))
  | PStr s =>
      (operator in_ _BIT_DISTANCE_OPERATORS) && Str.nonempty s
      && Str.forallb (λ c, Ascii.eqb c "0" || Ascii.eqb c "1") s
  | _ => false
  end.

Definition _is_vector_order_by (value : pyval) : bool :=
  is_some (Py.attr "__gql_fields__" value) && is_some (Py.attr "cosine_distance" value).

Fixpoint first_operand (operators : list string) (value : pyval) : option (string * pyval) :=
  match operators with
  | [] => None
  | operator :: operators =>
      match default PNone (Py.attr operator value) with
      | PNone => first_operand operators value
      | operand => Some (operator, operand)
      end
  end.

Definition _append_vector_order_by (value : pyval) (field_path : string) : list order_by :=
  match first_operand VECTOR_DISTANCE_OPERATORS value with
  | Some (operator, operand) => [key (field_path +:+ "." +:+ operator)%stdpp ASC operand None]
  | None => []
  end.

Section input.
Context (global_collation source_type : option string).

Definition default_collation (field_path : string) : option string :=
  _apply_collation_default None global_collation false (_is_text_field source_type field_path).

Definition under (prefix field_name : string) : string :=
  if Str.nonempty prefix then (prefix +:+ "." +:+ field_name)%stdpp else field_name.

(** One value of a dictionary; what is neither a direction nor nested is left out with a
    warning. *)
Fixpoint _collect_value (prefix snake_field_name field_path : string) (value : pyval) : result (list order_by) :=
  if (Str.nonempty prefix && _is_vector_operand snake_field_name value) then
    Ok [key field_path ASC value None]
  else
    match value with
    | PNone => Ok []
    | PDict d =>
        (fix items (d : list (string * pyval)) : result (list order_by) :=
           match d with
           | [] => Ok []
           | (name, v) :: d =>
               let snake := to_snake_case name in
               here ← _collect_value field_path snake (under field_path snake) v;
               rest ← items d;
               Ok (here ++ rest)
           end) d
    | v =>
        if _is_vector_order_by v then Ok (_append_vector_order_by v field_path)
        else if match v with PStr _ => true | _ => is_some (Py.attr "value" v) end then
          d ← _normalize_order_direction v;
          Ok [key field_path d PNone (default_collation field_path)]
        else Ok []
    end.

(** [_collect_dict_order_by] *)
Definition _collect_dict_order_by (obj_dict : list (string * pyval)) : result (list order_by) :=
  l ← mapR (λ kv, let snake := to_snake_case kv.1 in _collect_value EmptyString snake snake kv.2) obj_dict;
  Ok (concat l).

(** An object with [field] and [direction]. *)
Definition is_item (item : pyval) : bool :=
  is_some (Py.attr "field" item) && is_some (Py.attr "direction" item).

Definition text_of (v : option pyval) : option string :=
  match v with Some (PStr s) => Some s | _ => None end.

Definition item_key (item : pyval) : result order_by :=
  d ← _normalize_order_direction (default PNone (Py.attr "direction" item));
  match Py.attr "field" item with
  | Some (PStr f) =>
      Ok (key f d PNone
            (_apply_collation_default (text_of (Py.attr "collation" item)) global_collation
               (is_some (Py.attr "collation" item)) (_is_text_field source_type f)))
  | _ => Err AttributeError
  end.

Definition list_item (item : pyval) : result (list order_by) :=
  if is_item item then k ← item_key item; Ok [k]
  else
    match item with
    | PDict d => _collect_dict_order_by d
    | PTuple _ | PStr _ =>
        k ← _order_by_item_from_sequence item;
        Ok [{| field := field k; direction := direction k; value := PNone;
               collation := default_collation (field k); temporal_cast := None |}]
    | PNone => Ok []
    | _ => Err TypeError
    end.

(** [isinstance(value, OrderDirection)]: a member is known by its [repr]. *)
Definition is_order_direction (v : pyval) : bool :=
  match v with
  | PObj repr _ => repr in_ ["<OrderDirection.ASC: 'asc'>"; "<OrderDirection.DESC: 'desc'>"]
  | _ => false
  end.

(** [process_order_by] on an object with [__gql_fields__]; the fuel is the depth of calls
    the interpreter allows. *)
Fixpoint process_order_by (depth : nat) (obj : pyval) (prefix : string) : result (list order_by) :=
  match depth with
  | O => Err RecursionError
  | S depth =>
      match Py.attr "__gql_fields__" obj with
      | Some (PList names) =>
          l ← mapR (λ n,
            match n with
            | PStr field_name =>
                match Py.attr field_name obj with
                | None => Err AttributeError
                | Some PNone => Ok []
                | Some v =>
                    let field_path := under prefix field_name in
                    if _is_vector_order_by v then Ok (_append_vector_order_by v field_path)
                    else if match v with PStr _ => true | v => is_order_direction v end then
                      d ← _normalize_order_direction v;
                      Ok [key field_path d PNone (default_collation field_path)]
                    else if is_some (Py.attr "__gql_fields__" v) then process_order_by depth v field_path
                    else Ok []
                end
            | _ => Err TypeError
            end) names;
          Ok (concat l)
      | _ => Err TypeError
      end
  end.
End input.

(** [default_string_collation] is [None] without a configuration; the class a generated
    input was made for is its [_target_class]. *)
Definition _source_type_of (order_by_input : pyval) : option string :=
  text_of (Py.attr "_target_class" order_by_input).

Definition _convert_order_by_input_to_sql (depth : nat) (order_by_input : pyval)
    (global_collation source_type : option string) : result (option (list order_by)) :=
  let source_type := match source_type with Some t => Some t | None => _source_type_of order_by_input end in
  let some_of l := match l with [] => None | _ => Some l end in
  if Py.is_none order_by_input then Ok None
  else if is_item order_by_input then
    k ← item_key global_collation source_type order_by_input; Ok (Some [k])
  else
    match order_by_input with
    | PList items => l ← mapR (list_item global_collation source_type) items; Ok (some_of (concat l))
    | PDict d => l ← _collect_dict_order_by global_collation source_type d; Ok (some_of l)
    | v =>
        if is_some (Py.attr "__gql_fields__" v) then
          l ← process_order_by global_collation source_type depth v EmptyString; Ok (some_of l)
        else Ok None
    end.

(** ** In the repository *)

(** What is passed as [order_by]: a set of keys, or a value. *)
Inductive order_arg := OrderBySet (instructions : list order_by) | Value (v : pyval).

Section repository.
Context (depth : nat) (global_collation : option string) (type_registry : list (string * string)).

Definition _resolve_order_by_set (arg : order_arg) (view_name : string)
    : result (option (list order_by)) :=
  let annotated source l :=
    with_temporal_casts
      (match dict_get view_name type_registry with Some t => Some t | None => source end) l in
  match arg with
  | OrderBySet l => Ok (Some (annotated None l))
  | Value v =>
      if negb (Py.truthy v) then Ok None
      else
        let v :=
          match v with
          | PTuple ((PStr _ :: _) as l) => if Nat.leb (length l) 2 then PList [v] else PList l
          | PTuple l => PList l
          | v => v
          end in
        let converted source := _convert_order_by_input_to_sql depth v global_collation source in
        order_set ← (match v with
               | PStr _ => Ok None
               | PDict _ | PList _ => converted (dict_get view_name type_registry)
               | v => if is_some (Py.attr "_to_sql_order_by" v) then converted None else Err TypeError
               end : result (option (list order_by)));
        Ok (match order_set with Some l => Some (annotated (_source_type_of v) l) | None => None end)
  end.

(** The ORDER BY and whether it needs the alias [t] in FROM. *)
Definition _build_order_by_sql (arg : order_arg) (table_ref : string) (native_columns : list string)
    (column_mapping : list (string * string)) (view_name : string) (flat_view : bool)
    : result (option composable * bool) :=
  order_set ← _resolve_order_by_set arg view_name;
  match order_set with
  | None => Ok (None, false)
  | Some instructions =>
      let native_columns :=
        if flat_view
        then native_columns ++ map field (List.filter (λ i, negb (Str.has_char "." (field i))) instructions)
        else native_columns in
      order_sql ← to_sql table_ref native_columns column_mapping instructions;
      Ok (Some order_sql, uses_flat_columns native_columns column_mapping instructions)
  end.
End repository.
End classes.
