(* ===== verification/OrderText.v ===== *)
(** * A text as a list of sort keys ([_order_by_string_sql] of [db.py])

    The regular expression of a key is written as the scan it makes: a name, then up to
    two qualified names, an optional direction and an optional order of nulls, up to a
    comma or the end.  What follows a name tells where it ends, so no shorter reading of
    a part lets the rest match, and the scan has nothing to go back on. *)
From stdpp Require Import base decidable strings list.
From Stdlib Require Import ZArith Lia Ascii.
From S2P Require Import Prelude PyVal Sql Regex.

Local Open Scope py_scope.

Definition is_blank (c : ascii) : bool := in_class (Class false space_class) c.

Fixpoint skip_blanks (s : string) : string :=
  match s with
  | String c s' => if is_blank c then skip_blanks s' else s
  | EmptyString => EmptyString
  end.

(** ** [_ORDER_NAME] *)

Definition name_start (c : ascii) : bool := Str.is_alpha c || Ascii.eqb c "_".
Definition name_char (c : ascii) : bool := name_start c || Str.is_digit c || Ascii.eqb c "$".

(** The characters of a plain name, and the rest. *)
Fixpoint plain_name (s : string) : string * string :=
  match s with
  | String c s' => if name_char c then let '(n, r) := plain_name s' in (String c n, r) else (EmptyString, s)
  | EmptyString => (EmptyString, EmptyString)
  end.

(** What a quoted name holds, two quotes for one, and the rest after the closing quote. *)
Fixpoint quoted_name (s : string) : option (string * string) :=
  match s with
  | EmptyString => None
  | String c s' =>
      if Ascii.eqb c Py.dquote then
        match s' with
        | String d s'' =>
            if Ascii.eqb d Py.dquote
            then match quoted_name s'' with Some (n, r) => Some (String c n, r) | None => None end
            else Some (EmptyString, s')
        | EmptyString => Some (EmptyString, s')
        end
      else if Ascii.eqb c "000" then None
      else match quoted_name s' with Some (n, r) => Some (String c n, r) | None => None end
  end.

(** One name, an unquoted one folded to lower case. *)
Definition order_name (s : string) : option (string * string) :=
  match s with
  | String c s' =>
      if Ascii.eqb c Py.dquote then
        match quoted_name s' with
        | Some (String _ _ as n, r) => Some (n, r)
        | _ => None
        end
      else if name_start c then let '(n, r) := plain_name s in Some (Str.lower n, r)
      else None
  | EmptyString => None
  end.

(** [n] more names, each after a point. *)
Fixpoint qualified (n : nat) (s : string) : list string * string :=
  match n with
  | O => ([], s)
  | S n =>
      match skip_blanks s with
      | String "." s' =>
          match order_name (skip_blanks s') with
          | Some (name, r) => let '(names, r) := qualified n r in (name :: names, r)
          | None => ([], s)
          end
      | _ => ([], s)
      end
  end.

(** ** The rest of a key *)

(** [\b] after a word. *)
Definition boundary (s : string) : bool :=
  match s with String c _ => negb (in_class (Class false word_class) c) | EmptyString => true end.

(** [\s+word\b], in any case; the word comes back in upper case. *)
Definition keyword (words : list string) (s : string) : option (string * string) :=
  match s with
  | String c _ =>
      if is_blank c then
        let s := skip_blanks s in
        match List.find (λ w, Str.starts_with w (Str.upper s)) words with
        | Some w =>
            let r := Str.drop (String.length w) s in
            if boundary r then Some (w, r) else None
        | None => None
        end
      else None
  | EmptyString => None
  end.

Definition optional (words : list string) (s : string) : option string * string :=
  match keyword words s with Some (w, r) => (Some w, r) | None => (None, s) end.

Definition nulls_keyword (s : string) : option string * string :=
  match keyword ["NULLS"] s with
  | Some (_, r) =>
      match keyword ["FIRST"; "LAST"] r with Some (w, r) => (Some w, r) | None => (None, s) end
  | None => (None, s)
  end.

Record sort_key := { names : list string; dir : option string; nulls : option string }.

(** One match of [_ORDER_KEY_RE]: the key, and the rest after a comma. *)
Definition order_key (s : string) : option (sort_key * option string) :=
  match order_name (skip_blanks s) with
  | None => None
  | Some (name, r) =>
      let '(more, r) := qualified 2 r in
      let '(d, r) := optional ["ASC"; "DESC"] r in
      let '(n, r) := nulls_keyword r in
      let k := {| names := name :: more; dir := d; nulls := n |} in
      match skip_blanks r with
      | EmptyString => Some (k, None)
      | String "," r => Some (k, Some r)
      | _ => None
      end
  end.

(** [Identifier( *names)] *)
Definition identifier (names : list string) : composable :=
  match names with [n] => Identifier n | _ => Join "." (map Identifier names) end.

Definition key_parts (k : sort_key) : composable :=
  Composed ([identifier (names k)]
              ++ match dir k with Some d => [SQL (" " +:+ d)%stdpp] | None => [] end
              ++ match nulls k with Some n => [SQL (" NULLS " +:+ n)%stdpp] | None => [] end).

(** Every key takes a character, so the length of the text is fuel enough. *)
Fixpoint order_keys (fuel : nat) (s : string) : result (list sort_key) :=
  match fuel with
  | O => Err RecursionError
  | S fuel =>
      match order_key s with
      | None => Err ValueError
      | Some (k, None) => Ok [k]
      | Some (k, Some rest) => ks ← order_keys fuel rest; Ok (k :: ks)
      end
  end.

Definition _order_by_string_sql (order_by : string) : result composable :=
  ks ← order_keys (S (String.length order_by)) order_by;
  Ok (Composed [SQL "ORDER BY "; Join ", " (map key_parts ks)]).

Example order_text_example :
  _order_by_string_sql "createdAt desc nulls last, t . name"
  = Ok (Composed [SQL "ORDER BY "; Join ", "
          [Composed [Identifier "createdat"; SQL " DESC"; SQL " NULLS LAST"];
           Composed [Join "." [Identifier "t"; Identifier "name"]]]]).
Proof. vm_compute. reflexivity. Qed.

Example order_text_refused :
  map _order_by_string_sql ["a; drop table x"; "lower(a)"; "1"; ""; "a,"; "a ascii"; "a.b.c.d"]
  = repeat (Err ValueError) 7.
Proof. vm_compute. reflexivity. Qed.
