(* ===== verification/Inputs.v ===== *)
(** * Input objects, from GraphQL's values to the payload of a mutation

    [types/coercion.py], the constructor and [to_dict] of input classes
    ([utils/fraiseql_builder.py], [types/constructor.py], [mutations/sql_generator.py]),
    [utils/naming.py], and the parameters of a mutation's call ([mutations/mutation_decorator.py],
    [mutations/rust_executor.py]).  The classes and enumerations of a program are tables.
    Values handed over by graphql-core for a list are lists. *)
From stdpp Require Import base decidable strings list.
From Stdlib Require Import ZArith Lia Ascii.
From S2P Require Import Prelude PyVal Casing.

Local Open Scope py_scope.

(** ** Values and annotations *)

(** Values of the language with the objects of the program: dates carry their ISO text,
    an enumeration's member its name, an instance of a declared class its attributes. *)
Inductive value :=
| Null
| Bool (b : bool)
| Int (z : Z)
| Float (f : Num.pyfloat)
| Text (s : string)
| Decimal (m e : Z)
| Date (iso : string)
| Datetime (iso : string)
| UUID (s : string)
| Address (s : string)
| Other (repr : string)
| Unset
| Member (enum name : string)
| Items (l : list value)
| Entries (d : list (string * value))
| Instance (class : string) (attrs : list (string * value)).

(** [Class] is a class with a definition; [Plain] any type the coercion does not look at,
    [Annotated] ones included. *)
Inductive annotation :=
| Class (c : string)
| EnumClass (e : string)
| ListOf (a : annotation)
| UnionOf (l : list annotation)
| NoneType
| Plain (name : string).

(** A [FraiseQLField]: [default] is [None] for [FRAISE_MISSING], [default_factory] what the
    factory returns, [field_type] the annotation without [Annotated], [on_class] whether
    the class holds the field object under the attribute's name. *)
Record field := {
  default_ : option value;
  default_factory : option value;
  init : bool;
  purpose : string;
  field_type : annotation;
  graphql_name : option string;
  on_class : bool
}.

(** A class with the kind of its definition, and its annotations with their fields. *)
Record input_class := { kind : string; annotations : list (string * (annotation * field)) }.

(** ** Names *)

Definition has_upper : string → bool := Str.existsb Str.is_upper.
Definition has_lower : string → bool := Str.existsb Str.is_lower.

(** [s.isupper()], [s.islower()] *)
Definition isupper (s : string) : bool := has_upper s && negb (has_lower s).
Definition islower (s : string) : bool := has_lower s && negb (has_upper s).

Definition snake_to_camel (name : string) : string :=
  let no_underscore := negb (Str.has_char underscore name) in
  if no_underscore && negb (islower name) && negb (isupper name) then name
  else if isupper name && no_underscore then name
  else
    match Str.split underscore name with
    | [] => name
    | first :: rest =>
        (Str.lower first +:+
         Str.join EmptyString
           (map (λ part, if isupper part && (1 <? String.length part)%nat then part else capitalize part) rest))%stdpp
    end.

(** ** Fields of a class *)

Definition purpose_map (kind : string) : list string :=
  if kind =s "input" then ["input"; "both"]
  else if kind =s "output" then ["output"; "both"]
  else if (kind =s "type") || (kind =s "interface") then ["type"; "both"; "output"]
  else [].

Definition _should_include_field (f : field) (kind : string) : bool := purpose f in_ purpose_map kind.

(** The annotations whose fields the class's kind takes. *)
Definition collect_fraise_fields (c : input_class) : list (string * (annotation * field)) :=
  List.filter (λ x, _should_include_field x.2.2 (kind c)) (annotations c).

(** [_extract_type] *)
Definition not_none (a : annotation) : bool := match a with NoneType => false | _ => true end.

Definition _extract_type (a : annotation) : annotation :=
  match a with
  | UnionOf l => match List.filter not_none l with [x] => x | _ => a end
  | _ => a
  end.

Definition _is_string_field (f : field) : bool :=
  match _extract_type (field_type f) with Plain name => name =s "str" | _ => false end.

Definition is_required (f : field) : bool := negb (is_some (default_ f)) && negb (is_some (default_factory f)).

Definition _validate_input_string_value (v : value) (f : field) : result unit :=
  match v with
  | Null => if is_required f then Err ValueError else Ok ()
  | Text s => if negb (Str.nonempty (Str.strip s)) && is_required f then Err ValueError else Ok ()
  | _ => Ok ()
  end.

(** ** Coercion *)

Section program.
Context (classes : string → input_class) (enums : string → list (string * value)).
Context (camel_case_fields : bool).

(** An argument of the generated constructor, as it is stored. *)
Definition stored (c : input_class) (f : field) (v : value) : result value :=
  let final := match v, default_factory f with Null, Some made => made | _, _ => v end in
  if (kind c =s "input") && _is_string_field f then _validate_input_string_value final f ;; Ok final
  else Ok final.

(** [cls( **kwargs )] with an argument for every field: those a field keeps out of the
    constructor are unexpected. *)
Definition construct (name : string) (kwargs : list (string * (field * value))) : result value :=
  if existsb (λ x, negb (init x.2.1)) kwargs then Err TypeError
  else attrs ← mapR (λ x, v ← stored (classes name) x.2.1 x.2.2; Ok (x.1, v)) kwargs;
       Ok (Instance name attrs).

(** [member.value == value] for the values enumerations have. *)
Definition number (v : value) : option Num.pyfloat :=
  match v with
  | Bool b => Some (Num.mk_float (if b then 1 else 0) 0)
  | Int z => Some (Num.mk_float z 0)
  | Float f => Some f
  | _ => None
  end.

Definition float_eqb (a b : Num.pyfloat) : bool := Num.float_leb a b && Num.float_leb b a.

Definition same_value (v w : value) : bool :=
  match v, w with
  | Text s, Text t => s =s t
  | Null, Null => true
  | _, _ => match number v, number w with Some a, Some b => float_eqb a b | _, _ => false end
  end.

Definition _coerce_to_enum (v : value) (enum : string) : result value :=
  match List.find (λ m, same_value m.2 v) (enums enum) with
  | Some m => Ok (Member enum m.1)
  | None =>
      match v with
      | Text s => if is_some (dict_get s (enums enum)) then Ok (Member enum s) else Err ValueError
      | _ => Err ValueError
      end
  end.

Definition enum_of (a : annotation) : option string := match a with EnumClass e => Some e | _ => None end.

Fixpoint first_of {A} (f : annotation → option A) (l : list annotation) : option A :=
  match l with [] => None | a :: l => match f a with Some x => Some x | None => first_of f l end end.

Definition _resolve_enum_type (a : annotation) : option string :=
  match a with EnumClass e => Some e | UnionOf l => first_of enum_of l | _ => None end.

Definition is_member (v : value) (enum : string) : bool :=
  match v with Member e _ => e =s enum | _ => false end.

(** A class the coercion builds from an annotation. *)
Definition object_class (a : annotation) : option string :=
  match a with
  | Class c => if kind (classes c) in_ ["input"; "type"; "success"; "failure"] then Some c else None
  | _ => None
  end.

Definition class_of (a : annotation) : option string :=
  match a with UnionOf l => first_of object_class l | _ => object_class a end.

Definition item_class (a : annotation) : option string :=
  match a with ListOf (Class c) => Some c | _ => None end.

(** [_coerce_field_value], on what reading the value as an object, or its items as
    objects, gives. *)
Definition field_value (raw : value) (as_object : string → result value) (as_items : string → result value)
    (a : annotation) : result value :=
  match raw with
  | Null => Ok Null
  | _ =>
      match class_of a with
      | Some c => as_object c
      | None =>
          match item_class a with
          | Some c => as_items c
          | None =>
              match _resolve_enum_type a with
              | Some e => if is_member raw e then Ok raw else _coerce_to_enum raw e
              | None => match raw with Address s => Ok (Text s) | _ => Ok raw end
              end
          end
      end
  end.

(** [name in raw] *)
Definition contains (raw : value) (name : string) : result bool :=
  match raw with
  | Entries d => Ok (dict_has name d)
  | Text s => Ok (Str.has_sub name s)
  | Items l => Ok (existsb (λ v, match v with Text s => s =s name | _ => false end) l)
  | _ => Err TypeError
  end.

Definition find_key (raw : value) (name : string) : result (option string) :=
  here ← contains raw name;
  if here : bool then Ok (Some name)
  else if camel_case_fields then
    there ← contains raw (snake_to_camel name); Ok (if there : bool then Some (snake_to_camel name) else None)
  else Ok None.

(** The argument for one field; [read] coerces what is under a key. *)
Definition argument (raw : value) (read : string → annotation → result value) (name : string)
    (x : annotation * field) : result value :=
  key ← find_key raw name;
  match key with
  | Some k => read k x.1
  | None =>
      match default_ x.2, default_factory x.2 with
      | Some v, _ => Ok v
      | None, Some made => Ok made
      | None, None => Err ValueError
      end
  end.

(** Texts, lists and other values have no item under a text. *)
Definition item {A} (d : list (string * (A → result value))) (k : string) (a : A) : result value :=
  match dict_get k d with Some read => read a | None => Err TypeError end.

Fixpoint coerce_input (raw : value) (name : string) : result value :=
  let readers :=
    match raw with
    | Entries d =>
        map (λ kv, (kv.1,
               field_value kv.2 (coerce_input kv.2)
                 (match kv.2 with
                  | Items l => λ c, vs ← mapR (λ v, coerce_input v c) l; Ok (Items vs)
                  | _ => λ _, Err TypeError
                  end))) d
    | _ => []
    end in
  kwargs ← mapR (λ x, v ← argument raw (item readers) x.1 x.2; Ok (x.1, (x.2.2, v)))
             (collect_fraise_fields (classes name));
  construct name kwargs.

Definition as_items (raw : value) (c : string) : result value :=
  match raw with
  | Items l => vs ← mapR (λ v, coerce_input v c) l; Ok (Items vs)
  | _ => Err TypeError
  end.

Definition _coerce_field_value (raw : value) (a : annotation) : result value :=
  field_value raw (coerce_input raw) (as_items raw) a.

(** An argument of a resolver, with the annotation of its parameter if it has one. *)
Definition argument_value (raw : value) (a : option annotation) : result value :=
  match raw, a with
  | Null, _ => Ok Null
  | _, None => Ok raw
  | _, Some (Class c) => coerce_input raw c
  | _, Some a =>
      match _resolve_enum_type a with
      | Some e => if is_member raw e then Ok raw else _coerce_to_enum raw e
      | None => Ok raw
      end
  end.

Definition coerce_input_arguments (parameters : list (string * option annotation)) (raw_args : list (string * value))
    : result (list (string * value)) :=
  @concat _ <$> mapR (λ p,
    if p.1 in_ ["info"; "root"] then Ok []
    else
      key ← find_key (Entries raw_args) p.1;
      match key with
      | Some k => v ← argument_value (default Null (dict_get k raw_args)) p.2; Ok [(p.1, v)]
      | None => Ok []
      end) parameters.

(** ** The payload *)

Definition _serialize_basic (v : value) : value :=
  match v with
  | UUID s | Address s => Text s
  | Date s | Datetime s => Text s
  | Member e n => default Null (dict_get n (enums e))
  | Decimal m e => Text (Num.decimal_str m e)
  | _ => v
  end.

Definition is_unset (v : value) : bool := match v with Unset => true | _ => false end.

(** Instances of input classes have [to_dict]. *)
Definition has_to_dict (v : value) : bool :=
  match v with Instance c _ => kind (classes c) =s "input" | _ => false end.

(** [_serialize_field_value], [dict] being what [to_dict] gives. *)
Definition serialized (to_dict : value → value) (v : value) : value :=
  match v with
  | Text s => if Str.nonempty (Str.strip s) then v else Null
  | Instance _ _ => if has_to_dict v then to_dict v else _serialize_basic v
  | Items l => Items (map (λ v, if has_to_dict v then to_dict v else _serialize_basic v) l)
  | _ => _serialize_basic v
  end.

(** [hasattr(self, name)] and [getattr]: the instance's attribute, else the class's. *)
Definition entry {A} (attrs : list (string * option A)) (field_object : A) (x : string * (annotation * field))
    : list (string * A) :=
  match dict_get x.1 attrs with
  | Some (Some v) => [(x.1, v)]
  | Some None => []
  | None => if on_class x.2.2 then [(x.1, field_object)] else []
  end.

Fixpoint to_dict (v : value) : value :=
  match v with
  | Instance c attrs =>
      let written := map (λ kv, (kv.1,
        if is_unset kv.2 then None
        else Some match kv.2 with
                  | Text s => if Str.nonempty (Str.strip s) then kv.2 else Null
                  | Instance _ _ => if has_to_dict kv.2 then to_dict kv.2 else _serialize_basic kv.2
                  | Items l => Items (map (λ v, if has_to_dict v then to_dict v else _serialize_basic v) l)
                  | _ => _serialize_basic kv.2
                  end)) attrs in
      Entries (concat (map (entry written (Other "FraiseQLField")) (annotations (classes c))))
  | _ => v
  end.

Definition _serialize_field_value : value → value := serialized to_dict.

(** An attribute of an object without [to_dict]; a float has a method [hex], as a UUID has
    an attribute of that name. *)
Definition attribute (v : value) : value :=
  match v with
  | UUID s => Text s
  | Float f => Text (Num.float_repr f)
  | Date s | Datetime s => Text s
  | Text s => if Str.nonempty (Str.strip s) then v else Null
  | _ => v
  end.

(** [_to_dict] of the argument of a mutation: an object, or a dictionary. *)
Definition _to_dict (v : value) : result value :=
  match v with
  | Instance _ attrs =>
      if has_to_dict v then Ok (to_dict v)
      else
        Ok (Entries (map (λ kv, (kv.1, attribute kv.2))
              (List.filter (λ kv, negb (Str.starts_with "_" kv.1) && negb (is_unset kv.2)) attrs)))
  | Entries _ => Ok v
  | _ => Err TypeError
  end.

(** ** The call of a mutation *)

Fixpoint to_pyval (v : value) : pyval :=
  match v with
  | Null => PNone
  | Bool b => PBool b
  | Int z => PInt z
  | Float f => PFloat f
  | Text s => PStr s
  | Decimal m e => PDecimal m e
  | Date s => PDate s EmptyString
  | Datetime s => PDatetime s EmptyString
  | UUID s => PUUID s
  | Items l => PList (map to_pyval l)
  | Entries d => PDict (map (λ kv, (kv.1, to_pyval kv.2)) d)
  | Address s | Other s => PObj s []
  | Unset => PObj EmptyString []
  | Member e n => PObj n []
  | Instance c attrs => PObj c []
  end.

(** [json.dumps(v, separators=(",", ":"))] *)
Fixpoint dumps (v : pyval) : result string :=
  match v with
  | PNone => Ok "null"
  | PBool b => Ok (if b then "true" else "false")
  | PInt z => Ok (Num.string_of_Z z)
  | PFloat f => Ok (Json.float f)
  | PStr s => Ok (Json.quoted s)
  | PList l | PTuple l => ts ← mapR dumps l; Ok ("[" +:+ Str.join "," ts +:+ "]")%stdpp
  | PDict d =>
      ts ← mapR (λ kv, t ← dumps kv.2; Ok (Json.quoted kv.1 +:+ ":" +:+ t)%stdpp) d;
      Ok ("{" +:+ Str.join "," ts +:+ "}")%stdpp
  | _ => Err TypeError
  end.

(** The text that ends the call of the SQL function, after the context's arguments. *)
Definition input_json (auto_camel_case : bool) (input_data : value) : result string :=
  dumps (if auto_camel_case then dict_keys_to_snake_case (to_pyval input_data) else to_pyval input_data).

(** The resolver of a mutation whose input class is [name], without [prepare_input]: the
    query's text and its parameters. *)
Definition mutation_call (name function_name : string) (context_args : list pyval) (auto_camel_case : bool)
    (raw_args : list (string * value)) : result (string * list pyval) :=
  args ← coerce_input_arguments [("info", None); ("input", Some (Class name))] raw_args;
  match dict_get "input" args with
  | None => Err TypeError
  | Some v =>
      data ← _to_dict v;
      text ← input_json auto_camel_case data;
      let marks := Str.join ", " (map (λ _, "%s") context_args) in
      Ok (match context_args with
          | [] => ("SELECT row_to_json(" +:+ function_name +:+ "(%s::jsonb))::text")%stdpp
          | _ => ("SELECT row_to_json(" +:+ function_name +:+ "(" +:+ marks +:+ ", %s::jsonb))::text")%stdpp
          end, context_args ++ [PStr text])
  end.
End program.
