(* ===== verification/Filters.v ===== *)
(** * The filters of where inputs ([sql/graphql_where_generator.py])

    The input classes a schema offers for the fields of a type, and which of them a field
    of a given type gets. *)
From stdpp Require Import base decidable strings list.
From Stdlib Require Import ZArith Lia Ascii.
From S2P Require Import Prelude PyVal Casing Inputs.

Local Open Scope py_scope.

(** ** Fields of a filter *)

(** [T | None] *)
Definition optional_type (a : annotation) : annotation := UnionOf [a; NoneType].

Definition filter_field (name : string) (graphql_name : option string) (default : option value) (a : annotation)
    : string * (annotation * field) :=
  (name, (a, {| default_ := default; default_factory := None; init := true; purpose := "both"; field_type := a;
                graphql_name := graphql_name; on_class := is_some default |})).

(** [name: T | None = None], the same under another name in GraphQL, and required fields. *)
Definition may (name : string) (a : annotation) := filter_field name None (Some Null) (optional_type a).
Definition renamed (name graphql_name : string) (a : annotation) :=
  filter_field name (Some graphql_name) (Some Null) (optional_type a).
Definition must (name : string) (a : annotation) := filter_field name None None a.
Definition must_renamed (name graphql_name : string) (a : annotation) := filter_field name (Some graphql_name) None a.

Definition text : annotation := Plain "str".
Definition int : annotation := Plain "int".
Definition float : annotation := Plain "float".
Definition bool_ : annotation := Plain "bool".

(** ** The filters *)

Definition StringFilter : list (string * (annotation * field)) :=
  [may "eq" text; may "neq" text; may "contains" text; may "icontains" text; may "startswith" text;
   may "istartswith" text; may "endswith" text; may "iendswith" text; may "like" text; may "ilike" text;
   may "matches" text; may "imatches" text; may "not_matches" text; renamed "in_" "in" (ListOf text);
   may "nin" (ListOf text); may "notin" (ListOf text); may "isnull" bool_].

Definition ArrayFilter : list (string * (annotation * field)) :=
  [may "eq" (Plain "list"); may "neq" (Plain "list"); may "isnull" bool_; may "contains" (Plain "list");
   may "contained_by" (Plain "list"); may "strictly_contains" (Plain "list");
   may "overlaps" (Plain "list"); may "len_eq" int; may "len_neq" int; may "len_gt" int;
   may "len_gte" int; may "len_lt" int; may "len_lte" int; may "any_eq" text; may "all_eq" text;
   may "in_array" text; may "array_eq" (Plain "list"); may "array_neq" (Plain "list");
   may "array_contains" (Plain "list"); may "array_contained_by" (Plain "list");
   may "array_overlaps" (Plain "list"); may "array_length_eq" int; may "array_length_gt" int;
   may "array_length_gte" int; may "array_length_lt" int; may "array_any_eq" text; may "array_all_eq" text].

Definition IntFilter : list (string * (annotation * field)) :=
  [may "eq" int; may "neq" int; may "gt" int; may "gte" int; may "lt" int; may "lte" int;
   renamed "in_" "in" (ListOf int); may "nin" (ListOf int); may "isnull" bool_].

Definition FloatFilter : list (string * (annotation * field)) :=
  [may "eq" float; may "neq" float; may "gt" float; may "gte" float; may "lt" float; may "lte" float;
   renamed "in_" "in" (ListOf float); may "nin" (ListOf float); may "isnull" bool_].

Definition DecimalFilter : list (string * (annotation * field)) :=
  [may "eq" (Plain "Decimal"); may "neq" (Plain "Decimal"); may "gt" (Plain "Decimal");
   may "gte" (Plain "Decimal"); may "lt" (Plain "Decimal"); may "lte" (Plain "Decimal");
   renamed "in_" "in" (ListOf (Plain "Decimal")); may "nin" (ListOf (Plain "Decimal")); may "isnull" bool_].

Definition BooleanFilter : list (string * (annotation * field)) :=
  [may "eq" bool_; may "neq" bool_; may "isnull" bool_].

Definition UUIDFilter : list (string * (annotation * field)) :=
  [may "eq" (Plain "UUID"); may "neq" (Plain "UUID"); renamed "in_" "in" (ListOf (Plain "UUID"));
   may "nin" (ListOf (Plain "UUID")); may "isnull" bool_; may "descendant_of_id" text;
   may "ancestor_of_id" text].

Definition IDFilter : list (string * (annotation * field)) :=
  [may "eq" (Plain "ID"); may "neq" (Plain "ID"); renamed "in_" "in" (ListOf (Plain "ID"));
   may "nin" (ListOf (Plain "ID")); may "isnull" bool_;
   renamed "descendant_of_id" "descendantOfId" (Plain "ID");
   renamed "ancestor_of_id" "ancestorOfId" (Plain "ID")].

Definition DateFilter : list (string * (annotation * field)) :=
  [may "eq" (Plain "date"); may "neq" (Plain "date"); may "gt" (Plain "date"); may "gte" (Plain "date");
   may "lt" (Plain "date"); may "lte" (Plain "date"); renamed "in_" "in" (ListOf (Plain "date"));
   may "nin" (ListOf (Plain "date")); may "isnull" bool_].

Definition DateTimeFilter : list (string * (annotation * field)) :=
  [may "eq" (Plain "datetime"); may "neq" (Plain "datetime"); may "gt" (Plain "datetime");
   may "gte" (Plain "datetime"); may "lt" (Plain "datetime"); may "lte" (Plain "datetime");
   renamed "in_" "in" (ListOf (Plain "datetime")); may "nin" (ListOf (Plain "datetime"));
   may "isnull" bool_].

Definition IPRange : list (string * (annotation * field)) :=
  [must_renamed "from_" "from" text; must "to" text].

Definition NetworkAddressFilter : list (string * (annotation * field)) :=
  [may "eq" text; may "neq" text; renamed "in_" "in" (ListOf text); may "nin" (ListOf text);
   may "isnull" bool_; may "inSubnet" text; may "inRange" (Class "IPRange"); may "isPrivate" bool_;
   may "isPublic" bool_; may "isIPv4" bool_; may "isIPv6" bool_; may "insubnet" text;
   may "inrange" (Class "IPRange"); may "isprivate" bool_; may "ispublic" bool_; may "isipv4" bool_;
   may "isipv6" bool_; may "strictleft" text; may "strictright" text; may "isLoopback" bool_;
   may "isMulticast" bool_; may "isBroadcast" bool_; may "isLinkLocal" bool_; may "isDocumentation" bool_;
   may "isReserved" bool_; may "isCarrierGrade" bool_; may "isSiteLocal" bool_; may "isUniqueLocal" bool_;
   may "isGlobalUnicast" bool_; may "isloopback" bool_; may "ismulticast" bool_; may "isbroadcast" bool_;
   may "islinklocal" bool_; may "isdocumentation" bool_; may "isreserved" bool_;
   may "iscarriergrade" bool_; may "issitelocal" bool_; may "isuniquelocal" bool_;
   may "isglobalunicast" bool_].

Definition MacAddressFilter : list (string * (annotation * field)) :=
  [may "eq" text; may "neq" text; renamed "in_" "in" (ListOf text); may "nin" (ListOf text);
   may "isnull" bool_].

Definition LTreeIndexInput : list (string * (annotation * field)) :=
  [must "label" text; must "position" int].

Definition LTreeFilter : list (string * (annotation * field)) :=
  [may "eq" text; may "neq" text; may "lt" text; may "lte" text; may "gt" text; may "gte" text;
   renamed "in_" "in" (ListOf text); may "nin" (ListOf text); may "isnull" bool_; may "ancestor_of" text;
   may "descendant_of" text; may "isdescendant" text; may "matches_lquery" text;
   may "matches_ltxtquery" text; may "matches_any_lquery" (ListOf text); may "nlevel" int;
   may "nlevel_eq" int; may "nlevel_gt" int; may "nlevel_gte" int; may "nlevel_lt" int;
   may "nlevel_lte" int; may "nlevel_neq" int; may "depth_eq" int; may "depth_gt" int;
   may "depth_gte" int; may "depth_lt" int; may "depth_lte" int; may "depth_neq" int; may "subpath" text;
   may "index" int; may "index_eq" (Class "LTreeIndexInput"); may "index_gte" (Class "LTreeIndexInput");
   may "lca" (ListOf text); may "concat" text; may "in_array" (ListOf text); may "array_contains" text].

Definition CoordinateDistanceInput : list (string * (annotation * field)) :=
  [must "center" (ListOf float); must "radius" float].

Definition CoordinateFilter : list (string * (annotation * field)) :=
  [may "eq" (Plain "Coordinate"); may "neq" (Plain "Coordinate");
   renamed "in_" "in" (ListOf (Plain "Coordinate")); may "nin" (ListOf (Plain "Coordinate"));
   may "isnull" bool_; may "distance_within" (Class "CoordinateDistanceInput")].

Definition DateRangeFilter : list (string * (annotation * field)) :=
  [may "eq" text; may "neq" text; renamed "in_" "in" (ListOf text); may "nin" (ListOf text);
   may "isnull" bool_; may "contains_date" text; may "overlaps" text; may "adjacent" text;
   may "strictly_left" text; may "strictly_right" text; may "not_left" text; may "not_right" text].

Definition FullTextFilter : list (string * (annotation * field)) :=
  [may "matches" text; may "plain_query" text; may "phrase_query" text; may "websearch_query" text;
   may "rank_gt" text; may "rank_gte" text; may "rank_lt" text; may "rank_lte" text;
   may "rank_cd_gt" text; may "rank_cd_gte" text; may "rank_cd_lt" text; may "rank_cd_lte" text;
   may "isnull" bool_].

Definition JSONBFilter : list (string * (annotation * field)) :=
  [may "eq" (Plain "Any"); may "neq" (Plain "Any"); may "isnull" bool_; may "has_key" text;
   may "has_any_keys" (ListOf text); may "has_all_keys" (ListOf text); may "contains" (Plain "Any");
   may "contained_by" (Plain "Any"); may "path_exists" text; may "path_match" text].

Definition SparseVectorInput : list (string * (annotation * field)) :=
  [must "indices" (ListOf int); must "values" (ListOf float)].

Definition VectorDistanceInput : list (string * (annotation * field)) :=
  [may "dense" (ListOf float); may "sparse" (Class "SparseVectorInput")].

Definition VectorFilter : list (string * (annotation * field)) :=
  [may "cosine_distance" (Class "VectorDistanceInput"); may "l2_distance" (Class "VectorDistanceInput");
   may "l1_distance" (Class "VectorDistanceInput"); may "inner_product" (Class "VectorDistanceInput");
   may "distance_within" float; may "hamming_distance" text; may "jaccard_distance" text;
   may "isnull" bool_].

(** The filter generated for a GraphQL scalar. *)
Definition CustomScalarFilter (scalar : string) : list (string * (annotation * field)) :=
  let t := Plain scalar in
  [may "eq" t; may "ne" t; renamed "in_" "in" (ListOf t); renamed "not_in" "notIn" (ListOf t); may "contains" t;
   renamed "starts_with" "startsWith" t; renamed "ends_with" "endsWith" t].

Definition filter_classes : list (string * list (string * (annotation * field))) :=
  [("StringFilter", StringFilter); ("ArrayFilter", ArrayFilter); ("IntFilter", IntFilter);
   ("FloatFilter", FloatFilter); ("DecimalFilter", DecimalFilter); ("BooleanFilter", BooleanFilter);
   ("UUIDFilter", UUIDFilter); ("IDFilter", IDFilter); ("DateFilter", DateFilter);
   ("DateTimeFilter", DateTimeFilter); ("IPRange", IPRange);
   ("NetworkAddressFilter", NetworkAddressFilter); ("MacAddressFilter", MacAddressFilter);
   ("LTreeIndexInput", LTreeIndexInput); ("LTreeFilter", LTreeFilter);
   ("CoordinateDistanceInput", CoordinateDistanceInput); ("CoordinateFilter", CoordinateFilter);
   ("DateRangeFilter", DateRangeFilter); ("FullTextFilter", FullTextFilter);
   ("JSONBFilter", JSONBFilter); ("SparseVectorInput", SparseVectorInput);
   ("VectorDistanceInput", VectorDistanceInput); ("VectorFilter", VectorFilter)].

(** ** Which filter a field gets *)

(** A type hint: a class, a GraphQL scalar, a class with a definition, a list, a union. *)
Inductive hint :=
| Named (name : string)
| Scalar (name : string)
| Defined (class : string)
| ListHint (item : hint)
| UnionHint (l : list hint)
| NoneHint.

(** A filter by its name, the filter of a scalar, or the where input of a class. *)
Inductive where_type :=
| Filter (name : string)
| Custom (scalar : string)
| Where (class : string).

#[export] Instance where_type_eq : EqDecision where_type.
Proof. solve_decision. Defined.

Definition fulltext_patterns : list string :=
  ["search_vector"; "searchvector"; "tsvector"; "ts_vector"; "fulltext_vector"; "fulltextvector"; "text_search";
   "textsearch"; "search_index"; "searchindex"].

Definition vector_patterns : list string :=
  ["embedding"; "vector"; "_embedding"; "_vector"; "embedding_vector"; "embeddingvector"; "text_embedding";
   "textembedding"; "image_embedding"; "imageembedding"].

Definition is_float_vector_type (h : hint) : bool :=
  match h with Named n => n in_ ["VectorField"; "HalfVectorField"] | _ => false end.

Definition is_list (h : hint) : bool := match h with ListHint _ => true | _ => false end.

(** [Optional[T]] is read as [T]. *)
Definition without_none (h : hint) : hint :=
  match h with
  | UnionHint l => match List.filter (λ h, match h with NoneHint => false | _ => true end) l with h :: _ => h | [] => h end
  | _ => h
  end.

Definition exotic_type_mapping : list (string * string) :=
  [("CoordinateField", "CoordinateFilter"); ("IpAddress", "NetworkAddressFilter"); ("CIDR", "NetworkAddressFilter");
   ("MacAddress", "MacAddressFilter"); ("LTree", "LTreeFilter"); ("DateTime", "DateTimeFilter");
   ("DateRangeField", "DateRangeFilter")].

Definition type_mapping : list (string * string) :=
  [("str", "StringFilter"); ("int", "IntFilter"); ("float", "FloatFilter"); ("Decimal", "DecimalFilter");
   ("bool", "BooleanFilter"); ("UUID", "UUIDFilter"); ("ID", "IDFilter"); ("date", "DateFilter");
   ("datetime", "DateTimeFilter"); ("dict", "JSONBFilter")].

Definition graphql_scalar_mapping : list (string * string) :=
  [("CoordinateScalar", "CoordinateFilter"); ("IpAddressScalar", "NetworkAddressFilter");
   ("CIDRScalar", "NetworkAddressFilter"); ("MacAddressScalar", "MacAddressFilter"); ("LTreeScalar", "LTreeFilter")].

(** What is left of [_get_filter_type_for_field] once classes with a definition are apart. *)
Definition filter_by_type (h : hint) : where_type :=
  match h with
  | Named n =>
      match dict_get n exotic_type_mapping with
      | Some f => Filter f
      | None => Filter (default "StringFilter" (dict_get n type_mapping))
      end
  | Scalar s => match dict_get s graphql_scalar_mapping with Some f => Filter f | None => Custom s end
  | _ => Filter "StringFilter"
  end.

(** The filter found by the name of the field or by its being a list. *)
Definition filter_by_name (field_name : string) (h : hint) : option where_type :=
  let field_lower := Str.lower field_name in
  let named (patterns : list string) := existsb (λ p, Str.has_sub p field_lower) patterns in
  if Str.nonempty field_name && named fulltext_patterns then Some (Filter "FullTextFilter")
  else if Str.nonempty field_name && ((is_list h && named vector_patterns) || is_float_vector_type h)
  then Some (Filter "VectorFilter")
  else if is_list h then Some (Filter "ArrayFilter")
  else None.

(** [s.replace(old, new)] for a text that is not empty; [skip] characters of a match are left. *)
Fixpoint replace_from (skip : nat) (old new s : string) : string :=
  match s with
  | EmptyString => EmptyString
  | String c s' =>
      match skip with
      | S skip => replace_from skip old new s'
      | O =>
          if Str.starts_with old s then (new +:+ replace_from (String.length old - 1) old new s')%stdpp
          else String c (replace_from 0 old new s')
      end
  end.

(** The name of the class. *)
Definition type_name (t : where_type) : string :=
  match t with
  | Filter n => n
  | Custom s =>
      if Str.ends_with "Scalar" s then replace_from 0 "Scalar" "Filter" s else (s +:+ "Filter")%stdpp
  | Where c => (c +:+ "WhereInput")%stdpp
  end.

Example custom_filter_names :
  map (λ s, type_name (Custom s)) ["CIDR"; "EmailScalar"; "ScalarScalar"] = ["CIDRFilter"; "EmailFilter"; "FilterFilter"].
Proof. reflexivity. Qed.
