(* ===== verification/WhereInput.v ===== *)
(** * Where inputs, from a type to its class and from an object to a dictionary

    [create_graphql_where_input], the conversion of its objects to the dictionaries that
    [where_normalization.py] reads, and their conversion to the older SQL where types
    ([sql/graphql_where_generator.py]).  The hints of a program's classes are a table; fuel
    stands for Python's recursion limit. *)
From stdpp Require Import base decidable strings list.
From Stdlib Require Import ZArith Lia Ascii.
From S2P Require Import Prelude PyVal Sql WhereClause Casing Views Normalize Inputs Filters.

Local Open Scope py_scope.

(** ** Generation *)

(** A field of a generated class: the type in its annotation, and the one the schema shows. *)
Record where_field := { annotated : where_type; shown : where_type }.

Definition where_fields : Type := list (string * where_field).

(** [_where_input_cache] and [_generation_stack] *)
Record generator := { generated : list (string * where_fields); generating : list string }.

Definition with_class (g : generator) (cls : string) (fs : where_fields) : generator :=
  {| generated := dict_set cls fs (generated g); generating := generating g |}.

Definition enter (cls : string) (g : generator) : generator :=
  {| generated := generated g; generating := if cls in_ generating g then generating g else cls :: generating g |}.

Definition leave (cls : string) (g : generator) : generator :=
  {| generated := generated g; generating := List.filter (λ c, negb (c =s cls)) (generating g) |}.

Section generation.
Context (type_hints : string → list (string * hint)).

(** [None] stands for the placeholder of a circular reference; [create] generates the
    class of another type. *)
Definition _get_filter_type_for_field (create : string → generator → result (where_fields * generator))
    (h : hint) (field_name : string) (g : generator) : result (option where_type * generator) :=
  let h := without_none h in
  match filter_by_name field_name h with
  | Some t => Ok (Some t, g)
  | None =>
      match h with
      | Defined c =>
          if dict_has c (generated g) then Ok (Some (Where c), g)
          else if c in_ generating g then Ok (None, g)
          else '(_, g) ← create c g; Ok (Some (Where c), g)
      | _ => Ok (Some (filter_by_type h), g)
      end
  end.

Definition is_private (name : string) : bool := Str.starts_with "_" name.

Definition add_field (create : string → generator → result (where_fields * generator))
    (acc : list (string * hint * option where_type) * generator) (x : string * hint)
    : result (list (string * hint * option where_type) * generator) :=
  if is_private x.1 then Ok acc
  else
    '(t, g) ← _get_filter_type_for_field create x.2 x.1 acc.2;
    Ok (acc.1 ++ [(x.1, x.2, t)], g).

(** A deferred field shows a text filter; its annotation is corrected if its class is
    there by now. *)
Definition resolve_field (there : string → bool) (x : string * hint * option where_type) : string * where_field :=
  let '(name, h, t) := x in
  (name,
   match t with
   | Some t => {| annotated := t; shown := t |}
   | None =>
       {| annotated := match h with
                       | Defined c => if there c then Where c else Filter "StringFilter"
                       | _ => Filter "StringFilter"
                       end;
          shown := Filter "StringFilter" |}
   end).

(** The fields of the class generated for [cls]; a class with a name of its own is not
    kept. *)
Fixpoint create_graphql_where_input (fuel : nat) (name : option string) (cls : string) (g : generator)
    : result (where_fields * generator) :=
  match fuel with
  | O => Err RecursionError
  | S fuel =>
      match name, dict_get cls (generated g) with
      | None, Some fs => Ok (fs, g)
      | _, _ =>
          '(definitions, g) ← foldR (add_field (create_graphql_where_input fuel None)) ([], enter cls g) (type_hints cls);
          let there c := (bool_decide (name = None) && (c =s cls)) || dict_has c (generated g) in
          let fs := map (resolve_field there) definitions in
          let g := match name with None => with_class g cls fs | Some _ => g end in
          Ok (fs, leave cls g)
      end
  end.
End generation.

(** A generated class as the input class the coercion reads. *)
Definition where_annotation (t : where_type) : annotation := optional_type (Class (type_name t)).

Definition where_input_class (name : string) (fs : where_fields) : input_class :=
  {| kind := "input";
     annotations := map (λ x, may x.1 (Class (type_name (annotated x.2)))) fs
                      ++ [may "OR" (ListOf (Class name)); may "AND" (ListOf (Class name)); may "NOT" (Plain "dict")] |}.

(** ** Objects to dictionaries *)

Definition is_logical (name : string) : bool := name in_ ["OR"; "AND"; "NOT"].

(** The value of an operator, as the conditions hold it. *)
Fixpoint operand (v : value) : pyval :=
  match v with
  | Null => PNone
  | Bool b => PBool b
  | Int z => PInt z
  | Float f => PFloat f
  | Text s => PStr s
  | Decimal m e => PDecimal m e
  | Date s => PDate s EmptyString
  | Datetime s => PDatetime s EmptyString
  | UUID s => PUUID s
  | Items l => PList (map operand l)
  | Entries d => PDict (map (λ kv, (kv.1, operand kv.2)) d)
  | Address s | Other s => PObj s []
  | Unset => PObj EmptyString []
  | Member _ n => PObj n []
  | Instance c attrs => PObj c (map (λ kv, (kv.1, operand kv.2)) attrs)
  end.

Definition operator_fields : list string :=
  ["eq"; "neq"; "in_"; "nin"; "gt"; "gte"; "lt"; "lte"; "contains"; "icontains"; "startswith"; "endswith";
   "istartswith"; "iendswith"; "isnull"; "matches"; "imatches"; "not_matches"].

Definition _is_filter_object (v : value) : bool :=
  match v with Instance _ attrs => existsb (λ kv, kv.1 in_ operator_fields) attrs | _ => false end.

Definition is_null (v : value) : bool := match v with Null => true | _ => false end.

(** The operators of a filter object that are set. *)
Definition set_operators (attrs : list (string * value)) : list (string * pyval) :=
  map (λ kv, (kv.1, operand kv.2)) (List.filter (λ kv, negb (is_null kv.2) && negb (is_private kv.1)) attrs).

(** A key of the dictionary, unless there is nothing under it. *)
Definition under (name : string) (d : list (string * pyval)) : list (string * pyval) :=
  match d with [] => [] | _ => [(name, PDict d)] end.

Section objects.
Context (is_where : string → bool).

(** [hasattr(v, "_to_whereinput_dict")], and [hasattr(v, "_to_sql_where")] *)
Definition has_methods (v : value) : bool := match v with Instance c _ => is_where c | _ => false end.

Definition direct_entry (name : string) (v : value) : list (string * pyval) :=
  if _is_filter_object v then match v with Instance _ attrs => under name (set_operators attrs) | _ => [] end
  else
    match v with
    | Entries _ => [(name, operand v)]
    | Text _ | Int _ | Float _ | Bool _ | UUID _ | Date _ | Datetime _ => [(name, PDict [("eq", operand v)])]
    | _ => []
    end.

Fixpoint _to_whereinput_dict (v : value) : list (string * pyval) :=
  match v with
  | Instance _ attrs =>
      concat (map (λ kv,
        if is_null kv.2 || is_private kv.1 then []
        else if is_logical kv.1 then
          if kv.1 =s "NOT" then [(kv.1, if has_methods kv.2 then PDict (_to_whereinput_dict kv.2) else operand kv.2)]
          else
            match kv.2 with
            | Items l =>
                [(kv.1, PList (map (λ x, if has_methods x then PDict (_to_whereinput_dict x) else operand x) l))]
            | _ => [(kv.1, operand kv.2)]
            end
        else if has_methods kv.2 then under kv.1 (_to_whereinput_dict kv.2)
        else direct_entry kv.1 kv.2) attrs)
  | _ => []
  end.

Definition normalize_whereinput (fuel : nat) (res : resolver) (v : value) (view_name jsonb : string)
    (table_columns : option (list string)) : result where_clause :=
  if has_methods v then normalize_dict_where fuel res view_name jsonb table_columns (PDict (_to_whereinput_dict v))
  else Err TypeError.

(** ** Objects to SQL where types *)

Definition ARRAY_OPERATOR_ALIASES : list (string * string) :=
  [("array_eq", "eq"); ("array_neq", "neq"); ("array_contains", "contains"); ("array_contained_by", "contained_by");
   ("array_overlaps", "overlaps"); ("array_length_eq", "len_eq"); ("array_length_gt", "len_gt");
   ("array_length_gte", "len_gte"); ("array_length_lt", "len_lt"); ("array_any_eq", "any_eq");
   ("array_all_eq", "all_eq")].

Context (target_class : string → string) (type_hints : string → list (string * hint)).

(** An operator's name: two attributes may come under one, and the later stays. *)
Definition operator_name (name : string) : string :=
  if name =s "in_" then "in" else default name (dict_get name ARRAY_OPERATOR_ALIASES).

Definition filter_operators (attrs : list (string * value)) : list (string * value) :=
  foldl (λ d kv, if is_null kv.2 then d else dict_set (operator_name kv.1) kv.2 d) [] attrs.

(** [_convert_filter_to_dict], where inputs apart. *)
Definition _convert_filter_to_dict (v : value) : list (string * value) :=
  match v with
  | Entries d => d
  | Instance _ attrs => filter_operators attrs
  | _ => []
  end.

(** An object of [safe_create_where_type] before anything is set. *)
Definition empty_where (cls : string) : list (string * value) :=
  map (λ x, (x.1, Entries [])) (type_hints cls) ++ [("OR", Null); ("AND", Null); ("NOT", Null)].

(** [_convert_graphql_input_to_where_type] for a where input. *)
Fixpoint _to_sql_where (v : value) : value :=
  match v with
  | Instance c attrs =>
      let changes := map (λ kv, (kv.1,
        if is_null kv.2 then None
        else if kv.1 in_ ["OR"; "AND"] then
          match kv.2 with
          | Items l =>
              Some (Items (concat (map (λ x, if has_methods x then [_to_sql_where x]
                                            else match x with Entries _ => [x] | _ => [] end) l)))
          | _ => None
          end
        else if kv.1 =s "NOT" then if has_methods kv.2 then Some (_to_sql_where kv.2) else None
        else if has_methods kv.2 then Some (_to_sql_where kv.2)
        else match _convert_filter_to_dict kv.2 with [] => Some Null | d => Some (Entries d) end)) attrs in
      Instance (target_class c +:+ "Where")%stdpp
        (foldl (λ o kv, match kv.2 with Some x => dict_set kv.1 x o | None => o end) (empty_where (target_class c)) changes)
  | _ => Null
  end.
End objects.

(** [_normalize_where] on a where input: a view of no registered type is read as one of the
    class the input was generated for. *)
Definition _normalize_where_input (is_where : string → bool) (target_class : string → string) (fuel : nat) (st : views)
    (fields : string → list string) (classes : string → class_info) (v : value) (view_name : string)
    (table_columns : option (list string)) : result where_clause :=
  w ← normalize_whereinput is_where fuel (resolver_of st fields) v view_name (jsonb_column_of st view_name) table_columns;
  w ← _apply_view_column_mapping st w view_name table_columns;
  let source_type :=
    match dict_get view_name (type_registry st), v with
    | Some t, _ => Some t
    | None, Instance c _ => Some (target_class c)
    | None, _ => None
    end in
  Ok (annotate_temporal_casts classes w source_type).
