(* ===== verification/FindQuery.v ===== *)
(** * The statements of the repository ([db.py])

    [_make_mandatory_conditions], [_consume_mandatory_filters], [_build_where_clause],
    [_build_find_query] with the expressions it groups and aggregates by, and the
    statements of the read helpers.  The catalog ([_view_shape] of a view that is not
    registered) and the types of a registered class are parameters. *)
From stdpp Require Import base decidable strings list.
From Stdlib Require Import ZArith Lia Ascii.
From S2P Require Import Inputs Filters WhereInput.
From S2P Require Import Prelude PyVal Sql Pagination OpBase FieldCondition WhereClause Views Normalize Regex OrderBy OrderText.

Local Open Scope py_scope.

(** ** Filters that always apply *)

Definition filters : Type := list (string * pyval).

(** [pattern.fullmatch(s)] *)
Definition re_fullmatch (r : re) (s : string) : bool :=
  existsb (λ p : pos, null p.2) (ends r ([], String.list_ascii_of_string s)).

Definition _SAFE_COLUMN : re := ignorecase (compile "^[a-z_][a-z0-9_]{0,62}$").

Definition mandatory_part (col : string) : composable := Composed [Identifier col; SQL " = "; SQL "%s"].

Definition _make_mandatory_conditions (fs : filters) : result (list composable * list pyval) :=
  parts ← mapR (λ kv, if re_fullmatch _SAFE_COLUMN kv.1 then Ok (mandatory_part kv.1) else Err ValueError) fs;
  Ok (parts, fs.*2).

(** The request's context: the filters authorization left for each root field, and the
    root field being resolved. *)
Record context := {
  _fraiseql_auth_filters : list (string * filters);
  graphql_field_name : option string
}.

Definition auth_filters (c : context) : filters :=
  match graphql_field_name c with
  | Some f => default [] (dict_get f (_fraiseql_auth_filters c))
  | None => []
  end.

Definition _consume_mandatory_filters (c : context) (explicit : filters) : result filters :=
  match auth_filters c with
  | [] => Ok explicit
  | auth =>
      if existsb (λ k, k in_ dict_keys auth) (dict_keys explicit) then Err GraphQLError
      else Ok (foldl (λ d kv, dict_set kv.1 kv.2 d) explicit auth)
  end.

(** ** The WHERE of a statement *)

(** [where]: absent, a clause built by the caller, a filter (or a value that is none), an
    object, which has [_to_whereinput_dict] or not, and a dataclass without it: what
    [asdict] makes of it, and its [_target_class]. *)
Inductive where_arg :=
| NoWhere
| Tree (w : where_clause)
| Filter (v : pyval)
| Input (v : Inputs.value)
| Dataclass (target_class : option string) (d : list (string * pyval)).

Definition given (w : where_arg) : bool :=
  match w with NoWhere => false | Tree _ | Input _ | Dataclass _ _ => true | Filter v => Py.truthy v end.

(** The registries, the classes they name, which of them are where inputs and for which
    class, the application's settings and the depth of calls the interpreter allows. *)
Record world := {
  registries : views;
  declared : string → list string;
  classes : string → class_info;
  is_where : string → bool;
  target_class : string → string;
  settings : app_env;
  call_depth : nat;
  default_string_collation : option string
}.

(** The fields of a dataclass that are there: not [None], and not an empty dictionary. *)
Definition asked_fields (d : list (string * pyval)) : list (string * pyval) :=
  List.filter (λ kv, match kv.2 with PNone | PDict [] => false | _ => true end) d.

(** [_normalize_where] *)
Definition normalized (e : world) (w : where_arg) (view_name : string) (table_columns : option (list string))
    : result where_clause :=
  match w with
  | Tree w => Ok w
  | Filter v => _normalize_where (call_depth e) (registries e) (declared e) (classes e) v view_name table_columns
  | Input v =>
      _normalize_where_input (is_where e) (target_class e) (call_depth e) (registries e) (declared e) (classes e) v
        view_name table_columns
  | Dataclass target d =>
      match asked_fields d with
      | [] => Err TypeError
      | d =>
          w ← normalize_dict_where (call_depth e) (resolver_of (registries e) (declared e)) view_name
                (jsonb_column_of (registries e) view_name) table_columns (PDict d);
          w ← _apply_view_column_mapping (registries e) w view_name table_columns;
          Ok (annotate_temporal_casts (classes e) w
                (match dict_get view_name (type_registry (registries e)) with Some t => Some t | None => target end))
      end
  | NoWhere => Err TypeError
  end.

(** [unexpected] are keyword arguments the method does not know. *)
Definition _build_where_clause (e : world) (view_name : string) (mandatory : list composable * list pyval)
    (known_columns : option (list string)) (w : where_arg) (unexpected : list string)
    : result (list composable * list pyval) :=
  '(parts, params) ←
    (if given w then
       let table_columns :=
         match known_columns with
         | Some _ => known_columns
         | None => columns <$> dict_get view_name (table_metadata (registries e))
         end in
       clause ← normalized e w view_name table_columns;
       '(sql, params) ← WhereClause.to_sql (settings e) clause;
       Ok match sql with
          | Some sql => (mandatory.1 ++ [sql], mandatory.2 ++ params)
          | None => mandatory
          end
     else Ok mandatory);
  match unexpected with [] => Ok (parts, params) | _ => Err TypeError end.

(** [_where_sql] *)
Definition _where_sql (where_parts : list composable) : composable :=
  match where_parts with
  | [] => SQL EmptyString
  | _ => Composed [SQL " WHERE "; Join " AND " where_parts]
  end.

(** ** Expressions for grouped fields *)

Definition _ALLOWED_AGGREGATION_FUNCS : list string :=
  ["SUM"; "AVG"; "COUNT"; "MIN"; "MAX"; "ARRAY_AGG"; "STRING_AGG"; "BOOL_AND"; "BOOL_OR"; "JSON_AGG"; "JSONB_AGG"].

Definition _NUMERIC_AGGREGATION_FUNCS : list string := ["SUM"; "AVG"].

Definition word (c : ascii) : bool := in_class (Class false word_class) c.

(** [FUNC(field)]; the pattern's groups are a word up to the first parenthesis and what
    is before the last one. *)
Definition _parse_aggregation_expr (expr : string) : result (string * string) :=
  match Str.split1 "(" (Str.strip expr) with
  | Some (func, rest) =>
      let arg := Str.remove_suffix ")" rest in
      if Str.nonempty func && Str.forallb word func && Str.ends_with ")" rest
         && Str.nonempty arg && negb (Str.has_char newline arg) then
        let func := Str.upper func in
        if func in_ _ALLOWED_AGGREGATION_FUNCS then Ok (func, Str.strip arg) else Err ValueError
      else Err ValueError
  | None => Err ValueError
  end.

Definition _build_jsonb_field_expr (field_path jsonb_ref : string) : composable :=
  match Str.split "." field_path with
  | [part] => Format "{}->>{}" [Identifier jsonb_ref; Literal (PStr part)]
  | parts =>
      Format "{}->>{}"
        [foldl (λ expr part, Format "{}->{}" [expr; Literal (PStr part)]) (Identifier jsonb_ref) (removelast parts);
         Literal (PStr (List.last parts EmptyString))]
  end.

Definition _build_non_jsonb_field_expr (field_path table_alias : string) : composable :=
  Format "{}.{}" [Identifier table_alias; Identifier field_path].

(** The tree of a nested object: a branch is a dictionary, a leaf an expression. *)
Inductive json_tree := Leaf (expr : composable) | Node (children : list (string * json_tree)).

Definition children (t : option json_tree) : list (string * json_tree) :=
  match t with Some (Node l) => l | _ => [] end.

(** [node = node[part]] along the path, with an empty branch where there is none. *)
Fixpoint set_path (parts : list string) (expr : composable) (node : list (string * json_tree))
    : list (string * json_tree) :=
  match parts with
  | [] => node
  | [part] => dict_set part (Leaf expr) node
  | part :: parts => dict_set part (Node (set_path parts expr (children (dict_get part node)))) node
  end.

Definition json_tree_of (entries : list (string * composable)) : list (string * json_tree) :=
  foldl (λ tree e, set_path (Str.split "." e.1) e.2 tree) [] entries.

Fixpoint render_value (t : json_tree) : composable :=
  match t with
  | Leaf expr => expr
  | Node l =>
      Format "json_build_object({})"
        [Join EmptyString
           ((fix pairs (first : bool) (l : list (string * json_tree)) : list composable :=
               match l with
               | [] => []
               | (key, v) :: l =>
                   (if first then [] else [SQL ", "])
                     ++ [Literal (PStr key); SQL ", "; render_value v] ++ pairs false l
               end) true l)]
  end.

Definition _build_nested_json_object (entries : list (string * composable)) : composable :=
  render_value (Node (json_tree_of entries)).

(** ** [_build_find_query] *)

Record find_args := {
  where_ : where_arg;
  mandatory_filters : filters;
  limit : option pyval;
  offset : option pyval;
  order : order_arg;
  group_by : list string;
  aggregations : list (string * string);
  native_dimensions : list string;
  native_measures : list (string * string);
  native_dimension_mapping : option (list (string * string));
  unexpected : list string
}.

(** What decides how a field of the grouping is read. *)
Record grouping := {
  jsonb : option string;
  dimensions : list string;
  mapping : list (string * string);
  measures : list (string * string)
}.

Definition native_column (g : grouping) (fp : string) : option string :=
  resolve_native_column fp (dimensions g) (mapping g) (measures g).

Definition build_field (g : grouping) (fp : string) : composable :=
  match native_column g fp with
  | Some column => _build_non_jsonb_field_expr column "t"
  | None =>
      match jsonb g with
      | Some EmptyString => _build_jsonb_field_expr fp "data"
      | Some col => _build_jsonb_field_expr fp col
      | None => _build_non_jsonb_field_expr fp "t"
      end
  end.

Definition aggregate_expr (g : grouping) (expr : string) : result composable :=
  '(func, f) ← _parse_aggregation_expr expr;
  Ok (if f =s "*" then Format ("{}(" +:+ "*" +:+ ")")%stdpp [SQL func]
      else if is_some (jsonb g) && (func in_ _NUMERIC_AGGREGATION_FUNCS) && negb (is_some (native_column g f))
      then Format "{}(({})::{})" [SQL func; build_field g f; SQL "numeric"]
      else Format "{}({})" [SQL func; build_field g f]).

Definition has_native (g : grouping) : bool :=
  negb (bool_decide (dimensions g = [])) || negb (bool_decide (measures g = []))
  || negb (bool_decide (mapping g = [])).

Definition table (view_name : string) (alias : bool) : list composable :=
  qualified_identifier view_name :: (if alias then [SQL " AS t"] else []).

Section find.
Context (float_list_columns : string → list string).

(** [_row_json] *)
Definition _row_json (view_name : string) : composable :=
  match float_list_columns view_name with
  | [] => SQL "row_to_json(t)"
  | columns =>
      Format "(to_jsonb(t) || jsonb_build_object({}))"
        [Join ", "
           (map (λ column,
              FormatKw
                ("{col}, CASE WHEN left(to_jsonb(t) ->> {col}, 1) = '[' AND jsonb_typeof(to_jsonb(t) -> {col})"
                   +:+ " = 'string' THEN (to_jsonb(t) ->> {col})::jsonb ELSE to_jsonb(t) -> {col} END")%stdpp
                [("col", Literal (PStr column))]) columns)]
  end.

(** SELECT and FROM. *)
Definition select_parts (view_name : string) (g : grouping) (group_by : list string)
    (aggregations : list (string * string)) (order_needs_alias : bool) : result (list composable) :=
  match group_by with
  | _ :: _ =>
      aggs ← mapR (λ kv, e ← aggregate_expr g kv.2; Ok (kv.1, e)) aggregations;
      Ok ([SQL "SELECT "; _build_nested_json_object (map (λ fp, (fp, build_field g fp)) group_by ++ aggs);
           SQL "::text FROM "]
            ++ table view_name (negb (is_some (jsonb g)) || has_native g))
  | [] =>
      Ok match jsonb g with
         | None => [SQL "SELECT "; _row_json view_name; SQL "::text FROM "] ++ table view_name true
         | Some col =>
             [SQL "SELECT "; Identifier (if Str.nonempty col then col else "data"); SQL "::text FROM "]
               ++ table view_name order_needs_alias
         end
  end.

Definition where_list (where_parts : list composable) : list composable :=
  match where_parts with [] => [] | _ => [SQL " WHERE "; Join " AND " where_parts] end.

Definition bound_literal (keyword : string) (v : option pyval) : list composable :=
  match v with Some v => [SQL keyword; Literal v] | None => [] end.

Definition order_list (order : order_arg) (order_sql : option composable) : result (list composable) :=
  match order_sql, order with
  | Some sql, _ => Ok [SQL " "; sql]
  | None, Value (PStr s) => sql ← _order_by_string_sql s; Ok [SQL " "; sql]
  | None, _ => Ok []
  end.

Definition grouping_of (e : world) (view_name : string) (jsonb_column : option string) (a : find_args)
    : grouping :=
  {| jsonb := jsonb_column; dimensions := native_dimensions a;
     mapping :=
       match native_dimension_mapping a with
       | Some m => m
       | None => _view_column_mapping (registries e) view_name
       end;
     measures := native_measures a |}.

(** The conditions of the filters that are there, else those passed on. *)
Definition mandatory_conditions (fs : filters) (passed : list composable * list pyval)
    : result (list composable * list pyval) :=
  match fs with [] => Ok passed | _ => _make_mandatory_conditions fs end.

(** [passed] are the [_mandatory_parts] and [_mandatory_params] of a caller. *)
Definition _build_find_query (e : world) (c : context) (view_name : string) (jsonb_column : option string)
    (passed : list composable * list pyval) (a : find_args) : result (composable * list pyval) :=
  fs ← _consume_mandatory_filters c (mandatory_filters a);
  mandatory ← mandatory_conditions fs passed;
  let g := grouping_of e view_name jsonb_column a in
  match aggregations a, group_by a with
  | _ :: _, [] => Err ValueError
  | _, _ =>
      '(where_parts, where_params) ←
        _build_where_clause e view_name mandatory None (where_ a) (unexpected a);
      '(order_sql, order_needs_alias) ←
        _build_order_by_sql (classes e) (call_depth e) (default_string_collation e)
          (type_registry (registries e)) (order a) (default "t" jsonb_column) (dimensions g) (mapping g)
          view_name (negb (is_some jsonb_column));
      select ← select_parts view_name g (group_by a) (aggregations a) order_needs_alias;
      ordering ← order_list (order a) order_sql;
      Ok (Join EmptyString
            (select ++ where_list where_parts
               ++ match group_by a with
                  | [] => []
                  | l => [SQL " GROUP BY "; Join ", " (map (build_field g) l)]
                  end
               ++ ordering ++ bound_literal " LIMIT " (limit a) ++ bound_literal " OFFSET " (offset a)),
          where_params)
  end.

(** The arguments once the filters are taken out of them. *)
Definition without_filters (a : find_args) (limit : option pyval) : find_args :=
  {| where_ := where_ a; mandatory_filters := []; limit := limit;
     offset := offset a; order := order a; group_by := group_by a; aggregations := aggregations a;
     native_dimensions := native_dimensions a; native_measures := native_measures a;
     native_dimension_mapping := native_dimension_mapping a; unexpected := unexpected a |}.

(** The JSONB column a registration gives a view. *)
Definition registered_jsonb (e : world) (view_name : string) : option string :=
  match dict_get view_name (table_metadata (registries e)) with
  | Some m =>
      if has_jsonb_data m
      then Some (match Views.jsonb_column m with Some (String _ _ as j) => j | _ => "data" end)
      else Views.jsonb_column m
  | None => None
  end.

(** The statement of [find_one] ([_build_find_one_query] sets the limit), and of [find]
    where it does not go through the union of [UnionQuery].  Both take the filters out of
    the arguments and pass their conditions on to the builder, which asks for filters
    again. *)
Definition read_query (e : world) (c : context) (view_name : string) (limit : option pyval) (a : find_args)
    : result (composable * list pyval) :=
  fs ← _consume_mandatory_filters c (mandatory_filters a);
  passed ← mandatory_conditions fs ([], []);
  _build_find_query e c view_name (registered_jsonb e view_name) passed (without_filters a limit).

Definition find_one (e : world) (c : context) (view_name : string) (a : find_args)
    : result (composable * list pyval) :=
  read_query e c view_name (Some (PInt 1)) a.
End find.

(** ** The read helpers *)

(** A view's columns, when they are known, and its JSONB column. *)
Record view_shape := { shape_columns : option (list string); shape_jsonb : option string }.

(** What a registration says; the catalog answers for other views. *)
Definition _view_shape (e : world) (catalog : string → view_shape) (view_name : string) : view_shape :=
  match dict_get view_name (table_metadata (registries e)) with
  | Some m =>
      {| shape_columns := match columns m with [] => None | l => Some l end;
         shape_jsonb := registered_jsonb e view_name |}
  | None => catalog view_name
  end.

(** The keyword arguments every helper takes. *)
Record read_args := {
  read_where : where_arg;
  read_filters : filters;
  read_unexpected : list string
}.

Section helpers.
Context (e : world) (c : context) (catalog : string → view_shape) (view_name : string) (a : read_args).

Definition statement : Type := composable * list pyval.

Definition _helper_where : result (list composable * list pyval) :=
  fs ← _consume_mandatory_filters c (read_filters a);
  mandatory ← _make_mandatory_conditions fs;
  let known_columns :=
    if given (read_where a) && negb (dict_has view_name (table_metadata (registries e))) then
      let shape := _view_shape e catalog view_name in
      if is_some (shape_jsonb shape) then shape_columns shape else None
    else None in
  _build_where_clause e view_name mandatory known_columns (read_where a) (read_unexpected a).

(** The SQL of a field, and whether it is read out of the JSONB column. *)
Definition _field_sql (f : string) (numeric : bool) : composable * bool :=
  let shape := _view_shape e catalog view_name in
  let is_column :=
    match shape_jsonb shape with Some j => f =s j | None => false end
    || match shape_columns shape with Some cols => f in_ cols | None => f =s "id" end in
  match shape_jsonb shape with
  | Some j =>
      if is_column then (Composed [Identifier f], false)
      else (Format (if numeric then "({} ->> {})::numeric" else "({} -> {})") [Identifier j; Literal (PStr f)], true)
  | None => (Composed [Identifier f], false)
  end.

Definition from_view (template : string) (field_sql : composable) (where_parts : list composable)
    (tail : list composable) : composable :=
  Composed ([Format template [field_sql; qualified_identifier view_name]; _where_sql where_parts] ++ tail).

Definition _extreme (function f : string) : result statement :=
  let '(field_sql, in_jsonb) := _field_sql f false in
  '(where_parts, params) ← _helper_where;
  Ok (if in_jsonb : bool then
        from_view "SELECT {} FROM {}" field_sql
          (where_parts ++ [Format "jsonb_typeof({}) <> 'null'" [field_sql]])
          [Format " ORDER BY 1 {} LIMIT 1" [SQL (if function =s "MIN" then "ASC" else "DESC")]]
      else
        Composed [Format "SELECT {}({}) FROM {}" [SQL function; field_sql; qualified_identifier view_name];
                  _where_sql where_parts],
      params).

Definition count : result statement :=
  '(where_parts, params) ← _helper_where;
  Ok (Composed ([SQL ("SELECT COUNT(" +:+ "*" +:+ ") FROM ")%stdpp; qualified_identifier view_name]
                  ++ where_list where_parts), params).

Definition exists_ : result statement :=
  '(where_parts, params) ← _helper_where;
  Ok (Composed ([SQL "SELECT EXISTS(SELECT 1 FROM "; qualified_identifier view_name]
                  ++ where_list where_parts ++ [SQL ")"]), params).

Definition total (template f : string) : result statement :=
  let field_sql := (_field_sql f true).1 in
  '(where_parts, params) ← _helper_where;
  Ok (from_view template field_sql where_parts [], params).

Definition sum : string → result statement := total "SELECT COALESCE(SUM({}), 0) FROM {}".
Definition avg : string → result statement := total "SELECT COALESCE(AVG({}), 0) FROM {}".

Definition distinct (f : string) : result statement :=
  let '(field_sql, in_jsonb) := _field_sql f false in
  let field_sql := if in_jsonb : bool then Format "NULLIF({}, 'null'::jsonb)" [field_sql] else field_sql in
  '(where_parts, params) ← _helper_where;
  Ok (from_view "SELECT DISTINCT {} FROM {}" field_sql where_parts [SQL " ORDER BY 1"], params).

Definition pluck (f : string) (limit offset : option pyval) : result statement :=
  let field_sql := (_field_sql f false).1 in
  '(where_parts, params) ← _helper_where;
  Ok (from_view "SELECT {} FROM {}" field_sql where_parts
        (bound_literal " LIMIT " limit ++ bound_literal " OFFSET " offset), params).

(** The expressions are the caller's own SQL; without any there is no statement. *)
Definition aggregate (aggregations : list (string * string)) : result (option statement) :=
  match aggregations with
  | [] => Ok None
  | _ =>
      '(where_parts, params) ← _helper_where;
      Ok (Some (Composed ([SQL "SELECT ";
                           Join ", " (map (λ kv, Format "{} AS {}" [SQL kv.2; Identifier kv.1]) aggregations);
                           SQL " FROM "; qualified_identifier view_name] ++ where_list where_parts), params))
  end.

Definition in_ids (field : string) (n : nat) : list composable :=
  match n with
  | 1 => [Identifier field; SQL " = %s"]
  | _ => [Identifier field; SQL (" IN (" +:+ comma_repeat "%s" n +:+ ")")%stdpp]
  end.

Definition batch_exists (ids : list pyval) (field : string) : result (option statement) :=
  match ids with
  | [] => Ok None
  | _ =>
      fs ← _consume_mandatory_filters c (read_filters a);
      mandatory ← _make_mandatory_conditions fs;
      '(where_parts, params) ←
        _build_where_clause e view_name mandatory None (read_where a) (read_unexpected a);
      Ok (Some (Composed ([SQL "SELECT "; Identifier field; SQL " FROM "; qualified_identifier view_name]
                            ++ match where_parts with
                               | [] => [SQL " WHERE "]
                               | _ => [SQL " WHERE "; Join " AND " where_parts; SQL " AND "]
                               end
                            ++ in_ids field (length ids)),
                params ++ ids))
  end.
End helpers.

Example find_example :
  let e := {| registries := {| type_registry := []; table_metadata := [] |}; declared := λ _, [];
              classes := λ _, {| type_hints := None; bases := [] |};
              is_where := λ _, false; target_class := λ c, c; settings := {| default_entity_schema := None; config_distance_method := None;
                              environ_distance_method := None |};
              call_depth := 100; default_string_collation := None |} in
  let a := {| where_ := NoWhere; mandatory_filters := [("tenant_id", PInt 7)]; limit := Some (PInt 10);
              offset := None; order := Value (PDict [("createdAt", PStr "desc")]); group_by := [];
              aggregations := []; native_dimensions := []; native_measures := [];
              native_dimension_mapping := None; unexpected := [] |} in
  _build_find_query (λ _, []) e {| _fraiseql_auth_filters := []; graphql_field_name := None |} "app.v_user"
    (Some "data") ([], []) a
  = Ok (Join EmptyString
          [SQL "SELECT "; Identifier "data"; SQL "::text FROM "; Join "." [Identifier "app"; Identifier "v_user"];
           SQL " WHERE "; Join " AND " [mandatory_part "tenant_id"]; SQL " ";
           Composed [SQL "ORDER BY "; Join ", "
             [Composed [Composed [SQL "data"; SQL " -> "; Literal (PStr "created_at")]; SQL " "; SQL "DESC"]]];
           SQL " LIMIT "; Literal (PInt 10)],
        [PInt 7]).
Proof. vm_compute. reflexivity. Qed.
