(* ===== verification/UnionQuery.v ===== *)
(** * Grouped reads over a partial period ([db.py])

    [_derive_auto_aggregation], the branches and the sort keys of
    [_build_partial_period_union_query], and [find] with its dispatch: a view that names a
    finer one is read through a union when the filter bounds its period from below. *)
From stdpp Require Import base decidable strings list.
From Stdlib Require Import ZArith Lia Ascii.
From S2P Require Import Prelude PyVal Sql Pagination OpBase Dates PartialPeriod FieldCondition WhereClause Views Normalize Regex.
From S2P Require Import Casing PeriodFilter OrderBy OrderText FindQuery.

Local Open Scope py_scope.

(** ** Grouping by what is selected *)

(** What [_derive_auto_aggregation] returns; [native_dims] is in the order the set is
    walked in. *)
Record derived := {
  derived_group_by : list string;
  derived_aggregations : list (string * string);
  derived_dimensions : list string
}.

Definition measured (func path : string) : string := (func +:+ "(" +:+ path +:+ ")")%stdpp.

(** Paths are not empty. *)
Definition first_name (fp : list string) : string := default EmptyString (head fp).

Definition aggregation_step (a : aggregation) (acc : list string * list (string * string)) (fp : list string)
    : list string * list (string * string) :=
  let dot_path := Str.join "." fp in
  if Nat.eqb (length fp) 1 && (first_name fp in_ Views.native_dimensions a) then acc
  else if first_name fp =s default "dimensions" (dimensions_prefix a) then (acc.1 ++ [dot_path], acc.2)
  else
    match dict_get dot_path (Views.measures a) with
    | Some func => (acc.1, dict_set dot_path (measured func dot_path) acc.2)
    | None =>
        (acc.1,
         foldl (λ d m, if (dot_path =s m.1) || Str.starts_with (dot_path +:+ ".")%stdpp m.1
                       then dict_set m.1 (measured m.2 m.1) d else d) acc.2 (Views.measures a))
    end.

Definition _derive_auto_aggregation (field_paths : list (list string)) (a : aggregation) : option derived :=
  let skip := default ["id"; "tenant_id"] (skip_when a) in
  if existsb (λ fp, Nat.eqb (length fp) 1 && (first_name fp in_ skip)) field_paths then None
  else
    let '(group_by, aggregations) := foldl (aggregation_step a) (Views.native_dimensions a, []) field_paths in
    match group_by with
    | [] => None
    | _ => Some {| derived_group_by := group_by; derived_aggregations := aggregations;
                   derived_dimensions := Views.native_dimensions a |}
    end.

(** The arguments of [find] with the grouping its selection and the metadata derive. *)
Definition grouped_arguments (e : world) (view_name : string) (field_paths : list (list string)) (a : find_args)
    : find_args :=
  match group_by a, field_paths, dict_get view_name (table_metadata (registries e)) ≫= aggregation_of with
  | [], _ :: _, Some agg =>
      match _derive_auto_aggregation field_paths agg with
      | None => a
      | Some d =>
          {| where_ := where_ a; mandatory_filters := mandatory_filters a; limit := limit a; offset := offset a;
             order := order a; group_by := derived_group_by d; aggregations := derived_aggregations d;
             native_dimensions :=
               match derived_dimensions d with [] => FindQuery.native_dimensions a | l => l end;
             native_measures :=
               match Views.native_measures agg with [] => FindQuery.native_measures a | l => l end;
             native_dimension_mapping :=
               match _view_column_mapping (registries e) view_name with
               | [] => FindQuery.native_dimension_mapping a
               | l => Some l
               end;
             unexpected := unexpected a |}
      end
  | _, _, _ => a
  end.

(** ** One branch *)

Definition padded (n : nat) (s : string) : string := (Num.zeros (n - String.length s) +:+ s)%stdpp.

Definition isoformat (d : pydate) : string :=
  (padded 4 (Num.string_of_Z (year d)) +:+ "-" +:+ padded 2 (Num.string_of_Z (month d)) +:+ "-"
     +:+ padded 2 (Num.string_of_Z (day d)))%stdpp.

Definition of_date (d : pydate) : pyval :=
  PDate (isoformat d)
    ("datetime.date(" +:+ Num.string_of_Z (year d) +:+ ", " +:+ Num.string_of_Z (month d) +:+ ", "
       +:+ Num.string_of_Z (day d) +:+ ")")%stdpp.

Example isoformats :
  map isoformat [Date 2024 1 15; Date 987 12 3; Date 9999 12 31] = ["2024-01-15"; "0987-12-03"; "9999-12-31"].
Proof. vm_compute. reflexivity. Qed.

Definition _build_trunc_expr (trunc : string) (column : string) : result composable :=
  if trunc in_ ["day"; "week"; "month"; "quarter"; "year"] then
    Ok (Format "date_trunc({}, t.{})::date" [Literal (PStr trunc); Identifier column])
  else if trunc =s "semester" then
    Ok (FormatKw ("MAKE_DATE(EXTRACT(YEAR FROM t.{col})::int, "
                    +:+ "CASE WHEN EXTRACT(MONTH FROM t.{col}) <= 6 THEN 1 ELSE 7 END, 1)")%stdpp
          [("col", Identifier column)])
  else if trunc =s "half_month" then
    Ok (FormatKw ("CASE WHEN EXTRACT(DAY FROM t.{col}) <= 15 THEN date_trunc('month', t.{col})::date "
                    +:+ "ELSE date_trunc('month', t.{col})::date + 15 END")%stdpp
          [("col", Identifier column)])
  else Err ValueError.

(** The bounds of a branch's interval, and its WHERE. *)
Definition at_least (column : string) (d : pydate) : composable :=
  Format "{} >= {}" [Composed [SQL "t."; Identifier column]; Literal (of_date d)].

Definition before (column : string) (d : pydate) : composable :=
  Format "{} < {}" [Composed [SQL "t."; Identifier column]; Literal (of_date d)].

Definition branch_where (column : string) (interval : pydate * pydate) (extra_where_sql : option composable)
    : list composable :=
  [at_least column interval.1; before column interval.2]
    ++ match extra_where_sql with Some sql => [sql] | None => [] end.

Definition branch_aggregate (g : grouping) (build : string → result composable) (expr : string) : result composable :=
  '(func, f) ← _parse_aggregation_expr expr;
  field_expr ← (if f =s "*" then Ok (SQL "*") else build f);
  Ok (if (func in_ _NUMERIC_AGGREGATION_FUNCS) && negb (is_some (native_column g f))
      then Format "{}(({})::{})" [SQL func; field_expr; SQL "numeric"]
      else Format "{}({})" [SQL func; field_expr]).

(** The arguments every branch shares. *)
Record common := {
  period_column : string;
  branch_grouping : grouping;
  branch_group_by : list string;
  branch_aggregations : list (string * string);
  extra_where : option composable;
  order_keys : list string
}.

Definition _branch_sort_exprs (entries : list (string * composable)) (keys : list string) : result (list composable) :=
  mapR (λ k, match dict_get k (dict_of entries) with Some x => Ok x | None => Err KeyError end) keys.

(** A branch of a view whose fields are built by [build]. *)
Definition branch_query (build : string → result composable) (view_name : string) (c : common)
    (interval : pydate * pydate) : result composable :=
  fields ← mapR (λ fp, x ← build fp; Ok (fp, x)) (branch_group_by c);
  aggs ← mapR (λ kv, x ← branch_aggregate (branch_grouping c) build kv.2; Ok (kv.1, x)) (branch_aggregations c);
  sorts ← _branch_sort_exprs (fields ++ aggs) (order_keys c);
  Ok (Composed
        ([SQL "SELECT "; _build_nested_json_object (fields ++ aggs); SQL "::text"]
           ++ concat (map (λ x, [SQL ", "; x]) sorts)
           ++ [SQL " FROM "; qualified_identifier view_name; SQL " AS t WHERE ";
               Join " AND " (branch_where (period_column c) interval (extra_where c))]
           ++ match fields with [] => [] | _ => [SQL " GROUP BY "; Join ", " fields.*2] end)).

Definition _build_coarse_branch (coarse_view : string) (c : common) (interval : pydate * pydate) : result composable :=
  branch_query (λ fp, Ok (build_field (branch_grouping c) fp)) coarse_view c interval.

(** The period is computed from the finer date. *)
Definition _build_fine_grain_branch (fine_grain_view trunc : string) (c : common) (interval : pydate * pydate)
    : result composable :=
  branch_query
    (λ fp, if fp =s period_column c then _build_trunc_expr trunc (period_column c)
           else Ok (build_field (branch_grouping c) fp)) fine_grain_view c interval.

(** ** The sort keys *)

Fixpoint index_of (x : string) (l : list string) : nat :=
  match l with [] => O | y :: l => if x =s y then O else S (index_of x l) end.

Definition sort_column (i : nat) : string := ("s" +:+ Num.string_of_Z (Z.of_nat i))%stdpp.

Definition union_order_term (i : nat) (instr : order_by) : composable :=
  Composed ([Join "." [Identifier "u"; Identifier (sort_column i)]]
              ++ match collation instr with Some c => [SQL " COLLATE "; Identifier c] | None => [] end
              ++ [SQL " "; _direction_sql instr]).

Definition _union_order_terms (instructions : list order_by) (group_by : list string)
    (aggregations : list (string * string)) : list string * list composable :=
  foldl (λ acc instr,
           if (field instr in_ group_by) || dict_has (field instr) aggregations then
             let keys := if field instr in_ acc.1 then acc.1 else acc.1 ++ [field instr] in
             (keys, acc.2 ++ [union_order_term (index_of (field instr) keys) instr])
           else acc) ([], []) instructions.

(** ** The union *)

(** What the dispatch found: the view and its finer one, the period, the caller's clause and
    its bounds. *)
Record period_read := {
  fine_view : string;
  column : string;
  trunc : string;
  clause : where_clause;
  lower : bound;
  upper : option bound
}.

(** A datetime is no date to compare one with. *)
Definition window (p : period_read) (today : pydate) : result (list (grain * (pydate * pydate))) :=
  match lower p, upper p with
  | OnDate lo, None => union_branches (trunc p) lo None today
  | OnDate lo, Some (OnDate hi) => union_branches (trunc p) lo (Some hi) today
  | _, _ => Err TypeError
  end.

Definition union_branch (view_name : string) (p : period_read) (c : common) (b : grain * (pydate * pydate))
    : result composable :=
  match b.1 with
  | Fine => _build_fine_grain_branch (fine_view p) (trunc p) c b.2
  | Coarse => _build_coarse_branch view_name c b.2
  end.

(** The branches one after the other, in order; sorted on keys of their own they are put in
    a subquery, else on the only column. *)
Definition union_statement (branches : list composable) (keys : list string) (order_terms : list composable)
    : composable :=
  let union_sql := Composed (intersperse (SQL " UNION ALL ") branches) in
  match order_terms with
  | [] => Composed [union_sql; SQL " ORDER BY 1"]
  | _ =>
      Composed [SQL "SELECT "; Join "." [Identifier "u"; Identifier "d"]; SQL " FROM ("; union_sql; SQL ") AS ";
                Identifier "u"; SQL "(";
                Join ", " (Identifier "d" :: map (λ i, Identifier (sort_column i)) (seq 0 (length keys)));
                SQL ") ORDER BY "; Join ", " order_terms]
  end.

(** Every branch takes the parameters of the filter. *)
Definition _build_partial_period_union_query (settings : app_env) (view_name : string) (p : period_read)
    (g : grouping) (group_by : list string) (aggregations : list (string * string))
    (extra : option where_clause) (instructions : list order_by) (today : pydate)
    : result (composable * list pyval) :=
  intervals ← window p today;
  '(extra_sql, extra_params) ←
    match extra with
    | Some w => '(sql, params) ← WhereClause.to_sql settings w; Ok (sql, if is_some sql then params else [])
    | None => Ok (None, [])
    end;
  let '(keys, terms) := _union_order_terms instructions group_by aggregations in
  let c := {| period_column := column p; branch_grouping := g; branch_group_by := group_by;
              branch_aggregations := aggregations; extra_where := extra_sql; order_keys := keys |} in
  branches ← mapR (union_branch view_name p c) intervals;
  Ok (union_statement branches keys terms, concat (map (λ _, extra_params) intervals)).

(** ** The dispatch of [find] *)

Definition nonempty (o : option string) : option string :=
  match o with Some (String _ _ as s) => Some s | _ => None end.

(** A grouped read of a view with a finer one, whose filter bounds the period from below by
    a condition of its own.  An error in here is swallowed: before the lower bound is known
    the plain statement is built, after it the upper bound is taken to be absent. *)
Definition partial_period (e : world) (view_name : string) (a : find_args) : option period_read :=
  match group_by a, where_ a with
  | [], _ | _, NoWhere => None
  | _, w =>
      m ← dict_get view_name (table_metadata (registries e));
      agg ← aggregation_of m;
      fine ← nonempty (fine_grain_view agg);
      column ← nonempty (time_grain_column agg);
      trunc ← nonempty (time_grain_trunc agg);
      match normalized e w view_name (Some (columns m)) with
      | Ok clause =>
          if (match clause with Clause _ op _ _ => op end) =s "AND" then
            match _extract_lower_date_bound clause column with
            | Ok (Some lower) =>
                Some {| fine_view := fine; column := column; trunc := trunc; clause := clause; lower := lower;
                        upper := match _extract_upper_date_bound clause column with Ok u => u | Err _ => None end |}
            | _ => None
            end
          else None
      | Err _ => None
      end
  end.

(** The filters that always apply, as conditions. *)
Definition mandatory_condition (kv : string * pyval) : field_condition :=
  {| field_path := [kv.1]; operator := "eq"; FieldCondition.value := kv.2; lookup_strategy := "sql_column";
     target_column := kv.1; jsonb_path := None; FieldCondition.temporal_cast := None |}.

Section find.
Context (float_list_columns : string → list string) (today : pydate).

Definition union_read (e : world) (view_name : string) (fs : filters) (p : period_read) (a : find_args)
    : result (composable * list pyval) :=
  mandatory ← mapR (λ kv, FieldCondition.__post_init__ (mandatory_condition kv)) fs;
  extra ← _build_extra_where (clause p) (column p) mandatory;
  instructions ← _resolve_order_by_set (classes e) (call_depth e) (default_string_collation e)
                   (type_registry (registries e)) (order a) view_name;
  let g := {| jsonb := Some (default "data" (nonempty (registered_jsonb e view_name)));
              dimensions := FindQuery.native_dimensions a;
              mapping := default [] (FindQuery.native_dimension_mapping a);
              FindQuery.measures := FindQuery.native_measures a |} in
  _build_partial_period_union_query (settings e) view_name p g (group_by a) (aggregations a) extra
    (default [] instructions) today.

(** The statement of [find], the arguments a list field holds back being among [a].  The
    filters are taken out before the dispatch; the union keeps those of the caller and of
    authorization, and takes no limit, no offset and no unknown argument. *)
Definition find (e : world) (c : context) (view_name : string) (field_paths : list (list string)) (a : find_args)
    : result (composable * list pyval) :=
  fs ← _consume_mandatory_filters c (mandatory_filters a);
  passed ← mandatory_conditions fs ([], []);
  let a := grouped_arguments e view_name field_paths a in
  match partial_period e view_name a with
  | Some p => union_read e view_name fs p a
  | None =>
      _build_find_query float_list_columns e c view_name (registered_jsonb e view_name) passed
        (without_filters a (limit a))
  end.
End find.
