(* ===== verification/FindLaws.v ===== *)
(** * Laws of the repository's statements

    The WHERE of every statement is the conjunction of the filters that always apply and
    of what the caller asked for. *)
From stdpp Require Import base decidable strings list sets.
From Stdlib Require Import ZArith Lia Ascii.
From S2P Require Import Prelude PyVal Dates Sql Reading Pagination OpBase FieldCondition Grouping WhereClause Views Normalize Shape OpLaws FieldLaws.
From S2P Require Import NormalizeLaws Meaning ViewLaws OrderBy OrderText FindQuery UnionQuery.

Local Open Scope py_scope.
#[local] Arguments tokens : simpl never.

(** ** What a formula says of its atoms *)

Fixpoint eval (sat : list token → bool) (f : formula) : bool :=
  match f with
  | FAtom ts => sat ts
  | FNot f => negb (eval sat f)
  | FAnd l => forallb (eval sat) l
  | FOr l => existsb (eval sat) l
  end.

Section joins.
Context `{Psycopg}.

(** *** Conditions joined by AND, one of them a clause of its own *)

Lemma intersperse_app {A} (k : A) a b :
  a ≠ [] → b ≠ [] → intersperse k (a ++ b) = intersperse k a ++ k :: intersperse k b.
Proof using Type.
  intros Ha Hb. induction a as [|x a IH]; [done|]. destruct a as [|y a].
  - cbn [app]. destruct b; [done|]. by rewrite intersperse_cons.
  - cbn [app] in *. rewrite !intersperse_cons, IH by done. done.
Qed.

Lemma concat_join_nested (k : list token) a b c :
  b ≠ [] →
  concat (intersperse k (a ++ concat (intersperse k b) :: c)) = concat (intersperse k (a ++ b ++ c)).
Proof using Type.
  intros Hb. assert (∀ c, concat (intersperse k (concat (intersperse k b) :: c)) = concat (intersperse k (b ++ c))) as Hc.
  { intros d. destruct d as [|y d].
    - cbn. by rewrite !app_nil_r.
    - rewrite intersperse_cons, intersperse_app by done. by rewrite concat_app, !concat_cons. }
  destruct a as [|x a]; [apply Hc|].
  rewrite (intersperse_app k (x :: a)), (intersperse_app k (x :: a) (b ++ c)) by (done || by destruct b).
  by rewrite !concat_app, !concat_cons, Hc.
Qed.

Definition joined (parts : list composable) : list token := tokens (Join " AND " parts).

Lemma joined_eq parts : joined parts = concat (intersperse [TAnd] (map tokens parts)).
Proof. unfold joined. by rewrite tokens_Join. Qed.

(** Operands joined by AND hold when each does. *)
Lemma eval_joined sat parts :
  parts ≠ [] → Forall (λ p, operand (tokens p)) parts →
  eval sat (reading (joined parts)) = forallb (λ p, eval sat (reading (tokens p))) parts.
Proof.
  intros Hne Hall. rewrite joined_eq. destruct parts as [|x [|y l]]; [done| |].
  - cbn. by rewrite app_nil_r, andb_true_r.
  - cbn [map]. rewrite reading_and.
    + cbn [eval forallb map]. f_equal. f_equal. clear. induction l as [|z l IH]; [done|]. cbn. by rewrite IH.
    + change (Forall operand (map tokens (x :: y :: l))). by apply Forall_map.
Qed.

Lemma forallb_readings sat l :
  forallb (eval sat) (map (λ p, reading (tokens p)) l) = forallb (λ p, eval sat (reading (tokens p))) l.
Proof. induction l as [|p l IH]; [done|]. cbn [map forallb]. by rewrite IH. Qed.

(** An AND clause is a list of operands with their meanings. *)
Lemma and_parts env w sql ps :
  valid w → root_op w = "AND" → WhereClause.to_sql env w = Ok (Some sql, ps) →
  ∃ parts, parts ≠ [] ∧ Forall (λ p, operand (tokens p)) parts ∧
    (∀ pre post, joined (pre ++ sql :: post) = joined (pre ++ parts ++ post)) ∧
    ∀ sat, eval sat (meaning env w) = forallb (λ p, eval sat (reading (tokens p))) parts.
Proof.
  intros Hv Hop Hw. destruct (meaning_parts _ _ _ Hv Hw) as (parts & Hne & E & Hr). rewrite Hop in E.
  exists parts.*1. split; [by destruct parts|].
  assert (Forall (λ p, operand (tokens p)) parts.*1) as Hops.
  { apply Forall_fmap. eapply Forall2_Forall_l; [exact Hr|]. apply Forall_forall. by intros f _ p [Hp _]. }
  assert (map (λ p, reading (tokens p)) parts.*1 = operands env w) as Hfs.
  { clear -Hr. induction Hr as [|p f ps fs [_ Hf] _ IH]; [done|]. rewrite fmap_cons. cbn [map]. by rewrite IH, Hf. }
  split; [done|]. split.
  - intros pre post. rewrite !joined_eq, !map_app. destruct parts as [|[s1 q1] [|p2 parts]]; [done| |].
    + by injection E as ->.
    + injection E as -> _. cbn [map]. rewrite tokens_Join. by apply concat_join_nested.
  - intros sat. rewrite meaning_connect, Hop.
    assert (eval sat (connect "AND" (operands env w)) = forallb (eval sat) (operands env w)) as ->.
    { destruct (operands env w) as [|f [|g l]]; [done| |done]. cbn. by rewrite andb_true_r. }
    rewrite <- Hfs. apply forallb_readings.
Qed.

(** *** Joined parts, then one more *)

Lemma joined_snoc parts p : parts ≠ [] → joined (parts ++ [p]) = joined parts ++ [TAnd] ++ tokens p.
Proof.
  intros Hne. rewrite !joined_eq, map_app, intersperse_app by (by destruct parts).
  rewrite concat_app, concat_cons. cbn. by rewrite app_nil_r.
Qed.

Lemma tokens_Join_empty l : tokens (Join EmptyString l) = concat (map tokens l).
Proof.
  rewrite tokens_Join. cbn [lex]. generalize (map tokens l) as ts. clear. intros ts.
  induction ts as [|t [|u ts] IH]; [done|done|]. rewrite intersperse_cons, !concat_cons, IH. done.
Qed.

(** *** The filters that always apply *)

Lemma operand_mandatory col : operand (tokens (mandatory_part col)).
Proof.
  unfold mandatory_part. rewrite tokens_Composed. cbn [map concat]. rewrite tokens_Identifier, !tokens_SQL. done.
Qed.

Lemma eval_mandatory sat col : eval sat (reading (tokens (mandatory_part col))) = sat (tokens (mandatory_part col)).
Proof.
  rewrite reading_operand by apply operand_mandatory. unfold mandatory_part.
  rewrite tokens_Composed. cbn [map concat]. by rewrite tokens_Identifier, !tokens_SQL.
Qed.

Lemma mandatory_Ok fs m : _make_mandatory_conditions fs = Ok m → m = (map (λ kv, mandatory_part kv.1) fs, fs.*2).
Proof using Type.
  unfold _make_mandatory_conditions. intros (parts & Hp & [= <-])%bind_Ok. f_equal. apply mapR_Ok in Hp.
  induction Hp as [|kv p fs parts Hkv _ IH]; [done|]. cbn. destruct (re_fullmatch _ _); [|done].
  injection Hkv as <-. by rewrite IH.
Qed.
End joins.

(** What authorization left is added to what the caller passed. *)
Lemma consume_all c fs all :
  NoDup (dict_keys fs) → NoDup (dict_keys (auth_filters c)) →
  _consume_mandatory_filters c fs = Ok all → all = fs ++ auth_filters c.
Proof.
  unfold _consume_mandatory_filters. intros Hf Ha.
  destruct (auth_filters c) as [|a l] eqn:E; [intros [= <-]; by rewrite app_nil_r|].
  rewrite <- E in *. destruct (existsb _ _) eqn:Hex; [done|]. intros [= <-].
  apply dict_set_all. unfold dict_keys in *. rewrite fmap_app. apply NoDup_app. split; [done|]. split; [|done].
  intros k Hk Hk'. apply not_true_iff_false in Hex. apply Hex, existsb_exists. exists k.
  split; [by apply list_elem_of_In|]. by apply str_in_true.
Qed.

(** ** Clauses the repository normalises *)

Lemma map_tree_root f w w' : map_tree f w = Ok w' → root_op w' = root_op w.
Proof.
  destruct w as [cs op nested not]. cbn. intros (? & _ & H)%bind_Ok.
  apply bind_Ok in H as (? & _ & H). apply bind_Ok in H as (? & _ & H). revert H.
  unfold WhereClause.__post_init__. repeat case_match; try done; by intros [= <-].
Qed.

Lemma normalize_root fuel res view jsonb tc w c :
  normalize_dict_where fuel res view jsonb tc w = Ok c → root_op c = "AND".
Proof.
  destruct fuel as [|fuel]; [done|]. cbn [normalize_dict_where]. destruct (negb _); [done|].
  destruct w as [| | | | | | | | | | |items| |]; try done. intros (acc & _ & H)%bind_Ok. revert H.
  unfold WhereClause.__post_init__. repeat case_match; try done; by intros [= <-].
Qed.

Lemma finished_and fuel st fields classes d view j tc cls w w' :
  normalize_dict_where fuel (resolver_of st fields) view j tc d = Ok w →
  _apply_view_column_mapping st w view tc = Ok w' →
  valid (annotate_temporal_casts classes w' cls) ∧ root_op (annotate_temporal_casts classes w' cls) = "AND".
Proof.
  intros Hw Hm. pose proof (normalize_root _ _ _ _ _ _ _ Hw) as Hr.
  apply normalize_resolved in Hw as [Hv _]. pose proof (view_mapping_valid _ _ _ _ _ Hv Hm) as Hv'.
  assert (root_op w' = "AND") as Hr'.
  { revert Hm. unfold _apply_view_column_mapping. cbn zeta. destruct (_view_column_mapping st view); [by intros [= <-]|].
    unfold _apply_column_mapping. intros Hm%map_tree_root. by rewrite Hm. }
  unfold annotate_temporal_casts. destruct cls as [t|]; [|done].
  split; [by apply annotate_valid|]. by destruct w'.
Qed.

(** A filter, an object or a dataclass becomes a clause with AND at its root. *)
Lemma normalized_and e w view tc c :
  (∀ t, w ≠ Tree t) → normalized e w view tc = Ok c → valid c ∧ root_op c = "AND".
Proof.
  intros Ht. destruct w as [|t|v|v|target d]; [done|by destruct (Ht t)|..]; cbn [normalized].
  - unfold _normalize_where. destruct v; try done. intros (w & Hw & H)%bind_Ok.
    apply bind_Ok in H as (w' & Hm & [= <-]). by eapply finished_and.
  - unfold WhereInput._normalize_where_input, WhereInput.normalize_whereinput. destruct (WhereInput.has_methods _ v); [|done].
    intros (w & Hw & H)%bind_Ok. apply bind_Ok in H as (w' & Hm & [= <-]). by eapply finished_and.
  - destruct (asked_fields d) as [|kv l]; [done|]. intros (w & Hw & H)%bind_Ok.
    apply bind_Ok in H as (w' & Hm & [= <-]). by eapply finished_and.
Qed.

(** ** What a statement asks for *)

Definition sound_tree (w : where_arg) : Prop :=
  match w with Tree t => valid t ∧ root_op t = "AND" | _ => True end.

(** The formula of the caller's [where] on a view. *)
Inductive caller_asks `{Psycopg} (e : world) (view : string) (w : where_arg) : formula → Prop :=
| asks_nothing : given w = false → caller_asks e view w (FAnd [])
| asks_clause tc clause : given w = true → normalized e w view tc = Ok clause →
    caller_asks e view w (meaning (settings e) clause).

(** What [find] keeps: the conditions of the caller's filters are passed to the builder,
    which puts those of authorization in their place when there are any. *)
Definition kept_by_find (c : context) (explicit : filters) : filters :=
  match auth_filters c with [] => explicit | auth => auth end.

(** The statements of the repository that read one view: the filters passed, those that are
    kept, the [where], and conditions of the method's own. *)
Inductive reads (e : world) (c : context) (view : string)
    : filters → filters → where_arg → list composable → statement → Prop :=
| reads_find fl today paths a q :
    find fl today e c view paths a = Ok q → partial_period e view (grouped_arguments e view paths a) = None →
    reads e c view (mandatory_filters a) (kept_by_find c (mandatory_filters a)) (where_ a) [] q
| reads_find_one fl a q : find_one fl e c view a = Ok q →
    reads e c view (mandatory_filters a) (kept_by_find c (mandatory_filters a)) (where_ a) [] q
| reads_count cat a q : count e c cat view a = Ok q →
    reads e c view (read_filters a) (read_filters a ++ auth_filters c) (read_where a) [] q
| reads_exists cat a q : exists_ e c cat view a = Ok q →
    reads e c view (read_filters a) (read_filters a ++ auth_filters c) (read_where a) [] q
| reads_sum cat a f q : sum e c cat view a f = Ok q →
    reads e c view (read_filters a) (read_filters a ++ auth_filters c) (read_where a) [] q
| reads_avg cat a f q : avg e c cat view a f = Ok q →
    reads e c view (read_filters a) (read_filters a ++ auth_filters c) (read_where a) [] q
| reads_distinct cat a f q : distinct e c cat view a f = Ok q →
    reads e c view (read_filters a) (read_filters a ++ auth_filters c) (read_where a) [] q
| reads_pluck cat a f l o q : pluck e c cat view a f l o = Ok q →
    reads e c view (read_filters a) (read_filters a ++ auth_filters c) (read_where a) [] q
| reads_aggregate cat a l q : aggregate e c cat view a l = Ok (Some q) →
    reads e c view (read_filters a) (read_filters a ++ auth_filters c) (read_where a) [] q
| reads_extreme cat a function f q : _extreme e c cat view a function f = Ok q →
    reads e c view (read_filters a) (read_filters a ++ auth_filters c) (read_where a)
      (if (_field_sql e cat view f false).2
       then [Format "jsonb_typeof({}) <> 'null'" [(_field_sql e cat view f false).1]] else []) q
| reads_batch a ids f q : batch_exists e c view a ids f = Ok (Some q) →
    reads e c view (read_filters a) (read_filters a ++ auth_filters c) (read_where a)
      [Composed (in_ids f (length ids))] q.

Section where_laws.
Context `{Psycopg} (e : world) (c : context).

(** What [_build_where_clause] adds to the mandatory parts. *)
Lemma where_clause_parts view m known w unexpected parts ps :
  sound_tree w → _build_where_clause e view m known w unexpected = Ok (parts, ps) →
  ∃ f own asked, caller_asks e view w f ∧ parts = m.1 ++ asked ∧ ps = m.2 ++ own ∧ (given w = true → asked ≠ []) ∧
    (Forall (λ p, operand (tokens p)) m.1 → ∀ sat extra, Forall (λ p, operand (tokens p)) extra →
      m.1 ++ asked ++ extra ≠ [] →
      eval sat (reading (joined (m.1 ++ asked ++ extra)))
      = forallb (λ p, eval sat (reading (tokens p))) m.1 && eval sat f
        && forallb (λ p, eval sat (reading (tokens p))) extra).
Proof.
  intros Hw Hb. unfold _build_where_clause in Hb. apply bind_Ok in Hb as ([parts' ps'] & Hb & Hu).
  destruct unexpected; [|done]. injection Hu as -> ->. destruct (given w) eqn:Hg.
  - apply bind_Ok in Hb as (clause & Hc & Hb). apply bind_Ok in Hb as ([o qs] & Hsql & Hb).
    assert (valid clause ∧ root_op clause = "AND") as [Hv Hr].
    { destruct w as [|t|v|v|target d]; [done| |by (eapply normalized_and; [|exact Hc])..]. by injection Hc as <-. }
    destruct (meaning_reading _ _ _ Hv Hsql) as (sql & E & _). cbn in E. subst o.
    destruct (and_parts _ _ _ _ Hv Hr Hsql) as (conj & Hne & Hops & Hj & He).
    injection Hb as <- <-. eexists _, qs, [sql]. split; [by eapply asks_clause|].
    split; [done|]. split; [done|]. split; [done|]. intros Hm sat extra Hx _.
    cbn [app]. rewrite Hj, eval_joined; [by rewrite !List.forallb_app, He, andb_assoc| |].
    + destruct conj; [done|]. by destruct m.1.
    + by repeat apply Forall_app_2.
  - injection Hb as ->. exists (FAnd []), [], []. split; [by apply asks_nothing|]. cbn [fst snd].
    rewrite !app_nil_r. split; [done|]. split; [done|]. split; [done|]. intros Hm sat extra Hx Hne. cbn [app].
    rewrite eval_joined; [|done|by apply Forall_app_2]. by rewrite List.forallb_app, andb_true_r.
Qed.

(** The text of a statement around its WHERE: after it the statement ends or another
    clause begins. An empty set of sort keys leaves a space. *)
Definition where_text : list token := lex " WHERE ".

Definition clause_starts : list string :=
  [" GROUP BY "; " ORDER BY "; " LIMIT "; " OFFSET "; "  LIMIT "; "  OFFSET "; ")"].

Definition after_where (ts : list token) : Prop :=
  ts = [] ∨ ts = lex " " ∨ ∃ k rest, k ∈ clause_starts ∧ ts = lex k ++ rest.

Definition around (q : statement) (parts : list composable) : Prop :=
  parts ≠ [] → ∃ pre post, tokens q.1 = pre ++ where_text ++ joined parts ++ post ∧ after_where post.

Lemma around_list pre parts post ps :
  after_where (concat (map tokens post)) → around (Composed (pre ++ where_list parts ++ post), ps) parts.
Proof.
  intros Hp Hne. destruct parts as [|p parts]; [done|]. cbn [where_list].
  exists (concat (map tokens pre)), (concat (map tokens post)). split; [|done]. cbn [fst].
  rewrite tokens_Composed, !map_app, !concat_app. cbn [map concat]. rewrite tokens_SQL.
  by rewrite !app_nil_r, <- !app_assoc.
Qed.

Lemma around_join pre parts post ps :
  after_where (concat (map tokens post)) → around (Join EmptyString (pre ++ where_list parts ++ post), ps) parts.
Proof.
  intros Hp Hne. destruct (around_list pre parts post ps Hp Hne) as (a & b & E & Hb). exists a, b.
  split; [|done]. rewrite <- E. cbn [fst]. by rewrite tokens_Join_empty, tokens_Composed.
Qed.

Lemma around_view view t f parts tail ps :
  after_where (concat (map tokens tail)) → around (from_view view t f parts tail, ps) parts.
Proof.
  intros Hp Hne. destruct parts as [|p parts]; [done|]. unfold from_view, _where_sql.
  exists (tokens (Format t [f; qualified_identifier view])), (concat (map tokens tail)). split; [|done]. cbn [fst].
  rewrite tokens_Composed. cbn [app map concat]. rewrite (tokens_Composed [SQL " WHERE "; _]). cbn [map concat].
  rewrite tokens_SQL, app_nil_r. by rewrite <- !app_assoc.
Qed.

Lemma after_nothing : after_where [].
Proof using Type. by left. Qed.

Lemma after_clause k rest : k ∈ clause_starts → after_where (lex k ++ rest).
Proof using Type. intros Hk. right. right. by exists k, rest. Qed.

Lemma after_bounds lim off :
  after_where (concat (map tokens (bound_literal " LIMIT " lim ++ bound_literal " OFFSET " off))).
Proof.
  destruct lim, off; cbn [bound_literal app map concat]; rewrite ?tokens_SQL; try apply after_nothing;
    apply after_clause; set_solver.
Qed.

(** What an ORDER BY reads as, if there is one. *)
Definition ordered (sql : composable) : Prop := sql = Composed [] ∨ ∃ l, sql = Composed (SQL "ORDER BY " :: l).

Lemma to_sql_ordered table_ref native mapping l sql : OrderBy.to_sql table_ref native mapping l = Ok sql → ordered sql.
Proof using Type.
  destruct l as [|k l]; [intros [= <-]; by left|]. intros (clauses & _ & [= <-])%bind_Ok. right. by eexists.
Qed.

Lemma build_order_ordered classes depth coll types arg tr native mapping view flat sql al :
  _build_order_by_sql classes depth coll types arg tr native mapping view flat = Ok (Some sql, al) → ordered sql.
Proof using Type.
  unfold _build_order_by_sql. intros ([l|] & _ & Hb)%bind_Ok; [|done].
  apply bind_Ok in Hb as (sql' & Hsql & [= -> _]). by eapply to_sql_ordered.
Qed.

Lemma order_list_ordered order o l :
  (∀ sql, o = Some sql → ordered sql) → order_list order o = Ok l → l = [] ∨ ∃ sql, l = [SQL " "; sql] ∧ ordered sql.
Proof using Type.
  intros Ho. unfold order_list. destruct o as [x|].
  - intros [= <-]. right. eauto.
  - destruct order as [|v]; [intros [= <-]; by left|]. destruct v; try (intros [= <-]; by left).
    intros (x & Hc & [= <-])%bind_Ok. right. exists x. split; [done|]. right.
    unfold _order_by_string_sql in Hc. apply bind_Ok in Hc as (ks & _ & [= <-]). by eexists.
Qed.

Lemma after_order l lim off :
  l = [] ∨ (∃ sql, l = [SQL " "; sql] ∧ ordered sql) →
  after_where (concat (map tokens (l ++ bound_literal " LIMIT " lim ++ bound_literal " OFFSET " off))).
Proof.
  intros [->|(x & -> & [->|[r ->]])]; [apply after_bounds| |].
  - cbn [app map concat]. rewrite tokens_SQL, tokens_Composed. cbn [map concat app].
    destruct lim, off; cbn [bound_literal app map concat]; rewrite ?tokens_SQL;
      [apply (after_clause "  LIMIT ")|apply (after_clause "  LIMIT ")|apply (after_clause "  OFFSET ")|right; by left];
      set_solver.
  - cbn [app map concat]. rewrite tokens_SQL, tokens_Composed. cbn [map concat]. rewrite tokens_SQL, <- app_assoc.
    apply (after_clause " ORDER BY "). set_solver.
Qed.

Lemma after_find g (group_by : list string) l lim off :
  l = [] ∨ (∃ sql, l = [SQL " "; sql] ∧ ordered sql) →
  after_where (concat (map tokens
    (match group_by with [] => [] | gs => [SQL " GROUP BY "; Join ", " (map (build_field g) gs)] end
       ++ l ++ bound_literal " LIMIT " lim ++ bound_literal " OFFSET " off))).
Proof.
  intros Hl. destruct group_by as [|f fs]; [by refine (after_order _ _ _ Hl)|]. clear Hl. cbn [app map concat]. rewrite tokens_SQL.
  apply after_clause. set_solver.
Qed.

(** A helper's WHERE is built from the filters passed and those of the request. *)
Lemma helper_where_inv cat view a parts ps :
  _helper_where e c cat view a = Ok (parts, ps) →
  ∃ all known, _consume_mandatory_filters c (read_filters a) = Ok all ∧
    _build_where_clause e view (map (λ kv, mandatory_part kv.1) all, all.*2) known (read_where a)
      (read_unexpected a) = Ok (parts, ps).
Proof.
  unfold _helper_where. intros (all & Hall & Hb)%bind_Ok. apply bind_Ok in Hb as (m & Hm & Hb).
  apply mandatory_Ok in Hm as ->. by eexists all, _.
Qed.

(** Every statement: the parts of its WHERE, its parameters. *)
Definition read_parts view (kept : filters) w extra q : Prop :=
  ∃ known unexpected parts ps own,
    _build_where_clause e view (map (λ kv, mandatory_part kv.1) kept, kept.*2) known w unexpected = Ok (parts, ps) ∧
    around q (parts ++ extra) ∧ q.2 = ps ++ own.

Lemma conditions_Ok fs passed m :
  mandatory_conditions fs passed = Ok m →
  m = match fs with [] => passed | _ => (map (λ kv, mandatory_part kv.1) fs, fs.*2) end.
Proof using Type. destruct fs; [by intros [= <-]|]. apply mandatory_Ok. Qed.

Lemma build_parts fl view j passed kept a q :
  match _consume_mandatory_filters c (mandatory_filters a) with
  | Ok ((_ :: _) as fs) => fs = kept
  | _ => passed = (map (λ kv, mandatory_part kv.1) kept, kept.*2)
  end →
  _build_find_query fl e c view j passed a = Ok q → read_parts view kept (where_ a) [] q.
Proof.
  intros Hk Hq. unfold _build_find_query in Hq. apply bind_Ok in Hq as (all & Hall & Hq).
  apply bind_Ok in Hq as (m & Hm & Hq). apply conditions_Ok in Hm. rewrite Hall in Hk.
  assert (m = (map (λ kv, mandatory_part kv.1) kept, kept.*2)) as ->
    by (destruct all as [|f all]; rewrite Hm; [exact Hk|change (f :: all = kept) in Hk; by rewrite <- Hk]).
  clear Hm Hk Hall. revert Hq. cbn zeta.
  destruct (aggregations a) as [|ag ags] eqn:Eag, (group_by a) as [|g gs] eqn:Eg; try done;
    intros ([parts ps] & Hb & Hq)%bind_Ok; apply bind_Ok in Hq as ([os al] & Hos & Hq);
    apply bind_Ok in Hq as (sel & _ & Hq); apply bind_Ok in Hq as (ord & Hord & [= <-]);
    eexists None, (unexpected a), parts, ps, []; rewrite !app_nil_r; (split; [done|]);
    (split; [|done]); apply around_join;
    (eapply (after_find (grouping_of e view j a) []) || eapply (after_find _ (g :: gs)));
    (eapply order_list_ordered; [|exact Hord]); intros sql ->; by eapply build_order_ordered.
Qed.

Section methods.
(** The methods on filters whose columns are distinct, as the keys of a dictionary are. *)
Context (explicit : filters) (Hexplicit : NoDup (dict_keys explicit)) (Hauth : NoDup (dict_keys (auth_filters c))).

Lemma built_parts fl view j a a' q :
  mandatory_filters a = explicit → where_ a' = where_ a → mandatory_filters a' = [] →
  (fs ← _consume_mandatory_filters c (mandatory_filters a);
   passed ← mandatory_conditions fs ([], []);
   _build_find_query fl e c view j passed a') = Ok q →
  read_parts view (kept_by_find c explicit) (where_ a) [] q.
Proof using Hexplicit Hauth.
  intros Ea Ew Em Hq. rewrite Ea in Hq. apply bind_Ok in Hq as (all & Hall & Hq).
  apply bind_Ok in Hq as (passed & Hp & Hq). apply conditions_Ok in Hp.
  apply (consume_all _ _ _ Hexplicit Hauth) in Hall as ->.
  rewrite <- Ew. eapply build_parts; [|exact Hq]. rewrite Em.
  unfold kept_by_find. destruct (auth_filters c) as [|kv auth] eqn:E.
  - unfold _consume_mandatory_filters. rewrite E. rewrite app_nil_r in Hp. rewrite Hp. by destruct explicit.
  - assert (_consume_mandatory_filters c [] = Ok (kv :: auth)) as ->; [|done].
    unfold _consume_mandatory_filters. rewrite E. cbn [dict_keys existsb]. cbn [fmap list_fmap existsb].
    f_equal. by apply (dict_set_all []).
Qed.

Lemma query_parts fl view lim a q :
  mandatory_filters a = explicit → read_query fl e c view lim a = Ok q →
  read_parts view (kept_by_find c explicit) (where_ a) [] q.
Proof using Hexplicit Hauth. intros Ea. by apply built_parts. Qed.

Lemma grouped_where e' view paths a : where_ (grouped_arguments e' view paths a) = where_ a.
Proof using Type. unfold grouped_arguments. repeat case_match; done. Qed.

Lemma find_parts fl today view paths a q :
  mandatory_filters a = explicit → find fl today e c view paths a = Ok q →
  partial_period e view (grouped_arguments e view paths a) = None →
  read_parts view (kept_by_find c explicit) (where_ a) [] q.
Proof using Hexplicit Hauth.
  intros Ea Hq Hp. unfold find in Hq. cbv zeta in Hq. rewrite Hp in Hq.
  eapply built_parts; [exact Ea| | |exact Hq]; [apply grouped_where|reflexivity].
Qed.

Lemma helper_read cat view a extra parts ps sql :
  read_filters a = explicit → _helper_where e c cat view a = Ok (parts, ps) → around (sql, ps) (parts ++ extra) →
  read_parts view (explicit ++ auth_filters c) (read_where a) extra (sql, ps).
Proof using Hexplicit Hauth.
  intros Ea (all & known & Hall & Hb)%helper_where_inv Ha. rewrite Ea in Hall.
  apply (consume_all _ _ _ Hexplicit Hauth) in Hall as ->.
  eexists known, _, parts, ps, []. cbn [snd]. rewrite app_nil_r. eauto.
Qed.

Lemma helper_parts cat view a extra q (f : list composable → list pyval → composable) :
  read_filters a = explicit → (∀ parts ps, around (f parts ps, ps) (parts ++ extra)) →
  ('(parts, ps) ← _helper_where e c cat view a; Ok (f parts ps, ps)) = Ok q →
  read_parts view (explicit ++ auth_filters c) (read_where a) extra q.
Proof using Hexplicit Hauth. intros Ea Hf ([parts ps] & Hb & [= <-])%bind_Ok. by eapply helper_read. Qed.

Lemma batch_parts view a ids f q :
  read_filters a = explicit → batch_exists e c view a ids f = Ok (Some q) →
  read_parts view (explicit ++ auth_filters c) (read_where a) [Composed (in_ids f (length ids))] q.
Proof using Hexplicit Hauth.
  intros Ea. unfold batch_exists. rewrite Ea. destruct ids as [|i ids]; [done|]. intros (all & Hall & Hb)%bind_Ok.
  apply (consume_all _ _ _ Hexplicit Hauth) in Hall as ->.
  apply bind_Ok in Hb as (m & Hm & Hb). apply mandatory_Ok in Hm as ->.
  apply bind_Ok in Hb as ([parts ps] & Hb & [= <-]). eexists None, _, parts, ps, (i :: ids).
  split; [done|]. split; [|done]. intros _. cbn [fst].
  exists (concat (map tokens [SQL "SELECT "; Identifier f; SQL " FROM "; qualified_identifier view])), [].
  split; [|apply after_nothing]. rewrite tokens_Composed. destruct parts as [|p parts].
  - rewrite joined_eq. cbn [app map concat intersperse].
    rewrite (tokens_Composed (in_ids _ _)), !tokens_SQL, !app_nil_r. unfold where_text. by rewrite <- !app_assoc.
  - rewrite joined_snoc by done. cbn [app map concat].
    rewrite !tokens_SQL, (tokens_Composed (in_ids _ _)), !app_nil_r. unfold where_text, joined.
    by rewrite <- !app_assoc.
Qed.

Lemma reads_parts view kept w extra q : reads e c view explicit kept w extra q → read_parts view kept w extra q.
Proof using Hexplicit Hauth.
  intros Hr. inversion Hr as [fl today paths a ? Hq Hp Ea|fl a ? Hq Ea|cat a ? Hq Ea|cat a ? Hq Ea|cat a f ? Hq Ea|cat a f ? Hq Ea
    |cat a f ? Hq Ea|cat a f l o ? Hq Ea|cat a l ? Hq Ea|cat a function f ? Hq Ea|a ids f ? Hq Ea]; subst kept w extra q0;
    rewrite ?Ea; [by eapply find_parts|by eapply query_parts| | | | | | | | |by eapply batch_parts].
  - eapply helper_parts; [exact Ea| |exact Hq]. intros parts ps. rewrite app_nil_r.
    rewrite <- (app_nil_r (where_list parts)). apply around_list, after_nothing.
  - eapply helper_parts; [exact Ea| |exact Hq]. intros parts ps. rewrite app_nil_r. apply around_list.
    cbn [map concat]. rewrite tokens_SQL. apply (after_clause ")"). set_solver.
  - eapply helper_parts; [exact Ea| |exact Hq]. intros parts ps. rewrite app_nil_r. apply around_view, after_nothing.
  - eapply helper_parts; [exact Ea| |exact Hq]. intros parts ps. rewrite app_nil_r. apply around_view, after_nothing.
  - unfold distinct in Hq. destruct (_field_sql e cat view f false) as [s j].
    eapply helper_parts; [exact Ea| |exact Hq]. intros parts ps. rewrite app_nil_r. apply around_view.
    cbn [map concat]. rewrite tokens_SQL. apply (after_clause " ORDER BY "). set_solver.
  - eapply helper_parts; [exact Ea| |exact Hq]. intros parts ps. rewrite app_nil_r. apply around_view, after_bounds.
  - unfold aggregate in Hq. destruct l as [|kv l]; [done|].
    apply bind_Ok in Hq as ([parts ps] & Hb & Hq). injection Hq as <-.
    eapply helper_read; [exact Ea|exact Hb|]. rewrite app_nil_r.
    rewrite <- (app_nil_r (where_list parts)). apply (around_list [_; _; _; _]), after_nothing.
  - unfold _extreme in Hq. destruct (_field_sql e cat view f false) as [s j]. cbn [fst snd]. destruct j.
    + eapply helper_parts; [exact Ea| |exact Hq]. intros parts ps. apply around_view. cbn [map concat].
      rewrite tokens_Format. destruct (function =s "MIN");
       (cbn; rewrite !tokens_SQL; apply (after_clause " ORDER BY "); set_solver).
    + eapply helper_parts; [exact Ea| |exact Hq]. intros parts ps Hne. rewrite app_nil_r in *.
      destruct parts as [|p parts]; [done|].
      exists (tokens (Format "SELECT {}({}) FROM {}" [SQL function; s; qualified_identifier view])), [].
      split; [|apply after_nothing]. cbn [fst _where_sql]. rewrite tokens_Composed. cbn [map concat].
      rewrite (tokens_Composed [SQL " WHERE "; _]). cbn [map concat]. by rewrite tokens_SQL, !app_nil_r.
Qed.
End methods.

(** The method's own condition is one operand. *)
Lemma operand_in_ids f n : operand (tokens (Composed (in_ids f n))).
Proof.
  rewrite tokens_Composed. unfold in_ids.
  assert (operand (lex (" " +:+ "IN" +:+ " (" +:+ comma_repeat "%s" n +:+ ")")%stdpp)) as Ho
    by (apply operand_in_list; [by left|done]).
  destruct n as [|[|n]]; cbn [map concat]; rewrite tokens_Identifier, tokens_SQL, app_nil_r; [exact Ho|done|exact Ho].
Qed.

Lemma operand_not_null cat view f :
  (_field_sql e cat view f false).2 = true →
  operand (tokens (Format "jsonb_typeof({}) <> 'null'" [(_field_sql e cat view f false).1])).
Proof.
  unfold _field_sql. destruct (shape_jsonb _) as [j|]; [|done]. destruct (_ || _); [done|]. intros _. cbn [fst].
  rewrite !tokens_Format. cbn. rewrite ?tokens_Format. cbn. by rewrite tokens_Identifier, tokens_Literal.
Qed.

Lemma reads_extra view fs kept w extra q :
  reads e c view fs kept w extra q → Forall (λ p, operand (tokens p)) extra.
Proof using Type.
  destruct 1 as [| | | | | | | | |cat a function f q Hq|a ids f q Hq]; try apply List.Forall_nil.
  - destruct (_field_sql e cat view f false).2 eqn:E; [|apply List.Forall_nil].
    constructor; [by apply operand_not_null|apply List.Forall_nil].
  - constructor; [apply operand_in_ids|apply List.Forall_nil].
Qed.

Lemma mandatory_operands (all : filters) :
  Forall (λ p, operand (tokens p)) (map (λ kv, mandatory_part kv.1) all).
Proof. apply Forall_map, Forall_forall. intros kv _. apply operand_mandatory. Qed.

Lemma mandatory_eval sat (all : filters) :
  forallb (λ p, eval sat (reading (tokens p))) (map (λ kv, mandatory_part kv.1) all)
  = forallb (λ kv, sat (tokens (mandatory_part kv.1))) all.
Proof. induction all as [|kv all IH]; [done|]. cbn [map forallb]. by rewrite IH, eval_mandatory. Qed.

(** The reading of a statement's WHERE. *)
Lemma reads_where view explicit kept w extra q :
  reads e c view explicit kept w extra q → sound_tree w →
  NoDup (dict_keys explicit) → NoDup (dict_keys (auth_filters c)) →
  ∃ f own, caller_asks e view w f ∧ q.2 = kept.*2 ++ own ∧
    (kept ≠ [] ∨ given w = true ∨ extra ≠ [] →
     ∃ pre cond post, tokens q.1 = pre ++ where_text ++ cond ++ post ∧ after_where post ∧
       ∀ sat, eval sat (reading cond)
              = forallb (λ kv, sat (tokens (mandatory_part kv.1))) kept && eval sat f
                && forallb (λ p, eval sat (reading (tokens p))) extra).
Proof using Type.
  intros Hr Hw Hf Ha. pose proof (reads_extra _ _ _ _ _ _ Hr) as Hx.
  apply reads_parts in Hr as (known & un & parts & ps & own & Hb & Hq & Hp); [|done..].
  apply (where_clause_parts _ _ _ _ _ _ _ Hw) in Hb as (f & mine & asked & Hasks & -> & -> & Hg & He).
  cbn [fst snd] in *. exists f, (mine ++ own). split; [done|]. split; [by rewrite Hp, app_assoc|]. intros Hne.
  assert (map (λ kv, mandatory_part kv.1) kept ++ asked ++ extra ≠ []) as Hne'.
  { destruct Hne as [Hne|[Hne|Hne]].
    - by destruct kept.
    - specialize (Hg Hne). destruct asked; [done|]. by destruct (map _ _).
    - destruct extra; [done|]. by destruct (map _ _), asked. }
  rewrite <- app_assoc in Hq. destruct (Hq Hne') as (pre & post & E & Hpost). eexists pre, _, post.
  split; [exact E|]. split; [done|]. intros sat.
  rewrite (He (mandatory_operands _) sat extra Hx Hne'). by rewrite mandatory_eval.
Qed.
End where_laws.


(** ** A request, and the conditions it keeps *)

Definition shop : world :=
  {| registries := registration.1; declared := λ _, []; classes := λ _, {| type_hints := Some []; bases := [] |};
     is_where := λ _, false; target_class := λ c, c; settings := example_env; call_depth := 20; default_string_collation := None |}.

(** Authorization left the tenant for the field being resolved. *)
Definition tenant_request : context :=
  {| _fraiseql_auth_filters := [("allocations", [("tenant_id", PUUID "t")])];
     graphql_field_name := Some "allocations" |}.


(** [find] asks for the filters twice: the second time, in the builder, those of the
    caller are no longer among the arguments, and the conditions of authorization replace
    the ones that held both.  The same call without authorization keeps the status. *)
Example find_drops_the_callers_filters :
  let a := {| where_ := NoWhere; mandatory_filters := [("status", PStr "active")]; limit := None; offset := None;
              order := Value PNone; group_by := []; aggregations := []; native_dimensions := [];
              native_measures := []; native_dimension_mapping := None; unexpected := [] |} in
  let statement col := Join EmptyString
    [SQL "SELECT "; Identifier "data"; SQL "::text FROM "; qualified_identifier "tv_allocation";
     SQL " WHERE "; Join " AND " [mandatory_part col]] in
  find (λ _, []) (Date 2024 6 20) shop tenant_request "tv_allocation" [] a = Ok (statement "tenant_id", [PUUID "t"]) ∧
  find (λ _, []) (Date 2024 6 20) shop {| _fraiseql_auth_filters := []; graphql_field_name := Some "allocations" |}
    "tv_allocation" [] a
  = Ok (statement "status", [PStr "active"]).
Proof. split; vm_compute; reflexivity. Qed.

(** A clause with OR at its root is put beside the filters without parentheses: AND binds
    tighter, and a row of another tenant with the second status is counted. *)
Definition status_is (v : string) : where_clause :=
  Clause [{| field_path := ["status"]; operator := "eq"; FieldCondition.value := PStr v; lookup_strategy := "sql_column";
             target_column := "status"; jsonb_path := None; FieldCondition.temporal_cast := None |}] "AND" [] None.

Definition either_status : where_clause := Clause [] "OR" [status_is "active"; status_is "closed"] None.

Definition is_tenant (t : token) : bool :=
  match t with TName n => bool_decide (n = "tenant_id") | _ => false end.

(** A row of another tenant: a condition on the tenant fails, every other holds. *)
Definition of_another_tenant (atom : list token) : bool := negb (existsb is_tenant atom).

Example an_or_at_the_root_drops_the_filters :
  ∃ q pre cond, count shop tenant_request (λ _, {| shape_columns := None; shape_jsonb := None |}) "tv_allocation"
                  {| read_where := Tree either_status; read_filters := []; read_unexpected := [] |} = Ok q ∧
    @tokens psycopg_ref q.1 = pre ++ where_text ++ cond ∧
    of_another_tenant (@tokens psycopg_ref (mandatory_part "tenant_id")) = false ∧
    eval of_another_tenant (reading cond) = true.
Proof.
  eexists _, (lex ("SELECT COUNT(" +:+ "*" +:+ ") FROM ")%stdpp ++ [TName "tv_allocation"]), _.
  split; [vm_compute; reflexivity|]. split; [vm_compute; reflexivity|]. split; vm_compute; reflexivity.
Qed.
