(* ===== verification/UnionLaws.v ===== *)
(** * Laws of the reads over a partial period

    Every branch of the union is filtered by its interval, by the filters that always
    apply and by the rest of what the caller asked for; a statement of one view and a union
    are read alike, as texts whose every WHERE is known. *)
From stdpp Require Import base decidable strings list sets.
From Stdlib Require Import ZArith Lia Ascii.
From S2P Require Import Prelude PyVal Dates PartialPeriod Sql Reading Pagination OpBase FieldCondition WhereClause Views Normalize.
From S2P Require Import NormalizeLaws Meaning PeriodFilter ViewLaws OrderBy FindQuery UnionQuery FindLaws.

Local Open Scope py_scope.
#[local] Arguments tokens : simpl never.

(** ** The filter of the branches *)

(** The clause without the conditions on the period, which the branches hold as bounds. *)
Definition without_period (column : string) (w : where_clause) : where_clause :=
  match w with
  | Clause cs op nested not => Clause (List.filter (λ c, negb (target_column c =s column)) cs) op nested not
  end.

Section laws.
Context `{Psycopg} (e : world) (c : context).

Lemma mandatory_sql env kv : FieldCondition.to_sql env (mandatory_condition kv) = Ok (mandatory_part kv.1, [kv.2]).
Proof using Type. reflexivity. Qed.

Lemma conditions_init (fs : filters) ms :
  mapR (λ kv, FieldCondition.__post_init__ (mandatory_condition kv)) fs = Ok ms → ms = map mandatory_condition fs.
Proof using Type.
  intros Hm%mapR_Ok. induction Hm as [|kv m fs ms Hkv _ IH]; [done|]. cbn [map]. f_equal; [|done].
  by apply NormalizeLaws.init_id in Hkv.
Qed.

(** The filters' values come first among the parameters of a clause they are in front of. *)
Lemma mandatory_params env (fs : filters) rest op nested not sql ps :
  WhereClause.to_sql env (Clause (map mandatory_condition fs ++ rest) op nested not) = Ok (sql, ps) →
  ∃ own, ps = fs.*2 ++ own.
Proof using Type.
  intros (cs & ns & n & Hcs & _ & _ & Hr)%to_sql_inv. apply Forall2_app_inv_l in Hcs as (ms & others & Hms & _ & ->).
  assert (ms = map (λ kv, (mandatory_part kv.1, [kv.2])) fs) as ->.
  { clear -Hms. revert ms Hms. induction fs as [|kv fs IH]; intros ms Hms; inversion Hms as [|? m ? ms' Hm Hms']; [done|]; subst.
    rewrite mandatory_sql in Hm. injection Hm as <-. cbn [map]. f_equal. by apply IH. }
  apply (f_equal snd) in Hr. rewrite combine_params in Hr. cbn [snd] in Hr. rewrite Hr, <- app_assoc, fmap_app, concat_app.
  eexists. f_equal. clear. induction fs as [|kv fs IH]; [done|]. cbn [map]. rewrite !fmap_cons. cbn [concat snd app]. by rewrite IH.
Qed.

(** What the rest of the caller's clause says. *)
Definition says_of (w : where_clause) (sat : list token → bool) : bool := forallb (eval sat) (operands (settings e) w).

Lemma mandatory_says env sat (fs : filters) :
  forallb (eval sat) (map (condition_formula env) (map mandatory_condition fs))
  = forallb (λ kv, sat (tokens (mandatory_part kv.1))) fs.
Proof using Type.
  induction fs as [|kv fs IH]; [done|]. cbn [map forallb]. rewrite IH. f_equal.
  unfold condition_formula. rewrite mandatory_sql. apply eval_mandatory.
Qed.

Lemma extra_cases (fs : filters) cs column nested not extra :
  _build_extra_where (Clause cs "AND" nested not) column (map mandatory_condition fs) = Ok extra →
  let rest := List.filter (λ c, negb (target_column c =s column)) cs in
  extra = None ∧ fs = [] ∧ rest = [] ∧ nested = [] ∧ not = None ∨
  let x := Clause (map mandatory_condition fs ++ rest) "AND" nested not in
  extra = Some x ∧ WhereClause.__post_init__ x = Ok x.
Proof using Type.
  intros Hx rest. unfold _build_extra_where in Hx. fold rest in Hx.
  destruct fs as [|kv fs], rest as [|r rs], nested as [|n ns], not as [o|]; cbn [map app] in Hx |- *;
    try (left; injection Hx as <-; done);
    right; apply fmap_Ok in Hx as (x & Hx & <-); apply NormalizeLaws.clause_init_id in Hx as E; by rewrite E in *.
Qed.

(** What a rendered clause of the branches adds to their WHERE. *)
Lemma extra_filter w column (fs : filters) ms extra sql ps :
  valid w → root_op w = "AND" →
  mapR (λ kv, FieldCondition.__post_init__ (mandatory_condition kv)) fs = Ok ms →
  _build_extra_where w column ms = Ok extra →
  match extra with
  | Some x => '(sql, params) ← WhereClause.to_sql (settings e) x; Ok (sql, if is_some sql then params else [])
  | None => Ok (None, [])
  end = Ok (sql, ps) →
  ∃ conj own, ps = fs.*2 ++ own ∧ Forall (λ p, operand (tokens p)) conj ∧
    (∀ pre, joined (pre ++ match sql with Some s => [s] | None => [] end) = joined (pre ++ conj)) ∧
    ∀ sat, forallb (λ p, eval sat (reading (tokens p))) conj
           = forallb (λ kv, sat (tokens (mandatory_part kv.1))) fs && says_of (without_period column w) sat.
Proof using Type.
  intros Hv Hop Hms%conditions_init Hx Hsql. destruct w as [cs op nested not]. cbn [root_op] in Hop. subst op ms.
  apply extra_cases in Hx. cbn zeta in Hx. destruct Hx as [(-> & -> & Hrest & -> & ->)|[-> Hinit]].
  - injection Hsql as <- <-. exists [], []. split; [done|]. split; [apply List.Forall_nil|]. split; [done|].
    intros sat. unfold says_of, without_period. by rewrite Hrest.
  - apply bind_Ok in Hsql as ([o qs] & Hsql & E).
    assert (valid (Clause (map mandatory_condition fs ++ List.filter (λ c, negb (target_column c =s column)) cs) "AND" nested not))
      as Hvx by (inversion Hv; by constructor).
    destruct (meaning_reading _ _ _ Hvx Hsql) as (s & Es & _). cbn [fst] in Es. subst o. injection E as <- <-.
    destruct (and_parts _ _ _ _ Hvx eq_refl Hsql) as (conj & _ & Hops & Hj & He).
    destruct (mandatory_params _ _ _ _ _ _ _ _ Hsql) as (own & ->).
    exists conj, own. split; [done|]. split; [done|]. split.
    { intros pre. specialize (Hj pre []). by rewrite app_nil_r in Hj. }
    intros sat. rewrite <- He, meaning_connect. unfold says_of, without_period. cbn [root_op operands].
    rewrite map_app, <- app_assoc, <- (mandatory_says (settings e)), <- List.forallb_app. generalize (map (condition_formula (settings e)) (map mandatory_condition fs)).
    intros l. generalize (l ++ map (condition_formula (settings e)) (List.filter (λ c, negb (target_column c =s column)) cs)
      ++ map (meaning (settings e)) nested ++ match not with Some c => [FNot (meaning (settings e) c)] | None => [] end).
    clear. intros l. destruct l as [|f [|g l]]; [done| |done]. cbn. by rewrite andb_true_r.
Qed.

(** ** A branch *)

Lemma operand_bound column d : operand (tokens (at_least column d)) ∧ operand (tokens (before column d)).
Proof using Type.
  unfold at_least, before. rewrite !tokens_Format. cbn. rewrite ?tokens_Format. cbn.
  rewrite ?tokens_Composed. cbn [map concat]. by rewrite !tokens_SQL, !tokens_Identifier, !tokens_Literal.
Qed.
Lemma eval_bounds sat column d :
  eval sat (reading (tokens (at_least column d))) = sat (tokens (at_least column d)) ∧
  eval sat (reading (tokens (before column d))) = sat (tokens (before column d)).
Proof using Type.
  destruct (operand_bound column d) as [H1 H2]. rewrite !reading_operand by done. unfold at_least, before.
  rewrite !tokens_Format. cbn. rewrite ?tokens_Format. cbn. rewrite ?tokens_Composed. cbn [map concat].
  by rewrite !tokens_SQL, !tokens_Identifier, !tokens_Literal.
Qed.

(** The text of a branch: the view it reads, its WHERE, and what comes after. *)
Definition branch_text (view_name : string) (cond text : list token) : Prop :=
  ∃ select after, after_where after ∧
    text = select ++ (lex " FROM " ++ tokens (qualified_identifier view_name) ++ lex " AS t") ++ where_text ++ cond ++ after.

Lemma branch_text_where view_name cond text :
  branch_text view_name cond text → ∃ select after, text = select ++ where_text ++ cond ++ after ∧ after_where after.
Proof using Type.
  intros (sel & af & Haf & ->). set (from := lex " FROM " ++ _). exists (sel ++ from), af. by rewrite app_assoc.
Qed.

Lemma branch_query_text build view_name k interval q :
  branch_query build view_name k interval = Ok q →
  branch_text view_name (joined (branch_where (period_column k) interval (extra_where k))) (tokens q).
Proof using Type.
  unfold branch_query. intros (fields & _ & H1)%bind_Ok. apply bind_Ok in H1 as (aggs & _ & H1).
  apply bind_Ok in H1 as (sorts & _ & H1).
  apply (f_equal (λ r, match r with Ok x => tokens x | Err _ => [] end)) in H1. cbv beta iota in H1. rewrite <- H1.
  rewrite tokens_Composed, !map_app, !concat_app.
  exists (concat (map tokens [SQL "SELECT "; _build_nested_json_object (fields ++ aggs); SQL "::text"])
            ++ concat (map tokens (concat (map (λ x, [SQL ", "; x]) sorts)))),
    (concat (map tokens match fields with [] => [] | _ => [SQL " GROUP BY "; Join ", " fields.*2] end)).
  split.
  - destruct fields; [apply after_nothing|]. cbn [map concat]. rewrite tokens_SQL. apply (after_clause " GROUP BY "). set_solver.
  - rewrite <- !app_assoc. do 2 f_equal. cbn [map concat]. rewrite !tokens_SQL.
    change (lex " AS t WHERE ") with (lex " AS t" ++ where_text). rewrite app_nil_r, <- !app_assoc. done.
Qed.

(** ** The statement *)

Definition union_text : list token := lex " UNION ALL ".

Lemma concat_joined (k : composable) l :
  concat (map tokens (intersperse k l)) = concat (intersperse (tokens k) (map tokens l)).
Proof using Type.
  induction l as [|x [|y l] IH]; [done|done|]. cbn [map] in *. rewrite !intersperse_cons. cbn [map concat]. by rewrite IH.
Qed.

Lemma union_statement_text branches keys terms :
  ∃ pre post, tokens (union_statement branches keys terms)
              = pre ++ concat (intersperse union_text (map tokens branches)) ++ post.
Proof using Type.
  assert (tokens (Composed (intersperse (SQL " UNION ALL ") branches)) = concat (intersperse union_text (map tokens branches))) as E.
  { by rewrite tokens_Composed, concat_joined, tokens_SQL. }
  unfold union_statement. destruct terms as [|t terms]; rewrite tokens_Composed; cbn [map concat]; rewrite E.
  - by exists [], (tokens (SQL " ORDER BY 1") ++ []).
  - exists (tokens (SQL "SELECT ") ++ tokens (Join "." [Identifier "u"; Identifier "d"]) ++ tokens (SQL " FROM (")).
    eexists. by rewrite <- !app_assoc.
Qed.

(** The view a branch reads. *)
Definition view_of (view_name : string) (p : period_read) (g : grain) : string :=
  match g with Fine => fine_view p | Coarse => view_name end.

Lemma union_branch_text view_name p k b q :
  union_branch view_name p k b = Ok q →
  branch_text (view_of view_name p b.1) (joined (branch_where (period_column k) b.2 (extra_where k))) (tokens q).
Proof using Type. unfold union_branch, view_of. destruct b.1; apply branch_query_text. Qed.

(** ** Where a read is a union *)

Lemma partial_period_inv view_name a p :
  partial_period e view_name a = Some p →
  (∃ tc, normalized e (where_ a) view_name tc = Ok (clause p)) ∧ root_op (clause p) = "AND" ∧ where_ a ≠ NoWhere ∧
  _extract_lower_date_bound (clause p) (column p) = Ok (Some (lower p)) ∧
  upper p = match _extract_upper_date_bound (clause p) (column p) with Ok u => u | Err _ => None end.
Proof using Type.
  unfold partial_period. intros Hp. destruct (group_by a); [done|]. destruct (where_ a) as [|t|v|v|target d] eqn:Ew; [done|..];
    apply bind_Some in Hp as (m & _ & Hp); apply bind_Some in Hp as (agg & _ & Hp); apply bind_Some in Hp as (fine & _ & Hp);
    apply bind_Some in Hp as (column & _ & Hp); apply bind_Some in Hp as (trunc & _ & Hp);
    (destruct (normalized _ _ _ _) as [w|] eqn:En; [|done]);
    (destruct w as [cs op nested not]; destruct (op =s "AND") eqn:Eop; [|done]);
    (destruct (_extract_lower_date_bound _ _) as [[b|]|] eqn:El; [|done..]); injection Hp as <-;
    (split; [by exists (Some (columns m))|]); (split; [by apply bool_decide_eq_true in Eop|]);
    cbn [clause UnionQuery.column lower upper]; by rewrite El.
Qed.

Lemma partial_period_valid view_name a p :
  sound_tree (where_ a) → partial_period e view_name a = Some p → valid (clause p) ∧ root_op (clause p) = "AND".
Proof using Type.
  intros Hs ((tc & Hn) & Hop & Hw & _)%partial_period_inv. split; [|done]. destruct (where_ a) as [|t|v|v|target d] eqn:E; [done|..].
  - injection Hn as <-. by destruct Hs.
  - eapply normalized_and; [|exact Hn]. done.
  - eapply normalized_and; [|exact Hn]. done.
  - eapply normalized_and; [|exact Hn]. done.
Qed.

(** What the WHERE of a branch says, on an interval. *)
Definition branch_says (p : period_read) (kept : filters) (interval : pydate * pydate) (cond : list token) : Prop :=
  ∀ sat, eval sat (reading cond)
         = sat (tokens (at_least (column p) interval.1)) && sat (tokens (before (column p) interval.2))
           && forallb (λ kv, sat (tokens (mandatory_part kv.1))) kept && says_of (without_period (column p) (clause p)) sat.

(** A statement that is the union of branches, one for each interval. *)
Definition union_of_branches (view_name : string) (p : period_read) (kept : filters) (own : list pyval)
    (bs : list (grain * (pydate * pydate))) (q : statement) : Prop :=
  q.2 = concat (map (λ _, kept.*2 ++ own) bs) ∧
  ∃ pre post texts, tokens q.1 = pre ++ concat (intersperse union_text texts) ++ post ∧
    Forall2 (λ b text, ∃ cond, branch_text (view_of view_name p b.1) cond text ∧ branch_says p kept b.2 cond) bs texts.

Lemma union_read_branches today view_name (fs : filters) p a q :
  valid (clause p) → root_op (clause p) = "AND" →
  union_read today e view_name fs p a = Ok q →
  ∃ bs own, window p today = Ok bs ∧ union_of_branches view_name p fs own bs q.
Proof using Type.
  intros Hv Hop Hq. unfold union_read in Hq. apply bind_Ok in Hq as (ms & Hms & Hq). apply bind_Ok in Hq as (extra & Hx & Hq).
  apply bind_Ok in Hq as (ins & _ & Hq). cbv zeta in Hq. unfold _build_partial_period_union_query in Hq.
  apply bind_Ok in Hq as (bs & Hbs & Hq). apply bind_Ok in Hq as ([sql ps] & Hsql & Hq).
  destruct (extra_filter _ _ _ _ _ _ _ Hv Hop Hms Hx Hsql) as (conj & own & -> & Hops & Hj & He).
  destruct (_union_order_terms _ _ _) as [keys terms]. apply bind_Ok in Hq as (branches & Hbr & [= <-]).
  exists bs, own. split; [done|]. split; [done|]. cbn [fst].
  destruct (union_statement_text branches keys terms) as (pre & post & E). exists pre, post, (map tokens branches).
  split; [exact E|]. apply mapR_Ok in Hbr. clear E Hbs. induction Hbr as [|b x bs branches Hb _ IH]; [constructor|].
  constructor; [|exact IH]. apply union_branch_text in Hb. cbn [period_column extra_where] in Hb. eexists. split; [exact Hb|].
  intros sat. unfold branch_where. rewrite Hj, eval_joined; [|by destruct conj|].
  - rewrite List.forallb_app, He. cbn [forallb app]. destruct (eval_bounds sat (column p) b.2.1) as [-> _].
    destruct (eval_bounds sat (column p) b.2.2) as [_ ->]. by rewrite andb_true_r, !andb_assoc.
  - destruct (operand_bound (column p) b.2.1) as [H1 _], (operand_bound (column p) b.2.2) as [_ H2]. by repeat constructor.
Qed.

(** The branches of [find] where it is a union: the filters of the caller and those of
    authorization are kept. *)
Lemma union_keeps fl today view paths a p q :
  sound_tree (where_ a) → NoDup (dict_keys (mandatory_filters a)) → NoDup (dict_keys (auth_filters c)) →
  find fl today e c view paths a = Ok q → partial_period e view (grouped_arguments e view paths a) = Some p →
  ∃ bs own, window p today = Ok bs ∧ union_of_branches view p (mandatory_filters a ++ auth_filters c) own bs q.
Proof using Type.
  intros Hs Hk Ha Hq Hp. unfold find in Hq. cbv zeta in Hq. rewrite Hp in Hq.
  apply bind_Ok in Hq as (fs & Hfs & Hq). apply bind_Ok in Hq as (passed & _ & Hq).
  apply (consume_all _ _ _ Hk Ha) in Hfs as ->.
  destruct (partial_period_valid view (grouped_arguments e view paths a) p) as [Hv Hop]; [by rewrite grouped_where|done|].
  by eapply union_read_branches.
Qed.

(** ** A read of one view or of a union *)

(** A statement each of whose conditions after a WHERE is known. *)
Inductive filtered (ts : list token) : list (list token) → Prop :=
| filtered_view pre cond post : ts = pre ++ where_text ++ cond ++ post → after_where post → filtered ts [cond]
| filtered_union pre texts conds post :
    ts = pre ++ concat (intersperse union_text texts) ++ post →
    Forall2 (λ text cond, ∃ select after, text = select ++ where_text ++ cond ++ after ∧ after_where after) texts conds →
    filtered ts conds.

(** Every way the repository reads rows. *)
Inductive reads_rows (view : string) (explicit : filters) (q : statement) : Prop :=
| reads_view kept w extra : sound_tree w → reads e c view explicit kept w extra q → reads_rows view explicit q
| reads_union fl today paths a p :
    sound_tree (where_ a) → mandatory_filters a = explicit →
    find fl today e c view paths a = Ok q → partial_period e view (grouped_arguments e view paths a) = Some p →
    reads_rows view explicit q.

(** The filters of authorization are among those a statement of one view keeps. *)
Lemma reads_keep_auth view explicit kept w extra q :
  reads e c view explicit kept w extra q → auth_filters c ≠ [] → ∃ a, kept = a ++ auth_filters c.
Proof using Type.
  destruct 1; intros Ha; try (by eexists); unfold kept_by_find; (destruct (auth_filters c); [done|]); by exists [].
Qed.

Lemma window_nonempty p today bs : window p today = Ok bs → bs ≠ [].
Proof using Type.
  unfold window, union_branches. intros Hw.
  assert (∃ k, bs = branches k) as [k ->].
  { destruct (lower p), (upper p) as [[u|]|]; try done; apply fmap_Ok in Hw as (k & _ & <-); by exists k. }
  unfold branches. by destruct (_ ++ _).
Qed.

(** Whatever is read, every condition after a WHERE keeps the filters of authorization. *)
Lemma rows_keep_auth view explicit q :
  reads_rows view explicit q → auth_filters c ≠ [] →
  NoDup (dict_keys explicit) → NoDup (dict_keys (auth_filters c)) →
  ∃ conds a b, conds ≠ [] ∧ filtered (tokens q.1) conds ∧
    q.2 = concat (map (λ _, a ++ (auth_filters c).*2 ++ b) conds) ∧
    Forall (λ cond, ∀ sat, eval sat (reading cond) = true →
      ∀ col v, (col, v) ∈ auth_filters c → sat (tokens (mandatory_part col)) = true) conds.
Proof using Type.
  intros Hq Hne Hk Ha. destruct Hq as [kept w extra Hs Hq|fl today paths a p Hs Ea Hq Hp].
  - destruct (reads_keep_auth _ _ _ _ _ _ Hq Hne) as [a Hkept].
    destruct (reads_where _ _ _ _ _ _ _ _ Hq Hs Hk Ha) as (g & own & _ & Hps & Hwhere).
    destruct Hwhere as (pre & cond & post & E & Hpost & He). { left. rewrite Hkept. destruct a; [exact Hne|done]. }
    exists [cond], a.*2, own. split; [done|]. split; [by eapply filtered_view|].
    split. { cbn [map concat]. by rewrite Hps, Hkept, fmap_app, <- app_assoc, app_nil_r. }
    constructor; [|apply List.Forall_nil]. intros sat Hsat col v Hin. rewrite He, !andb_true_iff in Hsat.
    destruct Hsat as [[Hall _] _]. rewrite forallb_forall in Hall. apply (Hall (col, v)), list_elem_of_In. rewrite Hkept. apply elem_of_app. by right.
  - subst explicit. destruct (union_keeps fl today view paths a p q Hs Hk Ha Hq Hp) as (bs & own & Hb & Hps & pre & post & texts & E & Hall).
    apply window_nonempty in Hb.
    assert (∃ conds, length conds = length bs ∧
      Forall2 (λ text cond, ∃ select after, text = select ++ where_text ++ cond ++ after ∧ after_where after) texts conds ∧
      Forall (λ cond, ∃ interval, branch_says p (mandatory_filters a ++ auth_filters c) interval cond) conds)
      as (conds & Hlen & Htexts & Hsays).
    { clear -Hall. induction Hall as [|b text bs texts (cond & Ht' & Hsays) _ (conds & Hl & Ht & Hs)].
      - exists []. split; [done|]. split; [constructor|apply List.Forall_nil].
      - exists (cond :: conds). split; [cbn; by rewrite Hl|]. split; [|constructor; [by eexists|done]]. constructor; [|done].
        by eapply branch_text_where. }
    exists conds, (mandatory_filters a).*2, own. split; [by destruct conds, bs|].
    split; [by eapply filtered_union|]. split.
    + rewrite Hps, fmap_app, <- app_assoc. clear -Hlen. revert conds Hlen.
      induction bs as [|b bs IH]; intros [|k conds] Hl; try done. cbn [map concat]. f_equal. apply IH. by injection Hl.
    + eapply Forall_impl; [exact Hsays|]. intros cond (i & He) sat Hsat col v Hin. rewrite He, !andb_true_iff in Hsat.
      destruct Hsat as [[_ Hf] _]. rewrite forallb_forall in Hf. apply (Hf (col, v)), list_elem_of_In, elem_of_app. by right.
Qed.

(** ** The rows of a union *)

(** The truth of a bound for a row of day [r]. *)
Definition compares (r : pydate) (k : field_condition) : bool :=
  match as_bound (FieldCondition.value k) with
  | Ok (Some (OnDate d)) =>
      if operator k =s "gte" then negb (date_ltb r d)
      else if operator k =s "gt" then date_ltb d r
      else if operator k =s "lte" then negb (date_ltb d r)
      else if operator k =s "lt" then date_ltb r d else false
  | _ => false
  end.

(** Conditions on the period: at most a lower and an upper bound, each a date, and the day
    after the upper one is a date. *)
Definition bounds_period (column : string) (w : where_clause) : Prop :=
  match w with
  | Clause cs _ _ _ =>
      Forall (λ k, on column k = true → (is_lower k = true ∨ is_upper k = true) ∧ dated k) cs ∧
      (length (List.filter (λ k, on column k && is_lower k) cs) ≤ 1)%nat ∧
      (length (List.filter (λ k, on column k && is_upper k) cs) ≤ 1)%nat
  end ∧ ∃ u, _extract_upper_date_bound w column = Ok u.

(** A row of day [r]: the bounds of the branches and those of the clause compare its day. *)
Definition row_of_day (column : string) (w : where_clause) (bs : list (grain * (pydate * pydate))) (r : pydate)
    (sat : list token → bool) : Prop :=
  Forall (λ b, sat (tokens (at_least column b.2.1)) = negb (date_ltb r b.2.1) ∧
               sat (tokens (before column b.2.2)) = date_ltb r b.2.2) bs ∧
  match w with
  | Clause cs _ _ _ =>
      Forall (λ k, on column k = true → eval sat (condition_formula (settings e) k) = compares r k) cs
  end.

Lemma first_bound_dated same next column cs b :
  Forall (λ k, on column k = true → dated k) cs → first_bound same next column cs = Ok (Some b) →
  ∃ d, b = OnDate d ∧ valid_date d = true.
Proof using Type.
  induction 1 as [|k cs Hk _ IH]; [done|]. cbn [first_bound]. unfold on in Hk.
  destruct (target_column k =s column) eqn:Ec; cbn [negb]; [|exact IH].
  destruct (operator k in_ [same; next]); cbn [negb]; [|exact IH].
  destruct (Hk eq_refl) as (d & Hd & ->). cbn [mbind result_bind]. destruct (operator k =s next).
  - intros (d' & Hd' & [= <-])%bind_Ok. exists d'. split; [done|]. by apply add_days_spec in Hd' as [? _].
  - intros [= <-]. by exists d.
Qed.

(** The bounds that were taken out hold of a row when the conditions do. *)
Lemma bounds_say column cs nested not lower upper bs r sat :
  let w := Clause cs "AND" nested not in
  valid_date r = true → bounds_period column w → row_of_day column w bs r sat →
  _extract_lower_date_bound w column = Ok lower → _extract_upper_date_bound w column = Ok upper →
  above lower r && below upper r && says_of (without_period column w) sat = says_of w sat.
Proof using Type.
  cbn zeta. intros Hr [(Hcs & Hl & Hu) _] [_ Hsat] Hlower Hupper.
  assert (reads_dates column r (compares r)) as Hd.
  { intros k d _ E. unfold compares. rewrite E. by repeat (destruct (_ =s _); [done|]). }
  assert (Forall (λ k, on column k = true → dated k) cs) as Hdated.
  { eapply Forall_impl; [exact Hcs|]. intros k Hk Hon. by destruct (Hk Hon). }
  assert (above lower r = forallb (compares r) (List.filter (λ k, on column k && is_lower k) cs)) as ->.
  { apply (one_kind column r (compares r) is_lower above "gte" "gt"); try done. intros k b. by apply lower_bound_holds. }
  assert (below upper r = forallb (compares r) (List.filter (λ k, on column k && is_upper k) cs)) as ->.
  { apply (one_kind column r (compares r) is_upper below "lt" "lte"); try done. intros k b. by apply upper_bound_holds. }
  rewrite <- forallb_kinds.
  2:{ eapply Forall_impl; [exact Hcs|]. intros k Hk Hon. by destruct (Hk Hon). }
  unfold says_of, without_period. cbn [operands]. rewrite !List.forallb_app, andb_assoc. f_equal.
  rewrite !(forallb_map (condition_formula (settings e))).
  rewrite (forallb_split (eval sat ∘ condition_formula (settings e)) (on column) cs). f_equal.
  clear -Hsat. induction Hsat as [|k cs Hk _ IH]; [done|]. cbn [List.filter]. destruct (on column k) eqn:E; [|done].
  cbn [forallb]. rewrite IH. f_equal. unfold compose. by rewrite Hk.
Qed.

Lemma ltb_min r u v :
  valid_date r = true → valid_date u = true → valid_date v = true →
  date_ltb r (date_min u v) = date_ltb r u && date_ltb r v.
Proof using Type.
  intros Hr Hu Hv. destruct (key_min u v Hu Hv) as [Hm Ek].
  apply eq_true_iff_eq. rewrite andb_true_iff, !ltb_key by done. lia.
Qed.

(** The days of a window are covered once. *)
Lemma window_covers p today bs u r :
  is_trunc (trunc p) = true → valid_date today = true → valid_date r = true →
  bounds_period (column p) (clause p) → root_op (clause p) = "AND" →
  _extract_lower_date_bound (clause p) (column p) = Ok (Some (lower p)) →
  _extract_upper_date_bound (clause p) (column p) = Ok u → upper p = u →
  window p today = Ok bs →
  covering r bs = if above (Some (lower p)) r && below (upper p) r && negb (date_ltb today r) then 1%nat else 0%nat.
Proof using Type.
  intros Ht Htoday Hr Hb Hop Hl Hu Eu Hw. destruct (clause p) as [cs op nested not]. cbn [root_op] in Hop. subst op.
  destruct Hb as [(Hcs & _ & _) _].
  assert (Forall (λ k, on (column p) k = true → dated k) cs) as Hd.
  { eapply Forall_impl; [exact Hcs|]. intros k Hk Hon. by destruct (Hk Hon). }
  apply (first_bound_dated _ _ _ _ _ Hd) in Hl as (lo & Elo & Hlo).
  assert (∃ up, window p today = union_branches (trunc p) lo up today ∧ (∀ d, up = Some d → valid_date d = true) ∧
                (∀ x, below (upper p) x = match up with Some d => date_ltb x d | None => true end)) as (up & Ew & Hvup & Hbelow).
  { subst u. unfold window. rewrite Elo. destruct (upper p) as [b|]; [|by exists None].
    apply (first_bound_dated _ _ _ _ _ Hd) in Hu as (d & -> & Hvd). exists (Some d). split; [done|]. split; [by intros ? [= <-]|done]. }
  rewrite Ew in Hw. apply fmap_Ok in Hw as (k & Hk & <-).
  destruct (cut_points_cover _ _ _ _ _ Ht Hlo Htoday Hvup Hk) as (tomorrow & hi & Htm & Hhi & Hcover).
  rewrite Hcover by done. apply add_days_spec in Htm as Hv; [|done]. destruct Hv as [Hvt _].
  assert (PartialPeriod.inside r (lo, hi) = above (Some (lower p)) r && below (upper p) r && negb (date_ltb today r)) as ->; [|done].
  rewrite <- (next_ltb today tomorrow r) by done. rewrite Elo, Hbelow, <- andb_assoc. unfold PartialPeriod.inside, above. cbn [fst snd].
  f_equal. subst hi. destruct up as [d|]; [by rewrite ltb_min by auto|done].
Qed.

(** How many branches let a row through. *)
Lemma count_branches (p : period_read) kept r sat bs conds :
  Forall (λ b, sat (tokens (at_least (column p) b.2.1)) = negb (date_ltb r b.2.1) ∧
               sat (tokens (before (column p) b.2.2)) = date_ltb r b.2.2) bs →
  Forall2 (λ (b : grain * (pydate * pydate)) (k : grain * list token), branch_says p kept b.2 k.2) bs conds →
  length (List.filter (λ k, eval sat (reading k.2)) conds)
  = if forallb (λ kv, sat (tokens (mandatory_part kv.1))) kept && says_of (without_period (column p) (clause p)) sat
    then covering r bs else 0%nat.
Proof using Type.
  intros Hday Hall. unfold covering. set (rest := _ && says_of _ _).
  assert (Forall2 (λ (b : grain * (pydate * pydate)) (k : grain * list token), eval sat (reading k.2) = PartialPeriod.inside r b.2 && rest) bs conds) as Hin.
  { induction Hall as [|b k bs conds Hk _ IH]; [constructor|]. apply Forall_cons_1 in Hday as [[H1 H2] Hday].
    constructor; [|by apply IH]. rewrite Hk, H1, H2. unfold rest, PartialPeriod.inside. by rewrite !andb_assoc. }
  clear Hall Hday. induction Hin as [|b k bs conds Hk _ IH]; [by destruct rest|]. cbn [List.filter]. rewrite Hk.
  destruct rest; [|by rewrite andb_false_r]. rewrite andb_true_r. destruct (PartialPeriod.inside r b.2); cbn [length]; by rewrite IH.
Qed.

Lemma says_meaning w sat : root_op w = "AND" → says_of w sat = eval sat (meaning (settings e) w).
Proof using Type.
  intros Hop. rewrite meaning_connect, Hop. unfold says_of. destruct (operands _ w) as [|f [|g l]]; [done| |done].
  cbn. by rewrite andb_true_r.
Qed.
End laws.

(** C6. A grouped read over a partial period answers what was asked, whichever branch has the
    row.  Where [find] reads a view that names a finer one through a union, every branch of
    its text reads one of the two views and has a WHERE of its own.  For a clause whose
    conditions on the period are at most a lower and an upper bound that are dates (the view's
    truncation being one of those that registration accepts), a row of a day is let through
    (with PostgreSQL's precedence of NOT, AND and OR) by exactly one branch if its day is not
    after today and it satisfies every filter of the caller and of authorization and the whole
    of the caller's [where], and by none otherwise.  Each branch takes the values of those
    filters first among its parameters. *)
Theorem union_answers_what_is_asked `{Psycopg} fl today e c view paths a p q :
  find fl today e c view paths a = Ok q → partial_period e view (grouped_arguments e view paths a) = Some p →
  sound_tree (where_ a) → NoDup (dict_keys (mandatory_filters a)) → NoDup (dict_keys (auth_filters c)) →
  is_trunc (trunc p) = true → valid_date today = true → bounds_period (column p) (clause p) →
  let kept := mandatory_filters a ++ auth_filters c in
  ∃ tc bs own pre post branches texts,
    normalized e (where_ a) view tc = Ok (clause p) ∧ window p today = Ok bs ∧
    q.2 = concat (map (λ _, kept.*2 ++ own) branches) ∧
    tokens q.1 = pre ++ concat (intersperse (lex " UNION ALL ") texts) ++ post ∧
    Forall2 (λ b text, branch_text (view_of view p b.1) b.2 text) branches texts ∧
    ∀ sat r, valid_date r = true → row_of_day e (column p) (clause p) bs r sat →
      length (List.filter (λ b, eval sat (reading b.2)) branches)
      = if negb (date_ltb today r) && forallb (λ kv, sat (tokens (mandatory_part kv.1))) kept
           && eval sat (meaning (settings e) (clause p))
        then 1 else 0.
Proof.
  intros Hq Hp Hs Hk Ha Ht Htoday Hb kept.
  destruct (union_keeps e c fl today view paths a p q Hs Hk Ha Hq Hp) as (bs & own & Hbs & Hps & pre & post & texts & E & Hall).
  destruct (partial_period_inv e view _ p Hp) as ((tc & Hn) & Hop & _ & Hl & Hup). rewrite grouped_where in Hn.
  assert (∃ branches, length branches = length bs ∧
    Forall2 (λ b text, branch_text (view_of view p b.1) b.2 text) branches texts ∧
    Forall2 (λ (b : grain * (pydate * pydate)) (k : grain * list token), branch_says e p kept b.2 k.2) bs branches)
    as (branches & Hlen & Htexts & Hsays).
  { clear -Hall. induction Hall as [|b text bs texts (cond & Ht & Hc) _ (l & Hlen & H1 & H2)].
    - exists []. by repeat constructor.
    - exists ((b.1, cond) :: l). split; [cbn; by rewrite Hlen|]. by split; constructor. }
  exists tc, bs, own, pre, post, branches, texts. split; [done|]. split; [done|]. split.
  { rewrite Hps. clear -Hlen. revert bs Hlen. induction branches as [|k l IH]; intros [|b bs] Hl; try done.
    cbn [map concat]. f_equal. apply IH. by injection Hl. }
  split; [done|]. split; [done|]. intros sat r Hr Hrow. rewrite (count_branches e p kept r sat bs branches); [|by destruct Hrow|done].
  destruct (proj2 Hb) as (u & Hu). rewrite Hu in Hup. rewrite (window_covers p today bs u r) by done.
  rewrite <- says_meaning by done. destruct (clause p) as [cs op nested not] eqn:Ec. cbn [root_op] in Hop. subst op.
  rewrite <- (bounds_say e (column p) cs nested not (Some (lower p)) u bs r sat) by done.
  rewrite Hup. destruct (above _ r), (below _ r), (negb _), (forallb _ _), (says_of _ _ _); reflexivity.
Qed.

(** ** Monthly sales *)

Definition sales : world :=
  {| registries :=
       (register_type_for_view {| type_registry := []; table_metadata := [] |} "v_sales_month" "Sales"
          (Some ["date"; "region"; "tenant_id"; "data"]) (Some true) (Some "data") [] true
          (Some {| fine_grain_view := Some "v_sales_day"; time_grain_column := Some "date";
                   time_grain_trunc := Some "month"; dimensions_prefix := None; skip_when := None;
                   Views.measures := [("amount", "SUM")]; Views.native_measures := [];
                   Views.native_dimension_mapping := []; Views.native_dimensions := ["date"] |}) []).1;
     declared := λ _, []; classes := λ _, {| type_hints := Some []; bases := [] |};
     is_where := λ _, false; target_class := λ c, c;
     settings := example_env; call_depth := 20; default_string_collation := None |}.

(** Sales since the middle of January, by month, read in April. *)
Definition sales_read (bounds : list (string * pyval)) (limit : option pyval) : find_args :=
  {| where_ := Filter (PDict [("date", PDict bounds); ("region", PDict [("eq", PStr "north")])]);
     mandatory_filters := [("status", PStr "final")]; FindQuery.limit := limit; offset := None;
     order := Value PNone; group_by := []; aggregations := []; FindQuery.native_dimensions := [];
     FindQuery.native_measures := []; FindQuery.native_dimension_mapping := None; unexpected := [] |}.

Definition since_january : find_args := sales_read [("gte", of_date (Date 2024 1 15))] None.

Definition sales_paths : list (list string) := [["date"]; ["amount"]].

Definition read_in_april (a : find_args) : result (composable * list pyval) :=
  find (λ _, []) (Date 2024 4 10) sales tenant_request "v_sales_month" sales_paths a.

Definition april_period : period_read :=
  {| fine_view := "v_sales_day"; column := "date"; trunc := "month";
     clause := Clause [on_column "date" "gte" (of_date (Date 2024 1 15)); on_column "region" "eq" (PStr "north")] "AND" [] None;
     lower := OnDate (Date 2024 1 15); upper := None |}.

Definition april_branches : list (grain * (pydate * pydate)) :=
  [(Fine, (Date 2024 1 15, Date 2024 2 1)); (Coarse, (Date 2024 2 1, Date 2024 4 1)); (Fine, (Date 2024 4 1, Date 2024 4 11))].

Lemma union_answers_what_is_asked_witness :
  ∃ q branches, read_in_april since_january = Ok q ∧ window april_period (Date 2024 4 10) = Ok april_branches ∧
    ∀ sat r, valid_date r = true →
      @row_of_day psycopg_ref sales (column april_period) (clause april_period) april_branches r sat →
      length (List.filter (λ b : grain * list token, eval sat (reading b.2)) branches)
      = if negb (date_ltb (Date 2024 4 10) r)
           && forallb (λ kv, sat (@tokens psycopg_ref (mandatory_part kv.1))) [("status", PStr "final"); ("tenant_id", PUUID "t")]
           && eval sat (@meaning psycopg_ref (settings sales) (clause april_period))
        then 1 else 0.
Proof.
  assert (∃ q, read_in_april since_january = Ok q) as [q Hq] by (eexists; vm_compute; reflexivity).
  edestruct (@union_answers_what_is_asked psycopg_ref (λ _, []) (Date 2024 4 10) sales tenant_request "v_sales_month"
    sales_paths since_january april_period q) as (tc & bs & own & pre & post & branches & texts & _ & Hbs & _ & _ & _ & Hrows).
  - exact Hq.
  - vm_compute. reflexivity.
  - exact I.
  - apply NoDup_singleton.
  - apply NoDup_singleton.
  - reflexivity.
  - reflexivity.
  - split; [|eexists; vm_compute; reflexivity]. split; [|split; vm_compute; lia].
    constructor; [|constructor; [discriminate|constructor]]. intros _. split; [left; reflexivity|].
    exists (Date 2024 1 15). split; vm_compute; reflexivity.
  - assert (window april_period (Date 2024 4 10) = Ok april_branches) as E by (vm_compute; reflexivity).
    rewrite E in Hbs. injection Hbs as <-. exists q, branches. split; [exact Hq|]. split; [exact E|]. exact Hrows.
Defined.

(** A sale of March in the north, final and of the tenant: what is true of it. *)
Definition spelled (ts : list token) : string :=
  Str.join EmptyString
    (map (λ t, match t with TChar k => String k EmptyString | TName n => n | TValue v => Py.str v | _ => "?" end) ts).

Definition march_sale (ts : list token) : bool :=
  spelled ts in_ ["t.date >= 2024-01-15"; "t.date >= 2024-02-01"; "t.date < 2024-04-01"; "t.date < 2024-04-11";
                  "date >= %s"; "region = %s"; "status = %s"; "tenant_id = %s"].

Example march_sale_is_a_row :
  @row_of_day psycopg_ref sales "date" (clause april_period) april_branches (Date 2024 3 10) march_sale ∧
  eval march_sale (@meaning psycopg_ref (settings sales) (clause april_period)) = true.
Proof.
  split; [split|vm_compute; reflexivity].
  - repeat (constructor; [split; vm_compute; reflexivity|]). constructor.
  - constructor; [intros _; vm_compute; reflexivity|]. constructor; [discriminate|constructor].
Qed.

(** The union takes no limit; and an error while the upper bound is read, as for a timestamp's
    text, leaves the union without an upper bound, though the condition is taken out. *)
Example what_a_union_drops :
  read_in_april (sales_read [("gte", of_date (Date 2024 1 15))] (Some (PInt 3))) = read_in_april since_january ∧
  read_in_april (sales_read [("gte", of_date (Date 2024 1 15)); ("lt", PStr "2024-02-01T00:00:00")] None)
  = read_in_april since_january ∧
  read_in_april (sales_read [("gte", of_date (Date 2024 1 15)); ("lt", PStr "2024-02-01")] None) ≠ read_in_april since_january.
Proof. split; [|split]; vm_compute; [reflexivity..|discriminate]. Qed.
