(* ===== verification/OrderLaws.v ===== *)
(** * Laws of sort keys

    The texts of an ORDER BY are the program's own whatever the caller sends, a list of
    quoted names reads back as it was written, and an ORDER BY that names the alias [t]
    comes with a FROM that declares it. *)
From stdpp Require Import base decidable strings list sets.
From Stdlib Require Import ZArith Lia Ascii.
From S2P Require Import Prelude PyVal Sql FieldCondition Casing Views Normalize Regex OrderBy OrderText.
From S2P Require Import WhereClause FindQuery.

Local Open Scope py_scope.

(** ** Texts *)

Definition directions : list string := ["ASC"; "DESC"].

(** The texts of a key: [table_ref] is the JSONB column, or the alias of the table. *)
Definition key_texts (table_ref : string) : list string :=
  [table_ref; (table_ref +:+ " -> ")%stdpp; " -> "; " ->> "; "({})"; "({})::{} "; "{}.{}"; " COLLATE "; " ";
   "timestamptz"; "date"; "ltree"; "point"; "t."; "("; ")"; ") "; ", "; "::bit({})"; "::vector";
   "<=>"; "<->"; "<+>"; "<#>"; "<~>"; "jaccard_distance"] ++ directions.

Definition order_texts (table_ref : string) : list string :=
  ["ORDER BY "; "."; " ASC"; " DESC"; " NULLS FIRST"; " NULLS LAST"] ++ key_texts table_ref.

(** A direction of the enumeration: every conversion gives one. *)
Definition typed_direction (k : order_by) : Prop := ∃ d, direction k = inl d.

Definition typed_arg (a : order_arg) : Prop :=
  match a with OrderBySet l => Forall typed_direction l | Value _ => True end.

Section conversions.
Context (classes : string → class_info) (global_collation source_type : option string).

Lemma key_typed f d v c : typed_direction (key f d v c).
Proof using Type. by exists d. Qed.

Lemma concat_typed {A} (f : A → result (list order_by)) l ks :
  (∀ x k, x ∈ l → f x = Ok k → Forall typed_direction k) → mapR f l = Ok ks → Forall typed_direction (concat ks).
Proof using Type.
  intros Hf Hm. apply mapR_Ok in Hm. induction Hm as [|x k l ks Hx Hm IH]; [constructor|]. cbn.
  apply Forall_app. split; [by eapply Hf; [left|]|]. apply IH. intros y k' Hy. apply Hf. by right.
Qed.

Lemma vector_typed v path : Forall typed_direction (_append_vector_order_by v path).
Proof using Type.
  unfold _append_vector_order_by. destruct (first_operand _ _) as [[op o]|]; repeat constructor. apply key_typed.
Qed.

Definition one_key (v : pyval) (path : string) (c : option string) : result (list order_by) :=
  d ← _normalize_order_direction v; Ok [key path d PNone c].

Lemma one_key_typed v path c l : one_key v path c = Ok l → Forall typed_direction l.
Proof using Type. intros (d & _ & [= <-])%bind_Ok. repeat constructor. apply key_typed. Qed.

Lemma leaf_typed (b : bool) v path c l :
  (if _is_vector_order_by v then Ok (_append_vector_order_by v path)
   else if b then one_key v path c else Ok []) = Ok l → Forall typed_direction l.
Proof using Type.
  destruct (_is_vector_order_by v); [intros [= <-]; apply vector_typed|].
  destruct b; [apply one_key_typed|]. intros [= <-]. constructor.
Qed.

Lemma collect_typed v prefix name path l :
  _collect_value classes global_collation source_type prefix name path v = Ok l → Forall typed_direction l.
Proof using Type.
  revert prefix name path l.
  induction v as [| | | | | | | | |l1 IH1|l2 IH2|d IH| |] using pyval_ind'; intros prefix name path l; cbn [_collect_value];
    (destruct (Str.nonempty prefix && _); [intros [= <-]; repeat constructor; apply key_typed|]);
    try (apply (leaf_typed true)); try (apply (leaf_typed false _ _ None)).
  - intros [= <-]. constructor.
  - revert l. induction IH as [|[n w] d Hw _ IHd]; intros l; [intros [= <-]; constructor|].
    intros (here & Hh & Hl)%bind_Ok. apply bind_Ok in Hl as (rest & Hr & [= <-]).
    apply Forall_app. split; [by eapply Hw|by apply IHd].
  - apply leaf_typed.
Qed.

Lemma dict_typed d l :
  _collect_dict_order_by classes global_collation source_type d = Ok l → Forall typed_direction l.
Proof using Type.
  intros (ks & Hk & [= <-])%bind_Ok. eapply concat_typed; [|exact Hk]. intros kv k _. apply collect_typed.
Qed.

Lemma item_typed v k : item_key classes global_collation source_type v = Ok k → typed_direction k.
Proof using Type.
  unfold item_key. intros (d & _ & Hk)%bind_Ok. revert Hk.
  destruct (Py.attr "field" v) as [[]|]; try done. intros [= <-]. apply key_typed.
Qed.

Lemma sequence_typed v k : _order_by_item_from_sequence v = Ok k → typed_direction k.
Proof using Type. unfold _order_by_item_from_sequence. intros ([f d] & _ & [= <-])%bind_Ok. apply key_typed. Qed.

Lemma list_item_typed v l : list_item classes global_collation source_type v = Ok l → Forall typed_direction l.
Proof using Type.
  assert (∀ w : pyval, (k ← _order_by_item_from_sequence w;
    Ok [{| field := field k; direction := direction k; value := PNone;
           collation := default_collation classes global_collation source_type (field k); temporal_cast := None |}])
    = Ok l → Forall typed_direction l) as Hs.
  { intros w (k & Hk & [= <-])%bind_Ok. apply sequence_typed in Hk as [d Hd]. repeat constructor. by exists d. }
  unfold list_item. destruct (is_item v).
  - intros (k & Hk & [= <-])%bind_Ok. repeat constructor. by eapply item_typed.
  - destruct v; try done; try apply Hs; [intros [= <-]; constructor|apply dict_typed].
Qed.

Lemma process_typed depth v prefix l :
  process_order_by classes global_collation source_type depth v prefix = Ok l → Forall typed_direction l.
Proof using Type.
  revert v prefix l. induction depth as [|depth IH]; intros v prefix l; [done|]. cbn [process_order_by].
  destruct (Py.attr "__gql_fields__" v) as [[]|]; try done. intros (ks & Hk & [= <-])%bind_Ok.
  eapply concat_typed; [|exact Hk]. intros x k _. destruct x; try done.
  destruct (Py.attr s v) as [w|]; [|done].
  assert (∀ b : bool, (if _is_vector_order_by w then Ok (_append_vector_order_by w (under prefix s))
    else if b then one_key w (under prefix s) (default_collation classes global_collation source_type (under prefix s))
    else if is_some (Py.attr "__gql_fields__" w) then
      process_order_by classes global_collation source_type depth w (under prefix s) else Ok []) = Ok k →
    Forall typed_direction k) as Hleaf.
  { intros b. destruct (_is_vector_order_by w); [intros [= <-]; apply vector_typed|].
    destruct b; [apply one_key_typed|]. destruct (is_some _); [apply IH|]. intros [= <-]. constructor. }
  destruct w; try (apply (Hleaf true)); try (apply (Hleaf false)). apply Hleaf.
Qed.
End conversions.

Lemma convert_typed classes depth v coll source l :
  _convert_order_by_input_to_sql classes depth v coll source = Ok (Some l) → Forall typed_direction l.
Proof.
  assert (∀ l', Ok (match l' with [] => None | _ :: _ => Some l' end) = Ok (Some l) → l = l') as Hs
    by (by intros [] [= <-]).
  unfold _convert_order_by_input_to_sql. destruct (Py.is_none v); [done|]. destruct (is_item v).
  - intros (k & Hk & [= <-])%bind_Ok. repeat constructor. by eapply item_typed.
  - assert (∀ p, (if is_some (Py.attr "__gql_fields__" p) then
      l' ← process_order_by classes coll (match source with Some t => Some t | None => _source_type_of v end)
             depth p EmptyString; Ok (match l' with [] => None | _ :: _ => Some l' end)
      else Ok None) = Ok (Some l) → Forall typed_direction l) as Hp.
    { intros p. destruct (is_some _); [|done]. intros (l' & Hl & E%Hs)%bind_Ok. subst. by eapply process_typed. }
    destruct v; try apply Hp; intros (l' & Hl & E%Hs)%bind_Ok; subst; [|by eapply dict_typed].
    eapply concat_typed; [|exact Hl]. intros x k _. apply list_item_typed.
Qed.

Lemma with_casts_typed classes source l :
  Forall typed_direction l → Forall typed_direction (with_temporal_casts classes source l).
Proof.
  intros Hl. destruct source as [t|]; [|done]. unfold with_temporal_casts. apply Forall_map.
  eapply Forall_impl; [exact Hl|]. intros k [d Hd]. destruct (_ && _); [|by exists d].
  destruct (_declared_temporal_cast _ _ _); by exists d.
Qed.

Lemma resolved_typed classes depth coll types arg view l :
  typed_arg arg → _resolve_order_by_set classes depth coll types arg view = Ok (Some l) → Forall typed_direction l.
Proof.
  destruct arg as [ks|v]; cbn [typed_arg].
  - intros Hk [= <-]. by apply with_casts_typed.
  - intros _. unfold _resolve_order_by_set. destruct (negb _); [done|].
    cbv zeta. intros ([l'|] & Hl & [= <-])%bind_Ok. apply with_casts_typed. revert Hl.
    match goal with |- match ?x with PStr _ => _ | _ => _ end = _ → _ => generalize x end.
    intros w Hw. assert (∃ d p c s, _convert_order_by_input_to_sql classes d p c s = Ok (Some l')) as (? & ? & ? & ? & Hc).
    { destruct w; try done; repeat case_match; try done; eauto. }
    by eapply convert_typed.
Qed.

(** *** The texts of a key *)

Ltac in_list := cbn; repeat first [apply list_elem_of_here | apply list_elem_of_further].
Ltac fixed_texts := cbn; repeat (apply Forall_cons_2; [by in_list|]); try apply Forall_nil_2.

Section texts.
Context (table_ref : string).

Definition fixed (c : composable) : Prop := Forall (λ t, t ∈ key_texts table_ref) (raw_texts c).

Lemma fixed_Composed l : Forall fixed l → fixed (Composed l).
Proof using Type. unfold fixed. cbn. induction 1; [constructor|]. cbn. by apply Forall_app. Qed.

Lemma fixed_Join sep l : sep ∈ key_texts table_ref → Forall fixed l → fixed (Join sep l).
Proof using Type. intros Hs Hl. unfold fixed. cbn. constructor; [done|]. by apply fixed_Composed in Hl. Qed.

Lemma fixed_Format t l : t ∈ key_texts table_ref → Forall fixed l → fixed (Format t l).
Proof using Type. apply fixed_Join. Qed.

Lemma fixed_Identifier s : fixed (Identifier s).
Proof using Type. constructor. Qed.

Lemma fixed_Literal v : fixed (Literal v).
Proof using Type. constructor. Qed.

Lemma fixed_SQL t : t ∈ key_texts table_ref → fixed (SQL t).
Proof using Type. intros Ht. by apply Forall_singleton. Qed.

Lemma fixed_direction k : typed_direction k → fixed (_direction_sql k).
Proof using Type. unfold _direction_sql. intros [[] ->]; apply fixed_SQL; in_list. Qed.

Lemma fixed_cast c : fixed (SQL (cast_name c)).
Proof using Type. apply fixed_SQL. destruct c; in_list. Qed.

Lemma fixed_collated k expr : fixed expr → fixed (_collated k expr).
Proof using Type.
  intros He. unfold _collated. destruct (collation k); [|done]. apply fixed_Composed.
  repeat (apply Forall_cons_2; [first [done|apply fixed_Identifier|apply fixed_SQL; in_list]|]). apply Forall_nil_2.
Qed.
End texts.

#[local] Hint Resolve fixed_Identifier fixed_Literal fixed_direction fixed_cast fixed_collated : core.

(** The parts of a fragment, each by what it is. *)
Ltac fixed_parts :=
  repeat first
    [ done | eassumption
    | apply fixed_Identifier | apply fixed_Literal | apply fixed_cast
    | apply fixed_direction; assumption
    | apply fixed_collated
    | apply fixed_SQL; by in_list
    | apply fixed_Composed | apply fixed_Format; [by in_list|] | apply fixed_Join; [by in_list|]
    | apply Forall_cons_2 | apply Forall_nil_2 ].

Lemma fixed_data_expr table_ref path leaf :
  fixed table_ref leaf → fixed table_ref (data_expr table_ref path leaf).
Proof.
  intros Hl. unfold data_expr. destruct (removelast path) as [|p ps]; fixed_parts.
  apply Forall_map, Forall_forall. intros q _. apply fixed_Literal.
Qed.

Lemma fixed_distance table_ref op v literal d text ty :
  distance_of op v literal = Ok (d, text, ty) →
  fixed table_ref ty ∧ match d with Infix s | Function s => s ∈ key_texts table_ref end.
Proof.
  unfold distance_of. repeat case_match; intros [= <- <- <-]; unfold _bit_cast; (split; [fixed_parts|in_list]).
Qed.

Lemma fixed_vector table_ref mapping k f op v c :
  typed_direction k → _build_vector_distance_sql k f op v table_ref mapping = Ok c → fixed table_ref c.
Proof.
  intros Hk. unfold _build_vector_distance_sql. intros (w & _ & Hw)%bind_Ok.
  assert (∀ items, ('(d, literal_value, type_cast) ← distance_of op w
      ("[" +:+ Str.join "," (map Py.str items) +:+ "]")%stdpp;
    let column := default f (dict_get f mapping) in
    let column_sql :=
      if table_ref =s "t" then Composed [SQL "t."; Identifier column] else Composed [Identifier column] in
    Ok match d with
       | Function g =>
           Composed [SQL g; SQL "("; column_sql; SQL ", "; Literal (PStr literal_value); type_cast;
                     SQL ") "; _direction_sql k]
       | Infix g =>
           Composed [SQL "("; column_sql; SQL ")"; SQL " "; SQL g; SQL " ";
                     Literal (PStr literal_value); type_cast; SQL " "; _direction_sql k]
       end) = Ok c → fixed table_ref c) as Hd.
  { intros items ([[d text] ty] & Hd & [= <-])%bind_Ok. apply (fixed_distance table_ref) in Hd as [Hty Hop].
    destruct d; destruct (table_ref =s "t"); fixed_parts; by apply fixed_SQL. }
  destruct w; try done; apply bind_Ok in Hw as (items & _ & Hw); by eapply Hd.
Qed.

Lemma fixed_json table_ref k : typed_direction k → fixed table_ref (json_key k table_ref).
Proof.
  intros Hk. unfold json_key. cbn zeta.
  assert (∀ b : bool, fixed table_ref (data_expr table_ref (Str.split "." (field k))
    (SQL (if b then " ->> " else " -> ")))) as He.
  { intros b. apply fixed_data_expr. destruct b; fixed_parts. }
  pose proof (He (is_some (collation k) || is_some (temporal_cast k))).
  destruct (temporal_cast k); [by fixed_parts|]. destruct (is_some (collation k)); by fixed_parts.
Qed.

Lemma fixed_key table_ref native mapping k c :
  typed_direction k → key_sql table_ref native mapping k = Ok c → fixed table_ref c.
Proof.
  intros Hk. unfold key_sql. destruct (_flat_column _ _ _); [intros [= <-]; fixed_parts|].
  destruct (vector_key k) as [[f op]|]; [by apply fixed_vector|]. intros [= <-]. by apply fixed_json.
Qed.

(** ** A text of names *)

(** A key as it may be read: one to three names, none empty or with a null. *)
Definition order_nulls : list string := ["FIRST"; "LAST"].

Definition wf_name (n : string) : bool := Str.nonempty n && Str.forallb (λ c, negb (Ascii.eqb c "000")) n.

Definition wf_key (k : sort_key) : Prop :=
  1 ≤ length (names k) ≤ 3 ∧ Forall (λ n, wf_name n = true) (names k) ∧
  (∀ d, dir k = Some d → d ∈ directions) ∧ (∀ n, nulls k = Some n → n ∈ order_nulls).

(** *** What is read is well formed *)

Lemma keyword_word words s w r : keyword words s = Some (w, r) → w ∈ words.
Proof.
  unfold keyword. destruct s as [|c s]; [done|]. destruct (is_blank c); [|done].
  destruct (List.find _ _) as [x|] eqn:E; [|done]. destruct (boundary _); [|done]. intros [= <- <-].
  apply List.find_some in E as [E _]. by apply list_elem_of_In.
Qed.

Lemma quoted_name_wf s n r :
  quoted_name s = Some (n, r) → Str.forallb (λ c, negb (Ascii.eqb c "000")) n = true.
Proof.
  revert n r. induction s as [s IH] using (induction_ltof1 _ String.length). unfold ltof in IH. intros n r.
  destruct s as [|c s]; [done|]. cbn [quoted_name]. destruct (Ascii.eqb c Py.dquote) eqn:Eq.
  - apply Ascii.eqb_eq in Eq as ->. destruct s as [|d s]; [by intros [= <- _]|].
    destruct (Ascii.eqb d Py.dquote); [|by intros [= <- _]].
    destruct (quoted_name s) as [[m r']|] eqn:E; [|done]. intros [= <- _]. cbn. eapply IH; [|exact E]. cbn. lia.
  - destruct (Ascii.eqb c "000") eqn:E0; [done|].
    destruct (quoted_name s) as [[m r']|] eqn:E; [|done]. intros [= <- _]. cbn. rewrite E0. cbn.
    eapply IH; [|exact E]. cbn. lia.
Qed.

Lemma ascii_cases (P : ascii → bool) : forallb P (map ascii_of_nat (seq 0 256)) = true → ∀ c, P c = true.
Proof.
  intros HP c. rewrite forallb_forall in HP. apply HP. apply in_map_iff. exists (nat_of_ascii c).
  split; [apply ascii_nat_embedding|]. apply in_seq. pose proof (nat_ascii_bounded c). lia.
Qed.

Lemma plain_name_wf s n r :
  plain_name s = (n, r) → Str.forallb (λ c, negb (Ascii.eqb c "000")) (Str.lower n) = true.
Proof.
  revert n r. induction s as [|c s IH]; intros n r; cbn; [by intros [= <- _]|].
  destruct (name_char c) eqn:Ec; [|by intros [= <- _]]. destruct (plain_name s) as [m r'].
  intros [= <- _]. cbn. rewrite (IH m r') by done. rewrite andb_true_r.
  pose proof (ascii_cases (λ c, implb (name_char c) (negb (Ascii.eqb (Str.lower_ascii c) "000")))
    ltac:(vm_compute; reflexivity) c) as Hc. cbn beta in Hc. by rewrite Ec in Hc.
Qed.

Lemma order_name_wf s n r : order_name s = Some (n, r) → wf_name n = true.
Proof.
  unfold order_name, wf_name. destruct s as [|c s]; [done|]. destruct (Ascii.eqb c Py.dquote).
  - destruct (quoted_name s) as [[[|d m] r']|] eqn:E; [done| |done]. intros [= <- _].
    by rewrite (quoted_name_wf _ _ _ E).
  - destruct (name_start c) eqn:Ec; [|done]. destruct (plain_name (String c s)) as [m r'] eqn:E.
    intros [= <- _]. rewrite (plain_name_wf _ _ _ E), andb_true_r. cbn in E.
    unfold name_char in E. rewrite Ec in E. cbn in E. destruct (plain_name s). by injection E as <- _.
Qed.

Lemma qualified_wf n s l r : qualified n s = (l, r) → length l ≤ n ∧ Forall (λ n, wf_name n = true) l.
Proof.
  assert (∀ s (l : list string) (r : string), ([], s) = (l, r) → length l ≤ n ∧ Forall (λ n, wf_name n = true) l) as Hn.
  { intros ??? [= <- _]. split; [cbn; lia|constructor]. }
  revert s l r Hn. induction n as [|n IH]; intros s l r Hn; cbn; [apply Hn|].
  destruct (skip_blanks s) as [|[[] [] [] [] [] [] [] []] s']; try apply Hn.
  destruct (order_name _) as [[m r']|] eqn:E; [|apply Hn]. destruct (qualified n r') as [ms r''] eqn:Eq.
  intros [= <- _]. apply IH in Eq as [Hl Hf]; [|intros ??? [= <- _]; split; [cbn; lia|constructor]].
  split; [cbn; lia|]. constructor; [by eapply order_name_wf|done].
Qed.

Lemma order_key_wf s k rest : order_key s = Some (k, rest) → wf_key k.
Proof.
  unfold order_key. destruct (order_name _) as [[n r]|] eqn:En; [|done].
  destruct (qualified 2 r) as [more r1] eqn:Eq. destruct (optional _ r1) as [d r2] eqn:Ed.
  destruct (nulls_keyword r2) as [u r3] eqn:Eu. intros Hk.
  assert (k = {| names := n :: more; dir := d; nulls := u |}) as ->.
  { destruct (skip_blanks r3) as [|[[] [] [] [] [] [] [] []] s']; try discriminate Hk; by injection Hk as <- _. }
  apply qualified_wf in Eq as [Hl Hf]. unfold wf_key. cbn [names dir nulls length]. split; [lia|].
  split; [constructor; [by eapply order_name_wf|done]|]. split.
  - intros w ->. unfold optional in Ed. destruct (keyword _ r1) as [[w' r']|] eqn:E; [|done].
    injection Ed as -> _. by eapply keyword_word.
  - intros w ->. unfold nulls_keyword in Eu. destruct (keyword _ r2) as [[x r']|]; [|done].
    destruct (keyword _ r') as [[w' r'']|] eqn:E; [|done]. injection Eu as -> _. by eapply keyword_word.
Qed.

Lemma order_keys_wf fuel s ks : order_keys fuel s = Ok ks → Forall wf_key ks ∧ ks ≠ [].
Proof.
  revert s ks. induction fuel as [|fuel IH]; intros s ks; [done|]. cbn [order_keys].
  destruct (order_key s) as [[k [rest|]]|] eqn:E; [| |done].
  - intros (l & Hl & [= <-])%bind_Ok. apply IH in Hl as [Hl _]. split; [|done].
    constructor; [by eapply order_key_wf|done].
  - intros [= <-]. split; [|done]. constructor; [by eapply order_key_wf|constructor].
Qed.

(** *** A list of keys as a text: names quoted, a quote in one written twice *)

Fixpoint doubled (n : string) : string :=
  match n with
  | EmptyString => EmptyString
  | String c n => (if Ascii.eqb c Py.dquote then String c (String c (doubled n)) else String c (doubled n))
  end.

Definition quoted (n : string) : string := String Py.dquote (doubled n +:+ String Py.dquote EmptyString)%stdpp.

Definition print_key (k : sort_key) : string :=
  (Str.join "." (map quoted (names k))
     +:+ match dir k with Some d => " " +:+ d | None => EmptyString end
     +:+ match nulls k with Some n => " NULLS " +:+ n | None => EmptyString end)%stdpp.

Definition print_keys (ks : list sort_key) : string := Str.join ", " (map print_key ks).

(** What follows a name: nothing, or something that is not a quote. *)
Definition no_quote (r : string) : bool :=
  match r with String c _ => negb (Ascii.eqb c Py.dquote) | EmptyString => true end.

Lemma quoted_name_doubled n r :
  Str.forallb (λ c, negb (Ascii.eqb c "000")) n = true → no_quote r = true →
  quoted_name (doubled n +:+ String Py.dquote r)%stdpp = Some (n, r).
Proof.
  intros Hn Hr. induction n as [|c n IH].
  - change (quoted_name (String Py.dquote r) = Some (EmptyString, r)). cbn [quoted_name].
    change (Ascii.eqb Py.dquote Py.dquote) with true. cbn match. destruct r as [|d r]; [done|].
    cbn in Hr. by destruct (Ascii.eqb d Py.dquote).
  - cbn in Hn. apply andb_true_iff in Hn as [Hc Hn]. specialize (IH Hn). cbn [doubled].
    destruct (Ascii.eqb c Py.dquote) eqn:E.
    + apply Ascii.eqb_eq in E as ->.
      change (quoted_name (String Py.dquote (String Py.dquote (doubled n +:+ String Py.dquote r)%stdpp))
              = Some (String Py.dquote n, r)).
      cbn [quoted_name]. change (Ascii.eqb Py.dquote Py.dquote) with true. cbn match. by rewrite IH.
    + change (quoted_name (String c (doubled n +:+ String Py.dquote r)%stdpp) = Some (String c n, r)).
      cbn [quoted_name]. rewrite E. destruct (Ascii.eqb c "000"); [done|]. by rewrite IH.
Qed.

Lemma order_name_quoted n r : wf_name n = true → no_quote r = true → order_name (quoted n +:+ r)%stdpp = Some (n, r).
Proof.
  unfold wf_name. intros [Hne Hn]%andb_true_iff Hr. unfold quoted.
  change (order_name (String Py.dquote ((doubled n +:+ String Py.dquote EmptyString) +:+ r))%stdpp = Some (n, r)).
  rewrite app_assoc_str. cbn [order_name]. change (Ascii.eqb Py.dquote Py.dquote) with true. cbn match.
  change (String Py.dquote EmptyString +:+ r)%stdpp with (String Py.dquote r).
  rewrite quoted_name_doubled by done. by destruct n.
Qed.

(** The text after the names: it starts with neither a point nor a quote. *)
Definition ends_names (r : string) : bool :=
  match r with
  | EmptyString => true
  | String c _ => negb (Ascii.eqb c Py.dquote) && match skip_blanks r with String "." _ => false | _ => true end
  end.

Lemma ends_no_quote r : ends_names r = true → no_quote r = true.
Proof. destruct r as [|c r]; [done|]. cbn. by intros [? _]%andb_true_iff. Qed.

Fixpoint points (l : list string) : string :=
  match l with [] => EmptyString | n :: l => String "." (quoted n +:+ points l)%stdpp end.

Lemma join_points n l : (Str.join "." (map quoted (n :: l)) = quoted n +:+ points l)%stdpp.
Proof.
  revert n. induction l as [|m l IH]; intros n.
  - symmetry. apply app_nil_r_str.
  - change (quoted n +:+ "." +:+ Str.join "." (map quoted (m :: l)) = quoted n +:+ points (m :: l))%stdpp.
    by rewrite IH.
Qed.

Lemma qualified_end n r : ends_names r = true → qualified n r = ([], r).
Proof.
  destruct n as [|n]; [done|]. destruct r as [|c r]; [done|]. unfold ends_names. intros [_ E]%andb_true_iff.
  cbn [qualified]. destruct (skip_blanks (String c r)) as [|[[] [] [] [] [] [] [] []] s']; done.
Qed.

Lemma no_quote_points l r : no_quote r = true → no_quote (points l +:+ r)%stdpp = true.
Proof. by destruct l. Qed.

Lemma qualified_points n l r :
  length l ≤ n → Forall (λ m, wf_name m = true) l → ends_names r = true →
  qualified n (points l +:+ r)%stdpp = (l, r).
Proof.
  intros Hn Hl Hr. revert n Hn. induction Hl as [|m l Hm Hl IH]; intros n Hn; [by apply qualified_end|].
  destruct n as [|n]; [cbn in Hn; lia|]. cbn [points].
  change (qualified (S n) (String "." ((quoted m +:+ points l) +:+ r))%stdpp = (m :: l, r)).
  rewrite app_assoc_str. cbn [qualified].
  change (skip_blanks (String "." (quoted m +:+ points l +:+ r)))%stdpp with (String "." (quoted m +:+ points l +:+ r))%stdpp.
  cbn match. change (skip_blanks (quoted m +:+ points l +:+ r))%stdpp with (quoted m +:+ points l +:+ r)%stdpp.
  rewrite order_name_quoted by (done || by apply no_quote_points, ends_no_quote).
  rewrite IH by (cbn in Hn; lia). done.
Qed.

(** *** Reading back *)

(** After a key: the end, or a comma. *)
Definition key_end (r : string) : Prop := r = EmptyString ∨ ∃ t, r = String "," t.

Definition suffix_text (d u : option string) : string :=
  (match d with Some d => " " +:+ d | None => EmptyString end
     +:+ match u with Some n => " NULLS " +:+ n | None => EmptyString end)%stdpp.

Lemma suffix_reads d u r :
  key_end r → (∀ x, d = Some x → x ∈ directions) → (∀ x, u = Some x → x ∈ order_nulls) →
  ends_names (suffix_text d u +:+ r)%stdpp = true ∧
  ∃ r1, optional ["ASC"; "DESC"] (suffix_text d u +:+ r)%stdpp = (d, r1) ∧ nulls_keyword r1 = (u, r).
Proof.
  intros Hr Hd Hu.
  assert (d = None ∨ d = Some "ASC" ∨ d = Some "DESC") as Hd'.
  { destruct d as [x|]; [|by left]. specialize (Hd x eq_refl). unfold directions in Hd. set_solver. }
  assert (u = None ∨ u = Some "FIRST" ∨ u = Some "LAST") as Hu'.
  { destruct u as [x|]; [|by left]. specialize (Hu x eq_refl). unfold order_nulls in Hu. set_solver. }
  clear Hd Hu. destruct Hr as [->|[t ->]]; destruct Hd' as [->|[->| ->]]; destruct Hu' as [->|[->| ->]];
    (split; [reflexivity|]); eexists; (split; [cbn; reflexivity|cbn; reflexivity]).
Qed.

Definition after_key (r : string) : option string :=
  match r with String _ t => Some t | EmptyString => None end.

Lemma order_key_print k r blanks :
  wf_key k → key_end r → blanks = EmptyString ∨ blanks = " " →
  order_key (blanks +:+ print_key k +:+ r)%stdpp = Some (k, after_key r).
Proof.
  destruct k as [ns d u]. intros ((Hn & Hn3) & Hf & Hd & Hu) Hr Hb. cbn [names dir nulls] in *.
  destruct ns as [|n ns]; [cbn in Hn; lia|]. apply Forall_cons in Hf as [Hw Hf].
  unfold print_key. cbn [names dir nulls]. fold (suffix_text d u). rewrite join_points, !app_assoc_str.
  destruct (suffix_reads d u r Hr Hd Hu) as (He & r1 & Ho & Hk).
  assert (skip_blanks (blanks +:+ quoted n +:+ points ns +:+ suffix_text d u +:+ r)%stdpp
          = (quoted n +:+ points ns +:+ suffix_text d u +:+ r)%stdpp) as Hs by (by destruct Hb as [-> | ->]).
  unfold order_key. rewrite Hs, order_name_quoted by (done || by apply no_quote_points, ends_no_quote).
  rewrite qualified_points by (done || cbn in Hn3; lia). rewrite Ho, Hk.
  by destruct Hr as [->|[t ->]].
Qed.

Lemma print_keys_read fuel ks blanks :
  Forall wf_key ks → ks ≠ [] → length ks ≤ fuel → blanks = EmptyString ∨ blanks = " " →
  order_keys fuel (blanks +:+ print_keys ks)%stdpp = Ok ks.
Proof.
  intros Hw. revert fuel blanks. induction Hw as [|k ks Hk Hw IH]; intros fuel blanks Hne Hf Hb; [done|].
  destruct fuel as [|fuel]; [cbn in Hf; lia|]. cbn [order_keys]. destruct ks as [|k' ks].
  - change (print_keys [k]) with (print_key k).
    pose proof (order_key_print k EmptyString blanks Hk (or_introl eq_refl) Hb) as E.
    rewrite app_nil_r_str in E. by rewrite E.
  - change (print_keys (k :: k' :: ks)) with (print_key k +:+ String "," (" " +:+ print_keys (k' :: ks)))%stdpp.
    rewrite (order_key_print k _ blanks Hk) by (done || (right; eauto)). cbn [after_key].
    rewrite IH by (done || (cbn in Hf; cbn; lia) || by right). done.
Qed.

Lemma print_key_length k : 1 ≤ String.length (print_key k) ∨ names k = [].
Proof.
  destruct k as [[|n ns] d u]; [by right|left]. unfold print_key. cbn [names dir nulls].
  rewrite join_points. unfold quoted. rewrite !app_cons_str. cbn [String.length]. lia.
Qed.

Lemma print_keys_length ks : Forall wf_key ks → length ks ≤ String.length (print_keys ks).
Proof.
  induction 1 as [|k ks Hk Hw IH]; [cbn; lia|].
  assert (1 ≤ String.length (print_key k)) as Hl.
  { destruct (print_key_length k) as [|E]; [done|]. destruct Hk as [[Hk _] _]. rewrite E in Hk. inversion Hk. }
  destruct ks as [|k' ks]; [exact Hl|].
  change (print_keys (k :: k' :: ks)) with (print_key k +:+ String "," (" " +:+ print_keys (k' :: ks)))%stdpp.
  rewrite length_app_str. cbn [String.length]. rewrite length_app_str. cbn [String.length].
  cbn [length] in IH |- *. lia.
Qed.

(** ** The laws *)

Lemma order_key_parts table_ref k : wf_key k → Forall (λ t, t ∈ order_texts table_ref) (raw_texts (key_parts k)).
Proof.
  intros (_ & _ & Hd & Hu).
  assert (dir k = None ∨ dir k = Some "ASC" ∨ dir k = Some "DESC") as Hd'.
  { destruct (dir k) as [x|]; [|by left]. specialize (Hd x eq_refl). unfold directions in Hd. set_solver. }
  assert (nulls k = None ∨ nulls k = Some "FIRST" ∨ nulls k = Some "LAST") as Hu'.
  { destruct (nulls k) as [x|]; [|by left]. specialize (Hu x eq_refl). unfold order_nulls in Hu. set_solver. }
  unfold key_parts. cbn [raw_texts]. rewrite flat_map_app. apply Forall_app. split.
  - unfold identifier. destruct (names k) as [|n [|m ns]]; cbn [raw_texts flat_map app map]; try constructor;
      [in_list| |in_list|]; try constructor. induction ns as [|x ns IH]; [constructor|exact IH].
  - destruct Hd' as [->|[->| ->]]; destruct Hu' as [->|[->| ->]];
      cbn -[order_texts]; repeat (apply Forall_cons_2; [by in_list|]); apply Forall_nil_2.
Qed.

Lemma fixed_order table_ref c : fixed table_ref c → Forall (λ t, t ∈ order_texts table_ref) (raw_texts c).
Proof.
  intros Hc. eapply Forall_impl; [exact Hc|]. intros t Ht. unfold order_texts. apply elem_of_app. by right.
Qed.

(** Whatever is passed to order by (a dictionary, a list, tuples, an input object or a
    text), the SQL written for it is made of the program's own texts, the name of the
    JSONB column or of the alias, and nothing of the caller's: field names, vectors and
    collations are quoted identifiers and literals, directions are [ASC] or [DESC].  (A
    set of keys built by the application is trusted to have directions of the
    enumeration.) *)
Theorem sort_keys_write_fixed_texts classes depth coll types arg table_ref native mapping view flat sql alias l :
  typed_arg arg →
  _build_order_by_sql classes depth coll types arg table_ref native mapping view flat = Ok (sql, alias) →
  order_list arg sql = Ok l →
  Forall (λ t, t ∈ order_texts table_ref) (flat_map raw_texts l).
Proof.
  intros Ht Hb Hl. unfold _build_order_by_sql in Hb. apply bind_Ok in Hb as (ks & Hks & Hb).
  assert (∀ c, Forall (λ t, t ∈ order_texts table_ref) (raw_texts c) →
    Forall (λ t, t ∈ order_texts table_ref) (flat_map raw_texts [SQL " "; c])) as Hspace.
  { intros c Hc. cbn. rewrite app_nil_r. constructor; [in_list|done]. }
  destruct ks as [ks|].
  - apply resolved_typed in Hks; [|done]. cbv zeta in Hb. apply bind_Ok in Hb as (c & Hc & [= <- _]).
    injection Hl as <-. apply Hspace. destruct ks as [|k ks]; [injection Hc as <-; constructor|].
    apply bind_Ok in Hc as (parts & Hp & [= <-]). cbn [raw_texts flat_map app]. rewrite app_nil_r.
    constructor; [in_list|]. constructor; [in_list|].
    apply mapR_Ok in Hp. revert Hks Hp. generalize (k :: ks). clear. intros keys Hl Hp.
    revert Hl. induction Hp as [|k1 p ks1 parts1 Hk _ IH]; [constructor|]. intros [Ht Hl]%Forall_cons. cbn.
    apply Forall_app. split; [|by apply IH]. apply fixed_order. by eapply fixed_key.
  - injection Hb as <- _. destruct arg as [ks|v]; [by injection Hl as <-|].
    destruct v; try (injection Hl as <-; constructor). apply bind_Ok in Hl as (c & Hc & [= <-]). apply Hspace.
    unfold _order_by_string_sql in Hc. apply bind_Ok in Hc as (keys & Hk & [= <-]).
    apply order_keys_wf in Hk as [Hk _]. cbn [raw_texts flat_map app]. rewrite app_nil_r.
    constructor; [in_list|]. constructor; [in_list|].
    induction Hk as [|k keys Hw _ IH]; [constructor|]. cbn. apply Forall_app. split; [by apply order_key_parts|exact IH].
Qed.

(** The reading of an ORDER BY text is a round trip: a list of keys written with its
    names quoted (a quote in a name twice) reads back as the same keys, for any names
    without a null, up to three for a key, any direction and any place of nulls; and every
    text that is accepted at all reads as such a list, so that its canonical form gives the
    same SQL. *)
Theorem order_text_roundtrip :
  (∀ ks, Forall wf_key ks → ks ≠ [] →
     _order_by_string_sql (print_keys ks) = Ok (Composed [SQL "ORDER BY "; Join ", " (map key_parts ks)])) ∧
  (∀ s c, _order_by_string_sql s = Ok c →
     ∃ ks, Forall wf_key ks ∧ ks ≠ [] ∧ c = Composed [SQL "ORDER BY "; Join ", " (map key_parts ks)] ∧
       _order_by_string_sql (print_keys ks) = Ok c).
Proof.
  assert (∀ ks, Forall wf_key ks → ks ≠ [] →
     _order_by_string_sql (print_keys ks) = Ok (Composed [SQL "ORDER BY "; Join ", " (map key_parts ks)])) as Hp.
  { intros ks Hw Hne. unfold _order_by_string_sql.
    pose proof (print_keys_length ks Hw). pose proof (print_keys_read (S (String.length (print_keys ks))) ks EmptyString) as E.
    rewrite app_nil_l_str in E. rewrite E by (done || lia || by left). done. }
  split; [exact Hp|]. intros s c Hs. unfold _order_by_string_sql in Hs.
  apply bind_Ok in Hs as (ks & Hk & [= <-]). apply order_keys_wf in Hk as [Hw Hne]. exists ks. auto.
Qed.

(** ** A request *)

Definition hostile_order : pyval :=
  PList [PDict [("createdAt", PStr "desc"); ("x') DESC; DROP TABLE t; --", PStr "ASC")];
         PTuple [PStr "embedding.cosine_distance"; PStr "ASC"];
         PDict [("embedding", PDict [("cosineDistance", PList [PFloat (Num.FFin 5 (-1)); PInt 2])])]].

Lemma sort_keys_write_fixed_texts_witness :
  ∃ sql, _build_order_by_sql (λ _, {| type_hints := None; bases := [] |}) 20 None [] (Value hostile_order) "data"
           [] [] "v_doc" false = Ok (Some sql, false) ∧
    Forall (λ t, t ∈ order_texts "data") (flat_map raw_texts [SQL " "; sql]).
Proof.
  eexists. split; [vm_compute; reflexivity|].
  eapply (sort_keys_write_fixed_texts (λ _, {| type_hints := None; bases := [] |}) 20 None [] (Value hostile_order)
           "data" [] [] "v_doc" false); [exact I|vm_compute; reflexivity|vm_compute; reflexivity].
Defined.

Lemma order_text_roundtrip_witness :
  let ks := [{| names := ["t"; "a" +:+ String Py.dquote EmptyString]%stdpp; dir := Some "DESC"; nulls := None |};
             {| names := ["name"]; dir := None; nulls := Some "LAST" |}] in
  _order_by_string_sql (print_keys ks) = Ok (Composed [SQL "ORDER BY "; Join ", " (map key_parts ks)]) ∧
  ∃ c, _order_by_string_sql "T.name desc" = Ok c ∧
    ∃ ks, Forall wf_key ks ∧ ks ≠ [] ∧ c = Composed [SQL "ORDER BY "; Join ", " (map key_parts ks)] ∧
       _order_by_string_sql (print_keys ks) = Ok c.
Proof.
  split.
  - apply (proj1 order_text_roundtrip); [|discriminate].
    repeat (apply Forall_cons_2); try apply Forall_nil_2;
      (split; [cbn; lia|]; split; [repeat constructor|]; split; intros ? [= <-]; unfold directions, order_nulls; set_solver).
  - eexists. split; [vm_compute; reflexivity|]. apply (proj2 order_text_roundtrip "T.name desc"). vm_compute. reflexivity.
Defined.
