(* ===== verification/GroupLaws.v ===== *)
(** * Laws of grouped rows

    The nested object a grouped row is returned as holds each field and aggregate at its
    path, and nothing else, when no path runs through another. *)
From stdpp Require Import base decidable strings list sets.
From Stdlib Require Import ZArith Lia Ascii.
From S2P Require Import Prelude PyVal Sql Casing Pagination OpBase FieldCondition WhereClause Views Normalize OrderBy FindQuery.

Local Open Scope py_scope.

(** ** What PostgreSQL builds: the members of [json_build_object] *)

Fixpoint members (l : list composable) : list (string * composable) :=
  match l with
  | Literal (PStr k) :: SQL _ :: v :: l =>
      (k, v) :: match l with SQL _ :: l => members l | _ => [] end
  | _ => []
  end.

Definition object (c : composable) : option (list (string * composable)) :=
  match c with
  | Format t [Join _ l] => if bool_decide (t = "json_build_object({})") then Some (members l) else None
  | _ => None
  end.

(** The value at a path of an object. *)
Fixpoint at_path (path : list string) (c : composable) : option composable :=
  match path with
  | [] => Some c
  | k :: path => match object c with Some ms => dict_get k ms ≫= at_path path | None => None end
  end.

(** ** Trees *)

Fixpoint subtree (path : list string) (t : json_tree) : option json_tree :=
  match path with
  | [] => Some t
  | k :: path => match t with Node l => dict_get k l ≫= subtree path | Leaf _ => None end
  end.

Section tree_ind.
Context (P : json_tree → Prop) (Hleaf : ∀ e, P (Leaf e)) (Hnode : ∀ l, Forall (λ kv, P kv.2) l → P (Node l)).

Fixpoint json_tree_ind' (t : json_tree) : P t :=
  let pairs := fix pairs (l : list (string * json_tree)) : Forall (λ kv, P kv.2) l :=
    match l with
    | [] => List.Forall_nil _
    | kv :: l => List.Forall_cons _ _ _ (json_tree_ind' kv.2) (pairs l)
    end in
  match t with Leaf e => Hleaf e | Node l => Hnode l (pairs l) end.
End tree_ind.

(** No leaf reads as an object. *)
Inductive plain : json_tree → Prop :=
| plain_leaf e : object e = None → plain (Leaf e)
| plain_node l : Forall (λ kv, plain kv.2) l → plain (Node l).

Lemma object_node l : object (render_value (Node l)) = Some (map (λ kv, (kv.1, render_value kv.2)) l).
Proof.
  cbn [render_value object]. rewrite bool_decide_eq_true_2 by done. f_equal.
  assert (∀ l, members
    ((fix pairs (first : bool) (l : list (string * json_tree)) : list composable :=
        match l with
        | [] => []
        | (key, v) :: l =>
            (if first then [] else [SQL ", "]) ++ [Literal (PStr key); SQL ", "; render_value v] ++ pairs false l
        end) true l) = map (λ kv, (kv.1, render_value kv.2)) l) as Hm; [|apply Hm].
  clear. intros l. destruct l as [|[k v] l]; [done|]. cbn. f_equal.
  induction l as [|[k' v'] l IH]; [done|]. cbn. f_equal. apply IH.
Qed.

Lemma dict_get_map {A B} (f : A → B) k (d : list (string * A)) :
  dict_get k (map (λ kv, (kv.1, f kv.2)) d) = f <$> dict_get k d.
Proof. induction d as [|[k' v] d IH]; [done|]. cbn. by case_decide. Qed.

Lemma at_subtree path t : plain t → at_path path (render_value t) = render_value <$> subtree path t.
Proof.
  revert t. induction path as [|k path IH]; intros t Ht; [done|]. cbn [at_path subtree].
  destruct Ht as [e He|l Hl].
  - cbn [render_value]. by rewrite He.
  - rewrite object_node, dict_get_map. destruct (dict_get k l) as [t|] eqn:E; [|done]. cbn. apply IH.
    apply dict_get_elem in E. rewrite Forall_forall in Hl. by apply (Hl _ E).
Qed.

(** ** Setting a path *)

Lemma subtree_set parts e node :
  parts ≠ [] → subtree parts (Node (set_path parts e node)) = Some (Leaf e).
Proof.
  revert node. induction parts as [|p [|q parts] IH]; intros node Hne; [done| |]; cbn [set_path subtree].
  - by rewrite dict_get_set_eq.
  - rewrite dict_get_set_eq. apply IH. done.
Qed.

Lemma subtree_other parts e node path x :
  parts ≠ [] → ¬ parts `prefix_of` path → ¬ path `prefix_of` parts →
  subtree path (Node node) = Some (Leaf x) → subtree path (Node (set_path parts e node)) = Some (Leaf x).
Proof.
  revert node path. induction parts as [|p parts IH]; intros node path Hne Hp Hq Hx; [done|].
  destruct path as [|k path]; [by destruct Hq; apply prefix_nil|].
  assert (∀ t, p ≠ k → subtree (k :: path) (Node (dict_set p t node)) = Some (Leaf x)) as Hd.
  { intros t Hk. cbn [subtree] in *. by rewrite dict_get_set_ne. }
  destruct parts as [|p' parts]; cbn [set_path].
  - apply Hd. intros ->. apply Hp. apply prefix_cons, prefix_nil.
  - destruct (decide (p = k)) as [->|Hk]; [|by apply Hd]. cbn [subtree] in *. rewrite dict_get_set_eq. cbn [mbind option_bind].
    apply IH; [done|by intros ?; apply Hp, prefix_cons|by intros ?; apply Hq, prefix_cons|].
    destruct (dict_get k node) as [[y|l]|]; cbn in Hx |- *; [|exact Hx|done].
    destruct path as [|k' path]; [|done]. by destruct Hq; apply prefix_cons, prefix_nil.
Qed.

Lemma subtree_inv parts e node path x :
  parts ≠ [] → subtree path (Node (set_path parts e node)) = Some (Leaf x) →
  (path = parts ∧ x = e) ∨ subtree path (Node node) = Some (Leaf x).
Proof.
  revert node path. induction parts as [|p parts IH]; intros node path Hne Hx; [done|].
  destruct path as [|k path]; [done|].
  assert (∀ t, p ≠ k → subtree (k :: path) (Node (dict_set p t node)) = Some (Leaf x) →
    subtree (k :: path) (Node node) = Some (Leaf x)) as Hd.
  { intros t Hk. cbn [subtree]. by rewrite dict_get_set_ne. }
  destruct (decide (p = k)) as [->|Hk]; [|right; destruct parts; by eapply Hd].
  destruct parts as [|p' parts]; cbn [set_path subtree] in Hx |- *; rewrite dict_get_set_eq in Hx; cbn in Hx.
  - destruct path as [|k' path]; [|done]. injection Hx as ->. by left.
  - apply IH in Hx as [[-> ->]|Hx]; [by left| |done]. right.
    destruct (dict_get k node) as [[y|l]|]; cbn in Hx |- *; [|exact Hx|]; by destruct path.
Qed.

Lemma plain_set parts e node :
  object e = None → plain (Node node) → plain (Node (set_path parts e node)).
Proof.
  intros He. revert node. induction parts as [|p parts IH]; intros node Hn; [done|].
  assert (∀ t, plain t → plain (Node (dict_set p t node))) as Hd.
  { intros t Ht. inversion Hn as [|? Hl]. subst. constructor. apply Forall_forall. rewrite Forall_forall in Hl.
    intros kv [->|Hkv]%dict_set_elem; [done|by apply Hl]. }
  destruct parts as [|p' parts]; cbn [set_path]; apply Hd; [by constructor|]. apply IH.
  destruct (dict_get p node) as [[y|l]|] eqn:E; cbn [children]; try (constructor; constructor).
  apply dict_get_elem in E. inversion Hn as [|? Hl]. subst. rewrite Forall_forall in Hl. by apply (Hl _ E).
Qed.

(** ** The object of a row *)

Definition apart (a b : string * composable) : Prop :=
  ¬ Str.split "." a.1 `prefix_of` Str.split "." b.1 ∧ ¬ Str.split "." b.1 `prefix_of` Str.split "." a.1.

Section entries.
Context (entries : list (string * composable)) (Hplain : Forall (λ e, object e.2 = None) entries).

Definition tree_after (node : list (string * json_tree)) (l : list (string * composable)) :=
  foldl (λ tree e, set_path (Str.split "." e.1) e.2 tree) node l.

Lemma tree_plain node l : plain (Node node) → Forall (λ e, object e.2 = None) l → plain (Node (tree_after node l)).
Proof using Type.
  intros Hn Hl. revert node Hn. induction Hl as [|[p e] l He Hl IH]; intros node Hn; [done|]. cbn.
  by apply IH, plain_set.
Qed.

Lemma tree_keeps node l path x :
  subtree path (Node node) = Some (Leaf x) →
  Forall (λ e, ¬ Str.split "." e.1 `prefix_of` path ∧ ¬ path `prefix_of` Str.split "." e.1) l →
  subtree path (Node (tree_after node l)) = Some (Leaf x).
Proof using Type.
  intros Hx Hl. revert node Hx. induction Hl as [|[p e] l [Hp Hq] Hl IH]; intros node Hx; [done|]. cbn.
  apply IH, subtree_other; try done. destruct (split_cons "." p) as (? & ? & E). by rewrite E.
Qed.

Lemma tree_holds node l p e :
  ForallOrdPairs apart l → (p, e) ∈ l → subtree (Str.split "." p) (Node (tree_after node l)) = Some (Leaf e).
Proof using Type.
  intros Ha. revert node. induction Ha as [|[p' e'] l Hx Ha IH]; intros node; [by intros ?%not_elem_of_nil|].
  intros [[= -> ->]|Hin]%elem_of_cons; [|by apply IH]. cbn. apply tree_keeps.
  - apply subtree_set. destruct (split_cons "." p') as (? & ? & E). by rewrite E.
  - apply List.Forall_impl with (P := apart (p', e')); [|exact Hx]. intros [q x] [H1 H2]. done.
Qed.

Lemma tree_only node l path x :
  subtree path (Node (tree_after node l)) = Some (Leaf x) →
  subtree path (Node node) = Some (Leaf x) ∨ ∃ p, (p, x) ∈ l ∧ path = Str.split "." p.
Proof using Type.
  revert node. induction l as [|[p e] l IH]; intros node; [by left|]. cbn. intros [Hs|(q & Hq & ->)]%IH.
  - apply subtree_inv in Hs as [[-> ->]|Hs]; [right|by left|].
    + exists p. split; [by left|done].
    + destruct (split_cons "." p) as (? & ? & E). by rewrite E.
  - right. exists q. split; [by right|done].
Qed.
End entries.

(** The JSON object of a grouped row: when no path of a field or aggregate is a prefix
    of another, the object PostgreSQL is asked to build holds at the path of each entry
    that entry's expression, and every value in it that is not an object itself is the
    expression of an entry at its path. *)
Theorem nested_object_holds_each_entry entries :
  Forall (λ e, object e.2 = None) entries → ForallOrdPairs apart entries →
  ∀ path c, object c = None →
    (at_path path (_build_nested_json_object entries) = Some c
     ↔ ∃ p, (p, c) ∈ entries ∧ path = Str.split "." p).
Proof.
  intros Hplain Ha path c Hc. unfold _build_nested_json_object, json_tree_of. fold (tree_after [] entries).
  rewrite at_subtree by (apply tree_plain; [repeat constructor|done]). split.
  - destruct (subtree path _) as [[e|l]|] eqn:E; [|intros Ec|done].
    2: { pose proof (object_node l) as Ho. change (Some (render_value (Node l)) = Some c) in Ec.
      assert (render_value (Node l) = c) as Er by congruence. by rewrite Er, Hc in Ho. }
    intros [= ->]. apply tree_only in E as [E|E]; [by destruct path|exact E].
  - intros (p & Hp & ->). by rewrite (tree_holds _ _ _ _ Ha Hp).
Qed.

Definition sold : list (string * composable) :=
  [("location.country", _build_jsonb_field_expr "location.country" "data");
   ("location.city", _build_jsonb_field_expr "location.city" "data");
   ("total", Format "{}({})" [SQL "COUNT"; Identifier "id"])].

Lemma nested_object_holds_each_entry_witness :
  at_path ["location"; "city"] (_build_nested_json_object sold)
  = Some (_build_jsonb_field_expr "location.city" "data").
Proof.
  apply (nested_object_holds_each_entry sold).
  - repeat constructor.
  - repeat constructor; intros [l Hl]; vm_compute in Hl; discriminate Hl.
  - reflexivity.
  - exists "location.city". split; [right; left|reflexivity].
Defined.

(** A path through another loses it: the field [location] is not in the row, though it is
    grouped by. *)
Example overlapping_paths_lose_a_field :
  let location := _build_jsonb_field_expr "location" "data" in
  let city := _build_jsonb_field_expr "location.city" "data" in
  _build_nested_json_object [("location", location); ("location.city", city)]
  = _build_nested_json_object [("location.city", city)].
Proof. reflexivity. Qed.

(** PostgreSQL takes a sort key that is one of the grouped expressions. A grouped field of
    the JSONB column is grouped by as text and sorted by as JSON: the two expressions are
    not the same, and the query is refused. *)
Example a_grouped_field_is_sorted_by_another_expression :
  let g := {| jsonb := Some "data"; dimensions := []; mapping := []; measures := [] |} in
  let k := key "category" ASC PNone None in
  build_field g "category" = Format "{}->>{}" [Identifier "data"; Literal (PStr "category")] ∧
  json_key k "data"
  = Composed [Composed [SQL "data"; SQL " -> "; Literal (PStr "category")]; SQL " "; SQL "ASC"].
Proof. split; reflexivity. Qed.
