(* ===== verification/Authorization.v ===== *)
(** * Authorization of operations and fields

    [security/authorization.py], [security/decision_cache.py], the decisions of
    [security/field_auth.py], and from [gql/builders/query_builder.py] what a resolver does
    to the repository's context.  What the application's authorizer answers is an input;
    SHA-256 and the extraction of a principal are parameters; a clock reading is a number.
    Coroutines that are awaited at once are calls. *)
From stdpp Require Import base decidable strings list sorting.
From Stdlib Require Import ZArith Lia Ascii.
From S2P Require Import Prelude PyVal Apq FindQuery.

Local Open Scope py_scope.
Local Open Scope Z_scope.

(** ** Decisions *)

Record AuthorizationDecision := {
  allowed : bool;
  code : option string;
  message : option string;
  row_filters : option filters
}.

Definition DEFAULT_DENY_CODE : string := "FORBIDDEN".
Definition DEFAULT_DENY_MESSAGE : string := "Operation not authorized".
Definition _DEFAULT_FIELD_CODE : string := "FIELD_AUTHORIZATION_ERROR".

Definition allow (filters : option filters) : AuthorizationDecision :=
  {| allowed := true; code := None; message := None; row_filters := filters |}.

Definition deny (code : string) (message : option string) : AuthorizationDecision :=
  {| allowed := false; code := Some code; message := message; row_filters := None |}.

(** What an authorizer or a check returns: a decision, or any other value. *)
Inductive verdict := Plain (v : pyval) | Decision (d : AuthorizationDecision).

(** A [GraphQLError] with its message and the code among its extensions. *)
Record refusal := { reason : string; reason_code : option string }.

(** A call of the application's code returns, or raises. *)
Inductive answer := Returns (v : verdict) | RaisesGraphQLError (r : refusal) | Raises.

Definition normalize_decision (result : verdict) : AuthorizationDecision :=
  match result with
  | Decision d => d
  | Plain v => if Py.truthy v then allow None else deny DEFAULT_DENY_CODE None
  end.

(** [a or b] on texts. *)
Definition or_text (a : option string) (b : string) : string :=
  match a with Some (String _ _ as s) => s | _ => b end.

Inductive enforcement := Allowed (d : AuthorizationDecision) | Refused (r : refusal).

Definition _raise_on_deny (decision : AuthorizationDecision) : enforcement :=
  if allowed decision then Allowed decision
  else Refused {| reason := or_text (message decision) DEFAULT_DENY_MESSAGE;
                  reason_code := Some (or_text (code decision) DEFAULT_DENY_CODE) |}.

(** ** The cache of decisions *)

(** [json.dumps(v, sort_keys=True)] *)
Fixpoint json_text (v : pyval) : result string :=
  match v with
  | PNone => Ok "null"
  | PBool b => Ok (if b then "true" else "false")
  | PInt z => Ok (Num.string_of_Z z)
  | PFloat f => Ok (Json.float f)
  | PStr s => Ok (Json.quoted s)
  | PList l | PTuple l => ts ← mapR json_text l; Ok ("[" +:+ Str.join ", " ts +:+ "]")%stdpp
  | PDict d =>
      ts ← mapR (λ kv, t ← json_text kv.2; Ok (kv.1, t)) d;
      Ok ("{" +:+ Str.join ", " (map (λ kv, Json.quoted kv.1 +:+ ": " +:+ kv.2) (sort_keys ts)) +:+ "}")%stdpp
  | _ => Err TypeError
  end.

Record AuthorizationCacheConfig := { ttl_seconds : Z; max_entries : Z }.

Section authorization.
Context {principal : Type} `{EqDecision principal}.
Context {request_context : Type} (principal_key : request_context → option principal).
Context (sha256 : string → string) (config : AuthorizationCacheConfig).

Definition key : Type := principal * string * string * string.

(** The entries in the order of their last use: when each expires, and its decision. *)
Definition entries : Type := list (key * (Z * AuthorizationDecision)).

Definition _stable_arguments_hash (arguments : list (string * pyval)) : option string :=
  match json_text (PDict arguments) with Ok canonical => Some (sha256 canonical) | Err _ => None end.

Definition make_key (context : request_context) (operation_type operation_name : string)
    (arguments : list (string * pyval)) : option key :=
  match principal_key context, _stable_arguments_hash arguments with
  | Some p, Some args_hash => Some (p, operation_type, operation_name, args_hash)
  | _, _ => None
  end.

Fixpoint lookup_key (k : key) (l : entries) : option (Z * AuthorizationDecision) :=
  match l with
  | [] => None
  | (k', v) :: l => if decide (k = k') then Some v else lookup_key k l
  end.

Definition without_key (k : key) (l : entries) : entries := List.filter (λ kv, negb (bool_decide (kv.1 = k))) l.

(** [DecisionCache.get] *)
Definition get (now : Z) (k : key) (c : entries) : option AuthorizationDecision * entries :=
  match lookup_key k c with
  | None => (None, c)
  | Some (expires_at, d) =>
      if expires_at <=? now then (None, without_key k c)
      else (Some d, without_key k c ++ [(k, (expires_at, d))])
  end.

(** [while len(entries) > max_entries: popitem(last=False)]; an empty dictionary has
    nothing to pop, and [KeyError] is raised. *)
Fixpoint evict (c : entries) : result entries :=
  match c with
  | [] => if max_entries config <? 0 then Err KeyError else Ok []
  | _ :: c' => if max_entries config <? Z.of_nat (length c) then evict c' else Ok c
  end.

(** [DecisionCache.put]; entries popped before an error stay popped. *)
Definition put (now : Z) (k : key) (d : AuthorizationDecision) (c : entries) : entries * bool :=
  match evict (without_key k c ++ [(k, (now + ttl_seconds config, d))]) with
  | Ok c => (c, true)
  | Err _ => ([], false)
  end.

(** ** Operations *)

(** A call: [None] for the authorizer when none is configured, else what it answers if it
    is asked, and whether it is a coroutine; the readings of the clock when the cache is
    read and when it is written. *)
Record call := {
  request : request_context;
  operation_type : string;
  operation_name : string;
  arguments : list (string * pyval);
  authorizer : option answer;
  awaitable : bool;
  now : Z;
  later : Z
}.

Definition key_of (e : call) : option key :=
  make_key (request e) (operation_type e) (operation_name e) (arguments e).

(** The decision the cache holds for a call, with its key if it has one; [None] is no cache. *)
Definition cached (e : call) (k : option key) (c : option entries)
    : option AuthorizationDecision * option entries :=
  match k, c with
  | Some k, Some c => let '(d, c) := get (now e) k c in (d, Some c)
  | _, _ => (None, c)
  end.

(** [cache.put(key, decision)] when there are a cache and a key; [false] if it raises. *)
Definition remember (e : call) (k : option key) (d : AuthorizationDecision) (c : option entries)
    : option entries * bool :=
  match k, c with
  | Some k, Some c => let '(c, ok) := put (later e) k d c in (Some c, ok)
  | _, _ => (c, true)
  end.

(** The key is built when there is a cache. *)
Definition key_for (e : call) (c : option entries) : option key :=
  match c with Some _ => key_of e | None => None end.

Definition enforce_operation_value (e : call) (c : option entries) : enforcement * option entries :=
  match authorizer e with
  | None => (Allowed (allow None), c)
  | Some raw =>
      let k := key_for e c in
      match cached e k c with
      | (Some d, c) => (_raise_on_deny d, c)
      | (None, c) =>
          match raw with
          | Returns v =>
              let d := normalize_decision v in
              let '(c, ok) := remember e k d c in
              (_raise_on_deny (if ok : bool then d else deny DEFAULT_DENY_CODE None), c)
          | RaisesGraphQLError r => (Refused r, c)
          | Raises => (_raise_on_deny (deny DEFAULT_DENY_CODE None), c)
          end
      end
  end.

(** ** Fields *)

(** What a check of a field comes to: its verdict, or an exception. *)
Inductive checked := Verdict (v : verdict) | Error (r : refusal) | Exception.

(** [field_authorizer_adapter]; what the authorizer returns is awaited, and [TypeError] is
    raised when that is a decision or a truth value instead of a coroutine. *)
Definition field_authorizer_adapter (is_awaitable : bool) (raw : answer) : checked :=
  match raw with
  | Returns v => Verdict (if is_awaitable then v else Decision (deny _DEFAULT_FIELD_CODE None))
  | RaisesGraphQLError r => Error r
  | Raises => Verdict (Decision (deny _DEFAULT_FIELD_CODE None))
  end.

(** [_authorize_field_value]; the operation of the call is [field]. *)
Definition _authorize_field_value (e : call) (c : option entries) : checked * option entries :=
  match authorizer e with
  | None => (Verdict (Plain (PBool true)), c)
  | Some raw =>
      let k := key_for e c in
      match cached e k c with
      | (Some d, c) => (Verdict (Decision d), c)
      | (None, c) =>
          match field_authorizer_adapter (awaitable e) raw with
          | Verdict v =>
              let d :=
                match v with
                | Decision d => d
                | Plain v => if Py.truthy v then allow None else deny _DEFAULT_FIELD_CODE None
                end in
              let '(c, ok) := remember e k d c in
              (if ok : bool then Verdict (Decision d) else Exception, c)
          | other => (other, c)
          end
      end
  end.
End authorization.

(** [_enforce_field_decision]: [None] lets the resolver run. *)
Definition _enforce_field_decision (authorized : verdict) (error_message : option string) (field_name : string)
    : option refusal :=
  let default_message := or_text error_message ("Not authorized to access field '" +:+ field_name +:+ "'")%stdpp in
  if allowed (normalize_decision authorized) then None
  else
    Some match authorized with
         | Decision d =>
             {| reason := or_text (message d) default_message;
                reason_code := Some (or_text (code d) _DEFAULT_FIELD_CODE) |}
         | Plain _ => {| reason := default_message; reason_code := Some _DEFAULT_FIELD_CODE |}
         end.

(** [if not result] on what a check returns: a decision is an object, hence true. *)
Definition passes (v : verdict) : bool := match v with Plain v => Py.truthy v | Decision _ => true end.

Fixpoint combine_permissions (checks : list checked) : checked :=
  match checks with
  | [] => Verdict (Plain (PBool true))
  | Verdict v :: checks => if passes v then combine_permissions checks else Verdict (Plain (PBool false))
  | raised :: _ => raised
  end.

Fixpoint any_permission (checks : list checked) : checked :=
  match checks with
  | [] => Verdict (Plain (PBool false))
  | Verdict v :: checks => if passes v then Verdict (Plain (PBool true)) else any_permission checks
  | raised :: _ => raised
  end.

(** [authorize_field]: the check, then the resolver. *)
Definition authorize_field {A} (check : checked) (error_message : option string) (field_name : string)
    (resolver : A) : A + option refusal :=
  match check with
  | Verdict v =>
      match _enforce_field_decision v error_message field_name with
      | None => inl resolver
      | Some r => inr (Some r)
      end
  | Error r => inr (Some r)
  | Exception => inr None
  end.

(** ** Questions put to the authorizer *)

(** What the caller gets: the resolver runs, under a decision, or an error. *)
Inductive outcome := Served (d : AuthorizationDecision) | Stopped (r : option refusal).

Section questions.
Context {principal : Type} `{EqDecision principal}.
Context {request_context : Type} (principal_key : request_context → option principal).
Context (sha256 : string → string) (config : AuthorizationCacheConfig).

(** [gate_field_resolver]: the authorizer's verdict on the field, then the resolver;
    [field_name] is the name the error message quotes. *)
Definition gate_field_resolver {A} (e : call (request_context := request_context)) (field_name : string)
    (resolver : A) (c : option (entries (principal := principal))) : (A + option refusal) * option entries :=
  let '(check, c) := _authorize_field_value principal_key sha256 config e c in
  (authorize_field check None field_name resolver, c).

(** [enforce_selected_field_authorization]: the fields selected on a path that runs no
    resolver, in the order found; the first refusal is raised. *)
Fixpoint enforce_selected_field_authorization (selected : list (call (request_context := request_context)))
    (c : option (entries (principal := principal))) : option (option refusal) * option entries :=
  match selected with
  | [] => (None, c)
  | e :: selected =>
      match gate_field_resolver e (operation_name e) tt c with
      | (inl _, c) => enforce_selected_field_authorization selected c
      | (inr r, c) => (Some r, c)
      end
  end.

(** The operations and the fields of a program's requests ask the same cache. *)
Inductive ask :=
| Operation (e : call (request_context := request_context))
| Field (e : call (request_context := request_context)) (field_name : string).

Definition call_of (r : ask) : call := match r with Operation e | Field e _ => e end.

Definition answered (r : ask) (c : option (entries (principal := principal))) : outcome * option entries :=
  match r with
  | Operation e =>
      match enforce_operation_value principal_key sha256 config e c with
      | (Allowed d, c) => (Served d, c)
      | (Refused r, c) => (Stopped (Some r), c)
      end
  | Field e field_name =>
      match gate_field_resolver e field_name (allow None) c with
      | (inl d, c) => (Served d, c)
      | (inr r, c) => (Stopped r, c)
      end
  end.

Definition after (c : option entries) (l : list ask) : option entries :=
  foldl (λ c r, (answered r c).2) c l.
End questions.

(** ** The repository's context, shared by the root fields of a request *)

(** The resolver of a root field writes its name when it starts, and the filters of its
    decision once authorization allowed it; its reads come after. *)
Inductive event :=
| Starts (field : string)
| Decided (field : string) (d : AuthorizationDecision).

(** [_write_auth_filters_to_context] *)
Definition _write_auth_filters_to_context (field : string) (d : AuthorizationDecision) (c : context) : context :=
  match row_filters d with
  | Some ((_ :: _) as fs) =>
      {| _fraiseql_auth_filters := dict_set field fs (_fraiseql_auth_filters c);
         graphql_field_name := graphql_field_name c |}
  | _ => c
  end.

Definition happens (c : context) (e : event) : context :=
  match e with
  | Starts f => {| _fraiseql_auth_filters := _fraiseql_auth_filters c; graphql_field_name := Some f |}
  | Decided f d => _write_auth_filters_to_context f d c
  end.

Definition run (c : context) (l : list event) : context := foldl happens c l.
