(* ===== verification/AuthorizationLaws.v ===== *)
(** * Laws of authorization

    What the cache of decisions may answer with, and what reaches the statements a root
    field reads with. *)
From stdpp Require Import base decidable strings list sets.
From Stdlib Require Import ZArith Lia Ascii.
From S2P Require Import Prelude PyVal Sql Reading FieldCondition WhereClause Views Normalize FindQuery FindLaws UnionLaws Authorization.

Local Open Scope py_scope.
Local Open Scope Z_scope.

Section cache_laws.
Context {principal : Type} `{EqDecision principal}.
Context {request_context : Type} (principal_key : request_context → option principal).
Context (sha256 : string → string) (config : AuthorizationCacheConfig).

Abbreviation call := (call (request_context := request_context)).
Abbreviation ask := (ask (request_context := request_context)).
Abbreviation entries := (entries (principal := principal)).
Abbreviation answered := (answered principal_key sha256 config).
Abbreviation after := (after principal_key sha256 config).
Abbreviation key_of := (key_of principal_key sha256).

(** ** One question *)

(** What is kept of an answer: the decision of a clean return; for a field, the refusal of
    an authorizer that raised as well. *)
Definition field_decision (v : verdict) : AuthorizationDecision :=
  match v with
  | Decision d => d
  | Plain v => if Py.truthy v then allow None else deny _DEFAULT_FIELD_CODE None
  end.

Definition decided (r : ask) : option AuthorizationDecision :=
  match r, authorizer (call_of r) with
  | Operation _, Some (Returns v) => Some (normalize_decision v)
  | Field e _, Some (Returns v) =>
      Some (if awaitable e then field_decision v else deny _DEFAULT_FIELD_CODE None)
  | Field _ _, Some Raises => Some (deny _DEFAULT_FIELD_CODE None)
  | _, _ => None
  end.

(** The answer without a cache. *)
Definition uncached (r : ask) : outcome := (answered r None).1.

(** What a decision comes to for the one who asked. *)
Definition delivered (r : ask) (d : AuthorizationDecision) : outcome :=
  match r with
  | Operation _ => match _raise_on_deny d with Allowed d => Served d | Refused r => Stopped (Some r) end
  | Field _ name =>
      match authorize_field (Verdict (Decision d)) None name (allow None) with
      | inl d => Served d
      | inr r => Stopped r
      end
  end.

Lemma lookup_key_elem k v (c : entries) : lookup_key k c = Some v → (k, v) ∈ c.
Proof using Type.
  induction c as [|[k' v'] c IH]; [done|]. cbn. case_decide as Hk; intros E.
  - injection E as ->. subst. by left.
  - right. by apply IH.
Qed.

Lemma without_key_elem k x (c : entries) : x ∈ without_key k c → x ∈ c ∧ x.1 ≠ k.
Proof using Type.
  intros Hx%list_elem_of_In. apply List.filter_In in Hx as [Hin Hk]. split; [by apply list_elem_of_In|].
  by apply negb_true_iff, bool_decide_eq_false in Hk.
Qed.

(** Eviction keeps an end of the list. *)
Lemma evict_suffix (c c' : entries) : evict config c = Ok c' → ∃ l, c = l ++ c'.
Proof using Type.
  revert c'. induction c as [|x c IH]; intros c'; cbn [evict].
  - case_match; [done|]. intros [= <-]. by exists [].
  - case_match; [|intros [= <-]; by exists []]. intros (l & ->)%IH. by exists (x :: l).
Qed.

Lemma got_elem now k (c c' : entries) d x : get now k c = (d, c') → x ∈ c' → x ∈ c.
Proof using Type.
  unfold get. destruct (lookup_key k c) as [[exp d']|] eqn:E; [|by intros [= _ <-]].
  apply lookup_key_elem in E. case_match; intros [= _ <-].
  - intros Hx. by apply without_key_elem in Hx as [Hx _].
  - intros [Hx|Hx%list_elem_of_singleton]%elem_of_app; [by apply without_key_elem in Hx as [Hx _]|by subst].
Qed.

Lemma get_Some now k (c c' : entries) d :
  get now k c = (Some d, c') → ∃ expires_at, (k, (expires_at, d)) ∈ c ∧ now < expires_at.
Proof using Type.
  unfold get. destruct (lookup_key k c) as [[exp d']|] eqn:E; [|done]. case_match eqn:Hle; [done|].
  intros [= -> _]. exists exp. split; [by apply lookup_key_elem|lia].
Qed.

Lemma put_elem now k d (c c' : entries) ok x :
  put config now k d c = (c', ok) → x ∈ c' → x ∈ c ∨ x = (k, (now + ttl_seconds config, d)).
Proof using Type.
  unfold put. destruct (evict config _) as [c''|] eqn:E; intros [= <- _]; [|by intros ?%elem_of_nil].
  apply evict_suffix in E as [l E]. intros Hx.
  assert (x ∈ l ++ c'') as Hx' by (apply elem_of_app; by right). rewrite <- E in Hx'.
  apply elem_of_app in Hx' as [Hx'|Hx'%list_elem_of_singleton]; [left|by right].
  by apply without_key_elem in Hx' as [Hx' _].
Qed.

(** ** Every answer, by cases *)

(** When the cache refuses the decision, an operation is denied and a field raises. *)
Definition not_kept (r : ask) : outcome :=
  match r with Operation _ => delivered r (deny DEFAULT_DENY_CODE None) | Field _ _ => Stopped None end.

(** Runs the branches of an answer. *)
Ltac outcomes :=
  repeat (cbn; match goal with
          | |- context [remember ?a ?b ?c ?d ?e] => destruct (remember a b c d e) as [? []]
          | |- context [_raise_on_deny ?d] => destruct (_raise_on_deny d)
          | |- context [_enforce_field_decision ?a ?b ?c] => destruct (_enforce_field_decision a b c)
          end).

(** A fresh decision is delivered as it is; else the authorizer is asked, and what it
    decides is kept. *)
Lemma answered_eq r c :
  authorizer (call_of r) ≠ None →
  answered r c =
    match cached (call_of r) (key_for principal_key sha256 (call_of r) c) c with
    | (Some d, c) => (delivered r d, c)
    | (None, c') =>
        match decided r with
        | None => (uncached r, c')
        | Some d =>
            let '(c'', ok) := remember config (call_of r) (key_for principal_key sha256 (call_of r) c) d c' in
            (if ok : bool then uncached r else not_kept r, c'')
        end
    end.
Proof using Type.
  unfold uncached, decided. destruct r as [e|e name]; cbn [call_of]; intros Ha;
    unfold Authorization.answered, enforce_operation_value, gate_field_resolver, _authorize_field_value;
    (destruct (authorizer e) as [raw|]; [|done]);
    destruct (cached e (key_for principal_key sha256 e c) c) as [[d|] c']; unfold delivered, not_kept, field_decision;
    try destruct raw as [v|g|];
    cbn [field_authorizer_adapter remember key_for]; try destruct (awaitable e); by outcomes.
Qed.

Lemma answered_free r c : authorizer (call_of r) = None → answered r c = (Served (allow None), c).
Proof using Type.
  destruct r as [e|e name]; cbn [call_of]; intros Ha;
    unfold Authorization.answered, enforce_operation_value, gate_field_resolver, _authorize_field_value; by rewrite Ha.
Qed.

(** What is kept is what was answered. *)
Lemma uncached_decided r d : decided r = Some d → uncached r = delivered r d.
Proof using Type.
  unfold uncached, decided. destruct r as [e|e name]; cbn [call_of];
    unfold Authorization.answered, enforce_operation_value, gate_field_resolver, _authorize_field_value;
    (destruct (authorizer e) as [[v|g|]|]; try done); intros [= <-]; unfold delivered, field_decision; cbn [field_authorizer_adapter];
    try destruct (awaitable e); by outcomes.
Qed.

(** Who is served under a decision, and which. *)
Lemma delivered_served r d d' : delivered r d = Served d' → allowed d = true ∧ (∀ e, r = Operation e → d' = d).
Proof using Type.
  destruct r as [e|e name]; cbn.
  - unfold _raise_on_deny. destruct (allowed d) eqn:E; [|done]. intros [= <-]. by split.
  - unfold _enforce_field_decision. cbn. destruct (allowed d) eqn:E; [|done]. by split.
Qed.

(** ** What the cache holds *)

(** An entry is what an earlier question decided, until its time to live is over. *)
Definition entry_of (r : ask) (x : key (principal := principal) * (Z * AuthorizationDecision)) : Prop :=
  key_of (call_of r) = Some x.1 ∧ decided r = Some x.2.2 ∧ x.2.1 = later (call_of r) + ttl_seconds config.

Lemma key_for_Some e (c : option entries) k : key_for principal_key sha256 e c = Some k → key_of e = Some k.
Proof using Type. by destruct c. Qed.

Lemma answered_elem r c es x :
  (answered r c).2 = Some es → x ∈ es → ∃ es0, c = Some es0 ∧ (x ∈ es0 ∨ entry_of r x).
Proof using Type.
  destruct (decide (authorizer (call_of r) = None)) as [Hf|Ha].
  { rewrite answered_free by done. cbn. intros -> Hx. eauto. }
  rewrite answered_eq by done. destruct (key_for _ _ _ c) as [k|] eqn:Hk; cbn [cached remember].
  2: { destruct (decided r); cbn; intros -> Hx; eauto. }
  apply key_for_Some in Hk. destruct c as [es0|]; [|by destruct (decided r)]. cbn [cached remember].
  destruct (get _ k es0) as [[d|] es1] eqn:Eg.
  { cbn. intros [= <-] Hx. exists es0. split; [done|]. left. by eapply got_elem. }
  destruct (decided r) as [d|] eqn:Ed; cbn.
  - destruct (put config _ k d es1) as [es2 ok] eqn:Ep. cbn. intros [= <-] Hx. exists es0. split; [done|].
    destruct (put_elem _ _ _ _ _ _ _ Ep Hx) as [Hx1| ->]; [left; by eapply got_elem|by right].
  - intros [= <-] Hx. exists es0. split; [done|]. left. by eapply got_elem.
Qed.

Lemma after_elem l es x : after (Some []) l = Some es → x ∈ es → ∃ r, r ∈ l ∧ entry_of r x.
Proof using Type.
  revert es. induction l as [|r l IH] using rev_ind; intros es.
  - intros [= <-] []%elem_of_nil.
  - unfold Authorization.after. rewrite foldl_app. cbn. intros E Hx.
    destruct (answered_elem _ _ _ _ E Hx) as (es0 & E0 & [Hx0|Hr]).
    + destruct (IH _ E0 Hx0) as (r' & Hin & Hr'). exists r'. split; [set_solver|done].
    + exists r. split; [set_solver|done].
Qed.

(** A hit delivers what an earlier question with the same key decided, while it is fresh. *)
Lemma hit_inv l r c d c' :
  c = after (Some []) l → cached (call_of r) (key_for principal_key sha256 (call_of r) c) c = (Some d, c') →
  ∃ r' k, r' ∈ l ∧ key_of (call_of r) = Some k ∧ key_of (call_of r') = Some k ∧ decided r' = Some d ∧
    now (call_of r) < later (call_of r') + ttl_seconds config.
Proof using Type.
  intros Hc. destruct (key_for _ _ _ c) as [k|] eqn:Hk; [|done]. apply key_for_Some in Hk.
  destruct c as [es|]; [|done]. cbn [cached]. destruct (get _ k es) as [o es'] eqn:Eg. intros [= -> <-].
  apply get_Some in Eg as (exp & Hin & Hnow). symmetry in Hc.
  destruct (after_elem _ _ _ Hc Hin) as (r' & Hr' & Hk' & Hd & Hexp). cbn in *. subst exp. eauto 10.
Qed.

(** *** Its size *)

Definition sized (es : entries) : Prop := NoDup es.*1 ∧ Z.of_nat (length es) ≤ Z.max 0 (max_entries config).

Lemma without_key_NoDup k (es : entries) : NoDup es.*1 → NoDup (without_key k es).*1.
Proof using Type.
  induction es as [|x es IH]; [done|]. cbn. intros [Hx Hes]%NoDup_cons. destruct (negb _); [|by apply IH].
  cbn. apply NoDup_cons. split; [|by apply IH].
  intros (y & Hy & [Hin _]%without_key_elem)%list_elem_of_fmap. apply Hx. rewrite Hy. by apply list_elem_of_fmap_2.
Qed.

Lemma without_key_length k (es : entries) : (length (without_key k es) ≤ length es)%nat.
Proof using Type. apply List.filter_length_le. Qed.

Lemma without_key_lt k v (es : entries) : (k, v) ∈ es → (length (without_key k es) < length es)%nat.
Proof using Type.
  induction es as [|x es IH]; [by intros ?%elem_of_nil|]. intros [<-|Hx]%elem_of_cons.
  - cbn. rewrite bool_decide_eq_true_2 by done. cbn. pose proof (without_key_length k es) as Hl. unfold without_key in Hl. lia.
  - cbn. specialize (IH Hx). unfold without_key in IH. destruct (negb _); cbn; lia.
Qed.

Lemma moved_NoDup k v (es : entries) : NoDup es.*1 → NoDup (without_key k es ++ [(k, v)]).*1.
Proof using Type.
  intros Hes. rewrite fmap_app. apply NoDup_app. split; [by apply without_key_NoDup|]. split; [|apply NoDup_singleton].
  intros k' (y & -> & [_ Hy]%without_key_elem)%list_elem_of_fmap Hk%list_elem_of_singleton. done.
Qed.

Lemma evict_length (es es' : entries) : evict config es = Ok es' → Z.of_nat (length es') ≤ Z.max 0 (max_entries config).
Proof using Type.
  induction es as [|x es IH]; cbn [evict]; case_match; [done| |done|]; intros [= <-]; [cbn; lia|lia].
Qed.

Lemma evict_Ok (es : entries) : 0 ≤ max_entries config → ∃ es', evict config es = Ok es'.
Proof using Type. intros Hm. induction es as [|x es IH]; cbn [evict]; case_match; eauto. lia. Qed.

Lemma get_sized t k (es es' : entries) d : get t k es = (d, es') → sized es → sized es'.
Proof using Type.
  unfold get. destruct (lookup_key k es) as [[exp d']|] eqn:E; [|by intros [= _ <-]]. apply lookup_key_elem in E.
  intros Hg [Hn Hl]. revert Hg. case_match; intros [= _ <-].
  - split; [by apply without_key_NoDup|]. pose proof (without_key_length k es). lia.
  - split; [by apply moved_NoDup|]. rewrite length_app. cbn. pose proof (without_key_lt _ _ _ E). lia.
Qed.

Lemma put_sized t k d (es es' : entries) ok : put config t k d es = (es', ok) → sized es → sized es'.
Proof using Type.
  unfold put. destruct (evict config _) as [es''|] eqn:E; intros [= <- _] [Hn _].
  - split; [|by eapply evict_length]. apply evict_suffix in E as [l E].
    apply (moved_NoDup k (t + ttl_seconds config, d)) in Hn. rewrite E, fmap_app in Hn. by apply NoDup_app in Hn as (_ & _ & Hn).
  - split; [apply NoDup_nil_2|]. cbn. lia.
Qed.

Lemma answered_sized r es : sized es → ∃ es', (answered r (Some es)).2 = Some es' ∧ sized es'.
Proof using Type.
  intros Hs. destruct (decide (authorizer (call_of r) = None)) as [Hf|Ha].
  { rewrite answered_free by done. eauto. }
  rewrite answered_eq by done. cbn [key_for]. destruct (Authorization.key_of _ _ _) as [k|]; cbn [cached remember].
  2: { destruct (decided r); eauto. }
  destruct (get _ k es) as [o es1] eqn:Eg. pose proof (get_sized _ _ _ _ _ Eg Hs) as Hs1.
  destruct o; [eauto|]. destruct (decided r) as [d|]; [|eauto].
  destruct (put config _ k d es1) as [es2 ok] eqn:Ep. cbn. eauto using put_sized.
Qed.

(** The cache holds one entry a key, and no more than it may. *)
Theorem cache_stays_within_its_bound l : ∃ es, after (Some []) l = Some es ∧ sized es.
Proof using Type.
  induction l as [|r l (es & E & Hs)] using rev_ind.
  - exists []. split; [done|]. split; [apply NoDup_nil_2|]. cbn. lia.
  - unfold Authorization.after. rewrite foldl_app. cbn. unfold Authorization.after in E. rewrite E. by apply answered_sized.
Qed.

Lemma remember_ok (e : call) k d (c : option entries) : 0 ≤ max_entries config → (remember config e k d c).2 = true.
Proof using Type.
  intros Hm. destruct k as [k|], c as [es|]; try done. cbn. unfold put.
  destruct (evict_Ok (without_key k es ++ [(k, (later e + ttl_seconds config, d))]) Hm) as [es' ->]. done.
Qed.

(** ** Who is served *)

(** The authorizer, asked the question, answered with an allowing decision. *)
Definition grants (r : ask) (d : AuthorizationDecision) : Prop :=
  allowed d = true ∧ ∃ v, authorizer (call_of r) = Some (Returns v) ∧ normalize_decision v = d.

Lemma decided_grants r d : decided r = Some d → allowed d = true → grants r d.
Proof using Type.
  intros Hd Ha. split; [done|]. revert Hd Ha. unfold decided.
  destruct r as [e|e name]; cbn [call_of]; destruct (authorizer e) as [[v|g|]|]; try done; intros [= <-] Ha; try done;
    exists v; (split; [done|]); [done|]. destruct (awaitable e); [|done]. destruct v as [v|]; [|done]. cbn in *. by destruct (Py.truthy v).
Qed.

Lemma uncached_served r d : authorizer (call_of r) ≠ None → uncached r = Served d → ∃ d', decided r = Some d'.
Proof using Type.
  unfold uncached, decided. destruct r as [e|e name]; cbn [call_of]; intros Ha;
    unfold Authorization.answered, enforce_operation_value, gate_field_resolver, _authorize_field_value;
    destruct (authorizer e) as [[v|g|]|]; try done; eauto.
Qed.

Lemma delivered_grants r r' d d' :
  decided r' = Some d' → delivered r d' = Served d → grants r' d' ∧ ∀ e, r = Operation e → d = d'.
Proof using Type. intros Hd [Ha Ho]%delivered_served. eauto using decided_grants. Qed.

(** Whoever is served behind a cache of decisions is served because no authorizer is
    configured, or because the authorizer allowed this very question, or allowed one with
    the same key before and the decision has not outlived its time: no refusal, exception
    or other answer of the authorizer, and no state of the cache, lets anyone through.  An
    operation goes on with that decision, row filters included. *)
Theorem served_by_a_decision l r d :
  (answered r (after (Some []) l)).1 = Served d →
  authorizer (call_of r) = None ∨
  ∃ r' d', grants r' d' ∧ (∀ e, r = Operation e → d = d') ∧
    (r' = r ∨ ∃ k, r' ∈ l ∧ key_of (call_of r) = Some k ∧ key_of (call_of r') = Some k ∧
       now (call_of r) < later (call_of r') + ttl_seconds config).
Proof using Type.
  destruct (decide (authorizer (call_of r) = None)) as [Hf|Ha]; [by left|]. intros Hs. right. revert Hs.
  rewrite answered_eq by done. destruct (cached _ _ _) as [[d1|] c'] eqn:Ec.
  - apply (hit_inv l) in Ec as (r' & k & Hin & Hk & Hk' & Hd & Hn); [|done]. cbn. intros Hs.
    destruct (delivered_grants _ _ _ _ Hd Hs). exists r', d1. eauto 10.
  - assert (uncached r = Served d → ∃ r' d', grants r' d' ∧ (∀ e, r = Operation e → d = d') ∧ r' = r) as Hu.
    { intros Hu. destruct (uncached_served _ _ Ha Hu) as [d' Hd]. rewrite (uncached_decided _ _ Hd) in Hu.
      destruct (delivered_grants _ _ _ _ Hd Hu). eauto 10. }
    destruct (decided r) as [d1|] eqn:Ed; cbn; [|intros Hs%Hu; naive_solver].
    destruct (remember _ _ _ _ _) as [c'' []]; cbn; [intros Hs%Hu; naive_solver|].
    destruct r as [e|e name]; cbn; [|done]. by intros.
Qed.

(** ** A policy of the key *)

(** The contract of the cache: the authorizer's answer is a function of the principal, the
    operation and the canonical text of its arguments; [field] is the type of questions
    about fields. *)
Definition obeys (coroutine : bool) (policy : principal → string → string → string → answer) (r : ask) : Prop :=
  awaitable (call_of r) = coroutine ∧
  (operation_type (call_of r) = "field" ↔ ∃ e name, r = Field e name) ∧
  ∀ p text, authorizer (call_of r) ≠ None → principal_key (request (call_of r)) = Some p →
    json_text (PDict (arguments (call_of r))) = Ok text →
    authorizer (call_of r) = Some (policy p (operation_type (call_of r)) (operation_name (call_of r)) text).

(** No two texts hashed have the same SHA-256. *)
Definition collision_free (rs : list ask) : Prop :=
  ∀ r r' t t', r ∈ rs → r' ∈ rs → json_text (PDict (arguments (call_of r))) = Ok t →
    json_text (PDict (arguments (call_of r'))) = Ok t' → sha256 t = sha256 t' → t = t'.

Lemma key_of_Some (e : call) k :
  key_of e = Some k → ∃ p t, principal_key (request e) = Some p ∧ json_text (PDict (arguments e)) = Ok t ∧
    k = (p, operation_type e, operation_name e, sha256 t).
Proof using Type.
  unfold Authorization.key_of, make_key, _stable_arguments_hash. destruct (principal_key _) as [p|]; [|done].
  destruct (json_text _) as [t|]; [|done]. intros [= <-]. eauto.
Qed.

Lemma decided_Some_authorizer r d : decided r = Some d → authorizer (call_of r) ≠ None.
Proof using Type. unfold decided. destruct r, (authorizer _); done. Qed.

Lemma same_key_decides coroutine policy rs r r' k d :
  Forall (obeys coroutine policy) rs → collision_free rs → r ∈ rs → r' ∈ rs → authorizer (call_of r) ≠ None →
  key_of (call_of r) = Some k → key_of (call_of r') = Some k → decided r' = Some d → decided r = Some d.
Proof using Type.
  intros Hob Hcf Hr Hr' Ha Hk Hk' Hd. pose proof (decided_Some_authorizer _ _ Hd) as Ha'.
  apply key_of_Some in Hk as (p & t & Hp & Ht & ->). apply key_of_Some in Hk' as (p' & t' & Hp' & Ht' & [= <- Hty Hna Hh]).
  pose proof (Hcf _ _ _ _ Hr Hr' Ht Ht' Hh) as <-.
  destruct (proj1 (Forall_forall _ _) Hob _ Hr) as (Haw & Hf & Hpol), (proj1 (Forall_forall _ _) Hob _ Hr') as (Haw' & Hf' & Hpol').
  specialize (Hpol _ _ Ha Hp Ht). specialize (Hpol' _ _ Ha' Hp' Ht'). rewrite <- Hty, <- Hna, <- Hpol in Hpol'.
  destruct r as [e|e name], r' as [e'|e' name']; cbn [call_of] in *.
  - rewrite <- Hd. unfold decided. cbn [call_of]. by rewrite Hpol', ?Haw, ?Haw'.
  - exfalso. destruct (proj1 Hf) as (? & ? & ?); [|done]. rewrite Hty. apply Hf'. eauto.
  - exfalso. destruct (proj1 Hf') as (? & ? & ?); [|done]. rewrite <- Hty. apply Hf. eauto.
  - rewrite <- Hd. unfold decided. cbn [call_of]. by rewrite Hpol', ?Haw, ?Haw'.
Qed.

(** C33. Under the contract it states, the cache is unseen: after any history of questions,
    of operations and of fields, that the authorizer answers as a function of the key,
    every question is answered (decision, refusal, code and message) as if the authorizer
    were asked each time, as long as the hash of the arguments has no collision. *)
Theorem cached_answers_are_the_authorizers coroutine policy l r :
  Forall (obeys coroutine policy) (r :: l) → collision_free (r :: l) → 0 ≤ max_entries config →
  (answered r (after (Some []) l)).1 = uncached r.
Proof using Type.
  intros Hob Hcf Hm. destruct (decide (authorizer (call_of r) = None)) as [Hf|Ha].
  { unfold uncached. by rewrite !answered_free. }
  rewrite answered_eq by done. destruct (cached _ _ _) as [[d|] c'] eqn:Ec.
  - apply (hit_inv l) in Ec as (r' & k & Hin & Hk & Hk' & Hd & _); [|done]. cbn. symmetry. apply uncached_decided.
    eapply (same_key_decides coroutine policy (r :: l)); eauto; set_solver.
  - destruct (decided r) as [d|]; [|done].
    destruct (remember _ _ _ _ _) as [c'' ok] eqn:Er. pose proof (remember_ok (call_of r)
      (key_for principal_key sha256 (call_of r) (after (Some []) l)) d c' Hm) as Hok. rewrite Er in Hok. cbn in Hok. by subst.
Qed.
End cache_laws.

(** ** The rows a root field reads *)

Lemma happens_bucket f c e :
  match e with Decided g _ => g ≠ f | Starts _ => True end →
  dict_get f (_fraiseql_auth_filters (happens c e)) = dict_get f (_fraiseql_auth_filters c).
Proof.
  destruct e as [g|g d]; [done|]. cbn. unfold _write_auth_filters_to_context. intros Hg.
  destruct (row_filters d) as [[|kv fs]|]; try done. cbn [_fraiseql_auth_filters]. by rewrite dict_get_set_ne.
Qed.

Lemma happens_field c e : match e with Starts _ => False | Decided _ _ => True end →
  graphql_field_name (happens c e) = graphql_field_name c.
Proof. destruct e as [g|g d]; [done|]. intros _. cbn. unfold _write_auth_filters_to_context. by case_match; [case_match|]. Qed.

(** No root field starts. *)
Definition nothing_starts (l : list event) : Prop :=
  Forall (λ e, match e with Starts _ => False | Decided _ _ => True end) l.

(** [f] is not decided again. *)
Definition not_decided (f : string) (l : list event) : Prop :=
  Forall (λ e, match e with Decided g _ => g ≠ f | Starts _ => True end) l.

Lemma run_field c l : nothing_starts l → graphql_field_name (run c l) = graphql_field_name c.
Proof.
  revert c. induction l as [|e l IH]; intros c Hl; [done|]. apply Forall_cons_1 in Hl as [He Hl].
  change (graphql_field_name (run (happens c e) l) = graphql_field_name c). rewrite IH by done. by apply happens_field.
Qed.

Lemma run_bucket f c l :
  not_decided f l → dict_get f (_fraiseql_auth_filters (run c l)) = dict_get f (_fraiseql_auth_filters c).
Proof.
  revert c. induction l as [|e l IH]; intros c Hl; [done|]. apply Forall_cons_1 in Hl as [He Hl].
  change (dict_get f (_fraiseql_auth_filters (run (happens c e) l)) = dict_get f (_fraiseql_auth_filters c)).
  rewrite IH by done. by apply happens_bucket.
Qed.

Lemma run_app c l l' : run c (l ++ l') = run (run c l) l'.
Proof. apply foldl_app. Qed.

(** What a root field that nothing interrupts finds. *)
Lemma decided_filters c before mid rest f d fs :
  row_filters d = Some fs → fs ≠ [] → nothing_starts mid → nothing_starts rest → not_decided f rest →
  auth_filters (run c (before ++ Starts f :: mid ++ Decided f d :: rest)) = fs.
Proof.
  intros Hd Hfs Hm Hr Hn. rewrite run_app. cbn [run foldl]. change (foldl happens ?a ?l) with (run a l).
  rewrite run_app. cbn [run foldl]. change (foldl happens ?a ?l) with (run a l).
  unfold auth_filters. rewrite run_field, happens_field, run_field by done. cbn [graphql_field_name happens].
  rewrite run_bucket by done. unfold _write_auth_filters_to_context. rewrite Hd. destruct fs as [|kv fs]; [done|].
  cbn [_fraiseql_auth_filters]. by rewrite dict_get_set_eq.
Qed.


(** ** A program of two principals *)

Definition example_config : AuthorizationCacheConfig := {| ttl_seconds := 5; max_entries := 2 |}.

Definition asked (who : string) (v : verdict) (t : Z) : call (request_context := string) :=
  {| request := who; operation_type := "query"; operation_name := "users"; arguments := [("limit", PInt 10)];
     authorizer := Some (Returns v); awaitable := true; now := t; later := t + 1 |}.

Definition own_rows : AuthorizationDecision := allow (Some [("tenant_id", PUUID "t")]).

(** Revoked after her first request, alice is served for the rest of the five seconds. *)
Lemma served_by_a_decision_witness :
  let r := Operation (asked "alice" (Plain (PBool false)) 3) in
  let l := [Operation (asked "alice" (Decision own_rows) 0)] in
  (answered Some (λ t, t) example_config r (after Some (λ t, t) example_config (Some []) l)).1 = Served own_rows ∧
  (authorizer (call_of r) = None ∨
   ∃ r' d', grants r' d' ∧ (∀ e, r = Operation e → own_rows = d') ∧
     (r' = r ∨ ∃ k, r' ∈ l ∧ key_of Some (λ t, t) (call_of r) = Some k ∧ key_of Some (λ t, t) (call_of r') = Some k ∧
        now (call_of r) < later (call_of r') + ttl_seconds example_config)).
Proof.
  split; [vm_compute; reflexivity|].
  apply (served_by_a_decision (principal := string) Some (λ t, t) example_config). vm_compute. reflexivity.
Defined.

(** With the time over, the revocation takes effect. *)
Example revoked_once_the_time_is_over :
  (answered Some (λ t, t) example_config (Operation (asked "alice" (Plain (PBool false)) 6))
     (after Some (λ t, t) example_config (Some []) [Operation (asked "alice" (Decision own_rows) 0)])).1
  = Stopped (Some {| reason := DEFAULT_DENY_MESSAGE; reason_code := Some DEFAULT_DENY_CODE |}).
Proof. vm_compute. reflexivity. Qed.

Definition alice_only (p kind name text : string) : answer := Returns (Plain (PBool (p =s "alice"))).

Lemma cached_answers_are_the_authorizers_witness :
  let l := [Operation (asked "alice" (Plain (PBool true)) 0); Operation (asked "bob" (Plain (PBool false)) 1)] in
  let r := Operation (asked "bob" (Plain (PBool false)) 3) in
  (answered Some (λ t, t) example_config r (after Some (λ t, t) example_config (Some []) l)).1
  = uncached Some (λ t, t) example_config r.
Proof.
  apply (cached_answers_are_the_authorizers (principal := string) Some (λ t, t) example_config true alice_only).
  - assert (∀ who v t, alice_only who "query" "users" EmptyString = Returns v →
      obeys Some true alice_only (Operation (asked who v t))) as Ho.
    { intros who v t E. split; [reflexivity|]. split; [split; [discriminate|intros (? & ? & ?); discriminate]|].
      intros p text _ [= <-] _. by injection E as <-. }
    repeat constructor; by apply Ho.
  - intros r r' t t' _ _ _ _. exact id.
  - cbn. lia.
Defined.

Definition rows_q : statement :=
  (Composed [SQL ("SELECT COUNT(" +:+ "*" +:+ ") FROM ")%stdpp; Identifier "tv_allocation"; SQL " WHERE ";
             Join " AND " [mandatory_part "tenant_id"]], [PUUID "t"]).


(** ** What the code does beside its documents *)

(** Root fields share the repository's context and write their names before authorization
    is awaited: two resolvers, the second starting while the first waits, leave the second
    one's name, and the first reads without the filters of its decision. *)
Example interleaved_root_fields_lose_their_filters :
  let c := run {| _fraiseql_auth_filters := []; graphql_field_name := None |} in
  let read l := count shop (c l) (λ _, {| shape_columns := None; shape_jsonb := None |}) "tv_allocation"
                  {| read_where := NoWhere; read_filters := []; read_unexpected := [] |} in
  let all := Composed [SQL ("SELECT COUNT(" +:+ "*" +:+ ") FROM ")%stdpp; Identifier "tv_allocation"] in
  read [Starts "allocations"; Decided "allocations" own_rows; Starts "orders"; Decided "orders" (allow None)]
  = Ok (all, []) ∧
  read [Starts "allocations"; Starts "orders"; Decided "allocations" own_rows] = Ok (all, []) ∧
  read [Starts "orders"; Starts "allocations"; Decided "allocations" own_rows] = Ok rows_q.
Proof. repeat split; vm_compute; reflexivity. Qed.

(** A decision is an object, so a check that answers with a denying one passes where checks
    are combined; alone it is refused. *)
Example combined_checks_ignore_a_deny :
  let denying := Verdict (Decision (deny "FORBIDDEN" None)) in
  authorize_field (combine_permissions [denying; Verdict (Plain (PBool true))]) None "salary" 1 = inl 1 ∧
  authorize_field (any_permission [denying]) None "salary" 1 = inl 1 ∧
  authorize_field denying None "salary" 1
  = inr (Some {| reason := "Not authorized to access field 'salary'"; reason_code := Some "FORBIDDEN" |}).
Proof. repeat split; vm_compute; reflexivity. Qed.

(** The refusal of a field whose authorizer raised is kept, and answers the next request
    though the authorizer would allow it. *)
Example a_raising_field_authorizer_is_remembered :
  let e a t := {| request := "alice"; operation_type := "field"; operation_name := "User.salary"; arguments := [];
                  authorizer := Some a; awaitable := true; now := t; later := t + 1 |} in
  let l := [Field (e Raises 0) "salary"] in
  let r := Field (e (Returns (Plain (PBool true))) 3) "salary" in
  (answered Some (λ t, t) example_config r (after Some (λ t, t) example_config (Some []) l)).1
  = Stopped (Some {| reason := "Not authorized to access field 'salary'"; reason_code := Some _DEFAULT_FIELD_CODE |}) ∧
  uncached Some (λ t, t) example_config r = Served (allow None).
Proof. split; vm_compute; reflexivity. Qed.

(** An authorizer that is not a coroutine decides operations, and denies every field. *)
Example a_plain_authorizer_denies_every_field :
  let e kind := {| request := "alice"; operation_type := kind; operation_name := "User.salary"; arguments := [];
                   authorizer := Some (Returns (Plain (PBool true))); awaitable := false; now := 0; later := 1 |} in
  uncached Some (λ t, t) example_config (Operation (e "query")) = Served (allow None) ∧
  uncached Some (λ t, t) example_config (Field (e "field") "salary")
  = Stopped (Some {| reason := "Not authorized to access field 'salary'"; reason_code := Some _DEFAULT_FIELD_CODE |}).
Proof. split; vm_compute; reflexivity. Qed.
