(* ===== verification/InputLaws.v ===== *)
(** * Laws of input objects

    What a schema-conforming value becomes, when it is refused, and what the payload of a
    mutation holds. *)
From stdpp Require Import base decidable strings list sets.
From Stdlib Require Import ZArith Lia Ascii.
From S2P Require Import Prelude PyVal Casing Inputs.

Local Open Scope py_scope.

(** Induction on values, through items, entries and attributes. *)
Section value_induction.
Context (P : value → Prop).
Context (Hnull : P Null) (Hbool : ∀ b, P (Bool b)) (Hint : ∀ z, P (Int z)) (Hfloat : ∀ f, P (Float f))
  (Htext : ∀ s, P (Text s)) (Hdec : ∀ m e, P (Decimal m e)) (Hdate : ∀ s, P (Date s)) (Hdt : ∀ s, P (Datetime s))
  (Huuid : ∀ s, P (UUID s)) (Haddr : ∀ s, P (Address s)) (Hother : ∀ s, P (Other s)) (Hunset : P Unset)
  (Hmember : ∀ e n, P (Member e n)) (Hitems : ∀ l, Forall P l → P (Items l))
  (Hentries : ∀ d : list (string * value), Forall (λ kv, P kv.2) d → P (Entries d))
  (Hinst : ∀ c (a : list (string * value)), Forall (λ kv, P kv.2) a → P (Instance c a)).

Fixpoint value_induction (v : value) : P v :=
  let all := fix all l : Forall P l :=
    match l with
    | [] => List.Forall_nil _
    | x :: l' => List.Forall_cons _ _ _ (value_induction x) (all l')
    end in
  let pairs := fix pairs (d : list (string * value)) : Forall (λ kv, P kv.2) d :=
    match d with
    | [] => List.Forall_nil _
    | kv :: d' => List.Forall_cons _ _ _ (value_induction kv.2) (pairs d')
    end in
  match v with
  | Null => Hnull
  | Bool b => Hbool b
  | Int z => Hint z
  | Float f => Hfloat f
  | Text s => Htext s
  | Decimal m e => Hdec m e
  | Date s => Hdate s
  | Datetime s => Hdt s
  | UUID s => Huuid s
  | Address s => Haddr s
  | Other s => Hother s
  | Unset => Hunset
  | Member e n => Hmember e n
  | Items l => Hitems l (all l)
  | Entries d => Hentries d (pairs d)
  | Instance c a => Hinst c a (pairs a)
  end.
End value_induction.

(** A loop whose every step returns what is wanted, or raises [e] for a reason. *)
Lemma mapR_or_raise {A B} (f : A → result B) (P : A → B → Prop) e (Q : Prop) l :
  Forall (λ x, (∃ y, f x = Ok y ∧ P x y) ∨ (f x = Err e ∧ Q)) l →
  (∃ ys, mapR f l = Ok ys ∧ Forall2 P l ys) ∨ (mapR f l = Err e ∧ Q).
Proof.
  induction 1 as [|x l [(y & Hy & HP)|[Hy HQ]] _ IH]; cbn.
  - left. exists []. split; [done|constructor].
  - rewrite Hy. cbn. destruct IH as [(ys & -> & Hys)|[-> HQ]]; [left|by right].
    exists (y :: ys). split; [done|]. by constructor.
  - rewrite Hy. by right.
Qed.

(** One text more, after a separator. *)
Lemma join_last sep l s : l ≠ [] → Str.join sep (l ++ [s]) = (Str.join sep l +:+ sep +:+ s)%stdpp.
Proof.
  induction l as [|x [|y l] IH]; [done|done|]. intros _.
  change (Str.join sep ((x :: y :: l) ++ [s])) with (x +:+ sep +:+ Str.join sep ((y :: l) ++ [s]))%stdpp.
  rewrite IH by done. change (Str.join sep (x :: y :: l)) with (x +:+ sep +:+ Str.join sep (y :: l))%stdpp.
  by rewrite !app_assoc_str.
Qed.

Section laws.
Context (classes : string → input_class) (enums : string → list (string * value)).
Context (camel_case_fields : bool).

Abbreviation coerce_input := (coerce_input classes enums camel_case_fields).
Abbreviation _coerce_field_value := (_coerce_field_value classes enums camel_case_fields).
Abbreviation find_key := (find_key camel_case_fields).
Abbreviation fields_of c := (collect_fraise_fields (classes c)).
Abbreviation to_dict := (to_dict classes enums).
Abbreviation _serialize_field_value := (_serialize_field_value classes enums).

(** ** The equations of the coercion *)

Lemma as_items_eq raw c :
  match raw with
  | Items l => vs ← mapR (λ v, coerce_input v c) l; Ok (Items vs)
  | _ => Err TypeError
  end = as_items classes enums camel_case_fields raw c.
Proof using Type. by destruct raw. Qed.

(** An object is built field by field from the entries. *)
Lemma coerce_input_eq d c :
  coerce_input (Entries d) c =
    (kwargs ← mapR (λ x, v ← argument camel_case_fields (Entries d)
                             (λ k a, match dict_get k d with Some r => _coerce_field_value r a | None => Err TypeError end)
                             x.1 x.2; Ok (x.1, (x.2.2, v))) (fields_of c);
     construct classes c kwargs).
Proof using Type.
  cbn [Inputs.coerce_input]. f_equal. clear.
  induction (fields_of c) as [|x l IH]; [done|]. cbn [mapR]. rewrite IH. f_equal.
  unfold argument. destruct (Inputs.find_key _ _ _) as [[k|]|]; [|done..]. cbn. f_equal. unfold item. clear.
  induction d as [|[k' r] d IH]; [done|]. cbn [map dict_get fst snd]. destruct (decide _); [|exact IH].
  unfold Inputs._coerce_field_value. f_equal. by destruct r.
Qed.

Lemma coerce_input_instance raw c o : coerce_input raw c = Ok o → ∃ attrs, o = Instance c attrs.
Proof using Type.
  destruct raw; cbn [Inputs.coerce_input]; intros (kwargs & _ & Ho)%bind_Ok; unfold construct in Ho;
    (destruct (existsb _ _); [done|]); apply bind_Ok in Ho as (stored_ & _ & [= <-]); eauto.
Qed.
(** What reads as no object and no list is left, or becomes a member or a text. *)
Lemma coerced_Null raw a : _coerce_field_value raw a = Ok Null → raw = Null.
Proof using Type.
  destruct raw as [ | | | | | | | | | | | | |l|d|c0 at0]; try done; unfold Inputs._coerce_field_value, field_value;
    (destruct (class_of classes a) as [?|]; [by intros (? & ?)%coerce_input_instance|]);
    (destruct (item_class a) as [?|]; [try done; unfold as_items; by intros (? & _ & ?)%bind_Ok|]);
    (destruct (_resolve_enum_type a) as [?|]; [|done]);
    (destruct (is_member _ _); [done|]); unfold _coerce_to_enum;
    (destruct (List.find _ _); [done|]); try done; by destruct (is_some _).
Qed.

Lemma coerced_Text raw a s : _coerce_field_value raw a = Ok (Text s) → raw = Text s ∨ raw = Address s.
Proof using Type.
  destruct raw as [ | | | | | | | | | | | | |l|d|c0 at0]; try done; unfold Inputs._coerce_field_value, field_value;
    (destruct (class_of classes a) as [?|]; [by intros (? & ?)%coerce_input_instance|]);
    (destruct (item_class a) as [?|]; [try done; unfold as_items; by intros (? & _ & ?)%bind_Ok|]);
    (destruct (_resolve_enum_type a) as [?|]; [|try done; intros [= ->]; auto]);
    (destruct (is_member _ _); [try done; intros [= ->]; auto|]); unfold _coerce_to_enum;
    (destruct (List.find _ _); [done|]); try done; by destruct (is_some _).
Qed.

(** ** Types *)

(** The values the program's other types have, and which of them GraphQL reads as IP
    addresses (a resolver gets those as texts). *)
Context (plain : string → value → Prop) (address_type : string → bool).

Definition plain_given (p : string) (v : value) : Prop :=
  match v with
  | Address s => address_type p = true ∧ plain p (Text s)
  | _ => address_type p = false ∧ plain p v
  end.

(** The values of an annotation.  A field that was not sent holds its default, whose type
    is the program's own affair. *)
Inductive inhabits : annotation → value → Prop :=
| none_inhabits : inhabits NoneType Null
| plain_inhabits p v : plain p v → inhabits (Plain p) v
| member_inhabits e n v : (n, v) ∈ enums e → inhabits (EnumClass e) (Member e n)
| items_inhabit a l : Forall (inhabits a) l → inhabits (ListOf a) (Items l)
| one_inhabits l a v : a ∈ l → inhabits a v → inhabits (UnionOf l) v
| instance_inhabits c attrs :
    attrs.*1 = (fields_of c).*1 →
    (∀ x a f v, (x, (a, f)) ∈ fields_of c → dict_get x attrs = Some v →
       default_ f ≠ Some v → default_factory f ≠ Some v → inhabits a v) →
    inhabits (Class c) (Instance c attrs).

(** What the client sent for a field: under the Python name, or else under its camel case
    form when that is read. *)
Definition given (d : list (string * value)) (x : string) (r : value) : Prop :=
  dict_get x d = Some r ∨
  dict_get x d = None ∧ camel_case_fields = true ∧ dict_get (snake_to_camel x) d = Some r.

Lemma find_key_sent d x :
  match find_key (Entries d) x with
  | Ok (Some k) => ∃ r, dict_get k d = Some r ∧ given d x r
  | Ok None => ∀ r, ¬ given d x r
  | Err _ => False
  end.
Proof using Type.
  unfold Inputs.find_key, given. cbn [contains mbind result_bind]. unfold dict_has. destruct (dict_get x d) as [r|] eqn:E; cbn; [eauto|].
  destruct camel_case_fields; cbn.
  - destruct (dict_get (snake_to_camel x) d) as [r|] eqn:E'; cbn.
    + exists r. split; [done|]. by right.
    + intros r [H|(_ & _ & H)]; congruence.
  - intros r [H|(_ & H & _)]; congruence.
Qed.

(** What graphql-core hands over for the GraphQL type of an annotation, when null stands
    only where the annotation has None: an object has entries for its fields, under the
    Python name or in camel case, and for every field that is required. *)
Inductive conforms : annotation → value → Prop :=
| null_conforms l : NoneType ∈ l → conforms (UnionOf l) Null
| plain_conforms p v : plain_given p v → conforms (Plain p) v
| enum_conforms e n v : (n, v) ∈ enums e → conforms (EnumClass e) v
| items_conform a l : Forall (conforms a) l → conforms (ListOf a) (Items l)
| one_conforms l a v : a ∈ l → conforms a v → conforms (UnionOf l) v
| entries_conform c d :
    (∀ x a f v, (x, (a, f)) ∈ fields_of c → given d x v → conforms a v) →
    (∀ x a f, (x, (a, f)) ∈ fields_of c → (∀ v, ¬ given d x v) → default_ f ≠ None ∨ default_factory f ≠ None) →
    conforms (Class c) (Entries d).

(** A required text is missing its characters, somewhere inside. *)
Inductive blank_in : annotation → value → Prop :=
| blank_field c d x a f v :
    (x, (a, f)) ∈ fields_of c → given d x v → default_ f = None → default_factory f = None → _is_string_field f = true →
    (v = Null ∨ ∃ s, (v = Text s ∨ v = Address s) ∧ Str.nonempty (Str.strip s) = false) →
    blank_in (Class c) (Entries d)
| blank_inside c d x a f v :
    (x, (a, f)) ∈ fields_of c → given d x v → blank_in a v → blank_in (Class c) (Entries d)
| blank_item a l v : v ∈ l → blank_in a v → blank_in (ListOf a) (Items l)
| blank_one l a v : a ∈ l → blank_in a v → blank_in (UnionOf l) v.

(** The annotations the coercion reads through. *)
Definition simple (a : annotation) : Prop :=
  match a with
  | Class c => is_some (object_class classes a) = true
  | EnumClass _ | Plain _ => True
  | ListOf (Plain p) => address_type p = false
  | _ => False
  end.

Definition read_through (a : annotation) : Prop :=
  match a with
  | ListOf (Class _) => True
  | UnionOf [a; NoneType] => simple a
  | _ => simple a
  end.

(** Every class of the program keeps to them, with all its fields in the constructor and
    under distinct names; values of an enumeration are no null and no member. *)
Definition well_formed : Prop :=
  (∀ c, NoDup (fields_of c).*1) ∧
  (∀ c x a f, (x, (a, f)) ∈ fields_of c → read_through a ∧ init f = true) ∧
  (∀ e n v, (n, v) ∈ enums e → is_member v e = false ∧ v ≠ Null ∧ same_value v v = true).

(** *** One value *)

Lemma conforms_Null a : well_formed → conforms a Null → inhabits a Null.
Proof using Type.
  intros (_ & _ & Hwf) Hc. remember Null as v eqn:E. induction Hc; subst; try done.
  - by eapply one_inhabits; [|constructor].
  - destruct H as [_ H]. by constructor.
  - by apply Hwf in H as (_ & ? & _).
  - eapply one_inhabits; eauto.
Qed.

Lemma member_read e n raw :
  well_formed → (n, raw) ∈ enums e → ∃ m, _coerce_to_enum enums raw e = Ok (Member e m) ∧ inhabits (EnumClass e) (Member e m).
Proof using Type.
  intros (_ & _ & Hwf) Hin. destruct (Hwf _ _ _ Hin) as (_ & _ & Hs). unfold _coerce_to_enum.
  destruct (List.find _ (enums e)) as [[m w]|] eqn:Hf.
  - exists m. split; [done|]. apply List.find_some in Hf as [Hm _]. eapply member_inhabits. by apply list_elem_of_In.
  - apply list_elem_of_In in Hin. pose proof (List.find_none _ _ Hf (n, raw) Hin) as Hn. cbn in Hn. congruence.
Qed.

Lemma plain_read p raw :
  plain_given p raw → inhabits (Plain p) (match raw with Address s => Text s | _ => raw end).
Proof using Type. intros Hp. constructor. by destruct raw; destruct Hp. Qed.

Lemma plain_items_read p l :
  address_type p = false → Forall (conforms (Plain p)) l → inhabits (ListOf (Plain p)) (Items l).
Proof using Type.
  intros Hp Hl. constructor. eapply Forall_impl; [exact Hl|]. intros v Hv. inversion Hv as [|? ? Hg| | | |]; subst.
  constructor. destruct v; destruct Hg; try done. congruence.
Qed.

(** *** An object *)

(** What a field may hold, and that a required one was sent. *)
Definition good (x : string * (annotation * field)) (v : value) : Prop :=
  default_ x.2.2 = Some v ∨ default_factory x.2.2 = Some v ∨ inhabits x.2.1 v.

Definition sent (d : list (string * value)) (x : string * (annotation * field)) (v : value) : Prop :=
  is_required x.2.2 = false ∨
  ∃ r, given d x.1 r ∧ _coerce_field_value r x.2.1 = Ok v.

Lemma stored_good c d x v :
  x ∈ fields_of c → good x v → sent d x v →
  (∃ z, stored (classes c) x.2.2 v = Ok z ∧ good x z) ∨
  (stored (classes c) x.2.2 v = Err ValueError ∧ blank_in (Class c) (Entries d)).
Proof using Type.
  destruct x as [x [a f]]. intros Hin Hg Hs. unfold stored. cbn [snd fst].
  set (final := match v, default_factory f with Null, Some made => made | _, _ => v end).
  assert (good (x, (a, f)) final) as Hf.
  { unfold final. destruct v; try done. destruct (default_factory f) eqn:E; [|done]. right. by left. }
  destruct (_ && _) eqn:Hv; [|by left; exists final]. apply andb_true_iff in Hv as [_ Hstr].
  assert (is_required f = true → final = v) as Hfv.
  { unfold final, is_required. intros Hr. destruct (default_factory f); [by rewrite andb_false_r in Hr|]. by destruct v. }
  assert (∀ r, given d x r → is_required f = true →
    (r = Null ∨ ∃ s, (r = Text s ∨ r = Address s) ∧ Str.nonempty (Str.strip s) = false) →
    blank_in (Class c) (Entries d)) as Hblank.
  { intros r Hr Hreq Hor. unfold is_required in Hreq. apply (blank_field c d x a f r); try done; [by destruct (default_ f)|].
    destruct (default_factory f); [by rewrite andb_false_r in Hreq|done]. }
  clearbody final. unfold _validate_input_string_value. destruct final as [ | | | |s| | | | | | | | | | |]; try (left; eexists; by split).
  - destruct (is_required f) eqn:Hr; [|left; eexists; by split]. right. split; [done|]. rewrite <- Hfv in Hs by done.
    destruct Hs as [?|(r & Hk & Hc)]; [cbn in *; congruence|]. apply coerced_Null in Hc. eauto.
  - destruct (is_required f) eqn:Hr; [|rewrite andb_false_r; left; eexists; by split].
    destruct (Str.nonempty (Str.strip s)) eqn:Hb; [left; eexists; by split|]. right. split; [done|].
    rewrite <- Hfv in Hs by done. destruct Hs as [?|(r & Hk & Hc)]; [cbn in *; congruence|].
    apply coerced_Text in Hc. eauto 10.
Qed.

(** What is said of a value: it is read as every annotation it conforms to. *)
Definition reads (raw : value) : Prop :=
  ∀ a, read_through a → conforms a raw →
    (∃ v, _coerce_field_value raw a = Ok v ∧ inhabits a v) ∨ (_coerce_field_value raw a = Err ValueError ∧ blank_in a raw).

Lemma find_key_Entries d x : ∃ o, find_key (Entries d) x = Ok o ∧ ∀ k, o = Some k → is_Some (dict_get k d).
Proof using Type.
  unfold Inputs.find_key. cbn [contains mbind result_bind]. destruct (dict_has x d) eqn:E.
  - eexists. split; [done|]. intros k [= <-]. unfold dict_has in E. destruct (dict_get x d); [eauto|done].
  - destruct camel_case_fields; [|by eexists]. destruct (dict_has (snake_to_camel x) d) eqn:E'; eexists; (split; [done|]);
      intros k Hk; [|done]. injection Hk as <-. unfold dict_has in E'. destruct (dict_get _ d); [eauto|done].
Qed.

Lemma argument_good d c x :
  well_formed → Forall (λ kv, reads kv.2) d → conforms (Class c) (Entries d) → x ∈ fields_of c →
  let read k a := match dict_get k d with Some r => _coerce_field_value r a | None => Err TypeError end in
  (∃ v, argument camel_case_fields (Entries d) read x.1 x.2 = Ok v ∧ good x v ∧ sent d x v) ∨
  (argument camel_case_fields (Entries d) read x.1 x.2 = Err ValueError ∧ blank_in (Class c) (Entries d)).
Proof using Type.
  intros (_ & Hwf & _) Hd Hc Hin read. destruct x as [x [a f]]. inversion Hc as [| | | | |? ? Hsent Hreq]; subst.
  pose proof (find_key_sent d x) as Hk. unfold argument. cbn [fst snd]. destruct (find_key (Entries d) x) as [o|]; [|done].
  cbn [mbind result_bind]. destruct o as [k|].
  - destruct Hk as (r & Hr & Hg). unfold read. rewrite Hr.
    assert (reads r) as Hread.
    { apply dict_get_elem in Hr. by apply (proj1 (Forall_forall _ _) Hd (k, r)). }
    destruct (Hread a) as [(v & Hv & Hi)|[Hv Hb]]; [by eapply Hwf|by eapply Hsent|left|right].
    + exists v. split; [done|]. split; [by right; right|]. right. eauto.
    + split; [done|]. eapply blank_inside; eauto.
  - specialize (Hreq _ _ _ Hin Hk). left.
    destruct (default_ f) as [v|] eqn:E; [|destruct (default_factory f) as [v|] eqn:E'; [|by destruct Hreq]]; exists v;
      (split; [done|]); unfold good, sent, is_required; cbn; rewrite ?E, ?E'; cbn; auto using andb_false_r.
Qed.

Definition argued (d : list (string * value)) (x : string * (annotation * field)) (y : string * (field * value)) : Prop :=
  y.1 = x.1 ∧ y.2.1 = x.2.2 ∧ good x y.2.2 ∧ sent d x y.2.2.

Lemma kwargs_stored c d xs kwargs :
  (∀ x, x ∈ xs → x ∈ fields_of c) → Forall2 (argued d) xs kwargs →
  (∃ attrs, mapR (λ y, v ← stored (classes c) y.2.1 y.2.2; Ok (y.1, v)) kwargs = Ok attrs ∧
     Forall2 (λ x z, z.1 = x.1 ∧ good x z.2) xs attrs) ∨
  (mapR (λ y, v ← stored (classes c) y.2.1 y.2.2; Ok (y.1, v)) kwargs = Err ValueError ∧ blank_in (Class c) (Entries d)).
Proof using Type.
  intros Hxs Hkw. induction Hkw as [|x y xs kwargs (E1 & E2 & Hg & Hs) _ IH].
  - left. exists []. split; [done|constructor].
  - cbn. rewrite E1, E2. destruct (stored_good c d x y.2.2) as [(z & -> & Hz)|[-> Hb]]; [apply Hxs; by left|done..| |by right].
    cbn. destruct IH as [(attrs & -> & Ha)|[-> Hb]]; [|left|by right].
    + intros x' Hx'. apply Hxs. by right.
    + eexists. split; [done|]. by constructor.
Qed.

Lemma attributes_inhabit xs (attrs : list (string * value)) x a f v :
  Forall2 (λ x z, z.1 = x.1 ∧ good x z.2) xs attrs → NoDup xs.*1 → (x, (a, f)) ∈ xs → dict_get x attrs = Some v →
  default_ f ≠ Some v → default_factory f ≠ Some v → inhabits a v.
Proof using Type.
  intros Ha Hnd Hin Hget Hnd1 Hnd2. induction Ha as [|x' z xs attrs [E Hg] _ IH]; [by apply not_elem_of_nil in Hin|].
  rewrite fmap_cons in Hnd. apply NoDup_cons in Hnd as [Hx Hnd]. destruct z as [k w]. cbn in E, Hget. subst k.
  apply elem_of_cons in Hin as [<-|Hin].
  - cbn in Hget. rewrite decide_True in Hget by done. injection Hget as ->. by destruct Hg as [?|[?|?]].
  - destruct (decide _) as [E|]; [|by apply IH]. exfalso. apply Hx. rewrite <- E.
    by apply (list_elem_of_fmap_2 fst) in Hin.
Qed.

Lemma object_good d c :
  well_formed → Forall (λ kv, reads kv.2) d → conforms (Class c) (Entries d) →
  (∃ o, coerce_input (Entries d) c = Ok o ∧ inhabits (Class c) o) ∨
  (coerce_input (Entries d) c = Err ValueError ∧ blank_in (Class c) (Entries d)).
Proof using Type.
  intros Hwf Hd Hc. rewrite coerce_input_eq. set (read := λ k a, match dict_get k d with _ => _ end).
  destruct (mapR_or_raise (λ x, v ← argument camel_case_fields (Entries d) read x.1 x.2; Ok (x.1, (x.2.2, v)))
    (argued d) ValueError (blank_in (Class c) (Entries d)) (fields_of c))
    as [(kwargs & Hk & Hkw)|[-> Hb]]; [| |by right].
  { apply Forall_forall. intros x Hx. destruct (argument_good d c x Hwf Hd Hc Hx) as [(v & Hv & Hg & Hs)|[Hv Hb]];
      fold read in Hv; rewrite Hv; [left|by right]. by eexists. }
  change (mapR _ (fields_of c)) with (mapR (λ x, v ← argument camel_case_fields (Entries d) read x.1 x.2; Ok (x.1, (x.2.2, v))) (fields_of c)).
  rewrite Hk. cbn [mbind result_bind]. clear Hk read. unfold construct.
  assert (existsb (λ x, negb (init x.2.1)) kwargs = false) as ->.
  { apply not_true_iff_false. intros (y & Hy & Hn)%existsb_exists. apply list_elem_of_In in Hy.
    apply list_elem_of_lookup in Hy as [i Hy]. destruct (Forall2_lookup_r _ _ _ _ _ Hkw Hy) as ([x [a f]] & Hx & _ & E & _).
    apply list_elem_of_lookup_2 in Hx.
    destruct Hwf as (_ & Hwf & _). destruct (Hwf _ _ _ _ Hx) as [_ Hi]. rewrite E in Hn. cbn in Hn. by rewrite Hi in Hn. }
  destruct (kwargs_stored c d (fields_of c) kwargs) as [(attrs & -> & Ha)|[-> Hb]]; [done|done|left|by right].
  eexists. split; [done|]. constructor.
  - clear -Ha. induction Ha as [|x z xs attrs [E _] _ IH]; [done|]. rewrite !fmap_cons. by rewrite E, IH.
  - intros x a f v. eapply attributes_inhabit; [exact Ha|apply Hwf].
Qed.

(** *** Every value *)

Definition reads_object (raw : value) : Prop :=
  ∀ c, conforms (Class c) raw →
    (∃ o, coerce_input raw c = Ok o ∧ inhabits (Class c) o) ∨
    (coerce_input raw c = Err ValueError ∧ blank_in (Class c) raw).

Lemma objects_read d : well_formed → Forall (λ kv, reads kv.2) d → reads_object (Entries d).
Proof using Type. intros Hwf Hd c Hc. by apply object_good. Qed.

Lemma no_entries_no_object raw : (∀ d, raw ≠ Entries d) → reads_object raw.
Proof using Type. intros Hn c Hc. inversion Hc; subst. by destruct (Hn d). Qed.

(** Objects in a list. *)
Lemma class_items_read l c :
  Forall reads_object l → Forall (conforms (Class c)) l →
  (∃ v, as_items classes enums camel_case_fields (Items l) c = Ok v ∧ inhabits (ListOf (Class c)) v) ∨
  (as_items classes enums camel_case_fields (Items l) c = Err ValueError ∧ blank_in (ListOf (Class c)) (Items l)).
Proof using Type.
  intros Hl Hc. cbn [as_items].
  destruct (mapR_or_raise (λ v, coerce_input v c) (λ _ o, inhabits (Class c) o) ValueError
    (blank_in (ListOf (Class c)) (Items l)) l) as [(os & -> & Hos)|[-> Hb]]; [|left|by right].
  - rewrite Forall_forall in Hl, Hc |- *. intros v Hv. destruct (Hl v Hv c (Hc v Hv)) as [(o & -> & Ho)|[-> Hb]]; [left; eauto|].
    right. split; [done|]. by eapply blank_item.
  - eexists. split; [done|]. constructor. by eapply Forall2_Forall_r; [exact Hos|apply Forall_true].
Qed.

(** An annotation read through, in a union or by itself. *)
Lemma simple_read raw a :
  well_formed → reads_object raw → simple a → conforms a raw → raw ≠ Null →
  ∀ b, (b = a ∨ b = UnionOf [a; NoneType]) →
  (∃ v, _coerce_field_value raw b = Ok v ∧ inhabits a v) ∨ (_coerce_field_value raw b = Err ValueError ∧ blank_in a raw).
Proof using Type.
  intros Hwf Hobj Hs Hc Hn b Hb. unfold Inputs._coerce_field_value, field_value.
  destruct a as [c|e|a|l| |p]; try done; cbn [simple] in Hs.
  - assert (class_of classes b = Some c) as ->.
    { destruct Hb as [-> | ->]; cbn [class_of first_of]; unfold object_class in *; by destruct (_ in_ _). }
    inversion Hc; subst. by apply Hobj.
  - inversion Hc as [| |? n ? Hin| | |]; subst. destruct Hwf as (H1 & H2 & H3). destruct (H3 _ _ _ Hin) as (Hm & _ & _).
    destruct (member_read e n raw) as (m & Hm' & Hi); [done..|]. left. exists (Member e m). split; [|done].
    destruct Hb as [-> | ->]; cbn; (destruct raw; try done); cbn in Hm |- *; rewrite ?Hm; exact Hm'.
  - destruct a as [| | | | |p]; try done. inversion Hc as [| | |? l Hl| |]; subst. left. exists (Items l).
    split; [by destruct Hb as [-> | ->]|]. by apply plain_items_read.
  - inversion Hc as [|? ? Hp| | | |]; subst. left. eexists. split; [|by apply plain_read].
    destruct Hb as [-> | ->]; by destruct raw.
Qed.

Lemma every_value_reads raw : well_formed → reads raw ∧ reads_object raw.
Proof using Type.
  intros Hwf. assert (∀ raw, reads_object raw → (∀ l, raw = Items l → Forall reads_object l) → reads raw) as Hreads.
  { clear raw. intros raw Hobj Hitems a Ha Hc. assert (raw = Null ∨ raw ≠ Null) as [-> | Hn] by (destruct raw; auto).
    { left. exists Null. split; [done|]. by apply conforms_Null. }
    assert (∀ a, simple a → conforms a raw →
      (∃ v, _coerce_field_value raw a = Ok v ∧ inhabits a v) ∨ (_coerce_field_value raw a = Err ValueError ∧ blank_in a raw)) as Hsimple.
    { intros a' Ha' Hc'. apply (simple_read raw a'); auto. }
    destruct a as [c|e|[c| | | | |p]|l| |p]; cbn [read_through] in Ha; try by apply Hsimple.
    - inversion Hc as [| | |? l Hl| |]; subst. by apply class_items_read; [apply Hitems|].
    - destruct l as [|x [|[] [|]]]; try done. inversion Hc as [| | | |? a ? Hin Hc'|]; subst; [done|].
      apply elem_of_cons in Hin as [->|Hin%list_elem_of_singleton]; [|by subst; inversion Hc'].
      destruct (simple_read raw x Hwf Hobj Ha Hc' Hn (UnionOf [x; NoneType])) as [(v & Hv & Hi)|[Hv Hb]]; [by right|left|right].
      + exists v. split; [done|]. eapply one_inhabits; [|exact Hi]. by left.
      + split; [done|]. eapply blank_one; [|exact Hb]. by left. }
  induction raw as [ | | | | | | | | | | | | |l IH|d IH|c at_ IH] using value_induction;
    try (split; [apply Hreads; [by apply no_entries_no_object|done]|by apply no_entries_no_object]).
  - split; [apply Hreads; [by apply no_entries_no_object|]|by apply no_entries_no_object].
    intros ? [= <-]. eapply Forall_impl; [exact IH|]. by intros v [_ H].
  - assert (reads_object (Entries d)) as Hd.
    { apply objects_read; [done|]. eapply Forall_impl; [exact IH|]. by intros kv [H _]. }
    split; [|done]. apply Hreads; [done|discriminate].
Qed.

(** *** What a value becomes *)

(** An object that was built: what each field holds. *)
Lemma built_attributes d c o :
  coerce_input (Entries d) c = Ok o →
  ∃ attrs, o = Instance c attrs ∧ attrs.*1 = (fields_of c).*1 ∧
    Forall2 (λ x z, ∃ v, argument camel_case_fields (Entries d)
        (λ k a, match dict_get k d with Some r => _coerce_field_value r a | None => Err TypeError end) x.1 x.2 = Ok v ∧
        z.2 = match v, default_factory x.2.2 with Null, Some made => made | _, _ => v end) (fields_of c) attrs.
Proof using Type.
  rewrite coerce_input_eq. intros (kwargs & Hk & Ho)%bind_Ok. unfold construct in Ho.
  destruct (existsb _ _); [done|]. apply bind_Ok in Ho as (attrs & Ha & [= <-]). exists attrs. split; [done|].
  apply mapR_Ok in Hk, Ha. revert attrs Ha. induction Hk as [|x y xs kwargs Hxy _ IH]; intros attrs Ha; inversion Ha as [|? z ? ? Hz Ha']; subst.
  { by split. }
  destruct (IH _ Ha') as [E1 E2]. apply bind_Ok in Hxy as (v & Hv & [= <-]). apply bind_Ok in Hz as (w & Hw & [= <-]).
  cbn [fst snd] in Hw. rewrite !fmap_cons, E1. split; [done|]. constructor; [|done]. exists v. split; [done|]. cbn [snd].
  unfold stored in Hw. destruct (_ && _); [|by injection Hw]. apply bind_Ok in Hw as ([] & _ & Hw). by injection Hw.
Qed.

(** What the object holds for it: what was sent, coerced, or else the default; the factory's
    value in the place of null, or of a default that is not there. *)
Definition held (d attrs : list (string * value)) (x : string) (a : annotation) (f : field) : Prop :=
  ∃ v w, dict_get x attrs = Some w ∧
    ((∃ r, given d x r ∧ _coerce_field_value r a = Ok v) ∨
     (∀ r, ¬ given d x r) ∧ (default_ f = Some v ∨ default_ f = None ∧ default_factory f = Some v)) ∧
    (v = Null ∧ default_factory f = Some w ∨ (v ≠ Null ∨ default_factory f = None) ∧ w = v).

Lemma fields_distinct c : NoDup (annotations (classes c)).*1 → NoDup (fields_of c).*1.
Proof using Type.
  intros Hnd. unfold collect_fraise_fields. induction (annotations (classes c)) as [|y l IH]; [apply NoDup_nil_2|].
  rewrite fmap_cons in Hnd. apply NoDup_cons in Hnd as [Hy Hl]. cbn. destruct (_should_include_field _ _); [|by apply IH].
  rewrite fmap_cons. apply NoDup_cons. split; [|by apply IH]. intros (z & Ez & Hz)%list_elem_of_fmap. apply Hy. rewrite Ez.
  apply list_elem_of_In, List.filter_In in Hz as [Hz _]. apply (list_elem_of_fmap_2 fst). by apply list_elem_of_In.
Qed.

Lemma object_holds d c o :
  NoDup (fields_of c).*1 → coerce_input (Entries d) c = Ok o →
  ∃ attrs, o = Instance c attrs ∧ attrs.*1 = (fields_of c).*1 ∧ ∀ x a f, (x, (a, f)) ∈ fields_of c → held d attrs x a f.
Proof using Type.
  intros Hnf (attrs & -> & E & Ha)%built_attributes. exists attrs. split; [done|]. split; [done|]. intros x a f Hin.
  apply list_elem_of_lookup in Hin as [i Hi]. destruct (Forall2_lookup_l _ _ _ _ _ Ha Hi) as ([k w] & Hz & v & Hv & Hw).
  cbn [fst snd] in Hv, Hw. assert (k = x) as ->.
  { apply (f_equal (λ l, l !! i)) in E. rewrite !list_lookup_fmap, Hi, Hz in E. by injection E. }
  assert (dict_get x attrs = Some w) as Hget.
  { rewrite <- E in Hnf. clear -Hnf Hz. revert i Hz. induction attrs as [|[k v] attrs IH]; intros i Hz; [done|].
    rewrite fmap_cons in Hnf. apply NoDup_cons in Hnf as [Hk Hn]. destruct i as [|i]; cbn in Hz |- *.
    - injection Hz as -> ->. by rewrite decide_True.
    - rewrite decide_False; [by eapply IH|]. intros <-. apply Hk. apply list_elem_of_lookup_2 in Hz.
      by apply (list_elem_of_fmap_2 fst) in Hz. }
  exists v, w. split; [done|]. split.
  - pose proof (find_key_sent d x) as Hs. unfold argument in Hv. destruct (find_key (Entries d) x) as [[k|]|]; [| |done];
      cbn [mbind result_bind fst snd] in Hv.
    + destruct Hs as (r & Hr & Hsent). rewrite Hr in Hv. left. by exists r.
    + right. split; [done|]. destruct (default_ f) as [v'|]; [|destruct (default_factory f) as [v'|]; [|done]]; injection Hv as ->; auto.
  - destruct v; (try by right; split; [by left|]). destruct (default_factory f); [left|right]; subst w; auto.
Qed.

(** What a value becomes under an annotation: null stays null, an address a text, the value of
    a member that member, and an object an instance that holds, under the name of each field,
    what was sent for it read in the same way, or else the default, a factory's value standing
    for null. *)
Inductive becomes : annotation → value → value → Prop :=
| null_becomes a : becomes a Null Null
| address_becomes p s : becomes (Plain p) (Address s) (Text s)
| plain_becomes p v : (∀ s, v ≠ Address s) → becomes (Plain p) v v
| value_becomes e n w v : (n, w) ∈ enums e → same_value w v = true → becomes (EnumClass e) v (Member e n)
| items_become a l l' : Forall2 (becomes a) l l' → becomes (ListOf a) (Items l) (Items l')
| one_becomes l a v w : a ∈ l → becomes a v w → becomes (UnionOf l) v w
| entries_become c d attrs :
    attrs.*1 = (fields_of c).*1 →
    (∀ x a f, (x, (a, f)) ∈ fields_of c →
       ∃ v w, dict_get x attrs = Some w ∧
         ((∃ r, given d x r ∧ becomes a r v) ∨
          (∀ r, ¬ given d x r) ∧ (default_ f = Some v ∨ default_ f = None ∧ default_factory f = Some v)) ∧
         (v = Null ∧ default_factory f = Some w ∨ (v ≠ Null ∨ default_factory f = None) ∧ w = v)) →
    becomes (Class c) (Entries d) (Instance c attrs).

Definition object_becomes (raw : value) : Prop :=
  ∀ c o, conforms (Class c) raw → coerce_input raw c = Ok o → becomes (Class c) raw o.

Definition is_read (raw : value) : Prop :=
  ∀ a v, read_through a → conforms a raw → _coerce_field_value raw a = Ok v → becomes a raw v.

Lemma entries_are_read d : well_formed → Forall (λ kv, is_read kv.2) d → object_becomes (Entries d).
Proof using Type.
  intros Hwf Hd c o Hc Ho. pose proof Hwf as (Hnd & Hann & _).
  destruct (object_holds d c o (Hnd c) Ho) as (attrs & -> & Hkeys & Hheld). apply entries_become; [done|].
  intros x a f Hin. destruct (Hheld x a f Hin) as (v & w & Hw & Hv & Hor). exists v, w. split; [done|]. split; [|done].
  destruct Hv as [(r & Hr & Hcr)|Hv]; [left|by right]. exists r. split; [done|].
  inversion Hc as [| | | | |? ? Hsent _]; subst. assert (is_read r) as Hread.
  { rewrite Forall_forall in Hd. destruct Hr as [E|(_ & _ & E)]; apply dict_get_elem in E; exact (Hd _ E). }
  apply Hread; [by eapply Hann|by eapply Hsent|done].
Qed.

Lemma class_items_become l c v :
  Forall object_becomes l → Forall (conforms (Class c)) l → as_items classes enums camel_case_fields (Items l) c = Ok v →
  becomes (ListOf (Class c)) (Items l) v.
Proof using Type.
  intros Hl Hc. cbn [as_items]. destruct (mapR _ l) as [os|] eqn:E; [|done]. intros [= <-]. apply mapR_Ok in E.
  apply items_become. induction E as [|x o l os Ho _ IH]; [constructor|]. inversion Hl; inversion Hc; subst. constructor; auto.
Qed.

Lemma plain_items_become p l : address_type p = false → Forall (conforms (Plain p)) l → Forall2 (becomes (Plain p)) l l.
Proof using Type.
  intros Hp. induction 1 as [|v l Hv _ IH]; constructor; [|done]. inversion Hv as [|? ? Hg| | | |]; subst.
  apply plain_becomes. intros s ->. destruct Hg. congruence.
Qed.

Lemma simple_becomes raw a b v :
  well_formed → object_becomes raw → simple a → conforms a raw → raw ≠ Null → b = a ∨ b = UnionOf [a; NoneType] →
  _coerce_field_value raw b = Ok v → becomes a raw v.
Proof using Type.
  intros Hwf Hobj Hs Hc Hn Hb. unfold Inputs._coerce_field_value, field_value.
  destruct a as [c|e|a|l| |p]; try done; cbn [simple] in Hs.
  - assert (class_of classes b = Some c) as ->.
    { destruct Hb as [-> | ->]; cbn [class_of first_of]; unfold object_class in *; by destruct (_ in_ _). }
    inversion Hc; subst. by apply Hobj.
  - inversion Hc as [| |? n ? Hin| | |]; subst. destruct Hwf as (H1 & H2 & H3). destruct (H3 _ _ _ Hin) as (Hm & _ & Hsame).
    assert (_coerce_to_enum enums raw e = Ok v → becomes (EnumClass e) raw v) as Hread.
    { unfold _coerce_to_enum. destruct (List.find _ (enums e)) as [[m w]|] eqn:Hf.
      - intros [= <-]. apply List.find_some in Hf as [Hm' E]. eapply value_becomes; [by apply list_elem_of_In|done].
      - pose proof (List.find_none _ _ Hf (n, raw)) as Hno. rewrite <- list_elem_of_In in Hno. specialize (Hno Hin). cbn in Hno. congruence. }
    destruct Hb as [-> | ->]; cbn; (destruct raw; try done); cbn in Hm |- *; rewrite ?Hm; exact Hread.
  - destruct a as [| | | | |p]; try done. inversion Hc as [| | |? l Hl| |]; subst.
    assert (becomes (ListOf (Plain p)) (Items l) (Items l)) as Hl' by (apply items_become; by apply plain_items_become).
    destruct Hb as [-> | ->]; by intros [= <-].
  - destruct Hb as [-> | ->]; (destruct raw; try done; intros [= <-]; first [apply address_becomes|by apply plain_becomes]).
Qed.

Lemma all_are_read raw :
  well_formed → object_becomes raw → (∀ l, raw = Items l → Forall object_becomes l) → is_read raw.
Proof using Type.
  intros Hwf Hobj Hitems a v Ha Hc Hv. assert (raw = Null ∨ raw ≠ Null) as [-> | Hn] by (destruct raw; auto).
  { cbn in Hv. injection Hv as <-. apply null_becomes. }
  assert (simple a → becomes a raw v) as Hsimple by (intros Hs; by apply (simple_becomes raw a a v); auto).
  destruct a as [c|e|[c| | | | |p]|l| |p]; cbn [read_through] in Ha; try (by apply Hsimple).
  - inversion Hc as [| | |? l Hl| |]; subst. apply class_items_become; [by apply Hitems|done|exact Hv].
  - destruct l as [|x [|[] [|]]]; try done. inversion Hc as [| | | |? a ? Hin Hc'|]; subst; [done|].
    apply elem_of_cons in Hin as [->|Hin%list_elem_of_singleton]; [|by subst; inversion Hc'].
    apply (one_becomes _ x); [by left|]. apply (simple_becomes raw x (UnionOf [x; NoneType]) v); auto.
Qed.

Lemma no_entries_become raw : (∀ d, raw ≠ Entries d) → object_becomes raw.
Proof using Type. intros Hraw c o Hc. inversion Hc; subst; by edestruct Hraw. Qed.

Lemma every_value_becomes raw : well_formed → is_read raw ∧ object_becomes raw.
Proof using Type.
  intros Hwf. induction raw as [ | | | | | | | | | | | | |l IH|d IH|c at_ IH] using value_induction;
    try (split; [apply all_are_read; [done|by apply no_entries_become|discriminate]|by apply no_entries_become]).
  - split; [|by apply no_entries_become]. apply all_are_read; [done|by apply no_entries_become|].
    intros ? [= <-]. eapply Forall_impl; [exact IH|]. by intros v [_ H].
  - assert (object_becomes (Entries d)) as Hd.
    { apply entries_are_read; [done|]. eapply Forall_impl; [exact IH|]. by intros kv [H _]. }
    split; [|done]. apply all_are_read; [done|done|discriminate].
Qed.

(** C14. A value of an annotation's shape is read as a value of that annotation, or refused.
    For classes whose annotations are of the forms the coercion reads (a class, an
    enumeration, another type, each of them optional or not, a list of objects or of other
    values), every value that conforms, whatever its depth (an object with entries under the
    Python name or, where it is read, the camel case form for every field without a default;
    null only where the annotation has None, so not for an item of a list of objects; the
    values of members), becomes an instance of its class whose attributes are instances,
    members, lists and values of their annotations, or the fields' defaults: what was sent
    for each field, and the default of one that was not sent.  The one error is
    [ValueError], and only where a text without default is blank or null: nothing else that
    conforms is refused, and no [KeyError] or [TypeError] escapes. *)
Theorem coerced_inputs_inhabit_their_class raw a :
  well_formed → read_through a → conforms a raw →
  (∃ v, _coerce_field_value raw a = Ok v ∧ inhabits a v ∧ becomes a raw v) ∨
  (_coerce_field_value raw a = Err ValueError ∧ blank_in a raw).
Proof using Type.
  intros Hwf Ha Hc. destruct (every_value_reads raw Hwf) as [Hr _]. destruct (every_value_becomes raw Hwf) as [Hb _].
  destruct (Hr a Ha Hc) as [(v & Hv & Hi)|[Hv Hbl]]; [left|by right]. exists v. auto.
Qed.

(** ** The payload *)

Lemma to_dict_eq c attrs :
  to_dict (Instance c attrs) =
    Entries (concat (map (entry (map (λ kv, (kv.1, if is_unset kv.2 then None else Some (_serialize_field_value kv.2))) attrs)
                           (Other "FraiseQLField")) (annotations (classes c)))).
Proof using Type. reflexivity. Qed.

Lemma dict_get_map_values {A B} (g : A → B) x (d : list (string * A)) :
  dict_get x (map (λ kv, (kv.1, g kv.2)) d) = g <$> dict_get x d.
Proof using Type. induction d as [|[k v] d IH]; [done|]. cbn. by case_decide. Qed.

(** *** The JSON of an object *)

Section payload.
Context (camel : bool).

(** A key in the payload, and what the payload holds under keys. *)
Definition spelled (k : string) : string := if camel then to_snake_case k else k.
Definition gathered (d : list (string * pyval)) : list (string * pyval) := if camel then dict_of d else d.

(** What an object has under its annotated names: what is unset is left out, and a name that
    only the class has is the class's. *)
Definition present (c : string) (attrs : list (string * value)) : list (string * value) :=
  omap (λ x : string * (annotation * field),
    match dict_get x.1 attrs with
    | Some Unset => None
    | Some v => Some (x.1, v)
    | None => if on_class x.2.2 then Some (x.1, Other "FraiseQLField") else None
    end) (annotations (classes c)).

(** The JSON a value is sent as: numbers, texts and lists as they are, identifiers, addresses,
    dates and decimals as texts, the member of an enumeration as its value, an object as
    what it has under its names.  What JSON has no form for is nothing that is sent. *)
Inductive sends : value → pyval → Prop :=
| sends_null : sends Null PNone
| sends_bool b : sends (Bool b) (PBool b)
| sends_int z : sends (Int z) (PInt z)
| sends_float f : sends (Float f) (PFloat f)
| sends_text s : sends (Text s) (PStr s)
| sends_uuid s : sends (UUID s) (PStr s)
| sends_address s : sends (Address s) (PStr s)
| sends_date s : sends (Date s) (PStr s)
| sends_datetime s : sends (Datetime s) (PStr s)
| sends_decimal m e : sends (Decimal m e) (PStr (Num.decimal_str m e))
| sends_member e n v j : dict_get n (enums e) = Some v → sends v j → sends (Member e n) j
| sends_no_member e n : dict_get n (enums e) = None → sends (Member e n) PNone
| sends_items l js : Forall2 sends l js → sends (Items l) (PList js)
| sends_entries d d' : Forall2 (λ kv kj, kj.1 = spelled kv.1 ∧ sends kv.2 kj.2) d d' → sends (Entries d) (PDict (gathered d'))
| sends_object c attrs d' :
    kind (classes c) = "input" →
    Forall2 (λ kv kj, kj.1 = spelled kv.1 ∧ sends_field kv.2 kj.2) (present c attrs) d' →
    sends (Instance c attrs) (PDict (gathered d'))
| sends_nothing v j : (∀ t, dumps j ≠ Ok t) → sends v j
with sends_field : value → pyval → Prop :=
| blank_sends_null s : Str.nonempty (Str.strip s) = false → sends_field (Text s) PNone
| value_sends v j : (∀ s, v = Text s → Str.nonempty (Str.strip s) = true) → sends v j → sends_field v j.

(** The value of [input_json] before it is written. *)
Definition in_case (v : pyval) : pyval := if camel then dict_keys_to_snake_case v else v.

Lemma in_case_items l : in_case (PList l) = PList (map in_case l).
Proof using Type. unfold in_case. destruct camel; [done|]. by rewrite map_id. Qed.

Lemma in_case_entries d : in_case (PDict d) = PDict (gathered (map (λ kv, (spelled kv.1, in_case kv.2)) d)).
Proof using Type.
  unfold in_case, gathered, spelled. destruct camel; [done|]. f_equal. induction d as [|[k v] d IH]; [done|]. cbn. by rewrite <- IH.
Qed.

Lemma in_case_leaf v : match v with PDict _ | PList _ => True | _ => in_case v = v end.
Proof using Type. unfold in_case. by destruct camel, v. Qed.

Ltac leaf := match goal with |- context [in_case ?v] => pose proof (in_case_leaf v) as Hleaf; cbn in Hleaf; rewrite Hleaf; clear Hleaf end.

Lemma entries_sent (f : value → pyval) (R : value → pyval → Prop) (d : list (string * value)) :
  Forall (λ kv, R kv.2 (in_case (f kv.2))) d →
  Forall2 (λ kv kj, kj.1 = spelled kv.1 ∧ R kv.2 kj.2) d
    (map (λ kv, (spelled kv.1, in_case kv.2)) (map (λ kv, (kv.1, f kv.2)) d)).
Proof using Type. induction 1; constructor; [done|assumption]. Qed.

Lemma raw_sent v : sends v (in_case (to_pyval v)).
Proof using Type.
  induction v as [|b|z|f|s|m e|s|s|s|s|s| |e n|l IH|d IH|c a _] using value_induction; cbn [to_pyval];
    try (leaf; first [constructor; fail|by apply sends_nothing]).
  - rewrite in_case_items. apply sends_items. rewrite map_map. induction IH; constructor; assumption.
  - rewrite in_case_entries. apply sends_entries. by apply (entries_sent to_pyval).
Qed.

Lemma basic_sent v : sends v (in_case (to_pyval (_serialize_basic enums v))).
Proof using Type.
  destruct v; cbn [_serialize_basic]; try apply raw_sent; cbn [to_pyval]; try (leaf; constructor; fail).
  destruct (dict_get name (enums enum)) as [v|] eqn:E; cbn [default from_option].
  - eapply sends_member; [done|]. apply raw_sent.
  - cbn [to_pyval]. leaf. by apply sends_no_member.
Qed.

Lemma field_sent_with (object : value → value) v :
  (∀ w, has_to_dict classes w = true → w = v ∨ (∃ l, v = Items l ∧ w ∈ l) → sends w (in_case (to_pyval (object w)))) →
  sends_field v (in_case (to_pyval (serialized classes enums object v))).
Proof using Type.
  intros Hobj.
  assert (∀ w, w = v ∨ (∃ l, v = Items l ∧ w ∈ l) →
    sends w (in_case (to_pyval (if has_to_dict classes w then object w else _serialize_basic enums w)))) as Hitem.
  { intros w Hw. destruct (has_to_dict classes w) eqn:E; [by apply Hobj|apply basic_sent]. }
  unfold serialized. destruct v as [|b|z|f|s|m e|s|s|s|s|s| |e n|l|d|c a];
    try (apply value_sends; [done|apply basic_sent]).
  - destruct (Str.nonempty (Str.strip s)) eqn:E; cbn [to_pyval]; leaf; [|by apply blank_sends_null].
    apply value_sends; [by intros ? [= <-]|constructor].
  - apply value_sends; [done|]. cbn [to_pyval]. rewrite in_case_items. apply sends_items. rewrite !map_map.
    assert (∀ w, w ∈ l → sends w (in_case (to_pyval (if has_to_dict classes w then object w else _serialize_basic enums w)))) as H.
    { intros w Hw. apply Hitem. right. by exists l. }
    clear -H. induction l as [|w l IH]; constructor; [apply H; by left|]. apply IH. intros x Hx. apply H. by right.
  - apply value_sends; [done|]. apply (Hitem (Instance c a)). by left.
Qed.

(** What [to_dict] writes are the fields that are present. *)
Lemma to_dict_present c attrs :
  to_pyval (to_dict (Instance c attrs)) = PDict (map (λ kv, (kv.1, to_pyval (_serialize_field_value kv.2))) (present c attrs)).
Proof using Type.
  rewrite to_dict_eq. cbn [to_pyval]. f_equal. unfold present. induction (annotations (classes c)) as [|x l IH]; [done|].
  cbn [map concat]. rewrite map_app, IH. change (omap ?f (x :: l)) with (match f x with Some y => y :: omap f l | None => omap f l end). cbv beta.
  unfold entry. rewrite (dict_get_map_values (λ v, if is_unset v then None else Some (_serialize_field_value v))).
  destruct (dict_get x.1 attrs) as [v|]; cbn [fmap option_fmap option_map].
  - by destruct v.
  - by destruct (on_class x.2.2).
Qed.

Lemma present_elem c attrs kv : kv ∈ present c attrs → kv ∈ attrs ∨ kv.2 = Other "FraiseQLField".
Proof using Type.
  intros (x & _ & Hx)%list_elem_of_omap. destruct (dict_get x.1 attrs) as [v|] eqn:E.
  - apply dict_get_elem in E. left. destruct v; by inversion Hx; subst.
  - right. destruct (on_class x.2.2); by inversion Hx.
Qed.

(** What is told of a value and of the items of a list. *)
Definition object_sent (w : value) : Prop := has_to_dict classes w = true → sends w (in_case (to_pyval (to_dict w))).

Lemma objects_sent v : object_sent v ∧ ∀ l, v = Items l → Forall object_sent l.
Proof using Type.
  induction v as [| | | | | | | | | | | | |l IH| |c a IH] using value_induction; try (split; [done|by intros ? [=]]).
  - split; [done|]. intros ? [= <-]. eapply Forall_impl; [exact IH|]. by intros ? [? _].
  - split; [|by intros ? [=]]. intros Hk. rewrite to_dict_present, in_case_entries. apply sends_object.
    { cbn in Hk. by apply bool_decide_eq_true in Hk. }
    apply (entries_sent (λ v, to_pyval (_serialize_field_value v))). apply Forall_forall. intros kv Hkv. unfold Inputs._serialize_field_value.
    apply field_sent_with. intros w Hw Hin. apply present_elem in Hkv as [Hkv|Hkv].
    + rewrite Forall_forall in IH. destruct (IH _ Hkv) as [Hv Hl]. destruct Hin as [->|(l & El & Hl')]; [by apply Hv|].
      specialize (Hl l El). rewrite Forall_forall in Hl. by apply Hl.
    + rewrite Hkv in Hin. destruct Hin as [->|(l & [=] & _)]. done.
Qed.
End payload.

Lemma input_argument c raw_args d :
  dict_get "input" raw_args = Some (Entries d) →
  coerce_input_arguments classes enums camel_case_fields [("info", None); ("input", Some (Class c))] raw_args
  = (v ← coerce_input (Entries d) c; Ok [("input", v)]).
Proof using Type.
  intros Hin. assert (Inputs.find_key camel_case_fields (Entries raw_args) "input" = Ok (Some "input")) as Hk.
  { unfold Inputs.find_key. cbn [contains mbind result_bind]. unfold dict_has. by rewrite Hin. }
  unfold coerce_input_arguments. cbn [mapR fst snd]. rewrite Hk. cbn -[Inputs.coerce_input]. rewrite Hin. cbn -[Inputs.coerce_input].
  by destruct (coerce_input (Entries d) c).
Qed.

(** C24. A mutation sends what it was sent.  When the call of a mutation's SQL function is
    built at all, the query is the function's call with marks for the context's arguments
    and for one text, the values are parameters, and that text is the JSON of the object
    that was built: under the name of each of its fields (in snake case, if names are turned)
    the coerced value the client sent under that name or its camel case form, or the default
    of a field that was not sent; a blank text as null, identifiers, dates and decimals as
    texts, members as their values, objects in fields and lists alike, and nothing for what
    is UNSET, so an update changes the fields sent and no other. *)
Theorem mutation_sends_what_was_sent c function_name context_args camel raw_args d q ps :
  kind (classes c) = "input" → NoDup (annotations (classes c)).*1 → dict_get "input" raw_args = Some (Entries d) →
  mutation_call classes enums camel_case_fields c function_name context_args camel raw_args = Ok (q, ps) →
  ∃ attrs data text,
    q = ("SELECT row_to_json(" +:+ function_name +:+ "(" +:+
         Str.join ", " (map (λ _, "%s") context_args ++ ["%s::jsonb"]) +:+ "))::text")%stdpp ∧
    ps = context_args ++ [PStr text] ∧ dumps data = Ok text ∧ sends camel (Instance c attrs) data ∧
    attrs.*1 = (fields_of c).*1 ∧ ∀ x a f, (x, (a, f)) ∈ fields_of c → held d attrs x a f.
Proof using Type.
  intros Hk Hnd Hin. unfold mutation_call. rewrite (input_argument c raw_args d Hin).
  destruct (coerce_input (Entries d) c) as [o|] eqn:Hc; [|done]. cbn [mbind result_bind].
  change (dict_get "input" [("input", o)]) with (Some o). cbv beta iota.
  destruct (object_holds d c o (fields_distinct c Hnd) Hc) as (attrs & -> & Hkeys & Hf).
  assert (has_to_dict classes (Instance c attrs) = true) as Hobj by (by apply bool_decide_eq_true).
  assert (_to_dict classes enums (Instance c attrs) = Ok (to_dict (Instance c attrs))) as ->.
  { unfold _to_dict. by rewrite Hobj. }
  cbn [mbind result_bind]. destruct (input_json _ _) as [text|] eqn:Ht; [|done]. cbn [mbind result_bind].
  intros [= <- <-]. exists attrs, (in_case camel (to_pyval (to_dict (Instance c attrs)))), text.
  split; [|split; [done|split; [done|split; [by apply objects_sent|done]]]].
  destruct context_args as [|v l]; [done|]. rewrite join_last by done. by rewrite app_assoc_str.
Qed.
End laws.

(** ** A program with two input classes *)

Definition plain_field (name : string) (default : option value) : field :=
  {| default_ := default; default_factory := None; init := true; purpose := "input"; field_type := Plain name;
     graphql_name := None; on_class := is_some default |}.

Definition optional (a : annotation) : annotation := UnionOf [a; NoneType].

Definition user_fields : list (string * (annotation * field)) :=
  [("full_name", (Plain "str", plain_field "str" None));
   ("status", (EnumClass "Status", plain_field "Status" None));
   ("home", (optional (Class "AddressInput"), plain_field "AddressInput" (Some Unset)));
   ("addresses", (ListOf (Class "AddressInput"), plain_field "list" None))].

Definition users_classes (c : string) : input_class :=
  if c =s "AddressInput" then
    {| kind := "input"; annotations := [("street_name", (Plain "str", plain_field "str" None))] |}
  else if c =s "UserInput" then
    {| kind := "input"; annotations := user_fields |}
  else {| kind := "input"; annotations := [] |}.

Definition users_enums (e : string) : list (string * value) :=
  if e =s "Status" then [("ACTIVE", Text "active"); ("CLOSED", Text "closed")] else [].

Definition users_plain (p : string) (v : value) : Prop := p = "str" ∧ ∃ s, v = Text s.

Lemma users_fields c : collect_fraise_fields (users_classes c) = annotations (users_classes c).
Proof. unfold users_classes. by destruct (c =s _); [|destruct (c =s _)]. Qed.

Lemma users_well_formed : well_formed users_classes users_enums (λ _, false).
Proof.
  split; [|split].
  - intros c. rewrite users_fields. unfold users_classes. destruct (c =s _); [|destruct (c =s _)]; cbn;
      apply (bool_decide_unpack _); vm_compute; exact I.
  - intros c x a f. rewrite users_fields. unfold users_classes.
    destruct (c =s _); [|destruct (c =s _)]; cbn [annotations]; unfold user_fields; rewrite ?elem_of_cons, elem_of_nil; naive_solver.
  - intros e n v. unfold users_enums. destruct (e =s _) eqn:He; rewrite ?elem_of_cons, elem_of_nil; [|done].
    intros [[= -> ->]|[[= -> ->]|[]]]; by (split; [|split]).
Qed.

Definition ann : list (string * value) :=
  [("fullName", Text "Ann"); ("status", Text "closed"); ("addresses", Items [Entries [("streetName", Text "Main")]])].

Lemma address_conforms s :
  conforms users_classes users_enums true users_plain (λ _, false) (Class "AddressInput") (Entries [("streetName", Text s)]).
Proof.
  apply entries_conform.
  - intros x a f v Hin. rewrite users_fields in Hin. revert Hin. cbn [annotations users_classes].
    intros [[= -> -> ->]|Hin]%elem_of_cons; [|by apply not_elem_of_nil in Hin]. intros [E|(_ & _ & E)]; [by vm_compute in E|].
    vm_compute in E. injection E as <-. constructor. split; [done|]. split; [done|]. eauto.
  - intros x a f Hin. rewrite users_fields in Hin. revert Hin. cbn [annotations users_classes].
    intros [[= -> -> ->]|Hin]%elem_of_cons; [|by apply not_elem_of_nil in Hin]. intros Hno. exfalso.
    apply (Hno (Text s)). right. split; [reflexivity|]. split; reflexivity.
Defined.

Lemma ann_conforms :
  conforms users_classes users_enums true users_plain (λ _, false) (Class "UserInput") (Entries ann).
Proof.
  apply entries_conform.
  - intros x a f v Hin. rewrite users_fields in Hin. revert Hin.
    change (annotations (users_classes "UserInput")) with user_fields. unfold user_fields.
    rewrite !elem_of_cons, elem_of_nil. intros [[= -> -> ->]|[[= -> -> ->]|[[= -> -> ->]|[[= -> -> ->]|[]]]]];
      intros [E|(_ & _ & E)]; vm_compute in E; try discriminate E; injection E as <-.
    + constructor. split; [done|]. split; [done|]. eauto.
    + eapply enum_conforms. apply elem_of_cons. right. by left.
    + eapply enum_conforms. apply elem_of_cons. right. by left.
    + apply items_conform, Forall_singleton, address_conforms.
    + apply items_conform, Forall_singleton, address_conforms.
  - intros x a f Hin. rewrite users_fields in Hin. revert Hin.
    change (annotations (users_classes "UserInput")) with user_fields. unfold user_fields.
    rewrite !elem_of_cons, elem_of_nil. intros [[= -> -> ->]|[[= -> -> ->]|[[= -> -> ->]|[[= -> -> ->]|[]]]]] Hno.
    + exfalso. eapply Hno. right. split; [reflexivity|]. split; reflexivity.
    + exfalso. eapply Hno. left. reflexivity.
    + left. discriminate.
    + exfalso. eapply Hno. left. reflexivity.
Defined.

Lemma coerced_inputs_inhabit_their_class_witness :
  (∃ v, _coerce_field_value users_classes users_enums true (Entries ann) (Class "UserInput") = Ok v ∧
        inhabits users_classes users_enums users_plain (Class "UserInput") v ∧
        becomes users_classes users_enums true (Class "UserInput") (Entries ann) v) ∨
  (_coerce_field_value users_classes users_enums true (Entries ann) (Class "UserInput") = Err ValueError ∧
   blank_in users_classes true (Class "UserInput") (Entries ann)).
Proof.
  apply (coerced_inputs_inhabit_their_class users_classes users_enums true users_plain (λ _, false)).
  - apply users_well_formed.
  - reflexivity.
  - apply ann_conforms.
Defined.

(** Only what was sent is in the payload, under the names of the database. *)
Example ann_is_created :
  mutation_call users_classes users_enums true "UserInput" "app.create_user" [] true [("input", Entries ann)]
  = Ok ("SELECT row_to_json(app.create_user(%s::jsonb))::text",
        [PStr ("{" +:+ Json.quoted "full_name" +:+ ":" +:+ Json.quoted "Ann" +:+ "," +:+
               Json.quoted "status" +:+ ":" +:+ Json.quoted "closed" +:+ "," +:+
               Json.quoted "addresses" +:+ ":[{" +:+ Json.quoted "street_name" +:+ ":" +:+ Json.quoted "Main" +:+ "}]}")%stdpp]).
Proof. vm_compute. reflexivity. Qed.

Lemma mutation_sends_what_was_sent_witness :
  ∃ q ps, mutation_call users_classes users_enums true "UserInput" "app.create_user" [PUUID "t"] true [("input", Entries ann)]
    = Ok (q, ps) ∧
  ∃ attrs data text,
    q = ("SELECT row_to_json(" +:+ "app.create_user" +:+ "(" +:+ Str.join ", " ["%s"; "%s::jsonb"] +:+ "))::text")%stdpp ∧
    ps = [PUUID "t"; PStr text] ∧ dumps data = Ok text ∧
    sends users_classes users_enums true (Instance "UserInput" attrs) data ∧
    attrs.*1 = (collect_fraise_fields (users_classes "UserInput")).*1 ∧
    ∀ x a f, (x, (a, f)) ∈ collect_fraise_fields (users_classes "UserInput") →
      held users_classes users_enums true ann attrs x a f.
Proof.
  eexists _, _. split; [vm_compute; reflexivity|].
  apply (mutation_sends_what_was_sent users_classes users_enums true "UserInput" "app.create_user" [PUUID "t"] true
    [("input", Entries ann)] ann); [reflexivity| |reflexivity|vm_compute; reflexivity].
  apply (bool_decide_unpack _). vm_compute. exact I.
Defined.

(** ** Forms the coercion does not read *)

(** An optional list of objects stays a list of dictionaries: its objects are not built,
    a blank text is not refused, and a value JSON has no form for is not written. *)
Example optional_lists_of_objects_are_not_coerced :
  let items s := Items [Entries [("streetName", s)]] in
  let read := _coerce_field_value users_classes users_enums true in
  read (items (Text " ")) (ListOf (Class "AddressInput")) = Err ValueError ∧
  read (items (Text " ")) (optional (ListOf (Class "AddressInput"))) = Ok (items (Text " ")) ∧
  let classes c :=
    if c =s "MoveInput" then
      {| kind := "input"; annotations := [("addresses", (optional (ListOf (Class "AddressInput")), plain_field "list" (Some Null)))] |}
    else users_classes c in
  mutation_call classes users_enums true "MoveInput" "app.move" [] true
    [("input", Entries [("addresses", items (UUID "00000000-0000-0000-0000-000000000001"))])] = Err TypeError.
Proof. repeat split; vm_compute; reflexivity. Qed.

(** A parameter of a resolver annotated with an optional class gets the dictionary. *)
Example optional_arguments_are_not_coerced :
  let args := [("home", Entries [("streetName", Text "Main")])] in
  coerce_input_arguments users_classes users_enums true [("home", Some (optional (Class "AddressInput")))] args = Ok args ∧
  coerce_input_arguments users_classes users_enums true [("home", Some (Class "AddressInput"))] args
  = Ok [("home", Instance "AddressInput" [("street_name", Text "Main")])].
Proof. split; vm_compute; reflexivity. Qed.

(** A field with a GraphQL name of its own is in the schema under it, and not found. *)
Example graphql_names_are_not_looked_up :
  let named := {| default_ := None; default_factory := None; init := true; purpose := "input"; field_type := Plain "str";
                  graphql_name := Some "reference"; on_class := true |} in
  let classes := λ _ : string, {| kind := "input"; annotations := [("internal_ref", (Plain "str", named))] |} in
  coerce_input classes users_enums true (Entries [("reference", Text "A1")]) "ArticleInput" = Err ValueError ∧
  coerce_input classes users_enums true (Entries [("internalRef", Text "A1")]) "ArticleInput"
  = Ok (Instance "ArticleInput" [("internal_ref", Text "A1")]).
Proof. split; vm_compute; reflexivity. Qed.

(** A nullable text without a default may be left out or null for GraphQL, and is refused;
    a null in a list of objects raises [TypeError]. *)
Example nullable_texts_are_required :
  let classes := λ _ : string, {| kind := "input";
    annotations := [("note", (optional (Plain "str"),
      {| default_ := None; default_factory := None; init := true; purpose := "both";
         field_type := optional (Plain "str"); graphql_name := None; on_class := false |}))] |} in
  coerce_input classes users_enums true (Entries []) "NoteInput" = Err ValueError ∧
  coerce_input classes users_enums true (Entries [("note", Null)]) "NoteInput" = Err ValueError ∧
  _coerce_field_value users_classes users_enums true (Items [Null]) (ListOf (Class "AddressInput")) = Err TypeError.
Proof. repeat split; vm_compute; reflexivity. Qed.
