(* ===== verification/ResultCache.v ===== *)
(** * Cached reads of the repository

    [caching/cache_key.py], [caching/result_cache.py], the table of
    [caching/postgres_cache.py] and [caching/repository_integration.py].  SHA-256 and MD5
    are parameters, as is the text of what a GraphQL field selects; what a read of the
    wrapped repository comes to is an input, and a clock reading is a number. *)
From stdpp Require Import base decidable strings gmap list sorting.
From Stdlib Require Import ZArith Lia Ascii.
From S2P Require Import Prelude PyVal Apq.

Local Open Scope py_scope.
Local Open Scope Z_scope.

(** ** Keys ([CacheKeyBuilder]) *)

(** [value.isoformat()]: a datetime's text has its space replaced. *)
Definition isoformat (s : string) : string := Str.map (λ c, if Ascii.eqb c " " then "T"%char else c) s.

(** [json.dumps(v, sort_keys=True, default=str)] *)
Fixpoint dumps_str (v : pyval) : string :=
  match v with
  | PNone => "null"
  | PBool b => if b then "true" else "false"
  | PInt z => Num.string_of_Z z
  | PFloat f => Json.float f
  | PStr s => Json.quoted s
  | PList l | PTuple l => ("[" +:+ Str.join ", " (map dumps_str l) +:+ "]")%stdpp
  | PDict d =>
      ("{" +:+ Str.join ", " (map (λ kv, Json.quoted kv.1 +:+ ": " +:+ kv.2)
                                (sort_keys (map (λ kv, (kv.1, dumps_str kv.2)) d))) +:+ "}")%stdpp
  | v => Json.quoted (Py.str v)
  end.

(** The texts of a list of texts. *)
Fixpoint all_texts (l : list pyval) : option (list string) :=
  match l with
  | [] => Some []
  | PStr s :: l => match all_texts l with Some ss => Some (s :: ss) | None => None end
  | _ => None
  end.

(** [sorted(l)] on texts, keeping repeated ones. *)
Definition sorted_texts (l : list string) : list string := (sort_keys (map (λ s, (s, s)) l)).*1.

Section keys.
Context (md5 : string → string).

Definition _serialize_value (v : pyval) : string :=
  match v with
  | PUUID s => s
  | PDate s _ => s
  | PDatetime s _ => isoformat s
  | PList l | PTuple l =>
      match all_texts l with
      | Some ss => Str.join "," (sorted_texts ss)
      | None => Str.take 8 (md5 (dumps_str v))
      end
  | PBool b => if b then "true" else "false"
  | PNone => "null"
  | _ => Py.str v
  end.

Definition pair_text (k : string) (v : pyval) : string := (k +:+ ":" +:+ _serialize_value v)%stdpp.

(** [sorted(d.items())], the keys being distinct. *)
Fixpoint insert_item (x : string * pyval) (l : list (string * pyval)) : list (string * pyval) :=
  match l with
  | [] => [x]
  | y :: l' => if Str.ltb x.1 y.1 then x :: l else y :: insert_item x l'
  end.

Definition sorted_items (d : list (string * pyval)) : list (string * pyval) := foldr insert_item [] d.

Definition _serialize_filter (f : string) (v : pyval) : string :=
  match v with
  | PDict d => Str.join ":" (f :: map (λ kv, pair_text kv.1 kv.2) (sorted_items d))
  | _ => pair_text f v
  end.

(** [order_by] as the tuples [_convert_order_by_to_tuples] returns. *)
Definition build_key (prefix query_name : string) (tenant_id : option pyval) (filters : list (string * pyval))
    (order_by : list (string * string)) (limit offset : option Z) (kwargs : list (string * pyval)) : string :=
  Str.join ":"
    ([prefix]
       ++ match tenant_id with Some t => [Py.str t] | None => [] end
       ++ [query_name]
       ++ map (λ kv, _serialize_filter kv.1 kv.2) (sorted_items filters)
       ++ map (λ o, "order:" +:+ o.1 +:+ ":" +:+ o.2)%stdpp order_by
       ++ match limit with Some n => [("limit:" +:+ Num.string_of_Z n)%stdpp] | None => [] end
       ++ match offset with Some n => [("offset:" +:+ Num.string_of_Z n)%stdpp] | None => [] end
       ++ map (λ kv, pair_text kv.1 kv.2) (sorted_items kwargs)).

Definition build_mutation_pattern (prefix table_name : string) : string :=
  (prefix +:+ ":" +:+ table_name +:+ ":*")%stdpp.
End keys.

(** ** The result cache, over any backend *)

(** A backend's operations; an error stands for any exception.  [PNone] is a miss. *)
Class CacheBackend (S : Type) := {
  get : Z → string → S → result pyval * S;
  set : Z → string → pyval → Z → S → result unit * S;
  delete : string → S → result bool * S;
  delete_pattern : string → S → result Z * S
}.

Record CacheConfig := {
  enabled : bool;
  default_ttl : Z;
  max_ttl : Z;
  cache_errors : bool;
  key_prefix : string
}.

Record CacheStats := { hits : Z; misses : Z; errors : Z }.

Definition hit (t : CacheStats) : CacheStats := {| hits := hits t + 1; misses := misses t; errors := errors t |}.
Definition miss (t : CacheStats) : CacheStats := {| hits := hits t; misses := misses t + 1; errors := errors t |}.
Definition failed (t : CacheStats) : CacheStats := {| hits := hits t; misses := misses t; errors := errors t + 1 |}.

(** What a call of the application's code comes to. *)
Inductive outcome (A : Type) := Returns (v : A) | Raises (e : exn).
Arguments Returns {_} _.
Arguments Raises {_} _.

Section result_cache.
Context {S : Type} `{!CacheBackend S} (config : CacheConfig).

(** [min(ttl or default_ttl, max_ttl)] *)
Definition time_to_live (ttl : option Z) : Z :=
  Z.min (match ttl with Some t => if t =? 0 then default_ttl config else t | None => default_ttl config end)
    (max_ttl config).

(** After a miss: the function is called, and what it returns is stored. *)
Definition call_and_set (later : Z) (key : string) (func : outcome pyval) (ttl : option Z) (t : CacheStats) (s : S)
    : outcome pyval * CacheStats * S :=
  match func with
  | Raises e => (Raises e, miss t, s)
  | Returns v =>
      match set later key v (time_to_live ttl) s with
      | (Ok _, s) => (Returns v, miss t, s)
      | (Err _, s) => (Returns v, failed (miss t), s)
      end
  end.

(** What a look at the cache comes to: a value, or a call of the function, whose result is
    stored or not. *)
Inductive looked := Served (v : pyval) | Calls (stores : bool).

Definition look_up (now : Z) (key : string) (t : CacheStats) (s : S) : looked * CacheStats * S :=
  if negb (enabled config) then (Calls false, t, s)
  else
    match get now key s with
    | (Ok PNone, s) => (Calls true, t, s)
    | (Ok cached, s) => (Served cached, hit t, s)
    | (Err _, s) => (Calls (cache_errors config), failed t, s)
    end.

(** The whole of [get_or_set] with nothing in between its awaits: [func] is what the function
    comes to if it is called; the clock is read by [get] and later by [set]. *)
Definition get_or_set (now later : Z) (key : string) (func : outcome pyval) (ttl : option Z) (t : CacheStats) (s : S)
    : outcome pyval * CacheStats * S :=
  match look_up now key t s with
  | (Served v, t, s) => (Returns v, t, s)
  | (Calls true, t, s) => call_and_set later key func ttl t s
  | (Calls false, t, s) => (func, t, s)
  end.

Definition invalidate (key : string) (s : S) : S := (delete key s).2.
Definition invalidate_pattern (pattern : string) (s : S) : S := (delete_pattern pattern s).2.

(** [warm_cache]: each query with its filters, what it comes to, and the time of the write. *)
Definition warm (md5 : string → string) (s : S) (q : string * list (string * pyval) * outcome pyval * Z) : S :=
  let '(query_name, filters, result, later) := q in
  match result with
  | Returns v =>
      (set later (build_key md5 (key_prefix config) query_name None filters [] None None []) v (default_ttl config) s).2
  | Raises _ => s
  end.

Definition warm_cache (md5 : string → string) (queries : list (string * list (string * pyval) * outcome pyval * Z)) (s : S) : S :=
  foldl (warm md5) s queries.

(** The key the [cached_query] decorator makes of a call. *)
Definition call_key (name : string) (args : list pyval) (kwargs : list (string * pyval)) : string :=
  Str.join ":" (name :: map Py.str args ++ map (λ kv, kv.1 +:+ ":" +:+ Py.str kv.2)%stdpp (sorted_items kwargs)).

(** A decorated function called with these arguments, [skip_cache] taken out of them. *)
Definition cached_query (ttl : option Z) (key_func : option (list (string * pyval) → string)) (name : string)
    (now later : Z) (skip_cache : bool) (args : list pyval) (kwargs : list (string * pyval)) (func : outcome pyval)
    (t : CacheStats) (s : S) : outcome pyval * CacheStats * S :=
  if skip_cache then (func, t, s)
  else
    get_or_set now later (match key_func with Some f => f kwargs | None => call_key name args kwargs end) func ttl t s.
End result_cache.

(** ** The table in PostgreSQL ([PostgresCache]) *)

(** [s LIKE pattern]; PostgreSQL refuses a pattern that ends with a backslash. *)
Fixpoint like (pattern : string) : string → bool :=
  match pattern with
  | EmptyString => λ s, s =s EmptyString
  | String c p =>
      if Ascii.eqb c "%" then
        fix any (s : string) : bool := like p s || match s with EmptyString => false | String _ s' => any s' end
      else if Ascii.eqb c "_" then λ s, match s with String _ s' => like p s' | EmptyString => false end
      else if Ascii.eqb c "\" then
        match p with
        | String d p' => λ s, match s with String e s' => Ascii.eqb d e && like p' s' | EmptyString => false end
        | EmptyString => λ _, false
        end
      else λ s, match s with String e s' => Ascii.eqb c e && like p s' | EmptyString => false end
  end.

(** [pattern.replace("*", "%")] *)
Definition sql_pattern (pattern : string) : string :=
  Str.map (λ c, if Ascii.eqb c "*" then "%"%char else c) pattern.

(** What JSON makes of a value: a tuple becomes a list. *)
Fixpoint as_json (v : pyval) : pyval :=
  match v with
  | PList l | PTuple l => PList (map as_json l)
  | PDict d => PDict (map (λ kv, (kv.1, as_json kv.2)) d)
  | _ => v
  end.

(** The rows with the times they expire at, and whether the database answers. *)
Record table := { rows : gmap string (pyval * Z); available : bool }.

(** A value that looks like one stored with the versions of its domains is unwrapped. *)
Definition unwrapped (v : pyval) : pyval :=
  match v with
  | PDict d => if dict_has "result" d && dict_has "versions" d then Py.get "result" d else v
  | _ => v
  end.

Definition with_rows (s : table) (r : gmap string (pyval * Z)) : table := {| rows := r; available := available s |}.

Definition table_get (now : Z) (key : string) (s : table) : result pyval * table :=
  if available s then
    match rows s !! key with
    | Some (v, expires_at) => (Ok (if now <? expires_at then unwrapped v else PNone), s)
    | None => (Ok PNone, s)
    end
  else (Err RuntimeError, s).

(** What is stored, with the versions of its domains when the extension keeps them. *)
Definition with_metadata (has_domain_versioning : bool) (v : pyval) (versions : list (string * pyval)) (cached_at : string)
    : pyval :=
  if has_domain_versioning && negb (bool_decide (versions = [])) then
    PDict [("result", v); ("versions", PDict versions); ("cached_at", PStr (isoformat cached_at))]
  else v.

(** The value is serialised, then written. *)
Definition write (now : Z) (key : string) (cache_value : pyval) (ttl : Z) (s : table) : result unit * table :=
  if available s then
    match Json.dumps cache_value with
    | Ok _ => (Ok (), with_rows s (<[key := (as_json cache_value, now + ttl)]> (rows s)))
    | Err _ => (Err ValueError, s)
    end
  else (Err RuntimeError, s).

(** [set] as the result cache calls it, without domain versions. *)
Definition table_set (now : Z) (key : string) (v : pyval) (ttl : Z) (s : table) : result unit * table :=
  write now key (with_metadata false v [] EmptyString) ttl s.

(** [get_with_metadata]; no versions are given as [PNone]. *)
Definition get_with_metadata (now : Z) (key : string) (s : table) : result (pyval * pyval) :=
  if available s then
    match rows s !! key with
    | Some (v, expires_at) =>
        if now <? expires_at then
          Ok (match v with
              | PDict d => if dict_has "result" d && dict_has "versions" d then (Py.get "result" d, Py.get "versions" d) else (v, PNone)
              | _ => (v, PNone)
              end)
        else Ok (PNone, PNone)
    | None => Ok (PNone, PNone)
    end
  else Err RuntimeError.

Definition exists_ (now : Z) (key : string) (s : table) : result bool :=
  if available s then
    Ok (match rows s !! key with Some (_, expires_at) => now <? expires_at | None => false end)
  else Err RuntimeError.

Definition clear_all (s : table) : result Z * table :=
  if available s then (Ok (Z.of_nat (size (rows s))), with_rows s ∅) else (Err RuntimeError, s).

Definition table_delete (key : string) (s : table) : result bool * table :=
  if available s then (Ok (bool_decide (is_Some (rows s !! key))), with_rows s (base.delete key (rows s)))
  else (Err RuntimeError, s).

Definition matching (pattern : string) (s : table) : gmap string (pyval * Z) :=
  filter (λ kv, like (sql_pattern pattern) kv.1 = true) (rows s).

Definition table_delete_pattern (pattern : string) (s : table) : result Z * table :=
  if available s then
    (Ok (Z.of_nat (size (matching pattern s))),
     with_rows s (filter (λ kv, like (sql_pattern pattern) kv.1 = false) (rows s)))
  else (Err RuntimeError, s).

#[export] Instance PostgresCache : CacheBackend table := {|
  get := table_get; set := table_set; delete := table_delete; delete_pattern := table_delete_pattern
|}.

Definition cleanup_expired (now : Z) (s : table) : result Z * table :=
  if available s then
    (Ok (Z.of_nat (size (filter (λ kv, kv.2.2 ≤ now) (rows s)))), with_rows s (filter (λ kv, now < kv.2.2) (rows s)))
  else (Err RuntimeError, s).

(** ** The repository behind a cache *)

(** What [find] returns: a response of the Rust pipeline, or another value. *)
Inductive found :=
| Rust (json : string) (schema_type : option string)
| Plain (v : pyval).

Definition _RUST_RESPONSE_MARKER : string := "__fraiseql_rust_response__".

Definition _encode (v : found) : pyval :=
  match v with
  | Rust json schema_type =>
      PDict [(_RUST_RESPONSE_MARKER, PStr json);
             ("schema_type", match schema_type with Some t => PStr t | None => PNone end)]
  | Plain v => v
  end.

(** The stored text is a text; anything else has no [encode]. *)
Definition _decode (v : pyval) : result found :=
  match v with
  | PDict d =>
      match dict_get _RUST_RESPONSE_MARKER d with
      | Some (PStr json) =>
          Ok (Rust json (match Py.get "schema_type" d with PStr t => Some t | _ => None end))
      | Some _ => Err AttributeError
      | None => Ok (Plain v)
      end
  | _ => Ok (Plain v)
  end.

(** A cached read: of [find_one] when [one], under the request's tenant; [selection] is the
    text of what the GraphQL field selects, when there is one. *)
Record read := {
  view : string;
  one : bool;
  tenant : option pyval;
  field_name : option string;
  arguments : list (string * pyval);
  selection : option string;
  cache_ttl : option Z;
  skip_cache : bool
}.

Section repository.
Context (sha256 md5 : string → string) (config : CacheConfig).

Definition short (text : string) : string := Str.take 16 (sha256 text).

Definition arguments_text (r : read) : string :=
  dumps_str (PDict (dict_set "field_name" (match field_name r with Some f => PStr f | None => PNone end) [] ++ arguments r)).

Definition _arguments_fingerprint (r : read) : string := short (arguments_text r).

Definition _build_key (r : read) : string :=
  build_key md5 (key_prefix config) (if one r then (view r +:+ ":one")%stdpp else view r) (tenant r) [] [] None None
    [("q", PStr (Str.join ":" (_arguments_fingerprint r :: match selection r with
                                                       | Some text => [short text]
                                                       | None => []
                                                       end)))].

(** What the wrapped repository's read comes to, as it is stored, and back. *)
Definition fetched (fresh : outcome found) : outcome pyval :=
  match fresh with Returns v => Returns (_encode v) | Raises e => Raises e end.

Definition decoded (o : outcome pyval) : outcome found :=
  match o with
  | Returns v => match _decode v with Ok f => Returns f | Err e => Raises e end
  | Raises e => Raises e
  end.

(** [_cached], nothing happening in between its awaits. *)
Definition cached {S} `{!CacheBackend S} (now later : Z) (r : read) (fresh : outcome found) (t : CacheStats) (s : S)
    : outcome found * CacheStats * S :=
  if skip_cache r then (fresh, t, s)
  else
    let '(o, t, s) := get_or_set config now later (_build_key r) (fetched fresh) (cache_ttl r) t s in
    (decoded o, t, s).

(** [name.rsplit(".", 1)[-1]] *)
Definition after_last (sep name : string) : string :=
  match Str.rpartition sep name with Some (_, after) => after | None => name end.

Definition view_patterns (view_name : string) (all_tenants : bool) (tenant_id : option pyval) : list string :=
  let prefix := key_prefix config in
  let name := after_last "." view_name in
  match all_tenants, tenant_id with
  | false, Some t =>
      [(prefix +:+ ":" +:+ Py.str t +:+ ":" +:+ name +:+ ":*")%stdpp;
       (prefix +:+ ":" +:+ Py.str t +:+ ":*." +:+ name +:+ ":*")%stdpp]
  | _, _ =>
      [(prefix +:+ ":" +:+ name +:+ ":*")%stdpp;
       (prefix +:+ ":*:" +:+ name +:+ ":*")%stdpp;
       (prefix +:+ ":*." +:+ name +:+ ":*")%stdpp]
  end.

Definition invalidate_view {S} `{!CacheBackend S} (view_name : string) (all_tenants : bool) (tenant_id : option pyval)
    (s : S) : S :=
  foldl (λ s p, invalidate_pattern p s) s (view_patterns view_name all_tenants tenant_id).

(** [_FUNCTION_VERB.sub("", name)] *)
Definition verbs : list string :=
  ["create"; "insert"; "add"; "update"; "upsert"; "edit"; "patch"; "set"; "delete"; "remove"; "archive"; "restore"].

Fixpoint without_verb (verbs : list string) (name : string) : option string :=
  match verbs with
  | [] => None
  | v :: verbs =>
      if Str.starts_with (v +:+ "_")%stdpp name then Some (Str.drop (S (String.length v)) name)
      else without_verb verbs name
  end.

Definition after_verb (name : string) : string :=
  match (if Str.starts_with "fn_" name then without_verb verbs (Str.drop 3 name) else None) with
  | Some entity => entity
  | None => default name (without_verb verbs name)
  end.

(** [dict.fromkeys(...)] keeps the first of equal keys. *)
Definition entities (function_name : string) : list string :=
  let name := after_last "." function_name in
  let a := after_verb name in
  let b := after_last "_" name in
  List.filter Str.nonempty (if a =s b then [a] else [a; b]).

Definition written_views (function_name : string) : list string :=
  concat (map (λ entity, concat (map (λ prefix, map (λ suffix, prefix +:+ entity +:+ suffix)%stdpp [EmptyString; "s"])
                                   [EmptyString; "v_"; "tv_"])) (entities function_name)).

Definition invalidate_for_function {S} `{!CacheBackend S} (function_name : string) (s : S) : S :=
  foldl (λ s v, invalidate_view v true None s) s (written_views function_name).

(** [execute_function]: the function's result, then the views it writes. *)
Definition execute_function {S} `{!CacheBackend S} (function_name : string) (result : outcome pyval) (s : S)
    : outcome pyval * S :=
  match result with
  | Returns v => (Returns v, invalidate_for_function function_name s)
  | Raises e => (Raises e, s)
  end.

(** ** Between the awaits

    [get], the read, [set] and every [delete_pattern] are awaited apart, so the requests of
    a server take turns between them. *)

(** The table, and the reads that are under way: what each comes to, by a number of its own. *)
Record serving := { stored : table; running : gmap nat (read * outcome found) }.

Inductive event :=
| Asks (i : nat) (now : Z) (r : read) (fresh : outcome found)
| Stores (i : nat) (later : Z)
| Deletes (pattern : string)
| Database (answers : bool)
| Cleanup (now : Z).

Definition no_stats : CacheStats := {| hits := 0; misses := 0; errors := 0 |}.

(** The answer of a read that looks at the table now. *)
Definition answer (now : Z) (r : read) (fresh : outcome found) (s : table) : outcome found :=
  if skip_cache r then fresh
  else match (look_up config now (_build_key r) no_stats s).1.1 with
       | Served v => decoded (Returns v)
       | Calls _ => decoded (fetched fresh)
       end.

Definition with_stored (s : table) (w : serving) : serving := {| stored := s; running := running w |}.

Definition happens (w : serving) (e : event) : serving :=
  match e with
  | Asks i now r fresh =>
      if skip_cache r then w
      else match look_up config now (_build_key r) no_stats (stored w) with
           | (Calls true, _, s) => {| stored := s; running := <[i := (r, fresh)]> (running w) |}
           | (_, _, s) => with_stored s w
           end
  | Stores i later =>
      match running w !! i with
      | Some (r, fresh) =>
          {| stored := (call_and_set config later (_build_key r) (fetched fresh) (cache_ttl r) no_stats (stored w)).2;
             running := base.delete i (running w) |}
      | None => w
      end
  | Deletes p => with_stored (invalidate_pattern p (stored w)) w
  | Database answers => with_stored {| rows := rows (stored w); available := answers |} w
  | Cleanup now => with_stored (cleanup_expired now (stored w)).2 w
  end.

Definition run (l : list event) : serving := foldl happens {| stored := {| rows := ∅; available := true |}; running := ∅ |} l.

(** The deletions of a write through a function, in order. *)
Definition function_patterns (function_name : string) : list string :=
  concat (map (λ v, view_patterns v true None) (written_views function_name)).
End repository.
