(* ===== verification/CacheLaws.v ===== *)
(** * Laws of cached reads

    A cache that fails is not seen; what a hit answers, and which reads a write forgets. *)
From stdpp Require Import base decidable strings gmap list sorting.
From Stdlib Require Import ZArith Lia Ascii.
From S2P Require Import Prelude PyVal Dates Casing Sql Grouping Pagination Views OrderBy FindQuery UnionQuery FindLaws ResultCache.

Local Open Scope py_scope.
Local Open Scope Z_scope.

(** ** Any backend *)

Section any_backend.
Context {S : Type} `{!CacheBackend S} (config : CacheConfig).

Definition raised {A B} (x : result A * B) : Z := match x.1 with Ok _ => 0 | Err _ => 1 end.

(** The operations of the backend that raise in a call. *)
Definition failures (now later : Z) (key : string) (func : outcome pyval) (ttl : option Z) (s : S) : Z :=
  let on_set s := match func with Returns v => raised (set later key v (time_to_live config ttl) s) | Raises _ => 0 end in
  match get now key s with
  | (Ok PNone, s) => on_set s
  | (Ok _, _) => 0
  | (Err _, s) => 1 + (if cache_errors config then on_set s else 0)
  end.

Lemma call_and_set_spec later key func ttl t (s : S) :
  let r := call_and_set config later key func ttl t s in
  r.1.1 = func ∧ hits r.1.2 = hits t ∧ misses r.1.2 = misses t + 1 ∧
  errors r.1.2 = errors t + match func with Returns v => raised (set later key v (time_to_live config ttl) s) | Raises _ => 0 end.
Proof using Type.
  unfold call_and_set, raised. destruct func as [v|e]; [|cbn; repeat split; lia].
  destruct (set _ _ _ _ _) as [[] ?]; cbn; repeat split; lia.
Qed.

Lemma get_or_set_cases now later key func ttl t (s : S) :
  enabled config = true →
  let r := get_or_set config now later key func ttl t s in
  (∃ v s1, get now key s = (Ok v, s1) ∧ v ≠ PNone ∧ r = (Returns v, hit t, s1)) ∨
  (r.1.1 = func ∧ hits r.1.2 = hits t ∧ errors r.1.2 = errors t + failures now later key func ttl s).
Proof using Type.
  intros He. unfold get_or_set, look_up, failures. rewrite He. cbn [negb]. destruct (get now key s) as [[v|e] s1] eqn:Hg.
  - destruct v; try (left; eexists _, s1; by split). right. pose proof (call_and_set_spec later key func ttl t s1). cbn in *. naive_solver.
  - right. destruct (cache_errors config); [|by cbn].
    pose proof (call_and_set_spec later key func ttl (failed t) s1) as (-> & -> & _ & ->). cbn. repeat split. lia.
Qed.

(** C35. Whatever the backend does, raise on reading, on writing or on both, a cached call
    answers with the value the backend gave for the key, which counts as a hit, or with
    what the function itself comes to: no exception but the function's own escapes, and
    every operation of the backend that raised is counted as an error.  A cache that is
    switched off calls the function and touches nothing. *)
Theorem a_failing_cache_is_not_seen now later key func ttl t (s : S) :
  let r := get_or_set config now later key func ttl t s in
  if enabled config then
    (∃ v s1, get now key s = (Ok v, s1) ∧ v ≠ PNone ∧ r = (Returns v, hit t, s1)) ∨
    (r.1.1 = func ∧ hits r.1.2 = hits t ∧ errors r.1.2 = errors t + failures now later key func ttl s)
  else r = (func, t, s).
Proof using Type.
  destruct (enabled config) eqn:He; [by apply get_or_set_cases|]. unfold get_or_set, look_up. by rewrite He.
Qed.
End any_backend.

(** ** Patterns *)

(** A wildcard takes any text. *)
Lemma like_percent p x s : like p s = true → like (String "%" p) (x +:+ s)%stdpp = true.
Proof.
  intros Hp. cbn [like]. change (Ascii.eqb "%" "%") with true. cbv iota. induction x as [|c x IH].
  - rewrite app_nil_l_str. destruct s; by rewrite Hp.
  - rewrite app_cons_str. by rewrite IH, orb_true_r.
Qed.

Lemma no_backslash c a : Str.has_char "\" (String c a) = false → Ascii.eqb c "\" = false ∧ Str.has_char "\" a = false.
Proof. unfold Str.has_char, Str.existsb. cbn -[Ascii.eqb]. rewrite (Ascii.eqb_sym "\" c). by destruct (Ascii.eqb c "\"). Qed.

(** A text matches itself, its stars read as wildcards, if it has no backslash. *)
Lemma like_self a p s :
  Str.has_char "\" a = false → like p s = true → like (sql_pattern a +:+ p)%stdpp (a +:+ s)%stdpp = true.
Proof.
  intros Ha Hp. induction a as [|c a IH]; [done|]. apply no_backslash in Ha as [Hc Ha]. specialize (IH Ha).
  unfold sql_pattern in *. cbn [Str.map]. rewrite !app_cons_str. destruct (Ascii.eqb c "*") eqn:E.
  - exact (like_percent _ (String c EmptyString) _ IH).
  - destruct (Ascii.eqb c "%") eqn:E1.
    + apply Ascii.eqb_eq in E1 as ->. exact (like_percent _ (String "%" EmptyString) _ IH).
    + cbn [like]. rewrite E1. destruct (Ascii.eqb c "_"); [done|]. by rewrite Hc, Ascii.eqb_refl.
Qed.

Lemma sql_pattern_app a b : sql_pattern (a +:+ b)%stdpp = (sql_pattern a +:+ sql_pattern b)%stdpp.
Proof. induction a as [|c a IH]; [done|]. unfold sql_pattern in *. rewrite !app_cons_str. cbn [Str.map]. by rewrite app_cons_str, IH. Qed.

Lemma starts_with_drop p s : Str.starts_with p s = true → s = (p +:+ Str.drop (String.length p) s)%stdpp.
Proof.
  revert s. induction p as [|c p IH]; intros s; [done|]. destruct s as [|d s]; [done|]. cbn.
  intros [Hc Hp]%andb_true_iff. apply Ascii.eqb_eq in Hc as ->. rewrite app_cons_str. f_equal. by apply IH.
Qed.

Lemma rpartition_Some sep s x y : Str.rpartition sep s = Some (x, y) → s = (x +:+ sep +:+ y)%stdpp.
Proof.
  revert x y. induction s as [|c s IH]; intros x y; [done|]. cbn [Str.rpartition].
  destruct (Str.rpartition sep s) as [[x' y']|].
  - intros [= <- <-]. rewrite app_cons_str. f_equal. by apply IH.
  - destruct (Str.starts_with sep (String c s)) eqn:E; [|done]. intros [= <- <-]. by apply starts_with_drop in E.
Qed.

(** A name without its schema. *)
Lemma after_last_eq name : name = after_last "." name ∨ ∃ schema, name = (schema +:+ "." +:+ after_last "." name)%stdpp.
Proof.
  unfold after_last. destruct (Str.rpartition "." name) as [[x y]|] eqn:E; [right|by left]. exists x. by apply rpartition_Some.
Qed.

Lemma join_cons sep x l : l ≠ [] → Str.join sep (x :: l) = (x +:+ sep +:+ Str.join sep l)%stdpp.
Proof. by destruct l. Qed.

(** *** Parts between colons *)

Definition colon : ascii := ":"%char.

Lemma split_app a b : Str.split colon (a +:+ ":" +:+ b)%stdpp = Str.split colon a ++ Str.split colon b.
Proof.
  induction a as [|c a IH]; [by rewrite app_nil_l_str|]. rewrite app_cons_str. cbn [Str.split].
  destruct (Ascii.eqb c colon); [by rewrite IH|]. rewrite IH.
  assert (∀ x, Str.split colon x ≠ []) as Hne.
  { intros x. destruct x as [|d x]; [done|]. cbn. destruct (Ascii.eqb d colon); [done|]. by destruct (Str.split colon x). }
  specialize (Hne a). by destruct (Str.split colon a).
Qed.

Lemma split_colon b : Str.split colon (":" +:+ b)%stdpp = EmptyString :: Str.split colon b.
Proof. done. Qed.

Lemma split_plain s : Str.has_char colon s = false → Str.split colon s = [s].
Proof.
  induction s as [|c s IH]; [done|]. unfold Str.has_char, Str.existsb in *. cbn -[Ascii.eqb]. intros Hc.
  rewrite (Ascii.eqb_sym colon c) in Hc. destruct (Ascii.eqb c colon); [done|]. cbn in Hc. by rewrite IH.
Qed.

Lemma hex_plain s : Str.forallb Str.is_hex s = true → Str.has_char colon s = false ∧ s ≠ "q".
Proof.
  intros Hs. split; [|by intros ->]. induction s as [|c s IH]; [done|]. cbn [Str.forallb] in Hs.
  apply andb_true_iff in Hs as [Hc Hs]. unfold Str.has_char, Str.existsb in *. cbn -[Ascii.eqb].
  destruct (Ascii.eqb colon c) eqn:E; [|by apply IH]. apply Ascii.eqb_eq in E as <-. done.
Qed.

Lemma take_hex n s : Str.forallb Str.is_hex s = true → Str.forallb Str.is_hex (Str.take n s) = true.
Proof.
  revert s. induction n as [|n IH]; intros s; [by destruct s|]. destruct s as [|c s]; [done|]. cbn.
  rewrite !andb_true_iff. naive_solver.
Qed.

Lemma split_join l : l ≠ [] → Forall (λ x, Str.has_char colon x = false) l → Str.split colon (Str.join ":" l) = l.
Proof.
  intros Hne Hl. induction Hl as [|x [|y l] Hx _ IH]; [done|by apply split_plain|].
  change (Str.join ":" (x :: y :: l)) with (x +:+ ":" +:+ Str.join ":" (y :: l))%stdpp.
  rewrite split_app, split_plain, IH by done. done.
Qed.

Lemma join_colons s : Str.join ":" (Str.split colon s) = s.
Proof.
  induction s as [|a s IH]; [done|]. cbn [Str.split].
  destruct (split_cons colon s) as (w & ws & E). rewrite E in *.
  destruct (Ascii.eqb_spec a colon) as [->|Ha].
  - change (Str.join ":" (EmptyString :: w :: ws)) with (":" +:+ Str.join ":" (w :: ws))%stdpp. by rewrite IH.
  - rewrite <- IH. destruct ws; [done|]. rewrite (join_cons _ (String a w)), (join_cons _ w) by done. by rewrite app_cons_str.
Qed.

(** Around the last [q]. *)
Lemma app_last_inj {A} (q : A) a b a' b' : a ++ q :: b = a' ++ q :: b' → q ∉ b → q ∉ b' → a = a' ∧ b = b'.
Proof.
  revert a'. induction a as [|x a IH]; intros [|x' a'] E Hb Hb'; cbn in E.
  - by injection E.
  - injection E as -> ->. set_solver.
  - injection E as -> <-. set_solver.
  - injection E as -> E. destruct (IH a' E Hb Hb') as [-> ->]. done.
Qed.

Section repository_laws.
Context (sha256 md5 : string → string) (config : CacheConfig).

Abbreviation key_of := (_build_key sha256 md5 config).
Abbreviation prefix := (key_prefix config).

Definition fingerprints (r : read) : list string :=
  _arguments_fingerprint sha256 r :: match selection r with Some text => [short sha256 text] | None => [] end.

Definition tail_of (r : read) : string :=
  ((if one r then ":one" else EmptyString) +:+ ":q:" +:+ Str.join ":" (fingerprints r))%stdpp.

Lemma key_eq r :
  key_of r = (prefix +:+ match tenant r with Some t => (":" +:+ Py.str t)%stdpp | None => EmptyString end +:+ ":" +:+ view r +:+ tail_of r)%stdpp.
Proof using Type.
  unfold _build_key, build_key, tail_of. cbn [sorted_items foldr insert_item map app].
  assert (∀ v, pair_text md5 "q" (PStr v) = ("q:" +:+ v)%stdpp) as Hq by done. cbn [fst snd]. rewrite Hq. fold (fingerprints r).
  generalize (Str.join ":" (fingerprints r)) as q. intros q.
  destruct (tenant r) as [t|]; cbn [app]; rewrite !join_cons by done; cbn [Str.join String.concat];
    destruct (one r); rewrite ?app_assoc_str; reflexivity.
Qed.

(** ** Invalidation *)

Lemma tail_colon r : ∃ rest, tail_of r = (":" +:+ rest)%stdpp.
Proof using Type. unfold tail_of. destruct (one r); rewrite ?app_assoc_str; by eexists. Qed.

(** A pattern's part takes a text, whatever follows. *)
Definition takes (m x : string) : Prop := ∀ p s, like p s = true → like (sql_pattern m +:+ p)%stdpp (x +:+ s)%stdpp = true.

Lemma takes_self a : Str.has_char "\" a = false → takes a a.
Proof using Type. intros Ha p s. by apply like_self. Qed.

Lemma takes_star x : takes "*" x.
Proof using Type. intros p s. apply like_percent. Qed.

Lemma takes_app m m' x x' : takes m x → takes m' x' → takes (m +:+ m')%stdpp (x +:+ x')%stdpp.
Proof using Type. intros Hm Hm' p s Hp. rewrite sql_pattern_app, !app_assoc_str. auto. Qed.

Lemma takes_like m x : takes m x → like (sql_pattern m) x = true.
Proof using Type.
  intros Hm. rewrite <- (app_nil_r_str (sql_pattern m)), <- (app_nil_r_str x). by apply Hm.
Qed.

Definition literal (s : string) : Prop := Str.has_char "\" s = false.

(** The views whose keys an invalidation removes: of the same name in any schema, and of
    any tenant or of the one named. *)
Definition covers (view_name : string) (all_tenants : bool) (tenant_id : option pyval) (r : read) : Prop :=
  after_last "." view_name = after_last "." (view r) ∧
  (all_tenants = true ∨ tenant_id = None ∨ Py.str <$> tenant r = Py.str <$> tenant_id).

(** What stands between the prefix and the view's name in a key. *)
Definition before_name (r : read) (mid : string) : Prop :=
  ∃ rest, key_of r = (prefix +:+ ":" +:+ mid +:+ after_last "." (view r) +:+ ":" +:+ rest)%stdpp.

Lemma key_names_its_view r :
  ∃ schema, (schema = EmptyString ∨ ∃ x, schema = (x +:+ ".")%stdpp) ∧
    before_name r ((match tenant r with Some t => (Py.str t +:+ ":")%stdpp | None => EmptyString end) +:+ schema)%stdpp.
Proof using Type.
  destruct (tail_colon r) as [rest Hrest]. destruct (after_last_eq (view r)) as [E|[x E]].
  - exists EmptyString. split; [by left|]. exists rest. rewrite key_eq, Hrest. rewrite E at 1.
    destruct (tenant r); rewrite ?app_nil_r_str, ?app_assoc_str; reflexivity.
  - exists (x +:+ ".")%stdpp. split; [eauto|]. exists rest. rewrite key_eq, Hrest. rewrite E at 1.
    destruct (tenant r); rewrite ?app_nil_r_str, ?app_assoc_str; reflexivity.
Qed.

Lemma pattern_takes_key r m mid :
  before_name r mid → literal prefix → literal (after_last "." (view r)) → takes m mid →
  like (sql_pattern (prefix +:+ ":" +:+ m +:+ after_last "." (view r) +:+ ":*")%stdpp) (key_of r) = true.
Proof using Type.
  intros [rest ->] Hp Hn Hm. apply takes_like.
  apply takes_app; [by apply takes_self|]. apply takes_app; [by apply takes_self|]. apply takes_app; [done|].
  apply takes_app; [by apply takes_self|]. apply (takes_app ":" "*"); [by apply takes_self|apply takes_star].
Qed.

Lemma covered_key view_name all_tenants tenant_id r :
  covers view_name all_tenants tenant_id r → literal prefix → literal (after_last "." view_name) →
  (∀ t, tenant_id = Some t → literal (Py.str t)) →
  ∃ p, p ∈ view_patterns config view_name all_tenants tenant_id ∧ like (sql_pattern p) (key_of r) = true.
Proof using Type.
  intros [Hn Ht] Hp Hname Hten. rewrite Hn in Hname. unfold view_patterns. rewrite Hn.
  destruct (key_names_its_view r) as (schema & Hs & Hb).
  assert (∃ p, p ∈ [(prefix +:+ ":" +:+ after_last "." (view r) +:+ ":*")%stdpp;
       (prefix +:+ ":*:" +:+ after_last "." (view r) +:+ ":*")%stdpp;
       (prefix +:+ ":*." +:+ after_last "." (view r) +:+ ":*")%stdpp] ∧ like (sql_pattern p) (key_of r) = true) as Hall.
  { clear Ht. destruct Hs as [->|[x ->]].
    - rewrite app_nil_r_str in Hb. destruct (tenant r) as [t|].
      + eexists. split; [right; by left|]. apply (pattern_takes_key r "*:" _ Hb Hp Hname).
        apply (takes_app "*" ":"); [apply takes_star|by apply takes_self].
      + eexists. split; [by left|]. apply (pattern_takes_key r EmptyString _ Hb Hp Hname). by intros p s.
    - eexists. split; [right; right; by left|]. apply (pattern_takes_key r "*." _ Hb Hp Hname).
      rewrite <- app_assoc_str. apply (takes_app "*" "."); [apply takes_star|by apply takes_self]. }
  destruct all_tenants; [exact Hall|]. destruct tenant_id as [t|]; [|exact Hall].
  destruct Ht as [?|[?|Ht]]; [done|done|].
  destruct (tenant r) as [t'|]; [|done]. injection Ht as Ht. rewrite Ht in Hb.
  assert (takes (Py.str t) (Py.str t)) as Htt by (apply takes_self; by apply Hten).
  destruct Hs as [->|[x ->]].
  - eexists. split; [by left|]. rewrite app_nil_r_str in Hb.
    pose proof (pattern_takes_key r (Py.str t +:+ ":")%stdpp _ Hb Hp Hname) as Hk. rewrite !app_assoc_str in Hk.
    apply Hk. apply takes_app; [done|by apply takes_self].
  - eexists. split; [right; by left|].
    pose proof (pattern_takes_key r (Py.str t +:+ ":*.")%stdpp _ Hb Hp Hname) as Hk. rewrite !app_assoc_str in Hk.
    apply Hk. rewrite ?app_assoc_str. apply takes_app; [done|]. apply (takes_app ":" "*."); [by apply takes_self|].
    apply (takes_app "*" "."); [apply takes_star|by apply takes_self].
Qed.

Lemma invalidated_row p (s : table) k :
  available s = true → rows (invalidate_pattern p s) !! k = if like (sql_pattern p) k then None else rows s !! k.
Proof using Type.
  intros Ha. unfold invalidate_pattern. cbn. unfold table_delete_pattern. rewrite Ha. cbn.
  rewrite map_lookup_filter. destruct (rows s !! k) as [x|]; cbn; [|by case_match].
  destruct (like (sql_pattern p) k) eqn:E; by case_guard.
Qed.

Lemma invalidate_pattern_down p (s : table) : available s = false → invalidate_pattern p s = s.
Proof using Type. intros Ha. unfold invalidate_pattern. cbn. unfold table_delete_pattern. by rewrite Ha. Qed.

Lemma invalidate_pattern_available p (s : table) : available (invalidate_pattern p s) = available s.
Proof using Type. unfold invalidate_pattern. cbn. unfold table_delete_pattern. destruct (available s) eqn:E; [|done]. by cbn. Qed.

(** ** In one piece

    An invalidation, a write and a read with nothing in between are their steps one after
    the other. *)

Abbreviation step := (happens sha256 md5 config).
Abbreviation state := (run sha256 md5 config).

Lemma deletions_in_one_piece ps w :
  with_stored (foldl (λ s p, invalidate_pattern p s) (stored w) ps) w = foldl step w (map Deletes ps).
Proof using Type. revert w. induction ps as [|p ps IH]; intros w; [by destruct w|]. cbn [foldl map]. by rewrite <- IH. Qed.

Lemma an_invalidation_in_one_piece v all_tenants t w :
  with_stored (invalidate_view config v all_tenants t (stored w)) w = foldl step w (map Deletes (view_patterns config v all_tenants t)).
Proof using Type. apply deletions_in_one_piece. Qed.

Lemma a_write_in_one_piece f v w :
  with_stored (execute_function config f (Returns v) (stored w)).2 w = foldl step w (map Deletes (function_patterns config f)).
Proof using Type.
  cbn [execute_function snd]. unfold invalidate_for_function, function_patterns. rewrite <- deletions_in_one_piece. f_equal.
  generalize (stored w) as s. induction (written_views f) as [|x l IH]; intros s; [done|]. cbn [foldl map concat].
  rewrite foldl_app. apply IH.
Qed.

Lemma table_get_state now k (s : table) : (table_get now k s).2 = s.
Proof using Type. unfold table_get. destruct (available s); [|done]. by destruct (rows s !! k) as [[v e]|]. Qed.

Lemma look_up_state now k t (s : table) : (look_up config now k t s).2 = s.
Proof using Type.
  unfold look_up. destruct (enabled config); [|done]. cbn [negb get PostgresCache]. pose proof (table_get_state now k s) as Hst.
  destruct (table_get now k s) as [g s1]. cbn in Hst. subst s1. by destruct g as [[]|].
Qed.

Lemma look_up_stats now k t t' (s : table) : (look_up config now k t s).1.1 = (look_up config now k t' s).1.1.
Proof using Type. unfold look_up. destruct (negb _); [done|]. destruct (get now k s) as [[[]|] ?]; reflexivity. Qed.

Lemma call_and_set_stats later k func ttl t t' (s : table) :
  (call_and_set config later k func ttl t s).1.1 = func ∧
  (call_and_set config later k func ttl t s).2 = (call_and_set config later k func ttl t' s).2.
Proof using Type. unfold call_and_set. destruct func as [v|e]; [|done]. by destruct (set _ _ _ _ s) as [[] ?]. Qed.

Lemma a_read_in_one_piece now later r fresh t (s : table) :
  let o := cached sha256 md5 config now later r fresh t s in
  o.1.1 = answer sha256 md5 config now r fresh s ∧
  o.2 = stored (foldl step {| stored := s; running := ∅ |} [Asks 0 now r fresh; Stores 0 later]).
Proof using Type.
  cbv zeta. unfold cached, answer. cbn [foldl happens stored]. destruct (skip_cache r); [done|]. unfold get_or_set.
  rewrite (look_up_stats now (key_of r) no_stats t). pose proof (look_up_state now (key_of r) t s) as Hs.
  pose proof (look_up_state now (key_of r) no_stats s) as Hs'. pose proof (look_up_stats now (key_of r) t no_stats s) as He.
  destruct (look_up config now (key_of r) t s) as [[lk t1] s1], (look_up config now (key_of r) no_stats s) as [[lk' t2] s2].
  cbn [fst snd] in *. subst s1 s2 lk'. destruct lk as [v|[]]; [done| |done].
  cbn [running stored]. rewrite lookup_insert_eq. cbn [stored].
  destruct (call_and_set_stats later (key_of r) (fetched fresh) (cache_ttl r) t1 no_stats s) as [H1 H2].
  destruct (call_and_set config later (key_of r) (fetched fresh) (cache_ttl r) t1 s) as [[o t3] s3]. cbn [fst snd] in *.
  by rewrite H1.
Qed.

(** ** Histories *)

(** A pattern whose rows were deleted in [l], the database answering. *)
Definition deleted (w : serving) (l : list event) (p : string) : Prop :=
  ∃ l1 l2, l = l1 ++ Deletes p :: l2 ∧ available (stored (foldl step w l1)) = true.

Lemma table_set_row now k v ttl (s : table) k' x :
  rows (table_set now k v ttl s).2 !! k' = Some x → rows s !! k' = Some x ∨ k' = k ∧ x = (as_json v, now + ttl).
Proof using Type.
  unfold table_set, write. change (with_metadata false v [] EmptyString) with v. destruct (available s); [|by left]. destruct (Json.dumps v); [|by left]. cbn.
  destruct (decide (k = k')) as [<-|Hk]; [rewrite lookup_insert_eq|rewrite lookup_insert_ne by done]; [|by left].
  intros [= <-]. by right.
Qed.

Lemma call_and_set_row later k func ttl t (s : table) k' x :
  rows (call_and_set config later k func ttl t s).2 !! k' = Some x →
  rows s !! k' = Some x ∨ ∃ v, func = Returns v ∧ k' = k ∧ x = (as_json v, later + time_to_live config ttl).
Proof using Type.
  unfold call_and_set. destruct func as [v|e]; [|by left].
  pose proof (table_set_row later k v (time_to_live config ttl) s k' x) as Hrow. cbn [set PostgresCache].
  destruct (table_set _ _ _ _ s) as [[u|u] s1]; cbn [snd] in Hrow |- *; intros Hx; apply Hrow in Hx as [Hx|[-> ->]]; eauto.
Qed.

(** A row is stored by the end of a read, and else was there before; a deletion of its key
    does not leave it. *)
Lemma step_row w e k x :
  rows (stored (step w e)) !! k = Some x →
  (rows (stored w) !! k = Some x ∧ ∀ p, e = Deletes p → available (stored w) = true → like (sql_pattern p) k = false) ∨
  ∃ i later r f, e = Stores i later ∧ running w !! i = Some (r, Returns f) ∧ k = key_of r ∧
                 x = (as_json (_encode f), later + time_to_live config (cache_ttl r)).
Proof using Type.
  destruct e as [i now r fresh|i later|p|answers|now]; cbn [happens].
  - intros Hx. left. split; [|done]. revert Hx. destruct (skip_cache r); [done|].
    pose proof (look_up_state now (key_of r) no_stats (stored w)) as Hs.
    destruct (look_up _ _ _ _ _) as [[lk t1] s1]. cbn [snd] in Hs. subst s1. by destruct lk as [v|[]].
  - destruct (running w !! i) as [[r fresh]|] eqn:Hr; [|by left]. cbn [stored].
    intros [Hx|(v & Hv & -> & ->)]%call_and_set_row; [by left|]. right. destruct fresh as [f|]; [|done].
    injection Hv as <-. exists i, later, r, f. done.
  - cbn [with_stored stored]. intros Hx. left. destruct (available (stored w)) eqn:Ha.
    + rewrite invalidated_row in Hx by done. destruct (like (sql_pattern p) k) eqn:E; [done|]. split; [done|]. by intros ? [= <-] _.
    + rewrite invalidate_pattern_down in Hx by done. done.
  - by left.
  - intros Hx. left. split; [|done]. cbn [with_stored stored] in Hx. unfold cleanup_expired in Hx. destruct (available _); [|done].
    cbn in Hx. by apply map_lookup_filter_Some in Hx as [Hx _].
Qed.

(** A read that is under way was asked. *)
Lemma running_was_asked l i r fresh :
  running (state l) !! i = Some (r, fresh) → ∃ l1 n l2, l = l1 ++ Asks i n r fresh :: l2.
Proof using Type.
  induction l as [|e l IH] using rev_ind; [unfold run; cbn [foldl running]; by rewrite lookup_empty|]. unfold run. rewrite foldl_app. cbn [foldl].
  change (foldl _ _ l) with (state l). set (w := state l) in *.
  assert (running w !! i = Some (r, fresh) → ∃ l1 n l2, l ++ [e] = l1 ++ Asks i n r fresh :: l2) as Hold.
  { intros (l1 & n & l2 & ->)%IH. exists l1, n, (l2 ++ [e]). by rewrite <- app_assoc. }
  destruct e as [j now r' fresh'|j later|p|answers|now]; cbn [happens]; try exact Hold.
  - destruct (skip_cache r'); [exact Hold|]. destruct (look_up _ _ _ _ _) as [[[v|[]] t1] s1]; [exact Hold| |exact Hold].
    cbn [running]. destruct (decide (j = i)) as [->|Hne]; [rewrite lookup_insert_eq|by rewrite lookup_insert_ne].
    intros [= -> ->]. by exists l, now, [].
  - destruct (running w !! j) as [[r' fresh']|] eqn:Ej; [|exact Hold]. cbn [running].
    intros [_ Hr]%lookup_delete_Some. by apply Hold.
Qed.

Lemma deleted_snoc w l e p :
  deleted w (l ++ [e]) p → deleted w l p ∨ e = Deletes p ∧ available (stored (foldl step w l)) = true.
Proof using Type.
  intros (l1 & l2 & E & Ha). destruct l2 as [|x l2 _] using rev_ind.
  - apply app_inj_tail in E as [-> ->]. by right.
  - rewrite app_comm_cons, app_assoc in E. apply app_inj_tail in E as [-> ->]. left. by exists l1, l2.
Qed.

(** Every row was stored by a read of its key, and no pattern that was deleted since takes
    the key. *)
Lemma row_was_written l k x :
  rows (stored (state l)) !! k = Some x →
  ∃ l1 i n r f l2 m l3, l = l1 ++ Asks i n r (Returns f) :: l2 ++ Stores i m :: l3 ∧ k = key_of r ∧
    x = (as_json (_encode f), m + time_to_live config (cache_ttl r)) ∧
    ∀ p, deleted (state (l1 ++ Asks i n r (Returns f) :: l2 ++ [Stores i m])) l3 p → like (sql_pattern p) k = false.
Proof using Type.
  induction l as [|e l IH] using rev_ind; [done|]. unfold run at 1. rewrite foldl_app. cbn [foldl].
  change (foldl _ _ l) with (state l). intros [[Hx Hd]|(i & m & r & f & -> & Hr & -> & ->)]%step_row.
  - destruct (IH Hx) as (l1 & i & n & r & f & l2 & m & l3 & -> & -> & -> & Hu).
    exists l1, i, n, r, f, l2, m, (l3 ++ [e]). split; [by rewrite <- !app_assoc, <- !app_comm_cons, <- app_assoc|].
    split; [done|]. split; [done|]. intros p [Hp|[-> Ha]]%deleted_snoc; [by apply Hu|]. apply Hd; [done|].
    unfold run in Ha |- *. rewrite <- foldl_app in Ha. rewrite <- !app_assoc, <- !app_comm_cons, <- app_assoc in Ha. exact Ha.
  - apply running_was_asked in Hr as (l1 & n & l2 & ->). exists l1, i, n, r, f, l2, m, [].
    split; [by rewrite <- app_assoc, <- app_comm_cons|]. split; [done|]. split; [done|].
    intros p (l3 & l4 & E & _). by destruct l3.
Qed.

(** *** Keys tell questions apart *)

(** Names of views are identifiers, with a schema or without. *)
Definition named (r : read) : Prop := Str.has_char colon (view r) = false ∧ view r ≠ "one".

(** SHA-256 is written in hexadecimal. *)
Definition hexadecimal : Prop := ∀ text, Str.forallb Str.is_hex (sha256 text) = true.

Lemma fingerprint_plain r x : hexadecimal → x ∈ fingerprints r → Str.has_char colon x = false ∧ x ≠ "q".
Proof using Type.
  intros Hh Hx. apply hex_plain. unfold fingerprints in Hx. apply elem_of_cons in Hx as [->|Hx]; [by apply take_hex|].
  destruct (selection r); [|by apply not_elem_of_nil in Hx]. apply list_elem_of_singleton in Hx as ->. by apply take_hex.
Qed.

(** What stands between the colons of a key, after the prefix. *)
Definition pieces (r : read) : list string :=
  (EmptyString :: match tenant r with Some t => Str.split colon (Py.str t) | None => [] end)
    ++ (view r :: (if one r then ["one"] else [])) ++ "q" :: fingerprints r.

Lemma key_pieces r :
  hexadecimal → named r → ∃ body, key_of r = (prefix +:+ body)%stdpp ∧ Str.split colon body = pieces r.
Proof using Type.
  intros Hh [Hv _]. rewrite key_eq. eexists. split; [reflexivity|]. unfold pieces, tail_of.
  assert (Str.split colon (Str.join ":" (fingerprints r)) = fingerprints r) as Hf.
  { apply split_join; [done|]. apply Forall_forall. intros x Hx. by apply (fingerprint_plain r). }
  assert (∀ b, Str.split colon (view r +:+ ":" +:+ b)%stdpp = view r :: Str.split colon b) as Hview.
  { intros b. by rewrite split_app, split_plain. }
  assert (Str.split colon (view r +:+ (if one r then ":one" else EmptyString) +:+ ":q:" +:+ Str.join ":" (fingerprints r))%stdpp
    = (view r :: (if one r then ["one"] else [])) ++ "q" :: fingerprints r) as Hbody.
  { change (":q:" +:+ Str.join ":" (fingerprints r))%stdpp with (":" +:+ "q" +:+ ":" +:+ Str.join ":" (fingerprints r))%stdpp.
    destruct (one r).
    - change (":one" +:+ ?x)%stdpp with (":" +:+ "one" +:+ x)%stdpp. rewrite Hview.
      rewrite (split_app "one"), (split_app "q"), Hf. done.
    - rewrite app_nil_l_str, Hview, (split_app "q"), Hf. done. }
  destruct (tenant r) as [t|].
  - rewrite app_assoc_str. rewrite split_colon, split_app, Hbody. done.
  - rewrite app_nil_l_str, split_colon, Hbody. done.
Qed.

Lemma app_inj_str a b c : (a +:+ b = a +:+ c)%stdpp → b = c.
Proof using Type. induction a as [|x a IH]; [done|]. rewrite !app_cons_str. intros [= E]. by apply IH. Qed.

(** The same question: the same method on the same view, for the same tenant, with the same
    arguments and the same selection. *)
Definition same_question (r r' : read) : Prop :=
  Py.str <$> tenant r = Py.str <$> tenant r' ∧ view r = view r' ∧ one r = one r' ∧
  arguments_text r = arguments_text r' ∧ selection r = selection r'.

(** What the reads hash, and that nothing in it collides. *)
Definition hashed (r : read) : list string :=
  arguments_text r :: match selection r with Some text => [text] | None => [] end.

Definition collision_free (rs : list read) : Prop :=
  ∀ r r' t t', r ∈ rs → r' ∈ rs → t ∈ hashed r → t' ∈ hashed r' → short sha256 t = short sha256 t' → t = t'.

Lemma fingerprints_map r : fingerprints r = map (short sha256) (hashed r).
Proof using Type. unfold fingerprints, hashed. by destruct (selection r). Qed.

Lemma fingerprints_inj rs r r' :
  collision_free rs → r ∈ rs → r' ∈ rs → fingerprints r = fingerprints r' →
  arguments_text r = arguments_text r' ∧ selection r = selection r'.
Proof using Type.
  intros Hcf Hr Hr'. rewrite !fingerprints_map. unfold hashed. intros E.
  assert (arguments_text r ∈ hashed r ∧ arguments_text r' ∈ hashed r') as [H1 H2] by (split; by left).
  destruct (selection r) as [t|] eqn:E1, (selection r') as [t'|] eqn:E2; try done.
  - injection E as Ea Es. split; [by eapply (Hcf r r')|]. f_equal. eapply (Hcf r r'); [done..| | |exact Es].
    + unfold hashed. rewrite E1. right. by left.
    + unfold hashed. rewrite E2. right. by left.
  - injection E as Ea. split; [by eapply (Hcf r r')|done].
Qed.

Lemma pieces_inj r r' :
  hexadecimal → named r → named r' → pieces r = pieces r' →
  Py.str <$> tenant r = Py.str <$> tenant r' ∧ view r = view r' ∧ one r = one r' ∧ fingerprints r = fingerprints r'.
Proof using Type.
  intros Hh [_ Hn] [_ Hn']. unfold pieces. rewrite !(app_assoc (_ :: _)).
  assert (∀ r, "q" ∉ fingerprints r) as Hq by (intros x Hx%fingerprint_plain; naive_solver).
  intros [E Hf]%app_last_inj; [|done..]. cbn [app] in E. injection E as E.
  set (T := match tenant r with Some t => _ | None => _ end) in E. set (T' := match tenant r' with Some t => _ | None => _ end) in E.
  assert (T = T' ∧ view r = view r' ∧ one r = one r') as (ET & Ev & Eo).
  { destruct (one r), (one r').
    - change (T ++ [view r] ++ ["one"] = T' ++ [view r'] ++ ["one"]) in E. rewrite !app_assoc in E.
      apply app_inj_tail in E as [E _]. by apply app_inj_tail in E as [-> ->].
    - change (T ++ [view r] ++ ["one"] = T' ++ [view r']) in E. rewrite app_assoc in E. apply app_inj_tail in E as [_ E]. by rewrite <- E in Hn'.
    - change (T ++ [view r] = T' ++ [view r'] ++ ["one"]) in E. rewrite app_assoc in E. apply app_inj_tail in E as [_ E]. by rewrite E in Hn.
    - by apply app_inj_tail in E as [-> ->]. }
  split; [|done]. unfold T, T' in ET. destruct (tenant r) as [t|], (tenant r') as [t'|]; try done; cbn.
  - f_equal. by rewrite <- (join_colons (Py.str t)), ET, join_colons.
  - destruct (split_cons colon (Py.str t)) as (w & ws & Hw). by rewrite Hw in ET.
  - destruct (split_cons colon (Py.str t')) as (w & ws & Hw). by rewrite Hw in ET.
Qed.

Lemma cache_key_inj rs r r' :
  hexadecimal → collision_free rs → r ∈ rs → r' ∈ rs → named r → named r' → key_of r = key_of r' → same_question r r'.
Proof using Type.
  intros Hh Hcf Hr Hr' Hn Hn' E. destruct (key_pieces r Hh Hn) as (b & Eb & Hb), (key_pieces r' Hh Hn') as (b' & Eb' & Hb').
  rewrite Eb, Eb' in E. apply app_inj_str in E as ->. rewrite Hb in Hb'.
  destruct (pieces_inj r r' Hh Hn Hn' Hb') as (Ht & Hv & Ho & Hf). destruct (fingerprints_inj rs r r' Hcf Hr Hr' Hf). by repeat split.
Qed.

(** ** What a cached read answers *)

(** The reads of this repository return responses of the Rust pipeline, nothing, or raise. *)
Definition responds (fresh : outcome found) : Prop :=
  match fresh with Returns (Plain v) => v = PNone | _ => True end.

Lemma decode_encode f : responds (Returns f) → _decode (_encode f) = Ok f.
Proof using Type. destruct f as [json [t|]|v]; cbn; [done|done|]. by intros ->. Qed.

Lemma stored_response f :
  responds (Returns f) → unwrapped (as_json (_encode f)) = _encode f ∧ (_encode f = PNone ↔ f = Plain PNone).
Proof using Type. destruct f as [json [t|]|v]; cbn; [done|done|]. by intros ->. Qed.

Lemma answer_cases now r fresh (s : table) :
  responds fresh →
  answer sha256 md5 config now r fresh s = fresh ∨
  ∃ v expires_at, rows s !! key_of r = Some (v, expires_at) ∧ now < expires_at ∧
    answer sha256 md5 config now r fresh s = decoded (Returns (unwrapped v)).
Proof using Type.
  intros Hr. unfold answer. destruct (skip_cache r); [by left|].
  assert (decoded (fetched fresh) = fresh) as Hfresh.
  { destruct fresh as [f|e]; [|done]. cbn [fetched decoded]. by rewrite decode_encode. }
  unfold look_up. destruct (enabled config); cbn [negb]; [|by left]. change (get now (key_of r) s) with (table_get now (key_of r) s).
  unfold table_get. destruct (available s); [|by left]. destruct (rows s !! key_of r) as [[w exp]|] eqn:Hrow; [|by left].
  destruct (now <? exp) eqn:Hlt; [|by left]. destruct (unwrapped w) as [ | | | | | | | | | | | | | ] eqn:Ew; try by left.
  all: right; exists w, exp; (split; [done|]); (split; [by apply Z.ltb_lt|]); by rewrite Ew.
Qed.

Definition read_of (e : event) : list (read * outcome found) :=
  match e with Asks _ _ r fresh => [(r, fresh)] | _ => [] end.

Definition all_reads (l : list event) : list (read * outcome found) := concat (map read_of l).

End repository_laws.

(** ** Examples *)

(** A digest of sixteen hexadecimal digits. *)
Fixpoint hex_digits (n : nat) (z : Z) : string :=
  match n with
  | O => EmptyString
  | S n => String (Py.hex_digit (z mod 16)) (hex_digits n (z / 16))
  end.

Fixpoint checksum (s : string) (z : Z) : Z :=
  match s with
  | EmptyString => z
  | String c s => checksum s ((z * 31 + Z.of_nat (nat_of_ascii c)) mod 18446744073709551616)
  end.

Definition digest (text : string) : string := hex_digits 16 (checksum text 7).

Lemma hex_digit_hex z : Str.is_hex (Py.hex_digit (z mod 16)) = true.
Proof.
  assert (∃ n : nat, (n < 16)%nat ∧ z mod 16 = Z.of_nat n) as (n & Hn & ->).
  { exists (Z.to_nat (z mod 16)). pose proof (Z.mod_pos_bound z 16). lia. }
  do 16 (destruct n as [|n]; [reflexivity|]). lia.
Qed.

Lemma digest_hexadecimal : hexadecimal digest.
Proof.
  intros text. unfold digest. generalize 16%nat (checksum text 7). intros n.
  induction n as [|n IH]; intros z; [done|]. cbn [hex_digits Str.forallb]. by rewrite hex_digit_hex, IH.
Qed.

Definition defaults : CacheConfig :=
  {| enabled := true; default_ttl := 300; max_ttl := 3600; cache_errors := false; key_prefix := "fraiseql" |}.

(** [users { id }], for tenant 42. *)
Definition users_read : read :=
  {| view := "app.v_user"; one := false; tenant := Some (PInt 42); field_name := Some "users";
     arguments := [("limit", PInt 10)]; selection := Some "users { id }"; cache_ttl := None; skip_cache := false |}.

Definition two_users : found := Rust "[1,2]" (Some "User").

Example users_key :
  _build_key digest digest defaults users_read = "fraiseql:42:app.v_user:q:577ebfaa869e1888:cd9ebbe60d29e177".
Proof. vm_compute. reflexivity. Qed.

(** A read asked and stored with nothing in between. *)
Definition reads (now later : Z) (r : read) (fresh : outcome found) : list event := [Asks 0 now r fresh; Stores 0 later].

Definition after_ (l : list event) : serving := run digest digest defaults l.
Definition answer_ (now : Z) (r : read) (fresh : outcome found) (l : list event) : outcome found :=
  answer digest digest defaults now r fresh (stored (after_ l)).


(** A function that writes the entity between a read and its store deletes nothing, and the
    rows from before the write are stored and served for the time to live. *)
Example a_write_before_the_store_is_missed :
  let l := [Asks 0 0 users_read (Returns two_users)] ++ map Deletes (function_patterns defaults "fn_update_user") ++ [Stores 0 2] in
  answer_ 3 users_read (Returns (Rust "[1,2,3]" (Some "User"))) l = Returns two_users.
Proof. vm_compute. reflexivity. Qed.

(** The rows authorization lets Ann read, and those it lets Bob read. *)
Definition rows_of (owner : string) : context :=
  {| _fraiseql_auth_filters := [("users", [("owner", PStr owner)])]; graphql_field_name := Some "users" |}.

Definition plain_find : find_args :=
  {| where_ := NoWhere; mandatory_filters := []; FindQuery.limit := Some (PInt 10); offset := None; order := Value PNone;
     group_by := []; aggregations := []; native_dimensions := []; native_measures := [];
     native_dimension_mapping := None; unexpected := [] |}.

(** A database that answers with the parameters of the statement. *)
Definition asked (c : context) : outcome found :=
  match find (λ _, []) (Date 2024 6 20) shop c "app.v_user" [] plain_find with
  | Ok (_, params) => Returns (Rust (dumps_str (PList params)) (Some "User"))
  | Err e => Raises e
  end.

(** The row filters of authorization stay in the repository's context and are not part of
    the key: the statements for Ann and for Bob differ, and Bob is given Ann's rows. *)
Example row_filters_are_not_in_the_key :
  asked (rows_of "bob") = Returns (Rust (dumps_str (PList [PStr "bob"])) (Some "User")) ∧
  answer_ 2 users_read (asked (rows_of "bob")) (reads 0 1 users_read (asked (rows_of "ann")))
  = Returns (Rust (dumps_str (PList [PStr "ann"])) (Some "User")).
Proof. split; vm_compute; reflexivity. Qed.

(** The pattern of [build_mutation_pattern] has no place for a tenant. *)
Example a_mutation_pattern_misses_tenants :
  let s := stored (after_ (reads 0 1 users_read (Returns two_users))) in
  rows (invalidate_pattern (build_mutation_pattern "fraiseql" "app.v_user") s) = rows s ∧
  rows (invalidate_view defaults "app.v_user" true None s) = ∅.
Proof. split; vm_compute; reflexivity. Qed.

(** A backslash in a tenant's name is LIKE's escape: the tenant's own keys stay. *)
Example a_backslash_keeps_stale_rows :
  let r := {| view := "v_user"; one := false; tenant := Some (PStr "a\b"); field_name := None; arguments := [];
              selection := None; cache_ttl := None; skip_cache := false |} in
  let s := stored (after_ (reads 0 1 r (Returns two_users))) in
  rows (invalidate_view defaults "v_user" false (tenant r) s) = rows s ∧ rows s ≠ ∅.
Proof. split; vm_compute; [reflexivity|discriminate]. Qed.

(** Invalidations that fail are logged; when the database is back, the old rows are served. *)
Example an_outage_keeps_stale_rows :
  answer_ 2 users_read (Returns (Rust "[1]" None))
    (reads 0 1 users_read (Returns two_users) ++ [Database false]
       ++ map Deletes (function_patterns defaults "fn_update_user") ++ [Database true])
  = Returns two_users.
Proof. vm_compute. reflexivity. Qed.

(** Colons in arguments are not escaped by [cached_query]: another call's result is returned. *)
Example calls_share_a_key :
  let s := {| rows := ∅; available := true |} in
  let '(o, t, s) := cached_query defaults None None "search" 0 1 false [PStr "a"; PStr "b"] [] (Returns (PInt 1)) no_stats s in
  (cached_query defaults None None "search" 2 3 false [PStr "a:b"] [] (Returns (PInt 2)) t s).1.1 = Returns (PInt 1).
Proof. vm_compute. reflexivity. Qed.

(** A cached dictionary with keys [result] and [versions] comes back unwrapped, though
    no versions were stored. *)
Example a_dictionary_is_unwrapped :
  let v := PDict [("result", PInt 1); ("versions", PList [])] in
  let s := (table_set 0 "k" v 300 {| rows := ∅; available := true |}).2 in
  (table_get 1 "k" s).1 = Ok (PInt 1).
Proof. vm_compute. reflexivity. Qed.

(** What is stored with versions is read back with them. *)
Example metadata_come_back :
  let versions := [("user", PInt 3)] in
  let s := (write 0 "k" (with_metadata true (PList [PInt 1]) versions "2024-01-01 00:00:00") 300 {| rows := ∅; available := true |}).2 in
  get_with_metadata 1 "k" s = Ok (PList [PInt 1], PDict versions) ∧ exists_ 300 "k" s = Ok false ∧
  get_with_metadata 300 "k" s = Ok (PNone, PNone).
Proof. vm_compute. auto. Qed.
