(* ===== verification/WhereInputLaws.v ===== *)
(** * Laws of where inputs

    Every type gets a where input, whose fields fit the type's but on reference cycles; and
    an object of it asks for what its filters say, and is never refused. *)
From stdpp Require Import base decidable strings list relations.
From Stdlib Require Import ZArith Lia Ascii.
From S2P Require Import Prelude PyVal Sql OpBase FieldCondition WhereClause Casing Views Normalize NormalizeLaws Inputs.
From S2P Require Import Filters Meaning WhereInput.

Local Open Scope py_scope.

(** ** Generation *)

Lemma str_in_cons s x l : (s in_ x :: l) = (s =s x) || (s in_ l).
Proof.
  apply eq_true_iff_eq. by rewrite orb_true_iff, !str_in_true, elem_of_cons; unfold Str.eqb; rewrite bool_decide_eq_true.
Qed.

Lemma eqb_refl_str s : (s =s s) = true.
Proof. by apply bool_decide_eq_true. Qed.

(** *** Which filter is the right one

    Said by what the filter's class offers, and not by its name. *)

(** [Optional[T]] is read as [T]: the first member of a union that is not [None]. *)
Definition reads_as (h h' : hint) : Prop :=
  match h with
  | UnionHint l =>
      (∃ pre post, l = pre ++ h' :: post ∧ Forall (eq NoneHint) pre ∧ h' ≠ NoneHint) ∨
      (Forall (eq NoneHint) l ∧ h' = h)
  | _ => h' = h
  end.

Lemma without_none_spec h h' : without_none h = h' ↔ reads_as h h'.
Proof.
  destruct h as [n|s|c|i|l|]; cbn [without_none reads_as]; try (split; congruence).
  set (u := UnionHint l). assert (∀ l, match List.filter (λ h, match h with NoneHint => false | _ => true end) l with h :: _ => h | [] => u end = h' ↔
     (∃ pre post, l = pre ++ h' :: post ∧ Forall (eq NoneHint) pre ∧ h' ≠ NoneHint) ∨ (Forall (eq NoneHint) l ∧ h' = u)) as H; [|apply H].
  intros k. induction k as [|x k IH]; cbn.
  - split; [intros <-; by right|]. intros [(pre & post & E & _)|[_ ->]]; [by destruct pre|done].
  - assert (x = NoneHint ∨ x ≠ NoneHint) as [->|Hx] by (destruct x; auto).
    + rewrite IH. split.
      * intros [(pre & post & -> & Hpre & Hne)|[Hk ->]]; [left; exists (NoneHint :: pre), post; by repeat constructor|right; by repeat constructor].
      * intros [(pre & post & E & Hpre & Hne)|[Hk ->]]; [left|right; split; [by inversion Hk|done]].
        destruct pre as [|y pre]; [cbn in E; congruence|]. injection E as <- ->. exists pre, post. inversion Hpre. by subst.
    + assert (match x with NoneHint => false | _ => true end = true) as -> by by destruct x. split.
      * intros <-. left. by exists [], k.
      * intros [(pre & post & E & Hpre & Hne)|[Hk _]]; [|by inversion Hk; subst].
        destruct pre as [|y pre]; [cbn in E; congruence|]. injection E as <- ->. by inversion Hpre; subst.
Qed.

(** The fields of the class of a filter. *)
Definition filter_fields (t : where_type) : option (list (string * (annotation * field))) :=
  match t with Filter n => dict_get n filter_classes | Custom s => Some (CustomScalarFilter s) | Where _ => None end.

(** Its [eq] takes the type, and it offers the operators. *)
Definition compares (t : where_type) (a : annotation) (operators : list string) : Prop :=
  ∃ fs f, filter_fields t = Some fs ∧ dict_get "eq" fs = Some (optional_type a, f) ∧ operators ⊆ fs.*1.

Definition text_operators : list string := ["neq"; "contains"; "icontains"; "startswith"; "endswith"; "matches"; "isnull"].
Definition order_operators : list string := ["neq"; "gt"; "gte"; "lt"; "lte"; "in_"; "nin"; "isnull"].

(** What values of a type are compared with, and what else is asked of them. *)
Definition asked_of_types : list (string * (annotation * list string)) :=
  [("str", (text, text_operators)); ("int", (int, order_operators)); ("float", (float, order_operators));
   ("Decimal", (Plain "Decimal", order_operators)); ("bool", (bool_, ["neq"; "isnull"]));
   ("UUID", (Plain "UUID", ["neq"; "in_"; "nin"; "isnull"])); ("ID", (Plain "ID", ["neq"; "in_"; "nin"; "isnull"]));
   ("date", (Plain "date", order_operators)); ("datetime", (Plain "datetime", order_operators));
   ("DateTime", (Plain "datetime", order_operators)); ("dict", (Plain "Any", ["has_key"; "contains"; "path_exists"; "isnull"]));
   ("CoordinateField", (Plain "Coordinate", ["distance_within"])); ("IpAddress", (text, ["inSubnet"; "inRange"; "isPrivate"]));
   ("CIDR", (text, ["inSubnet"; "inRange"; "isPrivate"])); ("MacAddress", (text, ["neq"; "in_"; "nin"; "isnull"]));
   ("LTree", (text, ["ancestor_of"; "descendant_of"; "matches_lquery"; "nlevel"]));
   ("DateRangeField", (text, ["contains_date"; "overlaps"; "adjacent"]))].

Definition asked_of_scalars : list (string * (annotation * list string)) :=
  [("CoordinateScalar", (Plain "Coordinate", ["distance_within"])); ("IpAddressScalar", (text, ["inSubnet"; "inRange"; "isPrivate"]));
   ("CIDRScalar", (text, ["inSubnet"; "inRange"; "isPrivate"])); ("MacAddressScalar", (text, ["neq"; "in_"; "nin"; "isnull"]));
   ("LTreeScalar", (text, ["ancestor_of"; "descendant_of"; "matches_lquery"; "nlevel"]))].

(** The filter fits the values of the type: other types are compared as texts, other scalars
    with values of their own. *)
Definition fits_type (h : hint) (t : where_type) : Prop :=
  match h with
  | Named n => let '(a, ops) := default (text, text_operators) (dict_get n asked_of_types) in compares t a ops
  | Scalar s => let '(a, ops) := default (Plain s, ["ne"; "in_"; "not_in"; "contains"]) (dict_get s asked_of_scalars) in compares t a ops
  | _ => compares t text text_operators
  end.

Ltac compare := eexists _, _; split; [reflexivity|]; split; [reflexivity|]; apply (bool_decide_unpack _); by vm_compute.

Lemma dict_get_absent {V} k (d : list (string * V)) : k ∉ d.*1 → dict_get k d = None.
Proof. intros Hk. destruct (dict_get k d) as [v|] eqn:E; [|done]. apply dict_get_elem in E. destruct Hk. apply list_elem_of_fmap. by exists (k, v). Qed.

Lemma filter_by_type_fits h : fits_type h (filter_by_type h).
Proof.
  destruct h as [n|s|c|i|l|]; try compare.
  - destruct (decide (n ∈ asked_of_types.*1)) as [Hn|Hn].
    + cbn in Hn. repeat (apply elem_of_cons in Hn as [->|Hn]; [compare|]). by apply elem_of_nil in Hn.
    + cbn [fits_type filter_by_type]. rewrite (dict_get_absent n asked_of_types) by done.
      assert (exotic_type_mapping.*1 ⊆ asked_of_types.*1) as H1 by (apply (bool_decide_unpack _); by vm_compute).
      assert (type_mapping.*1 ⊆ asked_of_types.*1) as H2 by (apply (bool_decide_unpack _); by vm_compute).
      rewrite (dict_get_absent n exotic_type_mapping), (dict_get_absent n type_mapping); [compare|auto..].
  - destruct (decide (s ∈ asked_of_scalars.*1)) as [Hs|Hs].
    + cbn in Hs. repeat (apply elem_of_cons in Hs as [->|Hs]; [compare|]). by apply elem_of_nil in Hs.
    + cbn [fits_type filter_by_type]. rewrite (dict_get_absent s asked_of_scalars) by done.
      assert (graphql_scalar_mapping.*1 ⊆ asked_of_scalars.*1) as H1 by (apply (bool_decide_unpack _); by vm_compute).
      rewrite (dict_get_absent s graphql_scalar_mapping); [compare|auto].
Qed.

(** A name, in small letters, has one of the patterns in it. *)
Definition mentions (patterns : list string) (n : string) : Prop := ∃ p, p ∈ patterns ∧ Str.has_sub p (Str.lower n) = true.

Definition of_vectors (n : string) (h : hint) : Prop :=
  n ≠ EmptyString ∧ ((∃ i, h = ListHint i) ∧ mentions vector_patterns n ∨ h = Named "VectorField" ∨ h = Named "HalfVectorField").

(** The name of a field says that it is for searches or holds a vector, or it is a list. *)
Definition fits_name (n : string) (h : hint) (t : where_type) : Prop :=
  mentions fulltext_patterns n ∧ t = Filter "FullTextFilter" ∨
  ¬ mentions fulltext_patterns n ∧
    (of_vectors n h ∧ t = Filter "VectorFilter" ∨
     ¬ of_vectors n h ∧ (∃ i, h = ListHint i) ∧ compares t (Plain "list") ["contains"; "overlaps"; "len_eq"; "isnull"]).

(** Neither its name nor its being a list says what its filter is. *)
Definition by_its_type (n : string) (h : hint) : Prop :=
  ¬ mentions fulltext_patterns n ∧ ¬ of_vectors n h ∧ ¬ (∃ i, h = ListHint i).

Lemma mentions_true patterns n :
  forallb Str.nonempty patterns = true →
  Str.nonempty n && existsb (λ p, Str.has_sub p (Str.lower n)) patterns = true ↔ mentions patterns n.
Proof.
  intros Hp. unfold mentions. rewrite andb_true_iff, existsb_exists. setoid_rewrite list_elem_of_In. split; [by intros [_ ?]|].
  intros (p & Hin & Hs). split; [|by exists p]. rewrite forallb_forall in Hp. specialize (Hp p Hin). destruct n; [|done]. by destruct p.
Qed.

Lemma filter_by_name_fits n h :
  match filter_by_name n h with Some t => fits_name n h t | None => by_its_type n h end.
Proof.
  unfold filter_by_name, fits_name, by_its_type. cbn zeta.
  pose proof (mentions_true fulltext_patterns n eq_refl) as Hft. pose proof (mentions_true vector_patterns n eq_refl) as Hv.
  destruct (Str.nonempty n && existsb _ fulltext_patterns) eqn:E1; [left; split; [by apply Hft|done]|].
  assert (¬ mentions fulltext_patterns n) as Hnft by (intros H%Hft; congruence).
  assert (is_list h = true ↔ ∃ i, h = ListHint i) as Hl.
  { destruct h; cbn; (split; [try done|by intros [? [=]]]). by eexists. }
  assert (Str.nonempty n && (is_list h && existsb (λ p, Str.has_sub p (Str.lower n)) vector_patterns || is_float_vector_type h) = true ↔
          of_vectors n h) as Hvec.
  { unfold of_vectors. rewrite <- Hv, <- Hl, !andb_true_iff, orb_true_iff, andb_true_iff.
    assert (is_float_vector_type h = true ↔ h = Named "VectorField" ∨ h = Named "HalfVectorField") as ->.
    { destruct h as [m| | | | |]; cbn; try (split; [done|by intros [|]]). rewrite str_in_true, !elem_of_cons, elem_of_nil. naive_solver. }
    assert (Str.nonempty n = true ↔ n ≠ EmptyString) as -> by by destruct n. tauto. }
  match goal with |- context [if ?b then Some (Filter "VectorFilter") else _] => destruct b eqn:E2 end.
  - right. split; [done|]. left. split; [by apply Hvec|done].
  - assert (¬ of_vectors n h) as Hnv by (intros H%Hvec; congruence). destruct (is_list h) eqn:E3.
    + right. split; [done|]. right. split; [done|]. split; [by apply Hl|]. compare.
    + split; [done|]. split; [done|]. intros H%Hl. congruence.
Qed.

Section generation_laws.
Context (type_hints : string → list (string * hint)).

(** A field of [cls] is of the class [c]. *)
Definition refers (cls c : string) : Prop :=
  ∃ n h, (n, h) ∈ type_hints cls ∧ is_private n = false ∧ reads_as h (Defined c) ∧ ¬ mentions fulltext_patterns n.

Definition reaches : string → string → Prop := rtc refers.

(** The filter for a field: the one its name asks for, or one that fits its type; a field of a
    class has the class's where input, unless the class is reached from that one again, when
    the schema shows a text filter. *)
Definition fits (there : string → Prop) (cls : string) (x : string * hint) (y : string * where_field) : Prop :=
  x.1 = y.1 ∧
  ∃ h, reads_as x.2 h ∧
  ((annotated y.2 = shown y.2 ∧ fits_name x.1 h (shown y.2)) ∨
   (by_its_type x.1 h ∧
    match h with
    | Defined c =>
        (y.2 = {| annotated := Where c; shown := Where c |} ∧ there c) ∨
        (shown y.2 = Filter "StringFilter" ∧ reaches c cls)
    | _ => annotated y.2 = shown y.2 ∧ fits_type h (shown y.2)
    end)).

Lemma refers_computed cls n h c :
  (n, h) ∈ type_hints cls → is_private n = false → filter_by_name n (without_none h) = None → without_none h = Defined c → refers cls c.
Proof using Type.
  intros Hin Hp Hn Hh. exists n, h. split; [done|]. split; [done|]. split; [by apply without_none_spec|].
  pose proof (filter_by_name_fits n (without_none h)) as Hf. rewrite Hn in Hf. apply Hf.
Qed.

Definition public (l : list (string * hint)) : list (string * hint) := List.filter (λ x, negb (is_private x.1)) l.

Definition describes (there : string → Prop) (cls : string) (fs : where_fields) : Prop :=
  Forall2 (fits there cls) (public (type_hints cls)) fs.

Definition is_there (g : generator) (c : string) : Prop := is_Some (dict_get c (generated g)).

(** Every class that is kept describes its type. *)
Definition sound (g : generator) : Prop :=
  ∀ c fs, dict_get c (generated g) = Some fs → describes (is_there g) c fs.

(** What is kept stays. *)
Definition extends (g g' : generator) : Prop :=
  generating g' = generating g ∧ ∀ c fs, dict_get c (generated g) = Some fs → dict_get c (generated g') = Some fs.

Lemma extends_refl g : extends g g.
Proof using Type. done. Qed.

#[local] Hint Resolve extends_refl : core.

Lemma extends_trans g1 g2 g3 : extends g1 g2 → extends g2 g3 → extends g1 g3.
Proof using Type. intros [E1 H1] [E2 H2]. split; [congruence|auto]. Qed.

Lemma extends_there g g' c : extends g g' → is_there g c → is_there g' c.
Proof using Type. intros [_ H] [fs Hfs]. exists fs. by apply H. Qed.

Lemma fits_mono (P Q : string → Prop) cls x y : (∀ c, P c → Q c) → fits P cls x y → fits Q cls x y.
Proof using Type.
  intros HPQ (E & h & Hh & Hf). split; [done|]. exists h. split; [done|]. destruct Hf as [Hf|[Hn Hf]]; [by left|right; split; [done|]].
  destruct h; try done. destruct Hf as [[? ?]|?]; [left|right]; auto.
Qed.

(** What has been found for a field, before the circular references are looked at again. *)
Definition found (g : generator) (x : string * hint) (y : string * hint * option where_type) : Prop :=
  y.1 = x ∧
  let h := without_none x.2 in
  match filter_by_name x.1 h with
  | Some t => y.2 = Some t
  | None =>
      match h with
      | Defined c => (y.2 = Some (Where c) ∧ is_there g c) ∨ (y.2 = None ∧ c ∈ generating g)
      | _ => y.2 = Some (filter_by_type h)
      end
  end.

Lemma found_extends g g' x y : extends g g' → found g x y → found g' x y.
Proof using Type.
  intros He [E Hf]. split; [done|]. cbn zeta in *. destruct (filter_by_name _ _); [done|].
  destruct (without_none x.2); try done. destruct Hf as [[? ?]|[? ?]]; [left|right]; split; try done.
  - by eapply extends_there.
  - by rewrite (proj1 He).
Qed.

(** The classes of the program. *)
Context (classes : list string) (Hclosed : ∀ cls c, cls ∈ classes → refers cls c → c ∈ classes).

(** The classes that can still be entered. *)
Definition open (g : generator) : nat := length (List.filter (λ c, negb (c in_ generating g)) classes).

Definition creates (create : string → generator → result (where_fields * generator)) (fuel : nat) : Prop :=
  ∀ cls g, cls ∈ classes → cls ∉ generating g → (∀ s, s ∈ generating g → reaches s cls) → sound g → open g < fuel →
    ∃ fs g', create cls g = Ok (fs, g') ∧ extends g g' ∧ sound g' ∧ dict_get cls (generated g') = Some fs.

Lemma add_fields create fuel cls l : 
  creates create fuel → (∀ x, x ∈ l → x ∈ type_hints cls) → cls ∈ classes →
  ∀ g defs done, cls ∈ generating g → (∀ s, s ∈ generating g → reaches s cls) → sound g → open g < fuel →
    Forall2 (found g) done defs →
    ∃ defs' g', foldR (add_field create) (defs, g) l = Ok (defs', g') ∧ extends g g' ∧ sound g' ∧
      Forall2 (found g') (done ++ public l) defs'.
Proof using Hclosed.
  intros Hcr Hl Hcls. induction l as [|x l IH]; intros g defs don Hin Hst Hg Hopen Hf.
  { exists defs, g. rewrite app_nil_r. by split. }
  cbn [foldR].
  assert (add_field create (defs, g) x =
    if is_private x.1 then Ok (defs, g)
    else ('(t, g) ← _get_filter_type_for_field create x.2 x.1 g; Ok (defs ++ [(x.1, x.2, t)], g))) as -> by reflexivity.
  assert (public (x :: l) = if is_private x.1 then public l else x :: public l) as ->.
  { unfold public. cbn [List.filter]. by destruct (is_private x.1). }
  destruct (is_private x.1) eqn:Hp.
  { apply IH; [|done..]. intros y Hy. apply Hl. by right. }
  assert (∃ t g1, _get_filter_type_for_field create x.2 x.1 g = Ok (t, g1) ∧ extends g g1 ∧ sound g1 ∧ found g1 x (x, t)) as H.
  { unfold _get_filter_type_for_field, found. cbn zeta.
    destruct (filter_by_name x.1 (without_none x.2)) as [t|] eqn:Hn; [exists (Some t), g; repeat split; auto|].
    destruct (without_none x.2) as [n|s|c|h|us|] eqn:Hh; try (eexists _, g; repeat split; auto; fail).
    destruct (dict_has c (generated g)) eqn:Hc.
    { eexists _, g. split; [done|]. split; [done|]. split; [done|]. split; [done|]. left. split; [done|]. unfold is_there.
      unfold dict_has in Hc. destruct (dict_get c (generated g)); [by eexists|done]. }
    destruct (c in_ generating g) eqn:Hs.
    { eexists _, g. split; [done|]. split; [done|]. split; [done|]. split; [done|]. right. split; [done|]. by apply str_in_true. }
    assert (refers cls c) as Hr.
    { destruct x as [n h]. cbn [fst snd] in *. apply (refers_computed cls n h); [apply Hl; by left|done|by rewrite Hh|done]. }
    destruct (Hcr c g) as (fs & g1 & E & He & Hg1 & Hfs); [by eapply Hclosed|..|done|done|].
    - intros Hin'. apply str_in_true in Hin'. congruence.
    - intros s Hs'. eapply rtc_r; [by apply Hst|done].
    - rewrite E. cbn. eexists _, g1. split; [done|]. split; [done|]. split; [done|]. split; [done|]. left. split; [done|by eexists]. }
  destruct H as (t & g1 & E & He & Hg1 & Hx). rewrite E. cbn [mbind result_bind].
  destruct (IH) with (g := g1) (defs := defs ++ [(x.1, x.2, t)]) (done := don ++ [x]) as (defs' & g' & E' & He' & Hg' & Hf').
  - intros y Hy. apply Hl. by right.
  - by rewrite (proj1 He).
  - by rewrite (proj1 He).
  - done.
  - unfold open in *. by rewrite (proj1 He).
  - apply Forall2_app; [|constructor; [by destruct x|constructor]]. eapply Forall2_impl; [exact Hf|]. intros. by eapply found_extends.
  - exists defs', g'. split; [exact E'|]. split; [by eapply extends_trans|]. split; [done|].
    by rewrite <- app_assoc in Hf'.
Qed.

Lemma open_enter cls g : cls ∈ classes → cls ∉ generating g → open (enter cls g) < open g.
Proof using Type.
  intros Hc Hn. assert ((cls in_ generating g) = false) as E.
  { apply not_true_iff_false. by intros ?%str_in_true. }
  unfold open, enter. cbn. rewrite E. clear Hclosed. revert Hc.
  assert (∀ l, length (List.filter (λ c, negb (c in_ cls :: generating g)) l)
             ≤ length (List.filter (λ c, negb (c in_ generating g)) l)) as Hle.
  { intros l. induction l as [|c l IH]; cbn [List.filter]; [done|]. rewrite str_in_cons.
    destruct (c =s cls), (c in_ generating g); cbn; lia. }
  induction classes as [|c l IH]; [by intros ?%not_elem_of_nil|]. cbn [List.filter].
  rewrite elem_of_cons. intros [<-|Hl].
  - rewrite str_in_cons, eqb_refl_str, E. cbn. specialize (Hle l). lia.
  - specialize (IH Hl). rewrite str_in_cons. destruct (c =s cls), (c in_ generating g); cbn; lia.
Qed.

Lemma fields_fit cls g there defs :
  (∀ c, there c = true → c = cls ∨ is_there g c) → cls ∈ generating g → (∀ s, s ∈ generating g → reaches s cls) →
  Forall2 (found g) (public (type_hints cls)) defs →
  describes (λ c, c = cls ∨ is_there g c) cls (map (resolve_field there) defs).
Proof using Type.
  intros Hthere Hin Hst Hf. unfold describes. apply Forall2_fmap_r. eapply Forall2_impl; [exact Hf|].
  intros [n h] [[n' h'] t] [E Hx]. cbn in E. injection E as -> ->. cbn [fst snd] in Hx. split; [done|]. cbn zeta in *.
  cbn [fst snd resolve_field]. exists (without_none h). split; [by apply without_none_spec|].
  pose proof (filter_by_name_fits n (without_none h)) as Hname. pose proof (filter_by_type_fits (without_none h)) as Htype.
  destruct (filter_by_name n (without_none h)) as [ft|]; [left; by subst t|right]. split; [done|].
  destruct (without_none h) as [| |c| | |] eqn:Hh; try (by subst t). destruct Hx as [[-> Hc]|[-> Hc]].
  - left. split; [done|by right].
  - right. split; [done|by apply Hst].
Qed.

Lemma create_ok fuel : creates (create_graphql_where_input type_hints fuel None) fuel.
Proof using Hclosed.
  induction fuel as [|fuel IH]; intros cls g Hc Hn Hst Hg Ho; [lia|].
  cbn [create_graphql_where_input]. destruct (dict_get cls (generated g)) as [fs|] eqn:Hd; [by exists fs, g|].
  assert (generating (enter cls g) = cls :: generating g) as Hgen.
  { unfold enter. cbn. destruct (cls in_ generating g) eqn:E; [by apply str_in_true in E|done]. }
  assert (∀ s, s ∈ generating (enter cls g) → reaches s cls) as Hst'.
  { rewrite Hgen. intros s [->|Hs]%elem_of_cons; [done|by apply Hst]. }
  destruct (add_fields _ fuel cls (type_hints cls) IH) with (g := enter cls g) (defs := @nil (string * hint * option where_type))
    (done := @nil (string * hint)) as (defs & g' & E & [Eg Eg'] & Hg' & Hf); [done|done|by rewrite Hgen; left|done|done| |constructor|].
  { pose proof (open_enter cls g Hc Hn). lia. }
  rewrite E. cbn [mbind result_bind]. cbn zeta. cbn [app] in Hf.
  set (there := λ c, _ || _). set (fs := map _ _).
  assert (describes (λ c, c = cls ∨ is_there g' c) cls fs) as Hfs.
  { apply fields_fit; [|by rewrite Eg, Hgen; left|by rewrite Eg|done]. intros c. unfold there.
    intros [?%bool_decide_eq_true|Hh]%orb_true_iff; [by left|]. right. unfold is_there, dict_has in *.
    destruct (dict_get c (generated g')); [by eexists|done]. }
  eexists fs, _. split; [reflexivity|].
  assert (∀ c, c = cls ∨ is_there g' c → is_there (leave cls (with_class g' cls fs)) c) as Hthere.
  { intros c Hc'. unfold is_there. cbn. destruct (decide (c = cls)) as [->|]; [rewrite dict_get_set_eq; by eexists|].
    rewrite dict_get_set_ne by done. by destruct Hc'. }
  split; [split|split].
  - cbn. rewrite Eg, Hgen. cbn. rewrite eqb_refl_str. cbn. clear -Hn. induction (generating g) as [|s l IH]; [done|].
    apply not_elem_of_cons in Hn as [? ?]. cbn. destruct (s =s cls) eqn:E; [by apply bool_decide_eq_true in E as ->|]. cbn. by rewrite IH.
  - intros c fs' Hc'. cbn. rewrite dict_get_set_ne by congruence. by apply Eg'.
  - intros c fs' Hc'. cbn in Hc'. destruct (decide (c = cls)) as [->|Hne].
    + rewrite dict_get_set_eq in Hc'. injection Hc' as <-. eapply Forall2_impl; [exact Hfs|]. intros. by eapply fits_mono; [exact Hthere|].
    + rewrite dict_get_set_ne in Hc' by done. eapply Forall2_impl; [by apply Hg'|]. intros. eapply fits_mono; [|done]. auto.
  - cbn. apply dict_get_set_eq.
Qed.
End generation_laws.

(** C21. The generation ends for every program, whatever its classes refer to, and leaves no
    class half done: the class asked for and every other one it made are kept, with a field
    for each public field of the type, whose filter fits: the one for searches, vectors or
    lists where the field's name or its being a list says so, and else one whose [eq] takes
    a value of the field's type (a text for a type that is not known) and which offers what
    is asked of that type (an order for numbers and dates, parts of a text, networks,
    paths).  A field of a class has that class's where input, which is kept too, and shows a
    text filter instead only if that class leads back to the one with the field. *)
Theorem every_type_gets_a_where_input type_hints classes fuel cls :
  (∀ c c', c ∈ classes → refers type_hints c c' → c' ∈ classes) → cls ∈ classes → length classes < fuel →
  ∃ fs g, create_graphql_where_input type_hints fuel None cls {| generated := []; generating := [] |} = Ok (fs, g) ∧
    generating g = [] ∧ dict_get cls (generated g) = Some fs ∧
    ∀ c fs', dict_get c (generated g) = Some fs' → describes type_hints (is_there g) c fs'.
Proof.
  intros Hclosed Hc Hf.
  destruct (create_ok type_hints classes Hclosed fuel cls {| generated := []; generating := [] |})
    as (fs & g & E & [Eg _] & Hg & Hfs); [done|by intros ?%not_elem_of_nil|by intros s ?%not_elem_of_nil|done| |by exists fs, g].
  unfold open. cbn. pose proof (List.filter_length_le (λ _ : string, true) classes). 
  assert (∀ l : list string, length (List.filter (λ c, negb (c in_ [])) l) ≤ length l) as Hl.
  { intros l. apply List.filter_length_le. }
  specialize (Hl classes). cbn in Hl. lia.
Qed.

(** ** A program with references in a circle *)

Definition blog_hints (c : string) : list (string * hint) :=
  if c =s "User" then
    [("id", Named "UUID"); ("name", Named "str"); ("tags", ListHint (Named "str")); ("embedding", ListHint (Named "float"));
     ("address", UnionHint [Defined "Address"; NoneHint]); ("best_post", Defined "Post"); ("manager", Defined "User");
     ("_secret", Named "str")]
  else if c =s "Post" then [("id", Named "UUID"); ("title", Named "str"); ("author", Defined "User")]
  else if c =s "Address" then [("city", Named "str"); ("zip", Scalar "PostalCode")]
  else [].

Lemma blog_refers c c' : refers blog_hints c c' → c' ∈ ["User"; "Post"; "Address"].
Proof.
  intros (n & h & Hin & _ & Hd%without_none_spec & _). unfold blog_hints in Hin.
  destruct (c =s "User"); [|destruct (c =s "Post"); [|destruct (c =s "Address")]];
    repeat (apply elem_of_cons in Hin as [[= -> ->]|Hin]; [cbn in Hd; first [discriminate Hd|injection Hd as <-; set_solver]|]);
    by apply not_elem_of_nil in Hin.
Defined.

Lemma every_type_gets_a_where_input_witness :
  (∀ c c', c ∈ ["User"; "Post"; "Address"] → refers blog_hints c c' → c' ∈ ["User"; "Post"; "Address"]) ∧
  ∃ fs g, create_graphql_where_input blog_hints 10 None "User" {| generated := []; generating := [] |} = Ok (fs, g) ∧
    generating g = [] ∧ dict_get "User" (generated g) = Some fs ∧
    ∀ c fs', dict_get c (generated g) = Some fs' → describes blog_hints (is_there g) c fs'.
Proof.
  assert (∀ c c', c ∈ ["User"; "Post"; "Address"] → refers blog_hints c c' → c' ∈ ["User"; "Post"; "Address"]) as Hc.
  { intros c c' _. apply blog_refers. }
  split; [exact Hc|]. apply (every_type_gets_a_where_input blog_hints ["User"; "Post"; "Address"] 10 "User" Hc).
  - by left.
  - cbn. lia.
Defined.

(** What the schema shows for a field of a class, generated first or after others. *)
Definition shown_types (first : list string) (cls : string) : result (list (string * where_type)) :=
  '(g : generator) ← foldR (λ g c, '(_, g) ← create_graphql_where_input blog_hints 10 None c g; Ok g)
                       {| generated := []; generating := [] |} first;
  '(fs, _) ← create_graphql_where_input blog_hints 10 None cls g;
  Ok (map (λ x, (x.1, shown x.2)) fs).

(** The author of a post can be filtered by its fields when the class of posts is asked for
    first, and by a text when the class of users was; a manager never by its fields. *)
Example circles_show_text_filters :
  shown_types [] "Post" = Ok [("id", Filter "UUIDFilter"); ("title", Filter "StringFilter"); ("author", Where "User")] ∧
  shown_types ["User"] "Post"
  = Ok [("id", Filter "UUIDFilter"); ("title", Filter "StringFilter"); ("author", Filter "StringFilter")] ∧
  shown_types [] "User"
  = Ok [("id", Filter "UUIDFilter"); ("name", Filter "StringFilter"); ("tags", Filter "ArrayFilter");
        ("embedding", Filter "VectorFilter"); ("address", Where "Address"); ("best_post", Where "Post");
        ("manager", Filter "StringFilter")].
Proof. split_and!; vm_compute; reflexivity. Qed.
