(* ===== verification/WhereObjectLaws.v ===== *)
(** * Filters that are never refused

    A filter dictionary of known operators becomes a clause that asks what it says, at
    every depth; and so does an object of a where input, but for the operators that the
    schema offers and the repository refuses. *)
From stdpp Require Import base decidable strings list.
From Stdlib Require Import ZArith Lia Ascii.
From S2P Require Import Prelude PyVal Sql OpBase FieldCondition WhereClause Casing Views Normalize NormalizeLaws Inputs InputLaws.
From S2P Require Import Filters Meaning WhereInput WhereInputLaws.

Local Open Scope py_scope.

(** ** Filter dictionaries *)

Definition is_dict (v : pyval) : bool := match v with PDict _ => true | _ => false end.

Definition no_none (d : list (string * pyval)) : list (string * pyval) :=
  List.filter (λ kv, negb (Py.is_none kv.2)) d.

(** An operator the repository knows, other than the distances of vectors. *)
Definition known_operator (op : string) : bool :=
  dict_has (_normalize_operator op) ALL_OPERATORS && negb (dict_has (_normalize_operator op) VECTOR_OPERATORS).

(** Operators with operands, one of them at least set. *)
Definition operators (d : list (string * pyval)) : bool :=
  negb (existsb (λ kv, is_dict kv.2) d) && forallb (λ kv, known_operator kv.1) d && negb (bool_decide (no_none d = [])).

(** A name that is read as the name of a field wherever it stands. *)
Definition field_like (n : string) : bool :=
  negb (is_logical n) && negb (is_some (Str.rpartition "__" n)) && negb (dict_has n VECTOR_OPERATORS)
  && negb (dict_has (_normalize_operator n) VECTOR_OPERATORS)
  && negb (dict_has (_normalize_operator n) LTREE_INDEX_COMPARISONS)
  && negb (_normalize_operator n =s "distance_within").

Definition plain_name (n : string) : bool := field_like n && field_like (database_name n).

Section filters.
Context (res : resolver) (view jsonb : string) (tc : option (list string)).

(** No foreign key stands in for the object when filters lie [deeper] than its fields, and
    a key that is declared is there. *)
Definition key_fits (field_name : string) (deeper : bool) : bool :=
  let by_convention := negb (deeper && known tc (field_name +:+ "_id")%stdpp) in
  match metadata_of res view with
  | Some m =>
      match dict_get field_name (fk_relationships m) with
      | Some fk_column => if known tc fk_column then negb deeper else negb (validate_fk_strict m) && by_convention
      | None => by_convention
      end
  | None => by_convention
  end.

Definition flat (v : pyval) : bool := match v with PDict d => operators d | _ => true end.

(** What may stand under the name of a field: a value, operators, or fields with the same. *)
Fixpoint clean_field (field_name : string) (v : pyval) : bool :=
  match v with
  | PDict d =>
      operators d ||
      (negb (bool_decide (d = [])) && key_fits field_name (existsb (λ kv, negb (flat kv.2)) d)
       && forallb (λ kv, plain_name kv.1 && is_dict kv.2 && clean_field (database_name kv.1) kv.2) d)
  | PNone => false
  | _ => true
  end.

(** What a field asks: for every operator at a path, its operand. *)
Fixpoint leaves (path : list string) (v : pyval) : list (list string * string * pyval) :=
  match v with
  | PDict d =>
      if operators d then map (λ kv, (path, _normalize_operator kv.1, kv.2)) (no_none d)
      else concat (map (λ kv, leaves (path ++ [database_name kv.1]) kv.2) d)
  | _ => [(path, "eq", v)]
  end.

Definition asked (c : field_condition) : list string * string * pyval := (field_path c, operator c, FieldCondition.value c).

(** A part of a dictionary that says nothing: an empty list. *)
Definition speaks (name : string) (v : pyval) : bool :=
  negb ((name in_ ["OR"; "AND"]) && match v with PList [] => true | _ => false end).

(** A filter dictionary: fields, lists of dictionaries under [OR] and [AND], one under [NOT]. *)
Fixpoint clean (w : pyval) : bool :=
  match w with
  | PDict items =>
      bool_decide (NoDup items.*1) && existsb (λ kv, speaks kv.1 kv.2) items &&
      forallb (λ kv,
        if kv.1 in_ ["OR"; "AND"] then match kv.2 with PList l => forallb clean l | _ => false end
        else if kv.1 =s "NOT" then is_dict kv.2 && clean kv.2
        else plain_name kv.1 && clean_field (database_name kv.1) kv.2) items
  | _ => false
  end.

(** What it says, over the truth of an operator at a path with its operand. *)
Fixpoint says (sat : list string * string * pyval → bool) (w : pyval) : bool :=
  match w with
  | PDict items =>
      forallb (λ kv,
        if kv.1 =s "OR" then match kv.2 with PList ((_ :: _) as l) => existsb (says sat) l | _ => true end
        else if kv.1 =s "AND" then match kv.2 with PList l => forallb (says sat) l | _ => true end
        else if kv.1 =s "NOT" then negb (says sat kv.2)
        else forallb sat (leaves [database_name kv.1] kv.2)) items
  | _ => true
  end.

(** ** One field *)

Lemma operators_spec d :
  operators d = true →
  Forall (λ kv, is_dict kv.2 = false) d ∧ Forall (λ kv, known_operator kv.1 = true) d ∧ no_none d ≠ [].
Proof using Type.
  unfold operators. rewrite !andb_true_iff, !negb_true_iff. intros [[Hd Hk] Hn]. split_and!.
  - apply Forall_forall. intros x Hx. apply not_true_iff_false. intros E.
    enough (existsb (λ kv, is_dict kv.2) d = true) by congruence. apply existsb_exists. exists x. by rewrite <- list_elem_of_In.
  - apply Forall_forall. intros x Hx. rewrite forallb_forall in Hk. apply Hk. by apply list_elem_of_In.
  - by apply bool_decide_eq_false in Hn.
Qed.

(** A condition with a known operator, at a place, passes its checks. *)
Definition places (mk : string → pyval → field_condition) : Prop :=
  ∀ op v, dict_has op ALL_OPERATORS = true → FieldCondition.__post_init__ (mk op v) = Ok (mk op v).

Lemma known_conditions mk d :
  places mk → Forall (λ kv, known_operator kv.1 = true) d →
  operator_conditions mk d = Ok (map (λ kv, mk (_normalize_operator kv.1) kv.2) (no_none d)).
Proof using Type.
  intros Hmk Hd. unfold operator_conditions. apply mapR_Ok. fold (no_none d).
  assert (Forall (λ kv, known_operator kv.1 = true) (no_none d)) as Hn.
  { rewrite Forall_forall in Hd. apply Forall_forall. intros x [Hx _]%list_elem_of_In%filter_In. by apply Hd, list_elem_of_In. }
  induction Hn as [|x l Hx _ IH]; constructor; [|done]. apply Hmk. by apply andb_true_iff in Hx as [Hx _].
Qed.

Lemma fk_places field : places (fk_condition field).
Proof using Type. intros op v E. unfold FieldCondition.__post_init__. cbn -[ALL_OPERATORS]. by rewrite E. Qed.

Lemma jsonb_places path : path ≠ [] → places (jsonb_condition jsonb path).
Proof using Type.
  intros Hp op v E. unfold FieldCondition.__post_init__. cbn -[ALL_OPERATORS]. rewrite E. by destruct path.
Qed.

Lemma column_places field : places (column_condition field).
Proof using Type. intros op v E. unfold FieldCondition.__post_init__. cbn -[ALL_OPERATORS]. by rewrite E. Qed.

Lemma dict_of_keys {V} (l : list (string * V)) k : k ∈ dict_keys (dict_of l) → k ∈ l.*1.
Proof using Type.
  unfold dict_of. intros Hk. unfold dict_keys in Hk. apply list_elem_of_fmap_1 in Hk as (x & -> & Hx).
  assert (∀ acc, x ∈ foldl (λ d kv, dict_set kv.1 kv.2 d) acc l → x ∈ acc ∨ x.1 ∈ l.*1) as H.
  { clear Hx. induction l as [|kv l IH]; intros acc Hx; [by left|]. cbn in Hx. apply IH in Hx as [Hx|Hx].
    - apply dict_set_elem in Hx as [->|Hx]; [right; by left|by left].
    - right. by right. }
  destruct (H _ Hx) as [Hx'|Hx']; [by apply not_elem_of_nil in Hx'|done].
Qed.

(** A filter without distances of vectors is left alone. *)
Lemma fold_nothing (d : list (string * pyval)) :
  Forall (λ kv, dict_has (_normalize_operator kv.1) VECTOR_OPERATORS = false) d → _fold_vector_filter d = Ok d.
Proof using Type.
  intros Hd. unfold _fold_vector_filter. cbn zeta.
  destruct (existsb _ _) eqn:E; [|done]. apply existsb_exists in E as (k & Hk & Hv).
  apply list_elem_of_In, dict_of_keys in Hk. rewrite <- list_fmap_compose in Hk.
  apply list_elem_of_fmap_1 in Hk as (kv & -> & Hk). rewrite Forall_forall in Hd. specialize (Hd kv Hk). cbn in *. congruence.
Qed.

Lemma no_plain_dict (d : list (string * pyval)) : Forall (λ kv, is_dict kv.2 = false) d → existsb (λ kv, plain_dict kv.2) d = false.
Proof using Type.
  intros Hd. apply not_true_iff_false. intros (kv & Hin & E)%existsb_exists. rewrite Forall_forall in Hd.
  apply list_elem_of_In in Hin. specialize (Hd kv Hin). destruct (kv.2); cbn in *; congruence.
Qed.

Lemma not_nested (d : list (string * pyval)) field :
  Forall (λ kv, is_dict kv.2 = false) d → _is_nested_object_filter res field d tc view = Ok (false, false).
Proof using Type.
  intros Hd. unfold _is_nested_object_filter. destruct (existsb _ d); [done|]. by rewrite no_plain_dict.
Qed.

Lemma not_rejected key : is_some (Str.rpartition "__" key) = false → _reject_operator_suffix_key res key view tc = Ok tt.
Proof using Type. unfold _reject_operator_suffix_key. by destruct (Str.rpartition "__" key). Qed.

Lemma not_vectors (d : list (string * pyval)) : Forall (λ kv, known_operator kv.1 = true) d →
  Forall (λ kv, dict_has (_normalize_operator kv.1) VECTOR_OPERATORS = false) d.
Proof using Type.
  intros Hd. eapply Forall_impl; [exact Hd|]. intros kv Hk. apply andb_true_iff in Hk as [_ Hk]. by apply negb_true_iff in Hk.
Qed.

(** Conditions [cs] of a field that ask for [l]. *)
Definition gives (r : result collected) (acc : collected) (l : list (list string * string * pyval)) : Prop :=
  ∃ cs, r = Ok (add_conditions acc cs) ∧ map asked cs = l.

Lemma given_conditions mk d acc path :
  places mk → (∀ op v, asked (mk op v) = (path, op, v)) → Forall (λ kv, known_operator kv.1 = true) d →
  gives (cs ← operator_conditions mk d; Ok (add_conditions acc cs)) acc
    (map (λ kv, (path, _normalize_operator kv.1, kv.2)) (no_none d)).
Proof using Type.
  intros Hmk Ha Hd. rewrite known_conditions by done. eexists. split; [reflexivity|]. rewrite map_map. apply map_ext. intros kv. apply Ha.
Qed.

Lemma direct_gives rec name v d acc :
  match v with PDict d => d | v => [("eq", v)] end = d → operators d = true → is_some (Str.rpartition "__" name) = false →
  gives (field_step res view jsonb tc rec acc name v) acc
    (map (λ kv, ([database_name name], _normalize_operator kv.1, kv.2)) (no_none d)).
Proof using Type.
  intros Hv (Hd & Hk & _)%operators_spec Hr. unfold field_step. rewrite not_rejected by done. cbn [mbind result_bind].
  cbn zeta. rewrite Hv. rewrite fold_nothing by (by apply not_vectors). cbn [mbind result_bind].
  rewrite not_nested by done. cbn [mbind result_bind andb]. cbn iota beta.
  unfold direct_field. apply given_conditions; [| |done].
  - intros op x Hop. destruct (_ && _); [by apply jsonb_places|by apply column_places].
  - intros op x. by destruct (_ && _).
Qed.

Lemma fk_gives field acc n d :
  operators d = true →
  gives (fk_field jsonb field acc (n, PDict d)) acc (leaves [field; database_name n] (PDict d)).
Proof using Type.
  intros Ho. cbn [leaves]. rewrite Ho. apply operators_spec in Ho as (_ & Hk & _). unfold fk_field. cbn [fst snd]. cbn zeta.
  destruct (database_name n =s "id") eqn:E.
  - apply bool_decide_eq_true in E as ->. by apply given_conditions; [apply fk_places| |].
  - by apply given_conditions; [apply jsonb_places| |].
Qed.

Lemma leaves_cons f path v : leaves (f :: path) v = map (λ x, (f :: x.1.1, x.1.2, x.2)) (leaves path v).
Proof using Type.
  revert path. induction v as [v IH] using (induction_ltof1 _ size). unfold ltof in IH. intros path.
  destruct v as [| | | | | | | | | | |d| |]; try reflexivity. cbn [leaves]. destruct (operators d).
  - by rewrite map_map.
  - rewrite concat_map, map_map. f_equal. apply map_ext_in. intros kv Hin%list_elem_of_In%size_item. by apply IH.
Qed.

Lemma asked_prepend f c : asked (prepend f c) = (λ x, (f :: x.1.1, x.1.2, x.2)) (asked c).
Proof using Type. done. Qed.

(** Every step of a loop gives its own conditions. *)
Lemma loop_gives {B} (f : collected → B → result collected) (l : B → list (list string * string * pyval)) xs acc :
  (∀ acc x, x ∈ xs → gives (f acc x) acc (l x)) → gives (foldR f acc xs) acc (concat (map l xs)).
Proof using Type.
  revert acc. induction xs as [|x xs IH]; intros acc Hf.
  - exists []. by rewrite add_conditions_nil.
  - destruct (Hf acc x) as (cs & E & Hcs); [by left|]. cbn [foldR]. rewrite E. cbn [mbind result_bind].
    destruct (IH (add_conditions acc cs)) as (cs' & E' & Hcs'); [intros; apply Hf; by right|].
    exists (cs ++ cs'). rewrite E', add_conditions_app. split; [done|]. rewrite map_app. cbn. by rewrite Hcs, Hcs'.
Qed.

Lemma field_like_spec n :
  field_like n = true →
  is_logical n = false ∧ is_some (Str.rpartition "__" n) = false ∧ dict_has n VECTOR_OPERATORS = false ∧
  dict_has (_normalize_operator n) VECTOR_OPERATORS = false ∧
  dict_has (_normalize_operator n) LTREE_INDEX_COMPARISONS = false ∧ (_normalize_operator n =s "distance_within") = false.
Proof using Type. unfold field_like. rewrite !andb_true_iff, !negb_true_iff. tauto. Qed.

Lemma known_not_logical op : known_operator op = true → is_logical op = false.
Proof using Type.
  intros Hk. apply not_true_iff_false. intros Hl%str_in_true.
  repeat (apply elem_of_cons in Hl as [->|Hl]; [vm_compute in Hk; discriminate|]). by apply not_elem_of_nil in Hl.
Qed.

(** Fields under the name of a field. *)
Definition fields_under (field_name : string) (d : list (string * pyval)) : Prop :=
  d ≠ [] ∧ key_fits field_name (existsb (λ kv, negb (flat kv.2)) d) = true ∧
  ∀ kv, kv ∈ d → plain_name kv.1 = true ∧ ∃ ops, kv.2 = PDict ops ∧ clean_field (database_name kv.1) (PDict ops) = true.

Lemma clean_cases field_name d :
  clean_field field_name (PDict d) = true → operators d = true ∨ (operators d = false ∧ fields_under field_name d).
Proof using Type.
  cbn [clean_field]. destruct (operators d); [by left|]. cbn [orb]. rewrite !andb_true_iff, negb_true_iff, forallb_forall.
  intros [[Hd Hk] Hf]. right. split; [done|]. split; [by apply bool_decide_eq_false in Hd|]. split; [done|].
  intros kv Hin%list_elem_of_In. specialize (Hf kv Hin). rewrite !andb_true_iff in Hf. destruct Hf as [[Hn Hi] Hc].
  split; [done|]. destruct (kv.2); try done. by eexists.
Qed.

Lemma clean_plain field_name ops : clean_field field_name (PDict ops) = true → plain_dict (PDict ops) = true.
Proof using Type.
  intros Hc. cbn [plain_dict]. apply negb_true_iff, not_true_iff_false. intros (kv & Hin%list_elem_of_In & Hl)%existsb_exists.
  change (is_logical kv.1 = true) in Hl. apply clean_cases in Hc as [(_ & Hk & _)%operators_spec|(_ & _ & _ & Hf)].
  - rewrite Forall_forall in Hk. specialize (Hk kv Hin). apply known_not_logical in Hk. congruence.
  - destruct (Hf kv Hin) as [Hp _]. unfold plain_name in Hp. apply andb_true_iff in Hp as [Hp%field_like_spec _].
    destruct Hp as [Hp _]. congruence.
Qed.

Lemma fields_nested field_name d :
  fields_under field_name d →
  _fold_vector_filter d = Ok d ∧
  ∃ use_fk, _is_nested_object_filter res field_name d tc view = Ok (true, use_fk) ∧
    (use_fk = true → ∀ kv, kv ∈ d → ∃ ops, kv.2 = PDict ops ∧ operators ops = true).
Proof using Type.
  intros (Hd & Hk & Hf).
  assert (∀ kv, kv ∈ d → field_like kv.1 = true) as Hl.
  { intros kv Hin. destruct (Hf kv Hin) as [Hp _]. by apply andb_true_iff in Hp as [Hp _]. }
  split.
  { apply fold_nothing, Forall_forall. intros kv Hin. by apply Hl, field_like_spec in Hin as (_ & _ & _ & Hv & _). }
  assert (existsb (λ kv, plain_dict kv.2) d = true) as Hp.
  { destruct d as [|kv d]; [done|]. destruct (Hf kv) as [_ (ops & E & Hc)]; [by left|].
    cbn [existsb]. rewrite E. by rewrite (clean_plain _ _ Hc). }
  assert (existsb (λ kv, dict_has kv.1 VECTOR_OPERATORS || dict_has (_normalize_operator kv.1) LTREE_INDEX_COMPARISONS
                         || (_normalize_operator kv.1 =s "distance_within")) d = false) as He.
  { apply not_true_iff_false. intros (kv & Hin%list_elem_of_In & E)%existsb_exists.
    apply Hl, field_like_spec in Hin as (_ & _ & E1 & _ & E2 & E3). by rewrite E1, E2, E3 in E. }
  assert (existsb (λ kv, negb (flat kv.2)) d = false → ∀ kv, kv ∈ d → ∃ ops, kv.2 = PDict ops ∧ operators ops = true) as Hflat.
  { intros E kv Hin. destruct (Hf kv Hin) as [_ (ops & E' & _)]. exists ops. split; [done|]. apply not_false_iff_true. intros Ho.
    enough (existsb (λ kv, negb (flat kv.2)) d = true) by congruence. apply existsb_exists. exists kv.
    split; [by apply list_elem_of_In|]. rewrite E'. cbn. by rewrite Ho. }
  unfold _is_nested_object_filter. rewrite He, Hp. cbn [negb]. cbn zeta. unfold key_fits in Hk.
  set (deeper := existsb (λ kv, negb (flat kv.2)) d) in *.
  assert (∃ use_fk, match dict_get "id" d with
                    | Some (PDict _) => if known tc (field_name +:+ "_id")%stdpp then (true, true) else (true, false)
                    | _ => (true, false)
                    end = (true, use_fk) ∧ (use_fk = true → known tc (field_name +:+ "_id")%stdpp = true)) as (use_fk & Ec & Hu).
  { destruct (dict_get "id" d) as [[]|]; try (by exists false). destruct (known _ _); [by exists true|by exists false]. }
  assert (negb (deeper && known tc (field_name +:+ "_id")%stdpp) = true → use_fk = true → deeper = false) as Hb.
  { intros Hn H1. rewrite (Hu H1), andb_true_r in Hn. by apply negb_true_iff in Hn. }
  destruct (metadata_of res view) as [m|]; [|rewrite Ec; by exists use_fk; auto].
  destruct (dict_get field_name (fk_relationships m)) as [fk|]; [|rewrite Ec; by exists use_fk; auto].
  destruct (known tc fk).
  - exists true. split; [done|]. intros _. apply Hflat. by apply negb_true_iff in Hk.
  - apply andb_true_iff in Hk as [Hs Hk]. apply negb_true_iff in Hs. rewrite Hs, Ec. exists use_fk. auto.
Qed.

Lemma database_name_idem n : database_name (database_name n) = database_name n.
Proof using Type.
  unfold database_name at 2 3. destruct (Str.has_char underscore n) eqn:E; unfold database_name; [by rewrite E|].
  destruct (Str.has_char underscore (to_snake_case n)); [done|]. apply snake_fixed, lower_no_upper.
Qed.

Lemma plain_name_database n : plain_name n = true → plain_name (database_name n) = true.
Proof using Type. unfold plain_name. rewrite database_name_idem, !andb_true_iff. tauto. Qed.

Lemma plain_name_like n : plain_name n = true → field_like n = true.
Proof using Type. unfold plain_name. by intros [Hn _]%andb_true_iff. Qed.

Context (Hcolumns : columns_of res view tc = tc).

(** A dictionary with one field is the clause of the field's conditions. *)
Lemma one_field fuel name v cs :
  is_logical name = false → cs ≠ [] →
  field_step res view jsonb tc (normalize_dict_where fuel res view jsonb tc) nothing name v = Ok (add_conditions nothing cs) →
  normalize_dict_where (S fuel) res view jsonb tc (PDict [(name, v)]) = Ok (Clause cs "AND" [] None).
Proof using Hcolumns.
  intros Hl Hne E. cbn [normalize_dict_where]. change (negb (Py.truthy (PDict [(name, v)]))) with false. cbn iota zeta.
  rewrite Hcolumns. cbn [foldR]. apply logical_cases in Hl as (H1 & H2 & H3). unfold item_step. rewrite H1, H2, H3.
  fold nothing. rewrite E. cbn. by destruct cs.
Qed.

Lemma operators_not_nested d : operators d = true → existsb (λ kv, plain_dict kv.2) d = false.
Proof using Type. intros (Hd & _)%operators_spec. by apply no_plain_dict. Qed.

Lemma leaves_nonempty field_name v path : clean_field field_name v = true → leaves path v ≠ [].
Proof using Type.
  revert field_name path. induction v as [v IH] using (induction_ltof1 _ size). unfold ltof in IH. intros field_name path Hc.
  destruct v as [| | | | | | | | | | |d| |]; try done. cbn [leaves]. apply clean_cases in Hc as [Ho|(Ho & Hd & _ & Hf)]; rewrite Ho.
  - apply operators_spec in Ho as (_ & _ & Hn). by destruct (no_none d).
  - destruct d as [|kv d]; [done|]. destruct (Hf kv) as [_ (ops & E & Hc)]; [by left|]. cbn.
    assert (size kv.2 < size (PDict (kv :: d))) as Hs by (apply size_item; by left).
    specialize (IH kv.2 Hs (database_name kv.1) (path ++ [database_name kv.1])). rewrite E in IH |- *. specialize (IH Hc). by destruct (leaves _ _).
Qed.

Lemma scalar_gives rec name v acc :
  is_dict v = false → Py.is_none v = false → is_some (Str.rpartition "__" name) = false →
  gives (field_step res view jsonb tc rec acc name v) acc [([database_name name], "eq", v)].
Proof using Type.
  intros Hd Hn Hr. assert (known_operator "eq" = true) as Hk by (vm_compute; reflexivity).
  assert (_normalize_operator "eq" = "eq") as Hop by (vm_compute; reflexivity).
  assert (no_none [("eq", v)] = [("eq", v)]) as E by (unfold no_none; cbn [List.filter snd]; by rewrite Hn).
  assert (operators [("eq", v)] = true) as Ho.
  { unfold operators. cbn [existsb forallb fst snd]. by rewrite Hd, Hk, E. }
  assert (match v with PDict d => d | v => [("eq", v)] end = [("eq", v)]) as Ev by (by destruct v).
  pose proof (direct_gives rec name v _ acc Ev Ho Hr) as Hg. rewrite E in Hg. cbn [map fst snd] in Hg. by rewrite Hop in Hg.
Qed.

Lemma field_gives fuel name v acc :
  size v < fuel → plain_name name = true → clean_field (database_name name) v = true →
  gives (field_step res view jsonb tc (normalize_dict_where fuel res view jsonb tc) acc name v) acc
    (leaves [database_name name] v).
Proof using Hcolumns.
  revert name v acc. induction fuel as [|fuel IH]; intros name v acc Hs Hn Hc; [lia|].
  pose proof (plain_name_like _ Hn) as (Hl & Hr & _)%field_like_spec.
  destruct (is_dict v) eqn:Hd.
  2: { destruct v; try done; by apply scalar_gives. }
  destruct v as [| | | | | | | | | | |d| |]; try done. clear Hd.
  apply clean_cases in Hc as [Ho|[Ho Hf]].
  { cbn [leaves]. rewrite Ho. by apply direct_gives. }
  destruct (fields_nested _ _ Hf) as (Efold & use_fk & Enest & Hfk). unfold field_step. rewrite not_rejected by done.
  cbn [mbind result_bind]. cbn zeta. rewrite Efold. cbn [mbind result_bind]. rewrite Enest. cbn [mbind result_bind andb].
  cbn [leaves]. rewrite Ho. destruct use_fk; cbn iota beta.
  - apply loop_gives. intros acc' [n w] Hin. destruct (Hfk eq_refl _ Hin) as (ops & E & Hops). cbn [snd] in E. subst w.
    by apply fk_gives.
  - destruct Hf as (_ & _ & Hf). apply loop_gives. intros acc' [n w] Hin. destruct (Hf _ Hin) as [Hp (ops & E & Hops)].
    cbn [fst snd] in *. subst w. apply size_item in Hin. cbn [snd] in Hin. unfold jsonb_field. cbn [fst snd]. cbn zeta.
    pose proof Hops as [Hop|[Hop Hu]]%clean_cases.
    + rewrite (operators_not_nested _ Hop). cbn [leaves]. rewrite Hop. apply operators_spec in Hop as (_ & Hk & _).
      by apply given_conditions; [apply jsonb_places| |].
    + assert (existsb (λ kv, plain_dict kv.2) ops = true) as Hpl.
      { destruct Hu as (Hd & _ & Hu). destruct ops as [|kv ops]; [done|]. destruct (Hu kv) as [_ (o & E & Ho')]; [by left|].
        cbn [existsb]. rewrite E. by rewrite (clean_plain _ _ Ho'). }
      rewrite Hpl.
      destruct (IH (database_name n) (PDict ops) nothing) as (cs & E & Hcs);
        [lia|by apply plain_name_database|by rewrite database_name_idem|]. rewrite database_name_idem in Hcs.
      rewrite (one_field _ _ _ cs); [| |by intros ->; apply eq_sym, (leaves_nonempty _ _ _ Hops) in Hcs|done].
      2: { apply plain_name_database, plain_name_like, field_like_spec in Hp as [? _]; done. }
      cbn [mbind result_bind]. exists (map (prepend (database_name name)) cs). split.
      { f_equal. unfold add_conditions. f_equal. by rewrite app_nil_r. }
      rewrite map_map. cbn beta iota delta [fst snd].
      change (leaves ([database_name name] ++ [database_name n]) (PDict ops))
        with (leaves (database_name name :: [database_name n]) (PDict ops)).
      rewrite leaves_cons, <- Hcs, map_map. by apply map_ext.
Qed.

(** ** The whole dictionary *)

Definition filled (acc : collected) : Prop := conditions acc ≠ [] ∨ nested_clauses acc ≠ [] ∨ not_clause acc ≠ None.

Definition collected_clause (acc : collected) : where_clause := Clause (conditions acc) "AND" (nested_clauses acc) (not_clause acc).

(** A clause that says what a dictionary says. *)
Definition answers (w : pyval) (c : where_clause) : Prop :=
  ∃ acc, c = collected_clause acc ∧ filled acc ∧ ∀ sat, holds (sat ∘ asked) c = says sat w.

Section step.
Context (fuel : nat).
Notation rec := (normalize_dict_where fuel res view jsonb tc).
Context (Hrec : ∀ w, size w < fuel → clean w = true → ∃ c, rec w = Ok c ∧ answers w c).

Lemma or_answers l :
  size (PList l) ≤ fuel → forallb clean l = true →
  ∃ ws, mapR rec l = Ok ws ∧ length ws = length l ∧ ∀ sat, existsb (holds (sat ∘ asked)) ws = existsb (says sat) l.
Proof using Hrec.
  intros Hs Hc. cut (∃ ws, mapR rec l = Ok ws ∧ Forall2 (λ w c, answers w c) l ws).
  { intros (ws & E & Hw). exists ws. split; [done|]. split; [by apply Forall2_length in Hw|]. intros sat.
    clear Hs Hc E. induction Hw as [|w c l' ws' (acc & _ & _ & Hh) _ IH]; [done|]. cbn. by rewrite Hh, IH. }
  assert (∀ w, w ∈ l → size w < fuel) as Hsize by (intros w Hw%size_element; lia). clear Hs.
  induction l as [|w l IH]; [by exists []|]. cbn [forallb] in Hc. apply andb_true_iff in Hc as [Hw Hl].
  destruct (Hrec w) as (c & E & Ha); [apply Hsize; by left|done|].
  destruct IH as (ws & E' & Hws); [done|intros; apply Hsize; by right|].
  exists (c :: ws). cbn. rewrite E. cbn. rewrite E'. cbn. split; [done|by constructor].
Qed.

Lemma and_answers l acc :
  size (PList l) ≤ fuel → forallb clean l = true →
  ∃ acc', foldR (and_step rec) acc l = Ok acc' ∧ not_clause acc' = not_clause acc ∧ (filled acc ∨ l ≠ [] → filled acc') ∧
    ∀ sat, holds_so_far (sat ∘ asked) acc' = holds_so_far (sat ∘ asked) acc && forallb (says sat) l.
Proof using Hrec.
  intros Hs Hc. assert (∀ w, w ∈ l → size w < fuel) as Hsize by (intros w Hw%size_element; lia). clear Hs.
  revert acc. induction l as [|w l IH]; intros acc.
  { exists acc. split; [done|]. split; [done|]. split; [by intros [?|?]|]. intros sat. by rewrite andb_true_r. }
  cbn [forallb] in Hc. apply andb_true_iff in Hc as [Hw Hl].
  destruct (Hrec w) as (c & E & (a & -> & Hf & Hh)); [apply Hsize; by left|done|].
  assert (∃ a', and_step rec acc w = Ok a' ∧ not_clause a' = not_clause acc ∧ filled a' ∧
    ∀ sat, holds_so_far (sat ∘ asked) a' = holds_so_far (sat ∘ asked) acc && says sat w) as (a' & E' & Hn & Hf' & Hh').
  { unfold and_step. rewrite E. cbn [mbind result_bind]. unfold collected_clause in *. destruct a as [cs nested not].
    cbn [conditions nested_clauses not_clause] in *. unfold filled in *. cbn [conditions nested_clauses not_clause] in *.
    destruct nested as [|n nested]; [destruct not as [o|]|]; eexists; (split; [reflexivity|]); (split; [reflexivity|]).
    - split; [right; left; cbn; by destruct (nested_clauses acc)|]. intros sat. rewrite holds_add_nested. cbn [forallb].
      by rewrite andb_true_r, Hh.
    - split; [left; cbn; destruct Hf as [Hf|[?|?]]; [|done|done]; by destruct (conditions acc)|]. intros sat.
      rewrite holds_add_conditions, <- Hh, holds_and. unfold holds_so_far at 3. cbn. by rewrite !andb_true_r.
    - split; [right; left; cbn; by destruct (nested_clauses acc)|]. intros sat. rewrite holds_add_nested. cbn [forallb].
      by rewrite andb_true_r, Hh. }
  destruct (IH Hl) with (acc := a') as (acc' & E'' & Hn'' & Hf'' & Hh''); [intros; apply Hsize; by right|].
  exists acc'. cbn [foldR]. rewrite E'. cbn [mbind result_bind]. split; [done|]. split; [congruence|]. split; [by auto|].
  intros sat. cbn [forallb]. by rewrite Hh'', Hh', andb_assoc.
Qed.

Definition clean_item (kv : string * pyval) : bool :=
  if kv.1 in_ ["OR"; "AND"] then match kv.2 with PList l => forallb clean l | _ => false end
  else if kv.1 =s "NOT" then is_dict kv.2 && clean kv.2
  else plain_name kv.1 && clean_field (database_name kv.1) kv.2.

Definition says_item (sat : list string * string * pyval → bool) (kv : string * pyval) : bool :=
  if kv.1 =s "OR" then match kv.2 with PList ((_ :: _) as l) => existsb (says sat) l | _ => true end
  else if kv.1 =s "AND" then match kv.2 with PList l => forallb (says sat) l | _ => true end
  else if kv.1 =s "NOT" then negb (says sat kv.2)
  else forallb sat (leaves [database_name kv.1] kv.2).

(** One item adds what it says, and only [NOT] sets the negation. *)
Definition item_answers (acc : collected) (kv : string * pyval) (acc' : collected) : Prop :=
  (kv.1 ≠ "NOT" → not_clause acc' = not_clause acc) ∧ (filled acc ∨ speaks kv.1 kv.2 = true → filled acc') ∧
  ∀ sat, holds_so_far (sat ∘ asked) acc' = holds_so_far (sat ∘ asked) acc && says_item sat kv.

Lemma item_ok acc kv :
  size kv.2 < fuel → clean_item kv = true → (kv.1 = "NOT" → not_clause acc = None) →
  ∃ acc', item_step res view jsonb tc rec acc kv = Ok acc' ∧ item_answers acc kv acc'.
Proof using Hrec Hcolumns.
  destruct kv as [name v]. unfold clean_item, item_answers, says_item, speaks, item_step. cbn [fst snd]. intros Hs Hc Hnot.
  destruct (name =s "OR") eqn:E1.
  { apply bool_decide_eq_true in E1 as ->. change ("OR" in_ ["OR"; "AND"]) with true in *. cbn iota in Hc.
    destruct v as [| | | | | | | | |l| | | |]; try done. destruct (or_answers l (Nat.lt_le_incl _ _ Hs) Hc) as (ws & E & Hlen & Hh). rewrite E. cbn [mbind result_bind].
    destruct ws as [|w ws], l as [|x l]; try done.
    - exists acc. split; [done|]. split; [done|]. split; [by intros [?|?]|]. intros sat. by rewrite andb_true_r.
    - cbn [WhereClause.__post_init__]. change (negb ("OR" in_ ["AND"; "OR"])) with false. cbn iota. cbn [mbind result_bind].
      eexists. split; [reflexivity|]. split; [done|]. split.
      { intros _. right. left. cbn. by destruct (nested_clauses acc). }
      intros sat. rewrite holds_add_nested. cbn [forallb]. rewrite andb_true_r, <- Hh. f_equal. cbn [holds].
      change ("OR" =s "OR") with true. cbn iota. by rewrite app_nil_r, app_nil_l, existsb_map. }
  destruct (name =s "AND") eqn:E2.
  { apply bool_decide_eq_true in E2 as ->. change ("AND" in_ ["OR"; "AND"]) with true in *. cbn iota in Hc.
    destruct v as [| | | | | | | | |l| | | |]; try done. destruct (and_answers l acc (Nat.lt_le_incl _ _ Hs) Hc) as (acc' & E & Hn & Hf & Hh).
    exists acc'. split; [done|]. split; [done|]. split; [|done]. intros [?|Hl]; apply Hf; [by left|right]. by destruct l. }
  assert ((name in_ ["OR"; "AND"]) = false) as Eo by (rewrite !str_in_cons, E1, E2; reflexivity).
  rewrite Eo in *. destruct (name =s "NOT") eqn:E3.
  { apply bool_decide_eq_true in E3 as ->. apply andb_true_iff in Hc as [Hd Hc]. destruct v as [| | | | | | | | | | |d| |]; try done.
    destruct (Hrec (PDict d)) as (c & E & (a & -> & Hf & Hh)); [done|done|].
    rewrite E. cbn [mbind result_bind]. eexists. split; [reflexivity|]. split; [done|]. split; [intros _; right; by right|].
    intros sat. rewrite <- Hh. unfold holds_so_far. cbn. by rewrite (Hnot eq_refl), andb_true_r. }
  apply andb_true_iff in Hc as [Hn Hc].
  destruct (field_gives fuel name v acc) as (cs & E & Hcs); [done..|].
  rewrite E. eexists. split; [reflexivity|]. split; [done|]. split.
  - intros _. left. cbn. apply leaves_nonempty with (path := [database_name name]) in Hc. rewrite <- Hcs in Hc.
    destruct cs; [done|]. by destruct (conditions acc).
  - intros sat. rewrite holds_add_conditions, <- Hcs. by rewrite forallb_map.
Qed.
End step.
Lemma items_ok fuel items acc :
  (∀ w, size w < fuel → clean w = true → ∃ c, normalize_dict_where fuel res view jsonb tc w = Ok c ∧ answers w c) →
  (∀ kv, kv ∈ items → size kv.2 < fuel) → NoDup items.*1 → forallb clean_item items = true →
  ("NOT" ∈ items.*1 → not_clause acc = None) →
  ∃ acc', foldR (item_step res view jsonb tc (normalize_dict_where fuel res view jsonb tc)) acc items = Ok acc' ∧
    (filled acc ∨ existsb (λ kv, speaks kv.1 kv.2) items = true → filled acc') ∧
    ∀ sat, holds_so_far (sat ∘ asked) acc' = holds_so_far (sat ∘ asked) acc && forallb (says_item sat) items.
Proof using Hcolumns.
  intros Hrec. revert acc. induction items as [|kv items IH]; intros acc Hs Hnd Hc Hnot.
  { exists acc. split; [done|]. split; [by intros [?|?]|]. intros sat. by rewrite andb_true_r. }
  apply andb_true_iff in Hc as [Hkv Hc]. rewrite fmap_cons in Hnd, Hnot. apply NoDup_cons in Hnd as [Hk Hnd].
  destruct (item_ok fuel Hrec acc kv) as (a & E & Hn & Hf & Hh); [apply Hs; by left|done|intros E0; apply Hnot; rewrite E0; by left|].
  destruct (IH a) as (acc' & E' & Hf' & Hh'); [intros; apply Hs; by right|done|done| |].
  { intros Hin. rewrite Hn by (intros E1; rewrite E1 in Hk; done). apply Hnot. by right. }
  exists acc'. cbn [foldR]. rewrite E. cbn [mbind result_bind]. split; [done|]. split.
  - cbn [existsb]. rewrite orb_true_iff. intros [?|[?|?]]; apply Hf'; auto.
  - intros sat. cbn [forallb]. by rewrite Hh', Hh, andb_assoc.
Qed.

Lemma clean_answered fuel w :
  size w < fuel → clean w = true → ∃ c, normalize_dict_where fuel res view jsonb tc w = Ok c ∧ answers w c.
Proof using Hcolumns.
  revert w. induction fuel as [|fuel IH]; intros w Hs Hc; [lia|]. destruct w as [| | | | | | | | | | |items| |]; try done.
  cbn [clean] in Hc. rewrite !andb_true_iff in Hc. destruct Hc as [[Hnd%bool_decide_eq_true Hsp] Hc].
  cbn [normalize_dict_where]. assert (Py.truthy (PDict items) = true) as -> by (by destruct items). cbn [negb]. cbn zeta.
  rewrite Hcolumns. fold nothing.
  destruct (items_ok fuel items nothing IH) as (acc & E & Hf & Hh); [|done|done|done|].
  { intros kv Hin%size_item. lia. }
  rewrite E. cbn [mbind result_bind]. exists (collected_clause acc).
  assert (filled acc) as Hfill by (apply Hf; by right). split.
  - unfold WhereClause.__post_init__. change (negb ("AND" in_ ["AND"; "OR"])) with false. cbn iota.
    destruct acc as [[|] [|] []]; cbn in *; try done. by destruct Hfill as [?|[?|?]].
  - exists acc. split; [done|]. split; [done|]. intros sat. unfold collected_clause. rewrite holds_and. specialize (Hh sat).
    destruct acc. cbn in *. by rewrite Hh.
Qed.
End filters.


(** ** Objects of where inputs *)

(** The filters of conditions, those of vectors apart. *)
Definition condition_filters : list (string * list (string * (annotation * field))) :=
  List.filter (λ x, negb (x.1 in_ ["IPRange"; "LTreeIndexInput"; "CoordinateDistanceInput"; "SparseVectorInput";
                                   "VectorDistanceInput"; "VectorFilter"])) filter_classes.

(** The operators of the filters that the conditions do not know. *)
Definition refused_operators : list string :=
  ["in_"; "rank_gte"; "rank_lte"; "rank_cd_gte"; "rank_cd_lte"; "has_key"; "has_any_keys"; "has_all_keys"; "path_exists";
   "path_match"].

Lemma other_operators_known :
  Forall (λ f, Forall (λ x, x.1 ∉ refused_operators → known_operator x.1 = true) f.2) condition_filters.
Proof.
  assert (forallb (λ f, forallb (λ x, (x.1 in_ refused_operators) || known_operator x.1) f.2) condition_filters = true) as H
    by (vm_compute; reflexivity).
  rewrite forallb_forall in H. apply Forall_forall. intros f Hf%list_elem_of_In. specialize (H f Hf). rewrite forallb_forall in H.
  apply Forall_forall. intros x Hx%list_elem_of_In Hr. specialize (H x Hx). apply orb_true_iff in H as [H|H]; [|done].
  by apply str_in_true in H.
Qed.

Section objects.
Context (is_where : string → bool) (res : resolver) (view jsonb : string) (tc : option (list string)).
Notation dict_of_object := (_to_whereinput_dict is_where).
Notation has_methods := (has_methods is_where).

Definition no_entries (v : value) : bool := match v with Entries _ => false | _ => true end.

(** A filter with its attributes, those that are set being operators with operands. *)
Definition sound_filter (v : value) : bool :=
  match v with
  | Instance c attrs =>
      match dict_get c condition_filters with
      | Some fs =>
          bool_decide (attrs.*1 = dict_keys fs) &&
          forallb (λ kv, is_null kv.2 || (negb (kv.1 in_ refused_operators) && no_entries kv.2)) attrs
      | None => false
      end
  | _ => false
  end.

Definition sound_value (v : value) : bool :=
  match v with Text _ | Int _ | Float _ | Bool _ | UUID _ | Date _ | Datetime _ => true | _ => sound_filter v end.

(** An object with something to ask. *)
Definition talks (v : value) : bool := existsb (λ kv, speaks kv.1 kv.2) (dict_of_object v).

(** An object of a where input: filters, values and objects under names of fields, and
    objects that have something to ask in its logical fields, which an [inner] one leaves
    alone. *)
Fixpoint sound_object (inner : bool) (v : value) : bool :=
  match v with
  | Instance c attrs =>
      is_where c && bool_decide (NoDup attrs.*1) &&
      forallb (λ kv,
        is_null kv.2 || is_private kv.1 ||
        if is_logical kv.1 then
          negb inner &&
          if kv.1 =s "NOT" then has_methods kv.2 && talks kv.2 && sound_object false kv.2
          else match kv.2 with Items l => forallb (λ x, has_methods x && talks x && sound_object false x) l | _ => false end
        else
          plain_name kv.1 &&
          if has_methods kv.2 then
            sound_object true kv.2
            && key_fits res view tc (database_name kv.1) (existsb (λ kv, negb (flat kv.2)) (dict_of_object kv.2))
          else sound_value kv.2) attrs
  | _ => false
  end.

(** The entries of one attribute. *)
Definition entry (kv : string * value) : list (string * pyval) :=
  if is_null kv.2 || is_private kv.1 then []
  else if is_logical kv.1 then
    if kv.1 =s "NOT" then [(kv.1, if has_methods kv.2 then PDict (dict_of_object kv.2) else operand kv.2)]
    else
      match kv.2 with
      | Items l => [(kv.1, PList (map (λ x, if has_methods x then PDict (dict_of_object x) else operand x) l))]
      | _ => [(kv.1, operand kv.2)]
      end
  else if has_methods kv.2 then under kv.1 (dict_of_object kv.2)
  else direct_entry kv.1 kv.2.

Lemma dict_entries c attrs : dict_of_object (Instance c attrs) = concat (map entry attrs).
Proof using Type. done. Qed.

Lemma under_cases name d : under name d = [] ∨ d ≠ [] ∧ under name d = [(name, PDict d)].
Proof using Type. destruct d; [by left|by right]. Qed.

Lemma entry_cases kv : entry kv = [] ∨ ∃ v, entry kv = [(kv.1, v)].
Proof using Type.
  assert (∀ n d, under n d = [] ∨ ∃ v, under n d = [(n, v)]) as Hu.
  { intros n d. destruct (under_cases n d) as [?|[_ ?]]; [by left|right; by eexists]. }
  unfold entry. destruct (_ || _); [by left|]. destruct (is_logical _).
  { destruct (_ =s _); [right; by eexists|]. destruct kv.2; right; by eexists. }
  destruct (has_methods _); [apply Hu|]. unfold direct_entry. destruct (_is_filter_object kv.2).
  - destruct kv.2; try by left. apply Hu.
  - destruct kv.2; first [by left|right; by eexists].
Qed.

Lemma where_entries_keys attrs : sublist (concat (map entry attrs)).*1 attrs.*1.
Proof using Type.
  induction attrs as [|kv attrs IH]; [constructor|]. cbn [map concat]. rewrite fmap_app, fmap_cons.
  destruct (entry_cases kv) as [->|[v ->]]; cbn; by constructor.
Qed.

(** A filter's operators, once one is set. *)
Lemma set_operators_clean c attrs :
  sound_filter (Instance c attrs) = true → set_operators attrs ≠ [] → operators (set_operators attrs) = true.
Proof using Type.
  cbn [sound_filter]. destruct (dict_get c condition_filters) as [fs|] eqn:Hc; [|done].
  intros [Hk%bool_decide_eq_true Ha]%andb_true_iff Hne. apply dict_get_elem in Hc.
  pose proof other_operators_known as Hkn. rewrite Forall_forall in Hkn. specialize (Hkn _ Hc). rewrite Forall_forall in Hkn.
  assert (∀ x, x ∈ set_operators attrs → ∃ kv, kv ∈ attrs ∧ x = (kv.1, operand kv.2) ∧ is_null kv.2 = false) as Hel.
  { intros x (kv & -> & Hkv)%list_elem_of_fmap_1. exists kv. apply list_elem_of_In, filter_In in Hkv as [Hkv Hf].
    split; [by apply list_elem_of_In|]. split; [done|]. apply andb_true_iff in Hf as [Hf _]. by apply negb_true_iff in Hf. }
  assert (∀ x, x ∈ set_operators attrs → known_operator x.1 = true ∧ is_dict x.2 = false ∧ Py.is_none x.2 = false) as Hall.
  { intros x (kv & Hkv & -> & Hnull)%Hel. rewrite forallb_forall in Ha. pose proof (Ha kv) as H1.
    rewrite Hnull in H1. cbn [orb] in H1. apply list_elem_of_In in Hkv as Hin. specialize (H1 Hin).
    apply andb_true_iff in H1 as [Hr He]. apply negb_true_iff in Hr. cbn [fst snd]. split.
    - assert (kv.1 ∈ fs.*1) as Hf. { unfold dict_keys in Hk. rewrite <- Hk. by apply list_elem_of_fmap_2. }
      apply list_elem_of_fmap_1 in Hf as (y & E & Hy). rewrite E in Hr |- *. apply Hkn; [done|]. intros Hin'%str_in_true. congruence.
    - destruct kv.2; done. }
  unfold operators. rewrite !andb_true_iff, !negb_true_iff. split_and!.
  - apply not_true_iff_false. intros (x & Hx%list_elem_of_In & Hd)%existsb_exists. apply Hall in Hx as (_ & Hx & _). congruence.
  - apply forallb_forall. intros x Hx%list_elem_of_In. by apply Hall.
  - apply bool_decide_eq_false. destruct (set_operators attrs) as [|x l]; [done|].
    destruct (Hall x) as (_ & _ & Hx); [by left|]. unfold no_none. cbn [List.filter]. by rewrite Hx.
Qed.

Lemma equals_operators v : is_dict v = false → Py.is_none v = false → operators [("eq", v)] = true.
Proof using Type.
  intros Hd Hn. unfold operators, no_none. cbn [existsb forallb List.filter fst snd]. rewrite Hd, Hn.
  assert (known_operator "eq" = true) as -> by (vm_compute; reflexivity). reflexivity.
Qed.

Lemma filter_entries name c attrs x :
  sound_filter (Instance c attrs) = true → x ∈ under name (set_operators attrs) →
  x.1 = name ∧ ∃ ops, x.2 = PDict ops ∧ operators ops = true.
Proof using Type.
  intros Hs Hx. destruct (under_cases name (set_operators attrs)) as [E|[Hne E]]; rewrite E in Hx; [by apply not_elem_of_nil in Hx|].
  apply list_elem_of_singleton in Hx as ->. split; [done|]. eexists. split; [done|]. by eapply set_operators_clean.
Qed.

Lemma scalar_entries name v x :
  sound_value v = true → _is_filter_object v = false → x ∈ direct_entry name v →
  x.1 = name ∧ ∃ ops, x.2 = PDict ops ∧ operators ops = true.
Proof using Type.
  intros Hs Hf Hx. unfold direct_entry in Hx. rewrite Hf in Hx. destruct v; try by apply not_elem_of_nil in Hx.
  all: apply list_elem_of_singleton in Hx as ->; (split; [reflexivity|]); eexists; (split; [reflexivity|]).
  all: first [apply equals_operators; reflexivity|discriminate Hs].
Qed.

Lemma value_instance c attrs : sound_value (Instance c attrs) = sound_filter (Instance c attrs).
Proof using Type. reflexivity. Qed.

Lemma value_entries name v x :
  sound_value v = true → x ∈ direct_entry name v → x.1 = name ∧ ∃ ops, x.2 = PDict ops ∧ operators ops = true.
Proof using Type.
  intros Hs Hx. destruct (_is_filter_object v) eqn:Hf; [|by apply scalar_entries with v].
  unfold direct_entry in Hx. rewrite Hf in Hx. destruct v as [| | | | | | | | | | | | | | |c attrs]; try discriminate Hf.
  rewrite value_instance in Hs. by apply filter_entries with c attrs.
Qed.

Lemma logical_names name :
  is_logical name = ((name in_ ["OR"; "AND"]) || (name =s "NOT")).
Proof using Type. unfold is_logical. rewrite !str_in_cons. change (name in_ []) with false. by rewrite !orb_false_r, orb_assoc. Qed.

Lemma field_item name v :
  is_logical name = false → clean_item res view tc (name, v) = plain_name name && clean_field res view tc (database_name name) v.
Proof using Type.
  rewrite logical_names. intros [E1 E2]%orb_false_iff. unfold clean_item. cbn [fst snd]. by rewrite E1, E2.
Qed.

(** What the entries of a sound object are. *)
Definition entries_clean (v : value) : Prop :=
  ∀ inner x, sound_object inner v = true → x ∈ dict_of_object v →
    clean_item res view tc x = true ∧
    (inner = true → plain_name x.1 = true ∧ is_dict x.2 = true ∧ clean_field res view tc (database_name x.1) x.2 = true).

Lemma object_clean v :
  entries_clean v → sound_object false v = true → talks v = true → clean res view tc (PDict (dict_of_object v)) = true.
Proof using Type.
  intros He Hs Ht. cbn [clean]. rewrite !andb_true_iff. split; [split|].
  - apply bool_decide_eq_true. destruct v as [| | | | | | | | | | | | | | |c attrs]; try done. rewrite dict_entries.
    cbn [sound_object] in Hs. rewrite !andb_true_iff in Hs. destruct Hs as [[_ Hnd%bool_decide_eq_true] _].
    by eapply sublist_NoDup, where_entries_keys.
  - exact Ht.
  - apply forallb_forall. intros x Hx%list_elem_of_In. by destruct (He false x Hs Hx).
Qed.

Lemma inner_clean name v :
  entries_clean v → sound_object true v = true → dict_of_object v ≠ [] →
  key_fits res view tc name (existsb (λ kv, negb (flat kv.2)) (dict_of_object v)) = true →
  clean_field res view tc name (PDict (dict_of_object v)) = true.
Proof using Type.
  intros He Hs Hd Hk. cbn [clean_field]. rewrite Hk. apply orb_true_iff. right. rewrite !andb_true_iff. split; [split; [|done]|].
  - by apply negb_true_iff, bool_decide_eq_false.
  - apply forallb_forall. intros x Hx%list_elem_of_In. destruct (He true x Hs Hx) as [_ H]. destruct (H eq_refl) as (-> & -> & ->). done.
Qed.

Lemma sound_entries v : entries_clean v ∧ ∀ l, v = Items l → Forall entries_clean l.
Proof using Type.
  induction v as [ | | | | | | | | | | | | |l IH|d _|c attrs IH] using value_induction;
    try (split; [intros inner x Hs; discriminate Hs|done]).
  { split; [intros inner x Hs; discriminate Hs|]. intros l' [= <-]. eapply Forall_impl; [exact IH|]. by intros ? [? _]. }
  split; [|done]. intros inner x Hs Hx. rewrite dict_entries in Hx.
  apply list_elem_of_In, in_concat in Hx as (e & He & Hx). apply in_map_iff in He as (kv & <- & Hkv).
  apply list_elem_of_In in Hx, Hkv. rewrite Forall_forall in IH. destruct (IH kv Hkv) as [IHv IHl]. clear IH.
  cbn [sound_object] in Hs. rewrite !andb_true_iff in Hs. destruct Hs as [_ Hs]. rewrite forallb_forall in Hs.
  apply list_elem_of_In in Hkv. specialize (Hs kv Hkv). unfold entry in Hx.
  destruct (is_null kv.2 || is_private kv.1); [by apply not_elem_of_nil in Hx|]. cbn [orb] in Hs.
  destruct (is_logical kv.1) eqn:Hl.
  - apply andb_true_iff in Hs as [Hin Hs]. apply negb_true_iff in Hin as ->. split; [|done].
    rewrite logical_names in Hl. destruct (kv.1 =s "NOT") eqn:E.
    + apply list_elem_of_singleton in Hx as ->. rewrite !andb_true_iff in Hs. destruct Hs as [[Hm Ht] Hs].
      unfold clean_item. cbn [fst snd]. rewrite Hm, E. apply bool_decide_eq_true in E as ->.
      change ("NOT" in_ ["OR"; "AND"]) with false. cbn iota. cbn [is_dict andb]. by apply object_clean.
    + rewrite orb_false_r in Hl. destruct (kv.2) as [| | | | | | | | | | | | |l|d|c' a'] eqn:Hv; try discriminate Hs.
      apply list_elem_of_singleton in Hx as ->. unfold clean_item. cbn [fst snd]. rewrite Hl. cbn iota.
      specialize (IHl l eq_refl). rewrite forallb_map. apply forallb_forall. intros y Hy. rewrite forallb_forall in Hs.
      specialize (Hs y Hy). rewrite !andb_true_iff in Hs. destruct Hs as [[Hm Ht] Hs]. unfold compose. rewrite Hm.
      rewrite Forall_forall in IHl. apply list_elem_of_In in Hy. by apply object_clean; [apply IHl| |].
  - apply andb_true_iff in Hs as [Hp Hs]. destruct (has_methods kv.2).
    + apply andb_true_iff in Hs as [Hs Hk].
      destruct (under_cases kv.1 (dict_of_object kv.2)) as [E|[Hd E]]; rewrite E in Hx; [by apply not_elem_of_nil in Hx|].
      apply list_elem_of_singleton in Hx as ->. rewrite field_item by done. cbn [fst snd]. rewrite Hp.
      assert (clean_field res view tc (database_name kv.1) (PDict (dict_of_object kv.2)) = true) as Hc by (by apply inner_clean).
      by rewrite Hc.
    + destruct (value_entries _ _ _ Hs Hx) as (E & ops & Eo & Ho). destruct x as [n w]. cbn [fst snd] in *. subst.
      rewrite field_item by done. cbn [fst snd]. rewrite Hp.
      assert (clean_field res view tc (database_name kv.1) (PDict ops) = true) as Hc by (cbn [clean_field]; by rewrite Ho).
      by rewrite Hc.
Qed.

(** *** What an object says

    Read off the object itself: whatever is set asks.  Operators of filters and plain values
    ask about the path of the fields they stand under, [AND] and [OR] are over objects. *)

Definition is_set (kv : string * value) : bool := negb (is_null kv.2) && negb (is_private kv.1).

Fixpoint questions (path : list string) (v : value) : list (list string * string * pyval) :=
  match v with
  | Null => []
  | Instance c attrs =>
      concat (map (λ kv,
        if is_set kv then
          if is_where c then questions (path ++ [database_name kv.1]) kv.2
          else [(path, _normalize_operator kv.1, operand kv.2)]
        else []) attrs)
  | _ => [(path, "eq", operand v)]
  end.

Fixpoint object_says (sat : list string * string * pyval → bool) (v : value) : bool :=
  match v with
  | Instance _ attrs =>
      forallb (λ kv,
        negb (is_set kv) ||
        if kv.1 =s "NOT" then negb (object_says sat kv.2)
        else if kv.1 =s "AND" then match kv.2 with Items l => forallb (object_says sat) l | _ => true end
        else if kv.1 =s "OR" then
          match kv.2 with Items l => bool_decide (l = []) || existsb (object_says sat) l | _ => true end
        else forallb sat (questions [database_name kv.1] kv.2)) attrs
  | _ => true
  end.

(** The filters of conditions are known by an operator they have. *)
Lemma sound_filters_are_filters v : sound_filter v = true → _is_filter_object v = true.
Proof using Type.
  assert (forallb (λ f, existsb (λ x, x in_ operator_fields) (dict_keys f.2)) condition_filters = true) as H
    by (vm_compute; reflexivity).
  rewrite forallb_forall in H. destruct v as [| | | | | | | | | | | | | | |c attrs]; try done. cbn [sound_filter].
  destruct (dict_get c condition_filters) as [fs|] eqn:E; [|done]. apply dict_get_elem, list_elem_of_In in E.
  specialize (H _ E). cbn [snd] in H. intros [Hk%bool_decide_eq_true _]%andb_true_iff. rewrite <- Hk in H.
  cbn [_is_filter_object]. apply existsb_exists in H as (x & Hx & Ho).
  apply list_elem_of_In, list_elem_of_fmap_1 in Hx as (kv & -> & Hkv). apply existsb_exists. exists kv.
  split; [by apply list_elem_of_In|done].
Qed.

(** What is asked of the entries [d] under a path. *)
Definition asked_of (path : list string) (d : list (string * pyval)) : list (list string * string * pyval) :=
  concat (map (λ kv, leaves (path ++ [database_name kv.1]) kv.2) d).

Lemma leaves_objects path d : Forall (λ kv, is_dict kv.2 = true) d → leaves path (PDict d) = asked_of path d.
Proof using Type.
  intros Hd. cbn [leaves]. assert (operators d = false) as ->; [|done]. unfold operators. destruct Hd as [|kv d Hkv _]; [done|].
  cbn [existsb]. by rewrite Hkv.
Qed.

Lemma filter_questions path c attrs :
  is_where c = false → sound_filter (Instance c attrs) = true →
  leaves path (PDict (set_operators attrs)) = questions path (Instance c attrs).
Proof using Type.
  intros Hc Hs. cbn [questions]. rewrite Hc. destruct (set_operators attrs) as [|x l] eqn:E.
  - symmetry. clear Hs. unfold set_operators in E. induction attrs as [|kv attrs IH]; [done|]. cbn [List.filter map concat] in *.
    unfold is_set. destruct (_ && _); [done|]. by apply IH.
  - rewrite <- E. pose proof (set_operators_clean c attrs Hs) as Ho. rewrite E in Ho. specialize (Ho ltac:(done)). rewrite <- E in Ho.
    cbn [leaves]. rewrite Ho. clear. unfold set_operators, no_none. induction attrs as [|kv attrs IH]; [done|].
    cbn [List.filter map concat]. unfold is_set at 1. destruct (is_null kv.2) eqn:Hn; cbn [negb andb]; [exact IH|].
    destruct (is_private kv.1); cbn [negb andb]; [exact IH|]. cbn [List.filter map fst snd].
    assert (Py.is_none (operand kv.2) = false) as -> by (by destruct (kv.2)). cbn [negb map fst snd app]. by rewrite IH.
Qed.

Lemma value_questions path name v :
  has_methods v = false → sound_value v = true →
  asked_of path (direct_entry name v) = questions (path ++ [database_name name]) v.
Proof using Type.
  intros Hm Hs. unfold direct_entry. destruct (_is_filter_object v) eqn:Hf.
  - destruct v as [| | | | | | | | | | | | | | |c attrs]; try discriminate Hf. rewrite value_instance in Hs.
    rewrite <- filter_questions by done. destruct (under_cases name (set_operators attrs)) as [E|[Hne E]]; rewrite E.
    + assert (set_operators attrs = []) as -> by (by destruct (set_operators attrs)). done.
    + unfold asked_of. cbn [map concat fst snd]. by rewrite app_nil_r.
  - destruct v as [| | | | | | | | | | | | | | |c attrs]; try discriminate Hs; try reflexivity.
    rewrite value_instance in Hs. apply sound_filters_are_filters in Hs. congruence.
Qed.

(** An attribute that is not logical, under a path. *)
Lemma attribute_questions path kv :
  is_logical kv.1 = false → (has_methods kv.2 = true → ∀ path, leaves path (PDict (dict_of_object kv.2)) = questions path kv.2) →
  (is_set kv = true → has_methods kv.2 = false → sound_value kv.2 = true) →
  asked_of path (entry kv) = if is_set kv then questions (path ++ [database_name kv.1]) kv.2 else [].
Proof using Type.
  intros Hl Hq Hs. unfold entry, is_set in *. destruct (is_null kv.2); [done|]. destruct (is_private kv.1); [done|].
  cbn [orb negb andb] in *. rewrite Hl. destruct (has_methods kv.2) eqn:Hm; [|by apply value_questions; auto].
  rewrite <- Hq by done. destruct (under_cases kv.1 (dict_of_object kv.2)) as [E|[Hne E]]; rewrite E.
  - assert (dict_of_object kv.2 = []) as -> by (by destruct (dict_of_object kv.2)). done.
  - unfold asked_of. cbn [map concat fst snd]. by rewrite app_nil_r.
Qed.

Lemma asked_of_app path d1 d2 : asked_of path (d1 ++ d2) = asked_of path d1 ++ asked_of path d2.
Proof using Type. unfold asked_of. by rewrite map_app, concat_app. Qed.

(** One attribute of a sound object, set or not. *)
Lemma sound_attribute inner c attrs kv :
  sound_object inner (Instance c attrs) = true → kv ∈ attrs → is_set kv = true →
  if is_logical kv.1 then
    inner = false ∧ (if kv.1 =s "NOT" then has_methods kv.2 = true ∧ sound_object false kv.2 = true
                     else ∃ l, kv.2 = Items l ∧ Forall (λ x, has_methods x = true ∧ sound_object false x = true) l)
  else if has_methods kv.2 then sound_object true kv.2 = true else sound_value kv.2 = true.
Proof using Type.
  intros Hs Hin Hset. cbn [sound_object] in Hs. rewrite !andb_true_iff in Hs. destruct Hs as [_ Hs]. rewrite forallb_forall in Hs.
  apply list_elem_of_In in Hin. specialize (Hs kv Hin). unfold is_set in Hset. apply andb_true_iff in Hset as [H1 H2].
  apply negb_true_iff in H1, H2. rewrite H1, H2 in Hs. cbn [orb] in Hs. destruct (is_logical kv.1).
  - apply andb_true_iff in Hs as [Hi Hs]. apply negb_true_iff in Hi. split; [done|]. destruct (kv.1 =s "NOT").
    + rewrite !andb_true_iff in Hs. tauto.
    + destruct (kv.2) as [| | | | | | | | | | | | |l| |]; try discriminate Hs. exists l. split; [done|].
      apply Forall_forall. intros x Hx%list_elem_of_In. rewrite forallb_forall in Hs. specialize (Hs x Hx).
      rewrite !andb_true_iff in Hs. tauto.
  - apply andb_true_iff in Hs as [_ Hs]. destruct (has_methods kv.2); [|done]. by apply andb_true_iff in Hs as [Hs _].
Qed.

Lemma inner_questions v : sound_object true v = true → ∀ path, leaves path (PDict (dict_of_object v)) = questions path v.
Proof using Type.
  induction v as [ | | | | | | | | | | | | |l IH|d _|c attrs IH] using value_induction; intros Hs path; try discriminate Hs.
  rewrite leaves_objects.
  2:{ apply Forall_forall. intros x Hx. destruct (sound_entries (Instance c attrs)) as [He _].
      destruct (He true x Hs Hx) as [_ H]. by destruct (H eq_refl) as (_ & ? & _). }
  rewrite dict_entries. cbn [questions]. assert (is_where c = true) as ->.
  { cbn [sound_object] in Hs. rewrite !andb_true_iff in Hs. tauto. }
  assert (∀ kv, kv ∈ attrs → asked_of path (entry kv) = if is_set kv then questions (path ++ [database_name kv.1]) kv.2 else []) as H.
  { intros kv Hin. rewrite Forall_forall in IH. pose proof (sound_attribute true c attrs kv Hs Hin) as Ha.
    destruct (is_set kv) eqn:Hset.
    - specialize (Ha eq_refl). destruct (is_logical kv.1) eqn:Hl; [by destruct Ha|].
      rewrite attribute_questions, Hset; [done|done|..].
      + intros Hm. rewrite Hm in Ha. by apply IH.
      + intros _ Hm. by rewrite Hm in Ha.
    - unfold entry, is_set in *. apply andb_false_iff in Hset as [E|E]; apply negb_false_iff in E; rewrite E; by rewrite ?orb_true_r. }
  clear IH Hs. induction attrs as [|kv attrs IH]; [done|]. cbn [map concat]. rewrite asked_of_app, H by (by left).
  f_equal. apply IH. intros x Hx. apply H. by right.
Qed.

(** One attribute of an object, as the dictionary has it. *)
Definition entry_says (sat : list string * string * pyval → bool) (kv : string * pyval) : bool :=
  if kv.1 =s "OR" then match kv.2 with PList ((_ :: _) as l) => existsb (says sat) l | _ => true end
  else if kv.1 =s "AND" then match kv.2 with PList l => forallb (says sat) l | _ => true end
  else if kv.1 =s "NOT" then negb (says sat kv.2)
  else forallb sat (leaves [database_name kv.1] kv.2).

Lemma forallb_concat {A B} (p : B → bool) (f : A → list B) l : forallb p (concat (map f l)) = forallb (λ x, forallb p (f x)) l.
Proof using Type. induction l as [|x l IH]; [done|]. cbn [map concat forallb]. by rewrite List.forallb_app, IH. Qed.

Lemma Forall_forallb_eq {A} (f g : A → bool) l : (∀ x, x ∈ l → f x = g x) → forallb f l = forallb g l.
Proof using Type.
  induction l as [|x l IH]; intros Hl; [done|]. cbn [forallb]. rewrite Hl by (by left). f_equal. apply IH. intros y Hy. apply Hl. by right.
Qed.

Lemma says_entries sat d : says sat (PDict d) = forallb (entry_says sat) d.
Proof using Type. reflexivity. Qed.

Lemma unset_entry kv : is_set kv = false → entry kv = [].
Proof using Type.
  unfold entry, is_set. intros [E|E]%andb_false_iff; apply negb_false_iff in E; rewrite E; by rewrite ?orb_true_r.
Qed.

(** An attribute that is not logical says what it asks. *)
Lemma field_says sat kv :
  is_logical kv.1 = false → forallb (entry_says sat) (entry kv) = forallb sat (asked_of [] (entry kv)).
Proof using Type.
  intros Hl. destruct (entry_cases kv) as [E|[v E]]; rewrite E; [done|]. unfold asked_of. cbn [map concat forallb fst snd app].
  rewrite app_nil_r, andb_true_r. unfold entry_says. cbn [fst snd]. rewrite logical_names in Hl.
  apply orb_false_iff in Hl as [Hl Hn]. rewrite !str_in_cons in Hl. apply orb_false_iff in Hl as [H1 Hl].
  apply orb_false_iff in Hl as [H2 _]. by rewrite H1, H2, Hn.
Qed.

Lemma sound_objects_say sat v :
  (sound_object false v = true → says sat (PDict (dict_of_object v)) = object_says sat v) ∧
  ∀ l, v = Items l → Forall (λ x, sound_object false x = true → says sat (PDict (dict_of_object x)) = object_says sat x) l.
Proof using Type.
  induction v as [ | | | | | | | | | | | | |l IH|d _|c attrs IH] using value_induction;
    try (split; [intros Hs; discriminate Hs|done]).
  { split; [intros Hs; discriminate Hs|]. intros l' [= <-]. eapply Forall_impl; [exact IH|]. by intros ? [? _]. }
  split; [|done]. intros Hs. rewrite says_entries, dict_entries, forallb_concat. cbn [object_says].
  apply Forall_forallb_eq. intros kv Hin. rewrite Forall_forall in IH. destruct (IH kv Hin) as [IHv IHattr]. clear IH.
  destruct (is_set kv) eqn:Hset; [|by rewrite unset_entry]. pose proof (sound_attribute false c attrs kv Hs Hin Hset) as Ha.
  cbn [negb orb]. destruct (is_logical kv.1) eqn:Hl.
  - destruct Ha as [_ Ha]. unfold entry. unfold is_set in Hset. apply andb_true_iff in Hset as [H1 H2].
    apply negb_true_iff in H1, H2. rewrite H1, H2, Hl. cbn [orb]. destruct (kv.1 =s "NOT") eqn:En.
    + destruct Ha as [Hm Ho]. rewrite Hm. cbn [forallb]. rewrite andb_true_r. unfold entry_says. cbn [fst snd].
      apply bool_decide_eq_true in En as ->. cbn -[says object_says]. by rewrite IHv.
    + destruct Ha as (l & El & Ho). rewrite El. cbn [forallb]. rewrite andb_true_r. unfold entry_says. cbn [fst snd].
      pose proof (IHattr l El) as IHl. clear IHattr. assert (∀ x, x ∈ l → says sat (if has_methods x then PDict (dict_of_object x) else operand x) = object_says sat x) as Hx.
      { intros x Hx. rewrite Forall_forall in IHl, Ho. destruct (Ho x Hx) as [-> Hox]. by apply IHl. }
      clear -Hl En Hx. rewrite logical_names, En, orb_false_r in Hl. rewrite !str_in_cons in Hl.
      assert (∀ f : pyval → bool, (∀ x, x ∈ l → f (if has_methods x then PDict (dict_of_object x) else operand x) = object_says sat x) →
        forallb f (map (λ x, if has_methods x then PDict (dict_of_object x) else operand x) l) = forallb (object_says sat) l ∧
        existsb f (map (λ x, if has_methods x then PDict (dict_of_object x) else operand x) l) = existsb (object_says sat) l) as Hmap.
      { intros f Hf. clear Hx. induction l as [|x l IHl]; [done|]. cbn [map forallb existsb]. rewrite Hf by (by left).
        destruct IHl as [-> ->]; [|done]. intros y Hy. apply Hf. by right. }
      destruct (Hmap (says sat) Hx) as [H1 H2]. destruct (kv.1 =s "OR") eqn:Eo.
      * apply bool_decide_eq_true in Eo. rewrite Eo in *. change ("OR" =s "AND") with false. cbn iota.
        destruct l as [|x l]; [done|]. rewrite bool_decide_eq_false_2 by done. cbn [orb]. exact H2.
      * cbn [orb] in Hl. destruct (kv.1 =s "AND") eqn:Ea; [exact H1|]. by cbn in Hl.
  - rewrite field_says by done. rewrite attribute_questions, Hset; [|done|..].
    + rewrite logical_names in Hl. apply orb_false_iff in Hl as [Hl Hn]. rewrite !str_in_cons in Hl.
      apply orb_false_iff in Hl as [H1 Hl]. apply orb_false_iff in Hl as [H2 _]. by rewrite H1, H2, Hn.
    + intros Hm. rewrite Hm in Ha. by apply inner_questions.
    + intros _ Hm. by rewrite Hm in Ha.
Qed.
End objects.


(** ** A where input, from GraphQL to the clause *)

(** The classes a program's where inputs need, as the coercion reads them. *)
Definition blog_classes (c : string) : input_class :=
  match create_graphql_where_input blog_hints 10 None "User" {| generated := []; generating := [] |} with
  | Ok (_, g) =>
      match dict_get c (map (λ x, ((x.1 +:+ "WhereInput")%stdpp, x.2)) (generated g)) with
      | Some fs => where_input_class c fs
      | None =>
          {| kind := "input";
             annotations := default (if c =s "PostalCodeFilter" then CustomScalarFilter "PostalCode" else [])
                              (dict_get c filter_classes) |}
      end
  | Err _ => {| kind := "input"; annotations := [] |}
  end.

Definition is_where_input (c : string) : bool := Str.ends_with "WhereInput" c.

(** [{name: {startswith: "A"}, address: {city: {eq: "Lyon"}}, bestPost: {title: {neq: "x"}}}] *)
Definition asked_users : value :=
  Entries [("name", Entries [("startswith", Text "A")]); ("address", Entries [("city", Entries [("eq", Text "Lyon")])]);
           ("bestPost", Entries [("title", Entries [("neq", Text "x")])])].

(** The object the coercion makes of it, its attributes that are not set aside. *)
Definition coerced_users : value :=
  match coerce_input blog_classes (λ _, []) true asked_users "UserWhereInput" with Ok v => v | Err _ => Null end.

Definition plain_view : resolver := {| metadata_of := λ _, None; declared_fields := λ _, [] |}.

(** A where object written in Python, with a list of others. *)
Definition named (name : string) : value :=
  Instance "UserWhereInput"
    [("name", Instance "StringFilter" (map (λ x, (x.1, if x.1 =s "eq" then Text name else Null)) StringFilter))].

Definition either_user : value := Instance "UserWhereInput" [("address", Null); ("OR", Items [named "Ann"; coerced_users])].



Example coerced_users_ask :
  normalize_whereinput is_where_input 50 plain_view coerced_users "v_user" "data" None
  = Ok (Clause [column_condition "name" "startswith" (PStr "A"); jsonb_condition "data" ["address"; "city"] "eq" (PStr "Lyon");
                jsonb_condition "data" ["best_post"; "title"] "neq" (PStr "x")] "AND" [] None).
Proof. vm_compute. reflexivity. Qed.

(** ** What is refused, dropped or read as something else *)

Definition filter_of (class op : string) (v : value) : value :=
  Instance "UserWhereInput"
    [("field", Instance class (map (λ x, (x.1, if x.1 =s op then v else Null)) (default [] (dict_get class filter_classes))))].

Definition refused (v : value) : bool :=
  match normalize_whereinput is_where_input 50 plain_view v "v_user" "data" None with Err ValueError => true | _ => false end.

(** The operators the filters offer and the conditions do not know; [in_] is documented. *)
Example offered_operators_are_refused :
  refused (filter_of "StringFilter" "in_" (Items [Text "a"])) = true ∧
  refused (filter_of "JSONBFilter" "has_key" (Text "a")) = true ∧
  refused (filter_of "FullTextFilter" "rank_gte" (Text "a:0.5")) = true ∧
  map (λ x, x.1) (List.filter (λ x, negb (known_operator x.1)) (CustomScalarFilter "CIDR"))
  = ["ne"; "in_"; "not_in"; "starts_with"; "ends_with"].
Proof. split_and!; vm_compute; reflexivity. Qed.

Definition clause_of (tc : option (list string)) (w : pyval) : result where_clause :=
  normalize_dict_where 50 plain_view "v_user" "data" tc w.

(** An operand that is a dictionary is taken for an object: a range of addresses is refused,
    and a document to contain becomes a path. *)
Example dictionaries_as_operands_are_read_as_objects :
  clause_of None (PDict [("ip", PDict [("inRange", PDict [("from", PStr "10.0.0.1"); ("to", PStr "10.0.0.9")])])]) = Err ValueError ∧
  clause_of None (PDict [("meta", PDict [("contains", PDict [("color", PStr "red")])])]) = Err ValueError ∧
  clause_of None (PDict [("meta", PDict [("contains", PDict [("eq", PInt 5)])])])
  = clause_of None (PDict [("meta", PDict [("contains", PDict [("eq", PInt 5)]); ("color", PStr "red")])]).
Proof. split_and!; vm_compute; reflexivity. Qed.

(** A plain value means equality for a field, but is dropped inside an object. *)
Example plain_values_inside_objects_are_dropped :
  clause_of None (PDict [("machine", PDict [("name", PStr "drill"); ("id", PDict [("gt", PInt 3)])])])
  = clause_of None (PDict [("machine", PDict [("id", PDict [("gt", PInt 3)])])]).
Proof. vm_compute. reflexivity. Qed.

(** A filter two levels below an object that has a foreign key is refused. *)
Example filters_below_a_foreign_key_are_refused :
  let w := PDict [("machine", PDict [("id", PDict [("eq", PInt 3)]);
                                     ("location", PDict [("city", PDict [("eq", PStr "Lyon")])])])] in
  clause_of (Some ["machine_id"; "data"]) w = Err ValueError ∧
  (∃ c, clause_of (Some ["data"]) w = Ok c).
Proof. split; [vm_compute; reflexivity|]. eexists. vm_compute. reflexivity. Qed.

(** A value the conversion does not list is dropped from the object's dictionary. *)
Example decimals_are_dropped :
  _to_whereinput_dict is_where_input (Instance "UserWhereInput" [("name", Text "Ann"); ("price", Decimal 995 (-2))])
  = [("name", PDict [("eq", PStr "Ann")])].
Proof. vm_compute. reflexivity. Qed.
