(* ===== verification/Subscriptions.v ===== *)
(** * A WebSocket connection with its subscriptions ([subscriptions/websocket.py])

    The coroutine of the connection, the task of every subscription, the keep-alive and the
    manager run in one event loop: an event is what one of them does between two of its
    awaits, and a history is any order of events that their states allow.  What a client
    sends, what graphql-core's [subscribe] comes to and what a subscription yields are in
    the events; the ids of messages are texts, as their class says; a send is one event, and
    fails once the transport is gone. *)
From stdpp Require Import base decidable strings gmap list.
From Stdlib Require Import ZArith Lia.
From S2P Require Import Prelude PyVal.

Local Open Scope py_scope.

Inductive ConnectionState := CONNECTING | READY | CLOSING | CLOSED.
Inductive SubProtocol := GRAPHQL_WS | GRAPHQL_TRANSPORT_WS.

#[export] Instance ConnectionState_eq : EqDecision ConnectionState.
Proof. solve_decision. Defined.

(** ** Messages *)

Record GraphQLWSMessage := { type_ : string; id_ : option string; payload : pyval }.

Definition to_dict (m : GraphQLWSMessage) : pyval :=
  PDict ([("type", PStr (type_ m))]
           ++ match id_ m with Some i => [("id", PStr i)] | None => [] end
           ++ match payload m with PNone => [] | p => [("payload", p)] end).

(** [from_dict], on what the object has under each of its keys. *)
Definition from_dict (msg_type : option string) (id : option string) (payload : pyval) : result GraphQLWSMessage :=
  match msg_type with
  | None | Some EmptyString => Err ValueError
  | Some t =>
      Ok {| type_ := if t =s "start" then "subscribe" else if t =s "stop" then "complete" else t;
            id_ := id; payload := payload |}
  end.

(** What [_send_error] is given. *)
Inductive error := Message (s : string) | GraphQLErrors (l : list (string * pyval)) | Payload (d : pyval).

(** The extensions of an error are there already without unset values. *)
Definition error_payload (e : error) : pyval :=
  match e with
  | Message s => PDict [("errors", PList [PDict [("message", PStr s)]])]
  | GraphQLErrors l =>
      PDict [("errors", PList (map (λ x, PDict [("message", PStr x.1);
                                                ("extensions", if Py.truthy x.2 then x.2 else PDict [])]) l))]
  | Payload (PDict d) => PDict d
  | Payload v => PDict [("errors", PList [PDict [("message", PStr (Py.str v))]])]
  end.

Definition error_message (id : option string) (e : error) : GraphQLWSMessage :=
  {| type_ := "error"; id_ := id; payload := error_payload e |}.

(** ** The connection *)

(** The task of a subscription, as long as it is not over. *)
Record task := { subscription_id : string; started : bool; cancelled : bool }.

(** Where [handle] is: waiting for the first message, in the loop, awaiting [subscribe],
    waiting for the tasks it cancelled, or over. *)
Inductive phase := Initialising | Looping | Subscribing (id : string) | CleaningUp (waiting : list nat) | Finished.

Record connection := {
  state : ConnectionState;
  at_ : phase;
  subscriptions : gmap string nat;
  tasks : gmap nat task;
  created : nat;
  sent : list GraphQLWSMessage;
  transport : bool;
  keeps_alive : bool;
  cut_short : bool
}.

Definition with_state (s : ConnectionState) (c : connection) : connection :=
  {| state := s; at_ := at_ c; subscriptions := subscriptions c; tasks := tasks c; created := created c; sent := sent c;
     transport := transport c; keeps_alive := keeps_alive c; cut_short := cut_short c |}.

Definition with_phase (p : phase) (c : connection) : connection :=
  {| state := state c; at_ := p; subscriptions := subscriptions c; tasks := tasks c; created := created c; sent := sent c;
     transport := transport c; keeps_alive := keeps_alive c; cut_short := cut_short c |}.

Definition with_tasks (subs : gmap string nat) (ts : gmap nat task) (c : connection) : connection :=
  {| state := state c; at_ := at_ c; subscriptions := subs; tasks := ts; created := created c; sent := sent c;
     transport := transport c; keeps_alive := keeps_alive c; cut_short := cut_short c |}.

Definition with_keep_alive (b : bool) (c : connection) : connection :=
  {| state := state c; at_ := at_ c; subscriptions := subscriptions c; tasks := tasks c; created := created c;
     sent := sent c; transport := transport c; keeps_alive := b; cut_short := cut_short c |}.

(** A send that fails leaves the connection closing and raises; whoever sent has nothing
    more to say then.  The result tells whether the message is out or was not for sending. *)
Definition send_message (m : GraphQLWSMessage) (c : connection) : bool * connection :=
  match state c with
  | READY | CONNECTING =>
      if transport c then
        (true, {| state := state c; at_ := at_ c; subscriptions := subscriptions c; tasks := tasks c;
                  created := created c; sent := sent c ++ [m]; transport := true; keeps_alive := keeps_alive c; cut_short := cut_short c |})
      else (false, with_state CLOSING c)
  | CLOSING | CLOSED => (true, c)
  end.

Definition _send_error (id : option string) (e : error) (c : connection) : connection :=
  (send_message (error_message id e) c).2.

(** Nothing can be sent on a websocket that was closed. *)
Definition _close (c : connection) : connection :=
  match state c with
  | CLOSED => c
  | _ => {| state := CLOSED; at_ := at_ c; subscriptions := subscriptions c; tasks := tasks c; created := created c;
            sent := sent c; transport := false; keeps_alive := keeps_alive c; cut_short := cut_short c |}
  end.

(** [task.cancel()]: the task learns of it when it runs next. *)
Definition cancel (t : nat) (ts : gmap nat task) : gmap nat task :=
  alter (λ k, {| subscription_id := subscription_id k; started := started k; cancelled := true |}) t ts.

(** [_cleanup], up to its wait for the tasks. *)
Definition _cleanup (c : connection) : connection :=
  let waiting := (map_to_list (subscriptions c)).*2 in
  with_phase (CleaningUp waiting)
    (with_keep_alive false (with_tasks (subscriptions c) (foldr cancel (tasks c) waiting) c)).

(** The end of a coroutine that is cancelled while it waits for its tasks: what is left of
    [_cleanup] is not run. *)
Definition cut (c : connection) : connection :=
  {| state := state c; at_ := Finished; subscriptions := subscriptions c; tasks := tasks c; created := created c;
     sent := sent c; transport := transport c; keeps_alive := keeps_alive c; cut_short := true |}.

(** The rest of [_cleanup]. *)
Definition cleaned_up (c : connection) : connection :=
  with_phase Finished (with_state CLOSED (with_tasks ∅ (tasks c) c)).

(** The loop goes on while the connection is ready. *)
Definition next_message (c : connection) : connection :=
  match state c with READY => with_phase Looping c | _ => _cleanup c end.

Section connection.
Context (subprotocol : SubProtocol) (keep_alive_interval_positive : bool).
(** What the limits, the parser or a payload without a query make of a payload: the text
    of the error, if there is one. *)
Context (refusal : pyval → option string).

Definition connect : connection :=
  {| state := CONNECTING; at_ := Initialising; subscriptions := ∅; tasks := ∅; created := 0; sent := [];
     transport := true; keeps_alive := false; cut_short := false |}.

(** *** Messages of the client *)

Inductive received := Got (m : GraphQLWSMessage) | Invalid (text : string) | Disconnected | TimedOut.

Definition _wait_for_connection_init (r : received) (c : connection) : connection :=
  match r with
  | Got m =>
      if type_ m =s "connection_init" then
        match send_message {| type_ := "connection_ack"; id_ := None; payload := PNone |} c with
        | (true, c) => with_phase Looping (with_keep_alive keep_alive_interval_positive (with_state READY c))
        | (false, c) => _cleanup c
        end
      else _cleanup (_close c)
  | Invalid text => _cleanup (_send_error None (Message text) c)
  | Disconnected => _cleanup (with_state CLOSING c)
  | TimedOut => _cleanup (_close c)
  end.

Definition _handle_subscribe (m : GraphQLWSMessage) (c : connection) : connection :=
  match id_ m with
  | None | Some EmptyString => next_message (_send_error None (Message "Subscription ID is required") c)
  | Some i =>
      match subscriptions c !! i with
      | Some _ =>
          next_message (_send_error (Some i) (Message ("Subscription " +:+ i +:+ " already exists")%stdpp) c)
      | None =>
          match refusal (payload m) with
          | Some text => next_message (_send_error (Some i) (Message text) c)
          | None => with_phase (Subscribing i) c
          end
      end
  end.

(** What [subscribe] comes to: a stream of results, or an error. *)
Inductive subscribed := Stream | Failed (e : error).

Definition subscribed_to (i : string) (o : subscribed) (c : connection) : connection :=
  match o with
  | Stream =>
      next_message
        {| state := state c; at_ := at_ c; subscriptions := <[i := created c]> (subscriptions c);
           tasks := <[created c := {| subscription_id := i; started := false; cancelled := false |}]> (tasks c);
           created := S (created c); sent := sent c; transport := transport c; keeps_alive := keeps_alive c; cut_short := cut_short c |}
  | Failed e => next_message (_send_error (Some i) e c)
  end.

Definition _handle_complete (m : GraphQLWSMessage) (c : connection) : connection :=
  match id_ m with
  | None | Some EmptyString => c
  | Some i =>
      match subscriptions c !! i with
      | Some t => with_tasks (delete i (subscriptions c)) (cancel t (tasks c)) c
      | None => c
      end
  end.

Definition _handle_terminate (c : connection) : connection := _close (with_state CLOSING c).

Definition _handle_ping (m : GraphQLWSMessage) (c : connection) : connection :=
  (send_message {| type_ := "pong"; id_ := None; payload := payload m |} c).2.

Definition _handle_message (m : GraphQLWSMessage) (c : connection) : connection :=
  if type_ m =s "subscribe" then _handle_subscribe m c
  else
    next_message
      (if type_ m =s "complete" then _handle_complete m c
       else if type_ m =s "connection_terminate" then _handle_terminate c
       else if type_ m =s "ping" then _handle_ping m c
       else c).

Definition _message_loop (r : received) (c : connection) : connection :=
  match r with
  | Got m => _handle_message m c
  | Invalid text => next_message (_send_error None (Message text) c)
  | Disconnected | TimedOut => _cleanup (with_state CLOSING c)
  end.

(** *** Tasks of subscriptions *)

(** What a task does: begin, hand on a result or its errors, come to its end, raise, or
    learn that it is cancelled. *)
Inductive doing := Starts | Yields (data : pyval) | YieldsErrors (l : list (string * pyval)) | Ends | Raises (text : string) | Stops.

Definition data_type : string := match subprotocol with GRAPHQL_TRANSPORT_WS => "next" | GRAPHQL_WS => "data" end.

(** The [finally] of a task that had begun. *)
Definition over (t : nat) (i : string) (c : connection) : connection :=
  with_tasks (delete i (subscriptions c)) (delete t (tasks c)) c.

Definition hands_on (t : nat) (i : string) (m : GraphQLWSMessage) (c : connection) : connection :=
  match send_message m c with
  | (true, c) => c
  | (false, c) => over t i c
  end.

Definition _handle_subscription_generator (t : nat) (k : task) (d : doing) (c : connection) : option connection :=
  let i := subscription_id k in
  match started k, cancelled k, d with
  | false, false, Starts =>
      Some (with_tasks (subscriptions c) (<[t := {| subscription_id := i; started := true; cancelled := false |}]> (tasks c)) c)
  | true, false, Yields data =>
      Some (hands_on t i {| type_ := data_type; id_ := Some i; payload := PDict [("data", data)] |} c)
  | true, false, YieldsErrors l => Some (hands_on t i (error_message (Some i) (GraphQLErrors l)) c)
  | true, false, Ends => Some (over t i (send_message {| type_ := "complete"; id_ := Some i; payload := PNone |} c).2)
  | true, false, Raises text => Some (over t i (_send_error (Some i) (Message text) c))
  | true, true, Stops => Some (over t i c)
  | false, true, Stops => Some (with_tasks (subscriptions c) (delete t (tasks c)) c)
  | _, _, _ => None
  end.

(** *** Everything that can happen *)

Inductive event :=
| Receives (r : received)
| Subscribed (o : subscribed)
| Cancelled
| Gathers
| Runs (t : nat) (d : doing)
| KeepsAlive (timestamp : string)
| Broadcasts (m : GraphQLWSMessage)
| Closes
| Breaks.

Definition gathered (waiting : list nat) (c : connection) : bool := forallb (λ t, negb (is_some (tasks c !! t))) waiting.

(** The connection after an event; [None] if the event cannot happen. *)
Definition step (c : connection) (e : event) : option connection :=
  match e, at_ c with
  | Receives r, Initialising => Some (_wait_for_connection_init r c)
  | Receives r, Looping => match r with TimedOut => None | _ => Some (_message_loop r c) end
  | Subscribed o, Subscribing i => Some (subscribed_to i o c)
  | Cancelled, (Initialising | Looping | Subscribing _) => Some (_cleanup c)
  | Cancelled, CleaningUp _ => Some (cut c)
  | Gathers, CleaningUp waiting => if gathered waiting c then Some (cleaned_up c) else None
  | Runs t d, _ => match tasks c !! t with Some k => _handle_subscription_generator t k d c | None => None end
  | KeepsAlive now, _ =>
      if keeps_alive c && bool_decide (state c = READY) then
        Some (send_message {| type_ := "ping"; id_ := None; payload := PDict [("timestamp", PStr now)] |} c).2
      else None
  | Broadcasts m, _ => if bool_decide (state c = READY) then Some (send_message m c).2 else None
  | Closes, _ => Some (_close c)
  | Breaks, _ =>
      Some {| state := state c; at_ := at_ c; subscriptions := subscriptions c; tasks := tasks c; created := created c;
              sent := sent c; transport := false; keeps_alive := keeps_alive c; cut_short := cut_short c |}
  | _, _ => None
  end.

Fixpoint run (c : connection) (l : list event) : option connection :=
  match l with
  | [] => Some c
  | e :: l => match step c e with Some c => run c l | None => None end
  end.
End connection.
