(* ===== verification/SubscriptionLaws.v ===== *)
(** * Laws of a connection with its subscriptions

    What holds of the streams of a connection whatever the order of its events, who may
    speak for an id, and that a connection can always be left. *)
From stdpp Require Import base decidable strings gmap list.
From Stdlib Require Import ZArith Lia.
From S2P Require Import Prelude PyVal Subscriptions.

Local Open Scope py_scope.

(** ** What the operations leave alone *)

(** The connection has the same streams, and the coroutine is where it was. *)
Definition same (c c' : connection) : Prop :=
  at_ c' = at_ c ∧ subscriptions c' = subscriptions c ∧ tasks c' = tasks c ∧ created c' = created c ∧
  cut_short c' = cut_short c.

#[export] Instance same_refl : Reflexive same.
Proof. by intros c. Qed.

#[export] Instance same_trans : Transitive same.
Proof. intros c1 c2 c3 (?&?&?&?&?) (?&?&?&?&?). repeat split; congruence. Qed.

Lemma send_same m c : same c (send_message m c).2.
Proof. unfold send_message. by destruct (state c), (transport c). Qed.

Lemma send_error_same i e c : same c (_send_error i e c).
Proof. apply send_same. Qed.

Lemma close_same c : same c (_close c).
Proof. unfold _close. by destruct (state c). Qed.

#[export] Hint Resolve send_same send_error_same close_same : py.

(** The coroutine may still start streams. *)
Definition running (p : phase) : Prop :=
  match p with Initialising | Looping | Subscribing _ => True | CleaningUp _ | Finished => False end.

(** ** Streams and what is registered *)

(** A stream begins under an id that no living task has. *)
Definition fresh (c : connection) (e : event) : Prop :=
  match e, at_ c with
  | Subscribed Stream, Subscribing i => ∀ t k, tasks c !! t = Some k → subscription_id k ≠ i
  | _, _ => True
  end.

Lemma fresh_first c : tasks c = ∅ → fresh c (Subscribed Stream).
Proof. intros Ht. unfold fresh. rewrite Ht. by destruct (at_ c). Qed.

Record tidy (c : connection) : Prop := {
  tidy_created : ∀ t k, tasks c !! t = Some k → t < created c;
  tidy_one : ∀ t t' k k', tasks c !! t = Some k → tasks c !! t' = Some k' →
               subscription_id k = subscription_id k' → t = t';
  tidy_live : ∀ t k, tasks c !! t = Some k → cancelled k = false →
                subscriptions c !! subscription_id k = Some t ∧ running (at_ c);
  tidy_registered : running (at_ c) → ∀ i t, subscriptions c !! i = Some t →
                      ∃ k, tasks c !! t = Some k ∧ subscription_id k = i ∧ cancelled k = false;
  tidy_free : ∀ i, at_ c = Subscribing i → subscriptions c !! i = None;
  tidy_over : at_ c = Finished → cut_short c = false → subscriptions c = ∅
}.

Lemma tidy_same c c' : same c c' → tidy c → tidy c'.
Proof. intros (Ha & Hs & Ht & Hn & Hk) []. constructor; rewrite ?Ha, ?Hs, ?Ht, ?Hn, ?Hk; done. Qed.

Lemma tidy_phase p c :
  tidy c → running (at_ c) → running p → (∀ i, p = Subscribing i → subscriptions c !! i = None) → tidy (with_phase p c).
Proof.
  intros [] Hc Hp Hf. constructor; cbn; try done; [naive_solver|by intros _; apply tidy_registered0|by intros ->].
Qed.

(** *** Cancelling *)

Lemma cancel_lookup t ts t' k :
  cancel t ts !! t' = Some k →
  ∃ k0, ts !! t' = Some k0 ∧ subscription_id k = subscription_id k0 ∧ started k = started k0 ∧
        (cancelled k = false → cancelled k0 = false ∧ t' ≠ t).
Proof.
  unfold cancel. rewrite lookup_alter. case_decide as Ht.
  - intros (k0 & Hk & ->)%fmap_Some. subst. exists k0. by repeat split.
  - intros Hk. exists k. by repeat split.
Qed.

Lemma cancels_lookup l ts t' k :
  foldr cancel ts l !! t' = Some k →
  ∃ k0, ts !! t' = Some k0 ∧ subscription_id k = subscription_id k0 ∧
        (cancelled k = false → cancelled k0 = false ∧ t' ∉ l).
Proof.
  revert k. induction l as [|t l IH]; cbn; intros k Hk.
  - exists k. repeat split; [done..|]. by apply not_elem_of_nil.
  - apply cancel_lookup in Hk as (k1 & Hk1 & Hi & _ & Hc). apply IH in Hk1 as (k0 & Hk0 & Hi0 & Hc0).
    exists k0. rewrite not_elem_of_cons. repeat split; [done|congruence|naive_solver..].
Qed.

Lemma size_cancels l ts : dom (foldr cancel ts l) = dom ts.
Proof. induction l as [|t l IH]; [done|]. cbn. unfold cancel. by rewrite dom_alter_L. Qed.

Lemma tidy_cleanup c : tidy c → running (at_ c) → tidy (_cleanup c).
Proof.
  intros [Hn H1 Hl Hr Hf Ho] Hc. unfold _cleanup. constructor; cbn; try done.
  - intros t k (k0 & Hk & _)%cancels_lookup. eauto.
  - intros t t' k k' (k0 & Hk & -> & _)%cancels_lookup (k1 & Hk1 & -> & _)%cancels_lookup. eauto.
  - intros t k (k0 & Hk & _ & Hcan)%cancels_lookup Hfalse. destruct (Hcan Hfalse) as [Hc0 []].
    destruct (Hl _ _ Hk Hc0) as [Hs _]. apply list_elem_of_fmap. exists (subscription_id k0, t). split; [done|].
    by apply elem_of_map_to_list.
Qed.

Lemma tidy_next c : tidy (with_phase Looping c) → tidy (next_message c).
Proof. intros Hc. unfold next_message. destruct (state c); try done; by apply (tidy_cleanup (with_phase Looping c)). Qed.

Lemma tidy_complete m c : tidy c → tidy (_handle_complete m c).
Proof.
  intros Hc. unfold _handle_complete. destruct (id_ m) as [[|a i]|]; [done| |done].
  destruct (subscriptions c !! String a i) as [t|] eqn:Hs; [|done]. destruct Hc as [Hn H1 Hl Hr Hf Ho].
  constructor; cbn; intros.
  - eapply cancel_lookup in H as (? & ? & _). eauto.
  - eapply cancel_lookup in H as (? & ? & Hi & _). eapply cancel_lookup in H0 as (? & ? & Hi' & _). eapply H1; eauto. congruence.
  - eapply cancel_lookup in H as (k0 & Hk & Hi & _ & Hc). destruct (Hc H0) as [Hc0 Hne].
    destruct (Hl _ _ Hk Hc0) as [Hk' ?]. split; [|done]. rewrite Hi, lookup_delete_ne; [done|]. congruence.
  - apply lookup_delete_Some in H0 as [Hne Hi]. destruct (Hr H _ _ Hi) as (k & Hk & Hid & Hk').
    exists k. split; [|done]. unfold cancel. rewrite lookup_alter_ne; [done|]. intros <-.
    destruct (Hr H _ _ Hs) as (? & ? & ? & _). congruence.
  - apply lookup_delete_None. eauto.
  - by rewrite Ho, delete_empty.
Qed.

(** *** Tasks that begin, stop and end *)

Lemma tidy_drop t k c :
  tidy c → tasks c !! t = Some k → cancelled k = true → tidy (with_tasks (subscriptions c) (delete t (tasks c)) c).
Proof.
  intros [Hn H1 Hl Hr Hf Ho] Hk Hc. constructor; cbn; try done.
  - intros t' k' [_ ?]%lookup_delete_Some. eauto.
  - intros t1 t2 k1 k2 [_ ?]%lookup_delete_Some [_ ?]%lookup_delete_Some. eauto.
  - intros t' k' [_ ?]%lookup_delete_Some. eauto.
  - intros Hp i t' Hi. destruct (Hr Hp _ _ Hi) as (k' & Hk' & ?). exists k'. split; [|done].
    rewrite lookup_delete_ne; [done|]. naive_solver congruence.
Qed.

Lemma tidy_end t k c : tidy c → tasks c !! t = Some k → tidy (over t (subscription_id k) c).
Proof.
  intros [Hn H1 Hl Hr Hf Ho] Hk. constructor; cbn; try done.
  - intros t' k' [_ ?]%lookup_delete_Some. eauto.
  - intros t1 t2 k1 k2 [_ ?]%lookup_delete_Some [_ ?]%lookup_delete_Some. eauto.
  - intros t' k' [Hne Hk']%lookup_delete_Some Hc. destruct (Hl _ _ Hk' Hc). split; [|done].
    rewrite lookup_delete_ne; [done|]. eauto.
  - intros Hp i t' [Hne Hi]%lookup_delete_Some. destruct (Hr Hp _ _ Hi) as (k' & Hk' & Hid & ?). exists k'. split; [|done].
    rewrite lookup_delete_ne; [done|]. congruence.
  - intros i Hi. apply lookup_delete_None. eauto.
  - intros Hp Hk'. by rewrite Ho, delete_empty.
Qed.

Lemma tidy_begin t k c :
  tidy c → tasks c !! t = Some k → cancelled k = false →
  tidy (with_tasks (subscriptions c) (<[t := {| subscription_id := subscription_id k; started := true; cancelled := false |}]> (tasks c)) c).
Proof.
  intros [Hn H1 Hl Hr Hf Ho] Hk Hc.
  assert (Hback : ∀ t' k', <[t := {| subscription_id := subscription_id k; started := true; cancelled := false |}]> (tasks c) !! t' = Some k' →
    ∃ k0, tasks c !! t' = Some k0 ∧ subscription_id k' = subscription_id k0 ∧ cancelled k' = cancelled k0).
  { intros t' k' [[<- <-]|[_ H]]%lookup_insert_Some; [exists k|exists k']; by repeat split. }
  constructor; cbn; try done.
  - intros ? ? (? & ? & _)%Hback. eauto.
  - intros ? ? ? ? (? & ? & -> & _)%Hback (? & ? & -> & _)%Hback. eauto.
  - intros ? ? (? & ? & -> & ->)%Hback. eauto.
  - intros Hp i t' Hi. destruct (Hr Hp _ _ Hi) as (k' & Hk' & Hid & Hck). destruct (decide (t' = t)) as [->|].
    + eexists. rewrite lookup_insert_eq. repeat split. cbn. congruence.
    + exists k'. by rewrite lookup_insert_ne.
Qed.

Lemma hands_on_cases t i m c :
  same c (hands_on t i m c) ∨ ∃ c1, same c c1 ∧ hands_on t i m c = over t i c1.
Proof. pose proof (send_same m c). unfold hands_on. destruct (send_message m c) as [[] c1]; [by left|right; by exists c1]. Qed.

Section laws.
Context (subprotocol : SubProtocol) (keep_alive_interval_positive : bool) (refusal : pyval → option string).

Abbreviation step := (step subprotocol keep_alive_interval_positive refusal).
Abbreviation run := (run subprotocol keep_alive_interval_positive refusal).

Lemma tidy_task t k d c c' :
  tidy c → tasks c !! t = Some k → _handle_subscription_generator subprotocol t k d c = Some c' → tidy c'.
Proof.
  intros Hc Hk. assert (Hend : ∀ c1, same c c1 → tidy (over t (subscription_id k) c1)).
  { intros c1 H1. apply tidy_end; [by apply (tidy_same c)|]. by destruct H1 as (_ & _ & -> & _). }
  assert (Hsays : ∀ m, tidy (hands_on t (subscription_id k) m c)).
  { intros m. destruct (hands_on_cases t (subscription_id k) m c) as [?|(? & ? & ->)]; [by apply (tidy_same c)|auto]. }
  unfold _handle_subscription_generator.
  destruct (started k) eqn:?, (cancelled k) eqn:?, d; intros [= <-]; auto with py; [by apply Hend|by apply tidy_drop with k|by apply tidy_begin].
Qed.

Lemma tidy_open i c :
  tidy c → at_ c = Subscribing i → fresh c (Subscribed Stream) → tidy (subscribed_to i Stream c).
Proof.
  intros [Hn H1 Hl Hr Hf Ho] Hi Hfresh. unfold fresh in Hfresh. rewrite Hi in Hfresh. apply tidy_next.
  constructor; cbn; try done.
  - intros t k [[<- <-]|[_ ?]]%lookup_insert_Some; [lia|]. apply Nat.lt_lt_succ_r. eauto.
  - intros t t' k k' [[<- <-]|[? ?]]%lookup_insert_Some [[<- <-]|[? ?]]%lookup_insert_Some; cbn; [done| | |eauto]; intros Hid;
      [edestruct Hfresh | edestruct Hfresh]; eauto.
  - intros t k [[<- <-]|[? Hk]]%lookup_insert_Some Hc; cbn; [by rewrite lookup_insert_eq|].
    rewrite lookup_insert_ne by (intros Heq; by apply (Hfresh _ _ Hk)). split; [|done]. by eapply Hl.
  - intros _ j t [[<- <-]|[? Hj]]%lookup_insert_Some; [eexists; by rewrite lookup_insert_eq|].
    destruct (Hr ltac:(by rewrite Hi) _ _ Hj) as (k & Hk & ? & ?). exists k. rewrite lookup_insert_ne; [done|].
    apply Hn in Hk. lia.
Qed.

(** A message of the client leaves the coroutine in its loop, or about to start a stream. *)
Lemma tidy_loop c c' : tidy c → at_ c = Looping → same c c' → tidy (next_message c').
Proof.
  intros Hc Ha Hs. apply tidy_next, tidy_phase; try done; [by apply (tidy_same c)|]. destruct Hs as (-> & _). by rewrite Ha.
Qed.

Lemma tidy_handle m c : tidy c → at_ c = Looping → tidy (_handle_message refusal m c).
Proof.
  intros Hc Ha. assert (Hsame : ∀ c', same c c' → tidy (next_message c')) by (intros; by eapply tidy_loop).
  unfold _handle_message. destruct (_ =s "subscribe").
  - unfold _handle_subscribe. destruct (id_ m) as [[|a i]|]; [auto with py| |auto with py].
    destruct (subscriptions c !! _) eqn:Hs; [auto with py|]. destruct (refusal _); [auto with py|].
    apply tidy_phase; [done|by rewrite Ha|done|]. by intros j [= <-].
  - destruct (_ =s "complete"); [|destruct (_ =s "connection_terminate"); [|destruct (_ =s "ping")]].
    + apply tidy_complete with m c in Hc. apply tidy_loop with (_handle_complete m c); [done| |done].
      unfold _handle_complete. by repeat case_match.
    + apply Hsame. etrans; [|apply close_same]. done.
    + apply Hsame, send_same.
    + by apply Hsame.
Qed.

Lemma tidy_receive r c : tidy c → at_ c = Looping → tidy (_message_loop refusal r c).
Proof.
  intros Hc Ha. destruct r; cbn; [by apply tidy_handle|eapply tidy_loop; eauto with py|..];
    (apply tidy_cleanup; [by apply (tidy_same c)|cbn; by rewrite Ha]).
Qed.

Lemma tidy_init r c : tidy c → at_ c = Initialising → tidy (_wait_for_connection_init keep_alive_interval_positive r c).
Proof.
  intros Hc Ha. assert (Hsame : ∀ c', same c c' → tidy (_cleanup c')).
  { intros c' H. apply tidy_cleanup; [by apply (tidy_same c)|]. destruct H as (-> & _). by rewrite Ha. }
  destruct r as [m| | |]; cbn; auto with py; [|by apply Hsame].
  destruct (_ =s _); [|auto with py].
  pose proof (send_same {| type_ := "connection_ack"; id_ := None; payload := PNone |} c) as Hs. destruct (send_message _ c) as [[] c1]; [|auto].
  apply tidy_phase; [|destruct Hs as (Hs & _); cbn in *; by rewrite Hs, Ha|done..]. by apply (tidy_same c).
Qed.

Lemma tidy_cleaned c w : tidy c → at_ c = CleaningUp w → tidy (cleaned_up c).
Proof.
  intros [Hn H1 Hl Hr Hf Ho] Ha. constructor; cbn; try done. intros t k Hk Hc. destruct (Hl _ _ Hk Hc) as [_ Hp]. by rewrite Ha in Hp.
Qed.

Lemma tidy_cut c w : tidy c → at_ c = CleaningUp w → tidy (cut c).
Proof.
  intros [Hn H1 Hl Hr Hf Ho] Ha. constructor; cbn; try done. intros t k Hk Hc. destruct (Hl _ _ Hk Hc) as [_ Hp]. by rewrite Ha in Hp.
Qed.

Lemma tidy_step c e c' : tidy c → step c e = Some c' → fresh c e → tidy c'.
Proof.
  intros Hc Hs Hf. destruct e as [r|o| | |t d|now|m| |]; cbn in Hs.
  - destruct (at_ c) eqn:Ha; try done; [injection Hs as <-; by apply tidy_init|]. pose proof (tidy_receive r c Hc Ha). destruct r; try done; by injection Hs as <-.
  - destruct (at_ c) eqn:Ha; try done. injection Hs as <-. destruct o; [by apply tidy_open|].
    apply tidy_next, tidy_phase; try done; [by eapply tidy_same; [apply send_error_same|]|].
    destruct (send_error_same (Some id) e c) as (-> & _). by rewrite Ha.
  - destruct (at_ c) eqn:Ha; try done; injection Hs as <-; [..|by eapply tidy_cut];
      (apply tidy_cleanup; [done|by rewrite Ha]).
  - destruct (at_ c) eqn:Ha; try done. destruct (gathered _ _); [|done]. injection Hs as <-. by eapply tidy_cleaned.
  - assert (∃ k, tasks c !! t = Some k ∧ _handle_subscription_generator subprotocol t k d c = Some c') as (k & Hk & Hd).
    { destruct (at_ c), (tasks c !! t) eqn:?; naive_solver. }
    by eapply tidy_task.
  - assert (same c c') by (destruct (at_ c), (_ && _); try done; injection Hs as <-; apply send_same). by eapply tidy_same.
  - assert (same c c') by (destruct (at_ c), (bool_decide _); try done; injection Hs as <-; apply send_same). by eapply tidy_same.
  - assert (same c c') by (destruct (at_ c); injection Hs as <-; apply close_same). by eapply tidy_same.
  - assert (same c c') by (by injection Hs as <-). by eapply tidy_same.
Qed.

(** The connections of a client that asks for an id again only when the task it had is over. *)
Inductive orderly : connection → Prop :=
| orderly_start : orderly connect
| orderly_step c e c' : orderly c → step c e = Some c' → fresh c e → orderly c'.

Fixpoint always_fresh (c : connection) (l : list event) : Prop :=
  match l with
  | [] => True
  | e :: l => fresh c e ∧ match step c e with Some c' => always_fresh c' l | None => True end
  end.

Lemma orderly_run l c c' : orderly c → run c l = Some c' → always_fresh c l → orderly c'.
Proof.
  revert c. induction l as [|e l IH]; cbn; intros c Hc Hr Hf; [by injection Hr as <-|]. destruct Hf as [Hf Hl].
  destruct (step c e) as [c1|] eqn:Hs; [|done]. by eapply IH; [eapply orderly_step|..].
Qed.

Lemma tidy_orderly c : orderly c → tidy c.
Proof. induction 1; [by constructor|by eapply tidy_step]. Qed.

(** C17. Whatever the order of the messages, the streams, the keep-alive, the broadcasts and
    a cancellation of the connection, as long as an id is not asked for again before the
    task that had it is over: no two living tasks have one id; a task that was not
    cancelled is the one registered under its id, and there is none once the coroutine
    cleans up or has returned (a task that was cancelled may still have to learn of it);
    while it runs, every registered id has a living stream that was not cancelled; and
    nothing is registered once it has returned, unless it was cancelled a second time, while
    it waited for the tasks it had cancelled. *)
Theorem one_stream_per_id c :
  orderly c →
  (∀ t t' k k', tasks c !! t = Some k → tasks c !! t' = Some k' → subscription_id k = subscription_id k' → t = t') ∧
  (∀ t k, tasks c !! t = Some k → cancelled k = false → subscriptions c !! subscription_id k = Some t ∧ running (at_ c)) ∧
  (running (at_ c) → ∀ i t, subscriptions c !! i = Some t →
     ∃ k, tasks c !! t = Some k ∧ subscription_id k = i ∧ cancelled k = false) ∧
  (at_ c = Finished → cut_short c = false → subscriptions c = ∅).
Proof. intros []%tidy_orderly. done. Qed.

(** ** Who speaks for an id *)

Definition speaker (c : connection) (e : event) (m : GraphQLWSMessage) : Prop :=
  match id_ m with
  | None => True
  | Some i =>
      match e with
      | Receives (Got m') => type_ m' = "subscribe" ∧ id_ m' = Some i
      | Subscribed _ => at_ c = Subscribing i
      | Runs t _ => ∃ k, tasks c !! t = Some k ∧ cancelled k = false ∧ subscription_id k = i
      | Broadcasts m' => m = m'
      | _ => False
      end
  end.

Definition says (P : GraphQLWSMessage → Prop) (c c' : connection) : Prop := ∃ out, sent c' = sent c ++ out ∧ Forall P out.

Lemma says_nothing P c c' : sent c' = sent c → says P c c'.
Proof using Type. intros H. exists []. by rewrite app_nil_r. Qed.

Lemma says_one P m c : P m → says P c (send_message m c).2.
Proof using Type.
  intros Hm. unfold send_message. destruct (state c), (transport c); try (by apply says_nothing); exists [m]; eauto.
Qed.

Lemma says_same P c c1 c2 : says P c c1 → sent c2 = sent c1 → says P c c2.
Proof using Type. intros (out & Ho & H) Hs. exists out. by rewrite Hs. Qed.

Lemma sent_next c : sent (next_message c) = sent c.
Proof using Type. unfold next_message. by destruct (state c). Qed.

Lemma sent_close c : sent (_close c) = sent c.
Proof using Type. unfold _close. by destruct (state c). Qed.

Lemma sent_complete m c : sent (_handle_complete m c) = sent c.
Proof using Type. unfold _handle_complete. by repeat case_match. Qed.

Lemma says_next (P : GraphQLWSMessage → Prop) m c : P m → says P c (next_message (send_message m c).2).
Proof using Type. intros Hm. eapply says_same; [by apply says_one|apply sent_next]. Qed.

Lemma says_over (P : GraphQLWSMessage → Prop) t i m c : P m → says P c (over t i (send_message m c).2).
Proof using Type. intros Hm. by eapply says_same; [apply says_one|]. Qed.

Lemma handle_says m c : says (speaker c (Receives (Got m))) c (_handle_message refusal m c).
Proof using Type.
  unfold _handle_message. destruct (_ =s "subscribe") eqn:Hsub.
  - apply bool_decide_eq_true in Hsub. unfold _handle_subscribe. destruct (id_ m) as [[|a i]|] eqn:Hi; [by apply says_next| |by apply says_next].
    destruct (subscriptions c !! _); [by apply says_next|]. destruct (refusal _); [by apply says_next|by apply says_nothing].
  - destruct (_ =s "complete"); [apply says_nothing; by rewrite sent_next, sent_complete|].
    destruct (_ =s "connection_terminate"); [apply says_nothing; rewrite sent_next; apply (sent_close (with_state CLOSING c))|].
    destruct (_ =s "ping"); [by apply says_next|apply says_nothing, sent_next].
Qed.

Lemma task_says t k d c c' :
  tasks c !! t = Some k → _handle_subscription_generator subprotocol t k d c = Some c' → says (speaker c (Runs t d)) c c'.
Proof using Type.
  intros Hk. assert (Hm : ∀ m, cancelled k = false → id_ m = Some (subscription_id k) → speaker c (Runs t d) m).
  { intros m Hc Hm. unfold speaker. rewrite Hm. eauto. }
  unfold _handle_subscription_generator, hands_on, _send_error.
  destruct (started k) eqn:?, (cancelled k) eqn:?, d; intros [= <-]; try by apply says_nothing.
  - pose proof (says_one (speaker c (Runs t (Yields data))) {| type_ := data_type subprotocol; id_ := Some (subscription_id k); payload := PDict [("data", data)] |} c) as H.
    destruct (send_message _ c) as [[] ?]; (eapply says_same; [by apply H, Hm|done]).
  - pose proof (says_one (speaker c (Runs t (YieldsErrors l))) (error_message (Some (subscription_id k)) (GraphQLErrors l)) c) as H.
    destruct (send_message _ c) as [[] ?]; (eapply says_same; [by apply H, Hm|done]).
  - by apply says_over, Hm.
  - by apply says_over, Hm.
Qed.

Lemma step_says c e c' : step c e = Some c' → says (speaker c e) c c'.
Proof using Type.
  destruct e as [r|o| | |t d|now|m| |]; cbn; intros Hs.
  - destruct (at_ c) eqn:Ha; try done.
    + injection Hs as <-. destruct r as [m| | |]; cbn; [|by apply says_one|by apply says_nothing|by apply says_nothing, sent_close].
      destruct (_ =s _); [|by apply says_nothing, sent_close].
      pose proof (says_one (speaker c (Receives (Got m))) {| type_ := "connection_ack"; id_ := None; payload := PNone |} c I) as H.
      by destruct (send_message _ c) as [[] ?].
    + destruct r as [m| | |]; try done; injection Hs as <-; [by apply handle_says|by apply says_next|by apply says_nothing].
  - destruct (at_ c) eqn:Ha; try done. injection Hs as <-. destruct o; [apply says_nothing; cbn; by rewrite sent_next|by apply says_next].
  - destruct (at_ c); try done; injection Hs as <-; by apply says_nothing.
  - destruct (at_ c); try done. destruct (gathered _ _); [|done]. injection Hs as <-. by apply says_nothing.
  - destruct (tasks c !! t) as [k|] eqn:Hk; [|by destruct (at_ c)]. eapply task_says; [done|by destruct (at_ c)].
  - assert (c' = (send_message {| type_ := "ping"; id_ := None; payload := PDict [("timestamp", PStr now)] |} c).2) as ->
      by (destruct (at_ c), (_ && _); try done; by injection Hs as <-). by apply says_one.
  - assert (c' = (send_message m c).2) as -> by (destruct (at_ c), (bool_decide _); try done; by injection Hs as <-).
    apply says_one. unfold speaker. by destruct (id_ m).
  - assert (c' = _close c) as -> by (destruct (at_ c); by injection Hs as <-). apply says_nothing, sent_close.
  - injection Hs as <-. by apply says_nothing.
Qed.

(** ** A stream that is over stays silent *)

(** No task is new or uncancelled again, but for the streams that [P] allows. *)
Definition fewer (P : string → Prop) (c c' : connection) : Prop :=
  ∀ t k', tasks c' !! t = Some k' →
    P (subscription_id k') ∨
    ∃ k, tasks c !! t = Some k ∧ subscription_id k' = subscription_id k ∧ (cancelled k' = false → cancelled k = false).

Lemma fewer_tasks P c c' : tasks c' = tasks c → fewer P c c'.
Proof using Type. intros H t k Hk. right. exists k. by rewrite <- H. Qed.

Lemma fewer_same P c c' : same c c' → fewer P c c'.
Proof using Type. intros (_ & _ & H & _). by apply fewer_tasks. Qed.

Lemma fewer_then P c c1 c2 : fewer P c c1 → fewer (λ _, False) c1 c2 → fewer P c c2.
Proof using Type.
  intros H1 H2 t k2 Hk. destruct (H2 _ _ Hk) as [[]|(k1 & Hk1 & Hi1 & Hc1)].
  destruct (H1 _ _ Hk1) as [?|(k & Hk' & Hi & Hc)]; [left; by rewrite Hi1|]. right. exists k. rewrite Hi1. auto.
Qed.

Lemma fewer_cleanup c : fewer (λ _, False) c (_cleanup c).
Proof using Type. intros t k (k0 & ? & ? & Hc)%cancels_lookup. right. exists k0. split_and!; try done. naive_solver. Qed.

Lemma fewer_next c : fewer (λ _, False) c (next_message c).
Proof using Type. unfold next_message. destruct (state c); try apply fewer_cleanup. by apply fewer_tasks. Qed.

Lemma fewer_complete m c : fewer (λ _, False) c (_handle_complete m c).
Proof using Type.
  unfold _handle_complete. destruct (id_ m) as [[|a i]|]; try by apply fewer_tasks.
  destruct (subscriptions c !! _); [|by apply fewer_tasks]. intros t' k (k0 & ? & ? & ? & Hc)%cancel_lookup.
  right. exists k0. split_and!; try done. naive_solver.
Qed.

Lemma fewer_delete P t subs c1 c : tasks c1 = tasks c → fewer P c (with_tasks subs (delete t (tasks c1)) c1).
Proof using Type. intros H t' k. cbn. intros [_ Hk]%lookup_delete_Some. right. exists k. by rewrite <- H. Qed.

#[local] Hint Resolve fewer_then fewer_next fewer_cleanup fewer_complete fewer_same : py.

Lemma fewer_handle m c : fewer (λ _, False) c (_handle_message refusal m c).
Proof using Type.
  unfold _handle_message. destruct (_ =s "subscribe").
  - unfold _handle_subscribe. destruct (id_ m) as [[|a i]|]; eauto with py.
    destruct (subscriptions c !! _); [eauto with py|]. destruct (refusal _); [eauto with py|by apply fewer_tasks].
  - destruct (_ =s "complete"); [eauto with py|]. destruct (_ =s "connection_terminate"); [|destruct (_ =s "ping")]; eauto with py.
    eapply fewer_then; [|apply fewer_next]. apply fewer_same. etrans; [|apply close_same]. done.
Qed.

Lemma fewer_task t k d c c' :
  tasks c !! t = Some k → _handle_subscription_generator subprotocol t k d c = Some c' → fewer (λ _, False) c c'.
Proof using Type.
  intros Hk. assert (Hover : ∀ i m, fewer (λ _, False) c (over t i (send_message m c).2)).
  { intros i m. apply fewer_delete. by destruct (send_same m c) as (_ & _ & -> & _). }
  assert (Hon : ∀ i m, fewer (λ _, False) c (hands_on t i m c)).
  { intros i m. destruct (hands_on_cases t i m c) as [?|(c1 & H & ->)]; [by apply fewer_same|].
    apply fewer_delete. by destruct H as (_ & _ & -> & _). }
  unfold _handle_subscription_generator, _send_error.
  destruct (started k) eqn:?, (cancelled k) eqn:?, d; intros [= <-]; auto; try by apply fewer_delete.
  intros t' k'. cbn. intros [[<- <-]|[_ Hk']]%lookup_insert_Some; right; [exists k|exists k']; by split_and!.
Qed.

Lemma fewer_step c e c' : step c e = Some c' → fewer (λ i, at_ c = Subscribing i) c c'.
Proof using Type.
  intros Hs. assert (Hweak : fewer (λ _, False) c c' → fewer (λ i, at_ c = Subscribing i) c c') 
    by (intros H t k Hk; destruct (H t k Hk) as [[]|?]; by right).
  destruct e as [r|o| | |t d|now|m| |]; cbn in Hs.
  - apply Hweak. destruct (at_ c); try done.
    + injection Hs as <-. destruct r as [m| | |]; cbn; eauto with py.
      * destruct (_ =s _); [|eauto with py].
        pose proof (send_same {| type_ := "connection_ack"; id_ := None; payload := PNone |} c) as Hsend.
        destruct (send_message _ c) as [[] ?]; [|eauto with py]. by apply (fewer_same (λ _, False)) in Hsend.
      * apply (fewer_cleanup (with_state CLOSING c)).
    + destruct r as [m| | |]; try done; injection Hs as <-; cbn; [by apply fewer_handle|eauto with py|]. apply (fewer_cleanup (with_state CLOSING c)).
  - destruct (at_ c) as [| |i| |] eqn:Ha; try done. injection Hs as <-. destruct o; [|apply Hweak; cbn; eauto with py].
    eapply fewer_then; [|apply fewer_next]. intros t' k'. cbn. intros [[<- <-]|[_ Hk']]%lookup_insert_Some; [by left|right; by exists k'].
  - apply Hweak. destruct (at_ c); try done; injection Hs as <-; first [apply fewer_cleanup|by apply fewer_tasks].
  - apply Hweak. destruct (at_ c); try done. destruct (gathered _ _); [|done]. injection Hs as <-. by apply fewer_tasks.
  - apply Hweak. destruct (tasks c !! t) as [k|] eqn:Hk; [|by destruct (at_ c)]. eapply fewer_task; [done|by destruct (at_ c)].
  - apply fewer_same. destruct (at_ c), (_ && _); try done; injection Hs as <-; apply send_same.
  - apply fewer_same. destruct (at_ c), (bool_decide _); try done; injection Hs as <-; apply send_same.
  - apply fewer_same. destruct (at_ c); injection Hs as <-; apply close_same.
  - injection Hs as <-. by apply fewer_tasks.
Qed.

(** *** Where the coroutine may come from *)

Definition asks (i : string) (e : event) : Prop :=
  match e with Receives (Got m) => type_ m = "subscribe" ∧ id_ m = Some i | _ => False end.

Lemma at_next c i : at_ (next_message c) ≠ Subscribing i.
Proof using Type. unfold next_message. by destruct (state c). Qed.

Lemma task_at t k d c c' : _handle_subscription_generator subprotocol t k d c = Some c' → at_ c' = at_ c.
Proof using Type.
  assert (Hsend : ∀ m, at_ (send_message m c).2 = at_ c) by (intros; apply send_same).
  assert (Hon : ∀ i m, at_ (hands_on t i m c) = at_ c).
  { intros i m. destruct (hands_on_cases t i m c) as [[? _]|(c1 & [? _] & ->)]; done. }
  unfold _handle_subscription_generator, _send_error. destruct (started k), (cancelled k), d; intros [= <-]; done || apply Hsend || apply Hon.
Qed.

Lemma step_subscribing c e c' i : step c e = Some c' → at_ c' = Subscribing i → at_ c = Subscribing i ∨ asks i e.
Proof using Type.
  destruct e as [r|o| | |t d|now|m| |]; cbn; intros Hs Hi.
  - destruct (at_ c) eqn:Ha; try done.
    + exfalso. injection Hs as <-. destruct r as [m| | |]; cbn in Hi; try done.
      destruct (_ =s _); [|done]. by destruct (send_message _ c) as [[] ?].
    + destruct r as [m| | |]; try done; injection Hs as <-; cbn in Hi; try done; [|by apply at_next in Hi].
      unfold _handle_message in Hi. destruct (_ =s "subscribe") eqn:Hsub; [|by apply at_next in Hi]. apply bool_decide_eq_true in Hsub.
      unfold _handle_subscribe in Hi. destruct (id_ m) as [[|a j]|] eqn:Hm; try by apply at_next in Hi.
      destruct (subscriptions c !! _); [by apply at_next in Hi|]. destruct (refusal _); [by apply at_next in Hi|].
      right. injection Hi as <-. done.
  - destruct (at_ c); try done. injection Hs as <-. destruct o; by apply at_next in Hi.
  - destruct (at_ c); try done; by injection Hs as <-.
  - destruct (at_ c); try done. destruct (gathered _ _); [|done]. by injection Hs as <-.
  - left. assert (∃ k, _handle_subscription_generator subprotocol t k d c = Some c') as (k & Hd).
    { destruct (at_ c), (tasks c !! t) eqn:?; naive_solver. }
    by rewrite <- (task_at _ _ _ _ _ Hd).
  - left. enough (same c c') as [<- _] by done. destruct (at_ c), (_ && _); try done; injection Hs as <-; apply send_same.
  - left. enough (same c c') as [<- _] by done. destruct (at_ c), (bool_decide _); try done; injection Hs as <-; apply send_same.
  - left. enough (same c c') as [<- _] by done. destruct (at_ c); injection Hs as <-; apply close_same.
  - left. by injection Hs as <-.
Qed.

(** *** Silence *)

(** Every task of the id is cancelled, and none is about to begin. *)
Definition quiet (i : string) (c : connection) : Prop :=
  (∀ t k, tasks c !! t = Some k → subscription_id k = i → cancelled k = true) ∧ at_ c ≠ Subscribing i.

Definition speaks_of (i : string) (e : event) : Prop :=
  asks i e ∨ match e with Broadcasts m => id_ m = Some i | _ => False end.

Lemma quiet_step i c e c' :
  quiet i c → step c e = Some c' → ¬ speaks_of i e → quiet i c' ∧ says (λ m, id_ m ≠ Some i) c c'.
Proof using Type.
  intros [Hq Ha] Hs He. unfold speaks_of in He. split; [split|].
  - intros t k' Hk Hi. destruct (fewer_step _ _ _ Hs t k' Hk) as [?|(k & Hk0 & Hid & Hc)]; [congruence|].
    destruct (cancelled k') eqn:Hfalse; [done|]. rewrite <- (Hc eq_refl). apply (Hq t); congruence.
  - intros Hi. destruct (step_subscribing _ _ _ _ Hs Hi); tauto.
  - destruct (step_says _ _ _ Hs) as (out & Hout & Hsp). exists out. split; [done|]. apply (Forall_impl _ _ _ Hsp).
    intros m Hm Hi. unfold speaker in Hm. rewrite Hi in Hm. destruct e as [[]|o| | |t d|now|m'| |]; cbn in He; try tauto.
    + destruct Hm as (k & Hk & Hc & Hid). rewrite (Hq _ _ Hk Hid) in Hc. done.
    + subst. tauto.
Qed.

Lemma quiet_run i l c c' :
  quiet i c → run c l = Some c' → Forall (λ e, ¬ speaks_of i e) l → says (λ m, id_ m ≠ Some i) c c'.
Proof using Type.
  revert c. induction l as [|e l IH]; cbn; intros c Hq Hr Hl; [injection Hr as <-; by apply says_nothing|].
  apply Forall_cons in Hl as [He Hl]. destruct (step c e) as [c1|] eqn:Hs; [|done].
  destruct (quiet_step _ _ _ _ Hq Hs He) as [Hq1 (out & Ho & H)]. destruct (IH _ Hq1 Hr Hl) as (out' & Ho' & H').
  exists (out ++ out'). rewrite Ho', Ho, app_assoc. by rewrite Forall_app.
Qed.

(** The client completes the stream, or the stream ends or raises. *)
Definition finishes (i : string) (c : connection) (e : event) : Prop :=
  match e with
  | Receives (Got m) => at_ c = Looping ∧ type_ m = "complete" ∧ id_ m = Some i ∧ i ≠ EmptyString
  | Runs t Ends | Runs t (Raises _) => ∃ k, tasks c !! t = Some k ∧ subscription_id k = i
  | _ => False
  end.

Lemma quiet_next i c : (∀ t k, tasks c !! t = Some k → subscription_id k = i → cancelled k = true) → quiet i (next_message c).
Proof using Type.
  intros H. split; [|apply at_next]. intros t k' Hk Hi. destruct (fewer_next c t k' Hk) as [[]|(k & Hk0 & Hid & Hc)].
  destruct (cancelled k') eqn:Hfalse; [done|]. rewrite <- (Hc eq_refl). apply (H t); congruence.
Qed.

Lemma complete_quiet m c i : tidy c → id_ m = Some i → i ≠ EmptyString →
  ∀ t k, tasks (_handle_complete m c) !! t = Some k → subscription_id k = i → cancelled k = true.
Proof using Type.
  intros Hc Hi Hne t k. unfold _handle_complete. rewrite Hi. destruct i as [|a i]; [done|].
  destruct (subscriptions c !! String a i) as [t0|] eqn:Hs; cbn.
  - intros (k0 & Hk & Hid & _ & Hcan)%cancel_lookup Hki. destruct (cancelled k) eqn:Hf; [done|].
    destruct (Hcan eq_refl) as [Hc0 Hnt]. destruct (tidy_live _ Hc _ _ Hk Hc0) as [Hreg _]. congruence.
  - intros Hk Hki. destruct (cancelled k) eqn:Hf; [done|]. destruct (tidy_live _ Hc _ _ Hk Hf) as [Hreg _]. congruence.
Qed.

Lemma end_quiet t k c i d c' :
  tidy c → tasks c !! t = Some k → subscription_id k = i → d = Ends ∨ (∃ text, d = Raises text) →
  _handle_subscription_generator subprotocol t k d c = Some c' → quiet i c'.
Proof using Type.
  intros Hc Hk Hi Hd Hs. pose proof (task_at _ _ _ _ _ Hs) as Hat.
  assert (cancelled k = false ∧ ∃ m, c' = over t i (send_message m c).2) as [Hf (m & ->)].
  { subst i. unfold _handle_subscription_generator, _send_error in Hs. destruct Hd as [->|[? ->]], (started k), (cancelled k); try done; injection Hs as <-; (split; [done|by eexists]). }
  split.
  - cbn. destruct (send_same m c) as (_ & _ & -> & _). intros t' k' [Hne Hk']%lookup_delete_Some Hid.
    destruct Hne. apply (tidy_one _ Hc _ _ _ _ Hk Hk'). congruence.
  - rewrite Hat. intros Hsub. apply (tidy_free _ Hc) in Hsub. destruct (tidy_live _ Hc _ _ Hk Hf). congruence.
Qed.

Lemma finishes_quiet i c e c' : tidy c → step c e = Some c' → finishes i c e → quiet i c'.
Proof using Type.
  intros Hc Hs Hf. destruct e as [[m| | |]|o| | |t d|now|m| |]; try done; cbn in Hf.
  - destruct Hf as (Ha & Ht & Hi & Hne). cbn in Hs. rewrite Ha in Hs. injection Hs as <-. cbn.
    unfold _handle_message. rewrite Ht. apply quiet_next. by apply complete_quiet.
  - assert (∃ k, tasks c !! t = Some k ∧ subscription_id k = i ∧ (d = Ends ∨ ∃ text, d = Raises text)) as (k & Hk & Hi & Hd)
      by (destruct d; try done; destruct Hf as (k & Hk & Hi); exists k; eauto).
    eapply end_quiet; eauto. cbn in Hs. rewrite Hk in Hs. by destruct (at_ c).
Qed.

(** C18. On a connection whose client has asked for an id again only when the task that had it
    was over (see [a_reused_id_loses_its_stream] for the others): once the client has
    completed a stream, or the stream has ended or raised and said so, nothing more is sent
    under its id, neither results nor errors nor another completion, whatever happens on the
    connection, until the client asks for the id again or somebody broadcasts a message that
    carries it. *)
Theorem a_finished_stream_is_silent i c e c1 l c2 :
  orderly c → step c e = Some c1 → finishes i c e → run c1 l = Some c2 → Forall (λ e, ¬ speaks_of i e) l →
  ∃ out, sent c2 = sent c1 ++ out ∧ Forall (λ m, id_ m ≠ Some i) out.
Proof using Type. intros Hc Hs Hf Hr Hl. eapply quiet_run; [|done..]. eapply finishes_quiet; [by apply tidy_orderly|done..]. Qed.

(** ** A connection can be left *)

(** What [_cleanup] waits for is cancelled. *)
Definition waits (c : connection) : Prop :=
  ∀ w, at_ c = CleaningUp w → Forall (λ t, ∀ k, tasks c !! t = Some k → cancelled k = true) w.

Lemma waits_cleanup c : waits (_cleanup c).
Proof using Type.
  intros w [= <-]. apply Forall_forall. intros t Ht k (k0 & _ & _ & Hc)%cancels_lookup.
  destruct (cancelled k); [done|]. by destruct (Hc eq_refl).
Qed.

Lemma next_cleaning c w : at_ (next_message c) = CleaningUp w → next_message c = _cleanup c.
Proof using Type. unfold next_message. by destruct (state c). Qed.

Lemma step_cleaning c e c' w :
  step c e = Some c' → at_ c' = CleaningUp w → at_ c = CleaningUp w ∨ ∃ c0, c' = _cleanup c0.
Proof using Type.
  assert (Hnext : ∀ c1, at_ (next_message c1) = CleaningUp w → ∃ c0, next_message c1 = _cleanup c0).
  { intros c1 H. eexists. by eapply next_cleaning. }
  destruct e as [r|o| | |t d|now|m| |]; cbn; intros Hs Hi.
  - right. destruct (at_ c) eqn:Ha; try done.
    + injection Hs as <-. destruct r as [m| | |]; cbn in Hi |- *; try by eexists.
      destruct (_ =s _); [|by eexists]. destruct (send_message _ c) as [[] ?]; [done|by eexists].
    + destruct r as [m| | |]; try done; injection Hs as <-; cbn in Hi |- *; [|by apply Hnext|by eexists].
      unfold _handle_message in *. destruct (_ =s "subscribe"); [|by apply Hnext]. unfold _handle_subscribe in *.
      destruct (id_ m) as [[|a j]|]; [by apply Hnext| |by apply Hnext].
      destruct (subscriptions c !! _); [by apply Hnext|]. destruct (refusal _); [by apply Hnext|done].
  - right. destruct (at_ c); try done. injection Hs as <-. destruct o; by apply Hnext.
  - right. destruct (at_ c); try done; injection Hs as <-; first [discriminate Hi|by eexists].
  - destruct (at_ c); try done. destruct (gathered _ _); [|done]. by injection Hs as <-.
  - left. assert (∃ k, _handle_subscription_generator subprotocol t k d c = Some c') as (k & Hd).
    { destruct (at_ c), (tasks c !! t) eqn:?; naive_solver. }
    by rewrite <- (task_at _ _ _ _ _ Hd).
  - left. enough (same c c') as [<- _] by done. destruct (at_ c), (_ && _); try done; injection Hs as <-; apply send_same.
  - left. enough (same c c') as [<- _] by done. destruct (at_ c), (bool_decide _); try done; injection Hs as <-; apply send_same.
  - left. enough (same c c') as [<- _] by done. destruct (at_ c); injection Hs as <-; apply close_same.
  - left. by injection Hs as <-.
Qed.

Lemma waits_step c e c' : waits c → step c e = Some c' → waits c'.
Proof using Type.
  intros Hc Hs w Hw. destruct (step_cleaning _ _ _ _ Hs Hw) as [Ha|(c0 & ->)]; [|by apply waits_cleanup].
  specialize (Hc _ Ha). eapply Forall_impl; [exact Hc|]. intros t Ht k' Hk.
  destruct (fewer_step _ _ _ Hs t k' Hk) as [?|(k & Hk0 & _ & Hcan)]; [congruence|].
  destruct (cancelled k'); [done|]. rewrite <- (Hcan eq_refl). by apply Ht.
Qed.

Lemma waits_run l c c' : waits c → run c l = Some c' → waits c'.
Proof using Type.
  revert c. induction l as [|e l IH]; cbn; intros c Hc Hr; [by injection Hr as <-|].
  destruct (step c e) eqn:Hs; [|done]. eapply IH; [by eapply waits_step|done].
Qed.

(** A task that is waited for and not over can be told that it is cancelled. *)
Lemma stops c w t k :
  at_ c = CleaningUp w → tasks c !! t = Some k → cancelled k = true →
  ∃ c', step c (Runs t Stops) = Some c' ∧ at_ c' = CleaningUp w ∧ tasks c' = delete t (tasks c).
Proof using Type.
  intros Ha Hk Hc. cbn. rewrite Hk. unfold _handle_subscription_generator. rewrite Hc.
  destruct (started k); eexists; by split_and!.
Qed.

Lemma leaves_cleanup n c w :
  size (tasks c) = n → at_ c = CleaningUp w → waits c →
  ∃ l c', run c l = Some c' ∧ at_ c' = Finished ∧ length l ≤ S n.
Proof using Type.
  revert c. induction n as [n IH] using lt_wf_ind. intros c Hn Ha Hw. destruct (gathered w c) eqn:Hg.
  - exists [Gathers], (cleaned_up c). cbn. rewrite Ha, Hg. split_and!; [done..|lia].
  - assert (∃ t k, t ∈ w ∧ tasks c !! t = Some k) as (t & k & Ht & Hk).
    { destruct (decide (Exists (λ t, is_Some (tasks c !! t)) w)) as [(t & Ht & k & Hk)%Exists_exists|Hno]; [by exists t, k|].
      apply not_true_iff_false in Hg. destruct Hg. apply forallb_forall. intros t Ht%list_elem_of_In.
      destruct (tasks c !! t) eqn:Hk; [|done]. destruct Hno. apply Exists_exists. eauto. }
    assert (cancelled k = true) as Hc by (specialize (Hw _ Ha); rewrite Forall_forall in Hw; by eapply Hw).
    destruct (stops _ _ _ _ Ha Hk Hc) as (c1 & Hs & Ha1 & Ht1).
    assert (Hsize : S (size (tasks c1)) = n) by (rewrite Ht1, map_size_delete_Some by done; pose proof (map_size_ne_0_lookup_2 (tasks c) t ltac:(done)); lia).
    destruct (IH (size (tasks c1)) ltac:(lia) c1 eq_refl Ha1 (waits_step _ _ _ Hw Hs)) as (l & c' & Hr & Hf & Hl).
    exists (Runs t Stops :: l), c'. cbn [Subscriptions.run]. rewrite Hs. split_and!; [done..|cbn; lia].
Qed.

End laws.

(** ** Some connections *)

Definition from_client (type : string) (id : option string) : received := Got {| type_ := type; id_ := id; payload := PDict [] |}.

Abbreviation lives := (run GRAPHQL_TRANSPORT_WS true (λ _, None) connect).

(** A stream with the id "1" that has begun. *)
Definition streaming : list event :=
  [Receives (from_client "connection_init" None); Receives (from_client "subscribe" (Some "1")); Subscribed Stream; Runs 0 Starts].

Definition busy : connection := default connect (lives streaming).

Lemma busy_orderly : orderly GRAPHQL_TRANSPORT_WS true (λ _, None) busy.
Proof.
  apply (orderly_run _ _ _ streaming connect); [apply orderly_start|reflexivity|].
  do 2 (split; [exact I|]). split; [by apply fresh_first|by split].
Qed.

Lemma one_stream_per_id_witness :
  tasks busy !! 0 = Some {| subscription_id := "1"; started := true; cancelled := false |} ∧ subscriptions busy !! "1" = Some 0.
Proof.
  split; [reflexivity|].
  destruct (one_stream_per_id GRAPHQL_TRANSPORT_WS true (λ _, None) busy busy_orderly) as (_ & Hl & _).
  exact (proj1 (Hl 0 {| subscription_id := "1"; started := true; cancelled := false |} eq_refl eq_refl)).
Defined.

Lemma a_finished_stream_is_silent_witness :
  ∃ c1 c2 out,
    step GRAPHQL_TRANSPORT_WS true (λ _, None) busy (Receives (from_client "complete" (Some "1"))) = Some c1 ∧
    run GRAPHQL_TRANSPORT_WS true (λ _, None) c1 [Runs 0 Stops; Receives (from_client "ping" None)] = Some c2 ∧
    sent c2 = sent c1 ++ out ∧ Forall (λ m, id_ m ≠ Some "1") out.
Proof.
  eexists _, _.
  assert (∀ c1 c2,
    step GRAPHQL_TRANSPORT_WS true (λ _, None) busy (Receives (from_client "complete" (Some "1"))) = Some c1 →
    run GRAPHQL_TRANSPORT_WS true (λ _, None) c1 [Runs 0 Stops; Receives (from_client "ping" None)] = Some c2 →
    ∃ out, sent c2 = sent c1 ++ out ∧ Forall (λ m, id_ m ≠ Some "1") out) as H.
  { intros c1 c2 H1 H2. eapply a_finished_stream_is_silent; [exact busy_orderly|exact H1|by split_and!|exact H2|].
    repeat constructor; unfold speaks_of; cbn; intros [[]|[]]; done. }
  edestruct H as (out & Ho & Hn); [reflexivity|reflexivity|]. exists out. split_and!; [reflexivity|reflexivity|exact Ho|exact Hn].
Defined.


(** A client that completes a stream and asks for its id at once: the task it had takes the
    new registration with it when it learns that it is cancelled.  The new stream goes on,
    can no longer be completed, and outlives the connection. *)
Example a_reused_id_loses_its_stream :
  let l := streaming ++ [Receives (from_client "complete" (Some "1")); Receives (from_client "subscribe" (Some "1")); Subscribed Stream;
                         Runs 0 Stops; Runs 1 Starts; Receives (from_client "complete" (Some "1")); Runs 1 (Yields PNone);
                         Receives Disconnected; Gathers] in
  match lives l with
  | Some c => at_ c = Finished ∧ subscriptions c = ∅ ∧
              tasks c !! 1 = Some {| subscription_id := "1"; started := true; cancelled := false |} ∧
              sent c = [{| type_ := "connection_ack"; id_ := None; payload := PNone |};
                        {| type_ := "next"; id_ := Some "1"; payload := PDict [("data", PNone)] |}]
  | None => False
  end.
Proof. vm_compute. by split_and!. Qed.

(** The same, with another stream asked for before the task is over: two of them run under
    one id. *)
Example two_streams_with_one_id :
  let asks := [Receives (from_client "subscribe" (Some "1")); Subscribed Stream] in
  match lives (streaming ++ [Receives (from_client "complete" (Some "1"))] ++ asks ++ [Runs 0 Stops] ++ asks) with
  | Some c => map_to_list (tasks c) = [(2, {| subscription_id := "1"; started := false; cancelled := false |});
                                       (1, {| subscription_id := "1"; started := false; cancelled := false |})]
  | None => False
  end.
Proof. vm_compute. reflexivity. Qed.

(** A connection that was closed while it waited for its first message is ready after it. *)
Example a_closed_connection_gets_ready :
  match lives [Closes; Receives (from_client "connection_init" None)] with
  | Some c => state c = READY ∧ transport c = false
  | None => False
  end.
Proof. vm_compute. by split_and!. Qed.

(** The names of the first protocol are those of the second. *)
Example start_is_subscribe :
  from_dict (Some "start") (Some "1") PNone = from_dict (Some "subscribe") (Some "1") PNone ∧
  from_dict (Some "stop") (Some "1") PNone = from_dict (Some "complete") (Some "1") PNone ∧
  from_dict None (Some "1") PNone = raise ValueError.
Proof. vm_compute. by split_and!. Qed.

(** A second cancellation, while the coroutine waits for its tasks, ends it with the stream
    still registered. *)
Example a_second_cancellation_skips_the_cleanup :
  match run GRAPHQL_TRANSPORT_WS true (λ _, None) busy [Cancelled; Cancelled] with
  | Some c => at_ c = Finished ∧ subscriptions c ≠ ∅ ∧ state c = READY
  | None => False
  end.
Proof. vm_compute. repeat split. discriminate. Qed.
