(* ===== verification/Selections.v ===== *)
(** * What a query selects ([core/fragment_resolver.py], [core/ast_parser.py],
    [core/selection_tree.py] and the selections of [mutations/mutation_decorator.py] and
    [fastapi/routers.py])

    Three walks over a parsed document say what a response holds: the flat paths [find]
    projects rows on, the document a mutation hands to the Rust pipeline, and the paths of a
    request with several root fields.  Documents and schemas are graphql-core's: a node is a
    constructor, and a schema is the lookups the walks make.  A walk that goes deeper than
    the interpreter allows, its [depth], raises [RecursionError]. *)
From stdpp Require Import base decidable strings list.
From Stdlib Require Import ZArith Lia Ascii.
From S2P Require Import Prelude PyVal Casing.

Local Open Scope py_scope.

(** ** Documents *)

Inductive value_node :=
| VariableNode (name : string)
| IntValueNode (z : Z)
| FloatValueNode (f : Num.pyfloat)
| StringValueNode (s : string)
| BooleanValueNode (b : bool)
| NullValueNode
| EnumValueNode (s : string)
| ListValueNode (values : list value_node)
| ObjectValueNode (fields : list (string * value_node)).

Record directive := { directive_name : string; directive_arguments : list (string * value_node) }.

Inductive field :=
| FieldNode (alias : option string) (name : string) (arguments : list (string * value_node)) (directives : list directive)
    (selection_set : option (list selection))
with selection :=
| Field (f : field)
| FragmentSpreadNode (name : string) (directives : list directive)
| InlineFragmentNode (type_condition : option string) (directives : list directive) (selection_set : list selection).

Definition alias (f : field) : option string := let 'FieldNode a _ _ _ _ := f in a.
Definition name (f : field) : string := let 'FieldNode _ n _ _ _ := f in n.
Definition arguments (f : field) : list (string * value_node) := let 'FieldNode _ _ a _ _ := f in a.
Definition directives (f : field) : list directive := let 'FieldNode _ _ _ d _ := f in d.
Definition selection_set (f : field) : option (list selection) := let 'FieldNode _ _ _ _ s := f in s.

(** The key a field answers under. *)
Definition response_key (f : field) : string := default (name f) (alias f).

Record fragment := { type_condition : string; fragment_selections : list selection }.

Inductive operation_type := Query | Mutation | Subscription.

Record operation := {
  op_name : option string;
  op_type : operation_type;
  variable_definitions : list (string * option value_node);
  op_selections : list selection
}.

Inductive definition :=
| FragmentDefinitionNode (name : string) (f : fragment)
| OperationDefinitionNode (o : operation)
| OtherDefinitionNode (name : option string).

(** [{d.name.value: d for d in document.definitions if it is a fragment}] *)
Definition fragments_of (document : list definition) : list (string * fragment) :=
  dict_of (flat_map (λ d, match d with FragmentDefinitionNode n f => [(n, f)] | _ => [] end) document).

(** ** Schemas *)

Inductive type_ref := NamedType (n : string) | NonNullType (t : type_ref) | ListType (t : type_ref).

(** [get_named_type] *)
Fixpoint get_named_type (t : type_ref) : string :=
  match t with NamedType n => n | NonNullType t | ListType t => get_named_type t end.

Inductive type_kind := ObjectType | InterfaceType | UnionType | LeafType.

#[export] Instance type_kind_eq : EqDecision type_kind.
Proof. solve_decision. Defined.

(** [fields] are empty for a type without fields. *)
Record graphql_type := { kind : type_kind; fields : list (string * type_ref) }.

Record schema := { type_map : list (string * graphql_type); get_possible_types : string → list string }.

Definition kind_of (s : schema) (n : string) : option type_kind := kind <$> dict_get n (type_map s).

Definition is_object_type (s : schema) (n : string) : bool := bool_decide (kind_of s n = Some ObjectType).

Definition is_abstract_type (s : schema) (n : string) : bool :=
  match kind_of s n with Some (InterfaceType | UnionType) => true | _ => false end.

(** [schema.is_sub_type], for an object type. *)
Definition is_sub_type (s : schema) (c t : string) : bool := t in_ get_possible_types s c.

(** ** Fragments written out ([core/fragment_resolver.py]) *)

Section flat_paths.
Context (fragments : list (string * fragment)).

Fixpoint resolve (depth : nat) (typename : option string) (sel : selection) : result (list field) :=
  match depth with
  | O => raise RecursionError
  | S depth =>
      match sel with
      | Field f => Ok [f]
      | FragmentSpreadNode n _ =>
          match dict_get n fragments with
          | None => raise ValueError
          | Some frag => concat_mapR (resolve depth typename) (fragment_selections frag)
          end
      | InlineFragmentNode c _ sels =>
          if match typename, c with Some t, Some c => c =s t | _, _ => true end
          then concat_mapR (resolve depth typename) sels
          else Ok []
      end
  end.

(** The loop of [deduplicate_fields], with the keys it has seen. *)
Fixpoint unseen (seen : list string) (l : list field) : list field :=
  match l with
  | [] => []
  | f :: l =>
      if response_key f in_ seen then unseen seen l else f :: unseen (response_key f :: seen) l
  end.

Definition deduplicate_fields (l : list field) : list field := unseen [] l.

Definition resolve_all_fields (depth : nat) (sels : list selection) (typename : option string) : result (list field) :=
  deduplicate_fields <$> concat_mapR (resolve depth typename) sels.

(** ** Flat paths ([core/ast_parser.py]) *)

Record FieldPath := {
  leaf_alias : string;
  path : list string;
  names : option (list string);
  response_keys : option (list string)
}.

Context (transform_path : option (string → string)).

Definition transformed (n : string) : string := match transform_path with Some g => g n | None => n end.

Fixpoint extract_flat_paths (depth : nat) (sels : list selection) (path names response_keys : list string)
    : result (list FieldPath) :=
  match depth with
  | O => raise RecursionError
  | S depth =>
      all_fields ← resolve_all_fields depth sels None;
      concat_mapR
        (λ f,
           let path := path ++ [transformed (name f)] in
           let names := names ++ [name f] in
           let response_keys := response_keys ++ [response_key f] in
           match selection_set f with
           | Some sub => extract_flat_paths depth sub path names response_keys
           | None =>
               Ok [{| leaf_alias := response_key f; path := path; names := Some names; response_keys := Some response_keys |}]
           end) all_fields
  end.

(** [None] when there is nothing selected. *)
Definition extract_field_paths_from_info (depth : nat) (field_nodes : list field) : result (option (list FieldPath)) :=
  match field_nodes with
  | [] => Ok None
  | f :: _ =>
      match selection_set f with
      | None => Ok None
      | Some sels => Some <$> extract_flat_paths depth sels [] [] []
      end
  end.
End flat_paths.

(** ** The selection of a row ([core/selection_tree.py]) *)

Record FieldInfo := { info_type_name : string; info_is_nested_object : bool; graphql_name : string }.

(** [GraphQLSchemaWrapper.get_field_type] *)
Definition get_field_type (s : schema) (type_name field_name : string) : option FieldInfo :=
  t ← dict_get type_name (type_map s);
  if bool_decide (kind t = ObjectType) then
    let graphql_name := if dict_has field_name (fields t) then field_name else to_camel_case field_name in
    f ← dict_get graphql_name (fields t);
    let base := get_named_type f in
    Some {| info_type_name := base; info_is_nested_object := is_object_type s base; graphql_name := graphql_name |}
  else None.

Record FieldSelection := {
  sel_path : list string;
  sel_alias : string;
  sel_type_name : string;
  is_nested_object : bool;
  response_path : option (list string)
}.

Section selection_tree.
Context (s : schema) (by_alias : bool).

(** The key each segment answers under, when the path says. *)
Definition output_keys (fp : FieldPath) : option (list string) :=
  match (if by_alias then response_keys fp else names fp) with
  | Some keys => if Nat.eqb (length keys) (length (path fp)) then Some keys else None
  | None => None
  end.

(** What the loop over a path makes of one segment: the selection and its output path. *)
Definition segment (fp : FieldPath) (current_type : string) (cumulative_path : list string) (field_name : string)
    : FieldSelection * list string :=
  let info := get_field_type s current_type field_name in
  let i := length cumulative_path in
  let cumulative_path := cumulative_path ++ [field_name] in
  let '(field_type_name, is_nested) :=
    if field_name =s "__typename" then (current_type, false)
    else match info with
         | Some info => (info_type_name info, info_is_nested_object info)
         | None => ("Unknown", false)
         end in
  let alias :=
    match output_keys fp with
    | Some keys => nth i keys EmptyString
    | None =>
        if Nat.eqb i (length (path fp) - 1) then leaf_alias fp
        else match info with Some info => graphql_name info | None => to_camel_case field_name end
    end in
  ({| sel_path := cumulative_path; sel_alias := alias; sel_type_name := field_type_name;
      is_nested_object := is_nested; response_path := take (S i) <$> output_keys fp |},
   match output_keys fp with Some keys => take (S i) keys | None => cumulative_path end).

Fixpoint segments (fp : FieldPath) (current_type : string) (cumulative_path rest : list string)
    : list (FieldSelection * list string) :=
  match rest with
  | [] => []
  | field_name :: rest =>
      segment fp current_type cumulative_path field_name
        :: segments fp
             (match get_field_type s current_type field_name with Some info => info_type_name info | None => current_type end)
             (cumulative_path ++ [field_name]) rest
  end.

(** The first selection of each output path. *)
Fixpoint unique_selections (seen : list (list string)) (l : list (FieldSelection * list string)) : list FieldSelection :=
  match l with
  | [] => []
  | (sel, p) :: l => if bool_decide (p ∈ seen) then unique_selections seen l else sel :: unique_selections (p :: seen) l
  end.

Definition build_selection_tree (field_paths : list FieldPath) (parent_type : string) : list FieldSelection :=
  unique_selections [] (flat_map (λ fp, segments fp parent_type [] (path fp)) field_paths).

(** What the Rust pipeline reads of a selection. *)
Record rust_selection := {
  materialized_path : string;
  rust_alias : string;
  rust_type_name : string;
  rust_is_nested_object : bool;
  rust_response_path : option string
}.

Definition rust_field_selections (field_paths : list FieldPath) (parent_type : string) : list rust_selection :=
  map (λ sel, {| materialized_path := Str.join "." (sel_path sel); rust_alias := sel_alias sel; rust_type_name := sel_type_name sel;
                 rust_is_nested_object := is_nested_object sel; rust_response_path := Str.join "." <$> response_path sel |})
    (build_selection_tree field_paths parent_type).
End selection_tree.

(** The name of the object type a field returns. *)
Definition named_object_type (s : schema) (t : type_ref) : option string :=
  if is_object_type s (get_named_type t) then Some (get_named_type t) else None.
