(* ===== verification/MutationSelections.v ===== *)
(** * The selection document of a mutation ([mutations/mutation_decorator.py])

    What a mutation's field selects on its success type and on its error type, merged as
    GraphQL merges fields, with the fields of every possible type of an interface or union:
    the document the Rust pipeline writes the response from. *)
From stdpp Require Import base decidable strings list.
From Stdlib Require Import ZArith Lia.
From S2P Require Import Prelude PyVal Casing Selections.

Local Open Scope py_scope.

(** A field of the document and the selection of its value. *)
Inductive entry := Entry (name alias : string) (selections : option selection_doc)
with selection_doc := Selection (fields : list entry) (type_ : option string) (on_ : option (list (string * list entry))).

Definition entry_name (e : entry) : string := let 'Entry n _ _ := e in n.
Definition entry_alias (e : entry) : string := let 'Entry _ a _ := e in a.
Definition entry_selections (e : entry) : option selection_doc := let 'Entry _ _ s := e in s.

Section mutation.
Context (s : option schema) (fragments : list (string * fragment)) (by_alias : bool).

(** [_concrete_type_name], of the type with a name. *)
Definition _concrete_type_name (t : option string) : option string :=
  match t with
  | Some n => if match s with Some s => is_abstract_type s n | None => false end then None else Some n
  | None => None
  end.

(** [_graphql_named_type], with its types as names. *)
Definition _graphql_named_type (parent_type : option string) (field_name : string) : option string :=
  s ← s; n ← parent_type; t ← dict_get n (type_map s); f ← dict_get field_name (fields t); Some (get_named_type f).

(** The type name of the entity for the Rust pipeline. *)
Definition _request_entity_type (success_type_name entity_field_name : string) (annotated_type : option string) : option string :=
  match s with
  | None => annotated_type
  | Some _ =>
      match _graphql_named_type (Some success_type_name) entity_field_name,
            _graphql_named_type (Some success_type_name) (to_camel_case entity_field_name) with
      | Some t, _ | None, Some t => _concrete_type_name (Some t)
      | None, None => annotated_type
      end
  end.

Definition _fragment_applies (type_condition type_name : option string) : bool :=
  match type_condition, type_name with
  | Some condition, Some type_name =>
      (condition =s type_name)
        || match s with
           | Some s => is_abstract_type s condition && is_object_type s type_name && is_sub_type s condition type_name
           | None => false
           end
  | _, _ => true
  end.

Fixpoint _iter_selected_fields (depth : nat) (type_name : option string) (_expanding : list string) (sels : list selection)
    : result (list field) :=
  match depth with
  | O => raise RecursionError
  | S depth =>
      concat_mapR
        (λ sel,
           match sel with
           | Field f => Ok [f]
           | FragmentSpreadNode n _ =>
               match dict_get n fragments with
               | Some frag =>
                   if negb (n in_ _expanding) && _fragment_applies (Some (type_condition frag)) type_name
                   then _iter_selected_fields depth type_name (n :: _expanding) (fragment_selections frag)
                   else Ok []
               | None => Ok []
               end
           | InlineFragmentNode c _ sels =>
               if _fragment_applies c type_name then _iter_selected_fields depth type_name _expanding sels else Ok []
           end) sels
  end.

(** [None] when no node has a selection. *)
Definition _merged_selection_set (nodes : list field) : option (list selection) :=
  match omap selection_set nodes with [] => None | sets => Some (concat sets) end.

Definition field_key (f : field) : string := if by_alias then response_key f else name f.

(** [groups.setdefault(key, []).append(node)] *)
Definition add_node (groups : list (string * list field)) (f : field) : list (string * list field) :=
  dict_set (field_key f) (default [] (dict_get (field_key f) groups) ++ [f]) groups.

Definition grouped (nodes : list field) : list (string * list field) := foldl add_node [] nodes.

(** [selected] is [_selected_fields] without leaf fields. *)
Definition _selection (selected : option string → option string → list selection → result (list entry))
    (sels : list selection) (field_type : option string) : result selection_doc :=
  let type_name := _concrete_type_name field_type in
  fields ← selected type_name field_type sels;
  match type_name, s, field_type with
  | None, Some s, Some t =>
      if is_abstract_type s t then
        on ← mapR (λ o, entries ← selected (Some o) (Some o) sels; Ok (o, entries)) (get_possible_types s t);
        Ok (Selection fields None (Some on))
      else Ok (Selection fields None None)
  | _, _, _ => Ok (Selection fields type_name None)
  end.

Fixpoint _selected_fields (depth : nat) (leaf_fields : list string) (type_name parent_type : option string)
    (sels : list selection) : result (list entry) :=
  match depth with
  | O => raise RecursionError
  | S depth =>
      nodes ← _iter_selected_fields depth type_name [] sels;
      mapR
        (λ group : string * list field,
           let n := match group.2 with f :: _ => name f | [] => EmptyString end in
           match _merged_selection_set group.2 with
           | Some sub =>
               if n in_ leaf_fields then Ok (Entry n group.1 None)
               else doc ← _selection (_selected_fields depth []) sub (_graphql_named_type parent_type n);
                    Ok (Entry n group.1 (Some doc))
           | None => Ok (Entry n group.1 None)
           end) (grouped nodes)
  end.

(** The document of a mutation: what is selected on its success type and on its error type. *)
Record response_selections := { success : selection_doc; error : selection_doc; typename_selected : bool }.

Definition _response_selections (depth : nat) (field_nodes : list field) (success_type_name error_type_name : string)
    (leaf_fields : list string) : result response_selections :=
  let for_type type_name :=
    fields ← match _merged_selection_set field_nodes with
             | Some sels =>
                 _selected_fields depth leaf_fields (Some type_name)
                   (match s with Some s => if dict_has type_name (type_map s) then Some type_name else None | None => None end) sels
             | None => Ok []
             end;
    Ok (Selection fields (Some type_name) None) in
  success ← for_type success_type_name;
  error ← for_type error_type_name;
  Ok {| success := success; error := error; typename_selected := by_alias |}.
End mutation.
