(* ===== verification/MultiField.v ===== *)
(** * Requests with several root fields ([fastapi/routers.py])

    The route calls each root resolver itself and has Rust merge the results: which fields
    it counts and calls, the values of arguments and directives, the paths it asks Rust to
    keep, and what a resolver that fails does to the others.  Locations of errors, the
    masking of database errors and the search for a resolver's signature are left out; the
    walks end as in [Selections]. *)
From stdpp Require Import base decidable strings list.
From Stdlib Require Import ZArith Lia.
From S2P Require Import Prelude PyVal Casing Selections.

Local Open Scope py_scope.

(** ** Values *)

Section values.
Context (variables : list (string * pyval)).

Definition _evaluate_directive_condition (v : value_node) : bool :=
  match v with
  | BooleanValueNode b => b
  | VariableNode n => match dict_get n variables with Some v => Py.truthy v | None => false end
  | _ => false
  end.

(** The conditions of the directives with a name. *)
Definition conditions (n : string) (ds : list directive) : list bool :=
  flat_map
    (λ d, if directive_name d =s n
          then flat_map (λ a, if a.1 =s "if" then [_evaluate_directive_condition a.2] else []) (directive_arguments d)
          else []) ds.

Definition _should_include_field (ds : list directive) : bool :=
  negb (existsb id (conditions "skip" ds)) && forallb id (conditions "include" ds).

Fixpoint _evaluate_argument_value (v : value_node) : pyval :=
  match v with
  | VariableNode n => match dict_get n variables with Some v => v | None => PNone end
  | IntValueNode z => PInt z
  | FloatValueNode f => PFloat f
  | StringValueNode s | EnumValueNode s => PStr s
  | BooleanValueNode b => PBool b
  | NullValueNode => PNone
  | ListValueNode l => PList (map _evaluate_argument_value l)
  | ObjectValueNode l => PDict (dict_of (map (λ x, (x.1, _evaluate_argument_value x.2)) l))
  end.
End values.

Definition starts_with_dunder (n : string) : bool := Str.starts_with "__" n.

(** ** Root fields *)

(** An operation is passed over when it has another name; one without a name is not. *)
Definition other_name (operation_name : option string) (o : operation) : bool :=
  match operation_name, op_name o with
  | Some n, Some n' => Str.nonempty n && negb (n' =s n)
  | _, _ => false
  end.

Definition is_query (o : operation) : bool := match op_type o with Query => true | _ => false end.

Fixpoint first_query (operation_name : option string) (document : list definition) : option operation :=
  match document with
  | [] => None
  | OperationDefinitionNode o :: l =>
      if is_query o && negb (other_name operation_name o) then Some o else first_query operation_name l
  | _ :: l => first_query operation_name l
  end.

Definition _count_root_query_fields (document : list definition) (operation_name : option string) : nat :=
  match first_query operation_name document with
  | Some o =>
      length (List.filter (λ sel, match sel with Field f => Str.nonempty (name f) && negb (starts_with_dunder (name f)) | _ => false end)
                (op_selections o))
  | None => 0
  end.

(** [_select_query_operation] passes over an operation without a name too. *)
Fixpoint _select_query_operation (document : list definition) (operation_name : option string) : option operation :=
  match document with
  | [] => None
  | OperationDefinitionNode o :: l =>
      let other := match operation_name with
                   | Some n => Str.nonempty n && negb (bool_decide (op_name o = Some n))
                   | None => false
                   end in
      if is_query o && negb other then Some o else _select_query_operation l operation_name
  | _ :: l => _select_query_operation l operation_name
  end.

(** The defaults of every operation with the name, in the order of the document. *)
Definition _extract_variable_defaults (document : list definition) (operation_name : option string) : list (string * pyval) :=
  dict_of
    (flat_map
       (λ d, match d with
             | OperationDefinitionNode o =>
                 if match operation_name with Some n => Str.nonempty n && negb (bool_decide (op_name o = Some n)) | None => false end
                 then []
                 else omap (λ v, match v.2 with Some d => Some (v.1, _evaluate_argument_value [] d) | None => None end)
                        (variable_definitions o)
             | _ => []
             end) document).

(** [{**variable_defaults, **(variables or {})}] *)
Definition merged_variables (document : list definition) (operation_name : option string) (variables : list (string * pyval))
    : list (string * pyval) :=
  dict_of (_extract_variable_defaults document operation_name ++ variables).

Record field_info := {
  info_field_name : string;
  info_response_key : string;
  info_field_node : field;
  info_selections : list (string * option string)
}.

Section document.
Context (document : list definition) (variables : list (string * pyval)).

Abbreviation included := (_should_include_field variables).

Fixpoint fragment_named (n : string) (l : list definition) : option fragment :=
  match l with
  | [] => None
  | FragmentDefinitionNode n' f :: l => if n' =s n then Some f else fragment_named n l
  | _ :: l => fragment_named n l
  end.

Fixpoint extract_field_selections (depth : nat) (visited : list string) (sels : list selection)
    : result (list (string * option string)) :=
  match depth with
  | O => raise RecursionError
  | S depth =>
      concat_mapR
        (λ sel,
           match sel with
           | FragmentSpreadNode n ds =>
               if negb (included ds) then Ok []
               else if n in_ visited then raise ValueError
               else match fragment_named n document with
                    | Some frag => extract_field_selections depth (n :: visited) (fragment_selections frag)
                    | None => Ok []
                    end
           | InlineFragmentNode _ ds sels =>
               if negb (included ds) then Ok [] else extract_field_selections depth [] sels
           | Field f =>
               if starts_with_dunder (name f) || negb (included (directives f)) then Ok [] else Ok [(name f, alias f)]
           end) sels
  end.

Definition root_field (depth : nat) (f : field) : result field_info :=
  selections ← extract_field_selections depth [] (default [] (selection_set f));
  Ok {| info_field_name := name f; info_response_key := response_key f; info_field_node := f; info_selections := selections |}.

(** The fields of a fragment at the root; fragments in it are passed over. *)
Definition fragment_fields (depth : nat) (sels : list selection) : result (list field_info) :=
  mapR (root_field depth) (omap (λ sel, match sel with Field f => if included (directives f) then Some f else None | _ => None end) sels).

Definition _expand_fragment_spread (depth : nat) (n : string) (ds : list directive) : result (list field_info) :=
  match fragment_named n document with
  | None => Ok []
  | Some frag => if included ds then fragment_fields depth (fragment_selections frag) else Ok []
  end.

Definition _expand_inline_fragment (depth : nat) (ds : list directive) (sels : list selection) : result (list field_info) :=
  if included ds then fragment_fields depth sels else Ok [].

(** Only a circular fragment is raised; any other exception leaves no fields. *)
Definition _extract_root_query_fields (depth : nat) (operation_name : option string) : result (list field_info) :=
  match first_query operation_name document with
  | None => Ok []
  | Some o =>
      match
        concat_mapR
          (λ sel,
             match sel with
             | FragmentSpreadNode n ds => _expand_fragment_spread depth n ds
             | InlineFragmentNode _ ds sels => _expand_inline_fragment depth ds sels
             | Field f =>
                 if starts_with_dunder (name f) || negb (included (directives f)) then Ok [] else (λ i, [i]) <$> root_field depth f
             end) (op_selections o)
      with
      | Ok l => Ok l
      | Err ValueError => raise ValueError
      | Err _ => Ok []
      end
  end.

(** ** The paths Rust keeps *)

Record row_selection := {
  row_path : list string;
  row_alias : option string;
  row_response_path : list string;
  row_is_nested_object : bool
}.

(** The selections of the first definition with a name, whatever it defines. *)
Fixpoint definition_named (n : string) (l : list definition) : option (list selection) :=
  match l with
  | [] => None
  | FragmentDefinitionNode n' f :: l => if n' =s n then Some (fragment_selections f) else definition_named n l
  | OperationDefinitionNode o :: l => if bool_decide (op_name o = Some n) then Some (op_selections o) else definition_named n l
  | OtherDefinitionNode n' :: l => if bool_decide (n' = Some n) then Some [] else definition_named n l
  end.

(** Paths are texts joined with points. *)
Fixpoint _build_field_selections_recursive (depth : nat) (parent_path : list string) (visited : list string)
    (parent_response_path : list string) (sels : list selection) : result (list row_selection) :=
  match depth with
  | O => raise RecursionError
  | S depth =>
      concat_mapR
        (λ sel,
           match sel with
           | FragmentSpreadNode n ds =>
               if negb (included ds) || (n in_ visited) then Ok []
               else match definition_named n document with
                    | Some sels => _build_field_selections_recursive depth parent_path (n :: visited) parent_response_path sels
                    | None => Ok []
                    end
           | InlineFragmentNode _ ds sels =>
               if negb (included ds) then Ok []
               else _build_field_selections_recursive depth parent_path visited parent_response_path sels
           | Field f =>
               if (starts_with_dunder (name f) && negb (name f =s "__typename")) || negb (included (directives f)) then Ok []
               else
                 let path := parent_path ++ [name f] in
                 let response_path := parent_response_path ++ [response_key f] in
                 let entry := {| row_path := path; row_alias := alias f; row_response_path := response_path;
                                 row_is_nested_object := is_some (selection_set f) |} in
                 match selection_set f with
                 | Some sub =>
                     below ← _build_field_selections_recursive depth path visited response_path sub;
                     Ok (entry :: below)
                 | None => Ok [entry]
                 end
           end) sels
  end.
End document.

(** ** The route *)

(** What a resolver comes to: a value, the bytes of a response of Rust, or an exception with
    its message and its extensions. *)
Inductive outcome := Returns (v : pyval) | RustBytes (json : pyval) | Fails (message : string) (extensions : pyval).

(** A row for the merge: encoded, or what cannot be. *)
Inductive row := Encoded (v : pyval) | Unencoded.

Definition is_json (v : pyval) : bool :=
  match v with PNone | PDict _ | PList _ | PStr _ | PInt _ | PFloat _ | PBool _ => true | _ => false end.

Definition _encode_field_row (v : pyval) : row := if is_json v then Encoded v else Unencoded.

Record field_data := {
  data_key : string;
  data_type : string;
  data_rows : list row;
  data_selections : option (list row_selection);
  data_is_list : bool
}.

Record error := { error_message : string; error_path : list string; error_extensions : pyval }.

Fixpoint has_list (t : type_ref) : bool :=
  match t with NamedType _ => false | NonNullType t => has_list t | ListType _ => true end.

Section route.
Context (query_type : option (list (string * type_ref))) (document : list definition).
Context (resolver : string → list (string * pyval) → outcome).

(** [{arg.name.value: ... for each argument}] *)
Definition field_args (variables : list (string * pyval)) (f : field) : list (string * pyval) :=
  dict_of (map (λ a, (a.1, _evaluate_argument_value variables a.2)) (arguments f)).

(** Without the class of the value at its end. *)
Definition not_a_list (field_name : string) : (list row) + (string * pyval) :=
  inr (("Resolver for list field '" +:+ field_name +:+ "' did not return a list")%stdpp, PNone).

(** The value a resolver came to, and what its exception is then. *)
Definition rows_of (field_name : string) (is_list : bool) (o : outcome) : (list row) + (string * pyval) :=
  let of_value v :=
    if is_list then match v with PList l => inl (map _encode_field_row l) | _ => not_a_list field_name end
    else inl [_encode_field_row v] in
  match o with
  | Returns v => of_value v
  | RustBytes json =>
      match (match json with PDict j => match dict_get "data" j with Some (PDict d) => dict_get field_name d | _ => None end | _ => None end) with
      | Some v => of_value v
      | None => if is_list then not_a_list field_name else inl [Unencoded]
      end
  | Fails m x => inr (m, x)
  end.

Definition failed (i : field_info) (t : type_ref) (message : string) (extensions : pyval) : field_data * list error :=
  ({| data_key := info_response_key i; data_type := get_named_type t; data_rows := []; data_selections := None;
      data_is_list := has_list t |},
   [{| error_message := message; error_path := [info_response_key i];
       error_extensions := if Py.truthy extensions then extensions else PNone |}]).

(** One root field; only a field the schema does not have stops the request. *)
Definition root_result (depth : nat) (variables : list (string * pyval)) (i : field_info) : result (field_data * list error) :=
  match query_type with
  | None => raise ValueError
  | Some fields =>
      match dict_get (info_field_name i) fields with
      | None => raise ValueError
      | Some t =>
          match rows_of (info_field_name i) (has_list t) (resolver (info_field_name i) (field_args variables (info_field_node i))) with
          | inr (m, x) => Ok (failed i t m x)
          | inl rows =>
              match _build_field_selections_recursive document variables depth [] [] [] (default [] (selection_set (info_field_node i))) with
              | Err _ => Ok (failed i t "maximum recursion depth exceeded" PNone)
              | Ok selections =>
                  Ok ({| data_key := info_response_key i; data_type := get_named_type t; data_rows := rows;
                         data_selections := match selections with [] => None | l => Some l end; data_is_list := has_list t |}, [])
              end
          end
      end
  end.

(** What the route hands to Rust for the merge, and the errors it adds. *)
Definition execute_multi_field_query (depth : nat) (operation_name : option string) (variables : list (string * pyval))
    : result (list field_data * list error) :=
  let variables := merged_variables document operation_name variables in
  fields ← _extract_root_query_fields document variables depth operation_name;
  match fields with
  | [] => raise ValueError
  | _ => results ← mapR (root_result depth variables) fields; Ok (results.*1, concat results.*2)
  end.
End route.
