(* ===== verification/SelectionLaws.v ===== *)
(** * Laws of selections

    What a request asks for is said once, by rules on the document: the fields GraphQL
    collects for an object, and below each of them for the objects its value may be.  The
    flat paths, the document of a mutation and the paths of a request with several root
    fields are compared with it. *)
From stdpp Require Import base decidable strings list.
From Stdlib Require Import ZArith Lia.
From S2P Require Import Prelude PyVal Casing Selections MutationSelections MultiField.

Local Open Scope py_scope.

(** ** Loops that extend a list *)

Lemma concat_mapR_elem {A B} (f : A → result (list B)) (P : A → B → Prop) l :
  (∀ x, x ∈ l → ∃ ys, f x = Ok ys ∧ ∀ y, y ∈ ys ↔ P x y) →
  ∃ ys, concat_mapR f l = Ok ys ∧ ∀ y, y ∈ ys ↔ ∃ x, x ∈ l ∧ P x y.
Proof.
  unfold concat_mapR. induction l as [|x l IH]; intros H.
  - exists []. split; [done|]. intros y. split; [by intros ?%elem_of_nil|by intros (? & ?%elem_of_nil & _)].
  - destruct (H x ltac:(left)) as (ys & Hx & Hy), IH as (zs & Hl & Hz); [intros z Hz; apply H; by right|].
    cbn. rewrite Hx. cbn. destruct (mapR f l) as [ll|]; [|done]. injection Hl as <-.
    exists (ys ++ concat ll). split; [done|]. intros y. rewrite elem_of_app, Hy, Hz. setoid_rewrite elem_of_cons. naive_solver.
Qed.

Lemma mapR_elem {A B} (f : A → result B) (P : A → B → Prop) l :
  (∀ x, x ∈ l → ∃ y, f x = Ok y ∧ P x y) → ∃ ys, mapR f l = Ok ys ∧ Forall2 P l ys.
Proof.
  induction l as [|x l IH]; intros H; [by exists []; split; [|constructor]|].
  destruct (H x ltac:(left)) as (y & Hx & Hy), IH as (ys & Hl & Hys); [intros z Hz; apply H; by right|].
  exists (y :: ys). cbn. rewrite Hx. cbn. rewrite Hl. split; [done|by constructor].
Qed.

Lemma elem_of_concat {A} (ls : list (list A)) x : x ∈ concat ls ↔ ∃ l, l ∈ ls ∧ x ∈ l.
Proof.
  rewrite list_elem_of_In, in_concat. split; intros (l & ? & ?); exists l; (split; [by apply list_elem_of_In|by apply list_elem_of_In]).
Qed.

(** ** Dictionaries *)

Lemma dict_set_NoDup {V} k (v : V) d : NoDup (dict_keys d) → NoDup (dict_keys (dict_set k v d)).
Proof.
  induction d as [|[k' v'] d IH]; cbn; [intros _; apply NoDup_singleton|]. intros [Hn Hd]%NoDup_cons.
  destruct (decide (k = k')) as [<-|Hne]; cbn; apply NoDup_cons; [done|]. split; [|by apply IH].
  intros ([k2 v2] & -> & [[= -> ->]|?]%dict_set_elem)%list_elem_of_fmap; [done|]. apply Hn. apply list_elem_of_fmap. by exists (k2, v2).
Qed.

Lemma dict_get_NoDup {V} k (v : V) d : NoDup (dict_keys d) → dict_get k d = Some v ↔ (k, v) ∈ d.
Proof.
  intros Hd. split; [apply dict_get_elem|]. induction d as [|[k' v'] d IH]; cbn; [by intros ?%elem_of_nil|].
  apply NoDup_cons in Hd as [Hn Hd]. intros [[= -> ->]|Hin]%elem_of_cons; [by rewrite decide_True|].
  rewrite decide_False; [by apply IH|]. intros ->. apply Hn. apply list_elem_of_fmap. by exists (k', v).
Qed.

(** ** What is asked for *)

Section collected.
Context (fragments : string → option fragment).
(** Whether a type condition holds of an object's type, whether directives keep a selection,
    which names are answered, and the types of the objects below a field. *)
Context (applies : option string → option string → Prop) (included : list directive → Prop) (visible : string → Prop).
Context (below_type : option string → string → option string → Prop).

(** The fields collected for an object of a type. *)
Inductive picks (T : option string) : list selection → field → Prop :=
| picks_field sels f :
    Field f ∈ sels → included (directives f) → visible (name f) → picks T sels f
| picks_spread sels n ds frag f :
    FragmentSpreadNode n ds ∈ sels → included ds → fragments n = Some frag →
    applies (Some (type_condition frag)) T → picks T (fragment_selections frag) f → picks T sels f
| picks_inline sels c ds sub f :
    InlineFragmentNode c ds sub ∈ sels → included ds → applies c T → picks T sub f → picks T sels f.

(** The fields at every place of a response: the fields and types on the way there. *)
Inductive collected : option string → list selection → list (field * option string) → field → Prop :=
| collected_here T sels f : picks T sels f → collected T sels [] f
| collected_below T sels f sub T' p g :
    picks T sels f → selection_set f = Some sub → below_type T (name f) T' → collected T' sub p g →
    collected T sels ((f, T') :: p) g.

(** With every fragment written out, the document is at most so deep; every fragment that is
    spread is defined and no selection set is empty. *)
Fixpoint fits (n : nat) (sels : list selection) : bool :=
  match n with
  | O => false
  | S n =>
      bool_decide (sels ≠ [])
        && forallb
             (λ sel,
                match sel with
                | Field f => match selection_set f with Some sub => fits n sub | None => true end
                | FragmentSpreadNode k _ => match fragments k with Some frag => fits n (fragment_selections frag) | None => false end
                | InlineFragmentNode _ _ sub => fits n sub
                end) sels
  end.

Lemma fits_S n sels :
  fits (S n) sels = true ↔
  sels ≠ [] ∧ ∀ sel, sel ∈ sels →
    match sel with
    | Field f => ∀ sub, selection_set f = Some sub → fits n sub = true
    | FragmentSpreadNode k _ => ∃ frag, fragments k = Some frag ∧ fits n (fragment_selections frag) = true
    | InlineFragmentNode _ _ sub => fits n sub = true
    end.
Proof using Type.
  cbn [fits]. rewrite andb_true_iff, bool_decide_eq_true, forallb_forall. apply and_iff_compat_l.
  setoid_rewrite <- list_elem_of_In. apply forall_proper. intros [f|k ds|c ds sub]; apply forall_proper; intros _; [| |done].
  - destruct (selection_set f) as [sub|]; split; [by intros ? ? [= <-]|by auto|done..].
  - destruct (fragments k) as [frag|]; split; [by exists frag|by intros (? & [= <-] & ?)|done|by intros (? & ? & ?)].
Qed.

Lemma fits_deeper n m sels : n ≤ m → fits n sels = true → fits m sels = true.
Proof using Type.
  revert m sels. induction n as [|n IH]; intros m sels Hm; [done|]. destruct m as [|m]; [lia|].
  rewrite !fits_S. intros [Hne H]. split; [done|]. intros sel Hsel. specialize (H sel Hsel).
  destruct sel as [f|k ds|c ds sub].
  - intros sub Hsub. apply (IH m); [lia|auto].
  - destruct H as (frag & ? & ?). exists frag. split; [done|]. apply (IH m); [lia|done].
  - apply (IH m); [lia|done].
Qed.

Lemma fits_app n l1 l2 : fits n l1 = true → fits n l2 = true → fits n (l1 ++ l2) = true.
Proof using Type.
  destruct n as [|n]; [done|]. rewrite !fits_S. intros [H1 Ha] [_ Hb]. split; [by intros [-> _]%app_eq_nil|].
  intros sel [Hsel|Hsel]%elem_of_app; [exact (Ha _ Hsel)|exact (Hb _ Hsel)].
Qed.

Lemma picks_fits T n sels f sub :
  picks T sels f → fits n sels = true → selection_set f = Some sub → ∃ m, m < n ∧ fits m sub = true.
Proof using Type.
  intros Hf. revert n. induction Hf as [sels f Hin|sels k ds frag f Hin _ Hk _ _ IH|sels c ds sub' f Hin _ _ _ IH];
    intros [|n] Hn Hsub; try done; apply fits_S in Hn as [_ Hn]; specialize (Hn _ Hin); cbn in Hn.
  - exists n. split; [lia|auto].
  - destruct Hn as (frag' & Hk' & Hn). replace frag' with frag in Hn by congruence. destruct (IH _ Hn Hsub) as (m & ? & ?). exists m. split; [lia|done].
  - destruct (IH _ Hn Hsub) as (m & ? & ?). exists m. split; [lia|done].
Qed.

(** The smallest depth. *)
Lemma fits_least n sels : fits n sels = true → ∃ m, m ≤ n ∧ fits m sels = true ∧ ∀ k, fits k sels = true → m ≤ k.
Proof using Type.
  induction n as [n IH] using lt_wf_ind. intros Hn. destruct (fits (pred n) sels) eqn:Hp.
  - destruct n as [|n]; [done|]. destruct (IH n ltac:(lia) Hp) as (m & ? & ?). exists m. split; [lia|done].
  - exists n. split; [done|]. split; [done|]. intros k Hk. destruct (decide (n ≤ k)); [done|].
    rewrite (fits_deeper k (pred n) sels ltac:(lia) Hk) in Hp. done.
Qed.

(** *** Several selection sets as one *)

Lemma picks_elem T sels f :
  picks T sels f ↔ ∃ sel, sel ∈ sels ∧ picks T [sel] f.
Proof using Type.
  split.
  - intros Hf. destruct Hf; eexists; (split; [eassumption|]);
      [eapply picks_field|eapply picks_spread|eapply picks_inline]; try eassumption; by left.
  - intros (sel & Hin & Hf). inversion Hf as [? ? H|? ? ? ? ? H|? ? ? ? ? H]; subst; apply list_elem_of_singleton in H as <-;
      [eapply picks_field|eapply picks_spread|eapply picks_inline]; eassumption.
Qed.

Lemma picks_one T sel f :
  picks T [sel] f ↔
  match sel with
  | Field g => f = g ∧ included (directives g) ∧ visible (name g)
  | FragmentSpreadNode k ds =>
      included ds ∧
      ∃ frag, fragments k = Some frag ∧ applies (Some (type_condition frag)) T ∧ picks T (fragment_selections frag) f
  | InlineFragmentNode c ds sub => included ds ∧ applies c T ∧ picks T sub f
  end.
Proof using Type.
  split.
  - intros Hf. remember [sel] as l eqn:Hl. destruct Hf as [l f Hin|l k ds frag f Hin|l c ds sub f Hin]; subst;
      apply list_elem_of_singleton in Hin as <-; [done|by split; [|exists frag]|done].
  - destruct sel as [g|k ds|c ds sub]; [intros (-> & ? & ?)|intros (? & frag & ? & ? & ?)|intros (? & ? & ?)];
      [eapply picks_field|eapply picks_spread|eapply picks_inline]; try eassumption; by left.
Qed.

Lemma picks_concat T sets f : picks T (concat sets) f ↔ ∃ sels, sels ∈ sets ∧ picks T sels f.
Proof using Type.
  rewrite picks_elem. split.
  - intros (sel & (sels & Hsel & Hin)%elem_of_concat & Hf). exists sels. split; [done|]. apply picks_elem. by exists sel.
  - intros (sels & Hin & (sel & ? & ?)%picks_elem). exists sel. split; [|done]. apply elem_of_concat. eauto.
Qed.

Lemma collected_concat T sets p f : collected T (concat sets) p f ↔ ∃ sels, sels ∈ sets ∧ collected T sels p f.
Proof using Type.
  split.
  - intros Hf. remember (concat sets) as l eqn:Hl. destruct Hf as [T l f Hp|T l f sub T' p g Hp ? ? ?]; subst;
      apply picks_concat in Hp as (sels & ? & ?); exists sels; (split; [done|by econstructor]).
  - intros (sels & Hin & Hf). inversion Hf; subst; econstructor; try eassumption; apply picks_concat; eauto.
Qed.

(** What is collected from several selections is collected from one of them. *)
Lemma collected_member T sels q f : collected T sels q f → ∃ sel, sel ∈ sels ∧ collected T [sel] q f.
Proof using Type.
  intros Hf. destruct Hf as [T sels f Hp|T sels f sub T' q g Hp]; apply picks_elem in Hp as (sel & ? & ?); exists sel;
    (split; [done|by econstructor]).
Qed.

(** Every field of the document has a property. *)
Fixpoint all_fields (P : field → Prop) (n : nat) (sels : list selection) : Prop :=
  match n with
  | O => False
  | S n =>
      Forall (λ sel,
        match sel with
        | Field f => P f ∧ match selection_set f with Some sub => all_fields P n sub | None => True end
        | FragmentSpreadNode k _ => match fragments k with Some frag => all_fields P n (fragment_selections frag) | None => True end
        | InlineFragmentNode _ _ sub => all_fields P n sub
        end) sels
  end.

Lemma all_fields_picked (P : field → Prop) n T sels f :
  all_fields P n sels → picks T sels f → P f ∧ ∀ sub, selection_set f = Some sub → ∃ m, all_fields P m sub.
Proof using Type.
  intros Hn Hf. revert n Hn. induction Hf as [sels f Hin|sels k ds frag f Hin _ Hk _ _ IH|sels c ds sub' f Hin _ _ _ IH];
    intros [|n] Hn; try done; cbn in Hn; rewrite Forall_forall in Hn; specialize (Hn _ Hin); cbn in Hn.
  - destruct Hn as [HP Hn]. split; [done|]. intros sub Hsub. rewrite Hsub in Hn. by exists n.
  - rewrite Hk in Hn. by eapply IH.
  - by eapply IH.
Qed.

Lemma all_fields_collected (P : field → Prop) n T sels q f : all_fields P n sels → collected T sels q f → P f.
Proof using Type.
  intros Hn Hf. revert n Hn. induction Hf as [T sels f Hp|T sels f sub T' q g Hp Hsub _ _ IH]; intros n Hn;
    destruct (all_fields_picked P n T sels f Hn Hp) as [HP Hbelow]; [done|]. destruct (Hbelow _ Hsub) as (m & Hm). by apply (IH m).
Qed.
End collected.

(** ** The selection document of a mutation *)

(** What looks at no directive and at no name. *)
Definition keep_all (_ : list directive) : Prop := True.
Definition answer_all (_ : string) : Prop := True.

Section mutation.
Context (s : schema) (fragments : list (string * fragment)).

Abbreviation lookup := (λ n, dict_get n fragments).
Abbreviation named := (_graphql_named_type (Some s)).

(** A type condition holds of an object's type that is it, or that is one of its possible
    types; without a condition, or of an object whose type is not known, it holds. *)
Definition condition_holds (c T : option string) : Prop :=
  match c, T with
  | Some c, Some T => c = T ∨ is_abstract_type s c = true ∧ is_object_type s T = true ∧ T ∈ get_possible_types s c
  | _, _ => True
  end.

Lemma fragment_applies_spec c T : _fragment_applies (Some s) c T = true ↔ condition_holds c T.
Proof using Type.
  unfold _fragment_applies, condition_holds. destruct c as [c|], T as [T|]; [|done..].
  rewrite orb_true_iff, !andb_true_iff. unfold Str.eqb at 1. rewrite bool_decide_eq_true.
  unfold is_sub_type. rewrite str_in_true. tauto.
Qed.

(** The declared type of a field, without its wrappers. *)
Definition field_type (T : option string) (n t : string) : Prop :=
  ∃ parent ty f, T = Some parent ∧ dict_get parent (type_map s) = Some ty ∧ dict_get n (fields ty) = Some f ∧ get_named_type f = t.

Lemma named_field_type T n t : named T n = Some t ↔ field_type T n t.
Proof using Type.
  unfold _graphql_named_type, field_type. cbn. split.
  - destruct T as [parent|]; [|done]. cbn. destruct (dict_get parent (type_map s)) as [ty|] eqn:Hp; [|done]. cbn.
    destruct (dict_get n (fields ty)) as [f|] eqn:Hf; [|done]. intros [= <-]. by exists parent, ty, f.
  - intros (parent & ty & f & -> & Hp & Hf & <-). cbn. rewrite Hp. cbn. by rewrite Hf.
Qed.

(** The types of the objects a field of a type may answer with. *)
Definition possible_type (T : option string) (n : string) (T' : option string) : Prop :=
  ∃ t, field_type T n t ∧
       if is_abstract_type s t then ∃ o, T' = Some o ∧ o ∈ get_possible_types s t else T' = Some t.

Abbreviation picks := (picks lookup condition_holds keep_all answer_all).
Abbreviation collected := (collected lookup condition_holds keep_all answer_all possible_type).
Abbreviation fits := (fits lookup).

(** Which fragments are being written out does not matter. *)
Lemma iter_selected n T expanding sels depth :
  fits n sels = true →
  (∀ x frag m, x ∈ expanding → lookup x = Some frag → fits m (fragment_selections frag) = true → n ≤ m) → n ≤ depth →
  ∃ nodes, _iter_selected_fields (Some s) fragments depth T expanding sels = Ok nodes ∧ ∀ f, f ∈ nodes ↔ picks T sels f.
Proof using Type.
  revert expanding sels depth. induction n as [n IH] using lt_wf_ind. intros expanding sels depth Hn Hexp Hd.
  destruct n as [|n]; [done|]. destruct depth as [|depth]; [lia|]. apply fits_S in Hn as [_ Hn]. cbn [_iter_selected_fields].
  match goal with |- ∃ nodes, concat_mapR ?g _ = _ ∧ _ => destruct (concat_mapR_elem g (λ sel f, picks T [sel] f) sels) as (nodes & -> & Hnodes) end.
  2: { exists nodes. split; [done|]. intros f. by rewrite Hnodes, <- picks_elem. }
  intros sel Hsel. specialize (Hn _ Hsel). destruct sel as [f|k ds|c ds sub].
  - exists [f]. split; [done|]. intros g. rewrite list_elem_of_singleton, picks_one. by split; [|intros [-> _]].
  - destruct Hn as (frag & Hk & Hfit). rewrite Hk.
    assert (k ∉ expanding) as Hne by (intros Hin; specialize (Hexp _ _ _ Hin Hk Hfit); lia).
    rewrite <- str_in_true in Hne. apply not_true_iff_false in Hne. rewrite Hne. cbn [negb andb].
    destruct (fits_least _ _ _ Hfit) as (m & Hm & Hfm & Hleast).
    destruct (_fragment_applies (Some s) (Some (type_condition frag)) T) eqn:Happ.
    + destruct (IH m ltac:(lia) (k :: expanding) (fragment_selections frag) depth Hfm) as (nodes & Hit & Hnodes); [|lia|].
      { intros x frag' m' [->|Hx]%elem_of_cons Hx' Hfm'; [replace frag' with frag in Hfm' by congruence; auto|].
        specialize (Hexp _ _ _ Hx Hx' Hfm'). lia. }
      exists nodes. split; [done|]. intros f. rewrite Hnodes, picks_one. apply fragment_applies_spec in Happ. split; [intros ?; split; [done|exists frag; by split_and!]|].
      intros (_ & frag' & Hk' & _ & ?). by replace frag with frag' by congruence.
    + exists []. split; [done|]. intros f. rewrite picks_one. split; [by intros ?%elem_of_nil|].
      intros (_ & frag' & Hk' & Happ' & _). replace frag' with frag in Happ' by congruence. apply fragment_applies_spec in Happ'. congruence.
  - destruct (_fragment_applies (Some s) c T) eqn:Happ.
    + destruct (IH n ltac:(lia) expanding sub depth Hn) as (nodes & Hit & Hnodes); [|lia|].
      { intros x frag' m' Hx Hx' Hfm'. specialize (Hexp _ _ _ Hx Hx' Hfm'). lia. }
      exists nodes. split; [done|]. intros f. rewrite Hnodes, picks_one. apply fragment_applies_spec in Happ. unfold keep_all. tauto.
    + exists []. split; [done|]. intros f. rewrite picks_one. split; [by intros ?%elem_of_nil|]. intros (_ & Happ'%fragment_applies_spec & _). congruence.
Qed.

(** *** Groups *)

Lemma grouped_app l f : grouped true (l ++ [f]) = add_node true (grouped true l) f.
Proof using Type. unfold grouped. by rewrite foldl_app. Qed.

Lemma grouped_lookup l k :
  dict_get k (grouped true l) = match filter (λ f, response_key f = k) l with [] => None | nodes => Some nodes end.
Proof using Type.
  induction l as [|f l IH] using rev_ind; [done|]. rewrite grouped_app, filter_app. unfold add_node, field_key.
  destruct (decide (response_key f = k)) as [<-|Hne].
  - rewrite dict_get_set_eq, IH, filter_cons_True by done. cbn. by destruct (filter _ l).
  - rewrite dict_get_set_ne, IH, filter_cons_False by done. cbn. by rewrite app_nil_r.
Qed.

Lemma grouped_keys l : NoDup (dict_keys (grouped true l)).
Proof using Type.
  induction l as [|f l IH] using rev_ind; [constructor|]. rewrite grouped_app. by apply dict_set_NoDup.
Qed.

Lemma grouped_elem l k nodes :
  (k, nodes) ∈ grouped true l ↔ nodes ≠ [] ∧ nodes = filter (λ f, response_key f = k) l.
Proof using Type.
  rewrite <- (dict_get_NoDup _ _ _ (grouped_keys l)), grouped_lookup.
  destruct (filter _ l) eqn:Hf; naive_solver.
Qed.

(** *** What a document offers *)

(** The keys and types on the way. *)
Definition steps (q : list (field * option string)) : list (string * option string) := map (λ x, (response_key x.1, x.2)) q.

(** GraphQL admits no two fields with one key at one place but for the same field. *)
Definition mergeable (T : option string) (sels : list selection) : Prop :=
  ∀ q q' f f', collected T sels q f → collected T sels q' f' → steps q = steps q' → response_key f = response_key f' → name f = name f'.

(** The fields of a value, by the type of the object it is. *)
Definition answers_for (d : selection_doc) (T : option string) : option (list entry) :=
  let 'Selection fields type_ on_ := d in
  match T with
  | Some t => match type_ with Some t' => if t =s t' then Some fields else None | None => on ← on_; dict_get t on end
  | None => None
  end.

(** A field with a name answers under a key at a place. *)
Fixpoint offers (entries : list entry) (p : list (string * option string)) (k n : string) : Prop :=
  match p with
  | [] => ∃ e, e ∈ entries ∧ entry_alias e = k ∧ entry_name e = n
  | (k1, T1) :: p =>
      ∃ e d es, e ∈ entries ∧ entry_alias e = k1 ∧ entry_selections e = Some d ∧ answers_for d T1 = Some es ∧ offers es p k n
  end.

Definition right (T : option string) (sels : list selection) (entries : list entry) : Prop :=
  NoDup (map entry_alias entries) ∧
  (mergeable T sels →
   ∀ p k n, offers entries p k n ↔ ∃ q f, collected T sels q f ∧ steps q = p ∧ response_key f = k ∧ name f = n).

(** The fields of an object are looked up in its own type. *)
Definition agree (T parent : option string) : Prop := ∀ f, named parent f = named T f.

Definition may_be (t T' : option string) : Prop :=
  ∃ n, t = Some n ∧ if is_abstract_type s n then ∃ o, T' = Some o ∧ o ∈ get_possible_types s n else T' = Some n.

Lemma selection_correct selected sub t :
  (∀ T parent, ∃ es, selected T parent sub = Ok es ∧ (agree T parent → right T sub es)) →
  ∃ doc, _selection (Some s) selected sub t = Ok doc ∧
         (∀ T', may_be t T' ↔ ∃ es, answers_for doc T' = Some es) ∧
         (∀ T' es, answers_for doc T' = Some es → right T' sub es).
Proof using Type.
  intros Hsel. unfold _selection. destruct (Hsel (_concrete_type_name (Some s) t) t) as (fs & -> & Hfs). cbn.
  destruct t as [n|]; cbn in *.
  - destruct (is_abstract_type s n) eqn:Habs.
    + destruct (mapR_elem (λ o, entries ← selected (Some o) (Some o) sub; Ok (o, entries))
                  (λ o x, x.1 = o ∧ right (Some o) sub x.2) (get_possible_types s n)) as (on & -> & Hon).
      { intros o _. destruct (Hsel (Some o) (Some o)) as (es & -> & Hes). cbn. eexists. split; [done|]. split; [done|by apply Hes]. }
      cbn. eexists. split; [done|].
      assert (Hget : ∀ o es, dict_get o on = Some es → o ∈ get_possible_types s n ∧ right (Some o) sub es).
      { intros o es (i & Hi)%dict_get_elem%list_elem_of_lookup. destruct (Forall2_lookup_r _ _ _ _ _ Hon Hi) as (o' & Ho & <- & ?).
        split; [by eapply list_elem_of_lookup_2|done]. }
      assert (Hkeys : dict_keys on = get_possible_types s n).
      { unfold dict_keys. clear -Hon. induction Hon as [|o x l l' [? _] _ IH]; cbn; congruence. }
      split.
      * intros T'. unfold may_be, answers_for. split.
        -- intros (n' & [= <-] & H). rewrite Habs in H. destruct H as (o & -> & Ho). cbn.
           rewrite <- Hkeys in Ho. apply dict_has_In in Ho. unfold dict_has in Ho. destruct (dict_get o on) as [es|]; [by exists es|done].
        -- intros (es & H). destruct T' as [o|]; [|done]. cbn in H. destruct (Hget _ _ H). exists n. rewrite Habs. split; [done|by exists o].
      * intros T' es. unfold answers_for. destruct T' as [o|]; [|done]. cbn. intros H. by destruct (Hget _ _ H).
    + eexists. split; [done|]. split.
      * intros T'. unfold may_be, answers_for. split.
        -- intros (n' & [= <-] & H). rewrite Habs in H. subst. exists fs. unfold Str.eqb. by rewrite bool_decide_true.
        -- intros (es & H). destruct T' as [o|]; [|done]. destruct (o =s n) eqn:Ho; [|done]. apply bool_decide_eq_true in Ho as ->.
           exists n. by rewrite Habs.
      * intros T' es. unfold answers_for. destruct T' as [o|]; [|done]. destruct (o =s n) eqn:Ho; [|done]. apply bool_decide_eq_true in Ho as ->.
        intros [= <-]. by apply Hfs.
  - eexists. split; [done|]. split; [|by intros [?|] ?]. intros T'. split; [by intros (? & ? & _)|]. by intros (? & ?); destruct T'.
Qed.

Lemma possible_may_be T n T' : possible_type T n T' ↔ may_be (named T n) T'.
Proof using Type. unfold possible_type, may_be. by setoid_rewrite named_field_type. Qed.

Lemma omap_sets_elem (nodes : list field) sub : sub ∈ omap selection_set nodes ↔ ∃ g, g ∈ nodes ∧ selection_set g = Some sub.
Proof using Type. apply list_elem_of_omap. Qed.

Lemma concat_fits n (sets : list (list selection)) :
  sets ≠ [] → (∀ sub, sub ∈ sets → fits n sub = true) → fits n (concat sets) = true.
Proof using Type.
  induction sets as [|x sets IH]; [done|]. intros _ H. cbn. destruct sets as [|y sets]; [rewrite app_nil_r; apply H; by left|].
  apply fits_app; [apply H; by left|]. apply IH; [done|]. intros sub Hsub. apply H. by right.
Qed.

(** What the loop makes of a group. *)
Definition group_entry (T : option string) (g : string * list field) (e : entry) : Prop :=
  entry_alias e = g.1 ∧ (∃ f, f ∈ g.2 ∧ entry_name e = name f) ∧
  match omap selection_set g.2 with
  | [] => entry_selections e = None
  | sets =>
      ∃ doc, entry_selections e = Some doc ∧
             (∀ T', may_be (named T (entry_name e)) T' ↔ ∃ es, answers_for doc T' = Some es) ∧
             (∀ T' es, answers_for doc T' = Some es → right T' (concat sets) es)
  end.

Lemma groups_right T sels nodes entries :
  (∀ f, f ∈ nodes ↔ picks T sels f) → Forall2 (group_entry T) (grouped true nodes) entries → right T sels entries.
Proof using Type.
  intros Hnodes Hall.
  assert (Hin : ∀ e, e ∈ entries → ∃ g, g ∈ grouped true nodes ∧ group_entry T g e).
  { intros e (i & Hi)%list_elem_of_lookup. destruct (Forall2_lookup_r _ _ _ _ _ Hall Hi) as (g & Hg & ?).
    exists g. split; [by eapply list_elem_of_lookup_2|done]. }
  assert (Hout : ∀ f, picks T sels f → ∃ e, e ∈ entries ∧ group_entry T (response_key f, filter (λ h, response_key h = response_key f) nodes) e).
  { intros f Hf. assert ((response_key f, filter (λ h, response_key h = response_key f) nodes) ∈ grouped true nodes) as (i & Hi)%list_elem_of_lookup.
    { apply grouped_elem. split; [|done]. intros Hnil. assert (f ∈ filter (λ h, response_key h = response_key f) nodes) as Hff.
      { apply list_elem_of_filter. split; [done|by apply Hnodes]. }
      rewrite Hnil in Hff. by apply elem_of_nil in Hff. }
    destruct (Forall2_lookup_l _ _ _ _ _ Hall Hi) as (e & He & ?). exists e. split; [by eapply list_elem_of_lookup_2|done]. }
  assert (Hgroup : ∀ e, e ∈ entries → ∃ l, group_entry T (entry_alias e, l) e ∧ ∀ f, f ∈ l ↔ picks T sels f ∧ response_key f = entry_alias e).
  { intros e He. destruct (Hin e He) as ([k l] & Hg%grouped_elem & Hentry). pose proof Hentry as [Hk _]. cbn in Hk. subst k.
    exists l. split; [done|]. destruct Hg as [_ ->]. intros f. rewrite list_elem_of_filter, Hnodes. tauto. }
  split.
  - assert (map entry_alias entries = dict_keys (grouped true nodes)) as ->; [|apply grouped_keys].
    unfold dict_keys. clear -Hall. induction Hall as [|g e l l' (H & _) _ IH]; cbn; congruence.
  - intros Hmerge p k n. destruct p as [|[k1 T1] p]; cbn [offers].
    + split.
      * intros (e & He & Hk & Hn). destruct (Hgroup e He) as (l & (_ & (f & Hf & Hname) & _) & Hl). apply Hl in Hf as [Hf Hkey].
        exists [], f. split; [by apply collected_here|]. split; [done|]. split; congruence.
      * intros (q & f & Hf & Hq & Hk & Hn). destruct q; [|done]. inversion Hf as [? ? ? Hp|]; subst.
        destruct (Hout f Hp) as (e & He & Hka & (g & (Hkg & Hg)%list_elem_of_filter & Hng) & _). exists e. split; [done|]. split; [done|].
        rewrite Hng. apply (Hmerge [] [] g f); try done; apply collected_here; try done; by apply Hnodes.
    + assert (Hdown : ∀ e l T' es doc, e ∈ entries → group_entry T (entry_alias e, l) e → (∀ f, f ∈ l ↔ picks T sels f ∧ response_key f = entry_alias e) →
          entry_selections e = Some doc → answers_for doc T' = Some es →
          ∀ q f, collected T' (concat (omap selection_set l)) q f → ∃ g, collected T sels ((g, T') :: q) f ∧ response_key g = entry_alias e).
      { intros e l T' es doc He (_ & (f0 & Hf0 & Hname) & Hsets) Hl Hdoc Hes q f (sub & (g & Hg & Hsub)%omap_sets_elem & Hf)%collected_concat.
        cbn [fst snd] in *. destruct (omap selection_set l) as [|x sets]; [congruence|]. destruct Hsets as (doc' & Hdoc' & Hmay & _).
        replace doc' with doc in Hmay by congruence. apply Hl in Hf0 as [Hf0 Hk0]. apply Hl in Hg as [Hg Hkg].
        exists g. split; [|done]. eapply collected_below; [done|done| |done]. apply possible_may_be.
        replace (name g) with (entry_name e); [by apply Hmay; exists es|].
        rewrite Hname. apply (Hmerge [] [] f0 g); try (by apply collected_here); congruence. }
      split.
      * intros (e & doc & es & He & Hk & Hdoc & Hes & Hoff). destruct (Hgroup e He) as (l & Hentry & Hl).
        pose proof Hentry as (_ & _ & Hsets). cbn [fst snd] in Hsets. specialize (Hdown e l T1 es doc He Hentry Hl Hdoc Hes).
        destruct (omap selection_set l) as [|x sets] eqn:Hom; [congruence|]. destruct Hsets as (doc' & Hdoc' & Hmay & Hright).
        replace doc' with doc in Hright by congruence. destruct (Hright T1 es Hes) as [_ Hoffers].
        rewrite Hoffers in Hoff.
        -- destruct Hoff as (q & f & Hf & <- & Hkf & Hnf). destruct (Hdown q f Hf) as (g & Hg & Hkg). exists ((g, T1) :: q), f.
           split; [done|]. split; [|done]. unfold steps. cbn. congruence.
        -- intros q q' f f' Hf Hf' Hst Hkey. destruct (Hdown q f Hf) as (g & Hg & Hkg), (Hdown q' f' Hf') as (g' & Hg' & Hkg').
           apply (Hmerge _ _ _ _ Hg Hg'); [|done]. unfold steps in *. cbn. congruence.
      * intros (q & f & Hf & Hq & Hkf & Hnf). destruct q as [|[g T'] q]; [done|]. cbn in Hq. injection Hq as Hkg <- Hq.
        inversion Hf as [|? ? ? sub ? ? ? Hg Hsub Hposs Hbelow]; subst. destruct (Hout g Hg) as (e & He & Hentry).
        pose proof Hentry as (Halias & (f0 & (Hk0 & Hf0)%list_elem_of_filter & Hname) & Hsets). cbn [fst snd] in *.
        assert (sub ∈ omap selection_set (filter (λ h, response_key h = response_key g) nodes)) as Hsets_in.
        { apply omap_sets_elem. exists g. split; [|done]. apply list_elem_of_filter. split; [done|by apply Hnodes]. }
        destruct (omap selection_set _) as [|x sets] eqn:Hom; [by apply elem_of_nil in Hsets_in|]. destruct Hsets as (doc & Hdoc & Hmay & Hright).
        assert (name f0 = name g) as Hng.
        { apply (Hmerge [] [] f0 g); try done; apply collected_here; try done; by apply Hnodes. }
        rewrite Hname, Hng in Hmay. destruct (proj1 (Hmay T') (proj1 (possible_may_be _ _ _) Hposs)) as (es & Hes). exists e, doc, es.
        split; [done|]. split; [done|]. split; [done|]. split; [done|]. destruct (Hright T' es Hes) as [_ Hoffers]. apply Hoffers.
        -- rewrite <- Hom. rewrite <- Halias in *. intros q1 q2 f1 f2 H1 H2 Hst Hkey.
           assert (Hl : ∀ h, h ∈ filter (λ h, response_key h = entry_alias e) nodes ↔ picks T sels h ∧ response_key h = entry_alias e).
           { intros h. rewrite list_elem_of_filter, Hnodes. tauto. }
           destruct (Hdown _ _ _ _ _ He Hentry Hl Hdoc Hes q1 f1 H1) as (g1 & Hg1 & Hkg1),
             (Hdown _ _ _ _ _ He Hentry Hl Hdoc Hes q2 f2 H2) as (g2 & Hg2 & Hkg2).
           apply (Hmerge _ _ _ _ Hg1 Hg2); [|done]. unfold steps in *. cbn. congruence.
        -- exists q, f. split; [|done]. apply collected_concat. by exists sub.
Qed.

Lemma selected_right n T parent sels depth :
  fits n sels = true → S n ≤ depth →
  ∃ entries, _selected_fields (Some s) fragments true depth [] T parent sels = Ok entries ∧ (agree T parent → right T sels entries).
Proof using Type.
  revert T parent sels depth. induction n as [n IH] using lt_wf_ind. intros T parent sels depth Hn Hd.
  destruct depth as [|depth]; [lia|]. cbn [_selected_fields].
  destruct (iter_selected n T [] sels depth Hn) as (nodes & -> & Hnodes); [by intros ? ? ? ?%elem_of_nil|lia|]. cbn [mbind result_bind].
  match goal with |- ∃ entries, mapR ?g _ = _ ∧ _ =>
    destruct (mapR_elem g (λ gr e, agree T parent → group_entry T gr e) (grouped true nodes)) as (entries & -> & Hall) end.
  - intros [k l] [Hne Hl]%grouped_elem. destruct l as [|f0 l]; [done|].
    assert (Hpick : ∀ f, f ∈ f0 :: l → picks T sels f) by (intros f Hf; rewrite Hl in Hf; apply list_elem_of_filter in Hf as [_ ?]; by apply Hnodes).
    cbn [fst snd]. unfold _merged_selection_set, group_entry. cbn [fst snd].
    destruct (omap selection_set (f0 :: l)) as [|sub0 subs] eqn:Hom.
    + eexists. split; [done|]. intros _. split; [done|]. split; [|done]. exists f0. split; [by left|done].
    + assert (str_in (name f0) [] = false) as -> by apply bool_decide_eq_false_2, not_elem_of_nil.
      destruct (selection_correct (_selected_fields (Some s) fragments true depth []) (concat (sub0 :: subs)) (named parent (name f0))) as (doc & -> & Hmay & Hright).
      { intros T' parent'. assert (fits (pred n) (concat (sub0 :: subs)) = true) as Hfit.
        { apply concat_fits; [done|]. intros sub Hsub. rewrite <- Hom in Hsub. apply omap_sets_elem in Hsub as (g & Hg & Hsub).
          destruct (picks_fits _ _ _ _ _ _ _ _ _ (Hpick g Hg) Hn Hsub) as (m & Hm & Hfm). by apply (fits_deeper _ m); [lia|]. }
        apply (IH (pred n)); [|done|]; destruct n; try done; lia. }
      cbn. eexists. split; [done|]. intros Hagree. split; [done|]. split; [exists f0; split; [by left|done]|].
      exists doc. split; [done|]. split; [|done]. rewrite (Hagree (name f0)) in Hmay. exact Hmay.
  - exists entries. split; [done|]. intros Hagree. eapply groups_right; [done|].
    eapply Forall2_impl; [exact Hall|]. cbn. auto.
Qed.

End mutation.

(** ** The flat paths of a query *)

Definition all_apply (_ _ : option string) : Prop := True.
Definition untyped (_ : option string) (_ : string) (T' : option string) : Prop := T' = None.

Section flat.
Context (fragments : list (string * fragment)) (transform_path : option (string → string)).

Abbreviation lookup := (λ n, dict_get n fragments).
Abbreviation picks := (picks lookup all_apply keep_all answer_all None).
Abbreviation collected := (collected lookup all_apply keep_all answer_all untyped None).
Abbreviation fits := (fits lookup).

Lemma resolve_picks n sels depth :
  fits n sels = true → n ≤ depth →
  ∃ nodes, concat_mapR (resolve fragments depth None) sels = Ok nodes ∧ ∀ f, f ∈ nodes ↔ picks sels f.
Proof using Type.
  revert sels depth. induction n as [n IH] using lt_wf_ind. intros sels depth Hn Hd.
  destruct n as [|n]; [done|]. destruct depth as [|depth]; [lia|]. apply fits_S in Hn as [_ Hn].
  destruct (concat_mapR_elem (resolve fragments (S depth) None) (λ sel f, picks [sel] f) sels) as (nodes & -> & Hnodes).
  2: { exists nodes. split; [done|]. intros f. by rewrite Hnodes, <- picks_elem. }
  intros sel Hsel. specialize (Hn _ Hsel). destruct sel as [f|k ds|c ds sub]; cbn [resolve].
  - exists [f]. split; [done|]. intros g. rewrite list_elem_of_singleton, picks_one. by split; [|intros [-> _]].
  - destruct Hn as (frag & Hk & Hfit). rewrite Hk. destruct (IH n ltac:(lia) _ depth Hfit ltac:(lia)) as (nodes & -> & Hnodes).
    exists nodes. split; [done|]. intros f. rewrite Hnodes, picks_one. split; [intros ?; split; [done|by exists frag]|].
    intros (_ & frag' & Hk' & _ & ?). by replace frag with frag' by congruence.
  - destruct (IH n ltac:(lia) _ depth Hn ltac:(lia)) as (nodes & -> & Hnodes). exists nodes. split; [done|].
    intros f. rewrite Hnodes, picks_one. naive_solver.
Qed.

Lemma unseen_elem seen l f : f ∈ unseen seen l → f ∈ l ∧ response_key f ∉ seen.
Proof using Type.
  revert seen. induction l as [|g l IH]; intros seen; cbn; [by intros ?%elem_of_nil|].
  destruct (response_key g in_ seen) eqn:Hg.
  - intros [? ?]%IH. split; [by right|done].
  - intros [->|[? Hn]%IH]%elem_of_cons; [split; [by left|]|split; [by right|]].
    + by rewrite <- str_in_true, Hg.
    + intros ?. apply Hn. by right.
Qed.

Lemma unseen_keys seen l k : k ∈ map response_key l → k ∉ seen → k ∈ map response_key (unseen seen l).
Proof using Type.
  revert seen. induction l as [|g l IH]; intros seen; cbn; [by intros ?%elem_of_nil|].
  intros [->|Hin]%elem_of_cons Hk; destruct (response_key g in_ seen) eqn:Hg.
  - by apply str_in_true in Hg.
  - by left.
  - auto.
  - destruct (decide (k = response_key g)) as [->|Hne]; [by left|]. right. apply IH; [done|]. by intros [?|?]%elem_of_cons.
Qed.

(** ** Paths and what is selected *)

Definition keys_of (q : list (field * option string)) : list string := map (λ x, response_key x.1) q.
Definition names_of (q : list (field * option string)) : list string := map (λ x, name x.1) q.

(** Fields with one key at one place are the same field with the same fields below. *)
Definition repeated_alike (sels : list selection) : Prop :=
  ∀ q q' f f', collected sels q f → collected sels q' f' → keys_of q = keys_of q' → response_key f = response_key f' →
    name f = name f' ∧ selection_set f = selection_set f'.

(** The flat path of a field, below the given ones. *)
Definition flat_path (path names keys : list string) (q : list (field * option string)) (f : field) : FieldPath :=
  {| leaf_alias := response_key f;
     path := path ++ map (transformed transform_path) (names_of q ++ [name f]);
     names := Some (names ++ names_of q ++ [name f]);
     response_keys := Some (keys ++ keys_of q ++ [response_key f]) |}.

Lemma alike_below sels g sub : repeated_alike sels → picks sels g → selection_set g = Some sub → repeated_alike sub.
Proof using Type.
  intros Ha Hg Hsub q q' f f' Hf Hf' Hk Hkey. apply (Ha ((g, None) :: q) ((g, None) :: q')); [..|done];
    try (eapply collected_below; by eauto). unfold keys_of in *. cbn. congruence.
Qed.

Lemma alike_picks sels g g' :
  repeated_alike sels → picks sels g → picks sels g' → response_key g = response_key g' →
  name g = name g' ∧ selection_set g = selection_set g'.
Proof using Type. intros Ha Hg Hg' Hk. apply (Ha [] []); try done; by apply collected_here. Qed.

Lemma flat_path_here path names keys f :
  flat_path path names keys [] f =
  {| leaf_alias := response_key f; path := path ++ [transformed transform_path (name f)];
     names := Some (names ++ [name f]); response_keys := Some (keys ++ [response_key f]) |}.
Proof using Type. done. Qed.

Lemma flat_path_below path names keys g T q f :
  flat_path path names keys ((g, T) :: q) f =
  flat_path (path ++ [transformed transform_path (name g)]) (names ++ [name g]) (keys ++ [response_key g]) q f.
Proof using Type. unfold flat_path, names_of, keys_of. cbn. by rewrite <- !app_assoc. Qed.

Lemma flat_path_same path names keys g g' T q f :
  name g = name g' → response_key g = response_key g' →
  flat_path path names keys ((g, T) :: q) f = flat_path path names keys ((g', T) :: q) f.
Proof using Type. intros Hn Hk. rewrite !flat_path_below. congruence. Qed.

Lemma flat_paths_collected n sels depth path names keys :
  fits n sels = true → n < depth → repeated_alike sels →
  ∃ fps, extract_flat_paths fragments transform_path depth sels path names keys = Ok fps ∧
         ∀ fp, fp ∈ fps ↔ ∃ q f, collected sels q f ∧ selection_set f = None ∧ fp = flat_path path names keys q f.
Proof using Type.
  revert sels depth path names keys. induction n as [n IH] using lt_wf_ind. intros sels depth path names keys Hn Hd Ha.
  destruct depth as [|depth]; [lia|]. cbn [extract_flat_paths]. unfold resolve_all_fields.
  destruct (resolve_picks n sels depth Hn ltac:(lia)) as (nodes & -> & Hnodes). cbn [fmap result_fmap mbind result_bind].
  assert (Hin : ∀ f, f ∈ deduplicate_fields nodes → picks sels f) by (intros f [? _]%unseen_elem; by apply Hnodes).
  assert (Hrep : ∀ f, picks sels f → ∃ g, g ∈ deduplicate_fields nodes ∧ response_key f = response_key g ∧ name f = name g ∧ selection_set f = selection_set g).
  { intros f Hf. assert (response_key f ∈ map response_key (deduplicate_fields nodes)) as (g & Hk & Hg)%list_elem_of_fmap.
    { apply unseen_keys; [|by apply not_elem_of_nil]. apply list_elem_of_fmap. exists f. split; [done|by apply Hnodes]. }
    exists g. split; [done|]. split; [done|]. apply (alike_picks sels); auto. }
  match goal with |- ∃ fps, concat_mapR ?h _ = _ ∧ _ =>
    destruct (concat_mapR_elem h
      (λ g fp, match selection_set g with
               | Some sub => ∃ q f, collected sub q f ∧ selection_set f = None ∧ fp = flat_path path names keys ((g, None) :: q) f
               | None => fp = flat_path path names keys [] g
               end) (deduplicate_fields nodes)) as (fps & -> & Hfps) end.
  - intros g Hg. apply Hin in Hg. destruct (selection_set g) as [sub|] eqn:Hsub.
    + destruct (picks_fits _ _ _ _ _ _ _ _ _ Hg Hn Hsub) as (m & Hm & Hfm).
      destruct (IH m Hm sub depth (path ++ [transformed transform_path (name g)]) (names ++ [name g]) (keys ++ [response_key g]) Hfm ltac:(lia)
                  (alike_below _ _ _ Ha Hg Hsub)) as (fps & -> & Hfps).
      exists fps. split; [done|]. intros fp. rewrite Hfps. by setoid_rewrite flat_path_below.
    + eexists. split; [done|]. intros fp. by rewrite list_elem_of_singleton, flat_path_here.
  - exists fps. split; [done|]. intros fp. rewrite Hfps. split.
    + intros (g & Hg & Hfp). apply Hin in Hg. destruct (selection_set g) as [sub|] eqn:Hsub.
      * destruct Hfp as (q & f & Hf & Hleaf & ->). exists ((g, None) :: q), f. split; [|done]. by eapply collected_below.
      * exists [], g. split; [by apply collected_here|done].
    + intros (q & f & Hf & Hleaf & ->). inversion Hf as [? ? ? Hp|? ? g sub T' q' ? Hp Hsub HT Hbelow]; subst;
        destruct (Hrep _ Hp) as (g' & Hg' & Hk & Hna & Hset); exists g'; (split; [done|]).
      * rewrite <- Hset, Hleaf, !flat_path_here. congruence.
      * rewrite <- Hset, Hsub. unfold untyped in HT. subst T'. exists q', f. split; [done|]. split; [done|]. by apply flat_path_same.
Qed.

(** *** Every place leads to a leaf *)

Lemma fits_picks n sels : fits n sels = true → ∃ f, picks sels f.
Proof using Type.
  revert sels. induction n as [n IH] using lt_wf_ind. intros sels Hn. destruct n as [|n]; [done|].
  apply fits_S in Hn as [Hne Hn]. destruct sels as [|sel sels]; [done|]. specialize (Hn sel ltac:(by left)).
  destruct sel as [f|k ds|c ds sub].
  - exists f. apply picks_field; [by left|done..].
  - destruct Hn as (frag & Hk & Hfit). destruct (IH n ltac:(lia) _ Hfit) as (f & Hf). exists f. eapply picks_spread; [by left|done..].
  - destruct (IH n ltac:(lia) _ Hn) as (f & Hf). exists f. eapply picks_inline; [by left|done..].
Qed.

Lemma fits_leaf n sels : fits n sels = true → ∃ q f, collected sels q f ∧ selection_set f = None.
Proof using Type.
  revert sels. induction n as [n IH] using lt_wf_ind. intros sels Hn. destruct (fits_picks _ _ Hn) as (g & Hg).
  destruct (selection_set g) as [sub|] eqn:Hsub; [|exists [], g; split; [by apply collected_here|done]].
  destruct (picks_fits _ _ _ _ _ _ _ _ _ Hg Hn Hsub) as (m & Hm & Hfm). destruct (IH m Hm _ Hfm) as (q & f & Hf & Hleaf).
  exists ((g, None) :: q), f. split; [by eapply collected_below|done].
Qed.

Lemma leaf_below n sels q f :
  fits n sels = true → collected sels q f →
  ∃ r g, collected sels (q ++ r) g ∧ selection_set g = None ∧ (r = [] ∧ g = f ∨ ∃ r', r = (f, None) :: r').
Proof using Type.
  intros Hn Hf. revert n Hn. induction q as [|[h T] q IH] in sels, Hf |- *; intros n Hn.
  - inversion Hf as [? ? ? Hp|]; subst. destruct (selection_set f) as [sub|] eqn:Hsub; [|exists [], f; auto].
    destruct (picks_fits _ _ _ _ _ _ _ _ _ Hp Hn Hsub) as (m & Hm & Hfm). destruct (fits_leaf _ _ Hfm) as (r & g & Hg & Hleaf).
    exists ((f, None) :: r), g. split; [by eapply collected_below|]. eauto.
  - inversion Hf as [|? ? ? sub ? ? ? Hp Hsub HT Hbelow]; subst. unfold untyped in HT. subst.
    destruct (picks_fits _ _ _ _ _ _ _ _ _ Hp Hn Hsub) as (m & Hm & Hfm).
    destruct (IH _ Hbelow _ Hfm) as (r & g & Hg & Hleaf & Hr). exists r, g. split; [|done]. by eapply collected_below.
Qed.

Lemma collected_prefix sels q g T r f : collected sels (q ++ (g, T) :: r) f → collected sels q g.
Proof using Type.
  revert sels. induction q as [|[h T'] q IH]; intros sels Hf; inversion Hf; subst; [by apply collected_here|].
  unfold untyped in *. subst. by eapply collected_below; eauto.
Qed.

Lemma alike_names sels q q' f f' :
  repeated_alike sels → collected sels q f → collected sels q' f' → keys_of q ++ [response_key f] = keys_of q' ++ [response_key f'] →
  names_of q ++ [name f] = names_of q' ++ [name f'].
Proof using Type.
  intros Ha Hf Hf' [Hk Hkey]%app_inj_tail. assert (name f = name f') as -> by (by eapply Ha). f_equal.
  revert sels q' Ha Hf Hf' Hk. induction q as [|[g T] q IH]; intros sels [|[g' T'] q'] Ha Hf Hf' Hk; try done.
  injection Hk as Hg Hk. inversion Hf as [|? ? ? sub ? ? ? Hp Hsub HT Hbelow]; subst.
  inversion Hf' as [|? ? ? sub' ? ? ? Hp' Hsub' HT' Hbelow']; subst. unfold untyped in *. subst.
  destruct (alike_picks _ _ _ Ha Hp Hp' Hg) as [Hna Hset]. replace sub' with sub in Hbelow' by congruence.
  cbn. f_equal; [done|]. apply (IH sub); try done. by eapply (alike_below sels g).
Qed.

(** *** The selection of a row *)

Lemma segments_elem sc by_alias fp keys current cum rest x :
  output_keys by_alias fp = Some keys → path fp = cum ++ rest → x ∈ segments sc by_alias fp current cum rest →
  ∃ i, i < length (path fp) ∧ x.2 = take (S i) keys ∧ sel_path x.1 = take (S i) (path fp) ∧
       response_path x.1 = Some (take (S i) keys) ∧ sel_alias x.1 = nth i keys EmptyString.
Proof using Type.
  intros Hk. revert current cum. induction rest as [|n rest IH]; intros current cum Hp; cbn; [by intros ?%elem_of_nil|].
  intros [->|Hx]%elem_of_cons.
  - exists (length cum). unfold segment. rewrite Hk, Hp.
    assert (take (S (length cum)) (cum ++ n :: rest) = cum ++ [n]) as Htake.
    { replace (cum ++ n :: rest) with ((cum ++ [n]) ++ rest) by (by rewrite <- app_assoc). rewrite take_app_length'; [done|]. rewrite length_app. cbn. lia. }
    destruct (if n =s "__typename" then _ else _) as [ft nested]. cbn. rewrite length_app. cbn. split; [lia|]. by rewrite Htake.
  - eapply IH; [|exact Hx]. by rewrite <- app_assoc.
Qed.

Lemma segments_all sc by_alias fp keys current cum rest i :
  output_keys by_alias fp = Some keys → path fp = cum ++ rest → length cum ≤ i < length (path fp) →
  ∃ x, x ∈ segments sc by_alias fp current cum rest ∧ x.2 = take (S i) keys.
Proof using Type.
  intros Hk. revert current cum. induction rest as [|n rest IH]; intros current cum Hp Hi; cbn [segments].
  - rewrite Hp, app_nil_r in Hi. lia.
  - destruct (decide (i = length cum)) as [->|Hne].
    + eexists. split; [by left|]. unfold segment. rewrite Hk. by destruct (if n =s "__typename" then _ else _).
    + destruct (IH (match get_field_type sc current n with Some info => info_type_name info | None => current end) (cum ++ [n])) as (x & Hx & Hx2).
      * by rewrite <- app_assoc.
      * rewrite length_app. cbn. lia.
      * exists x. split; [by right|done].
Qed.

Lemma unique_elem seen l sel : sel ∈ unique_selections seen l → ∃ p, (sel, p) ∈ l ∧ p ∉ seen.
Proof using Type.
  revert seen. induction l as [|[x p] l IH]; intros seen; cbn; [by intros ?%elem_of_nil|]. case_bool_decide as Hp.
  - intros (q & ? & ?)%IH. exists q. split; [by right|done].
  - intros [->|(q & Hq & Hn)%IH]%elem_of_cons; [exists p; split; [by left|done]|]. exists q. split; [by right|].
    intros ?. apply Hn. by right.
Qed.

Lemma unique_kept seen l x p : (x, p) ∈ l → p ∉ seen → ∃ sel, (sel, p) ∈ l ∧ sel ∈ unique_selections seen l.
Proof using Type.
  revert seen. induction l as [|[y q] l IH]; intros seen; [by intros ?%elem_of_nil|]. intros Hin Hn. cbn.
  destruct (decide (p = q)) as [->|Hne].
  - rewrite bool_decide_eq_false_2 by done. exists y. split; by left.
  - assert ((x, p) ∈ l) as Hin' by (apply elem_of_cons in Hin as [[= -> ->]|?]; done). case_bool_decide.
    + destruct (IH seen Hin' Hn) as (sel & ? & ?). exists sel. split; [by right|done].
    + destruct (IH (q :: seen) Hin') as (sel & ? & ?); [by intros [?|?]%elem_of_cons|]. exists sel. split; by right.
Qed.

Lemma unique_NoDup seen l :
  (∀ x, x ∈ l → response_path x.1 = Some x.2) → NoDup (map response_path (unique_selections seen l)).
Proof using Type.
  revert seen. induction l as [|[x p] l IH]; intros seen Hl; cbn; [constructor|].
  assert (Hl' : ∀ y, y ∈ l → response_path y.1 = Some y.2) by (intros y Hy; apply Hl; by right).
  case_bool_decide; [by apply IH|]. cbn. apply NoDup_cons. split; [|by apply IH].
  intros (y & Hy & (q & Hq & Hn)%unique_elem)%list_elem_of_fmap. specialize (Hl (x, p) ltac:(by left)). specialize (Hl' _ Hq).
  cbn in *. apply Hn. replace q with p by congruence. left.
Qed.

(** The selection is the one of a field at a place. *)
Definition shows (q : list (field * option string)) (f : field) (sel : FieldSelection) : Prop :=
  response_path sel = Some (keys_of q ++ [response_key f]) ∧
  sel_path sel = map (transformed transform_path) (names_of q ++ [name f]) ∧
  sel_alias sel = response_key f.

Lemma flat_output_keys q f : output_keys true (flat_path [] [] [] q f) = Some (keys_of q ++ [response_key f]).
Proof using Type.
  unfold output_keys, flat_path, names_of, keys_of. cbn. rewrite !length_map, !length_app, !length_map. cbn. by rewrite Nat.eqb_refl.
Qed.

Lemma split_at (q : list (field * option string)) f i :
  i < length q + 1 → ∃ r g, keys_of r ++ [response_key g] = take (S i) (keys_of q ++ [response_key f]) ∧
                            names_of r ++ [name g] = take (S i) (names_of q ++ [name f]) ∧
                            nth i (keys_of q ++ [response_key f]) EmptyString = response_key g ∧
                            (r = q ∧ g = f ∨ ∃ T r', q = r ++ (g, T) :: r').
Proof using Type.
  revert i. induction q as [|[h T] q IH]; intros i Hi; cbn in Hi.
  - assert (i = 0) as -> by lia. exists [], f. cbn. split_and!; [done..|by left].
  - destruct i as [|i].
    + exists [], h. cbn. split_and!; [done..|]. right. by exists T, q.
    + destruct (IH i ltac:(lia)) as (r & g & Hk & Hn & Hnth & Hq). exists ((h, T) :: r), g.
      change (keys_of ((h, T) :: r)) with (response_key h :: keys_of r). change (keys_of ((h, T) :: q)) with (response_key h :: keys_of q).
      change (names_of ((h, T) :: r)) with (name h :: names_of r). change (names_of ((h, T) :: q)) with (name h :: names_of q).
      cbn [app take nth]. rewrite Hk, Hn. split_and!; [done..|]. destruct Hq as [[-> ->]|(T' & r' & ->)]; [by left|right; by exists T', r'].
Qed.

End flat.

(** A document without aliases in which each name has one set of fields below. *)
Lemma plain_alike fragments (below : string → option (list selection)) n sels :
  all_fields (λ k, dict_get k fragments) (λ f, alias f = None ∧ selection_set f = below (name f)) n sels →
  repeated_alike fragments sels.
Proof.
  intros Hn q q' f f' Hf Hf' _ Hk.
  pose proof (all_fields_collected _ _ _ _ _ _ _ _ _ _ _ Hn Hf) as [Ha Hs]. pose proof (all_fields_collected _ _ _ _ _ _ _ _ _ _ _ Hn Hf') as [Ha' Hs'].
  unfold response_key in Hk. rewrite Ha, Ha' in Hk. cbn in Hk. rewrite Hs, Hs', Hk. done.
Qed.

Lemma plain_mergeable s fragments n T sels :
  all_fields (λ k, dict_get k fragments) (λ f, alias f = None) n sels → mergeable s fragments T sels.
Proof.
  intros Hn q q' f f' Hf Hf' _ Hk.
  pose proof (all_fields_collected _ _ _ _ _ _ _ _ _ _ _ Hn Hf) as Ha. pose proof (all_fields_collected _ _ _ _ _ _ _ _ _ _ _ Hn Hf') as Ha'.
  unfold response_key in Hk. by rewrite Ha, Ha' in Hk.
Qed.

(** ** Requests with several root fields *)

Section rows.
Context (document : list definition) (variables : list (string * pyval)).

(** Names with two underscores at the front are not answered, but for [__typename]. *)
Definition answered (n : string) : Prop := n = "__typename" ∨ Str.starts_with "__" n = false.

Lemma answered_spec n : starts_with_dunder n && negb (n =s "__typename") = false ↔ answered n.
Proof using Type.
  unfold answered, starts_with_dunder. rewrite andb_false_iff, negb_false_iff. unfold Str.eqb. rewrite bool_decide_eq_true. tauto.
Qed.

(** A condition is true: [true] itself, or a variable whose value is. *)
Definition says_true (v : value_node) : Prop :=
  v = BooleanValueNode true ∨ ∃ n x, v = VariableNode n ∧ dict_get n variables = Some x ∧ Py.truthy x = true.

(** No [@skip] says to leave a selection out, and every [@include] says to keep it. *)
Definition kept (ds : list directive) : Prop :=
  ∀ d c, d ∈ ds → ("if", c) ∈ directive_arguments d →
    (directive_name d = "skip" → ¬ says_true c) ∧ (directive_name d = "include" → says_true c).

Lemma condition_true v : _evaluate_directive_condition variables v = true ↔ says_true v.
Proof using Type.
  unfold says_true. split.
  - destruct v; cbn; try done.
    + destruct (dict_get _ _) as [x|] eqn:Hx; [|done]. intros Ht. right. by eexists _, x.
    + intros ->. by left.
  - intros [->|(n & x & -> & Hx & Ht)]; [done|]. cbn. by rewrite Hx.
Qed.

Lemma conditions_elem n ds b :
  In b (conditions variables n ds) ↔
  ∃ d c, d ∈ ds ∧ directive_name d = n ∧ ("if", c) ∈ directive_arguments d ∧ _evaluate_directive_condition variables c = b.
Proof using Type.
  unfold conditions. rewrite in_flat_map. setoid_rewrite list_elem_of_In. split.
  - intros (d & Hd & Hb). destruct (directive_name d =s n) eqn:Hn; [|done]. apply bool_decide_eq_true in Hn.
    apply in_flat_map in Hb as ([k c] & Hc & Hb). cbn in Hb. destruct (k =s "if") eqn:Hk; [|done]. apply bool_decide_eq_true in Hk as ->.
    destruct Hb as [<-|[]]. by exists d, c.
  - intros (d & c & Hd & <- & Hc & <-). exists d. split; [done|]. unfold Str.eqb at 1. rewrite bool_decide_eq_true_2 by done.
    apply in_flat_map. exists ("if", c). split; [done|]. by left.
Qed.

Lemma should_include_kept ds : _should_include_field variables ds = true ↔ kept ds.
Proof using Type.
  unfold _should_include_field, kept. rewrite andb_true_iff, negb_true_iff, <- not_true_iff_false, existsb_exists, forallb_forall. split.
  - intros [Hs Hi] d c Hd Hc. split.
    + intros Hn Ht%condition_true. apply Hs. exists true. split; [|done]. apply conditions_elem. eauto 10.
    + intros Hn. apply condition_true. apply (Hi (_evaluate_directive_condition variables c)), conditions_elem. eauto 10.
  - intros H. split.
    + intros (b & (d & c & Hd & Hn & Hc & <-)%conditions_elem & Hb). by eapply (H d c); [..|apply condition_true].
    + intros b (d & c & Hd & Hn & Hc & <-)%conditions_elem. by apply condition_true, (H d c).
Qed.

(** The fragments of the document, by their names. *)
Definition fragment_in (n : string) : option fragment :=
  snd <$> List.find (λ x : string * fragment, x.1 =s n)
            (omap (λ d, match d with FragmentDefinitionNode k f => Some (k, f) | _ => None end) document).

(** Nothing else that the document defines has the name of a fragment. *)
Definition apart : Prop :=
  ∀ k f, FragmentDefinitionNode k f ∈ document →
    (∀ o, OperationDefinitionNode o ∈ document → op_name o ≠ Some k) ∧ OtherDefinitionNode (Some k) ∉ document.

Abbreviation lookup := fragment_in.
Abbreviation picks := (picks lookup all_apply kept answered None).
Abbreviation collected := (collected lookup all_apply kept answered untyped None).
Abbreviation fits := (fits lookup).

(** The selection of a field, below the given paths. *)
Definition row_of (parent_path parent_response_path : list string) (q : list (field * option string)) (f : field) : row_selection :=
  {| row_path := parent_path ++ names_of q ++ [name f]; row_alias := alias f;
     row_response_path := parent_response_path ++ keys_of q ++ [response_key f];
     row_is_nested_object := is_some (selection_set f) |}.

Lemma row_of_below parent_path parent_response_path g T q f :
  row_of parent_path parent_response_path ((g, T) :: q) f =
  row_of (parent_path ++ [name g]) (parent_response_path ++ [response_key g]) q f.
Proof using Type. unfold row_of, names_of, keys_of. cbn. by rewrite <- !app_assoc. Qed.

(** What is collected from one selection. *)
Lemma collected_elem sels q f : collected sels q f ↔ ∃ sel, sel ∈ sels ∧ collected [sel] q f.
Proof using Type.
  split.
  - intros Hf. inversion Hf as [? ? ? Hp|? ? ? ? ? ? ? Hp]; subst; apply picks_elem in Hp as (sel & ? & ?); exists sel; (split; [done|by econstructor]).
  - intros (sel & Hsel & Hf). inversion Hf as [? ? ? Hp|? ? ? ? ? ? ? Hp]; subst; econstructor; try eassumption; apply picks_elem; eauto.
Qed.

Lemma collected_spread k ds frag q f :
  lookup k = Some frag → kept ds →
  collected [FragmentSpreadNode k ds] q f ↔ collected (fragment_selections frag) q f.
Proof using Type.
  intros Hk Hd. split; intros Hf; inversion Hf as [? ? ? Hp|? ? ? ? ? ? ? Hp]; subst; econstructor; try eassumption.
  1,2: apply picks_one in Hp as (_ & frag' & Hk' & _ & ?); by replace frag with frag' by congruence.
  1,2: apply picks_one; split; [done|]; by exists frag.
Qed.

Lemma collected_inline c ds sub q f :
  kept ds → collected [InlineFragmentNode c ds sub] q f ↔ collected sub q f.
Proof using Type.
  intros Hd. split; intros Hf; inversion Hf as [? ? ? Hp|? ? ? ? ? ? ? Hp]; subst; econstructor; try eassumption.
  1,2: by apply picks_one in Hp as (_ & _ & ?).
  1,2: apply picks_one; by split_and!.
Qed.

Lemma collected_none sel q f :
  (∀ g, ¬ picks [sel] g) → ¬ collected [sel] q f.
Proof using Type. intros Hn Hf. inversion Hf; subst; naive_solver. Qed.

Lemma rows_collected n sels depth visited parent_path parent_response_path :
  (∀ k frag, lookup k = Some frag → definition_named k document = Some (fragment_selections frag)) →
  fits n sels = true →
  (∀ x frag m, x ∈ visited → lookup x = Some frag → fits m (fragment_selections frag) = true → n ≤ m) → n ≤ depth →
  ∃ rows, _build_field_selections_recursive document variables depth parent_path visited parent_response_path sels = Ok rows ∧
          ∀ r, r ∈ rows ↔ ∃ q f, collected sels q f ∧ r = row_of parent_path parent_response_path q f.
Proof using Type.
  intros Hnames. revert sels depth visited parent_path parent_response_path.
  induction n as [n IH] using lt_wf_ind. intros sels depth visited parent_path parent_response_path Hn Hvis Hd.
  destruct n as [|n]; [done|]. destruct depth as [|depth]; [lia|]. apply fits_S in Hn as [_ Hn]. cbn [_build_field_selections_recursive].
  match goal with |- ∃ rows, concat_mapR ?g _ = _ ∧ _ =>
    destruct (concat_mapR_elem g (λ sel r, ∃ q f, collected [sel] q f ∧ r = row_of parent_path parent_response_path q f) sels) as (rows & -> & Hrows) end.
  2: { exists rows. split; [done|]. intros r. rewrite Hrows. setoid_rewrite collected_elem at 2. naive_solver. }
  intros sel Hsel. specialize (Hn _ Hsel).
  assert (Hkeep : ∀ m, m ≤ n → ∀ x frag m', x ∈ visited → lookup x = Some frag → fits m' (fragment_selections frag) = true → m ≤ m').
  { intros m Hm x frag m' Hx Hx' Hfm. specialize (Hvis _ _ _ Hx Hx' Hfm). lia. }
  destruct sel as [f|k ds|c ds sub].
  - destruct ((starts_with_dunder (name f) && negb (name f =s "__typename")) || negb (_should_include_field variables (directives f))) eqn:Hout.
    { exists []. split; [done|]. intros r. split; [by intros ?%elem_of_nil|]. intros (q & g & Hg & _). exfalso. revert Hg. apply collected_none.
      intros h (-> & Hd'%should_include_kept & Hv%answered_spec)%picks_one. by rewrite Hd', Hv in Hout. }
    apply orb_false_iff in Hout as [Hv%answered_spec Hinc%negb_false_iff%should_include_kept].
    assert (Hf : picks [Field f] f) by (by apply picks_one).
    assert (Hone : ∀ q g, collected [Field f] q g ↔ (q = [] ∧ g = f) ∨ ∃ sub q', selection_set f = Some sub ∧ q = (f, None) :: q' ∧ collected sub q' g).
    { intros q g. split.
      - intros Hg. inversion Hg as [? ? ? Hp|? ? h sub T' q' ? Hp Hsub HT Hb]; subst; apply picks_one in Hp as (-> & _); [by left|].
        unfold untyped in HT. subst T'. right. by exists sub, q'.
      - intros [[-> ->]|(sub & q' & Hsub & -> & Hb)]; [by apply collected_here|by eapply collected_below]. }
    destruct (selection_set f) as [sub|] eqn:Hsub.
    + destruct (IH n ltac:(lia) sub depth visited (parent_path ++ [name f]) (parent_response_path ++ [response_key f]) (Hn _ eq_refl) (Hkeep n ltac:(lia)) ltac:(lia))
        as (rows & -> & Hrows). cbn [mbind result_bind]. eexists. split; [done|]. intros r. rewrite elem_of_cons, Hrows. setoid_rewrite Hone. split.
      * intros [->|(q & g & Hg & ->)]; [exists [], f; split; [by left|by rewrite <- Hsub]|].
        exists ((f, None) :: q), g. split; [right; by exists sub, q|]. by rewrite row_of_below.
      * intros (q & g & [[-> ->]|(sub' & q' & [= <-] & -> & Hg)] & ->); [left; by rewrite <- Hsub|]. right. exists q', g. split; [done|]. by rewrite row_of_below.
    + eexists. split; [done|]. intros r. rewrite list_elem_of_singleton. setoid_rewrite Hone. split.
      * intros ->. exists [], f. split; [by left|by rewrite <- Hsub].
      * intros (q & g & [[-> ->]|(? & ? & ? & _)] & ->); [by rewrite <- Hsub|done].
  - destruct (_should_include_field variables ds) eqn:Hinc; cbn [negb orb].
    2: { exists []. split; [done|]. intros r. split; [by intros ?%elem_of_nil|]. intros (q & g & Hg & _). exfalso. revert Hg. apply collected_none.
         intros h (?%should_include_kept & _)%picks_one. congruence. }
    apply should_include_kept in Hinc. destruct Hn as (frag & Hk & Hfit). assert (k ∉ visited) as Hne by (intros Hin; specialize (Hvis _ _ _ Hin Hk Hfit); lia).
    rewrite <- str_in_true in Hne. apply not_true_iff_false in Hne. rewrite Hne, (Hnames _ _ Hk).
    destruct (fits_least _ _ _ Hfit) as (m & Hm & Hfm & Hleast).
    destruct (IH m ltac:(lia) (fragment_selections frag) depth (k :: visited) parent_path parent_response_path Hfm) as (rows & -> & Hrows); [|lia|].
    { intros x frag' m' [->|Hx]%elem_of_cons Hx' Hfm'; [replace frag' with frag in Hfm' by congruence; auto|by eapply (Hkeep m)]. }
    exists rows. split; [done|]. intros r. rewrite Hrows. setoid_rewrite (collected_spread k ds frag); done.
  - destruct (_should_include_field variables ds) eqn:Hinc; cbn [negb].
    2: { exists []. split; [done|]. intros r. split; [by intros ?%elem_of_nil|]. intros (q & g & Hg & _). exfalso. revert Hg. apply collected_none.
         intros h (?%should_include_kept & _)%picks_one. congruence. }
    apply should_include_kept in Hinc. destruct (IH n ltac:(lia) sub depth visited parent_path parent_response_path Hn (Hkeep n ltac:(lia)) ltac:(lia)) as (rows & -> & Hrows).
    exists rows. split; [done|]. intros r. rewrite Hrows. by setoid_rewrite collected_inline.
Qed.

Lemma apart_named k frag : apart → lookup k = Some frag → definition_named k document = Some (fragment_selections frag).
Proof using Type.
  unfold apart, fragment_in. induction document as [|d l IH]; intros Ha; [done|].
  assert (∀ k f, FragmentDefinitionNode k f ∈ l →
            (∀ o, OperationDefinitionNode o ∈ l → op_name o ≠ Some k) ∧ OtherDefinitionNode (Some k) ∉ l) as Hl.
  { intros k' f Hf. destruct (Ha k' f ltac:(by right)) as [Ho Hn]. split; [intros o Hin; apply Ho; by right|].
    intros Hin. apply Hn. by right. }
  specialize (IH Hl). intros Hk.
  assert (∀ x : string * fragment, List.find (λ x, x.1 =s k) (omap (λ d, match d with FragmentDefinitionNode k f => Some (k, f) | _ => None end) l) = Some x →
            FragmentDefinitionNode k x.2 ∈ l) as Hin.
  { intros [k' f] [Hx E]%List.find_some. apply bool_decide_eq_true in E. cbn in E. subst k'.
    apply list_elem_of_In, list_elem_of_omap in Hx as ([k' f'| |] & Hd & [= -> ->]). done. }
  destruct d as [k' f|o|n]; cbn in Hk |- *.
  - destruct (k' =s k); [by injection Hk as <-|by apply IH].
  - destruct (bool_decide _) eqn:Ho; [|by apply IH]. apply bool_decide_eq_true in Ho.
    destruct (List.find _ _) as [x|] eqn:E; [|done]. destruct (Ha k x.2) as [Hno _]; [right; by apply Hin|].
    by destruct (Hno o ltac:(by left)).
  - destruct (bool_decide _) eqn:Ho; [|by apply IH]. apply bool_decide_eq_true in Ho as ->.
    destruct (List.find _ _) as [x|] eqn:E; [|done]. destruct (Ha k x.2) as [_ Hno]; [right; by apply Hin|].
    by destruct (Hno ltac:(by left)).
Qed.

(** C23. For a root field of a request with several of them, Rust is asked to keep exactly the
    fields that are selected below it, repeated fields and fragments included, whatever the
    fragments' type conditions: for every field at every depth that no [@skip] or
    [@include] leaves out, with the values of the request's variables, and that is no field
    of introspection but [__typename], its path in the row, its own alias and the response
    keys down to it.  The document is valid and the recursion limit not below its depth, and
    no operation has a fragment's name. *)
Theorem merged_rows_keep_what_is_selected n sels depth :
  apart → fits n sels = true → n ≤ depth →
  ∃ rows,
    _build_field_selections_recursive document variables depth [] [] [] sels = Ok rows ∧
    ∀ r, r ∈ rows ↔ ∃ q f, collected sels q f ∧ r = row_of [] [] q f.
Proof using Type.
  intros Ha Hn Hd. apply (rows_collected n); try done; [|by intros ? ? ? ?%elem_of_nil].
  intros k frag. by apply apart_named.
Qed.
End rows.

(** ** Some documents *)

Definition plain (n : string) (sub : option (list selection)) : selection := Field (FieldNode None n [] [] sub).
Definition under (alias n : string) (sub : option (list selection)) : selection := Field (FieldNode (Some alias) n [] [] sub).
Definition text : type_ref := NamedType "String".

Definition blog : schema :=
  {| type_map :=
       [("CreatePostSuccess", {| kind := ObjectType; fields := [("post", NonNullType (NamedType "Post")); ("message", text)] |});
        ("CreatePostError", {| kind := ObjectType; fields := [("message", text)] |});
        ("Post", {| kind := ObjectType; fields := [("id", text); ("title", text); ("author", NamedType "Actor")] |});
        ("Actor", {| kind := InterfaceType; fields := [("name", text)] |});
        ("User", {| kind := ObjectType; fields := [("name", text); ("email", text)] |});
        ("Bot", {| kind := ObjectType; fields := [("name", text)] |})];
     get_possible_types := λ n, if n =s "Actor" then ["User"; "Bot"] else [] |}.

Definition blog_fragments : list (string * fragment) :=
  [("PostParts", {| type_condition := "Post"; fragment_selections := [plain "id" None; plain "title" None] |})].

Definition create_post : list selection :=
  [InlineFragmentNode (Some "CreatePostSuccess") []
     [plain "post" (Some [FragmentSpreadNode "PostParts" [];
                          plain "author" (Some [plain "name" None;
                                                InlineFragmentNode (Some "User") [] [plain "email" None]])])];
   InlineFragmentNode (Some "CreatePostError") [] [plain "message" None]].

Definition create_post_field : field := FieldNode None "createPost" [] [] (Some create_post).

Lemma create_post_mergeable T : mergeable blog blog_fragments T create_post.
Proof. apply (plain_mergeable _ _ 6). repeat constructor. Qed.

(** The document of the mutation: an author is asked for its name, and a user for its address
    too. *)
Example document_of_create_post :
  _response_selections (Some blog) blog_fragments true 9 [create_post_field] "CreatePostSuccess" "CreatePostError" [] =
  let leaf n := Entry n n None in
  Ok {| success :=
          Selection
            [Entry "post" "post"
               (Some (Selection
                        [leaf "id"; leaf "title";
                         Entry "author" "author"
                           (Some (Selection [leaf "name"; leaf "email"] None
                                    (Some [("User", [leaf "name"; leaf "email"]); ("Bot", [leaf "name"])])))]
                        (Some "Post") None))]
            (Some "CreatePostSuccess") None;
        MutationSelections.error := Selection [leaf "message"] (Some "CreatePostError") None;
        typename_selected := true |}.
Proof. vm_compute. reflexivity. Qed.


(** A field that [@skip] leaves out is in the document all the same. *)
Example a_skipped_field_is_offered :
  let skip := {| directive_name := "skip"; directive_arguments := [("if", BooleanValueNode true)] |} in
  match _response_selections (Some blog) [] true 9
          [FieldNode None "createPost" [] [] (Some [Field (FieldNode None "message" [] [skip] None)])]
          "CreatePostSuccess" "CreatePostError" [] with
  | Ok doc => success doc = Selection [Entry "message" "message" None] (Some "CreatePostSuccess") None
  | Err _ => False
  end.
Proof. vm_compute. reflexivity. Qed.

(** *** Rows *)

Definition posts : list selection :=
  [FragmentSpreadNode "PostParts" []; plain "createdBy" (Some [plain "fullName" None])].

Lemma posts_alike : repeated_alike blog_fragments posts.
Proof.
  apply (plain_alike _ (λ n, if n =s "createdBy" then Some [plain "fullName" None] else None) 4). repeat constructor.
Qed.


Example selection_of_posts :
  match extract_flat_paths blog_fragments (Some to_snake_case) 5 posts [] [] [] with
  | Ok fps => map (λ sel, (materialized_path sel, rust_response_path sel)) (rust_field_selections blog true fps "Post") =
              [("id", Some "id"); ("title", Some "title"); ("created_by", Some "createdBy");
               ("created_by.full_name", Some "createdBy.fullName")]
  | Err _ => False
  end.
Proof. vm_compute. reflexivity. Qed.

(** A field selected twice keeps the fields below its first occurrence only: the response of
    this query has no [title]. *)
Example repeated_fields_are_lost :
  let twice := [plain "post" (Some [plain "id" None]); plain "post" (Some [plain "title" None])] in
  match extract_flat_paths [] None 5 twice [] [] [] with
  | Ok fps => map rust_response_path (rust_field_selections blog true fps "CreatePostSuccess") = [Some "post"; Some "post.id"]
  | Err _ => False
  end.
Proof. vm_compute. reflexivity. Qed.

(** *** Several root fields *)

Definition unless (v : string) : directive := {| directive_name := "skip"; directive_arguments := [("if", VariableNode v)] |}.

Definition blog_document : list definition :=
  [FragmentDefinitionNode "PostParts" {| type_condition := "Post"; fragment_selections := [plain "id" None; under "heading" "title" None] |};
   OperationDefinitionNode
     {| op_name := Some "Home"; op_type := Query; variable_definitions := [("brief", Some (BooleanValueNode false))];
        op_selections := [plain "posts" (Some posts); plain "users" (Some [plain "name" None])] |}].

Definition brief_posts : list selection :=
  [FragmentSpreadNode "PostParts" []; Field (FieldNode None "createdBy" [] [unless "brief"] (Some [plain "fullName" None]))].

Lemma merged_rows_keep_what_is_selected_witness :
  ∃ rows,
    _build_field_selections_recursive blog_document [("brief", PBool true)] 4 [] [] [] brief_posts = Ok rows ∧
    ∀ r, r ∈ rows ↔ ∃ q f, collected (fragment_in blog_document) all_apply (kept [("brief", PBool true)]) answered
                             untyped None brief_posts q f ∧ r = row_of [] [] q f.
Proof.
  apply (merged_rows_keep_what_is_selected blog_document [("brief", PBool true)] 4 brief_posts 4); [|reflexivity|lia].
  intros k f Hf. unfold blog_document in *. repeat setoid_rewrite elem_of_cons in Hf. destruct Hf as [[= -> _]|[[=]|Hf]]; [|by apply elem_of_nil in Hf].
  split.
  - intros o Ho. repeat setoid_rewrite elem_of_cons in Ho. destruct Ho as [[=]|[[= ->]|Ho]]; [discriminate|by apply elem_of_nil in Ho].
  - intros Ho. repeat setoid_rewrite elem_of_cons in Ho. destruct Ho as [[=]|[[=]|Ho]]. by apply elem_of_nil in Ho.
Defined.

(** An operation with the name of a fragment, before it, is expanded in its place. *)
Example an_operation_shadows_a_fragment :
  let document :=
    [OperationDefinitionNode {| op_name := Some "Parts"; op_type := Query; variable_definitions := []; op_selections := [plain "posts" None] |};
     FragmentDefinitionNode "Parts" {| type_condition := "Post"; fragment_selections := [plain "id" None] |}] in
  map row_response_path <$> _build_field_selections_recursive document [] 4 [] [] [] [FragmentSpreadNode "Parts" []] = Ok [["posts"]].
Proof. vm_compute. reflexivity. Qed.

(** A fragment in a fragment at the root is passed over: its fields are not answered. *)
Example nested_root_fragments_are_lost :
  let fragment_at_root n sels := FragmentDefinitionNode n {| type_condition := "Query"; fragment_selections := sels |} in
  let document :=
    [fragment_at_root "Outer" [FragmentSpreadNode "Inner" []; plain "users" None]; fragment_at_root "Inner" [plain "posts" None];
     OperationDefinitionNode {| op_name := None; op_type := Query; variable_definitions := [];
                                op_selections := [FragmentSpreadNode "Outer" []; plain "me" None; plain "tags" None] |}] in
  map info_field_name <$> _extract_root_query_fields document [] 9 None = Ok ["users"; "me"; "tags"].
Proof. vm_compute. reflexivity. Qed.

(** Two root fields with one key are two results, and are not merged. *)
Example repeated_root_fields_answer_twice :
  let document :=
    [OperationDefinitionNode {| op_name := None; op_type := Query; variable_definitions := [];
                                op_selections := [plain "posts" (Some [plain "id" None]); plain "posts" (Some [plain "title" None])] |}] in
  match execute_multi_field_query (Some [("posts", ListType (NamedType "Post"))]) document (λ _ _, Returns (PList [])) 9 None [] with
  | Ok (data, _) => map data_key data = ["posts"; "posts"]
  | Err _ => False
  end.
Proof. vm_compute. reflexivity. Qed.

(** With a name for the operation, one without a name before it is executed in its place, and
    the other's variables are taken. *)
Example an_unnamed_operation_is_taken :
  let op n sels := OperationDefinitionNode {| op_name := n; op_type := Query; variable_definitions := []; op_selections := sels |} in
  let document := [op None [plain "posts" None]; op (Some "Home") [plain "users" None]] in
  op_selections <$> first_query (Some "Home") document = Some [plain "posts" None] ∧
  op_selections <$> _select_query_operation document (Some "Home") = Some [plain "users" None].
Proof. done. Qed.
