(* ===== verification/FieldResolvers.v ===== *)
(** * Which queries select a field resolver ([core/field_resolvers.py])

    Rows go out as Rust wrote them unless the query selects a field that is a resolver of its
    own, at any depth.  The types such a field can be reached from are found once for a
    schema; the walk of a query stops at any other type. *)
From stdpp Require Import base decidable strings list.
From Stdlib Require Import ZArith Lia.
From S2P Require Import Prelude PyVal Casing Selections MutationSelections MultiField SelectionLaws.

Local Open Scope py_scope.

(** A resolver, or one that matters only with arguments. *)
Inductive marker := Always | WithArguments.

#[export] Instance marker_eq : EqDecision marker.
Proof. solve_decision. Defined.

Section field_resolvers.
Context (s : schema).
(** What [field.extensions] has under [FIELD_RESOLVER], by type and field. *)
Context (field_marker : string → string → option marker).

Definition is_composite (t : string * graphql_type) : bool :=
  negb (Str.starts_with "__" t.1) && negb (bool_decide (kind t.2 = LeafType)).

Definition composite : list (string * graphql_type) := filter (λ t, is_composite t = true) (type_map s).

(** The condition under which a type is added to [reach]. *)
Definition reached_by (reach : list string) (t : string * graphql_type) : bool :=
  existsb (λ f : string * type_ref, is_some (field_marker t.1 f.1) || (get_named_type f.2 in_ reach)) (fields t.2)
    || (is_abstract_type s t.1 && existsb (λ p, p in_ reach) (get_possible_types s t.1)).

(** One round of the loop over the composite types. *)
Definition round (reach : list string) : list string :=
  foldl (λ reach t, if t.1 in_ reach then reach else if reached_by reach t then t.1 :: reach else reach) reach composite.

(** Rounds until none adds a type. *)
Fixpoint rounds (fuel : nat) (reach : list string) : option (list string) :=
  match fuel with
  | O => None
  | S fuel => let reach' := round reach in if Nat.eqb (length reach') (length reach) then Some reach' else rounds fuel reach'
  end.

Definition _reaching (fuel : nat) : option (list string) := rounds fuel [].

(** ** The walk of a query *)

Section walk.
Context (reach : list string) (fragments : list (string * fragment)) (variables : list (string * pyval)).

(** [condition is (name == "skip")] for some condition of the directive. *)
Definition left_out (d : directive) : bool :=
  ((directive_name d =s "skip") || (directive_name d =s "include"))
    && existsb
         (λ a : string * value_node,
            (a.1 =s "if")
              && match a.2 with
                 | BooleanValueNode b => Bool.eqb b (directive_name d =s "skip")
                 | VariableNode n =>
                     match dict_get n variables with
                     | Some (PBool b) => Bool.eqb b (directive_name d =s "skip")
                     | _ => false
                     end
                 | _ => false
                 end) (directive_arguments d).

Definition _included (ds : list directive) : bool := negb (existsb left_out ds).

(** The types a field of the parent may be resolved on. *)
Definition owners (parent : string) : list string :=
  parent :: (if is_abstract_type s parent then get_possible_types s parent else []).

Definition field_of (owner n : string) : option type_ref := t ← dict_get owner (type_map s); dict_get n (fields t).

(** [any], stopping at the first hit. *)
Fixpoint anyR {A} (f : A → result bool) (l : list A) : result bool :=
  match l with
  | [] => Ok false
  | x :: l => b ← f x; if b : bool then Ok true else anyR f l
  end.

Definition get_type (n : string) : option string := if dict_has n (type_map s) then Some n else None.

Definition resolves_itself (owner : string) (f : field) : bool :=
  match field_marker owner (name f) with
  | Some Always => true
  | Some WithArguments => match arguments f with [] => false | _ => true end
  | None => false
  end.

Fixpoint _selects (depth : nat) (parent : option string) (selection_set : option (list selection)) (spread : list string)
    : result bool :=
  match depth with
  | O => raise RecursionError
  | S depth =>
      match selection_set, parent with
      | Some sels, Some parent =>
          if negb (parent in_ reach) then Ok false
          else
            anyR
              (λ sel,
                 match sel with
                 | Field f =>
                     if negb (_included (directives f)) then Ok false
                     else
                       anyR
                         (λ owner,
                            match field_of owner (name f) with
                            | None => Ok false
                            | Some t =>
                                if resolves_itself owner f then Ok true
                                else _selects depth (Some (get_named_type t)) (Selections.selection_set f) spread
                            end) (owners parent)
                 | InlineFragmentNode c ds sub =>
                     if negb (_included ds) then Ok false
                     else _selects depth (match c with Some c => get_type c | None => Some parent end) (Some sub) spread
                 | FragmentSpreadNode n ds =>
                     if negb (_included ds) then Ok false
                     else match dict_get n fragments with
                          | None => Ok false
                          | Some frag =>
                              if n in_ spread then Ok false
                              else _selects depth (get_type (type_condition frag)) (Some (fragment_selections frag)) (n :: spread)
                          end
                 end) sels
      | _, _ => Ok false
      end
  end.
End walk.

(** Whether a field selects a field resolver; the schema's types are found with enough rounds. *)
Definition selects_field_resolver (depth : nat) (fragments : list (string * fragment)) (variables : list (string * pyval))
    (return_type : type_ref) (field_nodes : list field) : result bool :=
  match _reaching (S (length (type_map s))) with
  | None => Ok false
  | Some reach =>
      let named := get_named_type return_type in
      if negb (named in_ reach) then Ok false
      else anyR (λ f, _selects reach fragments variables depth (Some named) (selection_set f) []) field_nodes
  end.

(** The query operations with the name, or all of them. *)
Definition operation_selects_field_resolver (depth : nat) (query_type : option string) (document : list definition)
    (operation_name : option string) (variables : list (string * pyval)) : result bool :=
  match _reaching (S (length (type_map s))), query_type with
  | Some (_ :: _ as reach), Some query_type =>
      let operations := omap (λ d, match d with OperationDefinitionNode o => Some o | _ => None end) document in
      let operations :=
        match operation_name with
        | Some n => filter (λ o, op_name o = Some n) operations
        | None => operations
        end in
      anyR
        (λ o, match op_type o with
              | Query => _selects reach (fragments_of document) variables depth (Some query_type) (Some (op_selections o)) []
              | _ => Ok false
              end) operations
  | _, _ => Ok false
  end.
End field_resolvers.

(** * Laws: Laws of the search for field resolvers

    The types a field resolver can be reached from are the least set closed under fields and
    possible types, found in a bounded number of rounds; and no query that selects one is
    answered without it. *)

Section laws.
Context (s : schema) (field_marker : string → string → option marker).

Abbreviation composite := (composite s).
Abbreviation reached_by := (reached_by s field_marker).
Abbreviation round := (round s field_marker).

(** ** The types that reach a resolver *)

(** A field resolver is a field of the type, or one below it. *)
Inductive reaches : string → Prop :=
| reaches_marked n t f ty m : (n, t) ∈ composite → (f, ty) ∈ fields t → field_marker n f = Some m → reaches n
| reaches_field n t f ty : (n, t) ∈ composite → (f, ty) ∈ fields t → reaches (get_named_type ty) → reaches n
| reaches_possible n t p :
    (n, t) ∈ composite → is_abstract_type s n = true → p ∈ get_possible_types s n → reaches p → reaches n.

Lemma reached_by_true reach t :
  reached_by reach t = true ↔
  (∃ f, f ∈ fields t.2 ∧ (is_some (field_marker t.1 f.1) = true ∨ get_named_type f.2 ∈ reach)) ∨
  (is_abstract_type s t.1 = true ∧ ∃ p, p ∈ get_possible_types s t.1 ∧ p ∈ reach).
Proof using Type.
  unfold FieldResolvers.reached_by. rewrite orb_true_iff, andb_true_iff, !existsb_exists.
  setoid_rewrite orb_true_iff. setoid_rewrite str_in_true. by setoid_rewrite list_elem_of_In.
Qed.

Lemma reached_by_reaches reach t :
  t ∈ composite → (∀ n, n ∈ reach → reaches n) → reached_by reach t = true → reaches t.1.
Proof using Type.
  destruct t as [n t]. intros Ht Hr [([f ty] & Hf & [Hm|Hn])|(Ha & p & Hp & Hr')]%reached_by_true; cbn in *.
  - destruct (field_marker n f) as [m|] eqn:Hfm; [|done]. by eapply reaches_marked.
  - eapply reaches_field; eauto.
  - eapply reaches_possible; eauto.
Qed.

Definition add_type (reach : list string) (t : string * graphql_type) : list string :=
  if t.1 in_ reach then reach else if reached_by reach t then t.1 :: reach else reach.

Lemma add_types l reach :
  ∃ extra, foldl add_type reach l = extra ++ reach ∧
           (extra = [] → ∀ t, t ∈ l → reached_by reach t = true → t.1 ∈ reach).
Proof using Type.
  revert reach. induction l as [|t l IH]; intros reach; cbn; [exists []; split; [done|]; by intros _ ? ?%elem_of_nil|].
  destruct (IH (add_type reach t)) as (extra & -> & Hclosed). unfold add_type in *.
  destruct (t.1 in_ reach) eqn:Hin; [|destruct (reached_by reach t) eqn:Hby].
  - exists extra. split; [done|]. intros He t' [->|Ht']%elem_of_cons Hr; [by apply str_in_true|by apply Hclosed].
  - exists (extra ++ [t.1]). split; [by rewrite <- app_assoc|]. by intros [_ ?]%app_eq_nil.
  - exists extra. split; [done|]. intros He t' [->|Ht']%elem_of_cons Hr; [congruence|by apply Hclosed].
Qed.

(** What every list of types found so far satisfies. *)
Definition found (reach : list string) : Prop :=
  NoDup reach ∧ reach ⊆ composite.*1 ∧ ∀ n, n ∈ reach → reaches n.

Lemma found_add l reach : (∀ t, t ∈ l → t ∈ composite) → found reach → found (foldl add_type reach l).
Proof using Type.
  revert reach. induction l as [|t l IH]; intros reach Hl (Hd & Hs & Hr); cbn; [done|].
  apply IH; [intros t' Ht'; apply Hl; by right|]. unfold add_type. destruct (t.1 in_ reach) eqn:Hin; [done|].
  destruct (reached_by reach t) eqn:Hby; [|done]. assert (Ht : t ∈ composite) by (apply Hl; by left). split; [|split].
  - apply NoDup_cons. split; [|done]. by rewrite <- str_in_true, Hin.
  - intros n [->|?]%elem_of_cons; [apply list_elem_of_fmap; by exists t|auto].
  - intros n [->|?]%elem_of_cons; [by eapply reached_by_reaches|auto].
Qed.

Lemma rounds_end fuel reach :
  found reach → length composite < fuel + length reach →
  ∃ reach', rounds s field_marker fuel reach = Some reach' ∧ found reach' ∧
            ∀ t, t ∈ composite → reached_by reach' t = true → t.1 ∈ reach'.
Proof using Type.
  revert reach. induction fuel as [|fuel IH]; intros reach Hf Hlen.
  - destruct Hf as (Hd & Hs & _). assert (length reach ≤ length composite.*1) by (by apply submseteq_length, NoDup_submseteq).
    rewrite length_map in *. lia.
  - cbn. destruct (add_types composite reach) as (extra & Hround & Hclosed). change (round reach) with (foldl add_type reach composite).
    assert (Hf' : found (foldl add_type reach composite)) by (by apply found_add). rewrite Hround in *. rewrite length_app.
    destruct (Nat.eqb_spec (length extra + length reach) (length reach)) as [He|He].
    + destruct extra as [|x extra]; [|cbn in He; lia]. exists reach. split; [done|]. split; [done|]. by apply Hclosed.
    + apply IH; [done|]. rewrite length_app. lia.
Qed.

Lemma reaching_spec fuel :
  length composite < fuel →
  ∃ reach, _reaching s field_marker fuel = Some reach ∧ ∀ n, n ∈ reach ↔ reaches n.
Proof using Type.
  intros Hfuel. destruct (rounds_end fuel []) as (reach & Hr & (_ & _ & Hsound) & Hclosed); [|cbn; lia|].
  { split; [constructor|]. split; [by intros ? ?%elem_of_nil|by intros ? ?%elem_of_nil]. }
  exists reach. split; [done|]. intros n. split; [apply Hsound|].
  induction 1 as [n t f ty m Ht Hf Hm|n t f ty Ht Hf _ IH|n t p Ht Ha Hp _ IH]; apply (Hclosed (n, t) Ht), reached_by_true; cbn.
  - left. exists (f, ty). split; [done|]. left. cbn. by rewrite Hm.
  - left. exists (f, ty). split; [done|]. by right.
  - right. split; [done|]. by exists p.
Qed.

(** C31. The loop over the schema's types ends within one round more than there are types, and
    leaves exactly the types from which a field resolver can be reached: by a field of the
    type, by a field's type, or by a possible type of an interface or union, however the
    types lead to each other. *)
Theorem reaching_is_what_leads_to_a_resolver fuel :
  length composite < fuel →
  ∃ reach, _reaching s field_marker fuel = Some reach ∧ ∀ n, n ∈ reach ↔ reaches n.
Proof using Type. apply reaching_spec. Qed.

(** ** Queries *)

Lemma anyR_Ok {A} (f : A → result bool) l :
  (∀ x, x ∈ l → ∃ b, f x = Ok b) → ∃ b, anyR f l = Ok b ∧ ∀ x, x ∈ l → f x = Ok true → b = true.
Proof.
  induction l as [|x l IH]; intros Hl; [exists false; split; [done|]; by intros ? ?%elem_of_nil|]. cbn.
  destruct (Hl x ltac:(by left)) as (b & Hb). rewrite Hb. cbn. destruct b.
  - by exists true.
  - destruct IH as (b & -> & Hb'); [intros y Hy; apply Hl; by right|]. exists b. split; [done|].
    intros y [->|Hy]%elem_of_cons Hy'; [congruence|by apply (Hb' y)].
Qed.

Context (fragments : list (string * fragment)) (variables : list (string * pyval)).

(** The value of a condition: a constant, or what the request gives for a variable. *)
Definition has_value (v : value_node) (b : bool) : Prop :=
  v = BooleanValueNode b ∨ ∃ n, v = VariableNode n ∧ dict_get n variables = Some (PBool b).

(** No [@skip] is true and no [@include] is false. *)
Definition asked_for (ds : list directive) : Prop :=
  ∀ d c, d ∈ ds → ("if", c) ∈ directive_arguments d →
    (directive_name d = "skip" → ¬ has_value c true) ∧ (directive_name d = "include" → ¬ has_value c false).

Lemma left_out_spec d :
  left_out variables d = true ↔
  ∃ c, ("if", c) ∈ directive_arguments d ∧
       (directive_name d = "skip" ∧ has_value c true ∨ directive_name d = "include" ∧ has_value c false).
Proof using Type.
  unfold left_out. rewrite andb_true_iff, orb_true_iff, existsb_exists. unfold Str.eqb at 1 2. rewrite !bool_decide_eq_true.
  assert (∀ c b, (match c with
             | BooleanValueNode b' => Bool.eqb b' b
             | VariableNode n => match dict_get n variables with Some (PBool b') => Bool.eqb b' b | _ => false end
             | _ => false
             end = true) ↔ has_value c b) as Hv.
  { intros c b. unfold has_value. split.
    - destruct c; try done.
      + destruct (dict_get _ _) as [[]|] eqn:E; try done. intros <-%Bool.eqb_prop. right. by eexists.
      + intros <-%Bool.eqb_prop. by left.
    - intros [->|(n & -> & ->)]; apply Bool.eqb_reflx. }
  assert (∀ b, (directive_name d =s "skip") = b ↔ (if b then directive_name d = "skip" else directive_name d ≠ "skip")) as Hskip.
  { intros []; [apply bool_decide_eq_true|apply bool_decide_eq_false]. }
  split.
  - intros [Hn ([k c] & Hin & [Hk Hc]%andb_true_iff)]. apply bool_decide_eq_true in Hk. cbn in Hk, Hc. subst k. apply Hv in Hc.
    exists c. split; [by apply list_elem_of_In|]. destruct Hn as [Hn|Hn]; [left|right]; (split; [done|]).
    + by rewrite (proj2 (Hskip true) Hn) in Hc.
    + assert (directive_name d ≠ "skip") as Hne by (by rewrite Hn). by rewrite (proj2 (Hskip false) Hne) in Hc.
  - intros (c & Hin & Hor). split; [tauto|]. exists ("if", c). split; [by apply list_elem_of_In|]. cbn [fst snd].
    apply andb_true_iff. split; [by apply bool_decide_eq_true|]. apply Hv. destruct Hor as [[Hn Hc]|[Hn Hc]].
    + by rewrite (proj2 (Hskip true) Hn).
    + assert (directive_name d ≠ "skip") as Hne by (by rewrite Hn). by rewrite (proj2 (Hskip false) Hne).
Qed.

Lemma included_spec ds : _included variables ds = true ↔ asked_for ds.
Proof using Type.
  unfold _included, asked_for. rewrite negb_true_iff, <- not_true_iff_false, existsb_exists. setoid_rewrite left_out_spec.
  setoid_rewrite <- list_elem_of_In. split.
  - intros Hn d c Hd Hc. split; intros Hname Hv; apply Hn; exists d; (split; [done|]); exists c; (split; [done|]); [by left|by right].
  - intros H (d & Hd & c & Hc & [[Hn Hv]|[Hn Hv]]); [by apply (proj1 (H d c Hd Hc))|by apply (proj2 (H d c Hd Hc))].
Qed.

(** What GraphQL knows of a schema: names with two underscores are its own, the possible types
    of a type are objects, and leaves have no fields. *)
Definition own_name (n : string) : bool := Str.starts_with "__" n.

Record valid : Prop := {
  valid_fields : ∀ n t f ty, (n, t) ∈ type_map s → own_name n = false → (f, ty) ∈ fields t → own_name (get_named_type ty) = false;
  valid_possible : ∀ n p, p ∈ get_possible_types s n → own_name n = false ∧ own_name p = false;
  valid_leaves : ∀ n t, (n, t) ∈ type_map s → kind t = LeafType → fields t = []
}.

Abbreviation lookup := (λ n, dict_get n fragments).
Abbreviation collected := (collected lookup (condition_holds s) asked_for answer_all (possible_type s)).

(** The type of the object a collected field is on. *)
Fixpoint place (T : option string) (q : list (field * option string)) : option string :=
  match q with [] => T | (_, T') :: q => place T' q end.

(** A field of an object type is resolved on its own: it is marked to be, or to be with the
    arguments it is given. *)
Definition resolver_at (T : option string) (f : field) : Prop :=
  ∃ o t ty, T = Some o ∧ dict_get o (type_map s) = Some t ∧ dict_get (name f) (fields t) = Some ty ∧
            (field_marker o (name f) = Some Always ∨ field_marker o (name f) = Some WithArguments ∧ arguments f ≠ []).

Lemma resolver_at_spec o f :
  resolver_at (Some o) f ↔ is_some (field_of s o (name f)) = true ∧ resolves_itself field_marker o f = true.
Proof using Type.
  assert (resolves_itself field_marker o f = true ↔
            field_marker o (name f) = Some Always ∨ field_marker o (name f) = Some WithArguments ∧ arguments f ≠ []) as ->.
  { unfold resolves_itself. destruct (field_marker o (name f)) as [[]|], (arguments f); naive_solver. }
  unfold resolver_at, field_of. split.
  - intros (o' & t & ty & [= <-] & Ht & Hty & Hm). rewrite Ht. cbn. by rewrite Hty.
  - intros [Hs Hm]. destruct (dict_get o (type_map s)) as [t|] eqn:Ht; [|done]. cbn in Hs.
    destruct (dict_get (name f) (fields t)) as [ty|] eqn:Hty; [|done]. by exists o, t, ty.
Qed.

(** The object is of the type, or of one of its possible types. *)
Definition is_of (parent T : string) : Prop := T = parent ∨ is_abstract_type s parent = true ∧ T ∈ get_possible_types s parent.

Lemma owner_elem parent T : T ∈ owners s parent ↔ is_of parent T.
Proof.
  unfold owners, is_of. rewrite elem_of_cons. destruct (is_abstract_type s parent); [naive_solver|]. split; [by intros [?|?%elem_of_nil]; left|].
  by intros [?|[? _]]; [left|].
Qed.

Lemma field_of_composite T n ty :
  valid → own_name T = false → field_of s T n = Some ty → ∃ t, (T, t) ∈ composite ∧ (n, ty) ∈ fields t.
Proof.
  intros Hv HT Hf. unfold field_of in Hf. destruct (dict_get T (type_map s)) as [t|] eqn:Ht; [|done]. cbn in Hf.
  apply dict_get_elem in Ht, Hf. exists t. split; [|done]. apply list_elem_of_filter. split; [|done]. unfold is_composite. cbn [fst snd].
  unfold own_name in HT. rewrite HT. apply negb_true_iff, bool_decide_eq_false. intros Hk.
  rewrite (valid_leaves Hv _ _ Ht Hk) in Hf. by apply elem_of_nil in Hf.
Qed.

Lemma abstract_composite n : own_name n = false → is_abstract_type s n = true → ∃ t, (n, t) ∈ composite.
Proof.
  intros Hn Ha. unfold is_abstract_type, kind_of in Ha. destruct (dict_get n (type_map s)) as [t|] eqn:Ht; [|done]. cbn in Ha.
  exists t. apply list_elem_of_filter. split; [|by apply dict_get_elem]. unfold is_composite. cbn [fst snd]. unfold own_name in Hn. rewrite Hn.
  apply negb_true_iff, bool_decide_eq_false. intros Hk. by rewrite Hk in Ha.
Qed.

Lemma reaches_own n : reaches n → own_name n = false.
Proof.
  assert (∀ t, (n, t) ∈ composite → own_name n = false) as H.
  { intros t [Ht _]%list_elem_of_filter. unfold is_composite in Ht. cbn [fst snd] in Ht. by apply andb_true_iff in Ht as [?%negb_true_iff _]. }
  by destruct 1; eapply H.
Qed.

Lemma owner_reaches parent T :
  own_name parent = false → is_of parent T → reaches T → reaches parent.
Proof.
  intros Hp [->|[Ha HT]] Hr; [done|]. destruct (abstract_composite _ Hp Ha) as (t & Ht). by eapply reaches_possible.
Qed.

Lemma below_owner T n T' :
  possible_type s (Some T) n T' → ∃ ty o, field_of s T n = Some ty ∧ T' = Some o ∧ is_of (get_named_type ty) o.
Proof.
  intros (m & (parent & t & ty & [= <-] & Ht & Hty & <-) & HT'). unfold field_of. rewrite Ht. cbn. exists ty. destruct (is_abstract_type s (get_named_type ty)) eqn:Ha.
  - destruct HT' as (o & -> & Ho). exists o. unfold is_of. auto.
  - exists (get_named_type ty). unfold is_of. auto.
Qed.

Lemma below_own T n ty o :
  valid → own_name T = false → field_of s T n = Some ty → is_of (get_named_type ty) o →
  own_name (get_named_type ty) = false ∧ own_name o = false.
Proof.
  intros Hv HT Hf Ho. destruct (field_of_composite _ _ _ Hv HT Hf) as (t & [_ Ht]%list_elem_of_filter & Hin).
  assert (own_name (get_named_type ty) = false) as Hn by (by eapply valid_fields). split; [done|].
  destruct Ho as [->|[_ Ho]]; [done|]. by eapply valid_possible.
Qed.

Lemma collected_reaches T sels q f :
  valid → own_name T = false → collected (Some T) sels q f → resolver_at (place (Some T) q) f → reaches T.
Proof.
  intros Hv HT Hf Hr. remember (Some T) as T0 eqn:HT0. revert T HT HT0.
  induction Hf as [T0 sels f Hp|T0 sels f sub T' q g Hp Hsub Hpos _ IH]; intros T HT ->.
  - apply resolver_at_spec in Hr as [Hfield Hmark]. destruct (field_of s T (name f)) as [ty|] eqn:Hf; [|done].
    destruct (field_of_composite _ _ _ Hv HT Hf) as (t & Ht & Hin). unfold resolves_itself in Hmark.
    destruct (field_marker T (name f)) as [m|] eqn:Hm; [|done]. by eapply reaches_marked.
  - destruct (below_owner _ _ _ Hpos) as (ty & o & Hf & -> & Ho). destruct (below_own _ _ _ _ Hv HT Hf Ho) as [Hn Hown].
    destruct (field_of_composite _ _ _ Hv HT Hf) as (t & Ht & Hin). eapply reaches_field; [done|done|].
    eapply owner_reaches; [done|done|]. by eapply IH.
Qed.

Lemma collected_known T sels q f :
  collected (Some T) sels q f → resolver_at (place (Some T) q) f → dict_has T (type_map s) = true.
Proof.
  intros Hf Hr. assert (∃ n ty, field_of s T n = Some ty) as (n & ty & Hn).
  { remember (Some T) as T0 eqn:HT0. destruct Hf as [T0 sels f Hp|T0 sels f sub T' q g Hp Hsub Hpos Hg]; subst.
    - apply resolver_at_spec in Hr as [Hfield _]. destruct (field_of s T (name f)) as [ty|] eqn:Hn; [|done]. by exists (name f), ty.
    - destruct (below_owner _ _ _ Hpos) as (ty & o & Hf & _). by exists (name f), ty. }
  unfold field_of in Hn. unfold dict_has. by destruct (dict_get T (type_map s)).
Qed.

(** What is collected through a fragment, and what nothing is collected from. *)
Lemma collected_first T sel q f : (∀ g, ¬ picks lookup (condition_holds s) asked_for answer_all T [sel] g) → ¬ collected T [sel] q f.
Proof. intros Hn Hf. remember [sel] as l eqn:Hl. destruct Hf as [T l f Hp|T l f sub T' q g Hp]; subst; by eapply Hn. Qed.

Lemma collected_through_spread T k ds frag q f :
  lookup k = Some frag → collected T [FragmentSpreadNode k ds] q f →
  condition_holds s (Some (type_condition frag)) T ∧ collected T (fragment_selections frag) q f.
Proof.
  intros Hk Hf. remember [FragmentSpreadNode k ds] as l eqn:Hl. destruct Hf as [T l f Hp|T l f sub T' q g Hp ? ? ?]; subst;
    apply picks_one in Hp as (_ & frag' & Hk' & Happ & Hp); (replace frag with frag' by congruence); split; try done; by econstructor.
Qed.

Lemma collected_through_inline T c ds sub q f :
  collected T [InlineFragmentNode c ds sub] q f → condition_holds s c T ∧ collected T sub q f.
Proof.
  intros Hf. remember [InlineFragmentNode c ds sub] as l eqn:Hl. destruct Hf as [T l f Hp|T l f sub' T' q g Hp ? ? ?]; subst;
    apply picks_one in Hp as (_ & Happ & Hp); split; try done; by econstructor.
Qed.

(** ** A walk that answers yes has seen a resolver *)

(** The fields that are written, whatever the types of objects. *)
Abbreviation written := (SelectionLaws.collected lookup all_apply asked_for answer_all untyped None).

Lemma anyR_true {A} (f : A → result bool) l : anyR f l = Ok true → ∃ x, x ∈ l ∧ f x = Ok true.
Proof using Type.
  induction l as [|x l IH]; [done|]. cbn. destruct (f x) as [[]|] eqn:E; cbn; [|intros (y & ? & ?)%IH|done].
  - intros _. exists x. split; [by left|done].
  - exists y. split; [by right|done].
Qed.

Lemma written_through sel sub q g :
  (∀ h, picks lookup all_apply asked_for answer_all None sub h → picks lookup all_apply asked_for answer_all None [sel] h) →
  written sub q g → written [sel] q g.
Proof using Type. intros H Hg. inversion Hg; subst; econstructor; eauto. Qed.

Lemma written_elem sel sels q g : sel ∈ sels → written [sel] q g → written sels q g.
Proof using Type. intros Hin Hg. inversion Hg; subst; econstructor; try eassumption; apply picks_elem; exists sel; split; done. Qed.

Lemma selects_written reach depth parent sels spread :
  _selects s field_marker reach fragments variables depth parent (Some sels) spread = Ok true →
  ∃ q g o, written sels q g ∧ resolver_at (Some o) g.
Proof.
  revert parent sels spread. induction depth as [|depth IH]; intros parent sels spread; [done|]. cbn [_selects].
  destruct parent as [parent|]; [|done]. destruct (negb _); [done|].
  intros (sel & Hsel & Htrue)%anyR_true.
  assert (∃ q g o, written [sel] q g ∧ resolver_at (Some o) g) as (q & g & o & Hg & Ho).
  2: { exists q, g, o. split; [|done]. by eapply written_elem. }
  destruct sel as [f|k ds|c ds sub].
  - destruct (_included variables (directives f)) eqn:Hinc; [|done]. apply included_spec in Hinc. cbn [negb] in Htrue.
    assert (picks lookup all_apply asked_for answer_all None [Field f] f) as Hf by (by apply picks_one).
    apply anyR_true in Htrue as (owner & _ & Htrue). destruct (field_of s owner (name f)) as [t|] eqn:Hfo; [|done].
    destruct (resolves_itself field_marker owner f) eqn:Hres.
    + exists [], f, owner. split; [by apply collected_here|]. apply resolver_at_spec. by rewrite Hfo.
    + destruct (selection_set f) as [sub|] eqn:Hsub; [|by destruct depth].
      apply IH in Htrue as (q & g & o & Hg & Ho). exists ((f, None) :: q), g, o. split; [|done]. by eapply collected_below.
  - destruct (_included variables ds) eqn:Hinc; [|done]. apply included_spec in Hinc. cbn [negb] in Htrue.
    destruct (dict_get k fragments) as [frag|] eqn:Hk; [|done]. destruct (k in_ spread); [done|].
    apply IH in Htrue as (q & g & o & Hg & Ho). exists q, g, o. split; [|done]. eapply written_through; [|done].
    intros h Hh. apply picks_one. split; [done|]. by exists frag.
  - destruct (_included variables ds) eqn:Hinc; [|done]. apply included_spec in Hinc. cbn [negb] in Htrue.
    apply IH in Htrue as (q & g & o & Hg & Ho). exists q, g, o. split; [|done]. eapply written_through; [|done].
    intros h Hh. by apply picks_one.
Qed.

Context (reach : list string) (Hreach : ∀ n, n ∈ reach ↔ reaches n) (Hvalid : valid).

Abbreviation selects := (_selects s field_marker reach fragments variables).
Abbreviation fits := (fits lookup).

(** A walk that answers, and does not answer no when a resolver is collected. *)
Definition sees (parent : string) (sels : list selection) (r : result bool) : Prop :=
  ∃ b, r = Ok b ∧
       ∀ T q f, is_of parent T → own_name T = false → collected (Some T) sels q f → resolver_at (place (Some T) q) f → b = true.

Lemma sees_nothing parent sels :
  (∀ T q f, is_of parent T → own_name T = false → collected (Some T) sels q f → resolver_at (place (Some T) q) f → False) →
  sees parent sels (Ok false).
Proof. intros H. exists false. split; [done|]. intros T q f H1 H2 H3 H4. by destruct (H T q f). Qed.

Lemma selects_none depth parent spread : 0 < depth → selects depth parent None spread = Ok false.
Proof. by destruct depth, parent; [lia|lia| |]. Qed.

Section step.
Context (n depth : nat) (parent : string) (spread : list string).
Context (Hparent : own_name parent = false) (Hdepth : n < depth).
Context (IH : ∀ m sels parent spread, m ≤ n → own_name parent = false → fits m sels = true →
  (∀ x frag k, x ∈ spread → lookup x = Some frag → fits k (fragment_selections frag) = true → m ≤ k) →
  sees parent sels (selects depth (Some parent) (Some sels) spread)).
Context (Hspread : ∀ x frag k, x ∈ spread → lookup x = Some frag → fits k (fragment_selections frag) = true → S n ≤ k).

Lemma sees_field f :
  (∀ sub, selection_set f = Some sub → fits n sub = true) → _included variables (directives f) = true →
  sees parent [Field f]
    (anyR (λ owner, match field_of s owner (name f) with
                    | None => Ok false
                    | Some t => if resolves_itself field_marker owner f then Ok true
                                else selects depth (Some (get_named_type t)) (selection_set f) spread
                    end) (owners s parent)).
Proof.
  intros Hsub Hinc.
  assert (Hbelow : ∀ o ty, field_of s o (name f) = Some ty → own_name o = false →
    ∃ b, selects depth (Some (get_named_type ty)) (selection_set f) spread = Ok b ∧
         ∀ sub T q g, selection_set f = Some sub → is_of (get_named_type ty) T → own_name T = false →
           collected (Some T) sub q g → resolver_at (place (Some T) q) g → b = true).
  { intros o ty Ho Hown. destruct (selection_set f) as [sub|] eqn:Hs; [|exists false; split; [apply selects_none; lia|done]].
    destruct (IH n sub (get_named_type ty) spread) as (b & -> & Hb); [done| |by apply Hsub| |].
    - destruct (field_of_composite _ _ _ Hvalid Hown Ho) as (t & [_ Ht]%list_elem_of_filter & Hin). by eapply valid_fields.
    - intros x frag k Hx Hx' Hk. specialize (Hspread _ _ _ Hx Hx' Hk). lia.
    - exists b. split; [done|]. intros sub' T q g [= <-]. apply Hb. }
  assert (Hown : ∀ o, o ∈ owners s parent → own_name o = false).
  { intros o [->|[_ Ho]]%owner_elem; [done|]. by eapply valid_possible. }
  match goal with |- sees _ _ (anyR ?F _) => destruct (anyR_Ok F (owners s parent)) as (b & -> & Hb) end.
  { intros o Ho. destruct (field_of s o (name f)) as [ty|] eqn:Hf; [|by eexists]. destruct (resolves_itself field_marker o f); [by eexists|].
    destruct (Hbelow o ty Hf (Hown _ Ho)) as (b & -> & _). by exists b. }
  exists b. split; [done|]. intros T q g HT HTown Hg Hr. apply (Hb T (proj2 (owner_elem parent T) HT)).
  remember [Field f] as l eqn:Hl. remember (Some T) as T0 eqn:HT0. destruct Hg as [T0 l g Hp|T0 l h sub T' q g Hp Hs Hpos Hg]; subst.
  - apply picks_one in Hp as (-> & _). apply resolver_at_spec in Hr as [Hfield Hres]. destruct (field_of s T (name f)); [|done]. by rewrite Hres.
  - apply picks_one in Hp as (-> & _). destruct (below_owner _ _ _ Hpos) as (ty & o & Hf & -> & Ho). rewrite Hf.
    destruct (resolves_itself field_marker T f); [done|]. destruct (Hbelow T ty Hf HTown) as (b' & -> & Hb'). f_equal.
    destruct (below_own _ _ _ _ Hvalid HTown Hf Ho). by eapply Hb'.
Qed.

(** The type a fragment is walked on, when it applies to an object. *)
Lemma target_owner c T :
  condition_holds s (Some c) (Some T) → dict_has T (type_map s) = true → own_name T = false →
  get_type s c = Some c ∧ is_of c T ∧ own_name c = false.
Proof.
  intros [->|(Ha & _ & Hs)] HT Hown.
  - split; [unfold get_type; by rewrite HT|]. split; [by left|done].
  - destruct (valid_possible Hvalid _ _ Hs) as [Hc _]. split; [|split; [|done]].
    + unfold get_type, dict_has. unfold is_abstract_type, kind_of in Ha. by destruct (dict_get c (type_map s)).
    + by right.
Qed.

Lemma sees_fragment m c sels spread' :
  m ≤ n → fits m sels = true →
  (∀ x frag k, x ∈ spread' → lookup x = Some frag → fits k (fragment_selections frag) = true → m ≤ k) →
  ∃ b, selects depth (get_type s c) (Some sels) spread' = Ok b ∧
       ∀ T q f, condition_holds s (Some c) (Some T) → own_name T = false → collected (Some T) sels q f →
                resolver_at (place (Some T) q) f → b = true.
Proof.
  intros Hm Hfit Hsp. destruct (get_type s c) as [c'|] eqn:Hc.
  - assert (c' = c) as -> by (unfold get_type in Hc; destruct (dict_has c _); congruence).
    destruct (own_name c) eqn:Hcown.
    + exists false. split.
      * destruct depth as [|d]; [lia|]. cbn [_selects]. assert (str_in c reach = false) as ->; [|done].
        apply not_true_iff_false. rewrite str_in_true, Hreach. intros Hr. apply reaches_own in Hr. congruence.
      * intros T q f Happ HT Hf Hr. destruct (target_owner c T Happ ltac:(by eapply collected_known) HT) as (_ & _ & ?). congruence.
    + destruct (IH m sels c spread' Hm Hcown Hfit Hsp) as (b & -> & Hb). exists b. split; [done|]. intros T q f Happ HT Hf Hr.
      destruct (target_owner c T Happ ltac:(by eapply collected_known) HT) as (_ & Ho & _). by eapply Hb.
  - exists false. split; [destruct depth; [lia|done]|]. intros T q f Happ HT Hf Hr.
    destruct (target_owner c T Happ ltac:(by eapply collected_known) HT) as (? & _). congruence.
Qed.
End step.

Lemma selects_sees n depth parent sels spread :
  own_name parent = false → fits n sels = true → n < depth →
  (∀ x frag k, x ∈ spread → lookup x = Some frag → fits k (fragment_selections frag) = true → n ≤ k) →
  sees parent sels (selects depth (Some parent) (Some sels) spread).
Proof.
  revert depth parent sels spread. induction n as [n IH] using lt_wf_ind. intros depth parent sels spread Hparent Hfit Hdepth Hspread.
  destruct n as [|n]; [done|]. destruct depth as [|depth]; [lia|]. cbn [_selects].
  destruct (parent in_ reach) eqn:Hin; cbn [negb].
  2: { apply sees_nothing. intros T q f HT HTown Hf Hr. apply not_true_iff_false in Hin. apply Hin, str_in_true, Hreach.
       eapply owner_reaches; [done|done|]. by eapply collected_reaches. }
  assert (IH' : ∀ m sels parent spread, m ≤ n → own_name parent = false → fits m sels = true →
    (∀ x frag k, x ∈ spread → lookup x = Some frag → fits k (fragment_selections frag) = true → m ≤ k) →
    sees parent sels (selects depth (Some parent) (Some sels) spread)) by (intros; apply (IH m); [lia|done|done|lia|done]).
  apply fits_S in Hfit as [_ Hfit].
  match goal with |- sees _ _ (anyR ?F _) => assert (Hsel : ∀ sel, sel ∈ sels → sees parent [sel] (F sel)) end.
  { intros sel Hsel. specialize (Hfit _ Hsel). destruct sel as [f|k ds|c ds sub].
    - destruct (_included variables (directives f)) eqn:Hinc; cbn [negb].
      + by apply (sees_field n depth parent spread Hparent ltac:(lia) IH' Hspread).
      + apply sees_nothing. intros T q g _ _ Hg _. apply collected_member in Hg as (? & ->%list_elem_of_singleton & Hg).
        revert Hg. apply collected_first. intros h (_ & ?%included_spec & _)%picks_one. congruence.
    - destruct (_included variables ds) eqn:Hinc; cbn [negb].
      2: { apply sees_nothing. intros T q g _ _ Hg _. revert Hg. apply collected_first. intros h (?%included_spec & _)%picks_one. congruence. }
      destruct Hfit as (frag & Hk & Hfit). rewrite Hk.
      assert (str_in k spread = false) as ->.
      { apply not_true_iff_false. rewrite str_in_true. intros Hx. specialize (Hspread _ _ _ Hx Hk Hfit). lia. }
      destruct (fits_least _ _ _ Hfit) as (m & Hm & Hfm & Hleast).
      destruct (sees_fragment n depth ltac:(lia) IH' m (type_condition frag) (fragment_selections frag) (k :: spread) Hm Hfm) as (b & -> & Hb).
      { intros x frag' j [->|Hx]%elem_of_cons Hx' Hj; [replace frag' with frag in Hj by congruence; auto|].
        specialize (Hspread _ _ _ Hx Hx' Hj). lia. }
      exists b. split; [done|]. intros T q f HT HTown Hf Hr.
      apply collected_through_spread with (frag := frag) in Hf as [Happ Hf]; [|done]. by eapply Hb.
    - destruct (_included variables ds) eqn:Hinc; cbn [negb].
      2: { apply sees_nothing. intros T q g _ _ Hg _. revert Hg. apply collected_first. intros h (?%included_spec & _)%picks_one. congruence. }
      assert (Hsp : ∀ x frag k, x ∈ spread → lookup x = Some frag → fits k (fragment_selections frag) = true → n ≤ k).
      { intros x frag k Hx Hx' Hk. specialize (Hspread _ _ _ Hx Hx' Hk). lia. }
      destruct c as [c|].
      + destruct (sees_fragment n depth ltac:(lia) IH' n c sub spread ltac:(lia) Hfit Hsp) as (b & -> & Hb).
        exists b. split; [done|]. intros T q f HT HTown Hf Hr. apply collected_through_inline in Hf as [Happ Hf]. by eapply Hb.
      + destruct (IH' n sub parent spread ltac:(lia) Hparent Hfit Hsp) as (b & -> & Hb).
        exists b. split; [done|]. intros T q f HT HTown Hf Hr. apply collected_through_inline in Hf as [_ Hf]. by eapply Hb. }
  match goal with |- sees _ _ (anyR ?F _) => destruct (anyR_Ok F sels) as (b & -> & Hb) end.
  { intros sel Hin'. destruct (Hsel sel Hin') as (b & Hb & _). by exists b. }
  exists b. split; [done|]. intros T q f HT HTown Hf Hr. apply collected_member in Hf as (sel & Hin' & Hf).
  apply (Hb sel Hin'). destruct (Hsel sel Hin') as (b' & Hb' & Htrue). rewrite Hb'. f_equal. by eapply Htrue.
Qed.
End laws.

Section queries.
Context (s : schema) (field_marker : string → string → option marker) (fragments : list (string * fragment)).
Context (variables : list (string * pyval)).

Abbreviation lookup := (λ n, dict_get n fragments).
Abbreviation collected := (collected lookup (condition_holds s) (asked_for variables) answer_all (possible_type s)).
Abbreviation written := (SelectionLaws.collected lookup all_apply (asked_for variables) answer_all untyped None).

Lemma schema_reach :
  ∃ reach, _reaching s field_marker (S (length (type_map s))) = Some reach ∧ ∀ n, n ∈ reach ↔ reaches s field_marker n.
Proof. apply reaching_spec. unfold composite. pose proof (length_filter (λ t, is_composite t = true) (type_map s)). lia. Qed.

(** C10. A query whose rows would be answered as the Rust pipeline wrote them selects no field
    resolver: the walk answers for every valid document within its depth, and when it
    answers no, no field that GraphQL collects below the field, at any depth, for any of
    the types its objects may be, through fragments on types, interfaces and unions, but
    for what a [@skip] that is true or an [@include] that is false leaves out, is one that is
    resolved on its own.  When it answers yes, a field that is written there and not left
    out is one for some type. *)
Theorem no_field_resolver_is_passed_over n depth return_type nodes :
  valid s → own_name (get_named_type return_type) = false → n < depth →
  (∀ f sels, f ∈ nodes → selection_set f = Some sels → fits lookup n sels = true) →
  ∃ b,
    selects_field_resolver s field_marker depth fragments variables return_type nodes = Ok b ∧
    (b = false →
     ∀ f sels T q g, f ∈ nodes → selection_set f = Some sels → is_of s (get_named_type return_type) T → own_name T = false →
       collected (Some T) sels q g → ¬ resolver_at s field_marker (place (Some T) q) g) ∧
    (b = true →
     ∃ f sels q g T, f ∈ nodes ∧ selection_set f = Some sels ∧ written sels q g ∧ resolver_at s field_marker (Some T) g).
Proof.
  intros Hv Hown Hd Hfit. unfold selects_field_resolver. destruct schema_reach as (reach & -> & Hreach).
  destruct (get_named_type return_type in_ reach) eqn:Hin; cbn [negb].
  - match goal with |- ∃ b, anyR ?F _ = _ ∧ _ => assert (Hone : ∀ f, f ∈ nodes → ∃ b, F f = Ok b ∧
      ∀ sels T q g, selection_set f = Some sels → is_of s (get_named_type return_type) T → own_name T = false →
        collected (Some T) sels q g → resolver_at s field_marker (place (Some T) q) g → b = true);
      [|destruct (anyR_Ok F nodes) as (b & Hany & Hb)] end.
    + intros f Hf. destruct (selection_set f) as [sels|] eqn:Hs; [|exists false; split; [by apply selects_none; lia|done]].
      destruct (selects_sees s field_marker fragments variables reach Hreach Hv n depth (get_named_type return_type) sels [] Hown (Hfit f sels Hf Hs) Hd) as (b & -> & Hb).
      { by intros ? ? ? ?%elem_of_nil. }
      exists b. split; [done|]. intros sels' T q g [= <-]. apply Hb.
    + intros f Hf. destruct (Hone f Hf) as (b & Hb & _). by exists b.
    + exists b. split; [done|]. split.
      * intros -> f sels T q g Hf Hs HT HTown Hg Hr. destruct (Hone f Hf) as (b & Hb' & Htrue).
        specialize (Htrue sels T q g Hs HT HTown Hg Hr). subst b. by specialize (Hb f Hf Hb').
      * intros ->. apply anyR_true in Hany as (f & Hf & Hsel). destruct (selection_set f) as [sels|] eqn:Hs.
        -- apply selects_written in Hsel as (q & g & T & Hg & Hr). by exists f, sels, q, g, T.
        -- exfalso. rewrite (selects_none s field_marker fragments variables reach) in Hsel by lia. done.
  - exists false. split; [done|]. split; [|done]. intros _ f sels T q g Hf Hs HT HTown Hg Hr. apply not_true_iff_false in Hin. apply Hin, str_in_true, Hreach.
    eapply owner_reaches; [done|done|]. by eapply collected_reaches.
Qed.
End queries.

(** ** A schema with a resolver *)

Lemma blog_valid : valid blog.
Proof.
  split.
  - intros n t f ty Hin _ Hf.
    assert (Forall (λ x, Forall (λ y, own_name (get_named_type y.2) = false) (fields x.2)) (type_map blog)) as H by (repeat constructor).
    rewrite Forall_forall in H. specialize (H _ Hin). cbn in H. rewrite Forall_forall in H. by apply (H (f, ty)).
  - intros n p. cbn. destruct (n =s "Actor") eqn:Hn; [|by intros ?%elem_of_nil]. apply bool_decide_eq_true in Hn as ->.
    intros Hp. split; [done|]. repeat (apply elem_of_cons in Hp as [->|Hp]; [done|]). by apply elem_of_nil in Hp.
  - intros n t Hin Hk.
    assert (Forall (λ x, kind x.2 = LeafType → fields x.2 = []) (type_map blog)) as H by (repeat constructor; done).
    rewrite Forall_forall in H. exact (H _ Hin Hk).
Qed.

(** The address of a user is a method of the class. *)
Definition email_is_a_method (t f : string) : option marker := if (t =s "User") && (f =s "email") then Some Always else None.

Lemma reaching_is_what_leads_to_a_resolver_witness :
  _reaching blog email_is_a_method 7 = Some ["CreatePostSuccess"; "Post"; "Actor"; "User"] ∧ reaches blog email_is_a_method "Post".
Proof.
  split; [vm_compute; reflexivity|].
  destruct (reaching_is_what_leads_to_a_resolver blog email_is_a_method 7 ltac:(vm_compute; lia)) as (reach & Hr & Hiff).
  apply Hiff. assert (reach = ["CreatePostSuccess"; "Post"; "Actor"; "User"]) as ->.
  { assert (_reaching blog email_is_a_method 7 = Some ["CreatePostSuccess"; "Post"; "Actor"; "User"]) as H by (vm_compute; reflexivity). congruence. }
  right. left.
Defined.

Definition post_field : field :=
  FieldNode None "post" [] []
    (Some [plain "title" None; plain "author" (Some [plain "name" None; InlineFragmentNode (Some "Bot") [] [plain "name" None]])]).

Lemma no_field_resolver_is_passed_over_witness :
  selects_field_resolver blog email_is_a_method 5 [] [] (NamedType "Post") [post_field] = Ok false ∧
  ∀ q g, collected (λ n, dict_get n []) (condition_holds blog) (asked_for []) answer_all (possible_type blog) (Some "Post")
           (default [] (selection_set post_field)) q g →
         ¬ resolver_at blog email_is_a_method (place (Some "Post") q) g.
Proof.
  assert (Hno : selects_field_resolver blog email_is_a_method 5 [] [] (NamedType "Post") [post_field] = Ok false) by (vm_compute; reflexivity).
  split; [exact Hno|].
  destruct (no_field_resolver_is_passed_over blog email_is_a_method [] [] 4 5 (NamedType "Post") [post_field] blog_valid eq_refl ltac:(lia))
    as (b & Hb & H & _).
  { intros f sels ->%list_elem_of_singleton [= <-]. reflexivity. }
  assert (b = false) as -> by congruence. intros q g Hg.
  apply (H eq_refl post_field (default [] (selection_set post_field)) "Post" q g); [by left|reflexivity|by left|reflexivity|exact Hg].
Defined.

(** The name of an author is read from the row, a user's address by its method; a user whose
    address is skipped is read from the row. *)
Example who_is_resolved :
  let author sel := FieldNode None "post" [] [] (Some [plain "author" (Some [InlineFragmentNode (Some "User") [] [sel]])]) in
  let asked f := selects_field_resolver blog email_is_a_method 9 [] [] (NamedType "Post") [f] in
  let skip := {| directive_name := "skip"; directive_arguments := [("if", BooleanValueNode true)] |} in
  asked (author (plain "name" None)) = Ok false ∧ asked (author (plain "email" None)) = Ok true ∧
  asked (author (Field (FieldNode None "email" [] [skip] None))) = Ok false.
Proof. vm_compute. done. Qed.

(** The two readings of a variable without a value differ: the search keeps the field, the
    paths of a request with several root fields leave it out. *)
Example a_variable_without_a_value :
  let include := {| directive_name := "include"; directive_arguments := [("if", VariableNode "v")] |} in
  _included [] [include] = true ∧ _should_include_field [] [include] = false.
Proof. vm_compute. done. Qed.
