(* ===== verification/DataLoader.v ===== *)
(** * Batched loads ([optimization/dataloader.py], [optimization/registry.py])

    The loads of a request wait for a promise that the dispatcher of a batch settles; all of
    them run in one event loop, so an event is what one of them does between two of its
    awaits, and a history is any order of events that their states allow.  What [batch_load]
    comes to is in the events. *)
From stdpp Require Import base decidable strings gmap list.
From Stdlib Require Import ZArith Lia.
From S2P Require Import Prelude.

Local Open Scope py_scope.

(** ** The loader *)
Section loader.
Context {K V : Type} `{Countable K}.
(** [_max_batch_size] and [_cache_enabled]. *)
Context (max_batch_size : Z) (cache_enabled : bool).

(** A value may be [None], as may what is primed.  The promise of the batch is the number
    under which it was created. *)
Record loader := {
  _cache : gmap K (option V);
  _queue : list K;
  _batch_promise : option nat;
  _dispatch_scheduled : bool
}.

Definition new_loader : loader :=
  {| _cache := ∅; _queue := []; _batch_promise := None; _dispatch_scheduled := false |}.

Definition with_cache (c : gmap K (option V)) (s : loader) : loader :=
  {| _cache := c; _queue := _queue s; _batch_promise := _batch_promise s; _dispatch_scheduled := _dispatch_scheduled s |}.

Definition with_queue (q : list K) (s : loader) : loader :=
  {| _cache := _cache s; _queue := q; _batch_promise := _batch_promise s; _dispatch_scheduled := _dispatch_scheduled s |}.

Definition with_promise (p : option nat) (s : loader) : loader :=
  {| _cache := _cache s; _queue := _queue s; _batch_promise := p; _dispatch_scheduled := _dispatch_scheduled s |}.

Definition with_scheduled (b : bool) (s : loader) : loader :=
  {| _cache := _cache s; _queue := _queue s; _batch_promise := _batch_promise s; _dispatch_scheduled := b |}.

Definition prime (k : K) (v : option V) (s : loader) : loader :=
  if cache_enabled then with_cache (<[k := v]> (_cache s)) s else s.

Definition clear (k : option K) (s : loader) : loader :=
  match k with
  | Some k => with_cache (delete k (_cache s)) s
  | None => with_cache ∅ s
  end.

(** [list(dict.fromkeys(l))] *)
Fixpoint fromkeys (seen : list K) (l : list K) : list K :=
  match l with
  | [] => []
  | k :: l => if bool_decide (k ∈ seen) then fromkeys seen l else k :: fromkeys (k :: seen) l
  end.

Fixpoint chunks (size rounds : nat) (l : list K) : list (list K) :=
  match rounds, l with
  | S rounds, _ :: _ => take size l :: chunks size rounds (drop size l)
  | _, _ => []
  end.

(** The slices at [range(0, len(l), max_batch_size)]: a step of zero is refused, a negative
    one gives none. *)
Definition batches (l : list K) : result (list (list K)) :=
  if (max_batch_size =? 0)%Z then raise ValueError
  else if (max_batch_size <? 0)%Z then Ok []
  else Ok (chunks (Z.to_nat max_batch_size) (length l) l).

(** [zip(batch, results)], into the cache. *)
Definition cache_results (batch : list K) (results : list (option V)) (s : loader) : loader :=
  if cache_enabled then
    with_cache (foldl (λ c kv, match kv.2 with Some v => <[kv.1 := Some v]> c | None => c end)
                      (_cache s) (zip batch results)) s
  else s.

(** ** The loop it runs in *)

(** A promise is a future; a load that is cancelled while it waits cancels it. *)
Inductive promise := Pending | Resolved | Rejected | Cancelled.

Inductive call :=
| Waiting (k : K) (p : nat)
| Returned (k : K) (v : option V)
| Raised (k : K) (e : exn)
| Stopped (k : K).

(** A dispatcher: it has given way once, or waits for a batch with others to come. *)
Inductive dispatcher := Yielding | Loading (batch : list K) (rest : list (list K)).

(** [asked] is what [batch_load] has been called with. *)
Record loop := {
  self : loader;
  promises : list promise;
  calls : list call;
  tasks : gmap nat dispatcher;
  created : nat;
  asked : list (list K)
}.

Definition start : loop :=
  {| self := new_loader; promises := []; calls := []; tasks := ∅; created := 0; asked := [] |}.

Definition with_self (s : loader) (w : loop) : loop :=
  {| self := s; promises := promises w; calls := calls w; tasks := tasks w; created := created w; asked := asked w |}.

Definition with_calls (c : list call) (w : loop) : loop :=
  {| self := self w; promises := promises w; calls := c; tasks := tasks w; created := created w; asked := asked w |}.

Definition with_promises (p : list promise) (w : loop) : loop :=
  {| self := self w; promises := p; calls := calls w; tasks := tasks w; created := created w; asked := asked w |}.

Definition with_tasks (t : gmap nat dispatcher) (w : loop) : loop :=
  {| self := self w; promises := promises w; calls := calls w; tasks := t; created := created w; asked := asked w |}.

Definition with_asked (a : list (list K)) (w : loop) : loop :=
  {| self := self w; promises := promises w; calls := calls w; tasks := tasks w; created := created w; asked := a |}.

(** [asyncio.create_task(self._dispatch_batch())] *)
Definition create_task (w : loop) : loop :=
  {| self := self w; promises := promises w; calls := calls w; tasks := <[created w := Yielding]> (tasks w);
     created := S (created w); asked := asked w |}.

(** The next number is the promise's. *)
Definition create_promise (w : loop) : loop :=
  with_promises (promises w ++ [Pending]) (with_self (with_promise (Some (length (promises w))) (self w)) w).

(** [load], up to its wait. *)
Definition load (k : K) (w : loop) : loop :=
  match (if cache_enabled then _cache (self w) !! k else None) with
  | Some v => with_calls (calls w ++ [Returned k v]) w
  | None =>
      let w := with_self (with_queue (_queue (self w) ++ [k]) (self w)) w in
      let w := if _dispatch_scheduled (self w) then w
               else create_task (with_self (with_scheduled true (self w)) w) in
      let w := match _batch_promise (self w) with Some _ => w | None => create_promise w end in
      match _batch_promise (self w) with
      | Some p => with_calls (calls w ++ [Waiting k p]) w
      | None => w
      end
  end.

(** The rest of [load], when the promise is settled. *)
Definition resumed (k : K) (p : promise) (w : loop) : option call :=
  match p with
  | Pending => None
  | Resolved => Some (Returned k (default None (_cache (self w) !! k)))
  | Rejected => Some (Raised k RuntimeError)
  | Cancelled => Some (Stopped k)
  end.

(** A promise is settled once; to settle it again raises, which changes nothing here. *)
Definition settle (p : nat) (o : promise) (l : list promise) : list promise :=
  alter (λ q, match q with Pending => o | q => q end) p l.

(** The end of a dispatcher: [set_result] or [set_exception], and the [finally]. *)
Definition finish (t : nat) (o : promise) (w : loop) : loop :=
  with_tasks (delete t (tasks w))
    (with_self (with_scheduled false (with_promise None (self w)))
       (match _batch_promise (self w) with
        | Some p => with_promises (settle p o (promises w)) w
        | None => w
        end)).

(** On to the next batch, or to the end. *)
Definition load_batches (t : nat) (l : list (list K)) (w : loop) : loop :=
  match l with
  | batch :: rest => with_asked (asked w ++ [batch]) (with_tasks (<[t := Loading batch rest]> (tasks w)) w)
  | [] => finish t Resolved w
  end.

(** [_dispatch_batch], when it has given way; the sizes are computed outside of its [try]. *)
Definition dispatch (t : nat) (w : loop) : loop :=
  match _queue (self w) with
  | [] => with_tasks (delete t (tasks w)) (with_self (with_scheduled false (self w)) w)
  | q =>
      let w := with_self (with_queue [] (self w)) w in
      match batches (fromkeys [] q) with
      | Ok l => load_batches t l w
      | Err _ => with_tasks (delete t (tasks w)) w
      end
  end.

(** When [batch_load] is back. *)
Definition loaded (t : nat) (batch : list K) (rest : list (list K)) (r : result (list (option V))) (w : loop) : loop :=
  match r with
  | Ok results =>
      if (length results =? length batch)%nat
      then load_batches t rest (with_self (cache_results batch results (self w)) w)
      else finish t Rejected w
  | Err _ => finish t Rejected w
  end.

(** *** Everything that can happen *)
Inductive event :=
| Loads (k : K)
| Resumes (c : nat)
| Cancels (c : nat)
| Dispatches (t : nat)
| Loaded (t : nat) (r : result (list (option V)))
| Primes (k : K) (v : option V)
| Clears (k : option K).

(** The loop after an event; [None] if the event cannot happen. *)
Definition step (w : loop) (e : event) : option loop :=
  match e with
  | Loads k => Some (load k w)
  | Resumes c =>
      match calls w !! c with
      | Some (Waiting k p) =>
          q ← promises w !! p;
          r ← resumed k q w;
          Some (with_calls (<[c := r]> (calls w)) w)
      | _ => None
      end
  | Cancels c =>
      match calls w !! c with
      | Some (Waiting k p) =>
          match promises w !! p with
          | Some Pending => Some (with_promises (settle p Cancelled (promises w)) w)
          | Some _ => Some (with_calls (<[c := Stopped k]> (calls w)) w)
          | None => None
          end
      | _ => None
      end
  | Dispatches t => match tasks w !! t with Some Yielding => Some (dispatch t w) | _ => None end
  | Loaded t r => match tasks w !! t with Some (Loading batch rest) => Some (loaded t batch rest r w) | _ => None end
  | Primes k v => Some (with_self (prime k v (self w)) w)
  | Clears k => Some (with_self (clear k (self w)) w)
  end.

Fixpoint run (w : loop) (l : list event) : option loop :=
  match l with
  | [] => Some w
  | e :: l => match step w e with Some w => run w l | None => None end
  end.

(** [load_many]: its loads begin in order before anything they have scheduled. *)
Definition load_many (keys : list K) (w : loop) : loop := foldl (λ w k, load k w) w keys.
End loader.
Arguments loader K V {_ _}.
Arguments loop K V {_ _}.
Arguments event K V : clear implicits.
Arguments call K V : clear implicits.
Arguments dispatcher K : clear implicits.

(** ** The loaders of a request

    [LoaderRegistry], the classes of loaders by their names; a loader is the number of its
    object, and [cleared] lists the loaders whose caches were emptied. *)
Record LoaderRegistry := {
  _loaders : list (string * nat);
  _custom_loaders : list (string * nat);
  objects : nat;
  cleared : list nat
}.

Definition get_loader (loader_class : string) (r : LoaderRegistry) : nat * LoaderRegistry :=
  match dict_get loader_class (_loaders r) with
  | Some l => (l, r)
  | None =>
      (objects r, {| _loaders := dict_set loader_class (objects r) (_loaders r); _custom_loaders := _custom_loaders r;
                     objects := S (objects r); cleared := cleared r |})
  end.

Definition register_loader (name : string) (l : nat) (r : LoaderRegistry) : LoaderRegistry :=
  {| _loaders := _loaders r; _custom_loaders := dict_set name l (_custom_loaders r); objects := objects r; cleared := cleared r |}.

Definition get_custom_loader (name : string) (r : LoaderRegistry) : option nat := dict_get name (_custom_loaders r).

Definition clear_all (r : LoaderRegistry) : LoaderRegistry :=
  {| _loaders := []; _custom_loaders := []; objects := objects r;
     cleared := cleared r ++ (_loaders r).*2 ++ (_custom_loaders r).*2 |}.

(** The function a resolver calls: [None] stands for no registry in the context, and
    [is_loader] for what [issubclass] says of the class. *)
Definition resolver_get_loader (current : option LoaderRegistry) (is_loader : string → bool) (loader_class : string) :
  result (nat * LoaderRegistry) :=
  match current with
  | None => raise RuntimeError
  | Some r => if is_loader loader_class then Ok (get_loader loader_class r) else raise ValueError
  end.

(** * Laws: Laws of batched loads

    A loader's dispatcher and its promise come and go together, so that every load is
    answered; what a load returns is a value of its key; and loads that no batch in flight
    overtakes are single lookups, made in as few batches as their keys fill. *)

(** ** Keys and batches *)
Section keys.
Context {K : Type} `{Countable K}.
Implicit Types l seen : list K.

Lemma elem_of_fromkeys seen l k : k ∈ fromkeys seen l ↔ k ∈ l ∧ k ∉ seen.
Proof.
  revert seen. induction l as [|x l IH]; intros seen; cbn; [set_solver|].
  case_bool_decide; [|rewrite elem_of_cons]; rewrite IH; [set_solver|].
  destruct (decide (k = x)); set_solver.
Qed.

Lemma NoDup_fromkeys seen l : NoDup (fromkeys seen l).
Proof.
  revert seen. induction l as [|x l IH]; intros seen; cbn; [constructor|].
  case_bool_decide; [done|]. constructor; [|done]. rewrite elem_of_fromkeys. set_solver.
Qed.

Lemma concat_chunks size rounds l : 0 < size → length l ≤ rounds → concat (chunks size rounds l) = l.
Proof.
  intros Hs. revert l. induction rounds as [|n IH]; intros [|x l]; cbn; try done; [lia|].
  intros Hl. rewrite IH; [apply take_drop|]. rewrite length_drop. cbn. lia.
Qed.

Lemma chunks_short size rounds l : Forall (λ b, length b ≤ size) (chunks size rounds l).
Proof.
  revert l. induction rounds as [|n IH]; intros [|x l]; cbn [chunks]; try constructor; [|done].
  rewrite length_take. lia.
Qed.

Lemma chunks_few size rounds l : length (chunks size rounds l) ≤ rounds.
Proof. revert l. induction rounds as [|n IH]; intros [|x l]; cbn; [lia..|]. specialize (IH (drop size (x :: l))). cbn in IH. lia. Qed.

Lemma fromkeys_short seen l : length (fromkeys seen l) ≤ length l.
Proof. revert seen. induction l as [|x l IH]; intros seen; cbn; [done|]. case_bool_decide; cbn; [specialize (IH seen)|specialize (IH (x :: seen))]; lia. Qed.
End keys.

Section laws.
Context {K V : Type} `{Countable K}.
Context (max_batch_size : Z) (cache_enabled : bool).
Hypothesis some_batch : (0 < max_batch_size)%Z.
Implicit Types (w : loop K V) (e : event K V).
Abbreviation step := (step (V := V) max_batch_size cache_enabled).
Abbreviation run := (run (V := V) max_batch_size cache_enabled).
Abbreviation load := (load (V := V) cache_enabled).
Abbreviation load_many := (load_many (V := V) cache_enabled).

Lemma run_cons_app w l l' : run w (l ++ l') = match run w l with Some w => run w l' | None => None end.
Proof. revert w. induction l as [|e l IH]; intros w; cbn; [done|]. destruct (step w e); [apply IH|done]. Qed.

(** Induction along a history, for what each event keeps. *)
Lemma run_keeps (P : loop K V → Prop) w l w' :
  (∀ w e w', P w → step w e = Some w' → P w') → P w → run w l = Some w' → P w'.
Proof.
  intros HP. revert w. induction l as [|e l IH]; intros w Hw; cbn; [by intros [= <-]|].
  destruct (step w e) as [w1|] eqn:Hs; [|done]. by apply IH, (HP w e).
Qed.

Lemma batches_ok (q : list K) :
  batches max_batch_size q = Ok (chunks (Z.to_nat max_batch_size) (length q) q).
Proof. unfold batches. destruct (Z.eqb_spec max_batch_size 0); [lia|]. destruct (Z.ltb_spec max_batch_size 0); [lia|done]. Qed.

(** ** The dispatcher and the promise *)

(** Not settled but by a load that was cancelled. *)
Definition unsettled p w : Prop := promises w !! p = Some Pending ∨ promises w !! p = Some Cancelled.

(** Either nothing is under way, or one dispatcher is and settles the promise of the loader;
    one that has not begun finds keys. *)
Definition under_way w : Prop :=
  (_dispatch_scheduled (self w) = false ∧ _batch_promise (self w) = None ∧ tasks w = ∅) ∨
  (∃ t d p, _dispatch_scheduled (self w) = true ∧ _batch_promise (self w) = Some p ∧ tasks w = {[t := d]} ∧
            unsettled p w ∧ (d = Yielding → _queue (self w) ≠ [])).

Definition awaited w : Prop :=
  ∀ c k p, calls w !! c = Some (Waiting k p) →
    ∃ q, promises w !! p = Some q ∧ (q = Pending → _batch_promise (self w) = Some p).

Definition orderly w : Prop := under_way w ∧ awaited w.

Lemma lookup_settle p o (l : list promise) i :
  settle p o l !! i = if decide (i = p) then (λ q, match q with Pending => o | q => q end) <$> l !! i else l !! i.
Proof. unfold settle. case_decide; [subst; by rewrite list_lookup_alter_eq|by rewrite list_lookup_alter_ne]. Qed.

Lemma lookup_snoc {A} (l : list A) x i y : (l ++ [x]) !! i = Some y → l !! i = Some y ∨ i = length l ∧ y = x.
Proof.
  intros [Hl|(Hi & Hx)]%lookup_app_Some; [by left|right].
  apply list_lookup_singleton_Some in Hx as [Hi' ->]. split; [lia|done].
Qed.

(** What [load] does when the cache does not answer. *)
Lemma load_cases k w :
  under_way w →
  (∃ v, cache_enabled = true ∧ _cache (self w) !! k = Some v ∧ load k w = with_calls (calls w ++ [Returned k v]) w) ∨
  (cache_enabled = true → _cache (self w) !! k = None) ∧
  ∃ t d p w', load k w = w' ∧ calls w' = calls w ++ [Waiting k p] ∧ tasks w' = {[t := d]} ∧
    _cache (self w') = _cache (self w) ∧ _queue (self w') = _queue (self w) ++ [k] ∧ asked w' = asked w ∧
    _dispatch_scheduled (self w') = true ∧ _batch_promise (self w') = Some p ∧
    ((tasks w = ∅ ∧ d = Yielding ∧ _batch_promise (self w) = None ∧ p = length (promises w) ∧ promises w' = promises w ++ [Pending]) ∨
     (tasks w = {[t := d]} ∧ _batch_promise (self w) = Some p ∧ promises w' = promises w ∧ unsettled p w)).
Proof.
  intros Hu. unfold DataLoader.load. destruct (if cache_enabled then _ else _) as [v|] eqn:Hc.
  { left. exists v. destruct cache_enabled; done. }
  right. split; [intros He; by rewrite He in Hc|].
  destruct Hu as [(Hs & Hp & Ht)|(t & d & p & Hs & Hp & Ht & Hl & _)]; cbn; rewrite Hs; cbn; rewrite Hp; cbn.
  - exists (created w), Yielding, (length (promises w)). eexists. split; [done|]. cbn. rewrite Ht, insert_empty. split_and!; [done..|by left].
  - rewrite Hp. exists t, d, p. eexists. split; [done|]. cbn. split_and!; [done..|by right].
Qed.

Lemma orderly_load k w : orderly w → orderly (load k w).
Proof using Type.
  intros [Hu Ha]. destruct (load_cases k w Hu) as [(v & _ & _ & ->)|(_ & t & d & p & w' & -> & Hc & Ht & _ & Hq & _ & Hs & Hp & Hor)].
  - split; [exact Hu|]. intros c k' p. cbn. intros [Hl|[_ ?]]%lookup_snoc; [by eapply Ha|done].
  - split.
    + right. exists t, d, p. split_and!; [done..| |].
      * unfold unsettled. destruct Hor as [(_ & _ & _ & -> & ->)|(_ & _ & -> & ?)]; [left; by apply list_lookup_middle|done].
      * intros _. rewrite Hq. by destruct (_queue (self w)).
    + intros c k' p'. rewrite Hc. intros [Hl|[_ [= -> ->]]]%lookup_snoc.
      * destruct (Ha _ _ _ Hl) as (q & Hq' & Hp'). exists q.
        destruct Hor as [(_ & _ & Hn & -> & ->)|(_ & Hn & -> & _)].
        -- split; [by apply lookup_app_l_Some|]. intros ->. specialize (Hp' eq_refl). congruence.
        -- split; [done|]. rewrite Hp, <- Hn. done.
      * destruct Hor as [(_ & _ & _ & -> & ->)|(_ & _ & -> & Hl)].
        -- exists Pending. split; [by apply list_lookup_middle|done].
        -- destruct Hl as [Hl|Hl]; by eexists.
Qed.

Lemma orderly_finish t d o w : o ≠ Pending → orderly w → tasks w !! t = Some d → orderly (finish t o w).
Proof using Type.
  intros Ho [Hu Ha] Ht. destruct Hu as [(_ & _ & Hn)|(t' & d' & p & Hs & Hp & Hn & Hl & _)]; [by rewrite Hn in Ht|].
  rewrite Hn in Ht. apply lookup_singleton_Some in Ht as [-> ->].
  unfold finish. rewrite Hp. split.
  - left. cbn. rewrite Hn. split_and!; [done..|apply delete_singleton_eq].
  - intros c k p'. cbn. intros Hc. destruct (Ha _ _ _ Hc) as (q & Hq & Hpend).
    rewrite lookup_settle. case_decide as E.
    + subst. rewrite Hq. cbn. eexists. split; [done|]. by destruct q.
    + exists q. split; [done|]. intros ->. specialize (Hpend eq_refl). congruence.
Qed.

Lemma orderly_next t d l w :
  orderly w → tasks w !! t = Some d → orderly (load_batches t l w).
Proof using Type.
  intros Ho Ht. destruct l as [|b l]; [by eapply orderly_finish|].
  destruct Ho as [[(_ & _ & Hn)|(t' & d' & p & Hs & Hp & Hn & Hl & _)] Ha]; [by rewrite Hn in Ht|].
  rewrite Hn in Ht. apply lookup_singleton_Some in Ht as [-> ->]. split; [|exact Ha].
  right. exists t, (Loading b l), p. cbn. rewrite Hn, insert_singleton_eq. by split_and!.
Qed.

Lemma orderly_caches c w : orderly w → orderly (with_self (with_cache c (self w)) w).
Proof. done. Qed.

(** The queue is taken as a whole. *)
Lemma dispatch_takes t w :
  orderly w → tasks w !! t = Some Yielding →
  ∃ q, _queue (self w) = q ∧ q ≠ [] ∧
    dispatch max_batch_size t w
    = load_batches t (chunks (Z.to_nat max_batch_size) (length (fromkeys [] q)) (fromkeys [] q))
        (with_self (with_queue [] (self w)) w).
Proof using some_batch.
  intros [[(_ & _ & Hn)|(t' & d' & p & Hs & Hp & Hn & Hl & Hq)] Ha] Ht; [by rewrite Hn in Ht|].
  rewrite Hn in Ht. apply lookup_singleton_Some in Ht as [-> ->].
  eexists. split_and!; [done|by apply Hq|]. unfold dispatch. destruct (_queue (self w)) eqn:E; [by destruct Hq|]. by rewrite batches_ok.
Qed.

Lemma chunks_nonempty size n (l : list K) : l ≠ [] → n = length l → chunks size n l ≠ [].
Proof. intros Hl ->. by destruct l. Qed.

Lemma fromkeys_nonempty (q : list K) : q ≠ [] → fromkeys [] q ≠ [].
Proof. by destruct q. Qed.

Lemma orderly_dispatch t w : orderly w → tasks w !! t = Some Yielding → orderly (dispatch max_batch_size t w).
Proof using some_batch.
  intros Ho Ht. destruct (dispatch_takes t w Ho Ht) as (q & Hq & Hne & ->).
  destruct (chunks _ _ _) as [|b l] eqn:Hc.
  { apply chunks_nonempty in Hc; [done|by apply fromkeys_nonempty|done]. }
  destruct Ho as [[(_ & _ & Hn)|(t' & d' & p & Hs & Hp & Hn & Hl & _)] Ha]; [by rewrite Hn in Ht|].
  rewrite Hn in Ht. apply lookup_singleton_Some in Ht as [-> ->]. split; [|exact Ha].
  right. exists t, (Loading b l), p. cbn. rewrite Hn, insert_singleton_eq. by split_and!.
Qed.

Lemma orderly_step w e w' : orderly w → step w e = Some w' → orderly w'.
Proof using some_batch.
  intros Ho. destruct e as [k|c|c|t|t r|k v|k]; cbn.
  - intros [= <-]. by apply orderly_load.
  - destruct (calls w !! c) as [[k p|k v|k x|k]|] eqn:Hc; [|done..]. intros (q & Hq & Hr)%bind_Some.
    apply bind_Some in Hr as (r & Hr & [= <-]). destruct Ho as [Hu Ha]. split; [exact Hu|].
    intros c' k' p'. cbn. destruct (decide (c = c')) as [<-|Hn]; [|rewrite list_lookup_insert_ne by done; apply Ha].
    rewrite list_lookup_insert_eq by by eapply lookup_lt_Some. by destruct q; cbn in Hr; simplify_eq.
  - destruct (calls w !! c) as [[k p|k v|k x|k]|] eqn:Hc; [|done..].
    destruct (promises w !! p) as [[]|] eqn:Hp; [|..|done].
    2-4: intros [= <-]; destruct Ho as [Hu Ha]; split; [exact Hu|]; intros c' k' p'; cbn;
      (destruct (decide (c = c')) as [<-|Hn];
        [by rewrite list_lookup_insert_eq by by eapply lookup_lt_Some|rewrite list_lookup_insert_ne by done; apply Ha]).
    intros [= <-]. destruct Ho as [Hu Ha]. split.
    + destruct Hu as [?|(t & d & p' & ? & ? & ? & ? & ?)]; [by left|right].
      exists t, d, p'. split_and!; try done. unfold unsettled in *. cbn. rewrite lookup_settle. case_decide; [subst; rewrite Hp; by right|done].
    + intros c' k' p' Hc'. cbn in Hc'. destruct (Ha _ _ _ Hc') as (q & Hq & Hpend). cbn. rewrite lookup_settle.
      case_decide; [subst; rewrite Hp; by eexists|by exists q].
  - destruct (tasks w !! t) as [[|b rest]|] eqn:Ht; [|done..]. intros [= <-]. by apply orderly_dispatch.
  - destruct (tasks w !! t) as [[|b rest]|] eqn:Ht; [done| |done]. intros [= <-].
    unfold loaded. destruct r as [results|]; [|by eapply orderly_finish].
    case_match; [|by eapply orderly_finish]. eapply (orderly_next t); [|exact Ht].
    unfold cache_results. by destruct cache_enabled.
  - intros [= <-]. unfold prime. by destruct cache_enabled.
  - intros [= <-]. by destruct k.
Qed.

Lemma orderly_start : orderly start.
Proof. split; [by left|]. by intros c k p. Qed.

Lemma orderly_history l w : run start l = Some w → orderly w.
Proof using some_batch. apply run_keeps; [apply orderly_step|apply orderly_start]. Qed.

(** ** Values are of their keys *)

(** What the program was told of values: what was primed, and what [batch_load] answered. *)
Definition told w e : list (K * option V) :=
  match e with
  | Primes k v => [(k, v)]
  | Loaded t (Ok results) =>
      match tasks w !! t with Some (Loading batch _) => zip batch results | _ => [] end
  | _ => []
  end.

Fixpoint told_by w (l : list (event K V)) : list (K * option V) :=
  match l with
  | [] => []
  | e :: l => told w e ++ match step w e with Some w => told_by w l | None => [] end
  end.

Definition holds_only (known : list (K * option V)) w : Prop :=
  (∀ k v, _cache (self w) !! k = Some v → (k, v) ∈ known) ∧
  (∀ k v, Returned k (Some v) ∈ calls w → (k, Some v) ∈ known).

Lemma holds_only_more known known' w : known ⊆ known' → holds_only known w → holds_only known' w.
Proof. intros Hs [Hc Hr]. split; intros k v Hk; [by apply Hs, Hc|by apply Hs, Hr]. Qed.

Lemma holds_only_same known w w' :
  (∀ k v, _cache (self w') !! k = Some v → _cache (self w) !! k = Some v) →
  calls w' = calls w → holds_only known w → holds_only known w'.
Proof. intros Hc Hr [Hk Hv]. split; [intros k v Hl; by apply Hk, Hc|]. by rewrite Hr. Qed.

Lemma cache_zip (kvs : list (K * option V)) (c : gmap K (option V)) k v :
  foldl (λ c kv, match kv.2 with Some v => <[kv.1 := Some v]> c | None => c end) c kvs !! k = Some v →
  c !! k = Some v ∨ (k, v) ∈ kvs.
Proof.
  revert c. induction kvs as [|[k' [v'|]] kvs IH]; intros c; cbn; [by left|..].
  - intros [Hc|Hk]%IH; [|right; by right]. destruct (decide (k' = k)) as [->|Hn].
    + rewrite lookup_insert_eq in Hc. injection Hc as <-. right. left.
    + rewrite lookup_insert_ne in Hc by done. by left.
  - intros [Hc|Hk]%IH; [by left|right; by right].
Qed.

Lemma load_batches_same t l w :
  self (load_batches t l w) = self w ∨ self (load_batches t l w) = with_scheduled false (with_promise None (self w)).
Proof. destruct l; cbn; [|by left]. unfold finish. destruct (_batch_promise (self w)); by right. Qed.

Lemma load_batches_cache t l w : _cache (self (load_batches t l w)) = _cache (self w).
Proof. by destruct (load_batches_same t l w) as [->| ->]. Qed.

Lemma finish_calls t o w : calls (finish t o w) = calls w.
Proof. unfold finish. by destruct (_batch_promise (self w)). Qed.

Lemma finish_cache t o w : _cache (self (finish t o w)) = _cache (self w).
Proof. unfold finish. by destruct (_batch_promise (self w)). Qed.

Lemma load_batches_calls t l w : calls (load_batches t l w) = calls w.
Proof. destruct l; [apply (finish_calls t Resolved)|done]. Qed.

Lemma elem_of_insert_call (l : list (call K V)) i x y : y ∈ <[i := x]> l → y = x ∨ y ∈ l.
Proof.
  intros (j & Hj)%list_elem_of_lookup. destruct (decide (i = j)) as [<-|Hn].
  - apply list_lookup_insert_Some in Hj as [(_ & <- & _)|(? & _)]; [by left|done].
  - rewrite list_lookup_insert_ne in Hj by done. right. by eapply list_elem_of_lookup_2.
Qed.

Lemma holds_only_step known w e w' :
  orderly w → holds_only known w → step w e = Some w' → holds_only (known ++ told w e) w'.
Proof using some_batch.
  intros Ho Hk. assert (holds_only (known ++ told w e) w) as Hk' by (eapply holds_only_more; [|done]; set_solver).
  destruct e as [k|c|c|t|t r|k v|k]; cbn -[told].
  - intros [= <-]. destruct (load_cases k w (proj1 Ho)) as [(v & _ & Hv & ->)|(_ & t & d & p & w' & -> & Hc & _ & Hcache & _)].
    + destruct Hk' as [H1 H2]. split; [exact H1|]. intros k' v'. cbn -[told].
      intros [Hin|[= -> <-]%list_elem_of_singleton]%elem_of_app; [by apply H2|by apply H1].
    + destruct Hk' as [H1 H2]. split; [by rewrite Hcache|]. intros k' v'. rewrite Hc.
      intros [Hin|?%list_elem_of_singleton]%elem_of_app; [by apply H2|done].
  - destruct (calls w !! c) as [[k p|k v|k x|k]|] eqn:Hc; [|done..]. intros (q & Hq & Hr)%bind_Some.
    apply bind_Some in Hr as (r & Hr & [= <-]). destruct Hk' as [H1 H2]. split; [exact H1|]. intros k' v' Hin.
    apply elem_of_insert_call in Hin as [<-|Hin]; [|by apply H2]. destruct q; cbn in Hr; simplify_eq.
    destruct (_cache (self w) !! k') as [o|] eqn:Hl; [|done]. cbn in *. subst o. by apply H1.
  - destruct (calls w !! c) as [[k p|k v|k x|k]|] eqn:Hc; [|done..].
    destruct (promises w !! p) as [[]|]; [| | | |done]; intros [= <-]; [exact Hk'|..];
      (destruct Hk' as [H1 H2]; split; [exact H1|]; intros k' v' Hin; apply elem_of_insert_call in Hin as [?|Hin]; [done|by apply H2]).
  - destruct (tasks w !! t) as [[|b rest]|] eqn:Ht; [|done..]. intros [= <-].
    destruct (dispatch_takes t w Ho Ht) as (q & _ & _ & ->).
    eapply holds_only_same; [|by rewrite load_batches_calls|exact Hk']. intros k v. by rewrite load_batches_cache.
  - cbn. destruct (tasks w !! t) as [[|b rest]|] eqn:Ht; [done| |done]. intros [= <-].
    destruct r as [results|x]; cbn.
    2: { eapply holds_only_same; [|by rewrite finish_calls|eapply holds_only_more; [|exact Hk]; set_solver].
         intros k v. by rewrite finish_cache. }
    cbn in Hk'. rewrite Ht in Hk'.
    case_match; [|eapply holds_only_same; [|by rewrite finish_calls|exact Hk']; intros k v; by rewrite finish_cache].
    split; intros k v.
    + rewrite load_batches_cache. unfold cache_results. destruct cache_enabled; [|apply Hk'].
      intros [Hl|Hin]%cache_zip; [by apply Hk'|]. apply elem_of_app. by right.
    + rewrite load_batches_calls. unfold cache_results. destruct cache_enabled; apply Hk'.
  - intros [= <-]. unfold prime. destruct cache_enabled; [|exact Hk']. destruct Hk' as [H1 H2]. split; [|exact H2].
    intros k' v'. cbn -[told]. destruct (decide (k = k')) as [<-|Hn].
    + rewrite lookup_insert_eq. intros [= <-]. cbn. apply elem_of_app. right. left.
    + rewrite lookup_insert_ne by done. apply H1.
  - intros [= <-]. destruct Hk' as [H1 H2]. destruct k as [k|]; (split; [|exact H2]); intros k' v'; cbn -[told].
    + intros [_ Hl]%lookup_delete_Some. by apply H1.
    + done.
Qed.

Lemma holds_only_run known w l w' :
  orderly w → holds_only known w → run w l = Some w' → holds_only (known ++ told_by w l) w'.
Proof using some_batch.
  revert known w. induction l as [|e l IH]; intros known w Ho Hk; cbn; [intros [= <-]; by rewrite app_nil_r|].
  destruct (step w e) as [w1|] eqn:Hs; [|done]. intros Hr. rewrite app_assoc.
  apply IH; [by eapply orderly_step|by eapply holds_only_step|done].
Qed.

(** Whatever loads, cancellations, failures, primings and clearings go before, in any
    order: a value that a load returns is one that was primed for its key, or that
    [batch_load] answered at its key's place in a batch. *)
Theorem values_are_of_their_key l w k v :
  run start l = Some w → Returned k (Some v) ∈ calls w → (k, Some v) ∈ told_by start l.
Proof using some_batch.
  intros Hr Hin. assert (holds_only [] (start (K := K) (V := V))) as H0 by (split; intros ??; cbn; [done|by intros ?%not_elem_of_nil]).
  by apply (holds_only_run [] start l w orderly_start H0 Hr).
Qed.

(** ** Every load is answered *)

(** What the dispatcher does next when [batch_load] is [ans], and the loop left to it. *)
Definition next (ans : list K → result (list (option V))) w : option (event K V) :=
  match map_to_list (tasks w) with
  | (t, Yielding) :: _ => Some (Dispatches t)
  | (t, Loading b _) :: _ => Some (Loaded t (ans b))
  | [] => None
  end.

Fixpoint settled ans (rounds : nat) w : loop K V :=
  match rounds with
  | S rounds => match next ans w ≫= step w with Some w => settled ans rounds w | None => w end
  | O => w
  end.

Definition rounds_left w : nat :=
  match map_to_list (tasks w) with
  | (_, Yielding) :: _ => S (length (_queue (self w)))
  | (_, Loading _ rest) :: _ => S (length rest)
  | [] => 0
  end.

(** The batches still to be asked. *)
Definition to_ask w : list (list K) :=
  match map_to_list (tasks w) with
  | (_, Yielding) :: _ =>
      let keys := fromkeys [] (_queue (self w)) in chunks (Z.to_nat max_batch_size) (length keys) keys
  | (_, Loading _ rest) :: _ => rest
  | [] => []
  end.

Lemma idle_rounds w : orderly w → rounds_left w = 0 → tasks w = ∅.
Proof.
  intros [[(_ & _ & ?)|(t & d & p & _ & _ & Ht & _)] _]; [done|]. unfold rounds_left. rewrite Ht, map_to_list_singleton. by destruct d.
Qed.

Lemma rounds_idle w : tasks w = ∅ → rounds_left w = 0 ∧ to_ask w = [].
Proof. unfold rounds_left, to_ask. by intros ->. Qed.

Lemma calls_of_loader (s : loader K V) w : calls (with_self s w) = calls w.
Proof. done. Qed.

Lemma finish_tasks t d o w : tasks w = {[t := d]} → tasks (finish t o w) = ∅.
Proof. intros Ht. unfold finish. destruct (_batch_promise (self w)); cbn; rewrite Ht; apply delete_singleton_eq. Qed.

(** The batch that is asked next, or the end. *)
Lemma next_batch t d p l w :
  tasks w = {[t := d]} → _batch_promise (self w) = Some p →
  rounds_left (load_batches t l w) = length l ∧ to_ask (load_batches t l w) = tail l ∧
  asked (load_batches t l w) = asked w ++ take 1 l ∧
  (l = [] → promises (load_batches t l w) = settle p Resolved (promises w)) ∧
  (l ≠ [] → promises (load_batches t l w) = promises w ∧ _batch_promise (self (load_batches t l w)) = Some p).
Proof.
  intros Ht Hp. destruct l as [|b l]; cbn [load_batches].
  - destruct (rounds_idle (finish t Resolved w)) as [-> ->]; [by eapply finish_tasks|].
    unfold finish. rewrite Hp. cbn. by rewrite app_nil_r.
  - unfold rounds_left, to_ask. cbn. rewrite Ht, insert_singleton_eq, map_to_list_singleton. by cbn.
Qed.

Lemma chunks_of_next size (l : list K) : 0 < size →
  length (chunks size (length (fromkeys [] l)) (fromkeys [] l)) ≤ length l.
Proof. intros. etrans; [apply chunks_few|apply fromkeys_short]. Qed.

Lemma next_progress ans w :
  orderly w → tasks w ≠ ∅ →
  ∃ e w', next ans w = Some e ∧ step w e = Some w' ∧ rounds_left w' < rounds_left w ∧ calls w' = calls w.
Proof using some_batch.
  intros Ho Hn. assert (Ho' := Ho). destruct Ho' as [[(_ & _ & ?)|(t & d & p & Hs & Hp & Ht & Hl & Hq)] _]; [done|].
  assert (tasks w !! t = Some d) as Hd by (rewrite Ht; apply lookup_singleton_eq).
  unfold next. rewrite Ht, map_to_list_singleton. destruct d as [|b rest].
  - eexists _, _. split; [done|]. cbn. rewrite Hd. split; [done|].
    destruct (dispatch_takes t w Ho Hd) as (q & Hq' & Hne & ->).
    destruct (next_batch t Yielding p (chunks (Z.to_nat max_batch_size) (length (fromkeys [] q)) (fromkeys [] q)) (with_self (with_queue [] (self w)) w) Ht Hp) as (-> & _).
    split; [|by rewrite load_batches_calls].
    unfold rounds_left. rewrite Ht, map_to_list_singleton, Hq'. pose proof (chunks_of_next (Z.to_nat max_batch_size) q ltac:(lia)). lia.
  - eexists _, _. split; [done|]. cbn. rewrite Hd. split; [done|].
    assert (rounds_left w = S (length rest)) as -> by (unfold rounds_left; by rewrite Ht, map_to_list_singleton).
    unfold loaded. destruct (ans b) as [results|].
    + case_match.
      * split; [|rewrite load_batches_calls; unfold cache_results; by destruct cache_enabled].
        destruct (next_batch t (Loading b rest) p rest (with_self (cache_results cache_enabled b results (self w)) w)) as (-> & _); [done| |lia].
        unfold cache_results. by destruct cache_enabled.
      * split; [|apply finish_calls]. destruct (rounds_idle (finish t Rejected w)) as [-> _]; [by eapply finish_tasks|lia].
    + split; [|apply finish_calls]. destruct (rounds_idle (finish t Rejected w)) as [-> _]; [by eapply finish_tasks|lia].
Qed.

Lemma settled_ends ans rounds w :
  orderly w → rounds_left w ≤ rounds →
  orderly (settled ans rounds w) ∧ tasks (settled ans rounds w) = ∅ ∧ calls (settled ans rounds w) = calls w.
Proof using some_batch.
  revert w. induction rounds as [|n IH]; intros w Ho Hr.
  { cbn. split_and!; [done| |done]. apply idle_rounds; [done|lia]. }
  cbn. destruct (decide (tasks w = ∅)) as [Ht|Ht].
  { assert (next ans w = None) as -> by (unfold next; by rewrite Ht). done. }
  destruct (next_progress ans w Ho Ht) as (e & w' & -> & Hs & Hlt & Hc). cbn. rewrite Hs.
  destruct (IH w') as (? & ? & Hc'); [by eapply orderly_step|lia|]. by rewrite Hc', Hc.
Qed.


(** ** Loads are lookups *)
Section lookups.
(** What there is under each key. *)
Context (f : K → option V).

Definition in_flight w : Prop := ∃ t b rest, tasks w !! t = Some (Loading b rest).

(** No load begins while a batch is in flight, nothing is cleared, and what the loader is
    told is so. *)
Definition calm w e : Prop :=
  match e with
  | Loads _ => ¬ in_flight w
  | Loaded t (Ok results) => ∀ b rest, tasks w !! t = Some (Loading b rest) → results = map f b
  | Primes k v => v = f k
  | Clears _ => False
  | _ => True
  end.

Fixpoint calmly w (l : list (event K V)) : Prop :=
  match l with
  | [] => True
  | e :: l => calm w e ∧ match step w e with Some w => calmly w l | None => True end
  end.

Definition answered w (k : K) : Prop := is_Some (_cache (self w) !! k) ∨ f k = None.
Definition expected w (k : K) : Prop :=
  k ∈ _queue (self w) ∨ ∃ t b rest, tasks w !! t = Some (Loading b rest) ∧ k ∈ b ++ concat rest.

Record looked_up w : Prop := {
  cache_right : ∀ k v, _cache (self w) !! k = Some v → v = f k;
  returned_right : ∀ k v, Returned k v ∈ calls w → v = f k;
  queue_first : in_flight w ∨ tasks w = ∅ → _queue (self w) = [];
  resolved_right : ∀ c k p, calls w !! c = Some (Waiting k p) → promises w !! p = Some Resolved → answered w k;
  pending_right : ∀ c k p, calls w !! c = Some (Waiting k p) → promises w !! p = Some Pending → answered w k ∨ expected w k
}.

Lemma not_in_flight w t : tasks w = {[t := Yielding]} → ¬ in_flight w.
Proof. intros Ht (t' & b & rest & Hl). rewrite Ht in Hl. by apply lookup_singleton_Some in Hl as []. Qed.

Lemma no_flight w : tasks w = ∅ → ¬ in_flight w.
Proof. intros Ht (t' & b & rest & Hl). by rewrite Ht in Hl. Qed.

Lemma singleton_not_empty w t d : tasks w = {[t := d]} → tasks w ≠ ∅.
Proof. intros -> He. by apply map_non_empty_singleton in He. Qed.

Lemma looked_up_load k w : orderly w → looked_up w → ¬ in_flight w → looked_up (load k w).
Proof using Type.
  intros Ho Hw Hf. destruct (load_cases k w (proj1 Ho)) as [(v & _ & Hv & ->)|(_ & t & d & p & w' & -> & Hc & Ht & Hcache & Hq & _ & Hs & Hp & Hor)].
  - destruct Hw as [H1 H2 H3 H4 H5]. split; [exact H1| |exact H3|intros c k' p..]; cbn.
    + intros k' v' [Hin|[= -> ->]%list_elem_of_singleton]%elem_of_app; [by apply H2|by apply H1].
    + intros [Hl|[_ ?]]%lookup_snoc; [by eapply H4|done].
    + intros [Hl|[_ ?]]%lookup_snoc; [by eapply H5|done].
  - assert (tasks w' = {[t := Yielding]}) as Ht'.
    { destruct Hor as [(_ & -> & _)|(He & _)]; [done|]. destruct d as [|b rest]; [done|].
      destruct Hf. exists t, b, rest. rewrite He. apply lookup_singleton_eq. }
    assert (∀ q q', promises w' !! q = Some q' → promises w !! q = Some q' ∨ (q = length (promises w) ∧ q' = Pending)) as Hpr.
    { destruct Hor as [(_ & _ & _ & _ & ->)|(_ & _ & -> & _)]; [apply lookup_snoc|by left]. }
    destruct Hw as [H1 H2 H3 H4 H5]. split.
    + intros k' v'. rewrite Hcache. apply H1.
    + intros k' v'. rewrite Hc. intros [Hin|?%list_elem_of_singleton]%elem_of_app; [by apply H2|done].
    + intros [Hfl|He]; [by apply (not_in_flight w' t) in Hfl|by apply singleton_not_empty in Ht'].
    + intros c k' q. rewrite Hc. unfold answered. rewrite Hcache. intros [Hl|[_ [= -> ->]]]%lookup_snoc [Hq'|[-> ?]]%Hpr; try done; [by eapply H4|].
      destruct Hor as [(_ & _ & _ & -> & _)|(_ & Hpw & _ & Hlen)]; [by apply lookup_lt_Some, Nat.lt_irrefl in Hq'|].
      destruct Hlen; congruence.
    + intros c k' q. rewrite Hc. unfold answered, expected. rewrite Hcache, Hq. intros [Hl|[_ [= -> ->]]]%lookup_snoc Hq'.
      * destruct (Hpr _ _ Hq') as [Hq''|[-> _]].
        -- destruct (H5 _ _ _ Hl Hq'') as [?|[Hin|Hex]]; [by left|right; left; apply elem_of_app; by left|].
           destruct Hf. destruct Hex as (t1 & b & rest & ? & _). by exists t1, b, rest.
        -- destruct (proj2 Ho _ _ _ Hl) as (q' & Hq2 & _). by apply lookup_lt_Some, Nat.lt_irrefl in Hq2.
      * right. left. apply elem_of_app. right. by left.
Qed.

(** What keeps the loader, its promises and its tasks, and only ends calls with what is there. *)
Lemma looked_up_calls cs w :
  (∀ c k p, cs !! c = Some (Waiting k p) → calls w !! c = Some (Waiting k p)) →
  (∀ k v, Returned k v ∈ cs → Returned k v ∈ calls w ∨ v = f k) → looked_up w → looked_up (with_calls cs w).
Proof using Type.
  intros Hc Hr [H1 H2 H3 H4 H5]. split; [exact H1| |exact H3|intros c k p Hl..].
  - intros k v [Hin|?]%Hr; [by apply H2|done].
  - by apply (H4 c), Hc.
  - by apply (H5 c), Hc.
Qed.

Lemma insert_call_waiting (cs : list (call K V)) i x c k p :
  (∀ k p, x ≠ Waiting k p) → <[i := x]> cs !! c = Some (Waiting k p) → cs !! c = Some (Waiting k p).
Proof. intros Hx. rewrite list_lookup_insert_Some. intros [(_ & -> & _)|[_ ?]]; [by destruct (Hx k p)|done]. Qed.

Lemma looked_up_settle p o w : o ≠ Resolved → o ≠ Pending → looked_up w → looked_up (with_promises (settle p o (promises w)) w).
Proof using Type.
  intros Ho Ho' [H1 H2 H3 H4 H5]. assert (∀ i q, settle p o (promises w) !! i = Some q → promises w !! i = Some q ∨ q = o) as Hs.
  { intros i q. rewrite lookup_settle. case_decide; [subst|by left]. destruct (promises w !! p) as [[]|]; cbn; naive_solver. }
  split; [exact H1|exact H2|exact H3|intros c k i Hl [Hq|?]%Hs..]; try done; [by eapply H4|by eapply H5].
Qed.

Lemma cache_zip_keeps (kvs : list (K * option V)) (c : gmap K (option V)) k :
  is_Some (c !! k) → is_Some (foldl (λ c kv, match kv.2 with Some v => <[kv.1 := Some v]> c | None => c end) c kvs !! k).
Proof.
  revert c. induction kvs as [|[k' [v'|]] kvs IH]; intros c Hc; cbn; [done|..]; apply IH; [|done].
  apply lookup_insert_is_Some'. by right.
Qed.

Lemma cache_zip_all (b : list K) (c : gmap K (option V)) k :
  k ∈ b → f k ≠ None →
  is_Some (foldl (λ c kv, match kv.2 with Some v => <[kv.1 := Some v]> c | None => c end) c (zip b (map f b)) !! k).
Proof.
  revert c. induction b as [|x b IH]; intros c Hk Hf; [by apply not_elem_of_nil in Hk|].
  cbn. apply elem_of_cons in Hk as [->|Hk]; [|by apply IH]. destruct (f x) as [v|] eqn:E; [|done].
  apply cache_zip_keeps. rewrite lookup_insert_eq. by eexists.
Qed.

Lemma elem_of_zip_map (b : list K) k v : (k, v) ∈ zip b (map f b) → v = f k.
Proof. induction b as [|x b IH]; cbn; [by intros ?%not_elem_of_nil|]. by intros [[= -> ->]|Hin]%elem_of_cons; [|apply IH]. Qed.

(** What is in the cache stays, and the batch joins it. *)
Lemma looked_up_cached t b rest w :
  cache_enabled = true → tasks w = {[t := Loading b rest]} → looked_up w →
  let w' := with_self (cache_results cache_enabled b (map f b) (self w)) w in
  (∀ k v, _cache (self w') !! k = Some v → v = f k) ∧ (∀ k, answered w k → answered w' k) ∧ (∀ k, k ∈ b → answered w' k).
Proof using Type.
  intros Hen Ht [H1 _ _ _ _]. unfold cache_results. rewrite Hen. cbn. split_and!.
  - intros k v [Hl|Hin]%cache_zip; [by apply H1|by eapply elem_of_zip_map].
  - intros k [?|?]; [left; by apply cache_zip_keeps|by right].
  - intros k Hk. destruct (f k) eqn:E; [left; cbn; apply cache_zip_all; [done|congruence]|by right].
Qed.

Lemma looked_up_finish t d p o w :
  o ≠ Pending → tasks w = {[t := d]} → _batch_promise (self w) = Some p → _queue (self w) = [] →
  (∀ k v, _cache (self w) !! k = Some v → v = f k) → (∀ k v, Returned k v ∈ calls w → v = f k) →
  awaited w → (∀ c k q, calls w !! c = Some (Waiting k q) → promises w !! q = Some Resolved → answered w k) →
  (o = Resolved → ∀ c k, calls w !! c = Some (Waiting k p) → promises w !! p = Some Pending → answered w k) →
  looked_up (finish t o w).
Proof using Type.
  intros Ho Ht Hp Hq H1 H2 Ha H4 Hnew. unfold finish. rewrite Hp. split; cbn; [exact H1|exact H2|done|intros c k q Hl..].
  - rewrite lookup_settle. case_decide; [subst q|by eapply H4].
    destruct (promises w !! p) as [[]|] eqn:E; cbn; intros Hq'; simplify_eq; [by eapply Hnew|by eapply H4].
  - destruct (Ha _ _ _ Hl) as (q' & Hq' & Hpend). rewrite lookup_settle. case_decide as E.
    + subst. rewrite Hq'. destruct q'; cbn; congruence.
    + intros E'. rewrite Hq' in E'. injection E' as ->. specialize (Hpend eq_refl). congruence.
Qed.

Lemma under_way_task t d w : orderly w → tasks w !! t = Some d →
  tasks w = {[t := d]} ∧ ∃ p, _batch_promise (self w) = Some p ∧ unsettled p w.
Proof.
  intros [[(_ & _ & Hn)|(t' & d' & p & Hs & Hp & Hn & Hl & _)] _] Ht; [by rewrite Hn in Ht|].
  rewrite Hn in Ht. apply lookup_singleton_Some in Ht as [-> ->]. eauto.
Qed.

Lemma looked_up_dispatch t w :
  orderly w → looked_up w → tasks w !! t = Some Yielding → looked_up (dispatch max_batch_size t w).
Proof using some_batch.
  intros Ho Hw Ht. destruct (under_way_task _ _ _ Ho Ht) as (Hn & _).
  destruct (dispatch_takes t w Ho Ht) as (q & Hq & Hne & ->).
  destruct (chunks _ _ _) as [|b l] eqn:Hc.
  { apply chunks_nonempty in Hc; [done|by apply fromkeys_nonempty|done]. }
  destruct Hw as [H1 H2 _ H4 H5]. split; [exact H1|exact H2|done|exact H4|].
  intros c k p Hl Hp. destruct (H5 _ _ _ Hl Hp) as [?|[Hin|(t' & b' & r & Ht' & _)]]; [by left| |].
  - right. right. cbn. rewrite Hn, insert_singleton_eq. exists t, b, l. split; [apply lookup_singleton_eq|].
    change (b ++ concat l) with (concat (b :: l)). rewrite <- Hc, concat_chunks by (try done; lia).
    apply elem_of_fromkeys. split; [by rewrite <- Hq|set_solver].
  - rewrite Hn in Ht'. by apply lookup_singleton_Some in Ht' as [_ ?].
Qed.

Lemma looked_up_loaded t b rest r w :
  cache_enabled = true → orderly w → looked_up w → tasks w !! t = Some (Loading b rest) →
  (∀ results, r = Ok results → results = map f b) → looked_up (loaded cache_enabled t b rest r w).
Proof using some_batch.
  intros Hen Ho Hw Ht Hr. destruct (under_way_task _ _ _ Ho Ht) as (Hn & p & Hp & Hun).
  assert (_queue (self w) = []) as Hq by (apply Hw; left; by exists t, b, rest).
  destruct r as [results|x]; cbn.
  2: { eapply looked_up_finish; [done|done|done|done|apply Hw|apply Hw|apply Ho|apply Hw|done]. }
  rewrite (Hr _ eq_refl). rewrite length_map, Nat.eqb_refl.
  destruct (looked_up_cached t b rest w Hen Hn Hw) as (H1 & Hmono & Hb). set (w' := with_self _ w) in *.
  assert (calls w' = calls w ∧ promises w' = promises w ∧ tasks w' = tasks w) as (Hc & Hps & Hts) by done.
  assert (_batch_promise (self w') = Some p ∧ _queue (self w') = []) as [Hp' Hq'].
  { subst w'. unfold cache_results. by rewrite Hen. }
  assert (awaited w') as Ha.
  { intros c k i Hl. destruct (proj2 Ho c k i Hl) as (q & Hi & Hq2). exists q. split; [done|].
    intros E. rewrite Hp', <- Hp. by apply Hq2. }
  assert (∀ c k i, calls w !! c = Some (Waiting k i) → promises w !! i = Some Pending → answered w' k ∨ k ∈ concat rest) as Hrest.
  { intros c k i Hl Hi. destruct (pending_right _ Hw _ _ _ Hl Hi) as [?|[Hin|(t' & b' & r' & Ht' & Hin)]]; [left; by apply Hmono|by rewrite Hq in Hin; apply not_elem_of_nil in Hin|].
    rewrite Hn in Ht'. apply lookup_singleton_Some in Ht' as [<- [= <- <-]].
    apply elem_of_app in Hin as [?|?]; [left; by apply Hb|by right]. }
  destruct rest as [|b1 rest]; cbn.
  - eapply looked_up_finish; [done|by rewrite Hts|done|done|done|rewrite Hc; apply Hw|exact Ha|rewrite Hc, Hps; intros; apply Hmono; by eapply Hw|].
    intros _ c k Hl Hi. destruct (Hrest c k p Hl Hi) as [?|Hin]; [done|by apply not_elem_of_nil in Hin].
  - split; [exact H1|apply Hw|done| |].
    + intros c k i Hl Hi. apply Hmono. by eapply Hw.
    + intros c k i Hl Hi. destruct (Hrest c k i Hl Hi) as [?|Hin]; [by left|right; right].
      cbn. rewrite Hn, insert_singleton_eq. exists t, b1, rest. split; [apply lookup_singleton_eq|done].
Qed.

Lemma looked_up_step w e w' :
  cache_enabled = true → orderly w → looked_up w → calm w e → step w e = Some w' → looked_up w'.
Proof using some_batch.
  intros Hen Ho Hw Hcalm. destruct e as [k|c|c|t|t r|k v|k]; cbn.
  - intros [= <-]. by apply looked_up_load.
  - destruct (calls w !! c) as [[k p|k v|k x|k]|] eqn:Hc; [|done..]. intros (q & Hq & Hr)%bind_Some.
    apply bind_Some in Hr as (r & Hr & [= <-]). apply looked_up_calls; [| |done].
    + intros c' k' p'. apply insert_call_waiting. intros k2 p2 ->. by destruct q.
    + intros k' v' [<-|?]%elem_of_insert_call; [right|by left]. destruct q; cbn in Hr; try done. injection Hr as -> <-.
      destruct (_cache (self w) !! k') as [o|] eqn:E; [by apply (cache_right _ Hw)|].
      destruct (resolved_right _ Hw _ _ _ Hc Hq) as [[o Ho']|Hn]; [congruence|done].
  - destruct (calls w !! c) as [[k p|k v|k x|k]|] eqn:Hc; [|done..].
    destruct (promises w !! p) as [[]|]; [| | | |done]; intros [= <-]; [by apply looked_up_settle|..];
      (apply looked_up_calls; [by intros c' k' p'; apply insert_call_waiting|intros k' v' [?|?]%elem_of_insert_call; [done|by left]|done]).
  - destruct (tasks w !! t) as [[|b rest]|] eqn:Ht; [|done..]. intros [= <-]. by apply looked_up_dispatch.
  - destruct (tasks w !! t) as [[|b rest]|] eqn:Ht; [done| |done]. intros [= <-]. apply looked_up_loaded; [done..|].
    intros results ->. by eapply Hcalm.
  - intros [= <-]. cbn in Hcalm. unfold prime. rewrite Hen. destruct Hw as [H1 H2 H3 H4 H5].
    assert (∀ k', answered w k' → answered (with_self (with_cache (<[k:=v]> (_cache (self w))) (self w)) w) k') as Hm.
    { intros k' [?|?]; [left; cbn; apply lookup_insert_is_Some'; by right|by right]. }
    split; [|exact H2|exact H3|intros c k' p Hl Hi..]; cbn.
    + intros k' v' [[<- <-]|[_ ?]]%lookup_insert_Some; [done|by apply H1].
    + apply Hm. by eapply H4.
    + destruct (H5 _ _ _ Hl Hi); [left; by apply Hm|by right].
  - done.
Qed.

Lemma looked_up_start : looked_up start.
Proof. split; cbn; try done; by intros ?? ?%not_elem_of_nil. Qed.

Lemma looked_up_run w l w' :
  cache_enabled = true → orderly w → looked_up w → calmly w l → run w l = Some w' → looked_up w'.
Proof using some_batch.
  intros Hen. revert w. induction l as [|e l IH]; intros w Ho Hw; cbn; [by intros _ [= <-]|].
  intros [Hc Hl]. destruct (step w e) as [w1|] eqn:Hs; [|done].
  apply IH; [by eapply orderly_step|by eapply looked_up_step|done].
Qed.

(** In any history where no load begins while a batch is in flight and nothing is
    cleared, with the cache on and [batch_load] answering for every key what there is: a
    load that returns returns what there is under its key, whichever other loads shared its
    batch, failed or were cancelled. *)
Theorem returned_values_are_looked_up l w k v :
  cache_enabled = true → run start l = Some w → calmly start l → Returned k v ∈ calls w → v = f k.
Proof using some_batch.
  intros Hen Hr Hc. apply returned_right. by eapply looked_up_run; [done|apply orderly_start|apply looked_up_start|..].
Qed.

(** *** Many loads at once *)

(** What each of them is when they have all begun. *)
Definition begun w (k : K) : call K V :=
  match _cache (self w) !! k with Some v => Returned k v | None => Waiting k (length (promises w)) end.

Lemma load_many_begins keys w :
  cache_enabled = true → orderly w → looked_up w → tasks w = ∅ →
  let w1 := load_many keys w in
  orderly w1 ∧ looked_up w1 ∧ _cache (self w1) = _cache (self w) ∧ asked w1 = asked w ∧ calls w1 = calls w ++ map (begun w) keys ∧
  _queue (self w1) = filter (λ k, _cache (self w) !! k = None) keys ∧
  (_queue (self w1) = [] ∧ tasks w1 = ∅ ∧ promises w1 = promises w ∨
   ∃ t, tasks w1 = {[t := Yielding]} ∧ _batch_promise (self w1) = Some (length (promises w)) ∧
        promises w1 = promises w ++ [Pending]).
Proof using Type.
  intros Hen Ho Hw Ht. assert (_queue (self w) = []) as Hq by (apply Hw; by right).
  induction keys as [|k keys IH] using rev_ind; cbn; [rewrite app_nil_r; split_and!; try done; by left|].
  unfold DataLoader.load_many. rewrite foldl_app. cbn. fold (load_many keys w).
  destruct IH as (Ho1 & Hw1 & Hc1 & Ha1 & Hcs1 & Hq1 & Hor). set (w1 := load_many keys w) in *.
  split; [by apply orderly_load|]. split.
  { apply looked_up_load; [done..|]. destruct Hor as [(_ & ? & _)|(t & ? & _)]; [by apply no_flight|by eapply not_in_flight]. }
  rewrite map_app, filter_app, app_assoc, <- Hcs1, <- Hq1. cbn [map].
  unfold filter at 1, list_filter at 1. unfold begun.
  destruct (load_cases k w1 (proj1 Ho1)) as [(v & _ & Hv & ->)|(Hmiss & t & d & p & w' & -> & Hcs & Ht' & Hc & Hq' & Ha & _ & Hp & Hor')].
  - rewrite Hc1 in Hv. rewrite Hv, decide_False, app_nil_r by done. cbn. by split_and!.
  - specialize (Hmiss Hen). rewrite Hc1 in Hmiss. rewrite Hmiss, decide_True, Hcs, Hc, Hq', Ha by done.
    assert (p = length (promises w) ∧ d = Yielding ∧ promises w' = promises w ++ [Pending]) as (-> & -> & Hps).
    { destruct Hor as [(_ & Ht1 & Hp1)|(t1 & Ht1 & Hp1 & Hps1)]; destruct Hor' as [(He & -> & _ & -> & ->)|(He & Hp2 & -> & _)].
      - by rewrite Hp1.
      - rewrite Ht1 in He. symmetry in He. by apply map_non_empty_singleton in He.
      - rewrite Ht1 in He. by apply map_non_empty_singleton in He.
      - rewrite Ht1 in He. rewrite Hp1 in Hp2. injection Hp2 as <-.
        assert (({[t := d]} : gmap nat (dispatcher K)) !! t1 = Some Yielding) as Hd by (rewrite <- He; apply lookup_singleton_eq).
        by apply lookup_singleton_Some in Hd as [_ ->]. }
    split_and!; try done. right. by exists t.
Qed.

(** The answers of [batch_load]. *)
Definition looks_up (b : list K) : result (list (option V)) := Ok (map f b).

Lemma to_ask_dispatched t p q w :
  tasks w = {[t := Yielding]} → _queue (self w) = q → _batch_promise (self w) = Some p →
  to_ask w = chunks (Z.to_nat max_batch_size) (length (fromkeys [] q)) (fromkeys [] q).
Proof. intros Ht <- _. unfold to_ask. by rewrite Ht, map_to_list_singleton. Qed.

(** The batches that are left are asked in their order, and the promise is resolved. *)
Lemma settled_resolves rounds w p :
  cache_enabled = true → orderly w → looked_up w → rounds_left w ≤ rounds → tasks w ≠ ∅ →
  _batch_promise (self w) = Some p → promises w !! p = Some Pending →
  let w' := settled looks_up rounds w in
  looked_up w' ∧ promises w' = settle p Resolved (promises w) ∧ asked w' = asked w ++ to_ask w.
Proof using some_batch.
  intros Hen. revert w. induction rounds as [|n IH]; intros w Ho Hw Hr Hn Hp Hpend.
  { destruct Hn. apply idle_rounds; [done|lia]. }
  assert (Ho' := Ho). destruct Ho as [[(_ & _ & ?)|(t & d & p' & _ & _ & Ht & _ & _)] _]; [done|].
  destruct (next_progress looks_up w Ho' Hn) as (e & w1 & He & Hst & Hlt & _).
  assert (looked_up w1) as Hw1.
  { eapply looked_up_step; [done|exact Ho'|exact Hw| |exact Hst]. revert He. unfold next. rewrite Ht, map_to_list_singleton.
    destruct d as [|b rest]; intros [= <-]; [done|]. cbn. intros b' rest'. rewrite Ht, lookup_singleton_eq. by intros [= <- _]. }
  assert (∃ l w0, w1 = load_batches t l w0 ∧ tasks w0 = {[t := d]} ∧ _batch_promise (self w0) = Some p ∧
                  promises w0 = promises w ∧ asked w0 = asked w ∧ to_ask w = l) as (l & w0 & -> & Ht0 & Hp0 & Hps0 & Ha0 & Hl).
  { assert (tasks w !! t = Some d) as Hd by (rewrite Ht; apply lookup_singleton_eq).
    revert He Hst. unfold next. rewrite Ht, map_to_list_singleton. destruct d as [|b rest]; intros [= <-]; cbn; rewrite Hd; intros [= <-].
    - destruct (dispatch_takes t w Ho' Hd) as (q & Hq' & _ & ->). eexists _, _. split; [done|].
      split_and!; [done..|]. by eapply to_ask_dispatched.
    - unfold loaded, looks_up. rewrite length_map, Nat.eqb_refl. eexists _, _. split; [done|].
      unfold cache_results. rewrite Hen. split_and!; [done..|]. unfold to_ask. by rewrite Ht, map_to_list_singleton. }
  destruct (next_batch t d p l w0 Ht0 Hp0) as (Hrl & Hta & Hak & Hnil & Hcons).
  cbn. rewrite He. cbn. rewrite Hst. destruct l as [|b l].
  - assert (next looks_up (load_batches t [] w0) = None) as Hnone.
    { unfold next. cbn [load_batches]. by rewrite (finish_tasks _ _ _ _ Ht0). }
    cbn [take] in Hak. rewrite app_nil_r in Hak. assert (settled looks_up n (load_batches t [] w0) = load_batches t [] w0) as ->.
    { destruct n; [done|]. cbn -[load_batches]. by rewrite Hnone. }
    rewrite Hl, app_nil_r, Hnil, Hps0, <- Ha0 by done. split_and!; [done..|]. by rewrite Hak.
  - destruct (Hcons ltac:(done)) as [Hps1 Hp1].
    destruct (IH (load_batches t (b :: l) w0)) as (H1 & H2 & H3); [by eapply orderly_step|done|lia| |done|by rewrite Hps1, Hps0|].
    { cbn. rewrite Ht0, insert_singleton_eq. apply map_non_empty_singleton. }
    split_and!; [done|by rewrite H2, Hps1, Hps0|]. rewrite H3, Hak, Hta, Ha0, Hl, <- app_assoc. done.
Qed.

(** The loads from the [first] on go on, one after the other. *)
Definition gather (cs : list nat) w : loop K V := foldl (λ w c, default w (step w (Resumes c))) w cs.

Definition resumed_call w (x : call K V) : call K V :=
  match x with Waiting k p => default x (promises w !! p ≫= λ q, resumed k q w) | x => x end.

Lemma resumes_call w c :
  default w (step w (Resumes c)) = match calls w !! c with Some x => with_calls (<[c := resumed_call w x]> (calls w)) w | None => w end.
Proof using Type.
  cbn. destruct w as [s ps cs ts n a]. cbn. destruct (cs !! c) as [[k p|k v|k x|k]|] eqn:Hc; cbn;
    unfold with_calls; cbn; [|by rewrite list_insert_id..|done].
  destruct (ps !! p) as [q|]; cbn; [|by rewrite list_insert_id]. by destruct q; cbn; [rewrite list_insert_id|..].
Qed.

Lemma gather_lookup cs w c :
  NoDup cs →
  self (gather cs w) = self w ∧ asked (gather cs w) = asked w ∧
  calls (gather cs w) !! c = if decide (c ∈ cs) then resumed_call w <$> calls w !! c else calls w !! c.
Proof using Type.
  unfold gather. revert w. induction cs as [|c1 cs IH]; intros w; [by rewrite decide_False by apply not_elem_of_nil|].
  intros [Hc1 Hnd]%NoDup_cons. cbn [foldl]. rewrite resumes_call.
  destruct (calls w !! c1) as [x|] eqn:Hx.
  - destruct (IH (with_calls (<[c1 := resumed_call w x]> (calls w)) w) Hnd) as (-> & -> & ->). split_and!; [done..|].
    cbn. destruct (decide (c = c1)) as [->|Hn].
    + rewrite decide_False, decide_True, list_lookup_insert_eq, Hx by (by eapply lookup_lt_Some || done || by left). done.
    + rewrite list_lookup_insert_ne by done.
      destruct (decide (c ∈ cs)); [rewrite decide_True by (by right); done|].
      rewrite decide_False; [done|]. by intros [?|?]%elem_of_cons.
  - destruct (IH w Hnd) as (-> & -> & ->). split_and!; [done..|].
    destruct (decide (c = c1)) as [->|Hn].
    + rewrite decide_False, decide_True, Hx by (done || by left). done.
    + destruct (decide (c ∈ cs)); [rewrite decide_True by (by right); done|].
      rewrite decide_False; [done|]. by intros [?|?]%elem_of_cons.
Qed.

Lemma lookup_gathered w (cs : list (call K V)) rs first n w' :
  calls w = cs ++ rs → first = length cs → n = length rs → w' = gather (seq first n) w →
  calls w' = cs ++ map (resumed_call w) rs.
Proof using Type.
  intros Hc -> -> ->. apply list_eq. intros c.
  destruct (gather_lookup (seq (length cs) (length rs)) w c (NoDup_seq _ _)) as (_ & _ & ->). rewrite Hc.
  case_decide as Hin; [apply elem_of_seq in Hin as [H1 H2]|].
  - rewrite !lookup_app_r, list_lookup_fmap by done. done.
  - destruct (decide (c < length cs)); [by rewrite !lookup_app_l|].
    rewrite !lookup_app_r by lia. rewrite (lookup_ge_None_2 rs); [|destruct (decide (c < length cs + length rs)); [destruct Hin; apply elem_of_seq; lia|lia]].
    symmetry. apply lookup_ge_None_2. rewrite length_map.
    destruct (decide (c < length cs + length rs)); [destruct Hin; apply elem_of_seq; lia|lia].
Qed.

(** C12. What batching is for.  A loader with its cache on that is idle after any calm history
    (no load begins while a batch is in flight, nothing is cleared or primed with another
    value, [batch_load] answers for every key what there is) is asked for many keys at once,
    repeated ones among them: when its dispatcher has done its work every
    load has returned what there is under its key, in the order of the keys, and for all of
    them [batch_load] was asked for each key that the cache did not hold once, in the order
    they first came in, in batches of the largest size allowed. *)
Theorem load_many_is_a_lookup l w keys :
  cache_enabled = true → run start l = Some w → calmly start l → tasks w = ∅ →
  let w1 := load_many keys w in
  let w' := gather (seq (length (calls w)) (length keys)) (settled looks_up (rounds_left w1) w1) in
  let missing := fromkeys [] (filter (λ k, _cache (self w) !! k = None) keys) in
  calls w' = calls w ++ map (λ k, Returned k (f k)) keys ∧
  asked w' = asked w ++ chunks (Z.to_nat max_batch_size) (length missing) missing.
Proof using some_batch.
  intros Hen Hr Hc Ht. cbn zeta. assert (orderly w) as Ho by by eapply orderly_history.
  assert (looked_up w) as Hw by (by eapply looked_up_run; [done|apply orderly_start|apply looked_up_start|..]).
  destruct (load_many_begins keys w Hen Ho Hw Ht) as (Ho1 & Hw1 & Hc1 & Ha1 & Hcs1 & Hq1 & Hor).
  set (w1 := load_many keys w) in *. set (n := rounds_left w1). set (w2 := settled looks_up n w1).
  assert (calls w2 = calls w1 ∧ looked_up w2 ∧ asked w2 = asked w1 ++ to_ask w1 ∧
          to_ask w1 = (let q := fromkeys [] (_queue (self w1)) in chunks (Z.to_nat max_batch_size) (length q) q) ∧
          (_queue (self w1) ≠ [] → promises w2 !! length (promises w) = Some Resolved)) as (Hcs2 & Hw2 & Ha2 & Hta & Hres).
  { split; [by apply settled_ends|]. destruct Hor as [(Hnil & Ht1 & Hps1)|(t & Ht1 & Hp1 & Hps1)].
    - destruct (rounds_idle w1 Ht1) as [Hn0 Hta]. assert (w2 = w1) as -> by (subst w2 n; by rewrite Hn0).
      by rewrite Hta, app_nil_r, Hnil.
    - assert (promises w1 !! length (promises w) = Some Pending) as Hpend by (rewrite Hps1; by apply list_lookup_middle).
      destruct (settled_resolves n w1 (length (promises w))) as (? & Hps2 & ?); [done..|by eapply singleton_not_empty|done|done|].
      split_and!; [done|done|by eapply to_ask_dispatched|]. intros _. fold w2 in Hps2.
      by rewrite Hps2, lookup_settle, decide_True, Hpend. }
  cbn zeta in Hta. rewrite Hq1 in Hta. split.
  - erewrite (lookup_gathered w2 (calls w) (map (begun w) keys)); [|by rewrite Hcs2|done|by rewrite length_map|done].
    f_equal. rewrite map_map. apply map_ext_in. intros k Hk%list_elem_of_In. unfold begun.
    destruct (_cache (self w) !! k) as [v|] eqn:E; cbn; [f_equal; by apply (cache_right _ Hw)|].
    assert (k ∈ filter (λ k, _cache (self w) !! k = None) keys) as Hin by (by apply list_elem_of_filter).
    rewrite Hres by (rewrite Hq1; intros Hnil; rewrite Hnil in Hin; by apply not_elem_of_nil in Hin). cbn. f_equal.
    assert (∃ c, calls w2 !! c = Some (Waiting k (length (promises w)))) as (c & Hc').
    { apply list_elem_of_lookup. rewrite Hcs2, Hcs1. apply elem_of_app. right. apply list_elem_of_fmap. exists k. unfold begun. by rewrite E. }
    assert (promises w2 !! length (promises w) = Some Resolved) as Hr2.
    { apply Hres. rewrite Hq1. intros Hnil. rewrite Hnil in Hin. by apply not_elem_of_nil in Hin. }
    destruct (_cache (self w2) !! k) as [o|] eqn:E2; [by apply (cache_right _ Hw2)|].
    destruct (resolved_right _ Hw2 _ _ _ Hc' Hr2) as [[o Ho']|Hn]; [congruence|done].
  - destruct (gather_lookup (seq (length (calls w)) (length keys)) w2 0 (NoDup_seq _ _)) as (_ & -> & _).
    by rewrite Ha2, Ha1, Hta.
Qed.
End lookups.
End laws.

(** ** Some loaders *)

(** Ten times the key, for the keys up to a hundred. *)
Definition tenfold (k : nat) : option nat := if (k <=? 100)%nat then Some (10 * k) else None.

Abbreviation history := (run (K := nat) (V := nat) 2 true start).

(** Keys 1 and 2 in one batch, one of them twice. *)
Definition one_burst : list (event nat nat) :=
  [Loads 1; Loads 2; Loads 1; Dispatches 0; Loaded 0 (Ok [Some 10; Some 20]); Resumes 0; Resumes 1; Resumes 2].

Definition after_burst : loop nat nat := default start (history one_burst).

Lemma after_burst_run : history one_burst = Some after_burst.
Proof. vm_compute. reflexivity. Qed.

Lemma burst_is_over : tasks after_burst = ∅.
Proof. vm_compute. reflexivity. Qed.

Definition two_wait : loop nat nat := default start (history [Loads 1; Loads 2]).

Lemma two_wait_run : history [Loads 1; Loads 2] = Some two_wait ∧ calls two_wait !! 1 = Some (Waiting 2 0) ∧ rounds_left two_wait = 3.
Proof. vm_compute. by split_and!. Qed.

Lemma values_are_of_their_key_witness : (1, Some 10) ∈ told_by 2 true start one_burst.
Proof.
  apply (values_are_of_their_key 2 true eq_refl one_burst after_burst 1 10 after_burst_run).
  apply list_elem_of_lookup. exists 0. vm_compute. reflexivity.
Defined.


(** Whether a history is calm, for the loaders of this section. *)
Definition calmb (w : loop nat nat) (e : event nat nat) : bool :=
  match e with
  | Loads _ => forallb (λ kv, match kv.2 with Yielding => true | Loading _ _ => false end) (map_to_list (tasks w))
  | Loaded t (Ok results) =>
      match tasks w !! t with Some (Loading b _) => bool_decide (results = map tenfold b) | _ => true end
  | Primes k v => bool_decide (v = tenfold k)
  | Clears _ => false
  | _ => true
  end.

Fixpoint calmlyb (w : loop nat nat) (l : list (event nat nat)) : bool :=
  match l with
  | [] => true
  | e :: l => calmb w e && match step 2 true w e with Some w => calmlyb w l | None => true end
  end.

Lemma calmb_calm w e : calmb w e = true → calm tenfold w e.
Proof.
  destruct e as [k|c|c|t|t [results|x]|k v|k]; cbn; try done.
  - intros Hf (t & b & rest & Ht%elem_of_map_to_list). rewrite forallb_forall in Hf.
    by specialize (Hf _ (proj1 (list_elem_of_In _ _) Ht)).
  - intros Hd b rest Ht. rewrite Ht in Hd. by apply bool_decide_eq_true in Hd.
  - apply bool_decide_eq_true.
Qed.

Lemma calmlyb_calmly w l : calmlyb w l = true → calmly 2 true tenfold w l.
Proof.
  revert w. induction l as [|e l IH]; intros w; cbn [calmlyb calmly]; [done|].
  intros [Hc Hl]%andb_prop. split; [by apply calmb_calm|]. destruct (step 2 true w e); [by apply IH|done].
Qed.

Lemma one_burst_calm : calmly 2 true tenfold start one_burst.
Proof. apply calmlyb_calmly. vm_compute. reflexivity. Qed.

Lemma returned_values_are_looked_up_witness : Some 20 = tenfold 2.
Proof.
  apply (returned_values_are_looked_up 2 true eq_refl tenfold one_burst after_burst 2 (Some 20) eq_refl after_burst_run one_burst_calm).
  apply list_elem_of_lookup. exists 1. vm_compute. reflexivity.
Defined.

(** Five keys, of which one is in the cache, one comes twice and one has nothing. *)
Lemma load_many_is_a_lookup_witness :
  let w1 := load_many true [3; 1; 4; 3; 200] after_burst in
  let w' := gather 2 true (seq 3 5) (settled 2 true (looks_up tenfold) (rounds_left w1) w1) in
  calls w' = calls after_burst ++ [Returned 3 (Some 30); Returned 1 (Some 10); Returned 4 (Some 40); Returned 3 (Some 30); Returned 200 None] ∧
  asked w' = [[1; 2]; [3; 4]; [200]].
Proof.
  pose proof (load_many_is_a_lookup 2 true eq_refl tenfold one_burst after_burst [3; 1; 4; 3; 200]
                eq_refl after_burst_run one_burst_calm burst_is_over) as H.
  revert H. vm_compute. exact (λ H, H).
Defined.

(** A load that begins while a batch is in flight waits for the promise of that batch, which
    does not ask for its key: it returns [None], and its key stays in the queue. *)
Example a_late_load_finds_nothing :
  match history [Loads 1; Dispatches 0; Loads 2; Loaded 0 (Ok [tenfold 1]); Resumes 0; Resumes 1] with
  | Some w => calls w = [Returned 1 (Some 10); Returned 2 None] ∧ tenfold 2 = Some 20 ∧ asked w = [[1]] ∧
              _queue (self w) = [2] ∧ _dispatch_scheduled (self w) = false
  | None => False
  end.
Proof. vm_compute. by split_and!. Qed.

(** What is loaded reaches the loads through the cache alone. *)
Example without_a_cache_nothing_is_found :
  match run 2 false start [Loads 1; Dispatches 0; Loaded 0 (Ok [tenfold 1]); Resumes 0] with
  | Some w => calls w = [Returned 1 None] ∧ asked w = [[1]]
  | None => False
  end.
Proof. vm_compute. by split_and!. Qed.

(** All loads of a batch wait for one future, which the cancellation of any of them cancels. *)
Example a_cancelled_load_stops_the_others :
  match history [Loads 1; Loads 2; Cancels 0; Resumes 1; Dispatches 0; Loaded 0 (Ok [tenfold 1; tenfold 2])] with
  | Some w => calls w !! 1 = Some (Stopped 2) ∧ _cache (self w) !! 2 = Some (Some 20)
  | None => False
  end.
Proof. vm_compute. by split_and!. Qed.

(** The slices of size zero are refused outside of the [try], so nobody resets the flag. *)
Example a_size_of_zero_is_for_ever :
  match run (K := nat) (V := nat) 0 true start [Loads 1; Dispatches 0; Loads 2] with
  | Some w => calls w = [Waiting 1 0; Waiting 2 0] ∧ promises w = [Pending] ∧ tasks w = ∅
  | None => False
  end.
Proof. vm_compute. by split_and!. Qed.

(** A value that is cleared between the end of its batch and the load that waits for it is
    not found. *)
Example a_cleared_value_is_not_found :
  match history [Loads 1; Dispatches 0; Loaded 0 (Ok [tenfold 1]); Clears None; Resumes 0] with
  | Some w => calls w = [Returned 1 None]
  | None => False
  end.
Proof. reflexivity. Qed.

(** A loader of a class is made once for a request. *)
Example one_loader_of_a_class :
  let r := {| _loaders := []; _custom_loaders := []; objects := 0; cleared := [] |} in
  let '(l, r) := get_loader "UserLoader" r in
  let '(l', r) := get_loader "ProjectLoader" r in
  (l, l', fst (get_loader "UserLoader" r)) = (0, 1, 0) ∧ cleared (clear_all r) = [0; 1] ∧
  resolver_get_loader None (λ _, true) "UserLoader" = raise RuntimeError.
Proof. by split_and!. Qed.
