(* ===== verification/Loaders.v ===== *)
(** * Loaders of rows by their keys ([optimization/loaders.py], [sort_by_keys] of
    [optimization/dataloader.py])

    Each loader reads a table with one statement for a batch and puts the rows in the order
    of the keys.  A key is a UUID, given by its text; what the repository answers to a
    statement is a parameter. *)
From stdpp Require Import base decidable strings gmap list.
From Stdlib Require Import ZArith Lia Ascii.
From S2P Require Import Prelude PyVal Sql Pagination DataLoader.

Local Open Scope py_scope.

Abbreviation row := (list (string * pyval)).

(** [str.isalnum] *)
Definition isalnum (s : string) : bool := Str.nonempty s && Str.forallb (λ c, Str.is_alpha c || Str.is_digit c) s.

Definition _check_name (name : string) (allow_dot : bool) : result unit :=
  let allowed := Str.remove_char "_" name in
  if isalnum (if allow_dot then Str.remove_char "." allowed else allowed) then Ok () else raise ValueError.

Definition key_list (keys : list string) : pyval := PList (map PUUID keys).

(** The statement of [_rows_by_key] with its parameters. *)
Definition _rows_by_key (table key_field : string) (keys : list string) : result (composable * pyval) :=
  _ ← _check_name table true;
  _ ← _check_name key_field false;
  Ok (Format "SELECT * FROM {} WHERE {} = ANY(%(keys)s::uuid[])" [qualified_identifier table; Identifier key_field],
      PDict [("keys", key_list keys)]).

(** A column's value as a key of a dictionary: a UUID is equal to no value of another type. *)
Definition hashed (v : pyval) : result (option string) :=
  match v with
  | PUUID s => Ok (Some s)
  | PList _ | PDict _ => raise TypeError
  | _ => Ok None
  end.

Definition item_key (key_field : string) (item : row) : result (option string) :=
  match dict_get key_field item with Some v => hashed v | None => raise KeyError end.

(** [{item[key_field]: item for item in items}], as far as a UUID finds something in it. *)
Definition item_map (key_field : string) (items : list row) : result (list (string * row)) :=
  keys ← mapR (item_key key_field) items;
  Ok (foldl (λ m kv, match kv.1 with Some k => dict_set k kv.2 m | None => m end) [] (zip keys items)).

Definition sort_by_keys (items : list row) (keys : list string) (key_field : string) : result (list (option row)) :=
  m ← item_map key_field items; Ok (map (λ k, dict_get k m) keys).

(** [tasks_by_project], and its entry for each project. *)
Definition by_project (rows : list row) (project_ids : list string) : result (list (list row)) :=
  keys ← mapR (item_key "project_id") rows;
  Ok (map (λ p, (filter (λ kv, kv.1 = Some p) (zip keys rows)).*2) project_ids).

Definition latest_tasks (table : string) (limit : Z) (project_ids : list string) : result (composable * pyval) :=
  _ ← _check_name table true;
  Ok (Format ("WITH ranked_tasks AS (" +:+ " SELECT *, ROW_NUMBER() OVER (" +:+
              "  PARTITION BY project_id ORDER BY created_at DESC" +:+ " ) AS rn" +:+ " FROM {}" +:+
              " WHERE project_id = ANY(%(keys)s::uuid[])" +:+ ") SELECT * FROM ranked_tasks WHERE rn <= %(limit)s" +:+
              " ORDER BY project_id, created_at DESC")%stdpp [qualified_identifier table],
      PDict [("keys", key_list project_ids); ("limit", PInt limit)]).

Section loaders.
(** [db.run] *)
Context (answer : composable * pyval → list row).

(** [batch_load] of [GenericForeignKeyLoader]; that of [UserLoader] and [ProjectLoader] with
    the field [id], of the tables [users] and [projects] by default. *)
Definition GenericForeignKeyLoader_batch_load (table key_field : string) (keys : list string) : result (list (option row)) :=
  q ← _rows_by_key table key_field keys; sort_by_keys (answer q) keys key_field.

Definition UserLoader_batch_load (table : string) (user_ids : list string) : result (list (option row)) :=
  q ← _rows_by_key table "id" user_ids; sort_by_keys (answer q) user_ids "id".

Definition ProjectLoader_batch_load (table : string) (project_ids : list string) : result (list (option row)) :=
  q ← _rows_by_key table "id" project_ids; sort_by_keys (answer q) project_ids "id".

Definition TasksByProjectLoader_batch_load (table : string) (limit : Z) (project_ids : list string) : result (list (list row)) :=
  q ← latest_tasks table limit project_ids; by_project (answer q) project_ids.
End loaders.

(** ** What is loaded *)

(** What a row has in the column, when it is a UUID. *)
Definition row_key (key_field : string) (r : row) : option string :=
  match dict_get key_field r with Some (PUUID u) => Some u | _ => None end.

Lemma item_key_row key_field r u : row_key key_field r = Some u → item_key key_field r = Ok (Some u).
Proof. unfold row_key, item_key. destruct (dict_get key_field r) as [[]|]; try done. by intros [= ->]. Qed.

(** The row of a table under a key. *)
Definition row_of (key_field : string) (rows : list row) (k : string) : option row :=
  head (filter (λ r, row_key key_field r = Some k) rows).

(** A column of UUIDs, no two rows with the same. *)
Definition uuid_column (key_field : string) (rows : list row) : Prop :=
  Forall (λ r, ∃ k, row_key key_field r = Some k) rows ∧ NoDup (row_key key_field <$> rows).

Lemma item_keys key_field rows :
  Forall (λ r, ∃ k, row_key key_field r = Some k) rows →
  ∃ keys, mapR (item_key key_field) rows = Ok keys ∧
    Forall2 (λ k r, ∃ u, k = Some u ∧ row_key key_field r = Some u) keys rows.
Proof.
  induction 1 as [|r rows (u & Hu) _ (keys & Hk & H2)]; [by exists []|].
  exists (Some u :: keys). cbn. rewrite (item_key_row _ _ _ Hu), Hk.
  split; [done|]. constructor; [by exists u|done].
Qed.

(** Entries under other keys do not change what is found. *)
Lemma dict_get_items key_field k (keys : list (option string)) rows (m : list (string * row)) :
  Forall2 (λ k r, ∃ u, k = Some u ∧ row_key key_field r = Some u) keys rows →
  dict_get k (foldl (λ m kv, match kv.1 with Some k => dict_set k kv.2 m | None => m end) m (zip keys rows))
  = match list.last (filter (λ r, row_key key_field r = Some k) rows) with Some r => Some r | None => dict_get k m end.
Proof.
  intros H2. revert m. induction H2 as [|o r keys rows (u & -> & Hu) _ IH]; intros m; [done|].
  cbn [zip zip_with foldl fst snd]. rewrite IH, filter_cons. destruct (decide (u = k)) as [->|Hn].
  - rewrite (decide_True (P := row_key key_field r = Some k)) by done.
    rewrite last_cons. destruct (list.last (filter _ rows)); [done|]. by rewrite dict_get_set_eq.
  - rewrite (decide_False (P := row_key key_field r = Some k)) by congruence.
    by rewrite dict_get_set_ne.
Qed.

(** A key finds one row at most. *)
Lemma one_row key_field rows k :
  NoDup (row_key key_field <$> rows) → length (filter (λ r, row_key key_field r = Some k) rows) ≤ 1.
Proof.
  induction rows as [|r rows IH]; [cbn; lia|]. rewrite fmap_cons. intros [Hr Hnd]%NoDup_cons. rewrite filter_cons.
  case_decide as E; [|by apply IH]. destruct (filter _ rows) as [|r' l] eqn:El; [done|].
  assert (r' ∈ filter (λ r, row_key key_field r = Some k) rows) as [E' Hin]%list_elem_of_filter by (rewrite El; by left).
  destruct Hr. apply list_elem_of_fmap. exists r'. by rewrite E, E'.
Qed.

Lemma row_of_answer key_field (l l' : list row) k :
  NoDup (row_key key_field <$> l) → l' ≡ₚ l →
  list.last (filter (λ r, row_key key_field r = Some k) l') = row_of key_field l k.
Proof.
  intros Hnd Hp. pose proof (one_row key_field l k Hnd) as H1. unfold row_of.
  assert (filter (λ r, row_key key_field r = Some k) l' ≡ₚ filter (λ r, row_key key_field r = Some k) l) as Hf by by rewrite Hp.
  destruct (filter _ l) as [|r [|? ?]]; [apply Permutation_nil_r in Hf; by rewrite Hf| |cbn in H1; lia].
  apply Permutation_singleton_r in Hf. by rewrite Hf.
Qed.

(** For a unique column of UUIDs, and a repository that answers the statement with the
    rows whose key is among those asked for, in whatever order: a batch is answered for each
    key, at its place, with the row that has it or with nothing.  This is what the loader is
    told in [load_many_is_a_lookup]. *)
Theorem batch_of_rows answer rows table key_field keys q :
  uuid_column key_field rows →
  _rows_by_key table key_field keys = Ok q →
  answer q ≡ₚ filter (λ r, Exists (λ k, row_key key_field r = Some k) keys) rows →
  GenericForeignKeyLoader_batch_load answer table key_field keys = looks_up (row_of key_field rows) keys.
Proof.
  intros [Hu Hnd] Hq Hp. unfold GenericForeignKeyLoader_batch_load, sort_by_keys, item_map. rewrite Hq. cbn.
  set (asked := filter _ rows) in Hp.
  assert (Forall (λ r, ∃ k, row_key key_field r = Some k) (answer q)) as Hu'.
  { rewrite Hp. subst asked. apply Forall_forall. intros r [_ Hr]%list_elem_of_filter. by apply (proj1 (Forall_forall _ _) Hu). }
  destruct (item_keys _ _ Hu') as (hs & -> & H2). cbn. unfold looks_up. f_equal.
  apply map_ext_in. intros k Hk%list_elem_of_In. rewrite (dict_get_items _ _ _ _ _ H2).
  assert (NoDup (row_key key_field <$> asked)) as Hnd'.
  { subst asked. eapply sublist_NoDup; [exact Hnd|]. by apply fmap_sublist, sublist_filter. }
  rewrite (row_of_answer _ asked (answer q) k Hnd' Hp). unfold row_of. subst asked. rewrite list_filter_filter.
  assert (∀ r : row, (row_key key_field r = Some k ∧ Exists (λ k, row_key key_field r = Some k) keys) ↔ row_key key_field r = Some k) as He.
  { intros r. split; [by intros []|]. intros E. split; [done|]. apply Exists_exists. by exists k. }
  rewrite (list_filter_iff _ _ _ He). by destruct (head _).
Qed.

(** ** Some rows *)
Definition user (id name : string) : row := [("id", PUUID id); ("name", PStr name)].
Definition users : list row := [user "u1" "Ada"; user "u2" "Grace"; user "u3" "Edsger"].

(** The table answers in its own order. *)
Lemma batch_of_rows_witness :
  GenericForeignKeyLoader_batch_load (λ _, [user "u1" "Ada"; user "u3" "Edsger"]) "app.users" "id" ["u3"; "u9"; "u1"]
  = Ok [Some (user "u3" "Edsger"); None; Some (user "u1" "Ada")].
Proof.
  refine (batch_of_rows (λ _, [user "u1" "Ada"; user "u3" "Edsger"]) users "app.users" "id" ["u3"; "u9"; "u1"] _ _ eq_refl _).
  - split; [repeat constructor; by eexists|]. apply (bool_decide_unpack _). reflexivity.
  - vm_compute. reflexivity.
Defined.

(** Of several rows with one key the last is kept; a row without the column, and a name that
    is not of letters, digits, dots and underscores, are refused. *)
Example rows_of_a_loader :
  sort_by_keys [user "u1" "Ada"; user "u1" "Grace"] ["u1"] "id" = Ok [Some (user "u1" "Grace")] ∧
  sort_by_keys [user "u1" "Ada"] ["u1"] "owner" = raise KeyError ∧
  UserLoader_batch_load (λ _, []) "users; --" ["u1"] = raise ValueError ∧
  TasksByProjectLoader_batch_load (λ _, [[("project_id", PUUID "p2"); ("rn", PInt 1)]; [("project_id", PUUID "p2"); ("rn", PInt 2)]])
    "tasks" 2 ["p1"; "p2"]
  = Ok [[]; [[("project_id", PUUID "p2"); ("rn", PInt 1)]; [("project_id", PUUID "p2"); ("rn", PInt 2)]]].
Proof. vm_compute. by split_and!. Qed.
