(* ===== verification/NestedFilters.v ===== *)
(** * Nested fields and the filters of nested arrays ([core/nested_field_resolver.py])

    A nested field is taken from its parent or read by its key; the elements of a nested
    array are filtered in the program, by the dictionaries that graphql-core hands on, by
    objects of where inputs and by what these are converted to. *)
From stdpp Require Import base decidable strings list.
From Stdlib Require Import ZArith Lia Ascii.
From S2P Require Import Prelude PyVal Sql Casing.

Local Open Scope py_scope.

(** ** Comparisons of values *)

(** The numbers, which compare by what they are worth. *)
Definition number (v : pyval) : option Num.pyfloat :=
  match v with
  | PBool b => Some (Num.FFin (if b then 1 else 0) 0)
  | PInt z => Some (Num.FFin z 0)
  | PFloat f => Some f
  | PDecimal m e => Some (Num.FFin m e)
  | _ => None
  end.

(** [v == w]; an object of the program is equal to no other value. *)
Fixpoint py_eq (v w : pyval) : bool :=
  match number v, number w with
  | Some a, Some b => Num.float_leb a b && Num.float_leb b a
  | None, None =>
      match v, w with
      | PNone, PNone => true
      | PStr s, PStr t | PUUID s, PUUID t | PDate s _, PDate t _ | PDatetime s _, PDatetime t _ => s =s t
      | PList l, PList m | PTuple l, PTuple m =>
          (fix go (l m : list pyval) : bool :=
             match l, m with
             | [], [] => true
             | x :: l, y :: m => py_eq x y && go l m
             | _, _ => false
             end) l m
      | PDict d, PDict e =>
          (length d =? length e)%nat
            && forallb (λ kv, match dict_get kv.1 e with Some y => py_eq kv.2 y | None => false end) d
      | _, _ => false
      end
  | _, _ => false
  end.

(** [v < w], or [v <= w] when [strict] is not set: numbers by their worth, texts by their
    characters, dates and datetimes of one zone by their ISO texts, lists by their first
    difference; TypeError for anything else. *)
Fixpoint py_less (strict : bool) (v w : pyval) : result bool :=
  match number v, number w with
  | Some a, Some b => Ok (if strict then Num.float_ltb a b else Num.float_leb a b)
  | None, None =>
      match v, w with
      | PStr s, PStr t | PUUID s, PUUID t | PDate s _, PDate t _ | PDatetime s _, PDatetime t _ =>
          Ok (if strict then Str.ltb s t else negb (Str.ltb t s))
      | PList l, PList m | PTuple l, PTuple m =>
          (fix go (l m : list pyval) : result bool :=
             match l, m with
             | [], [] => Ok (negb strict)
             | [], _ => Ok true
             | _, [] => Ok false
             | x :: l, y :: m => if py_eq x y then go l m else py_less strict x y
             end) l m
      | _, _ => raise TypeError
      end
  | _, _ => raise TypeError
  end.

(** [v in w] *)
Definition py_in (v w : pyval) : result bool :=
  match w with
  | PList l | PTuple l => Ok (existsb (py_eq v) l)
  | PDict d => match v with PStr s => Ok (dict_has s d) | PList _ | PDict _ => raise TypeError | _ => Ok false end
  | PStr t => match v with PStr s => Ok (Str.has_sub s t) | _ => raise TypeError end
  | _ => raise TypeError
  end.

(** [for x in v] *)
Definition py_items (v : pyval) : result (list pyval) :=
  match v with
  | PList l | PTuple l => Ok l
  | PDict d => Ok (map PStr (dict_keys d))
  | PStr s => Ok (map (λ c, PStr (String c EmptyString)) (String.list_ascii_of_string s))
  | _ => raise TypeError
  end.

(** ** One operator *)

Definition _OPERATORS : list string :=
  ["eq"; "equals"; "neq"; "not"; "gt"; "gte"; "lt"; "lte"; "contains"; "startswith"; "startsWith"; "endswith";
   "endsWith"; "in"; "in_"; "nin"; "notIn"; "isnull"].

Section filter.
(** The value of an enumeration's member; what [_to_sql_where] makes of an object that has
    it; the [__gql_fields__] of an object's class. *)
Context (enum_value : pyval → option pyval) (to_sql_where : pyval → option pyval) (gql_fields : pyval → option (list string)).

Definition unless_none (item : pyval) (r : result bool) : result bool := if Py.is_none item then Ok false else r.

Definition _apply_single_operator (item : pyval) (op : string) (v : pyval) : result bool :=
  let item := match enum_value item, enum_value v with Some x, None => x | _, _ => item end in
  if op in_ ["eq"; "equals"] then Ok (py_eq item v)
  else if op in_ ["neq"; "not"] then Ok (negb (py_eq item v))
  else if op =s "gt" then unless_none item (py_less true v item)
  else if op =s "gte" then unless_none item (py_less false v item)
  else if op =s "lt" then unless_none item (py_less true item v)
  else if op =s "lte" then unless_none item (py_less false item v)
  else if op =s "contains" then unless_none item (Ok (Str.has_sub (Py.str v) (Py.str item)))
  else if op in_ ["startswith"; "startsWith"] then unless_none item (Ok (Str.starts_with (Py.str v) (Py.str item)))
  else if op in_ ["endswith"; "endsWith"] then unless_none item (Ok (Str.ends_with (Py.str v) (Py.str item)))
  else if op in_ ["in"; "in_"] then if Py.truthy v then py_in item v else Ok false
  else if op in_ ["nin"; "notIn"] then if Py.truthy v then negb <$> py_in item v else Ok true
  else if op =s "isnull" then Ok (if Py.truthy v then Py.is_none item else negb (Py.is_none item))
  else raise ValueError.

(** Loops that stop at the first answer that decides. *)
Fixpoint allR {A} (f : A → result bool) (l : list A) : result bool :=
  match l with
  | [] => Ok true
  | x :: l => b ← f x; if b : bool then allR f l else Ok false
  end.

Fixpoint anyR {A} (f : A → result bool) (l : list A) : result bool :=
  match l with
  | [] => Ok false
  | x :: l => b ← f x; if b : bool then Ok true else anyR f l
  end.

Definition operators_hold (item : pyval) (ops : list (string * pyval)) : result bool :=
  allR (λ kv, if Py.is_none kv.2 then Ok true else _apply_single_operator item kv.1 kv.2) ops.

Definition _apply_field_filter_operators (item v : pyval) : result bool :=
  if negb (Py.truthy v) then Ok true
  else match v with
       | PDict ops | PObj _ ops => operators_hold item ops
       | _ => Ok true
       end.

(** [getattr(item, name, None)] *)
Definition attribute (name : string) (item : pyval) : pyval := default PNone (Py.attr name item).

Definition _item_value (item : pyval) (field_name : string) : pyval :=
  let snake := to_snake_case field_name in
  match item with
  | PDict d => if dict_has snake d then Py.get snake d else Py.get field_name d
  | _ =>
      let v := attribute snake item in
      if Py.is_none v && negb (snake =s field_name) then attribute field_name item else v
  end.

(** ** One filter *)

Definition is_connective (name : string) : bool := name in_ ["AND"; "OR"; "NOT"].

(** The conditions of an object on fields, one after the other. *)
Definition fields_hold (item : pyval) (fields : list (string * pyval)) : result bool :=
  allR (λ kv, if is_connective kv.1 || Py.is_none kv.2 then Ok true
              else _apply_field_filter_operators (_item_value item kv.1) kv.2) fields.

Section step.
Context (rec : pyval → result bool).

Definition _item_matches_where_dict (item : pyval) (where_ : list (string * pyval)) : result bool :=
  allR (λ kv,
    if Py.is_none kv.2 then Ok true
    else if kv.1 =s "AND" then l ← py_items kv.2; allR rec l
    else if kv.1 =s "OR" then if negb (Py.truthy kv.2) then Ok false else l ← py_items kv.2; anyR rec l
    else if kv.1 =s "NOT" then negb <$> rec kv.2
    else _apply_field_filter_operators (_item_value item kv.1) kv.2) where_.

(** A list under a logical key of an object decides alone, AND before OR before NOT. *)
Definition logical_first (attrs : list (string * pyval)) (rest : result bool) : result bool :=
  match Py.get "AND" attrs with
  | PList l => allR rec l
  | _ =>
      match Py.get "OR" attrs with
      | PList l => anyR rec l
      | _ => if Py.is_none (Py.get "NOT" attrs) then rest else negb <$> rec (Py.get "NOT" attrs)
      end
  end.
End step.

Fixpoint _evaluate_sql_where_on_item (fuel : nat) (item sql_where : pyval) : result bool :=
  match fuel with
  | O => raise RecursionError
  | S fuel =>
      match sql_where with
      | PObj _ attrs => logical_first (_evaluate_sql_where_on_item fuel item) attrs (fields_hold item attrs)
      | _ => Ok true
      end
  end.

(** [fuel] stands for the interpreter's recursion limit. *)
Fixpoint _item_matches_where_criteria (fuel : nat) (item where_filter : pyval) : result bool :=
  match fuel with
  | O => raise RecursionError
  | S fuel =>
      if negb (Py.truthy where_filter) then Ok true
      else match where_filter with
           | PDict d => _item_matches_where_dict (_item_matches_where_criteria fuel item) item d
           | PObj _ attrs =>
               match to_sql_where where_filter with
               | Some sql_where => _evaluate_sql_where_on_item fuel item sql_where
               | None =>
                   logical_first (_item_matches_where_criteria fuel item) attrs
                     (fields_hold item
                        match gql_fields where_filter with
                        | Some names => map (λ n, (n, Py.get n attrs)) names
                        | None => attrs
                        end)
               end
           | _ => Ok true
           end
  end.

Definition _apply_where_filter_to_array (fuel : nat) (items : list pyval) (where_filter : pyval) : result (list pyval) :=
  if bool_decide (items = []) || negb (Py.truthy where_filter) then Ok items
  else
    kept ← mapR (λ item, b ← _item_matches_where_criteria fuel item where_filter; Ok (if b : bool then [item] else [])) items;
    Ok (concat kept).

(** ** One field *)

(** What a resolver reads of the type of its field, [Optional] taken off. *)
Record nested_type := {
  gql_table : string;
  has_definition : bool;
  jsonb_column : option string;
  from_dict : option (list (string * pyval) → result pyval);
  construct : list (string * pyval) → result pyval;
  resolve_nested : bool
}.

(** The context of a request: [run], if its repository has one, and the tenant's entry. *)
Record nested_context := {
  has_db : bool;
  run : option (composable * list pyval → result (list (list (string * pyval))));
  tenant_id : option pyval
}.

Definition nested_statement (view : string) (jsonb : option string) (filters : list (string * pyval)) : composable * list pyval :=
  (Format "SELECT {} AS row FROM {} AS t WHERE {} LIMIT 1"
     [match jsonb with Some (String _ _ as c) => Identifier c | _ => SQL "row_to_json(t)" end;
      Join "." (map Identifier (Str.split "." view));
      Join " AND " (map (λ kv, Composed [Identifier kv.1; SQL " = %s"]) filters)],
   filters.*2).

Definition _fetch_nested_row (loads : string → result pyval) (run : composable * list pyval → result (list (list (string * pyval))))
    (view : string) (jsonb : option string) (filters : list (string * pyval)) : result (option (list (string * pyval))) :=
  rows ← run (nested_statement view jsonb filters);
  match rows with
  | [] => Ok None
  | r :: _ =>
      row ← match dict_get "row" r with Some v => Ok v | None => raise KeyError end;
      row ← match row with PStr s => loads s | v => Ok v end;
      Ok match row with PDict d => Some d | _ => None end
  end.

Definition built (t : nested_type) (d : list (string * pyval)) : result pyval :=
  match from_dict t with Some f => f d | None => construct t d end.

(** The filters of the row that a key stands for. *)
Definition nested_filters (fk_value : pyval) (c : nested_context) : list (string * pyval) :=
  ("id", fk_value) :: match tenant_id c with Some v => [("tenant_id", v)] | None => [] end.

(** What is in the parent. *)
Definition embedded (t : nested_type) (v : pyval) : result pyval :=
  match v with
  | PDict d =>
      if has_definition t then
        match from_dict t with
        | Some f => f d
        | None => match construct t d with Ok o => Ok o | Err _ => Ok v end
        end
      else Ok v
  | _ => Ok v
  end.

Definition resolve_nested_field (loads : string → result pyval) (field_name : string) (t : nested_type) (parent : pyval)
    (c : nested_context) : result pyval :=
  let v := attribute field_name parent in
  if negb (Py.is_none v) then embedded t v
  else
    let fk_value := attribute (field_name +:+ "_id")%stdpp parent in
    match run c with
    | Some run =>
        if Str.nonempty (gql_table t) && has_db c && Py.truthy fk_value then
          match (row ← _fetch_nested_row loads run (gql_table t) (if has_definition t then jsonb_column t else Some "data")
                         (nested_filters fk_value c);
                 match row with Some ((_ :: _) as d) => Some <$> built t d | _ => Ok None end) with
          | Ok (Some o) => Ok o
          | _ => Ok PNone
          end
        else Ok PNone
    | None => Ok PNone
    end.

Definition should_use_nested_resolver (t : nested_type) : bool := has_definition t && resolve_nested t.

(** [is_list] is whether the type of the field is a list. *)
Definition resolve_nested_array_with_where (loads : string → result pyval) (fuel : nat) (field_name : string) (t : nested_type)
    (is_list : bool) (parent : pyval) (c : nested_context) (where_ : pyval) : result pyval :=
  v ← (let v := attribute field_name parent in
       if Py.is_none v then resolve_nested_field loads field_name t parent c else Ok v);
  if Py.is_none v then Ok (if is_list then PList [] else PNone)
  else if Py.is_none where_ then Ok v
  else match v with
       | PList l => PList <$> _apply_where_filter_to_array fuel l where_
       | _ => b ← _item_matches_where_criteria fuel v where_; Ok (if b : bool then v else PNone)
       end.
End filter.
