(* ===== verification/NestedFilterLaws.v ===== *)
(** * Laws of nested fields

    Elements of an array are filtered as the rows of a view are, by the same dictionary; an
    operator that is not known is never passed over; and a nested row is read for the tenant
    of the request. *)
From stdpp Require Import base decidable strings list sets.
From Stdlib Require Import ZArith Lia Ascii.
From S2P Require Import Prelude PyVal Sql Casing FieldCondition WhereClause Views Normalize NormalizeLaws Meaning WhereInput WhereObjectLaws NestedFilters.

Local Open Scope py_scope.

(** ** Loops that raise nothing *)

Lemma allR_ok {A} (f : A → result bool) (g : A → bool) l :
  (∀ x, x ∈ l → f x = Ok (g x)) → allR f l = Ok (forallb g l).
Proof.
  induction l as [|x l IH]; intros Hf; [done|]. cbn. rewrite Hf by left. cbn.
  destruct (g x); [|done]. apply IH. intros y Hy. apply Hf. by right.
Qed.

Lemma anyR_ok {A} (f : A → result bool) (g : A → bool) l :
  (∀ x, x ∈ l → f x = Ok (g x)) → anyR f l = Ok (existsb g l).
Proof.
  induction l as [|x l IH]; intros Hf; [done|]. cbn. rewrite Hf by left. cbn.
  destruct (g x); [done|]. apply IH. intros y Hy. apply Hf. by right.
Qed.

(** ** Comparisons *)

Lemma py_less_errors strict v w e : py_less strict v w = Err e → e = TypeError.
Proof.
  revert w. induction v as [|b|z|f|m0 e0|s|s r|s r|s|l IH|l IH|d IH|r a IH|c] using pyval_ind';
    intros [|b'|z'|f'|m1 e1|s'|s' r'|s' r'|s'|m|m|d'|r' a'|c']; cbn; try congruence;
    revert m; induction IH as [|x l Hx _ IHl]; intros [|y m]; try done; destruct (py_eq x y); [apply IHl|apply Hx|apply IHl|apply Hx].
Qed.

Lemma py_in_errors v w e : py_in v w = Err e → e = TypeError.
Proof. unfold py_in. repeat case_match; congruence. Qed.

Section laws.
Context (enum_value : pyval → option pyval).
Abbreviation single := (_apply_single_operator enum_value).

(** ** What an operator asks of a value

    For each operator that the repository and the filters of arrays share, what it says of
    the value [x] of a field and an operand [v], by the equality and the order of the
    language; [None] where they say nothing: texts for the operators of texts, a list for
    membership, a boolean for [isnull].  Only [isnull] says something of a value that is
    missing, as a comparison with NULL is not true and not false. *)
Definition says_of (r : result bool) : option bool := match r with Ok b => Some b | Err _ => None end.

Definition texts (f : string → string → bool) (x v : pyval) : option bool :=
  match x, v with PStr s, PStr t => Some (f t s) | _, _ => None end.

Definition member (x v : pyval) : option bool :=
  match v with PList l => Some (existsb (py_eq x) l) | _ => None end.

Definition meanings : list (string * (pyval → pyval → option bool)) :=
  [("eq", λ x v, Some (py_eq x v)); ("neq", λ x v, Some (negb (py_eq x v)));
   ("gt", λ x v, says_of (py_less true v x)); ("gte", λ x v, says_of (py_less false v x));
   ("lt", λ x v, says_of (py_less true x v)); ("lte", λ x v, says_of (py_less false x v));
   ("contains", texts Str.has_sub); ("startswith", texts Str.starts_with); ("endswith", texts Str.ends_with);
   ("in", member); ("nin", λ x v, negb <$> member x v)].

Definition compares (op : string) (x v : pyval) : option bool :=
  if op =s "isnull" then match v with PBool b => Some (Bool.eqb b (Py.is_none x)) | _ => None end
  else if Py.is_none x then None
  else match find (λ m, m.1 =s op) meanings with Some (_, f) => f x v | None => None end.

(** ** Operators *)

(** An operator is never passed over: one that is not in the list raises whatever the
    element and the operand are, and one that is raises at most for values that have no
    order or are not contained in anything. *)
Theorem unknown_operators_are_refused item op v :
  (op ∉ _OPERATORS → single item op v = raise ValueError) ∧
  (op ∈ _OPERATORS → single item op v ≠ raise ValueError).
Proof using Type.
  unfold _apply_single_operator, unless_none. set (item' := match enum_value item, enum_value v with Some x, None => x | _, _ => item end).
  clearbody item'. unfold _OPERATORS. split; intros Hop.
  - repeat match goal with
    | |- context [?o in_ ?l] => rewrite (proj1 (not_true_iff_false (o in_ l))) by (rewrite str_in_true; set_solver)
    | |- context [?o =s ?t] => replace (o =s t) with false by (symmetry; apply bool_decide_eq_false; set_solver)
    end. done.
  - pose proof (λ b x y, py_less_errors b x y ValueError) as Hl. pose proof (λ x y, py_in_errors x y ValueError) as Hi.
    repeat (apply elem_of_cons in Hop as [->|Hop]; [cbn; repeat case_match; try done; try (intros E; discriminate (Hl _ _ _ E) || discriminate (Hi _ _ E))|]).
    all: try by apply not_elem_of_nil in Hop.
    all: destruct (py_in item' v) eqn:E; cbn; [done|]; intros [= ->]; discriminate (Hi _ _ E).
Qed.

(** ** Elements and rows *)
Ltac compare_names :=
  repeat match goal with |- context [if ?c then _ else _] => let b := eval vm_compute in c in
    match b with true => idtac | false => idtac end; change c with b; cbv iota end.

(** The filters of arrays give each operator what it means, for a value that is no member of
    an enumeration. *)
Lemma compares_is_the_operator item op v b :
  enum_value item = None → compares op item v = Some b → single item op v = Ok b ∧ _normalize_operator op = op.
Proof using Type.
  intros He. unfold compares, _apply_single_operator. rewrite He. destruct (op =s "isnull") eqn:Eo.
  { apply bool_decide_eq_true in Eo as ->. destruct v as [|c| | | | | | | | | | | |]; try done. intros [= <-].
    by destruct c, (Py.is_none item). }
  destruct (Py.is_none item) eqn:En; [done|]. unfold unless_none, meanings, texts, member, says_of. rewrite En.
  destruct (find _ _) as [[o f]|] eqn:Ef; [|done]. apply find_some in Ef as [Hin Ho%bool_decide_eq_true]. cbn in Ho. subst o.
  apply list_elem_of_In in Hin.
  repeat (apply elem_of_cons in Hin as [[= -> ->]|Hin];
    [intros Hb; split; [compare_names; cbn [fst snd]; revert Hb; clear|reflexivity]|]); [..|by apply not_elem_of_nil in Hin].
  1-2: congruence.
  1-4: by destruct (py_less _ _ _); [intros [= <-]|].
  1-3: by destruct item, v; try done; intros [= <-].
  all: destruct v as [| | | | | | | | |l| | | |]; try done; cbn; intros [= <-]; by destruct l.
Qed.

Section elements.
Context (to_sql_where : pyval → option pyval) (gql_fields : pyval → option (list string)).
Abbreviation matches := (_item_matches_where_criteria enum_value to_sql_where gql_fields).

(** The element: a dictionary under the names of the database. *)
Context (d : list (string * pyval)).
Hypothesis database_names : Forall (λ k, to_snake_case k = k) d.*1.

(** The truth of a condition at a field of the element. *)
Definition element_sat (leaf : list string * string * pyval) : bool :=
  match leaf with
  | ([f], op, v) => match compares op (Py.get f d) v with Some b => b | None => false end
  | _ => false
  end.

(** An operator that says something of the value of a field. *)
Definition asks (name : string) (o : string * pyval) : bool :=
  Py.is_none o.2 ||
  match enum_value (Py.get (database_name name) d), compares o.1 (Py.get (database_name name) d) o.2 with
  | None, Some _ => true
  | _, _ => false
  end.

(** A filter the elements can be asked: fields with operators that say something of their
    values; under OR at least one dictionary. *)
Fixpoint evaluates (w : pyval) : bool :=
  match w with
  | PDict items =>
      forallb (λ kv,
        if kv.1 =s "OR" then match kv.2 with PList ((_ :: _) as l) => forallb evaluates l | _ => false end
        else if kv.1 =s "AND" then match kv.2 with PList l => forallb evaluates l | _ => false end
        else if kv.1 =s "NOT" then evaluates kv.2
        else (to_snake_case kv.1 =s database_name kv.1) &&
             match kv.2 with
             | PDict ops =>
                 operators ops &&
                 forallb (asks kv.1) ops
             | _ => false
             end) items
  | _ => false
  end.

Lemma item_value name : to_snake_case name = database_name name → _item_value (PDict d) name = Py.get (database_name name) d.
Proof using database_names.
  intros <-. unfold _item_value. destruct (dict_has (to_snake_case name) d) eqn:E; [done|]. unfold Py.get.
  assert (∀ k, dict_has k d = false → dict_get k d = None) as Hn by (intros k; unfold dict_has; by destruct (dict_get k d)).
  rewrite (Hn _ E), Hn; [done|]. apply not_true_iff_false. intros Hin%dict_has_In.
  rewrite Forall_forall in database_names. specialize (database_names _ Hin).
  apply not_true_iff_false in E. apply E. rewrite database_names. by apply dict_has_In.
Qed.

Lemma element_field_says name ops :
  to_snake_case name = database_name name → operators ops = true →
  forallb (asks name) ops = true →
  _apply_field_filter_operators enum_value (_item_value (PDict d) name) (PDict ops)
  = Ok (forallb element_sat (leaves [database_name name] (PDict ops))).
Proof using database_names.
  intros Hn Hops Hok. rewrite item_value by done. unfold _apply_field_filter_operators. cbn [leaves]. rewrite Hops.
  destruct (operators_spec _ Hops) as (_ & _ & Hne). cbn [Py.truthy].
  rewrite bool_decide_eq_false_2 by (intros ->; by destruct Hne). cbn [negb].
  set (sat (o : string * pyval) := Py.is_none o.2 || element_sat ([database_name name], _normalize_operator o.1, o.2)).
  unfold operators_hold. rewrite (allR_ok _ sat).
  - f_equal. rewrite forallb_map. unfold no_none, compose. clear Hops Hok Hne. induction ops as [|o ops IH]; [done|].
    cbn [forallb List.filter]. rewrite IH. unfold sat. by destruct (Py.is_none o.2).
  - intros o Ho. unfold sat. rewrite forallb_forall in Hok. specialize (Hok o (proj1 (list_elem_of_In _ _) Ho)).
    unfold asks in Hok. destruct (Py.is_none o.2); [done|]. cbn [orb element_sat] in *.
    destruct (enum_value _) eqn:He; [done|]. destruct (compares _ _ _) as [b|] eqn:Eb; [|done].
    destruct (compares_is_the_operator _ _ _ _ He Eb) as [-> ->]. by rewrite Eb.
Qed.

Lemma elements_say fuel w : size w < fuel → evaluates w = true → matches fuel (PDict d) w = Ok (says element_sat w).
Proof using database_names.
  revert w. induction fuel as [|fuel IH]; intros w Hs Hw; [lia|]. destruct w as [| | | | | | | | | | |items| |]; try done.
  cbn [_item_matches_where_criteria Py.truthy says].
  destruct (bool_decide (items = [])) eqn:En; [by apply bool_decide_eq_true in En as ->|]. cbn [negb].
  unfold _item_matches_where_dict. apply allR_ok. intros [name v] Hin.
  pose proof (size_item _ _ Hin) as Hv. cbn [evaluates] in Hw. rewrite forallb_forall in Hw.
  specialize (Hw _ (proj1 (list_elem_of_In _ _) Hin)). cbn [fst snd] in *.
  assert (∀ l x, v = PList l → x ∈ l → evaluates x = true → matches fuel (PDict d) x = Ok (says element_sat x)) as Hl.
  { intros l x -> Hx. apply IH. pose proof (sum_elem size _ _ Hx). cbn in Hv. cbn in Hs. lia. }
  destruct (name =s "OR") eqn:E1.
  { destruct v as [| | | | | | | | |[|x l]| | | |]; try done. rewrite forallb_forall in Hw.
    apply bool_decide_eq_true in E1 as ->. cbn [Py.is_none Py.truthy]. rewrite bool_decide_eq_false_2 by done. cbn [negb].
    change (anyR (matches fuel (PDict d)) (x :: l) = Ok (existsb (says element_sat) (x :: l))).
    apply anyR_ok. intros y Hy. eapply Hl; [done|done|]. by apply Hw, list_elem_of_In. }
  destruct (name =s "AND") eqn:E2.
  { destruct v as [| | | | | | | | |l| | | |]; try done. rewrite forallb_forall in Hw. cbn [Py.is_none py_items mbind result_bind].
    apply allR_ok. intros y Hy. eapply Hl; [done|done|]. by apply Hw, list_elem_of_In. }
  destruct (name =s "NOT") eqn:E3.
  { destruct v as [| | | | | | | | | | |ops| |]; try done. cbn [Py.is_none]. by rewrite IH by (done || lia). }
  apply andb_true_iff in Hw as [Hn%bool_decide_eq_true Hw]. destruct v as [| | | | | | | | | | |ops| |]; try done.
  apply andb_true_iff in Hw as [Hops Hok]. cbn [Py.is_none]. by apply element_field_says.
Qed.

(** C15. An array is filtered as a view is: for a filter dictionary [clean] for the
    repository, an element under the names of the database matches exactly when the clause
    that the repository makes of the same dictionary holds of it, where a condition is true
    when [compares], the meaning of its operator, says so of the element's field and the
    operand.  The filter asks operators that both have ([eq neq gt gte lt lte contains
    startswith endswith in nin isnull]) of values they say something of: only [isnull] of a
    value that is missing, texts for the operators of texts, lists for membership, values of
    one kind for an order, no member of an enumeration; it has a dictionary of operators at
    each field and at least one dictionary under OR.  How the database compares beyond that
    is not modelled. *)
Theorem elements_are_filtered_as_rows fuel res view jsonb tc w :
  size w < fuel → clean res view (columns_of res view tc) w = true → evaluates w = true →
  ∃ c, normalize_dict_where fuel res view jsonb tc w = Ok c ∧
       matches fuel (PDict d) w = Ok (holds (element_sat ∘ asked) c).
Proof using database_names.
  intros Hs Hc He. destruct (clean_answered res view jsonb _ (columns_of_idem res view tc) fuel w Hs Hc) as (c & E & _ & _ & _ & Hh).
  exists c. split; [|by rewrite Hh, elements_say].
  rewrite <- E. destruct fuel; [done|]. cbn [normalize_dict_where]. by rewrite columns_of_idem.
Qed.
End elements.
End laws.

(** ** The statement of a nested row *)

Lemma conditions_params (filters : list (string * pyval)) :
  sum_list_with placeholders (map (λ kv, Composed [Identifier kv.1; SQL " = %s"]) filters) = length filters.
Proof. induction filters as [|kv l IH]; [done|]. cbn [map sum_list_with length]. by rewrite IH. Qed.

Lemma identifiers_params (l : list string) : sum_list_with placeholders (map Identifier l) = 0.
Proof. induction l as [|s l IH]; [done|]. cbn [map sum_list_with]. by rewrite IH. Qed.

(** The statement that reads a nested row has a parameter for each of its marks, and its
    row is the one with the parent's key, of the tenant of the request when it has one. *)
Theorem nested_rows_are_of_the_tenant view jsonb fk_value c :
  let q := nested_statement view jsonb (nested_filters fk_value c) in
  placeholders q.1 = length q.2 ∧
  q.2 = fk_value :: match tenant_id c with Some v => [v] | None => [] end ∧
  (∀ v, tenant_id c = Some v → Identifier "tenant_id" ∈ match q.1 with Format _ [_; _; Join _ [_; Composed l]] => l | _ => [] end).
Proof.
  cbn zeta. unfold nested_statement. cbn [fst snd]. split_and!.
  - cbn [placeholders sum_list_with]. rewrite conditions_params, identifiers_params.
    rewrite length_fmap. assert (placeholders (match jsonb with Some (String _ _ as c) => Identifier c | _ => SQL "row_to_json(t)" end) = 0) as ->.
    { by destruct jsonb as [[]|]. }
    change (text_params "SELECT {} AS row FROM {} AS t WHERE {} LIMIT 1") with 0. change (text_params ".") with 0.
    change (text_params " AND ") with 0. cbn. rewrite !length_fmap. lia.
  - unfold nested_filters. by destruct (tenant_id c).
  - intros v Hv. unfold nested_filters. rewrite Hv. left.
Qed.

(** ** Some elements *)

Abbreviation item_matches := (_item_matches_where_criteria (λ _, None) (λ _, None) (λ _, None) 20).

Definition server : list (string * pyval) :=
  [("hostname", PStr "critical-1"); ("n_total_allocations", PInt 120); ("operating_system", PStr "Linux"); ("ip_address", PNone)].

(** The filter of the comment of the resolver. *)
Definition server_filter : pyval :=
  PDict [("AND", PList [PDict [("operatingSystem", PDict [("in", PList [PStr "Linux"; PStr "Windows"])])];
                        PDict [("OR", PList [PDict [("nTotalAllocations", PDict [("gte", PInt 200)])];
                                             PDict [("hostname", PDict [("contains", PStr "critical")])]])];
                        PDict [("NOT", PDict [("ipAddress", PDict [("isnull", PBool false)])])]])].

Definition no_views : resolver := {| metadata_of := λ _, None; declared_fields := λ _, [] |}.

Definition server_clause : where_clause :=
  Eval vm_compute in
    match normalize_dict_where 20 no_views "v_server" "data" None server_filter with
    | Ok c => c
    | Err _ => Clause [] "AND" [] None
    end.

Lemma server_normalizes : normalize_dict_where 20 no_views "v_server" "data" None server_filter = Ok server_clause.
Proof. vm_compute. reflexivity. Qed.

Lemma server_holds : holds (element_sat server ∘ asked) server_clause = true.
Proof. vm_compute. reflexivity. Qed.

Lemma elements_are_filtered_as_rows_witness :
  ∃ c, normalize_dict_where 20 no_views "v_server" "data" None server_filter = Ok c ∧
       item_matches (PDict server) server_filter = Ok (holds (element_sat server ∘ asked) c) ∧
       holds (element_sat server ∘ asked) c = true.
Proof.
  destruct (elements_are_filtered_as_rows (λ _, None) (λ _, None) (λ _, None) server
              ltac:(repeat constructor) 20 no_views "v_server" "data" None server_filter) as (c & Hc & Hm).
  - vm_compute. lia.
  - vm_compute. reflexivity.
  - vm_compute. reflexivity.
  - exists c. split_and!; [exact Hc|exact Hm|]. rewrite server_normalizes in Hc. injection Hc as <-. exact server_holds.
Defined.

(** As an object, a filter with a list under AND asks for the list alone; as a dictionary it
    asks for both. *)
Example an_and_hides_the_fields :
  let other := PObj "" [("hostname", PObj "" [("eq", PStr "other")])] in
  item_matches (PDict server) (PObj "" [("hostname", PObj "" [("eq", PStr "other")]); ("AND", PList [])]) = Ok true ∧
  item_matches (PDict server) (PDict [("hostname", PDict [("eq", PStr "other")]); ("AND", PList [])]) = Ok false ∧
  item_matches (PDict server) other = Ok false.
Proof. vm_compute. by split_and!. Qed.

(** A value that is missing is not equal to anything here, and so differs from everything;
    in the database neither holds. *)
Example a_missing_value_differs :
  item_matches (PDict server) (PDict [("ipAddress", PDict [("neq", PStr "10.0.0.1")])]) = Ok true ∧
  compares "neq" PNone (PStr "10.0.0.1") = None.
Proof. vm_compute. by split. Qed.

(** An empty list under OR matches no element; the repository reads it as no filter.  A value
    in the place of operators filters nothing here; the repository compares with it. *)
Example elements_and_rows_differ :
  let none := PDict [("hostname", PDict [("isnull", PBool false)]); ("OR", PList [])] in
  let value := PDict [("hostname", PStr "other")] in
  item_matches (PDict server) none = Ok false ∧
  (∃ c, normalize_dict_where 20 no_views "v_server" "data" None none = Ok c ∧ holds (λ _, true) c = true) ∧
  item_matches (PDict server) value = Ok true ∧
  (∃ c, normalize_dict_where 20 no_views "v_server" "data" None value = Ok c ∧ holds (λ _, false) c = false).
Proof. cbn zeta. split_and!; [reflexivity|by eexists|reflexivity|by eexists]. Qed.

(** Operators, with an order where there is one. *)
Example operators_on_values :
  _apply_single_operator (λ _, None) (PInt 1) "gt" (PStr "a") = raise TypeError ∧
  _apply_single_operator (λ _, None) PNone "neq" (PStr "a") = Ok true ∧
  _apply_single_operator (λ _, None) PNone "gte" (PStr "a") = Ok false ∧
  _apply_single_operator (λ _, None) (PInt 1) "eq" (PBool true) = Ok true ∧
  _apply_single_operator (λ _, None) (PList [PInt 1; PInt 2]) "lt" (PList [PInt 1; PFloat (Num.FFin 25 (-1))]) = Ok true ∧
  _apply_single_operator (λ _, None) (PStr "b") "in" (PStr "abc") = Ok true ∧
  _apply_single_operator (λ _, None) (PStr "b") "ilike" (PStr "abc") = raise ValueError.
Proof. vm_compute. by split_and!. Qed.

(** A department that is not in its employee is read by its key; a query that fails is no
    more than a missing value. *)
Example a_nested_row :
  let t := {| gql_table := "app.v_department"; has_definition := true; jsonb_column := Some "data"; from_dict := None;
              construct := λ d, Ok (PObj "Department" d); resolve_nested := true |} in
  let parent := PObj "Employee" [("department", PNone); ("department_id", PUUID "d1")] in
  let data := PDict [("name", PStr "Research")] in
  let context run := {| has_db := true; run := Some run; tenant_id := Some (PStr "acme") |} in
  resolve_nested_field (λ _, raise ValueError) "department" t parent (context (λ q, Ok [[("row", data)]]))
  = Ok (PObj "Department" [("name", PStr "Research")]) ∧
  resolve_nested_field (λ _, raise ValueError) "department" t parent (context (λ q, raise RuntimeError)) = Ok PNone ∧
  resolve_nested_field (λ _, raise ValueError) "department" t (PObj "Employee" [("department", data)]) (context (λ q, Ok []))
  = Ok (PObj "Department" [("name", PStr "Research")]).
Proof. vm_compute. by split_and!. Qed.
