(* ===== verification/Csrf.v ===== *)
(** * Protection against forged requests ([security/csrf_protection.py])

    Tokens signed for a session and a time, which requests have to be accompanied by one, and
    the middleware.  The signature, as hexadecimal text, is a parameter, as are graphql-core's
    parser and the store of persisted queries; a clock reading is in microseconds. *)
From stdpp Require Import base decidable strings list pretty.
From Stdlib Require Import ZArith Lia Ascii.
From S2P Require Import Prelude PyVal Cursor ChecksumLaws CompactJson.

Local Open Scope py_scope.

Abbreviation chars := String.list_ascii_of_string.
Abbreviation text := String.string_of_list_ascii.

Inductive CSRFTokenStorage := COOKIE | SESSION | HEADER.

#[export] Instance CSRFTokenStorage_eq : EqDecision CSRFTokenStorage.
Proof. solve_decision. Defined.

Record CSRFConfig := {
  secret_key : string;
  token_name : string;
  header_name : string;
  cookie_name : string;
  cookie_secure : bool;
  cookie_httponly : bool;
  cookie_samesite : string;
  token_timeout : Z;
  require_for_mutations : bool;
  require_for_subscriptions : bool;
  storage : CSRFTokenStorage;
  exempt_paths : option (list string);
  check_referrer : bool;
  trusted_origins : option (list string)
}.

(** [CSRFConfig(secret_key=...)], as [setup_csrf_protection] makes it when none is given, and
    the two that are made for production and for development. *)
Definition default_config (secret_key : string) : CSRFConfig :=
  {| secret_key := secret_key; token_name := "csrf_token"; header_name := "X-CSRF-Token"; cookie_name := "csrf_token";
     cookie_secure := true; cookie_httponly := true; cookie_samesite := "strict"; token_timeout := 3600;
     require_for_mutations := true; require_for_subscriptions := false; storage := COOKIE; exempt_paths := None;
     check_referrer := true; trusted_origins := None |}.

Definition default_exempt_paths : list string := ["/health"; "/ready"; "/metrics"; "/docs"; "/openapi.json"; "/redoc"].

Definition create_production_csrf_config (secret_key : string) (trusted_origins : list string) : CSRFConfig :=
  {| secret_key := secret_key; token_name := "csrf_token"; header_name := "X-CSRF-Token"; cookie_name := "csrf_token";
     cookie_secure := true; cookie_httponly := true; cookie_samesite := "strict"; token_timeout := 3600;
     require_for_mutations := true; require_for_subscriptions := false; storage := COOKIE;
     exempt_paths := Some default_exempt_paths; check_referrer := true; trusted_origins := Some trusted_origins |}.

Definition create_development_csrf_config (secret_key : string) : CSRFConfig :=
  {| secret_key := secret_key; token_name := "csrf_token"; header_name := "X-CSRF-Token"; cookie_name := "csrf_token";
     cookie_secure := false; cookie_httponly := true; cookie_samesite := "lax"; token_timeout := 3600;
     require_for_mutations := true; require_for_subscriptions := false; storage := COOKIE;
     exempt_paths := Some default_exempt_paths; check_referrer := false;
     trusted_origins := Some ["http://localhost:3000"; "http://localhost:8080"] |}.

(** ** Tokens *)

(** [base64.urlsafe_b64encode] and [base64.urlsafe_b64decode]: two symbols of the alphabet
    are written as others. *)
Definition url_symbol (c : ascii) : ascii :=
  if Ascii.eqb c "+" then "-"%char else if Ascii.eqb c "/" then "_"%char else c.

Definition plain_symbol (c : ascii) : ascii :=
  if Ascii.eqb c "-" then "+"%char else if Ascii.eqb c "_" then "/"%char else c.

Definition urlsafe_b64encode (s : string) : string := text (map url_symbol (b64encode (chars s))).

Definition urlsafe_b64decode (s : string) : result (list ascii) := b64decode (map plain_symbol (chars s)).

(** Whether there is a session: an empty text is none. *)
Definition session (session_id : option string) : option string :=
  match session_id with Some EmptyString => None | s => s end.

Definition second : Z := 1000000.

Section tokens.
(** [hmac.new(key, payload, sha256).hexdigest()] *)
Context (hmac : string → string → string).

Definition payload (session_id : option string) (random_token timestamp : string) : string :=
  let p := (random_token +:+ ":" +:+ timestamp)%stdpp in
  match session session_id with Some s => (s +:+ ":" +:+ p)%stdpp | None => p end.

(** [secrets.token_urlsafe(32)] and the time are given. *)
Definition generate_token (secret random_token : string) (now : Z) (session_id : option string) : string :=
  let p := payload session_id random_token (Num.string_of_Z (Z.quot now second)) in
  urlsafe_b64encode (p +:+ ":" +:+ hmac secret p)%stdpp.

(** The signature and the time of a token that is taken apart. *)
Definition signed (secret : string) (timeout now : Z) (p timestamp signature : string) : bool :=
  if negb (signature =s hmac secret p) then false
  else match Num.int_of_string timestamp with
       | Ok token_time => (now - token_time * second <=? timeout * second)%Z
       | Err _ => false
       end.

Definition validate_token (secret : string) (timeout : Z) (token : string) (now : Z) (session_id : option string) : bool :=
  match (bytes ← urlsafe_b64decode token; decode_utf8 bytes) with
  | Err _ => false
  | Ok token_data =>
      let parts := Str.split ":" token_data in
      match session session_id, parts with
      | Some s, [stored_session; random_token; timestamp; signature] =>
          if negb (stored_session =s s) then false
          else signed secret timeout now (stored_session +:+ ":" +:+ random_token +:+ ":" +:+ timestamp)%stdpp timestamp signature
      | _, _ =>
          match drop (length parts - 3) parts with
          | [random_token; timestamp; signature] =>
              signed secret timeout now (payload session_id random_token timestamp) timestamp signature
          | _ => false
          end
      end
  end.

(** ** Origins *)

(** [urlparse(url)], as far as the scheme and the network location: leading blanks are taken
    off, and tabs and line ends anywhere; brackets have to match. *)
Definition url_text (url : string) : string :=
  Str.remove_char "009" (Str.remove_char "010" (Str.remove_char "013"
    ((fix skip (s : string) : string :=
        match s with String c s' => if (Str.code c <=? 32)%Z then skip s' else s | EmptyString => s end) url))).

Definition scheme_char (c : ascii) : bool :=
  Str.is_alpha c || Str.is_digit c || Ascii.eqb c "+" || Ascii.eqb c "-" || Ascii.eqb c ".".

Fixpoint until (stop : ascii → bool) (s : string) : string :=
  match s with
  | String c s' => if stop c then EmptyString else String c (until stop s')
  | EmptyString => EmptyString
  end.

Definition _origin_of (url : string) : result string :=
  let url := url_text url in
  let '(scheme, rest) :=
    match Str.split1 ":" url with
    | Some (String c s as scheme, rest) =>
        if Str.is_alpha c && Str.forallb scheme_char scheme then (Str.lower scheme, rest) else (EmptyString, url)
    | _ => (EmptyString, url)
    end in
  let netloc :=
    match rest with
    | String "/" (String "/" s) => until (λ c, Ascii.eqb c "/" || Ascii.eqb c "?" || Ascii.eqb c "#") s
    | _ => EmptyString
    end in
  if xorb (Str.has_char "[" netloc) (Str.has_char "]" netloc) then raise ValueError
  else Ok (scheme +:+ "://" +:+ netloc)%stdpp.

(** ** Requests *)

(** Headers are looked up without regard to case; a body is what [json.loads] made of it. *)
Record request := {
  path : string;
  method : string;
  header : string → option string;
  state_session_id : option string;
  cookie_session_id : option string;
  query_param : option string;
  variables_param : option (option pyval);
  body : option pyval
}.

Definition _get_session_id (r : request) : option string :=
  match session (state_session_id r) with Some s => Some s | None => cookie_session_id r end.

Section validator.
(** The kinds of the operations of a document, if it can be parsed; the document of a hash. *)
Context (parse : string → option (list string)) (persisted : string → result (option string)) (config : CSRFConfig).

(** The strongest of the kinds there are. *)
Definition strongest (kinds types : list string) : option string :=
  match List.filter (λ t, t in_ types) kinds with t :: _ => Some t | [] => None end.

Definition _persisted_document (d : list (string * pyval)) : result (option string) :=
  match Py.get "extensions" d with
  | PDict e =>
      match Py.get "persistedQuery" e with
      | PDict p =>
          match Py.get "sha256Hash" p with
          | PStr h => if Str.nonempty (Str.strip h) then persisted h else Ok None
          | _ => Ok None
          end
      | _ => Ok None
      end
  | _ => Ok None
  end.

Definition document_type (query : string) : option string :=
  match parse query with
  | Some operations => strongest ["mutation"; "subscription"; "query"] operations
  | None => Some "unknown"
  end.

Definition keep {A} (o : option A) : list A := match o with Some x => [x] | None => [] end.

Fixpoint _extract_operation_type (request_body : pyval) : option string :=
  match request_body with
  | PList l => strongest ["unknown"; "mutation"; "subscription"; "query"] (concat (map (keep ∘ _extract_operation_type) l))
  | PDict d =>
      let query := Py.get "query" d in
      if Py.truthy query then match query with PStr q => document_type q | _ => Some "unknown" end
      else
        match _persisted_document d with
        | Err _ => Some "unknown"
        | Ok (Some (String _ _ as q)) => document_type q
        | Ok _ => None
        end
  | _ => None
  end.

Definition _requires_csrf_protection (operation_type : string) : bool :=
  if operation_type =s "mutation" then require_for_mutations config
  else if operation_type =s "subscription" then require_for_subscriptions config
  else if operation_type =s "unknown" then require_for_mutations config || require_for_subscriptions config
  else false.

(** What a check comes to: nothing, or the message of the refusal. *)
Definition trusted (origin : string) : bool :=
  match trusted_origins config with Some l => origin in_ l | None => true end.

Definition trusts_some : bool := match trusted_origins config with Some (_ :: _) => true | _ => false end.

Definition _validate_origin (r : request) : result (option string) :=
  if negb (check_referrer config) || negb trusts_some then Ok None
  else
    match header r "Origin", header r "Referer" with
    | Some origin, _ => Ok (if trusted origin then None else Some "Untrusted origin")
    | None, (None | Some EmptyString) => Ok None
    | None, Some referrer => origin ← _origin_of referrer; Ok (if trusted origin then None else Some "Untrusted origin")
    end.

(** The token among the variables of a request. *)
Definition token_from_body (request_body : pyval) : option string :=
  match request_body with
  | PDict d =>
      match Py.get "variables" d with
      | PDict v => match Py.get (token_name config) v with PStr (String _ _ as t) => Some t | _ => None end
      | _ => None
      end
  | _ => None
  end.

Definition _get_csrf_token_from_request (r : request) (request_body : pyval) : option string :=
  match header r (header_name config) with
  | Some (String _ _ as t) => Some t
  | _ => token_from_body request_body
  end.

Definition token_valid (r : request) (now : Z) (token : string) : bool :=
  validate_token (secret_key config) (token_timeout config) token now (_get_session_id r).

Definition validate_graphql_csrf (r : request) (request_body : pyval) (now : Z) : result (option string) :=
  match _extract_operation_type request_body with
  | Some t =>
      if _requires_csrf_protection t then
        origin_error ← _validate_origin r;
        match origin_error with
        | Some e => Ok (Some e)
        | None =>
            match _get_csrf_token_from_request r request_body with
            | None => Ok (Some "CSRF token is required for mutations")
            | Some token => Ok (if token_valid r now token then None else Some "Invalid or expired CSRF token")
            end
        end
      else Ok None
  | None => Ok None
  end.

(** [validate_request]; without a body the token alone is looked at. *)
Definition validate_request (r : request) (request_body : option pyval) (now : Z) : result bool :=
  match request_body with
  | None =>
      match header r (header_name config) with
      | Some (String _ _ as token) => Ok (token_valid r now token)
      | _ => Ok false
      end
  | Some b => e ← validate_graphql_csrf r b now; Ok (negb (is_some e))
  end.

(** *** The middleware *)

Definition exempt (r : request) : bool := path r in_ default default_exempt_paths (exempt_paths config).

Definition _validate_referrer (r : request) : result (option string) :=
  match header r "Referer" with
  | None | Some EmptyString => Ok (Some "Missing referrer header")
  | Some referrer =>
      if trusts_some then origin ← _origin_of referrer; Ok (if trusted origin then None else Some "Untrusted referrer")
      else Ok None
  end.

Definition _validate_csrf (r : request) (now : Z) : result (option string) :=
  referrer_error ← (if check_referrer config then _validate_referrer r else Ok None);
  match referrer_error with
  | Some e => Ok (Some e)
  | None =>
      match header r (header_name config) with
      | Some (String _ _ as token) => Ok (if token_valid r now token then None else Some "Invalid or expired CSRF token")
      | _ => Ok (Some "CSRF token is required")
      end
  end.

(** The body a GET stands for; variables that are not JSON are left out. *)
Definition get_body (query : string) (variables : option (option pyval)) : pyval :=
  PDict (("query", PStr query) :: match variables with Some (Some v) => [("variables", v)] | _ => [] end).

Definition _validate_graphql_get (r : request) (now : Z) : result (option string) :=
  match query_param r with
  | None | Some EmptyString => Ok None
  | Some query => validate_graphql_csrf r (get_body query (variables_param r)) now
  end.

(** What becomes of a request: the message of a refusal, or the application is called and its
    response gets a token, if tokens go in cookies. *)
Record set_cookie := { key : string; value : string; secure : bool; httponly : bool; samesite : string; max_age : Z }.

Inductive outcome := Refused (message : string) | Called (cookie : option set_cookie).

Definition _add_csrf_token_to_response (r : request) (random_token : string) (now : Z) : option set_cookie :=
  if bool_decide (storage config = COOKIE) then
    let csrf_token := generate_token (secret_key config) random_token now (_get_session_id r) in
    Some {| key := cookie_name config; value := csrf_token; secure := cookie_secure config;
            httponly := cookie_httponly config; samesite := cookie_samesite config; max_age := token_timeout config |}
  else None.

(** The endpoint for programs in the browser: a token, and the names it goes under. *)
Definition get_csrf_token (r : request) (random_token : string) (now : Z) : list (string * string) :=
  [("csrf_token", generate_token (secret_key config) random_token now (_get_session_id r));
   ("token_name", token_name config); ("header_name", header_name config)].

(** [calls] takes the random token and the time the response is made at. *)
Definition checked (e : option string) (calls : outcome) : outcome :=
  match e with Some message => Refused message | None => calls end.

Definition dispatch (graphql_path : string) (r : request) (now : Z) (random_token : string) (later : Z) : result outcome :=
  let calls := Called (_add_csrf_token_to_response r random_token later) in
  if exempt r then Ok (Called None)
  else
    get_error ← (if (path r =s graphql_path) && (method r =s "GET") then _validate_graphql_get r now else Ok None);
    match get_error with
    | Some e => Ok (Refused e)
    | None =>
        if method r in_ ["GET"; "HEAD"; "OPTIONS"] then Ok calls
        else if (path r =s graphql_path) && (method r =s "POST") then
          e ← match body r with
              | Some b => validate_graphql_csrf r b now
              | None => _validate_csrf r now
              end;
          Ok (checked e calls)
        else if method r in_ ["POST"; "PUT"; "DELETE"; "PATCH"] then
          e ← _validate_csrf r now; Ok (checked e calls)
        else Ok calls
    end.
End validator.
End tokens.

(** * Laws: Laws of the protection against forged requests

    A token is accepted for the session it was made for, as long as its time, and for no
    other; and no request that carries a mutation reaches the application without one. *)

(** ** Texts with separators *)

Lemma split_app_sep c a b : Str.split c (a +:+ String c b)%stdpp = Str.split c a ++ Str.split c b.
Proof.
  induction a as [|x a IH].
  - change (EmptyString +:+ String c b)%stdpp with (String c b). cbn [Str.split]. by rewrite Ascii.eqb_refl.
  - rewrite app_cons_str. cbn [Str.split]. rewrite IH. destruct (Ascii.eqb x c); [done|].
    destruct (Str.split c a) eqn:E; [|done]. destruct a as [|y a]; cbn in E; [done|]. repeat case_match; done.
Qed.

Definition without (c : ascii) (s : string) : bool := Str.forallb (λ x, negb (Ascii.eqb x c)) s.

Lemma split_without c s : without c s = true → Str.split c s = [s].
Proof.
  induction s as [|x s IH]; [done|]. unfold without. cbn. intros [Hx Hs]%andb_true_iff.
  apply negb_true_iff in Hx. by rewrite Hx, IH.
Qed.

Lemma split_nonempty c s : Str.split c s ≠ [].
Proof. destruct s as [|x s]; cbn; [done|]. repeat case_match; done. Qed.

Lemma app_inj_l_str (s t u : string) : (s +:+ u)%stdpp = (t +:+ u)%stdpp → s = t.
Proof.
  revert t. induction s as [|c s IH]; intros [|d t]; rewrite ?app_nil_l_str, ?app_cons_str; [done| | |].
  - intros E. apply (f_equal String.length) in E. cbn in E. rewrite length_app_str in E. lia.
  - intros E. apply (f_equal String.length) in E. cbn in E. rewrite length_app_str in E. lia.
  - intros [= -> E]. f_equal. by apply IH.
Qed.

(** ** Plain bytes *)

Definition ascii7 (c : ascii) : bool := between 0 127 c.

Lemma utf8_ascii (l : list ascii) : forallb ascii7 l = true → utf8 l = true.
Proof. induction l as [|c l IH]; [done|]. cbn. intros [Hc Hl]%andb_true_iff. unfold ascii7 in Hc. rewrite Hc. by apply IH. Qed.

Lemma forallb_chars (p : ascii → bool) s : Str.forallb p s = true → forallb p (chars s) = true.
Proof. induction s as [|c s IH]; [done|]. cbn. intros [-> Hs]%andb_true_iff. by apply IH. Qed.

Lemma url_symbol_back c : Ascii.eqb c "-" = false → Ascii.eqb c "_" = false → plain_symbol (url_symbol c) = c.
Proof.
  unfold url_symbol, plain_symbol. intros H1 H2. destruct (Ascii.eqb_spec c "+") as [->|Hp]; [done|].
  destruct (Ascii.eqb_spec c "/") as [->|Hs]; [done|]. by rewrite H1, H2.
Qed.

Lemma symbol_back i : plain_symbol (url_symbol (symbol i)) = symbol i.
Proof.
  unfold symbol. destruct (_ !! _) as [c|] eqn:E; [|done]. cbn.
  assert (forallb (λ c, Ascii.eqb (plain_symbol (url_symbol c)) c) (chars alphabet) = true) as H by by vm_compute.
  rewrite forallb_forall in H. by apply Ascii.eqb_eq, H, list_elem_of_In, (list_elem_of_lookup_2 _ _ _ E).
Qed.

Lemma b64_symbols_back bytes : map plain_symbol (map url_symbol (b64encode bytes)) = b64encode bytes.
Proof.
  enough (∀ n bytes, length bytes ≤ n → map plain_symbol (map url_symbol (b64encode bytes)) = b64encode bytes) as H by by eapply H.
  induction n as [|n IH]; intros [|a [|b [|c rest]]] Hn; cbn [length] in Hn; try lia; [done|done|..];
    cbn [b64encode map]; rewrite !symbol_back; [done|done|]. rewrite IH by lia. done.
Qed.

Lemma urlsafe_roundtrip s : Str.forallb ascii7 s = true → (bytes ← urlsafe_b64decode (urlsafe_b64encode s); decode_utf8 bytes) = Ok s.
Proof.
  intros Hs. unfold urlsafe_b64decode, urlsafe_b64encode.
  rewrite String.list_ascii_of_string_of_list_ascii, b64_symbols_back, b64_roundtrip. cbn. unfold decode_utf8.
  rewrite utf8_ascii by by apply forallb_chars. by rewrite String.string_of_list_ascii_of_string.
Qed.

(** ** Numbers in decimal *)

Lemma pretty_N_char_digit x : (x < 10)%N → Str.is_digit (pretty_N_char x) = true ∧ Str.digit (pretty_N_char x) = Z.of_N x.
Proof.
  intros Hx. assert (x ∈ [0; 1; 2; 3; 4; 5; 6; 7; 8; 9]%N) as Hin.
  { rewrite !elem_of_cons. lia. }
  repeat (apply elem_of_cons in Hin as [->|Hin]; [by vm_compute|]). by apply not_elem_of_nil in Hin.
Qed.

Lemma digits_pretty x s acc n :
  ∃ k, Num.digits acc n (pretty_N_go x s) = Num.digits (acc * 10 ^ Z.of_nat k + Z.of_N x) (n + k) s ∧ ((0 < x)%N → 0 < k).
Proof.
  revert s acc n. induction (N.lt_wf_0 x) as [x _ IH]; intros s acc n.
  destruct (decide (x = 0%N)) as [->|Hx].
  { exists 0. rewrite pretty_N_go_0. split; [|lia]. by rewrite Z.mul_1_r, Z.add_0_r, Nat.add_0_r. }
  rewrite pretty_N_go_step by lia.
  destruct (IH (x `div` 10)%N ltac:(apply N.div_lt; lia) (String (pretty_N_char (x `mod` 10)) s) acc n) as (k & -> & _).
  exists (S k). split; [|lia]. cbn [Num.digits].
  destruct (pretty_N_char_digit (x `mod` 10)) as [-> ->]; [apply N.mod_lt; lia|].
  f_equal; [|lia]. rewrite Nat2Z.inj_succ, Z.pow_succ_r by lia.
  pose proof (N.div_mod x 10 ltac:(lia)). lia.
Qed.

Lemma pretty_figures x s : all_figures s = true → all_figures (pretty_N_go x s) = true.
Proof.
  revert s. induction (N.lt_wf_0 x) as [x _ IH]; intros s Hs.
  destruct (decide (x = 0%N)) as [->|Hx]; [by rewrite pretty_N_go_0|].
  rewrite pretty_N_go_step by lia. apply IH; [apply N.div_lt; lia|]. cbn [all_figures].
  destruct (pretty_N_char_digit (x `mod` 10)) as [-> _]; [apply N.mod_lt; lia|done].
Qed.

Lemma pretty_N_figures (x : N) : all_figures (pretty x) = true.
Proof. unfold pretty, pretty_N. case_decide; [done|]. by apply pretty_figures. Qed.

Lemma string_of_nonneg z : (0 ≤ z)%Z → Num.string_of_Z z = pretty (Z.to_N z).
Proof. intros Hz. unfold Num.string_of_Z, pretty, pretty_Z. by destruct z. Qed.

Lemma string_of_figures z : (0 ≤ z)%Z → all_figures (Num.string_of_Z z) = true.
Proof. intros Hz. rewrite string_of_nonneg by done. apply pretty_N_figures. Qed.

Lemma digits_pretty_N (x : N) : ∃ n, Num.digits 0 0 (pretty x) = (Z.of_N x, S n, EmptyString).
Proof.
  unfold pretty, pretty_N. case_decide as Hx; [subst; by exists 0|].
  destruct (digits_pretty x EmptyString 0 0) as (k & -> & Hk). cbn [Num.digits].
  destruct (0 + k) as [|n] eqn:E; [lia|]. exists n. by rewrite Z.mul_0_l.
Qed.

Lemma int_of_string_of z : (0 ≤ z)%Z → Num.int_of_string (Num.string_of_Z z) = Ok z.
Proof.
  intros Hz. pose proof (string_of_figures z Hz) as Hf. unfold Num.int_of_string. rewrite strip_figures, sign_figures by done.
  rewrite string_of_nonneg by done. destruct (digits_pretty_N (Z.to_N z)) as (n & ->). cbn. by rewrite Z2N.id.
Qed.

(** ** Tokens *)

Lemma split_single c s x : Str.split c s = [x] → x = s.
Proof.
  revert x. induction s as [|a s IH]; intros x; cbn; [by intros [= <-]|]. destruct (Ascii.eqb a c).
  - intros [= _ E]. by apply split_nonempty in E.
  - destruct (Str.split c s) as [|w ws] eqn:E; [by apply split_nonempty in E|]. intros [= <- ->]. f_equal. by apply IH.
Qed.

(** What [hexdigest] promises: hexadecimal digits. *)
Class HmacLaws (hmac : string → string → string) : Prop := {
  hmac_hex : ∀ k p, Str.forallb Str.is_hex (hmac k p) = true
}.

Lemma forallb_weaken (p q : ascii → bool) s : (∀ c, p c = true → q c = true) → Str.forallb p s = true → Str.forallb q s = true.
Proof. intros H. induction s as [|c s IH]; [done|]. cbn. intros [Hc Hs]%andb_true_iff. by rewrite (H _ Hc), IH. Qed.

Lemma hex_is_plain c : Str.is_hex c = true → ascii7 c = true ∧ negb (Ascii.eqb c ":") = true.
Proof.
  intros Hc. split.
  - unfold Str.is_hex, Str.is_digit in Hc. unfold ascii7, between. rewrite !orb_true_iff, !andb_true_iff, !Z.leb_le in *. lia.
  - destruct (Ascii.eqb_spec c ":") as [->|]; [by vm_compute in Hc|done].
Qed.

Lemma figures_plain s : all_figures s = true → Str.forallb ascii7 s = true ∧ without ":" s = true.
Proof.
  unfold without. induction s as [|c s IH]; [done|]. cbn. intros [Hc [-> ->]%IH]%andb_true_iff.
  destruct (hex_is_plain c) as [-> ->]; [by unfold Str.is_hex; rewrite Hc|done].
Qed.

Section tokens.
Context (hmac : string → string → string) `{!HmacLaws hmac}.

Definition of_session (session_id : option string) : list string :=
  match session session_id with Some s => Str.split ":" s | None => [] end.

Lemma split_token session_id r ts signature :
  without ":" r = true → without ":" ts = true → without ":" signature = true →
  Str.split ":" (payload session_id r ts +:+ ":" +:+ signature)%stdpp = of_session session_id ++ [r; ts; signature].
Proof using Type.
  intros Hr Ht Hs.
  assert (Str.split ":" ((r +:+ ":" +:+ ts) +:+ ":" +:+ signature)%stdpp = [r; ts; signature]) as E.
  { rewrite app_assoc_str. change (":" +:+ signature)%stdpp with (String ":" signature).
    change (":" +:+ ts)%stdpp with (String ":" ts). rewrite (app_cons_str ":" ts), split_app_sep, split_app_sep.
    by rewrite !split_without. }
  unfold payload, of_session. destruct (session session_id) as [s|]; [|exact E].
  rewrite app_assoc_str. change (":" +:+ (r +:+ ":" +:+ ts))%stdpp with (String ":" (r +:+ ":" +:+ ts)%stdpp).
  rewrite app_cons_str, split_app_sep. by rewrite E.
Qed.

Lemma payload_inj s1 s2 r ts : payload s1 r ts = payload s2 r ts → session s1 = session s2.
Proof using Type.
  unfold payload. destruct (session s1) as [a|], (session s2) as [b|]; [| | |done].
  - intros E%app_inj_l_str. by subst.
  - intros E. apply (f_equal String.length) in E. rewrite !length_app_str in E. cbn in E. lia.
  - intros E. apply (f_equal String.length) in E. rewrite !length_app_str in E. cbn in E. lia.
Qed.

(** What is looked at in a token, wherever it comes from. *)
Lemma validated secret timeout token now session_id :
  validate_token hmac secret timeout token now session_id = true ↔
  ∃ data pre r ts signature t,
    (bytes ← urlsafe_b64decode token; decode_utf8 bytes) = Ok data ∧ Str.split ":" data = pre ++ [r; ts; signature] ∧
    (∀ s x, session session_id = Some s → pre = [x] → x = s) ∧
    signature = hmac secret (payload session_id r ts) ∧
    Num.int_of_string ts = Ok t ∧ (now ≤ (t + timeout) * second)%Z.
Proof using Type.
  assert (∀ p ts signature, signed hmac secret timeout now p ts signature = true ↔
            signature = hmac secret p ∧ ∃ t, Num.int_of_string ts = Ok t ∧ (now ≤ (t + timeout) * second)%Z) as Hsigned.
  { intros p ts signature. unfold signed. destruct (signature =s hmac secret p) eqn:E; cbn.
    - apply bool_decide_eq_true in E. destruct (Num.int_of_string ts) as [t|]; [|naive_solver].
      rewrite Z.leb_le. split; [intros H; split; [done|]; exists t; split; [done|lia]|intros (_ & t' & [= <-] & ?); lia].
    - apply bool_decide_eq_false in E. naive_solver. }
  unfold validate_token. destruct (_ ≫= _) as [data|]; [|naive_solver].
  set (parts := Str.split ":" data).
  assert (∀ r ts signature, drop (length parts - 3) parts = [r; ts; signature] ↔ ∃ pre, parts = pre ++ [r; ts; signature]) as Hdrop.
  { intros r ts signature. split.
    - intros E. exists (take (length parts - 3) parts). by rewrite <- E, take_drop.
    - intros (pre & ->). rewrite length_app. cbn. replace (length pre + 3 - 3) with (length pre) by lia. by rewrite drop_app_length. }
  transitivity (∃ pre r ts signature, parts = pre ++ [r; ts; signature] ∧ (∀ s x, session session_id = Some s → pre = [x] → x = s) ∧
                  signed hmac secret timeout now (payload session_id r ts) ts signature = true).
  2: { setoid_rewrite Hsigned. naive_solver. }
  assert ((∀ s x, session session_id = Some s → length parts = 4 → parts !! 0 = Some x → x = s) →
          (match drop (length parts - 3) parts with
           | [r; ts; signature] => signed hmac secret timeout now (payload session_id r ts) ts signature
           | _ => false
           end = true ↔
           ∃ pre r ts signature, parts = pre ++ [r; ts; signature] ∧ (∀ s x, session session_id = Some s → pre = [x] → x = s) ∧
             signed hmac secret timeout now (payload session_id r ts) ts signature = true)) as Hrest.
  { intros Hs. destruct (drop _ parts) as [|r [|ts [|signature [|]]]] eqn:E.
    1-3,5: split; [done|]; intros (pre & r' & ts' & s' & Hp & _); by pose proof (proj2 (Hdrop r' ts' s') (ex_intro _ pre Hp)).
    split.
    - intros Hok. destruct (proj1 (Hdrop r ts signature) eq_refl) as (pre & Hp). exists pre, r, ts, signature. split; [done|]. split; [|done].
      intros s x Hs' ->. apply (Hs s x Hs'); by rewrite Hp.
    - intros (pre & r' & ts' & s' & Hp & _ & Hok).
      pose proof (proj2 (Hdrop r' ts' s') (ex_intro _ pre Hp)) as E'. by injection E' as -> -> ->. }
  destruct (session session_id) as [s|] eqn:Es; [|by apply Hrest].
  destruct parts as [|x [|r [|ts [|signature [|y l]]]]] eqn:Ep; try (apply Hrest; cbn; intros; lia).
  destruct (x =s s) eqn:Ex; cbn [negb].
  - apply bool_decide_eq_true in Ex as ->. assert ((s +:+ ":" +:+ r +:+ ":" +:+ ts)%stdpp = payload session_id r ts) as -> by (unfold payload; by rewrite Es).
    apply Hrest. cbn. by intros s' x' [= <-] _ [= <-].
  - apply bool_decide_eq_false in Ex. split; [done|]. intros (pre & r' & ts' & s' & Hp & Hx & _).
    destruct pre as [|x' [|y' pre]]; [done| |].
    + injection Hp as <- <- <- <-. by specialize (Hx s x eq_refl eq_refl).
    + apply (f_equal length) in Hp. cbn in Hp. rewrite length_app in Hp. cbn in Hp. lia.
Qed.

(** C38. A token that was made is accepted for the session it was made for until its time is
    over, and for no other session, nor without one if it was made for one, unless the two
    payloads in question, that of the token and that of the session it is checked for, differ
    and have one signature; whatever colons the name of the session has. *)
Theorem a_token_is_of_its_session secret timeout r made now s1 s2 :
  let signing s := payload s r (Num.string_of_Z (Z.quot made second)) in
  (hmac secret (signing s1) = hmac secret (signing s2) → signing s1 = signing s2) →
  Str.forallb ascii7 r = true → without ":" r = true →
  Str.forallb ascii7 (default EmptyString (session s1)) = true → (0 ≤ made)%Z →
  validate_token hmac secret timeout (generate_token hmac secret r made s1) now s2 = true
  ↔ session s1 = session s2 ∧ (now ≤ (Z.quot made second + timeout) * second)%Z.
Proof using HmacLaws0.
  intros signing Hinj Hr Hc Hs Hm. set (ts := Num.string_of_Z (Z.quot made second)).
  assert (0 ≤ Z.quot made second)%Z as Hq by (apply Z.quot_pos; unfold second; lia).
  destruct (figures_plain ts) as [Ht7 Htc]; [by apply string_of_figures|].
  set (p := payload s1 r ts).
  assert (Str.forallb ascii7 (hmac secret p) = true ∧ without ":" (hmac secret p) = true) as [Hh7 Hhc].
  { split; (eapply (forallb_weaken Str.is_hex); [by intros c [? ?]%hex_is_plain|apply hmac_hex]). }
  assert (Str.forallb ascii7 (p +:+ ":" +:+ hmac secret p)%stdpp = true) as Hp7.
  { rewrite !forallb_app_str, Hh7. subst p. unfold payload.
    destruct (session s1); rewrite !forallb_app_str, ?Hr, ?Ht7; [|done]. cbn in Hs. by rewrite Hs. }
  rewrite validated. unfold generate_token. fold ts p. rewrite urlsafe_roundtrip by done.
  pose proof (split_token s1 r ts (hmac secret p) Hc Htc Hhc) as Hsplit. fold p in Hsplit.
  assert (Num.int_of_string ts = Ok (Z.quot made second)) as Hts by by apply int_of_string_of.
  split.
  - intros (data & pre & r' & ts' & sg & t & [= <-] & E & _ & Hsig & Hint & Hle). rewrite Hsplit in E.
    apply app_inj_2 in E as [_ [= <- <- <-]]; [|done]. rewrite Hts in Hint. injection Hint as <-. split; [|done].
    eapply payload_inj. by apply Hinj.
  - intros [Hse Hle]. eexists _, (of_session s1), r, ts, (hmac secret p), _. split; [done|]. split; [done|].
    split_and!; [|subst p; unfold payload; by rewrite Hse|done|done].
    intros s x Hs2 Hpre. unfold of_session in Hpre. rewrite Hse, Hs2 in Hpre. by apply split_single in Hpre.
Qed.
End tokens.

(** ** Requests *)

Section requests.
Context (hmac : string → string → string).
Context (parse : string → option (list string)) (persisted : string → result (option string)) (config : CSRFConfig).
Abbreviation extracted := (_extract_operation_type parse persisted).

(** A body with a mutation: in its document, in the document of its hash, in an entry. *)
Inductive carries_mutation : pyval → Prop :=
| carries_query d q ops :
    Py.get "query" d = PStr q → q ≠ EmptyString → parse q = Some ops → "mutation" ∈ ops → carries_mutation (PDict d)
| carries_hash d q ops :
    Py.truthy (Py.get "query" d) = false → _persisted_document persisted d = Ok (Some q) → q ≠ EmptyString →
    parse q = Some ops → "mutation" ∈ ops → carries_mutation (PDict d)
| carries_entry l b : b ∈ l → carries_mutation b → carries_mutation (PList l).

Lemma strongest_first k kinds types : k ∈ types → strongest (k :: kinds) types = Some k.
Proof using Type. intros Hk. unfold strongest. cbn. by rewrite (proj2 (str_in_true _ _) Hk). Qed.

Lemma mutations_are_seen b : carries_mutation b → extracted b = Some "mutation" ∨ extracted b = Some "unknown".
Proof using Type.
  induction 1 as [d q ops Hq Hne Hp Hm|d q ops Hq Hd Hne Hp Hm|l b Hin _ IH]; cbn [_extract_operation_type].
  - rewrite Hq. cbn. destruct q as [|c q]; [done|]. cbn. unfold document_type. rewrite Hp. left. by apply strongest_first.
  - rewrite Hq, Hd. destruct q as [|c q]; [done|]. unfold document_type. rewrite Hp. left. by apply strongest_first.
  - set (types := concat _). assert ("mutation" ∈ types ∨ "unknown" ∈ types) as Ht.
    { subst types. apply list_elem_of_In, (in_map (keep ∘ extracted)), list_elem_of_In in Hin. unfold compose in Hin at 1.
      destruct IH as [E|E]; rewrite E in Hin; [left|right]; apply list_elem_of_In, in_concat; (eexists; split; [by apply list_elem_of_In|by left]). }
    destruct (decide ("unknown" ∈ types)) as [Hu|Hu]; [right; by apply strongest_first|].
    destruct Ht as [Ht|?]; [|done]. left. unfold strongest. cbn. rewrite (proj1 (not_true_iff_false _)) by by rewrite str_in_true.
    by rewrite (proj2 (str_in_true _ _) Ht).
Qed.

(** What the client sent as a token: the header, or else a variable. *)
Definition presented (r : request) (b : pyval) (token : string) : Prop := _get_csrf_token_from_request config r b = Some token.

Lemma validated_request r b now t :
  extracted b = Some t → _requires_csrf_protection config t = true →
  validate_graphql_csrf hmac parse persisted config r b now = Ok None →
  (∃ token, presented r b token ∧ token_valid hmac config r now token = true) ∧
  (∀ origin, check_referrer config = true → trusts_some config = true → header r "Origin" = Some origin → trusted config origin = true).
Proof using Type.
  intros Ht Hreq. unfold validate_graphql_csrf. rewrite Ht, Hreq. intros (oe & Ho & H)%bind_Ok. destruct oe; [done|]. split.
  - destruct (_get_csrf_token_from_request config r b) as [token|] eqn:Etok; [|done].
    exists token. split; [done|]. by destruct (token_valid hmac config r now token).
  - intros origin Hc Hs Horg. revert Ho. unfold _validate_origin. rewrite Hc, Hs, Horg. cbn. by destruct (trusted config origin).
Qed.

(** The body a request has for the application. *)
Definition graphql_body (graphql_path : string) (r : request) : option pyval :=
  if path r =s graphql_path then
    if method r =s "GET" then match query_param r with Some q => Some (get_body q (variables_param r)) | None => None end
    else if method r =s "POST" then body r else None
  else None.

(** C4. No mutation without a token.  Where tokens are required for mutations and the path is
    not exempt, a request that the middleware lets through, by GET or by POST, with a
    mutation anywhere in it (behind comments or fragments, in a document that is only named
    by its hash, in one entry of a batch), came with a token that is valid for the session of
    the request at that time; and if the origin is checked ([check_referrer] is on and
    origins are listed) and the request sent one, it is one of those listed (of a request
    without an origin nothing is said). *)
Theorem no_mutation_without_a_token graphql_path r now random later cookie b :
  require_for_mutations config = true → exempt config r = false →
  graphql_body graphql_path r = Some b → carries_mutation b →
  dispatch hmac parse persisted config graphql_path r now random later = Ok (Called cookie) →
  (∃ token, presented r b token ∧ token_valid hmac config r now token = true) ∧
  (∀ origin, check_referrer config = true → trusts_some config = true → header r "Origin" = Some origin → trusted config origin = true).
Proof using Type.
  intros Hreq Hex Hb Hm. assert (∃ t, extracted b = Some t ∧ _requires_csrf_protection config t = true) as (t & Ht & Hr).
  { destruct (mutations_are_seen b Hm) as [E|E]; eexists; (split; [exact E|]); unfold _requires_csrf_protection; by rewrite Hreq. }
  unfold graphql_body in Hb. unfold dispatch. rewrite Hex. destruct (path r =s graphql_path) eqn:Ep; [|done].
  destruct (method r =s "GET") eqn:Eg; cbn [andb].
  - destruct (query_param r) as [q|] eqn:Eq; [|done]. injection Hb as <-. intros (e & He & H)%bind_Ok. destruct e; [done|].
    eapply validated_request; [done|done|]. revert He. unfold _validate_graphql_get. rewrite Eq. destruct q; [|done].
    intros _. inversion Hm as [d q' ops Hq Hne|d q' ops _ Hp|]; subst; [by injection Hq as <-|].
    unfold get_body, _persisted_document in Hp. cbn in Hp. by destruct (variables_param r) as [[v|]|].
  - intros (e & [= <-] & H)%bind_Ok. destruct (method r =s "POST") eqn:Epo; [|done].
    assert (method r = "POST") as Hpost by by apply bool_decide_eq_true in Epo. rewrite Hpost in H. cbn in H.
    rewrite Hb in H. apply bind_Ok in H as (e & He & H). destruct e; [done|]. by eapply validated_request.
Qed.

(** A token that is valid was signed with the secret, for the session of the request. *)
Lemma valid_tokens_are_signed r now token :
  token_valid hmac config r now token = true →
  ∃ data pre rnd ts t,
    (bytes ← urlsafe_b64decode token; decode_utf8 bytes) = Ok data ∧
    Str.split ":" data = pre ++ [rnd; ts; hmac (secret_key config) (payload (_get_session_id r) rnd ts)] ∧
    Num.int_of_string ts = Ok t ∧ (now ≤ (t + token_timeout config) * second)%Z.
Proof using Type.
  intros (data & pre & rnd & ts & sg & t & Hd & Hp & _ & -> & Hi & Hl)%validated. by exists data, pre, rnd, ts, t.
Qed.
End requests.

(** ** Some requests *)

(** The hexadecimal digits of bytes. *)
Fixpoint hexes (s : string) : string :=
  match s with
  | String c s => String (Py.hex_digit (Str.code c / 16)) (String (Py.hex_digit (Str.code c mod 16)) (hexes s))
  | EmptyString => EmptyString
  end.

(** A signature of eight digits for texts of any length, so that different payloads may share
    one: a rolling sum over the key and the payload, and its four bytes. *)
Definition rolled (s : string) : Z := fold_left (λ a c, (a * 257 + Str.code c) mod 2 ^ 32)%Z (chars s) 0%Z.

Definition toy_hmac (key p : string) : string :=
  let n := rolled (key +:+ "/" +:+ p)%stdpp in
  hexes (text (map (λ i, Str.chr (n / 2 ^ i mod 256)) [24; 16; 8; 0]%Z)).

Lemma hex_digits n : (0 ≤ n < 16)%Z → n ∈ [0; 1; 2; 3; 4; 5; 6; 7; 8; 9; 10; 11; 12; 13; 14; 15]%Z.
Proof. rewrite !elem_of_cons. lia. Qed.

Lemma hex_digit_is_hex n : (0 ≤ n < 16)%Z → Str.is_hex (Py.hex_digit n) = true.
Proof. intros Hn%hex_digits. repeat (apply elem_of_cons in Hn as [->|Hn]; [by vm_compute|]). by apply not_elem_of_nil in Hn. Qed.

Lemma code_halves c : (0 ≤ Str.code c / 16 < 16)%Z ∧ (0 ≤ Str.code c mod 16 < 16)%Z.
Proof. pose proof (code_range c). split; Z.div_mod_to_equations; lia. Qed.

#[export] Instance toy_hmac_laws : HmacLaws toy_hmac.
Proof.
  split. intros k p. unfold toy_hmac. generalize (text (map (λ i, Str.chr (rolled (k +:+ "/" +:+ p)%stdpp / 2 ^ i mod 256)) [24; 16; 8; 0]%Z)). intros s.
  induction s as [|c s IH]; [done|]. cbn [hexes Str.forallb]. destruct (code_halves c). by rewrite !hex_digit_is_hex, IH.
Qed.

(** Made for alice:1 and checked at the last moment of its hour, for her and for alice. *)
Lemma a_token_is_of_its_session_witness :
  let token := generate_token toy_hmac "key" "r4nd-om_" 1700000000000000 (Some "alice:1") in
  validate_token toy_hmac "key" 3600 token 1700003600000000 (Some "alice:1") = true ∧
  ¬ validate_token toy_hmac "key" 3600 token 1700003600000000 (Some "alice") = true.
Proof.
  pose proof (λ s2 H, a_token_is_of_its_session toy_hmac "key" 3600 "r4nd-om_" 1700000000000000 1700003600000000 (Some "alice:1") s2 H
                        ltac:(vm_compute; reflexivity) ltac:(vm_compute; reflexivity) ltac:(vm_compute; reflexivity) ltac:(lia)) as H.
  split.
  - apply (H (Some "alice:1")); [by intros _|]. split; [reflexivity|]. vm_compute. discriminate.
  - intros Ht. apply (H (Some "alice")) in Ht as [E _]; [discriminate E|]. vm_compute. discriminate.
Defined.

Definition protected : CSRFConfig := create_production_csrf_config "key" ["https://app.example.com"].

(** A parser that reads the first word, and a store with one mutation. *)
Definition first_word (q : string) : option (list string) :=
  match Str.split " " q with w :: _ => if w in_ ["query"; "mutation"; "subscription"] then Some [w] else None | [] => None end.

Definition stored (h : string) : result (option string) := Ok (if h =s "abc" then Some "mutation { pay }" else None).

Definition posted (headers : list (string * string)) (b : pyval) : request :=
  {| path := "/graphql"; method := "POST"; header := λ h, dict_get h headers; state_session_id := None;
     cookie_session_id := Some "alice"; query_param := None; variables_param := None; body := Some b |}.

Definition alices_token : string := generate_token toy_hmac "key" "r" 1700000000000000 (Some "alice").

Definition batch : pyval :=
  PList [PDict [("query", PStr "query { me }")];
         PDict [("extensions", PDict [("persistedQuery", PDict [("sha256Hash", PStr "abc")])])]].

Definition alices_request : request := posted [("X-CSRF-Token", alices_token); ("Origin", "https://app.example.com")] batch.

Abbreviation csrf := (dispatch toy_hmac first_word stored protected "/graphql").

Lemma alices_token_is_taken : csrf alices_request 1700000001000000 "s" 1700000002000000
  = Ok (Called (Some {| key := "csrf_token"; value := generate_token toy_hmac "key" "s" 1700000002000000 (Some "alice");
                        secure := true; httponly := true; samesite := "strict"; max_age := 3600 |})).
Proof. vm_compute. reflexivity. Qed.

Lemma no_mutation_without_a_token_witness :
  ∃ token, presented protected alices_request batch token ∧ token_valid toy_hmac protected alices_request 1700000001000000 token = true.
Proof.
  refine (proj1 (no_mutation_without_a_token toy_hmac first_word stored protected "/graphql" alices_request 1700000001000000 "s"
            1700000002000000 _ batch eq_refl eq_refl eq_refl _ alices_token_is_taken)).
  eapply (carries_entry _ _ _ (PDict [("extensions", PDict [("persistedQuery", PDict [("sha256Hash", PStr "abc")])])])); [right; left|].
  eapply (carries_hash _ _ _ "mutation { pay }" ["mutation"]); [reflexivity|reflexivity|discriminate|reflexivity|left].
Defined.

(** What is refused, and what needs no token. *)
Example some_refusals :
  csrf (posted [] batch) 0 "s" 0 = Ok (Refused "CSRF token is required for mutations") ∧
  csrf (posted [("X-CSRF-Token", alices_token)] batch) 1700003601000000 "s" 0 = Ok (Refused "Invalid or expired CSRF token") ∧
  csrf (posted [("X-CSRF-Token", alices_token); ("Origin", "https://evil.example")] batch) 1700000001000000 "s" 0 = Ok (Refused "Untrusted origin") ∧
  csrf (posted [("Referer", "HTTPS://app.example.com/pay?x=1"); ("X-CSRF-Token", "x")] batch) 0 "s" 0 = Ok (Refused "Invalid or expired CSRF token") ∧
  csrf (posted [] (PDict [("query", PStr "# mutation")])) 0 "s" 0 = Ok (Refused "CSRF token is required for mutations") ∧
  csrf {| path := "/graphql"; method := "GET"; header := λ _, None; state_session_id := None; cookie_session_id := None;
          query_param := Some "mutation { pay }"; variables_param := None; body := None |} 0 "s" 0
  = Ok (Refused "CSRF token is required for mutations") ∧
  (∃ t, csrf (posted [] (PDict [("query", PStr "query { me }")])) 0 "s" 0 = Ok (Called t)).
Proof. vm_compute. split_and!; try done. by eexists. Qed.

(** Tokens that are to be kept in the session or sent in a header are never made. *)
Example only_cookies_carry_tokens :
  map (λ s, _add_csrf_token_to_response toy_hmac
              {| secret_key := "key"; token_name := "csrf_token"; header_name := "X-CSRF-Token"; cookie_name := "csrf_token";
                 cookie_secure := true; cookie_httponly := true; cookie_samesite := "strict"; token_timeout := 3600;
                 require_for_mutations := true; require_for_subscriptions := false; storage := s; exempt_paths := None;
                 check_referrer := true; trusted_origins := None |} alices_request "s" 0) [SESSION; HEADER] = [None; None].
Proof. reflexivity. Qed.
