(* ===== verification/RequestLimits.v ===== *)
(** * Limits on requests by client ([security/rate_limiting.py], [security/client_ip.py])

    Counters over fixed windows in memory or in Redis, the limits of GraphQL operations, the
    middleware, and the address a request is counted under.  A clock reading is in
    microseconds and given to each call; addresses and networks, and the patterns of
    [fnmatch], are parameters. *)
From stdpp Require Import base decidable strings gmap list sorting.
From Stdlib Require Import ZArith Lia Ascii.
From S2P Require Import Prelude PyVal.

Local Open Scope py_scope.

Definition second : Z := 1000000.

(** ** The client *)

Section client.
Context {network address : Type} (ip_network : string → option network) (ip_address : string → option address)
  (in_network : address → network → bool).

(** [value.find("]")] and what is before it. *)
Definition _strip_port (value : string) : string :=
  let value := Str.strip value in
  match value with
  | String "[" rest => match Str.split1 "]" rest with Some (host, _) => host | None => value end
  | _ =>
      match Str.split ":" value with
      | [host; _] => host
      | _ => value
      end
  end.

(** [TrustedProxies(proxies)]: the entries one after the other. *)
Fixpoint trusted_networks (proxies : list string) : result (list network) :=
  match proxies with
  | [] => Ok []
  | raw :: proxies =>
      let entry := Str.strip raw in
      if negb (Str.nonempty entry) then trusted_networks proxies
      else if entry =s "*" then raise ValueError
      else match ip_network entry with
           | Some n => ns ← trusted_networks proxies; Ok (n :: ns)
           | None => raise ValueError
           end
  end.

(** [host in trusted_proxies] *)
Definition trusts (networks : list network) (host : string) : bool :=
  Str.nonempty host &&
  match ip_address (_strip_port host) with
  | Some a => existsb (in_network a) networks
  | None => false
  end.

(** What is read of a request: the peer's host, the values of [X-Forwarded-For], and
    [X-Real-IP]. *)
Record connection := { peer : option string; forwarded_for : list string; real_ip : string }.

Definition hops (values : list string) : list string :=
  map _strip_port (List.filter (λ hop, Str.nonempty (Str.strip hop)) (concat (map (Str.split ",") values))).

(** [a or b] on texts, [None] and the empty one being nothing. *)
Definition or_else (o : option string) (d : string) : string :=
  match o with None | Some EmptyString => d | Some s => s end.

Definition get_client_ip (networks : list network) (c : connection) : string :=
  match peer c with
  | Some p =>
      if trusts networks p then
        match hops (forwarded_for c) with
        | [] => or_else (Some (Str.strip (real_ip c))) (or_else (Some p) "unknown")
        | (first :: _) as forwarded =>
            match List.filter (λ hop, negb (trusts networks hop)) (rev forwarded) with
            | hop :: _ => hop
            | [] => first
            end
        end
      else or_else (Some p) "unknown"
  | None => "unknown"
  end.
End client.

(** ** Counters *)

Record RateLimit := { requests : Z; window : Z }.

(** The start of the window of a key, and how often it was counted. *)
Abbreviation store := (gmap string (Z * Z)).

Definition get (key : string) (s : store) : Z * Z := default (0, 0)%Z (s !! key).

Definition set_ (key : string) (timestamp count ttl now : Z) (s : store) : store :=
  filter (λ kv, (now - kv.2.1 <= ttl * second)%Z) (<[key := (timestamp, count)]> s).

(** One count of a window, from what is there. *)
Definition counted (window now : Z) (e : option (Z * Z)) : Z * Z :=
  let '(timestamp, count) := default (now, 0)%Z e in
  if (window * second <=? now - timestamp)%Z then (now, 1)%Z else (timestamp, count + 1)%Z.

Definition increment (key : string) (window now : Z) (s : store) : (Z * Z) * store :=
  let e := counted window now (s !! key) in (e, <[key := e]> s).

(** *** Redis

    An entry with the time it expires at.  Between the reading and the pipeline's writing
    other clients have their turn. *)
Abbreviation redis := (gmap string ((Z * Z) * Z)).

Definition redis_get (key : string) (now : Z) (r : redis) : option (Z * Z) :=
  match r !! key with
  | Some (e, expires) => if (now <? expires)%Z then Some e else None
  | None => None
  end.

Definition setex (key : string) (ttl : Z) (e : Z * Z) (now : Z) (r : redis) : redis := <[key := (e, now + ttl * second)%Z]> r.

(** What is written for what was read. *)
Definition redis_counted (window now : Z) (e : option (Z * Z)) : Z * Z :=
  match e with
  | None => (now, 1)%Z
  | Some (timestamp, count) => if (window * second <=? now - timestamp)%Z then (now, 1)%Z else (timestamp, count + 1)%Z
  end.

(** [increment] when nobody comes between. *)
Definition redis_increment (key : string) (window now : Z) (r : redis) : (Z * Z) * redis :=
  let e := redis_counted window now (redis_get key now r) in (e, setex key window e now r).

(** The clients of one key: each reads and then writes; what it has read is kept for it. *)
Inductive redis_event := Reads (client : nat) | Writes (client : nat).

Record redis_run := { shared : redis; read_by : gmap nat (option (Z * Z)); returned : list (Z * Z) }.

Definition redis_step (key : string) (window now : Z) (w : redis_run) (e : redis_event) : option redis_run :=
  match e with
  | Reads c => Some {| shared := shared w; read_by := <[c := redis_get key now (shared w)]> (read_by w); returned := returned w |}
  | Writes c =>
      match read_by w !! c with
      | Some o =>
          let e := redis_counted window now o in
          Some {| shared := setex key window e now (shared w); read_by := delete c (read_by w); returned := returned w ++ [e] |}
      | None => None
      end
  end.

(** ** Limits of GraphQL operations *)

Definition default_graphql_operation_limits : list (string * RateLimit) :=
  [("query", {| requests := 100; window := 60 |}); ("mutation", {| requests := 20; window := 60 |});
   ("subscription", {| requests := 10; window := 60 |})].

Definition default_graphql_complexity_limits : list (string * RateLimit) :=
  [("low", {| requests := 200; window := 60 |}); ("medium", {| requests := 100; window := 60 |});
   ("high", {| requests := 20; window := 60 |})].

Definition _merge_limits (defaults : list (string * RateLimit)) (overrides : list (string * RateLimit)) :
  result (list (string * RateLimit)) :=
  if forallb (λ kv, dict_has kv.1 defaults) overrides then Ok (foldl (λ d kv, dict_set kv.1 kv.2 d) defaults overrides)
  else raise ValueError.

(** [query.count(c)], and the deepest braces. *)
Fixpoint count_char (c : ascii) (s : string) : Z :=
  match s with String a s => (if Ascii.eqb a c then 1 else 0) + count_char c s | EmptyString => 0 end.

Fixpoint braces (depth max_depth : Z) (s : string) : Z :=
  match s with
  | EmptyString => max_depth
  | String c s =>
      if Ascii.eqb c "{" then braces (depth + 1) (Z.max max_depth (depth + 1)) s
      else if Ascii.eqb c "}" then braces (depth - 1) max_depth s
      else braces depth max_depth s
  end.

Definition _estimate_complexity (query : string) : Z :=
  braces 0 0 query * 10 + (count_char "010" query + count_char "," query).

Definition _get_complexity_tier (complexity : Z) : string :=
  if (complexity <? 50)%Z then "low" else if (complexity <? 200)%Z then "medium" else "high".

Definition operation_type (query : string) : string :=
  let query_lower := Str.strip (Str.lower query) in
  if Str.starts_with "mutation" query_lower then "mutation"
  else if Str.starts_with "subscription" query_lower then "subscription" else "query".

(** The type and the estimate; a body that is not a dictionary, or whose query is not a
    text, has no method that is called. *)
Definition _extract_operation_info (request_body : pyval) : result (string * Z) :=
  match request_body with
  | PDict d =>
      match default (PStr EmptyString) (dict_get "query" d) with
      | PStr q => Ok (operation_type q, _estimate_complexity q)
      | _ => raise AttributeError
      end
  | _ => raise AttributeError
  end.

(** A refusal: its message and the limit in its headers. *)
Record refusal := { message : string; limit : RateLimit }.

Definition _check_limit (key : string) (l : RateLimit) (now : Z) (s : store) : bool * store :=
  let '((_, count), s) := increment key (window l) now s in ((requests l <? count)%Z, s).

Section middleware.
Context (fnmatch : string → string → bool).

(** A request: its path, whether it is a POST, the user, the client's address, and its body
    when it is JSON. *)
Record request := { path : string; post : bool; user_id : option string; client_ip : string; body : option pyval }.

Record RateLimitRule := {
  path_pattern : string;
  rate_limit : RateLimit;
  exempt_func : option (request → bool);
  rule_message : option string
}.

Record limiter := {
  operation_limits : list (string * RateLimit);
  complexity_limits : list (string * RateLimit);
  rules : list RateLimitRule;
  default_limit : RateLimit;
  graphql_path : string
}.

Definition found (name : string) (limits : list (string * RateLimit)) : result RateLimit :=
  match dict_get name limits with Some l => Ok l | None => raise KeyError end.

Definition check_graphql_limits (m : limiter) (r : request) (request_body : pyval) (now : Z) (s : store) :
  result (option refusal * store) :=
  '(op_type, complexity) ← _extract_operation_info request_body;
  let client := or_else (user_id r) (client_ip r) in
  op_limit ← found op_type (operation_limits m);
  match _check_limit ("graphql:op:" +:+ op_type +:+ ":" +:+ client)%stdpp op_limit now s with
  | (true, s) => Ok (Some {| message := ("Rate limit exceeded for " +:+ op_type +:+ " operations")%stdpp; limit := op_limit |}, s)
  | (false, s) =>
      let tier := _get_complexity_tier complexity in
      complexity_limit ← found tier (complexity_limits m);
      match _check_limit ("graphql:complexity:" +:+ tier +:+ ":" +:+ client)%stdpp complexity_limit now s with
      | (true, s) => Ok (Some {| message := ("Rate limit exceeded for " +:+ tier +:+ " complexity queries")%stdpp;
                                 limit := complexity_limit |}, s)
      | (false, s) => Ok (None, s)
      end
  end.

Definition _get_client_key (r : request) : string :=
  match user_id r with
  | None | Some EmptyString => ("ip:" +:+ client_ip r)%stdpp
  | Some u => ("user:" +:+ u)%stdpp
  end.

Definition _matches_pattern (path pattern : string) : bool :=
  if negb (Str.has_char "*" pattern) then path =s pattern else fnmatch path pattern.

Fixpoint apply_rules (l : list RateLimitRule) (r : request) (now : Z) (s : store) : option refusal * store :=
  match l with
  | [] => (None, s)
  | rule :: l =>
      if _matches_pattern (path r) (path_pattern rule) then
        match _check_limit (path_pattern rule +:+ ":" +:+ _get_client_key r)%stdpp (rate_limit rule) now s with
        | (true, s) => (Some {| message := or_else (rule_message rule) "Rate limit exceeded"; limit := rate_limit rule |}, s)
        | (false, s) => apply_rules l r now s
        end
      else apply_rules l r now s
  end.

Definition _apply_rate_limits (m : limiter) (r : request) (now : Z) (s : store) : option refusal * store :=
  match apply_rules (rules m) r now s with
  | (Some e, s) => (Some e, s)
  | (None, s) =>
      match _check_limit ("default:" +:+ _get_client_key r)%stdpp (default_limit m) now s with
      | (true, s) => (Some {| message := "Rate limit exceeded"; limit := default_limit m |}, s)
      | (false, s) => (None, s)
      end
  end.

Definition _is_exempt (m : limiter) (r : request) : bool :=
  (path r in_ ["/health"; "/ready"; "/metrics"])
  || existsb (λ rule, match exempt_func rule with
                      | Some f => _matches_pattern (path r) (path_pattern rule) && f r
                      | None => false
                      end) (rules m).

(** [None] calls the application. *)
Definition dispatch (m : limiter) (r : request) (now : Z) (s : store) : result (option refusal * store) :=
  if _is_exempt m r then Ok (None, s)
  else if (path r =s graphql_path m) && post r then
    '(e, s) ← match body r with
              | Some b => check_graphql_limits m r b now s
              | None => Ok (None, s)
              end;
    match e with
    | Some e => Ok (Some e, s)
    | None => Ok (_apply_rate_limits m r now s)
    end
  else Ok (_apply_rate_limits m r now s).

Definition create_default_rate_limit_rules : list RateLimitRule :=
  [{| path_pattern := "/graphql"; rate_limit := {| requests := 60; window := 60 |}; exempt_func := None;
      rule_message := Some "GraphQL rate limit exceeded" |};
   {| path_pattern := "/auth/*"; rate_limit := {| requests := 5; window := 300 |}; exempt_func := None;
      rule_message := Some "Authentication rate limit exceeded" |};
   {| path_pattern := "/api/*"; rate_limit := {| requests := 100; window := 60 |}; exempt_func := None;
      rule_message := Some "API rate limit exceeded" |}].
End middleware.

(** * Laws: Laws of the limits on requests by client

    How many requests pass in any stretch of time as long as a window, when one is refused,
    that Redis counts as memory does when its clients take turns, and that what a client
    writes into a forwarding header does not choose the address it is counted under. *)
Local Open Scope Z_scope.

(** ** Histories of checks *)

(** A check: its key, its limit and its time. *)
Record check := { key_ : string; limit_ : RateLimit; at_ : Z }.

Definition checked (c : check) (s : store) : bool * store := _check_limit (key_ c) (limit_ c) (at_ c) s.

Fixpoint after (h : list check) (s : store) : store :=
  match h with c :: h => after h (checked c s).2 | [] => s end.

(** How many checks of a key at times [inside] let a request pass. *)
Fixpoint passes (k : string) (inside : Z → bool) (h : list check) (s : store) : Z :=
  match h with
  | c :: h =>
      (if (key_ c =s k) && inside (at_ c) && negb (checked c s).1 then 1 else 0) + passes k inside h (checked c s).2
  | [] => 0
  end.

Definition in_order (h : list check) : Prop := StronglySorted Z.le (map at_ h).

Lemma checked_other k c s : key_ c ≠ k → (checked c s).2 !! k = s !! k.
Proof. intros Hk. unfold checked, _check_limit, increment. cbv zeta. destruct (counted _ _ _). cbn [snd]. by rewrite lookup_insert_ne. Qed.

Lemma checked_own c s :
  (checked c s).2 !! key_ c = Some (counted (window (limit_ c)) (at_ c) (s !! key_ c)) ∧
  (checked c s).1 = (requests (limit_ c) <? (counted (window (limit_ c)) (at_ c) (s !! key_ c)).2).
Proof. unfold checked, _check_limit, increment. cbv zeta. destruct (counted _ _ _) as [ts n]. cbn [fst snd]. by rewrite lookup_insert_eq. Qed.

Lemma passes_nonneg k inside h s : 0 ≤ passes k inside h s.
Proof. revert s. induction h as [|c h IH]; intros s; cbn [passes]; [lia|]. specialize (IH (checked c s).2). case_match; lia. Qed.

Lemma passes_outside k inside h s : Forall (λ c, inside (at_ c) = false) h → passes k inside h s = 0.
Proof.
  intros Hh. revert s. induction Hh as [|c h Hc _ IH]; intros s; cbn [passes]; [done|]. by rewrite Hc, andb_false_r, IH.
Qed.

Lemma after_app h h' s : after (h ++ h') s = after h' (after h s).
Proof. revert s. induction h as [|c h IH]; intros s; cbn [after app]; [done|apply IH]. Qed.

Lemma passes_app k inside h h' s : passes k inside (h ++ h') s = passes k inside h s + passes k inside h' (after h s).
Proof. revert s. induction h as [|c h IH]; intros s; cbn [passes app after]; [done|]. rewrite IH. lia. Qed.

Section key.
Context (k : string) (l : RateLimit).
Hypothesis window_positive : 0 < window l.
Hypothesis some_requests : 0 ≤ requests l.

Abbreviation W := (window l * second).

(** The checks of the key have its limit. *)
Definition limited (h : list check) : Prop := Forall (λ c, key_ c = k → limit_ c = l) h.

(** *** In a stretch of time *)
Section stretch.
Context (x : Z).

Definition within (t : Z) : bool := (x <=? t) && (t <? x + W).

Lemma passes_later h s : Forall (λ c, x + W ≤ at_ c) h → passes k within h s = 0.
Proof using Type.
  intros Hh. apply passes_outside. eapply Forall_impl; [exact Hh|]. intros c Hc. unfold within. cbn in Hc.
  apply andb_false_iff. right. by apply Z.ltb_ge.
Qed.

Lemma in_order_from c h t : in_order (c :: h) → t ≤ at_ c → Forall (λ c, t ≤ at_ c) (c :: h).
Proof using Type.
  intros [_ Hh]%StronglySorted_inv Ht. constructor; [done|].
  apply (proj1 (List.Forall_map at_ (Z.le (at_ c)) h)) in Hh. eapply Forall_impl; [exact Hh|]. cbn. intros; lia.
Qed.

Lemma in_order_tail c h : in_order (c :: h) → in_order h.
Proof using Type. by intros [? _]%StronglySorted_inv. Qed.

(** One check of the key. *)
Lemma passes_own c h s :
  key_ c = k → limit_ c = l →
  passes k within (c :: h) s
  = (if within (at_ c) && ((counted (window l) (at_ c) (s !! k)).2 <=? requests l) then 1 else 0) + passes k within h (checked c s).2
  ∧ (checked c s).2 !! k = Some (counted (window l) (at_ c) (s !! k)).
Proof using Type.
  intros Hk Hl. destruct (checked_own c s) as [Hs Hr]. rewrite Hk, Hl in *. split; [|done]. cbn [passes].
  rewrite Hr. unfold Str.eqb. rewrite bool_decide_eq_true_2 by done. cbn [andb]. by rewrite Z.ltb_antisym, negb_involutive.
Qed.

(** A window that began in the stretch lasts to its end. *)
Lemma passes_new_window h s ts n :
  s !! k = Some (ts, n) → x ≤ ts → 0 ≤ n → in_order h → limited h → passes k within h s ≤ Z.max 0 (requests l - n).
Proof using window_positive.
  intros Hs Hts Hn Ho Hl. revert s n Hs Hn. induction h as [|c h IH]; intros s n Hs Hn; [cbn; lia|].
  destruct (Z.le_gt_cases (x + W) (at_ c)) as [Hlate|Hin].
  { rewrite passes_later by by apply in_order_from. lia. }
  apply in_order_tail in Ho. apply Forall_cons in Hl as [Hc Hl]. specialize (IH Ho Hl).
  destruct (decide (key_ c = k)) as [Hk|Hk].
  - destruct (passes_own c h s Hk (Hc Hk)) as [-> Hs']. rewrite Hs in *. unfold counted in *. cbn [default from_option id] in *.
    destruct (Z.leb_spec W (at_ c - ts)); [unfold second in *; lia|]. specialize (IH _ _ Hs' ltac:(lia)). cbn [snd].
    destruct (within (at_ c)); cbn [andb]; [|lia]. destruct (Z.leb_spec (n + 1) (requests l)); lia.
  - cbn [passes]. unfold Str.eqb. rewrite bool_decide_eq_false_2 by done. cbn [andb].
    specialize (IH (checked c s).2 n). rewrite checked_other in IH by done. specialize (IH Hs Hn). lia.
Qed.

(** From the beginning of the stretch, what was left of the window and one more. *)
Lemma passes_old_window h s :
  in_order h → limited h → Forall (λ c, x ≤ at_ c) h → (∀ ts n, s !! k = Some (ts, n) → 0 ≤ n) →
  passes k within h s ≤ match s !! k with Some (_, n) => Z.max 0 (requests l - n) | None => 0 end + requests l.
Proof using window_positive some_requests.
  revert s. induction h as [|c h IH]; intros s Ho Hl Hx Hn; [cbn; repeat case_match; lia|].
  destruct (Z.le_gt_cases (x + W) (at_ c)) as [Hlate|Hin].
  { rewrite passes_later by by apply in_order_from. repeat case_match; lia. }
  assert (Ho' := in_order_tail _ _ Ho). apply Forall_cons in Hl as [Hc Hl]. apply Forall_cons in Hx as [Hxc Hx].
  destruct (decide (key_ c = k)) as [Hk|Hk].
  - destruct (passes_own c h s Hk (Hc Hk)) as [-> Hs'].
    assert (∀ n, counted (window l) (at_ c) (s !! k) = (at_ c, n) → n = 1 →
              (if within (at_ c) && (n <=? requests l) then 1 else 0) + passes k within h (checked c s).2 ≤ requests l) as Hnew.
    { intros n E ->. rewrite E in Hs'. pose proof (passes_new_window h _ _ _ Hs' Hxc ltac:(lia) Ho' Hl) as Hp.
      destruct (within (at_ c)); cbn [andb]; [|lia]. destruct (Z.leb_spec 1 (requests l)); lia. }
    destruct (s !! k) as [[ts n]|] eqn:E; unfold counted in *; cbn [default from_option id] in *.
    + destruct (Z.leb_spec W (at_ c - ts)).
      * specialize (Hnew 1 eq_refl eq_refl). cbn [snd]. lia.
      * specialize (Hn ts n eq_refl). assert (∀ ts' n', (checked c s).2 !! k = Some (ts', n') → 0 ≤ n') as Hn' by (rewrite Hs'; intros ?? [= <- <-]; lia).
        specialize (IH (checked c s).2 Ho' Hl Hx Hn'). rewrite Hs' in IH. cbn [snd].
        destruct (within (at_ c)); cbn [andb]; [|lia]. destruct (Z.leb_spec (n + 1) (requests l)); lia.
    + change (0 + 1) with 1 in *. destruct (Z.leb_spec W (at_ c - at_ c)); specialize (Hnew 1 eq_refl eq_refl); cbn [snd]; lia.
  - cbn [passes]. unfold Str.eqb. rewrite bool_decide_eq_false_2 by done. cbn [andb].
    specialize (IH (checked c s).2 Ho' Hl Hx). rewrite checked_other in IH by done. specialize (IH Hn). lia.
Qed.

Lemma counted_nonneg c s :
  (key_ c = k → limit_ c = l) → (∀ ts n, s !! k = Some (ts, n) → 0 ≤ n) → ∀ ts n, (checked c s).2 !! k = Some (ts, n) → 0 ≤ n.
Proof using Type.
  intros Hc Hn ts n. destruct (decide (key_ c = k)) as [Hk|Hk]; [|rewrite checked_other by done; apply Hn].
  destruct (checked_own c s) as [Hs _]. rewrite Hk in Hs. rewrite Hs. unfold counted. intros [= E].
  destruct (s !! k) as [[ts' n']|] eqn:Es; cbn in E; case_match; simplify_eq; try lia. specialize (Hn _ _ eq_refl). lia.
Qed.

Lemma passes_stretch h s :
  in_order h → limited h → (∀ ts n, s !! k = Some (ts, n) → 0 ≤ n) → passes k within h s ≤ 2 * requests l.
Proof using window_positive some_requests.
  revert s. induction h as [|c h IH]; intros s Ho Hl Hn; [cbn; lia|].
  destruct (Z.le_gt_cases x (at_ c)) as [Hin|Hbefore].
  - etrans; [apply passes_old_window; [done|done|by apply in_order_from|done]|].
    destruct (s !! k) as [[ts n]|] eqn:E; [specialize (Hn _ _ eq_refl)|]; lia.
  - apply Forall_cons in Hl as [Hc Hl]. cbn [passes].
    assert (within (at_ c) = false) as -> by (unfold within; apply andb_false_iff; left; by apply Z.leb_gt).
    rewrite andb_false_r. cbn [andb]. rewrite Z.add_0_l. apply IH; [by eapply in_order_tail|done|by apply counted_nonneg].
Qed.
End stretch.

(** *** When a request is refused *)

Lemma none_since t h s : Forall (λ d, key_ d = k → at_ d < t) h → passes k (λ u, t <=? u) h s = 0.
Proof using Type.
  intros Hh. revert s. induction Hh as [|d h Hd _ IH]; intros s; [done|]. cbn [passes]. rewrite IH.
  destruct (key_ d =s k) eqn:Ed; [|done]. apply bool_decide_eq_true in Ed. specialize (Hd Ed).
  destruct (Z.leb_spec t (at_ d)); [lia|done].
Qed.

(** The state of the window after a history: it began at one of the checks of the key, none
    of which came when it was over, and what passed since then is what was counted, up to
    the limit. *)
Lemma window_counts h :
  in_order h → limited h →
  match after h ∅ !! k with
  | Some (ts, n) =>
      1 ≤ n ∧ Forall (λ c, key_ c = k → at_ c - ts < W) h ∧ Exists (λ c, at_ c = ts) h ∧
      passes k (λ t, ts <=? t) h ∅ = Z.min n (requests l)
  | None => Forall (λ c, key_ c ≠ k) h
  end.
Proof using window_positive some_requests.
  induction h as [|c h IH] using rev_ind; intros Ho Hl; [by cbn; rewrite lookup_empty|].
  unfold in_order in Ho. rewrite map_app in Ho. apply StronglySorted_app in Ho as (Hle & Ho & _).
  apply Forall_app in Hl as [Hl [Hc _]%Forall_cons]. specialize (IH Ho Hl).
  assert (Forall (λ d, at_ d ≤ at_ c) h) as Hbefore.
  { apply Forall_forall. intros d Hd. apply Hle; [by apply list_elem_of_In, in_map, list_elem_of_In|left]. }
  rewrite after_app. cbn [after]. set (s := after h ∅) in *.
  destruct (decide (key_ c = k)) as [Hk|Hk].
  2: { rewrite checked_other by done. destruct (s !! k) as [[ts n]|].
       - destruct IH as (Hn & Hw & Hts & Hp). split_and!; [done|..].
         + apply Forall_app_2; [done|]. by apply Forall_singleton.
         + apply Exists_app. by left.
         + rewrite passes_app, Hp. cbn [passes]. unfold Str.eqb. rewrite bool_decide_eq_false_2 by done. cbn [andb]. lia.
       - apply Forall_app_2; [done|]. by apply Forall_singleton. }
  destruct (checked_own c s) as [Hs Hr]. rewrite Hk, (Hc Hk) in Hs, Hr. rewrite Hs.
  assert (∀ ts, passes k (λ t, ts <=? t) (h ++ [c]) ∅ = passes k (λ t, ts <=? t) h ∅
                + if (ts <=? at_ c) && ((counted (window l) (at_ c) (s !! k)).2 <=? requests l) then 1 else 0) as Happ.
  { intros ts. rewrite passes_app. cbn [passes]. fold s. rewrite Hr. unfold Str.eqb. rewrite bool_decide_eq_true_2 by done.
    cbn [andb]. rewrite Z.ltb_antisym, negb_involutive. lia. }
  destruct (counted (window l) (at_ c) (s !! k)) as [ts' n'] eqn:E. cbn [snd] in Happ.
  assert (∀ n, (ts', n') = (at_ c, n) → n = 1 → Forall (λ d, key_ d = k → at_ d < at_ c) h →
            1 ≤ n' ∧ Forall (λ c, key_ c = k → at_ c - ts' < W) (h ++ [c]) ∧ Exists (λ c, at_ c = ts') (h ++ [c]) ∧
            passes k (λ t, ts' <=? t) (h ++ [c]) ∅ = Z.min n' (requests l)) as Hnew.
  { intros n [= -> ->] -> Hlt. split_and!; [lia|..].
    - apply Forall_app_2; [|apply Forall_singleton; intros; unfold second; lia].
      eapply Forall_impl; [exact Hlt|]. cbn. intros d Hd Hkd. specialize (Hd Hkd). unfold second. lia.
    - apply Exists_app. right. by left.
    - rewrite Happ, Z.leb_refl. cbn [andb]. rewrite none_since by done. destruct (Z.leb_spec 1 (requests l)); lia. }
  unfold counted in E. destruct (s !! k) as [[ts n]|]; cbn [default from_option id] in E.
  - destruct IH as (Hn & Hw & Hts & Hp). destruct (Z.leb_spec W (at_ c - ts)) as [Hover|Hin].
    + apply (Hnew 1); [congruence|done|]. eapply Forall_impl; [exact Hw|]. cbn. intros d Hd Hkd. specialize (Hd Hkd). lia.
    + injection E as <- <-. split_and!; [lia|..].
      * apply Forall_app_2; [done|]. by apply Forall_singleton.
      * apply Exists_app. by left.
      * rewrite Happ, Hp. assert (ts <= at_ c) as Hle'.
        { apply Exists_exists in Hts as (d & Hd & <-). rewrite Forall_forall in Hbefore. by apply Hbefore. }
        rewrite (proj2 (Z.leb_le _ _) Hle'). cbn [andb]. destruct (Z.leb_spec (n + 1) (requests l)); lia.
  - apply (Hnew 1); [revert E; destruct (Z.leb_spec W (at_ c - at_ c)); by intros [= <- <-]|done|].
    eapply Forall_impl; [exact IH|]. cbn. intros d Hd ?. done.
Qed.
End key.

(** C29. Whatever else is counted in the store: in any stretch of time as long as the window
    of a key, at most twice its requests pass, however they are spread over the ends of two
    windows; and a request is refused only when as many as its limit have passed in the
    window it is in, which began less than a window before it. *)
Theorem windows_bound_a_client k l h c h' x :
  0 < window l → 0 < requests l → in_order (h ++ c :: h') → limited k l (h ++ c :: h') → key_ c = k →
  passes k (λ t, (x <=? t) && (t <? x + window l * second)) (h ++ c :: h') ∅ ≤ 2 * requests l ∧
  ((checked c (after h ∅)).1 = true →
   ∃ ts, at_ c - window l * second < ts ∧ passes k (λ t, ts <=? t) h ∅ = requests l).
Proof.
  intros Hw Hn Ho Hl Hk. split.
  { apply (passes_stretch k l Hw ltac:(lia) x); [done|done|]. intros ts n. by rewrite lookup_empty. }
  assert (in_order h ∧ limited k l h ∧ limit_ c = l) as (Hoh & Hlh & Hlc).
  { unfold in_order in Ho. rewrite map_app in Ho. apply StronglySorted_app in Ho as (_ & Ho & _).
    apply Forall_app in Hl as [Hl [Hc _]%Forall_cons]. auto. }
  pose proof (window_counts k l Hw ltac:(lia) h Hoh Hlh) as Hwin. destruct (checked_own c (after h ∅)) as [_ ->].
  rewrite Hk, Hlc. unfold counted. destruct (after h ∅ !! k) as [[ts n]|]; cbn [default from_option id].
  - destruct Hwin as (_ & _ & _ & Hp). destruct (Z.leb_spec (window l * second) (at_ c - ts)); cbn [snd]; intros Href%Z.ltb_lt; [lia|].
    exists ts. split; [lia|]. rewrite Hp. lia.
  - destruct (Z.leb_spec (window l * second) (at_ c - at_ c)); cbn [snd]; intros Href%Z.ltb_lt; lia.
Qed.

(** ** Redis and memory *)

(** Counts one after the other, of keys each of which has one window. *)
Record count := { counted_key : string; counted_window : Z; counted_at : Z }.

Fixpoint in_memory (h : list count) (s : store) : list (Z * Z) :=
  match h with
  | c :: h => let '(e, s) := increment (counted_key c) (counted_window c) (counted_at c) s in e :: in_memory h s
  | [] => []
  end.

Fixpoint in_redis (h : list count) (r : redis) : list (Z * Z) :=
  match h with
  | c :: h => let '(e, r) := redis_increment (counted_key c) (counted_window c) (counted_at c) r in e :: in_redis h r
  | [] => []
  end.

(** What is in Redis is what is in memory, until it expires; and it expires no sooner than
    its window is over. *)
Definition agrees (width : string → Z) (r : redis) (s : store) : Prop :=
  ∀ k, match r !! k with
       | Some (e, expires) => s !! k = Some e ∧ e.1 + width k * second <= expires
       | None => s !! k = None
       end.

(** A client that counts through Redis while nobody comes between gets the numbers it
    would get from memory, in every history: entries that expire were those whose window is
    over. *)
Theorem redis_counts_as_memory width h r s :
  StronglySorted Z.le (map counted_at h) → Forall (λ c, counted_window c = width (counted_key c)) h → (∀ k, 0 <= width k) →
  Forall (λ c, ∀ e, s !! counted_key c = Some e → e.1 <= counted_at c) h →
  agrees width r s → in_redis h r = in_memory h s.
Proof.
  intros Ho Hw Hpos. revert r s. induction h as [|c h IH]; intros r s Hpast Ha; [done|].
  apply Forall_cons in Hw as [Hc Hw]. apply Forall_cons in Hpast as [Hnow Hpast]. cbn [map] in Ho. apply StronglySorted_inv in Ho as [Ho Hlater].
  apply (proj1 (List.Forall_map counted_at (Z.le (counted_at c)) h)) in Hlater.
  cbn [in_redis in_memory]. unfold redis_increment, increment. cbv zeta.
  assert (redis_counted (counted_window c) (counted_at c) (redis_get (counted_key c) (counted_at c) r)
          = counted (counted_window c) (counted_at c) (s !! counted_key c)) as E.
  { specialize (Ha (counted_key c)). unfold redis_get. destruct (r !! counted_key c) as [[[ts n] expires]|].
    - destruct Ha as [-> Hexp]. unfold counted. cbn [default from_option id redis_counted fst] in *.
      destruct (Z.ltb_spec (counted_at c) expires); [done|]. cbn [redis_counted].
      destruct (Z.leb_spec (counted_window c * second) (counted_at c - ts)); [done|]. rewrite Hc in *. lia.
    - rewrite Ha. unfold counted. cbn. by case_match. }
  rewrite E. set (e := counted _ _ _). f_equal.
  assert (e.1 <= counted_at c) as He.
  { unfold e, counted. destruct (s !! counted_key c) as [[ts n]|] eqn:Es; cbn [default from_option id];
      case_match; cbn [fst]; try lia. by specialize (Hnow _ eq_refl). }
  apply IH; [done|done| |].
  - rewrite Forall_forall in *. intros d Hd e'. destruct (decide (counted_key d = counted_key c)) as [->|Hn].
    + rewrite lookup_insert_eq. intros [= <-]. etrans; [exact He|]. by apply Hlater.
    + rewrite lookup_insert_ne by done. by apply Hpast.
  - intros k. unfold setex. destruct (decide (counted_key c = k)) as [<-|Hn].
    + rewrite !lookup_insert_eq. split; [done|]. rewrite <- Hc. lia.
    + rewrite !lookup_insert_ne by done. apply Ha.
Qed.

(** ** The client's address *)

Section client.
Context {network address : Type} (ip_network : string → option network) (ip_address : string → option address)
  (in_network : address → network → bool).
Abbreviation trusts := (trusts ip_address in_network).

(** Nobody chooses the address he is counted under: without a trusted proxy before the
    application the headers are not read, and behind trusted proxies it is the address that
    the first of them saw, whatever a client has written into the header before it. *)
Theorem forged_hops_do_not_count networks c p :
  peer c = Some p → p ≠ EmptyString →
  (trusts networks p = false → get_client_ip ip_address in_network networks c = p) ∧
  (∀ forged client proxies,
     trusts networks p = true → hops (forwarded_for c) = forged ++ client :: proxies →
     trusts networks client = false → Forall (λ hop, trusts networks hop = true) proxies →
     get_client_ip ip_address in_network networks c = client).
Proof using Type.
  intros Hp Hne. unfold get_client_ip. rewrite Hp. split; [intros ->; by destruct p|].
  intros forged client proxies -> Hh Hc Hps. rewrite Hh.
  assert (List.filter (λ hop, negb (trusts networks hop)) (rev (forged ++ client :: proxies))
          = client :: List.filter (λ hop, negb (trusts networks hop)) (rev forged)) as E.
  { rewrite rev_app_distr. cbn [rev]. rewrite <- app_assoc, List.filter_app.
    assert (List.filter (λ hop, negb (trusts networks hop)) (rev proxies) = []) as ->.
    { destruct (List.filter _ (rev proxies)) as [|hop l] eqn:El; [done|].
      assert (In hop (List.filter (λ hop, negb (trusts networks hop)) (rev proxies))) as [Hin Hn]%filter_In by (rewrite El; by left).
      apply in_rev, list_elem_of_In in Hin. rewrite Forall_forall in Hps. by rewrite (Hps _ Hin) in Hn. }
    cbn [app List.filter]. by rewrite Hc. }
  destruct forged as [|f forged]; cbn [app] in E |- *; by rewrite E.
Qed.
End client.

(** ** Some requests *)

Definition auth_limit : RateLimit := {| requests := 2; window := 300 |}.
Definition auth_check (t : Z) : check := {| key_ := "/auth/*:ip:10.0.0.7"; limit_ := auth_limit; at_ := t * second |}.

(** Two at the end of a window and two at the beginning of the next pass within a second. *)
Definition at_the_edge : list check := [auth_check 0; auth_check 299; auth_check 300; auth_check 300].

Lemma windows_bound_a_client_witness :
  passes "/auth/*:ip:10.0.0.7" (λ t, (299 * second <=? t) && (t <? 299 * second + 300 * second)) (at_the_edge ++ [auth_check 301]) ∅ <= 4 ∧
  ((checked (auth_check 301) (after at_the_edge ∅)).1 = true →
   ∃ ts, 301 * second - 300 * second < ts ∧ passes "/auth/*:ip:10.0.0.7" (λ t, ts <=? t) at_the_edge ∅ = 2).
Proof.
  apply (windows_bound_a_client "/auth/*:ip:10.0.0.7" auth_limit at_the_edge (auth_check 301) [] (299 * second)).
  - reflexivity.
  - reflexivity.
  - unfold in_order, at_the_edge, auth_check, second. cbn. repeat constructor; lia.
  - repeat constructor.
  - reflexivity.
Defined.

Example twice_the_limit_at_an_edge :
  passes "/auth/*:ip:10.0.0.7" (λ t, (299 * second <=? t) && (t <? 301 * second)) at_the_edge ∅ = 3 ∧
  (checked (auth_check 301) (after at_the_edge ∅)).1 = true.
Proof. by vm_compute. Qed.

Lemma redis_counts_as_memory_witness :
  let c t := {| counted_key := "k"; counted_window := 60; counted_at := t * second |} in
  in_redis [c 0; c 59; c 61; c 200] ∅ = in_memory [c 0; c 59; c 61; c 200] ∅.
Proof.
  apply (redis_counts_as_memory (λ _, 60)).
  - unfold second. cbn. repeat constructor; lia.
  - repeat constructor.
  - lia.
  - repeat constructor; cbn; intros e; by rewrite lookup_empty.
  - intros k. by rewrite !lookup_empty.
Defined.

(** Two clients of Redis that read before either writes: both are told that they are the
    first, and one of them is all that is counted. *)
Example redis_loses_a_count :
  let w0 := {| shared := ∅; read_by := ∅; returned := [] |} in
  match foldl (λ w e, w ≫= λ w, redis_step "k" 60 0 w e) (Some w0) [Reads 1; Reads 2; Writes 1; Writes 2] with
  | Some w => returned w = [(0, 1); (0, 1)] ∧ redis_get "k" 0 (shared w) = Some (0, 1)
  | None => False
  end.
Proof. by vm_compute. Qed.

(** Three hosts, of which the second is a proxy. *)
Lemma forged_hops_do_not_count_witness :
  get_client_ip (λ s, if s in_ ["10.0.0.1"; "6.6.6.6"; "203.0.113.9"] then Some s else None) Str.eqb ["10.0.0.1"]
    {| peer := Some "10.0.0.1"; forwarded_for := ["6.6.6.6, 10.0.0.1"; "203.0.113.9:4711"; "10.0.0.1"]; real_ip := "6.6.6.6" |}
  = "203.0.113.9".
Proof.
  refine (proj2 (forged_hops_do_not_count (λ s, if s in_ ["10.0.0.1"; "6.6.6.6"; "203.0.113.9"] then Some s else None) Str.eqb ["10.0.0.1"]
            {| peer := Some "10.0.0.1"; forwarded_for := ["6.6.6.6, 10.0.0.1"; "203.0.113.9:4711"; "10.0.0.1"]; real_ip := "6.6.6.6" |}
            "10.0.0.1" eq_refl _) ["6.6.6.6"; "10.0.0.1"] "203.0.113.9" ["10.0.0.1"] eq_refl eq_refl eq_refl _).
  - discriminate.
  - repeat constructor.
Defined.

Definition limits : limiter :=
  {| operation_limits := default_graphql_operation_limits; complexity_limits := default_graphql_complexity_limits;
     rules := []; default_limit := {| requests := 1000; window := 60 |}; graphql_path := "/graphql" |}.

Definition graphql (b : pyval) : request :=
  {| path := "/graphql"; post := true; user_id := None; client_ip := "203.0.113.9"; body := Some b |}.

Definition document (q : string) : pyval := PDict [("query", PStr q)].

(** The operation is read off the beginning of the text: a mutation behind a comment or a
    fragment, or that is only named by its hash, is counted as a query; a batch, or a query
    that is null, raises. *)
Example what_is_counted_as_a_mutation :
  _extract_operation_info (document " Mutation { pay }") = Ok ("mutation", 10) ∧
  _extract_operation_info (document (String "#" (String "010" "mutation { pay }"))) = Ok ("query", 11) ∧
  _extract_operation_info (document "fragment F on T { a } mutation { pay { ...F } }") = Ok ("query", 20) ∧
  _extract_operation_info (PDict [("extensions", PDict [("persistedQuery", PDict [("sha256Hash", PStr "abc")])])]) = Ok ("query", 0) ∧
  dispatch (λ _ _, false) limits (graphql (PList [document "mutation { pay }"])) 0 ∅ = raise AttributeError ∧
  dispatch (λ _ _, false) limits (graphql (PDict [("query", PNone)])) 0 ∅ = raise AttributeError.
Proof. by vm_compute. Qed.

(** Twenty mutations pass in a minute, and the next is refused; behind a comment it is not. *)
Example the_twenty_first_mutation :
  let send b s := match dispatch (λ _ _, false) limits (graphql b) 0 s with Ok (_, s) => s | Err _ => s end in
  let answer b s := match dispatch (λ _ _, false) limits (graphql b) 0 s with Ok (r, _) => message <$> r | Err _ => Some "" end in
  let s := Nat.iter 20 (send (document "mutation { pay }")) ∅ in
  answer (document "mutation { pay }") s = Some "Rate limit exceeded for mutation operations" ∧
  answer (document (String "#" (String "010" "mutation { pay }"))) s = None.
Proof. by vm_compute. Qed.
