(* ===== verification/BodyLimits.v ===== *)
(** * Limits on the bodies of requests ([middleware/body_size_limiter.py])

    An ASGI middleware that reads a body, counting, before the application sees any of it.
    What the server sends is a list of messages; its end stands for a client that sends
    nothing more but stays. *)
From stdpp Require Import base decidable strings list.
From Stdlib Require Import ZArith Lia Ascii.
From S2P Require Import Prelude PyVal.

Local Open Scope py_scope.

(** Bytes are characters. *)
Inductive message := HttpRequest (body : string) (more_body : bool) | Disconnect.

Record BodySizeConfig := { max_body_size : Z; exempt_paths : list string; exempt_methods : list string }.

Definition default_config : BodySizeConfig :=
  {| max_body_size := 1048576; exempt_paths := []; exempt_methods := ["GET"; "HEAD"; "OPTIONS"] |}.

(** [f"{size / unit:.1f}"] for a power of two: the quotient is exact, and rounded to the even
    tenth from half way. *)
Definition tenths (size unit : Z) : Z :=
  let q := (size * 10 / unit)%Z in
  let r := (size * 10 mod unit)%Z in
  if (2 * r <? unit)%Z then q
  else if (unit <? 2 * r)%Z then (q + 1)%Z
  else if Z.even q then q else (q + 1)%Z.

Definition one_decimal (t : Z) : string := (Num.string_of_Z (t / 10) +:+ "." +:+ Num.string_of_Z (t mod 10))%stdpp.

Definition _format_bytes (size : Z) : string :=
  if (1048576 <=? size)%Z then (one_decimal (tenths size 1048576) +:+ " MB")%stdpp
  else if (1024 <=? size)%Z then (one_decimal (tenths size 1024) +:+ " KB")%stdpp
  else (Num.string_of_Z size +:+ " bytes")%stdpp.

(** [RequestTooLargeError]: its message. *)
Definition _format_message (max_size : Z) (actual_size : option Z) : string :=
  match actual_size with
  | Some actual =>
      if (actual =? 0)%Z then ("Request body too large: exceeds limit of " +:+ _format_bytes max_size)%stdpp
      else ("Request body too large: " +:+ _format_bytes actual +:+ " exceeds limit of " +:+ _format_bytes max_size)%stdpp
  | None => ("Request body too large: exceeds limit of " +:+ _format_bytes max_size)%stdpp
  end.

(** The response with status 413. *)
Record error_response := { detail : string; max_size : Z; max_size_human : string }.

Definition _create_error_response (c : BodySizeConfig) (actual_size : Z) : error_response :=
  {| detail := _format_message (max_body_size c) (Some actual_size); max_size := max_body_size c;
     max_size_human := _format_bytes (max_body_size c) |}.

(** ** A body that is read in pieces

    [SizeLimitedBody]: what it yields, and the size at which it raises. *)
Fixpoint limited (max bytes_read : Z) (body : list string) : list string * option Z :=
  match body with
  | [] => ([], None)
  | chunk :: body =>
      let bytes_read := (bytes_read + Z.of_nat (String.length chunk))%Z in
      if (max <? bytes_read)%Z then ([], Some bytes_read)
      else let '(l, e) := limited max bytes_read body in (chunk :: l, e)
  end.

(** ** The middleware *)

Record scope := { type : string; method : string; path : string; content_length : option string }.

(** What becomes of a request: the application is called with the messages as they come, or
    with a body and what is left of them; it is refused; the client has gone; or it is still
    being read. *)
Inductive outcome :=
| Untouched (messages : list message)
| Called (body : string) (messages : list message)
| Refused (r : error_response)
| Gone
| Reading.

Fixpoint read_body (c : BodySizeConfig) (chunks : list string) (total_size : Z) (messages : list message) : outcome :=
  match messages with
  | [] => Reading
  | Disconnect :: _ => Gone
  | HttpRequest chunk more_body :: messages =>
      let total_size := (total_size + Z.of_nat (String.length chunk))%Z in
      if (max_body_size c <? total_size)%Z then Refused (_create_error_response c total_size)
      else if more_body then read_body c (chunks ++ [chunk]) total_size messages
      else Called (String.concat EmptyString (chunks ++ [chunk])) messages
  end.

(** A length that is announced and is over the limit; one that is not a number is passed
    over. *)
Definition announced (c : BodySizeConfig) (s : scope) : option Z :=
  match content_length s with
  | None | Some EmptyString => None
  | Some n => match Num.int_of_string n with Ok size => if (max_body_size c <? size)%Z then Some size else None | Err _ => None end
  end.

Definition exempt (c : BodySizeConfig) (s : scope) : bool :=
  negb (type s =s "http") || (method s in_ exempt_methods c) || (path s in_ exempt_paths c).

Definition call (c : BodySizeConfig) (s : scope) (messages : list message) : outcome :=
  if exempt c s then Untouched messages
  else match announced c s with
       | Some size => Refused (_create_error_response c size)
       | None => read_body c [] 0 messages
       end.

(** [_replay_body]: what the application receives, call after call. *)
Definition replay (body : string) (body_sent : bool) (messages : list message) : option message * bool * list message :=
  if body_sent then match messages with m :: messages => (Some m, true, messages) | [] => (None, true, []) end
  else (Some (HttpRequest body false), true, messages).

Fixpoint received (n : nat) (body : string) (body_sent : bool) (messages : list message) : list message :=
  match n with
  | O => []
  | S n => match replay body body_sent messages with
           | (Some m, sent, messages) => m :: received n body sent messages
           | (None, _, _) => []
           end
  end.

(** ** What is let through *)

(** The bytes of a body in order, and how many they are. *)
Definition joined (chunks : list string) : string := String.concat EmptyString chunks.

Fixpoint size (chunks : list string) : Z :=
  match chunks with [] => 0 | c :: l => Z.of_nat (String.length c) + size l end.

(** The messages of one body: the last one is marked. *)
Fixpoint body_messages (chunks : list string) : list message :=
  match chunks with
  | [] => []
  | [c] => [HttpRequest c false]
  | c :: l => HttpRequest c true :: body_messages l
  end.

Lemma joined_cons (c : string) l : String.concat EmptyString (c :: l) = (c +:+ String.concat EmptyString l)%stdpp.
Proof. destruct l; cbn; [by rewrite app_nil_r_str|done]. Qed.

Lemma length_joined l : Z.of_nat (String.length (joined l)) = size l.
Proof. unfold joined. induction l as [|c l IH]; [done|]. rewrite joined_cons, length_app_str. cbn [size]. lia. Qed.

Lemma size_app l l' : size (l ++ l') = (size l + size l')%Z.
Proof. induction l as [|c l IH]; [done|]. cbn. rewrite IH. lia. Qed.

Lemma size_not_negative l : (0 <= size l)%Z.
Proof. induction l; cbn; lia. Qed.

(** Reading goes on with what was read. *)
Lemma read_body_app c chunks l rest :
  l ≠ [] →
  read_body c chunks (size chunks) (body_messages l ++ rest)
  = if (size (chunks ++ l) <=? max_body_size c)%Z then Called (joined (chunks ++ l)) rest
    else Refused (_create_error_response c
           (size chunks + size (take (S (length (limited (max_body_size c) (size chunks) l).1)) l)))%Z.
Proof.
  revert chunks. induction l as [|x l IH]; [done|]. intros chunks _. rewrite size_app. destruct l as [|y l].
  - cbn [body_messages app read_body limited size]. rewrite Z.add_0_r.
    destruct (max_body_size c <? size chunks + Z.of_nat (String.length x))%Z eqn:E.
    + rewrite (proj2 (Z.leb_gt _ _)) by (by apply Z.ltb_lt in E). cbn. by rewrite Z.add_0_r.
    + by rewrite (proj2 (Z.leb_le _ _)) by (by apply Z.ltb_ge in E).
  - change (body_messages (x :: y :: l)) with (HttpRequest x true :: body_messages (y :: l)). cbn [app read_body].
    replace (size chunks + Z.of_nat (String.length x))%Z with (size (chunks ++ [x])) by (rewrite size_app; cbn; lia).
    change (limited (max_body_size c) (size chunks) (x :: y :: l)) with
      (let n := (size chunks + Z.of_nat (String.length x))%Z in
       if (max_body_size c <? n)%Z then ([], Some n) else let '(l, e) := limited (max_body_size c) n (y :: l) in (x :: l, e)).
    cbv zeta. replace (size chunks + Z.of_nat (String.length x))%Z with (size (chunks ++ [x])) by (rewrite size_app; cbn; lia).
    destruct (max_body_size c <? size (chunks ++ [x]))%Z eqn:E.
    + apply Z.ltb_lt in E. rewrite size_app in E. cbn [size] in E. pose proof (size_not_negative (y :: l)).
      rewrite (proj2 (Z.leb_gt _ _)) by (change (size (x :: y :: l)) with (Z.of_nat (String.length x) + size (y :: l))%Z; lia).
      cbn [fst length take size]. by rewrite size_app.
    + rewrite IH by done. rewrite <- app_assoc, size_app. cbn [app].
      destruct (_ <=? _)%Z; [done|]. destruct (limited _ _ (y :: l)) as [l' e]. cbn [fst length]. do 2 f_equal.
      rewrite size_app. cbn [take size]. lia.
Qed.

(** Only so much is ever handed over. *)
Lemma called_is_bounded c chunks messages body after :
  read_body c chunks (size chunks) messages = Called body after → (Z.of_nat (String.length body) <= max_body_size c)%Z.
Proof.
  revert chunks. induction messages as [|[x more|] messages IH]; intros chunks; cbn [read_body]; [done| |done].
  replace (size chunks + Z.of_nat (String.length x))%Z with (size (chunks ++ [x])) by (rewrite size_app; cbn; lia).
  destruct (max_body_size c <? size (chunks ++ [x]))%Z eqn:E; [done|]. destruct more; [apply IH|].
  intros [= <- <-]. change (String.concat EmptyString) with joined. rewrite length_joined. by apply Z.ltb_ge in E.
Qed.

Lemma gone_is_gone c chunks l rest body after :
  read_body c chunks (size chunks) (map (λ x, HttpRequest x true) l ++ Disconnect :: rest) ≠ Called body after.
Proof.
  revert chunks. induction l as [|x l IH]; intros chunks; cbn [map app read_body]; [done|].
  replace (size chunks + Z.of_nat (String.length x))%Z with (size (chunks ++ [x])) by (rewrite size_app; cbn; lia).
  destruct (max_body_size c <? size (chunks ++ [x]))%Z; [done|apply IH].
Qed.

Lemma received_after n body messages : received n body true messages = take n messages.
Proof. revert messages. induction n as [|n IH]; intros [|m messages]; cbn; [done|done|done|by rewrite IH]. Qed.

(** The application is given a body of at most the limit, or none at all.  A request
    that is not exempt and whose whole body is sent, in whatever pieces, is refused when a
    length above the limit is announced, and when the pieces add up to more, no more of them
    being read than those that fit and one; otherwise, whatever was announced, the
    application receives the body unchanged, in one message, and then what comes after it.
    It is never called for a client that goes before the end. *)
Theorem bodies_are_bounded c s :
  exempt c s = false →
  (∀ chunks rest, chunks ≠ [] →
     call c s (body_messages chunks ++ rest) =
     match announced c s with
     | Some n => Refused (_create_error_response c n)
     | None =>
         if (size chunks <=? max_body_size c)%Z then Called (joined chunks) rest
         else Refused (_create_error_response c (size (take (S (length (limited (max_body_size c) 0 chunks).1)) chunks)))
     end) ∧
  (∀ messages body after, call c s messages = Called body after →
     (Z.of_nat (String.length body) <= max_body_size c)%Z ∧
     ∀ n, received (S n) body false after = HttpRequest body false :: take n after) ∧
  (∀ chunks rest body after, call c s (map (λ x, HttpRequest x true) chunks ++ Disconnect :: rest) ≠ Called body after).
Proof.
  intros Hex. unfold call. rewrite Hex. destruct (announced c s) as [n|]; [done|]. split_and!.
  - intros chunks rest Hne. pose proof (read_body_app c [] chunks rest Hne) as H. cbn [size app Z.add] in H. exact H.
  - intros messages body after Hc. split; [by apply (called_is_bounded c [] _ _ _ Hc)|]. intros n. cbn. by rewrite received_after.
  - intros chunks rest. apply (gone_is_gone c []).
Qed.

(** What [SizeLimitedBody] yields fits, and it raises when the body does not. *)
Lemma limited_fits max n l :
  (n <= max)%Z →
  (n + size (limited max n l).1 <= max)%Z ∧ (limited max n l).1 `prefix_of` l ∧
  ((limited max n l).2 = None ↔ (n + size l <= max)%Z).
Proof.
  revert n. induction l as [|x l IH]; intros n Hn; cbn [limited].
  - cbn. split_and!; [lia|done|split; [lia|done]].
  - pose proof (size_not_negative l). destruct (max <? n + Z.of_nat (String.length x))%Z eqn:E.
    + apply Z.ltb_lt in E. cbn [fst snd size]. split_and!; [lia|apply prefix_nil|]. split; [done|lia].
    + apply Z.ltb_ge in E. destruct (IH _ E) as (H1 & H2 & H3). destruct (limited _ _ l) as [l' e]. cbn [fst snd size] in *.
      split_and!; [lia|by apply prefix_cons|]. rewrite H3. split; lia.
Qed.

(** ** Some requests *)
Definition small : BodySizeConfig := {| max_body_size := 8; exempt_paths := ["/upload"]; exempt_methods := exempt_methods default_config |}.

Definition post (path : string) (content_length : option string) : scope :=
  {| type := "http"; method := "POST"; path := path; content_length := content_length |}.

(** A length that is too small is not believed, and one that is too large is. *)
Lemma bodies_are_bounded_witness :
  call small (post "/graphql" (Some "3")) [HttpRequest "hello" true; HttpRequest "world" true; HttpRequest "!" false] = Refused (_create_error_response small 10) ∧
  call small (post "/graphql" (Some "3")) [HttpRequest "hel" true; HttpRequest "lo" false; Disconnect] = Called "hello" [Disconnect] ∧
  call small (post "/graphql" (Some "9")) [HttpRequest "hello" false] = Refused (_create_error_response small 9) ∧
  (∀ n, received (S n) "hello" false [Disconnect] = HttpRequest "hello" false :: take n [Disconnect]).
Proof.
  pose proof (proj1 (bodies_are_bounded small (post "/graphql" (Some "3")) eq_refl)) as H.
  pose proof (proj1 (bodies_are_bounded small (post "/graphql" (Some "9")) eq_refl)) as H9.
  split_and!.
  - etrans; [apply (H ["hello"; "world"; "!"] []); done|]. vm_compute. reflexivity.
  - etrans; [apply (H ["hel"; "lo"] [Disconnect]); done|]. vm_compute. reflexivity.
  - etrans; [apply (H9 ["hello"] []); done|]. vm_compute. reflexivity.
  - apply (proj1 (proj2 (bodies_are_bounded small (post "/graphql" (Some "3")) eq_refl)) [HttpRequest "hello" false; Disconnect] "hello").
    vm_compute. reflexivity.
Defined.

Example what_is_read :
  call small (post "/upload" (Some "9")) [HttpRequest "hello, world" false] = Untouched [HttpRequest "hello, world" false] ∧
  call small (post "/" (Some "nine")) [HttpRequest "hello" true; Disconnect] = Gone ∧
  call small (post "/" None) [HttpRequest "hello" true] = Reading ∧
  limited 8 0 ["hello"; "world"; "!"] = (["hello"], Some 10%Z) ∧
  map _format_bytes [1023; 1024; 1075; 1076; 1280; 1048575; 1048576; 1572864]%Z
  = ["1023 bytes"; "1.0 KB"; "1.0 KB"; "1.1 KB"; "1.2 KB"; "1024.0 KB"; "1.0 MB"; "1.5 MB"].
Proof. vm_compute. by split_and!. Qed.
