(* ===== verification/Roles.v ===== *)
(** * Roles and permissions ([enterprise/rbac])

    The roles a role inherits from, the permissions of a user, and their cache of two layers:
    a dictionary in the process, and the table of [ResultCache] with the versions of what an
    entry was computed from.  The tables of the database are lists of rows; the orders that
    PostgreSQL sorts rows in are parameters, as are pydantic's dump and validation of a
    permission.  A clock reading is in microseconds. *)
From stdpp Require Import base decidable strings gmap list.
From Stdlib Require Import ZArith Lia Ascii.
From S2P Require Import Prelude PyVal ResultCache NestedFilters.

Local Open Scope py_scope.

Definition second : Z := 1000000.

(** ** The tables *)

Record Role := {
  role_id : string;
  role_name : string;
  role_description : option string;
  parent_role_id : option string;
  role_tenant_id : option string;
  is_system : bool
}.

Record Permission := {
  permission_id : string;
  resource : string;
  action : string;
  permission_description : option string;
  constraints : option (list (string * pyval))
}.

Record RolePermission := { rp_role_id : string; rp_permission_id : string; granted : bool }.

Record UserRole := { ur_user_id : string; ur_role_id : string; ur_tenant_id : option string; expires_at : option Z }.

Record tables := {
  roles : list Role;
  permissions : list Permission;
  role_permissions : list RolePermission;
  user_roles : list UserRole
}.

(** ** What a role inherits

    The function [get_inherited_roles] of the database: the rows of one step of its
    recursion from those of the step before. *)
Definition parent_rows (t : tables) (working : list (string * nat)) : list (string * nat) :=
  concat (map (λ w : string * nat,
    if (w.2 <? 10)%nat then
      omap (λ r, if role_id r =s w.1 then match parent_role_id r with Some p => Some (p, S w.2) | None => None end else None)
           (roles t)
    else []) working).

(** [WITH RECURSIVE ... UNION ALL]: no row has a depth above 10, so there are eleven steps at
    most. *)
Fixpoint recursive_union (steps : nat) (t : tables) (working : list (string * nat)) : list (string * nat) :=
  match steps, working with
  | S steps, _ :: _ => working ++ recursive_union steps t (parent_rows t working)
  | _, _ => []
  end.

Definition role_hierarchy (t : tables) (id : string) : list (string * nat) :=
  recursive_union 11 t (omap (λ r, if role_id r =s id then Some (id, 0%nat) else None) (roles t)).

(** [MIN(depth)] of the rows of a role. *)
Definition min_depth (id : string) (l : list (string * nat)) : nat :=
  match map snd (filter (λ w : string * nat, w.1 = id) l) with
  | [] => 0
  | d :: ds => foldr Nat.min d ds
  end.

(** The rows of the function, one for each role; their order is not used. *)
Definition inherited_rows (t : tables) (id : string) : list (string * nat) :=
  let l := role_hierarchy t id in map (λ r, (r, min_depth r l)) (remove_dups l.*1).

Section resolver.
Context (by_name : list Role → list Role) (by_action : list Permission → list Permission).

Definition get_inherited_roles (t : tables) (id : string) : result (list Role) :=
  let results := inherited_rows t id in
  if existsb (λ r : string * nat, (10 <=? r.2)%nat) results then raise ValueError
  else Ok (by_name (filter (λ r, role_id r ∈ results.*1) (roles t))).

Definition get_role_ancestors (t : tables) (id : string) : result (list Role) :=
  l ← get_inherited_roles t id; Ok (filter (λ r, role_id r ≠ id) l).

Definition get_role_descendants (t : tables) (id : string) : list Role :=
  by_name (filter (λ r, role_id r ≠ id ∧ id ∈ (inherited_rows t (role_id r)).*1) (roles t)).

Definition validate_hierarchy (t : tables) (id : string) : bool :=
  match get_inherited_roles t id with Err ValueError => false | _ => true end.

Definition get_hierarchy_depth (t : tables) (id : string) : nat := foldr Nat.max 0 (inherited_rows t id).*2.

(** ** What a user may do *)

(** The condition on the tenant: [NULL] is equal to nothing, not to itself either. *)
Definition same_scope (row param : option string) : bool :=
  match row, param with Some a, Some b => a =s b | None, None => true | _, _ => false end.

Definition assigned (now : Z) (user_id : string) (tenant_id : option string) (ur : UserRole) : bool :=
  (ur_user_id ur =s user_id) && same_scope (ur_tenant_id ur) tenant_id
  && match expires_at ur with None => true | Some e => (now <? e)%Z end.

(** A row of the join for each assignment. *)
Definition _get_user_roles (t : tables) (now : Z) (user_id : string) (tenant_id : option string) : list Role :=
  concat (map (λ r, omap (λ ur, if (ur_role_id ur =s role_id r) && assigned now user_id tenant_id ur then Some r else None)
                         (user_roles t)) (roles t)).

(** The rows of [permissions] are distinct. *)
Definition permissions_of (t : tables) (role_ids : list string) : list Permission :=
  by_action (filter (λ p, Exists (λ rp, rp_permission_id rp = permission_id p ∧ rp_role_id rp ∈ role_ids ∧ granted rp = true)
                                 (role_permissions t)) (permissions t)).

Definition _compute_permissions (t : tables) (now : Z) (user_id : string) (tenant_id : option string) : result (list Permission) :=
  inherited ← mapR (λ r, get_inherited_roles t (role_id r)) (_get_user_roles t now user_id tenant_id);
  match remove_dups (map role_id (concat inherited)) with
  | [] => Ok []
  | all_role_ids => Ok (permissions_of t all_role_ids)
  end.

Definition get_role_permissions (t : tables) (id : string) (include_inherited : bool) : result (list Permission) :=
  ids ← (if include_inherited then l ← get_inherited_roles t id; Ok (map role_id l) else Ok [id]);
  Ok (permissions_of t ids).

Definition permitted (resource_ action_ : string) (l : list Permission) : bool :=
  existsb (λ p, (resource p =s resource_) && (action p =s action_)) l.

(** ** The cache *)

(** [p.model_dump(mode="json")] and [Permission.model_validate]. *)
Context (model_dump : Permission → pyval) (model_validate : pyval → result Permission).
(** Whether the extension is installed, and [request_cache_ttl]. *)
Context (has_domain_versioning : bool) (request_cache_ttl : Z).

Definition cache_ttl : Z := 300 * second.

Definition _rbac_domains : list string := ["role"; "permission"; "role_permission"; "user_role"].

(** The keys of a dictionary with the deadlines of its entries. *)
Abbreviation request_cache := (gmap string (Z * list Permission)).

(** [fraiseql_cache.domain_version], by tenant and domain. *)
Abbreviation domain_versions := (gmap (string * string) Z).

Definition scope (tenant_id : option string) : string := match tenant_id with Some (String _ _ as t) => t | _ => "global" end.

Definition _make_key (user_id : string) (tenant_id : option string) : string :=
  ("rbac:permissions:" +:+ user_id +:+ ":" +:+ scope tenant_id)%stdpp.

Definition get_domain_versions (v : domain_versions) (tenant_id : string) (domains : list string) : list (string * pyval) :=
  if has_domain_versioning then
    omap (λ d, match v !! (tenant_id, d) with Some n => Some (d, PInt n) | None => None end) domains
  else [].

Definition _request_cache_get (now : Z) (key : string) (c : request_cache) : option (list Permission) * request_cache :=
  match c !! key with
  | None => (None, c)
  | Some (deadline, ps) => if (deadline <=? now)%Z then (None, base.delete key c) else (Some ps, c)
  end.

Definition _request_cache_put (now : Z) (key : string) (ps : list Permission) (c : request_cache) : request_cache :=
  if (request_cache_ttl <=? 0)%Z then c
  else <[key := (now + request_cache_ttl, ps)%Z]> (filter (λ e, (now < e.2.1)%Z) c).

(** Whether a version has changed since an entry was written. *)
Definition stale (v : domain_versions) (tenant_id : option string) (cached_versions : pyval) : result bool :=
  if has_domain_versioning && Py.truthy cached_versions then
    match cached_versions with
    | PDict d =>
        let current := get_domain_versions v (scope tenant_id) _rbac_domains in
        Ok (existsb (λ domain, negb (py_eq (default (PInt 0) (dict_get domain current)) (default (PInt 0) (dict_get domain d))))
                    _rbac_domains)
    | _ => raise AttributeError
    end
  else Ok false.

(** What an entry of the table holds, if it is one that validates. *)
Definition validated (v : pyval) : option (list Permission) :=
  match (l ← py_items v; mapR model_validate l) with Ok ps => Some ps | Err _ => None end.

Definition get (now : Z) (v : domain_versions) (user_id : string) (tenant_id : option string) (s : table) (c : request_cache) :
  result (option (list Permission)) * request_cache :=
  let key := _make_key user_id tenant_id in
  match _request_cache_get now key c with
  | (Some ps, c) => (Ok (Some ps), c)
  | (None, c) =>
      match get_with_metadata now key s with
      | Err e => (Err e, c)
      | Ok (found, cached_versions) =>
          if Py.is_none found then (Ok None, c)
          else match stale v tenant_id cached_versions with
               | Err e => (Err e, c)
               | Ok true => (Ok None, c)
               | Ok false =>
                   match validated found with
                   | None => (Ok None, c)
                   | Some ps => (Ok (Some ps), _request_cache_put now key ps c)
                   end
               end
      end
  end.

(** The value of an entry with the versions read now. *)
Definition entry_value (v : domain_versions) (tenant_id : option string) (cached_at : string) (ps : list Permission) : pyval :=
  with_metadata has_domain_versioning (PList (map model_dump ps))
    (get_domain_versions v (scope tenant_id) _rbac_domains) cached_at.

Definition set (now : Z) (v : domain_versions) (user_id : string) (tenant_id : option string) (cached_at : string)
    (ps : list Permission) (s : table) (c : request_cache) : result unit * table * request_cache :=
  let key := _make_key user_id tenant_id in
  match write now key (entry_value v tenant_id cached_at ps) cache_ttl s with
  | (Ok _, s) => (Ok (), s, _request_cache_put now key ps c)
  | (Err e, s) => (Err e, s, c)
  end.

Definition clear_request_cache (c : request_cache) : request_cache := ∅.

Definition invalidate_user (user_id : string) (tenant_id : option string) (s : table) (c : request_cache) :
  result unit * table * request_cache :=
  let key := _make_key user_id tenant_id in
  match table_delete key s with
  | (Ok _, s) => (Ok (), s, base.delete key c)
  | (Err e, s) => (Err e, s, base.delete key c)
  end.

Definition invalidate_all (s : table) (c : request_cache) : result unit * table * request_cache :=
  match table_delete_pattern "rbac:permissions:*" s with
  | (Ok _, s) => (Ok (), s, ∅)
  | (Err e, s) => (Err e, s, ∅)
  end.

(** ** Many requests

    [get_user_permissions] awaits the database after the cache has missed, and again before
    it writes what it computed: in between other requests have their turn, and the tables and
    their versions change.  The statements of one computation are taken to see the same
    tables. *)
Inductive stage := Missed | Computed (ps : list Permission).

Record request := { user : string; tenant : option string; at_stage : stage }.

Record world := {
  database : tables;
  versions : domain_versions;
  stored : table;
  in_memory : request_cache;
  running : gmap nat request
}.

Inductive event :=
| Changes (t : tables) (v : domain_versions)
| Asks (c : nat) (user : string) (tenant : option string) (now : Z)
| Computes (c : nat) (now : Z)
| Stores (c : nat) (now : Z) (cached_at : string)
| Invalidates (user : string) (tenant : option string)
| InvalidatesAll
| Clears.

(** What an event lets its request answer: permissions, or an exception. *)
Definition answer : Type := option (result (list Permission)).

Definition with_database (t : tables) (v : domain_versions) (w : world) : world :=
  {| database := t; versions := v; stored := stored w; in_memory := in_memory w; running := running w |}.

Definition with_caches (s : table) (c : request_cache) (w : world) : world :=
  {| database := database w; versions := versions w; stored := s; in_memory := c; running := running w |}.

Definition with_running (r : gmap nat request) (w : world) : world :=
  {| database := database w; versions := versions w; stored := stored w; in_memory := in_memory w; running := r |}.

(** The event, if it can happen. *)
Definition step (w : world) (e : event) : option (world * answer) :=
  match e with
  | Changes t v => Some (with_database t v w, None)
  | Asks i u tn now =>
      match running w !! i with
      | Some _ => None
      | None =>
          let '(r, c) := get now (versions w) u tn (stored w) (in_memory w) in
          let w := with_caches (stored w) c w in
          match r with
          | Ok (Some ps) => Some (w, Some (Ok ps))
          | Ok None => Some (with_running (<[i := {| user := u; tenant := tn; at_stage := Missed |}]> (running w)) w, None)
          | Err e => Some (w, Some (Err e))
          end
      end
  | Computes i now =>
      match running w !! i with
      | Some {| user := u; tenant := tn; at_stage := Missed |} =>
          match _compute_permissions (database w) now u tn with
          | Ok ps => Some (with_running (<[i := {| user := u; tenant := tn; at_stage := Computed ps |}]> (running w)) w, None)
          | Err e => Some (with_running (base.delete i (running w)) w, Some (Err e))
          end
      | _ => None
      end
  | Stores i now cached_at =>
      match running w !! i with
      | Some {| user := u; tenant := tn; at_stage := Computed ps |} =>
          let '(r, s, c) := set now (versions w) u tn cached_at ps (stored w) (in_memory w) in
          Some (with_running (base.delete i (running w)) (with_caches s c w),
                Some (match r with Ok _ => Ok ps | Err e => Err e end))
      | _ => None
      end
  | Invalidates u tn => let '(_, s, c) := invalidate_user u tn (stored w) (in_memory w) in Some (with_caches s c w, None)
  | InvalidatesAll => let '(_, s, c) := invalidate_all (stored w) (in_memory w) in Some (with_caches s c w, None)
  | Clears => Some (with_caches (stored w) (clear_request_cache (in_memory w)) w, None)
  end.

Fixpoint run (w : world) (l : list event) : option world :=
  match l with
  | [] => Some w
  | e :: l => match step w e with Some (w, _) => run w l | None => None end
  end.

(** [get_user_permissions] when nothing comes between, and what is asked of its answer. *)
Definition get_user_permissions (now : Z) (cached_at : string) (use_cache : bool) (user_id : string) (tenant_id : option string)
    (w : world) : result (list Permission) * world :=
  if use_cache then
    let '(r, c) := get now (versions w) user_id tenant_id (stored w) (in_memory w) in
    let w := with_caches (stored w) c w in
    match r with
    | Err e => (Err e, w)
    | Ok (Some ps) => (Ok ps, w)
    | Ok None =>
        match _compute_permissions (database w) now user_id tenant_id with
        | Err e => (Err e, w)
        | Ok ps =>
            let '(r, s, c) := set now (versions w) user_id tenant_id cached_at ps (stored w) (in_memory w) in
            (match r with Ok _ => Ok ps | Err e => Err e end, with_caches s c w)
        end
    end
  else (_compute_permissions (database w) now user_id tenant_id, w).

Definition has_permission (now : Z) (cached_at : string) (user_id resource_ action_ : string) (tenant_id : option string) (w : world) :
  result bool * world :=
  let '(r, w) := get_user_permissions now cached_at true user_id tenant_id w in
  (ps ← r; Ok (permitted resource_ action_ ps), w).

(** [None] stands for [PermissionError]. *)
Definition check_permission (now : Z) (cached_at : string) (user_id resource_ action_ : string) (tenant_id : option string)
    (raise_on_deny : bool) (w : world) : result (option bool) * world :=
  let '(r, w) := has_permission now cached_at user_id resource_ action_ tenant_id w in
  (has_perm ← r; Ok (if negb has_perm && raise_on_deny then None else Some has_perm), w).
End resolver.

(** ** Guarded fields ([directives.py]) *)

(** A value of one is not what the other has, if there is one: both as texts. *)
Definition differs (target own : pyval) : bool := Py.truthy target && negb (Py.str target =s Py.str own).

Definition _evaluate_constraints (constraints context field_args : list (string * pyval)) : result bool :=
  let target_user_id := if Py.truthy (Py.get "user_id" field_args) then Py.get "user_id" field_args else Py.get "id" field_args in
  if Py.truthy (Py.get "own_data_only" constraints) && differs target_user_id (Py.get "user_id" context) then Ok false
  else if Py.truthy (Py.get "tenant_scoped" constraints) && differs (Py.get "tenant_id" field_args) (Py.get "tenant_id" context)
  then Ok false
  else
    too_many ← match dict_get "max_records" constraints with
               | None => Ok false
               | Some max_records =>
                   match dict_get "limit" field_args, dict_get "first" field_args with
                   | Some limit, _ | None, Some limit => py_less true max_records limit
                   | None, None => py_less true max_records (PFloat (Num.FInf false))
                   end
               end;
    if too_many : bool then Ok false
    else
      Ok (negb (Py.truthy (Py.get "department_only" constraints) && Py.truthy (Py.get "department_id" context)
                && differs (Py.get "department_id" field_args) (Py.get "department_id" context))).

(** Whether the field is resolved; otherwise [PermissionError].  [answer] is what the
    resolver of the context says of the user in the tenant. *)
Definition requires_permission (resource_ action_ : string) (check_constraints : bool)
    (answer : pyval → pyval → result (list Permission)) (context kwargs : list (string * pyval)) : result bool :=
  let user_id := Py.get "user_id" context in
  if negb (Py.truthy user_id) then Ok false
  else
    permissions ← answer user_id (Py.get "tenant_id" context);
    match List.find (λ p, (resource p =s resource_) && (action p =s action_)) permissions with
    | None => Ok false
    | Some p =>
        match constraints p with
        | Some ((_ :: _) as cs) => if check_constraints then _evaluate_constraints cs context kwargs else Ok true
        | _ => Ok true
        end
    end.

Definition requires_role (name : string) (answer : pyval → pyval → result (list Role)) (context : list (string * pyval)) : result bool :=
  let user_id := Py.get "user_id" context in
  if negb (Py.truthy user_id) then Ok false
  else roles ← answer user_id (Py.get "tenant_id" context); Ok (existsb (λ r, role_name r =s name) roles).

(** * Laws: What roles allow ([enterprise/rbac])

    What a role inherits is the closure of its parents, what a user may do is what is granted
    to it, and what the cache answers was computed not long ago. *)

Lemma text_is_itself (s : string) : (s =s s) = true.
Proof. by apply bool_decide_eq_true_2. Qed.

(** ** Inheritance *)

Definition up (t : tables) (id : string) : option string :=
  match List.find (λ r, role_id r =s id) (roles t) with Some r => parent_role_id r | None => None end.

(** The role so many steps above a role. *)
Fixpoint ancestor (t : tables) (id : string) (n : nat) : option string :=
  match n with
  | O => if bool_decide (id ∈ map role_id (roles t)) then Some id else None
  | S n => match ancestor t id n with Some a => up t a | None => None end
  end.

Definition parent (t : tables) (a b : string) : Prop := ∃ r, r ∈ roles t ∧ role_id r = a ∧ parent_role_id r = Some b.

(** The keys of the tables. *)
Record keyed (t : tables) : Prop := {
  role_ids_are_distinct : NoDup (map role_id (roles t));
  parents_are_roles : ∀ r p, r ∈ roles t → parent_role_id r = Some p → p ∈ map role_id (roles t)
}.

Section inheritance.
Context (t : tables) (Hk : keyed t).

(** The rows of a role are one at most. *)
Lemma rows_of_role {B} (id : string) (f : Role → option B) :
  omap (λ r, if role_id r =s id then f r else None) (roles t)
  = match List.find (λ r, role_id r =s id) (roles t) with Some r => option_list (f r) | None => [] end.
Proof.
  pose proof (role_ids_are_distinct _ Hk) as Hnd. induction (roles t) as [|r l IH]; [done|]. cbn in Hnd |- *.
  apply NoDup_cons in Hnd as [Hr Hnd]. destruct (role_id r =s id) eqn:E; [|by apply IH].
  apply bool_decide_eq_true in E. subst id.
  assert (omap (λ r', if role_id r' =s role_id r then f r' else None) l = []) as Hl; [|by destruct (f r); rewrite Hl].
  clear -Hr. induction l as [|r' l IH]; [done|]. cbn in Hr |- *. apply not_elem_of_cons in Hr as [Hne Hr].
  destruct (role_id r' =s role_id r) eqn:E; [by apply bool_decide_eq_true in E|]. by apply IH.
Qed.

Definition at_depth (id : string) (n : nat) : list (string * nat) := option_list ((λ a, (a, n)) <$> ancestor t id n).

Lemma base_rows id : omap (λ r, if role_id r =s id then Some (id, 0%nat) else None) (roles t) = at_depth id 0.
Proof using Hk.
  rewrite (rows_of_role id (λ _, Some (id, 0%nat))). unfold at_depth. cbn.
  destruct (List.find _ _) as [r|] eqn:E.
  - apply List.find_some in E as [Hin E]. apply bool_decide_eq_true in E. rewrite bool_decide_eq_true_2; [done|].
    rewrite <- E. apply list_elem_of_In, in_map, Hin.
  - rewrite bool_decide_eq_false_2; [done|]. intros (r & <- & Hin)%list_elem_of_In%in_map_iff.
    pose proof (List.find_none _ _ E _ Hin) as Hn. cbn in Hn. by apply bool_decide_eq_false in Hn.
Qed.

Lemma next_rows id n : n < 10 → parent_rows t (at_depth id n) = at_depth id (S n).
Proof using Hk.
  intros Hn. unfold at_depth. cbn [ancestor]. destruct (ancestor t id n) as [a|]; [|done].
  unfold parent_rows. change (option_list ((λ a, (a, n)) <$> Some a)) with [(a, n)]. cbn [map concat fst snd].
  destruct (n <? 10)%nat eqn:E; [|apply Nat.ltb_ge in E; lia]. rewrite app_nil_r.
  rewrite (rows_of_role a (λ r, match parent_role_id r with Some p => Some (p, S n) | None => None end)). unfold up.
  destruct (List.find _ _) as [r|]; [|done]. by destruct (parent_role_id r).
Qed.

Lemma rows_from id k n : n + k = 11 → ∀ a d, (a, d) ∈ recursive_union k t (at_depth id n) ↔ n ≤ d ≤ 10 ∧ ancestor t id d = Some a.
Proof using Hk.
  revert n. induction k as [|k IH]; intros n Hn a d; [cbn; rewrite elem_of_nil; split; [done|lia]|].
  destruct (ancestor t id n) as [b|] eqn:Eb.
  - assert (at_depth id n = [(b, n)]) as Hb by by (unfold at_depth; rewrite Eb).
    rewrite Hb. cbn [recursive_union app]. rewrite <- Hb, elem_of_cons. destruct (decide (n = 10)) as [->|Hne].
    + assert (k = 0) as -> by lia. cbn [recursive_union]. rewrite elem_of_nil. split.
      * intros [[= -> ->]|?]; [|done]. split; [lia|done].
      * intros [? Ha]. assert (d = 10) as -> by lia. left. congruence.
    + rewrite next_rows, IH by lia. split.
      * intros [[= -> ->]|[? Ha]]; (split; [lia|done]).
      * intros [? Ha]. destruct (decide (d = n)) as [->|]; [left; congruence|]. right. split; [lia|done].
  - assert (at_depth id n = []) as -> by by (unfold at_depth; rewrite Eb). cbn. rewrite elem_of_nil. split; [done|].
    intros [Hd Ha]. exfalso. revert Ha. assert (∀ m, n ≤ m → ancestor t id m = None) as Hnone; [|by rewrite Hnone by lia].
    intros m Hm. induction Hm as [|m _ IHm]; [done|]. cbn. by rewrite IHm.
Qed.

Lemma rows_of_hierarchy id a d : (a, d) ∈ role_hierarchy t id ↔ d ≤ 10 ∧ ancestor t id d = Some a.
Proof using Hk. unfold role_hierarchy. rewrite base_rows, (rows_from id 11 0 eq_refl). split; intros []; (split; [lia|done]). Qed.

(** The least depth of a role that has rows. *)
Lemma min_depth_least id (l : list (string * nat)) d :
  (id, d) ∈ l → (id, min_depth id l) ∈ l ∧ min_depth id l ≤ d.
Proof.
  intros Hin. unfold min_depth. set (ds := map snd (filter (λ w : string * nat, w.1 = id) l)).
  assert (∀ x, x ∈ ds ↔ (id, x) ∈ l) as Hds.
  { intros x. subst ds. rewrite list_elem_of_In, in_map_iff. split.
    - intros ([i y] & <- & Hy). apply list_elem_of_In, list_elem_of_filter in Hy as [E Hy]. cbn in E. by subst i.
    - intros Hx. exists (id, x). split; [done|]. by apply list_elem_of_In, list_elem_of_filter. }
  destruct ds as [|x ds']; [by apply Hds in Hin; apply elem_of_nil in Hin|].
  assert (∀ l' : list nat, ∀ x, foldr Nat.min x l' ∈ x :: l' ∧ ∀ y, y ∈ x :: l' → foldr Nat.min x l' ≤ y) as Hm.
  { clear. induction l' as [|z l' IH]; intros x; cbn.
    - split; [by left|]. intros y [->|Hy]%elem_of_cons; [done|by apply elem_of_nil in Hy].
    - destruct (IH x) as [H1 H2]. split.
      + destruct (Nat.min_spec z (foldr Nat.min x l')) as [[_ ->]|[_ ->]]; [right; left|].
        apply elem_of_cons in H1 as [->|H1]; [by left|by right; right].
      + intros y [->|[->|Hy]%elem_of_cons]%elem_of_cons; [|lia|].
        * etrans; [apply Nat.le_min_r|apply H2; by left].
        * etrans; [apply Nat.le_min_r|apply H2; by right]. }
  destruct (Hm ds' x) as [H1 H2]. split; [by apply Hds|apply H2, Hds, Hin].
Qed.

Lemma inherited_row id a d :
  (a, d) ∈ inherited_rows t id → d ≤ 10 ∧ ancestor t id d = Some a ∧ ∀ m, m < d → ancestor t id m ≠ Some a.
Proof using Hk.
  unfold inherited_rows. intros (x & E & Hx)%list_elem_of_In%in_map_iff. injection E as <- <-.
  apply list_elem_of_In, elem_of_remove_dups, list_elem_of_fmap in Hx as ([x' d'] & -> & Hin). cbn [fst].
  destruct (min_depth_least _ _ _ Hin) as [Hm _]. apply rows_of_hierarchy in Hm as [Hle Ha]. split_and!; [done|done|].
  intros m Hlt Hm. assert ((x', m) ∈ role_hierarchy t id) as Hin' by (apply rows_of_hierarchy; split; [lia|done]).
  destruct (min_depth_least _ _ _ Hin') as [_ Hle']. lia.
Qed.

Lemma inherited_has id a d : d ≤ 10 → ancestor t id d = Some a → ∃ m, m ≤ d ∧ (a, m) ∈ inherited_rows t id.
Proof using Hk.
  intros Hd Ha. assert ((a, d) ∈ role_hierarchy t id) as Hin by by apply rows_of_hierarchy.
  exists (min_depth a (role_hierarchy t id)). split; [by apply min_depth_least|].
  unfold inherited_rows. apply list_elem_of_In, in_map_iff. exists a. split; [done|].
  apply list_elem_of_In, elem_of_remove_dups, list_elem_of_fmap. by exists (a, d).
Qed.

(** Ten steps up, at a role that is not below: eleven roles one above the other. *)
Definition too_deep (id : string) : Prop := ∃ a, ancestor t id 10 = Some a ∧ ∀ m, m < 10 → ancestor t id m ≠ Some a.

Lemma ancestor_add id m n a : ancestor t id m = Some a → a ∈ map role_id (roles t) → ancestor t id (m + n) = ancestor t a n.
Proof.
  intros Hm Ha. induction n as [|n IH]; [by rewrite Nat.add_0_r; cbn; rewrite bool_decide_eq_true_2|].
  rewrite Nat.add_succ_r. cbn. by rewrite IH.
Qed.

Lemma ancestor_is_role id n a : ancestor t id n = Some a → a ∈ map role_id (roles t).
Proof using Hk.
  destruct n as [|n]; cbn; [by case_bool_decide; intros [= <-]|].
  destruct (ancestor t id n) as [b|]; [|done]. unfold up. destruct (List.find _ _) as [r|] eqn:E; [|done].
  apply List.find_some in E as [Hin _]. intros Hp. eapply (parents_are_roles _ Hk); [by apply list_elem_of_In|done].
Qed.

(** Unless the roles are too deep, whatever is above is less than ten steps above: the chain
    ends, or it comes round. *)
Lemma near id n a : ¬ too_deep id → ancestor t id n = Some a → ∃ m, m < 10 ∧ ancestor t id m = Some a.
Proof using Hk.
  intros Hnd. revert a. induction (lt_wf n) as [n _ IH]. intros a Hn.
  destruct (decide (n < 10)) as [|Hge]; [by exists n|].
  destruct (ancestor t id 10) as [b|] eqn:E10.
  - assert (∃ m, m < 10 ∧ ancestor t id m = Some b) as (m & Hm & Eb).
    { destruct (decide (Exists (λ m, ancestor t id m = Some b) (seq 0 10))) as [(m & Hin & Eb)%Exists_exists|Hno].
      - exists m. apply elem_of_seq in Hin. split; [lia|done].
      - destruct Hnd. exists b. split; [done|]. intros m Hm Eb. apply Hno, Exists_exists. exists m. rewrite elem_of_seq. split; [lia|done]. }
    apply (IH (m + (n - 10))); [lia|]. rewrite (ancestor_add _ _ _ b Eb) by by eapply ancestor_is_role.
    rewrite <- (ancestor_add _ 10 (n - 10) b E10) by by eapply ancestor_is_role. rewrite <- Hn. f_equal. lia.
  - exfalso. assert (∀ m, 10 ≤ m → ancestor t id m = None) as Hnone; [|rewrite Hnone in Hn by lia; done].
    intros m Hm. induction Hm as [|m _ IHm]; [done|]. cbn. by rewrite IHm.
Qed.

Lemma up_parent a b : up t a = Some b ↔ parent t a b.
Proof using Hk.
  unfold up, parent. split.
  - destruct (List.find _ _) as [r|] eqn:E; [|done]. apply List.find_some in E as [Hin E]. apply bool_decide_eq_true in E.
    intros Hp. exists r. by rewrite list_elem_of_In.
  - intros (r & Hin & <- & Hp). pose proof (rows_of_role (role_id r) (λ x, Some x)) as Hrow.
    assert (r ∈ omap (λ r', if role_id r' =s role_id r then Some r' else None) (roles t)) as Hr.
    { apply list_elem_of_omap. exists r. split; [done|]. by rewrite text_is_itself. }
    rewrite Hrow in Hr. destruct (List.find _ _) as [r'|]; [|by apply elem_of_nil in Hr].
    apply list_elem_of_singleton in Hr. by subst r'.
Qed.

(** The closure of the parents. *)
Definition inherits (a b : string) : Prop := a ∈ map role_id (roles t) ∧ rtc (parent t) a b.

Lemma ancestors_are_inherited id b : (∃ n, ancestor t id n = Some b) ↔ inherits id b.
Proof using Hk.
  split.
  - intros (n & Hn). assert (id ∈ map role_id (roles t)) as Hid.
    { clear -Hn. revert b Hn. induction n as [|n IH]; intros b; cbn; [by case_bool_decide|].
      destruct (ancestor t id n); [|done]. intros _. by eapply IH. }
    split; [done|]. revert b Hn. induction n as [|n IH]; intros b; cbn.
    + rewrite bool_decide_eq_true_2 by done. by intros [= <-].
    + destruct (ancestor t id n) as [a|]; [|done]. intros Hp%up_parent. eapply rtc_r; [by apply IH|done].
  - intros [Hid Hr]. revert b Hr. apply rtc_ind_r; [exists 0; cbn; by rewrite bool_decide_eq_true_2|].
    intros a c _ Hp (n & Hn). exists (S n). cbn. rewrite Hn. by apply up_parent.
Qed.

Lemma inherited_ids id a : ¬ too_deep id → a ∈ (inherited_rows t id).*1 ↔ inherits id a.
Proof using Hk.
  intros Hd. rewrite <- ancestors_are_inherited, list_elem_of_fmap. split.
  - intros ([x d] & -> & Hx). apply inherited_row in Hx as (_ & Ha & _). by exists d.
  - intros (n & Hn). destruct (near _ _ _ Hd Hn) as (m & Hm & Ha). destruct (inherited_has id a m) as (m' & _ & Hin); [lia|done|].
    by exists (a, m').
Qed.

Context (by_name : list Role → list Role) (by_action : list Permission → list Permission)
  (by_name_permutes : ∀ l, by_name l ≡ₚ l) (by_action_permutes : ∀ l, by_action l ≡ₚ l).

(** The function of the program refuses exactly what is too deep. *)
Lemma get_inherited_roles_spec id :
  match get_inherited_roles by_name t id with
  | Ok l => ¬ too_deep id ∧ ∀ r, r ∈ l ↔ r ∈ roles t ∧ inherits id (role_id r)
  | Err e => e = ValueError ∧ too_deep id
  end.
Proof using Hk by_name_permutes.
  unfold get_inherited_roles. cbv zeta. destruct (existsb _ (inherited_rows t id)) eqn:E.
  - apply existsb_exists in E as ([a d] & Hin & Hd). apply list_elem_of_In, inherited_row in Hin as (Hle & Ha & Hno).
    apply Nat.leb_le in Hd. cbn [snd] in Hd. assert (d = 10) as -> by lia. split; [done|]. by exists a.
  - assert (¬ too_deep id) as Hnd.
    { intros (a & Ha & Hno). destruct (inherited_has id a 10) as (m & Hm & Hin); [done|done|].
      pose proof (inherited_row _ _ _ Hin) as (_ & Hma & _). assert (m = 10) as ->.
      { destruct (decide (m = 10)); [done|]. exfalso. eapply (Hno m); [lia|done]. }
      apply not_true_iff_false in E. apply E, existsb_exists. exists (a, 10). split; [by apply list_elem_of_In|done]. }
    split; [done|]. intros r. rewrite by_name_permutes, list_elem_of_filter, inherited_ids by done. tauto.
Qed.

(** ** What a user may do *)

(** A role of the user in the tenant, which has not expired. *)
Definition has_role (now : Z) (user_id : string) (tenant_id : option string) (id : string) : Prop :=
  id ∈ map role_id (roles t) ∧
  ∃ ur, ur ∈ user_roles t ∧ ur_role_id ur = id ∧ ur_user_id ur = user_id ∧ ur_tenant_id ur = tenant_id ∧
        (∀ e, expires_at ur = Some e → (now < e)%Z).

Lemma assigned_spec now user_id tenant_id ur :
  assigned now user_id tenant_id ur = true ↔
  ur_user_id ur = user_id ∧ ur_tenant_id ur = tenant_id ∧ (∀ e, expires_at ur = Some e → (now < e)%Z).
Proof using Type.
  assert (same_scope (ur_tenant_id ur) tenant_id = true ↔ ur_tenant_id ur = tenant_id) as Hscope.
  { destruct (ur_tenant_id ur) as [a|], tenant_id as [b|]; [|done..]. unfold same_scope. split.
    - by intros ->%bool_decide_eq_true.
    - intros [= ->]. by apply bool_decide_eq_true. }
  assert ((ur_user_id ur =s user_id) = true ↔ ur_user_id ur = user_id) as Huser by apply bool_decide_eq_true.
  unfold assigned. rewrite !andb_true_iff, Hscope, Huser.
  assert (match expires_at ur with None => true | Some e => (now <? e)%Z end = true ↔ ∀ e, expires_at ur = Some e → (now < e)%Z) as ->; [|tauto].
  destruct (expires_at ur) as [e|]; [|done]. rewrite Z.ltb_lt. split; [by intros ? ? [= <-]|auto].
Qed.

Lemma user_roles_spec now user_id tenant_id r :
  r ∈ _get_user_roles t now user_id tenant_id ↔ r ∈ roles t ∧ has_role now user_id tenant_id (role_id r).
Proof using Type.
  unfold _get_user_roles, has_role. setoid_rewrite <- assigned_spec. rewrite list_elem_of_In, in_concat. split.
  - intros (x & (r' & <- & Hr')%in_map_iff & Hin). apply list_elem_of_In, list_elem_of_omap in Hin as (ur & Hur & E).
    destruct (ur_role_id ur =s role_id r') eqn:E1; [|done]. destruct (assigned _ _ _ ur) eqn:E2; [|done]. injection E as ->.
    apply bool_decide_eq_true in E1. rewrite list_elem_of_In. split_and!; [done|by apply list_elem_of_In, in_map|].
    exists ur. done.
  - intros (Hr & _ & ur & Hur & E1 & E2). eexists. split; [apply in_map_iff; exists r; split; [done|by apply list_elem_of_In]|].
    apply list_elem_of_In, list_elem_of_omap. exists ur. split; [done|]. by rewrite E1, text_is_itself, E2.
Qed.

(** A role ten steps above a role, and no fewer: ten different roles above it. *)
Definition ten_above (a : string) : Prop :=
  ∃ b, nsteps (parent t) 10 a b ∧ ∀ m, m < 10 → ¬ nsteps (parent t) m a b.

Lemma ancestor_steps a n b : a ∈ map role_id (roles t) → ancestor t a n = Some b ↔ nsteps (parent t) n a b.
Proof using Hk.
  intros Ha. revert b. induction n as [|n IH]; intros b; cbn [ancestor].
  - rewrite bool_decide_eq_true_2 by done. split; [intros [= <-]; constructor|by inversion 1].
  - split.
    + destruct (ancestor t a n) as [c|]; [|done]. intros Hp%up_parent. eapply nsteps_r; [by apply IH|done].
    + intros (c & Hc%IH & Hp)%nsteps_inv_r. rewrite Hc. by apply up_parent.
Qed.

Lemma too_deep_steps a : a ∈ map role_id (roles t) → too_deep a ↔ ten_above a.
Proof using Hk.
  intros Ha. unfold too_deep, ten_above. apply exist_proper. intros b. rewrite ancestor_steps by done.
  split; intros [Hb Hm]; (split; [done|]); intros m Hlt E; apply (Hm m Hlt); by apply ancestor_steps.
Qed.

(** A permission is granted to a role. *)
Definition grants (id : string) (p : Permission) : Prop :=
  p ∈ permissions t ∧ ∃ rp, rp ∈ role_permissions t ∧ rp_role_id rp = id ∧ rp_permission_id rp = permission_id p ∧ granted rp = true.

Lemma permissions_of_spec ids p : p ∈ permissions_of by_action t ids ↔ ∃ id, id ∈ ids ∧ grants id p.
Proof using by_action_permutes.
  unfold permissions_of. rewrite by_action_permutes, list_elem_of_filter, Exists_exists. unfold grants. split.
  - intros [(rp & Hin & E1 & E2 & E3) Hp]. exists (rp_role_id rp). eauto 10.
  - intros (id & Hid & Hp & rp & Hin & <- & E2 & E3). eauto 10.
Qed.

End inheritance.

(** ** What the cache answers *)

(** Users and tenants are UUIDs: no colon, and not the word for no tenant. *)
Definition named (user_id : string) (tenant_id : option string) : Prop :=
  Str.has_char ":" user_id = false ∧ match tenant_id with Some t => t ≠ EmptyString ∧ t ≠ "global" | None => True end.

Lemma app_inj_prefix (a b c : string) : (a +:+ b)%stdpp = (a +:+ c)%stdpp → b = c.
Proof. induction a as [|x a IH]; [done|]. rewrite !app_cons_str. intros [= E]. by apply IH. Qed.

Lemma before_colon (u u' s s' : string) :
  Str.has_char ":" u = false → Str.has_char ":" u' = false → (u +:+ ":" +:+ s)%stdpp = (u' +:+ ":" +:+ s')%stdpp → u = u' ∧ s = s'.
Proof.
  unfold Str.has_char. revert u'. induction u as [|c u IH]; intros [|c' u'] Hu Hu'; rewrite ?app_nil_l_str, ?app_cons_str, ?app_nil_l_str.
  - by intros [= <-].
  - intros [= <- _]. done.
  - intros [= -> _]. done.
  - intros [= <- E]. apply negb_false_iff, andb_true_iff in Hu as [_ Hu]. apply negb_false_iff, andb_true_iff in Hu' as [_ Hu'].
    destruct (IH u') as [<- <-]; [by apply negb_false_iff|by apply negb_false_iff|done|done].
Qed.

Lemma key_is_of_one u tn u' tn' : named u tn → named u' tn' → _make_key u tn = _make_key u' tn' → u = u' ∧ tn = tn'.
Proof.
  intros [Hu Ht] [Hu' Ht'] E. unfold _make_key in E. apply app_inj_prefix, before_colon in E as [-> E]; [|done|done]. split; [done|].
  unfold scope in E. destruct tn as [[|]|], tn' as [[|]|]; destruct_and?; congruence.
Qed.

Section cache.
Context (by_name : list Role → list Role) (by_action : list Permission → list Permission)
  (model_dump : Permission → pyval) (model_validate : pyval → result Permission) (has_versions : bool) (request_ttl : Z).

(** The constraints of a permission are those of a JSONB column. *)
Definition storable (p : Permission) : Prop := match constraints p with Some cs => as_json (PDict cs) = PDict cs | None => True end.

(** pydantic: what was dumped to JSON validates to what it was. *)
Context (validates : ∀ p, storable p → model_validate (as_json (model_dump p)) = Ok p) (by_action_permutes : ∀ l, by_action l ≡ₚ l).

Abbreviation computes := (_compute_permissions by_name by_action).
Abbreviation happens := (step by_name by_action model_dump model_validate has_versions request_ttl).
Abbreviation history := (run by_name by_action model_dump model_validate has_versions request_ttl).
Abbreviation entry := (entry_value model_dump has_versions).

(** The computations and the stores of a history. *)
Definition computed_by (w : world) (e : event) : list (string * option string * tables * Z) :=
  match e with
  | Computes i now =>
      match running w !! i with Some {| user := u; tenant := tn; at_stage := Missed |} => [(u, tn, database w, now)] | _ => [] end
  | _ => []
  end.

Definition stored_by (w : world) (e : event) : list (string * option string * list Permission * Z) :=
  match e with
  | Stores i now _ =>
      match running w !! i with Some {| user := u; tenant := tn; at_stage := Computed ps |} => [(u, tn, ps, now)] | _ => [] end
  | _ => []
  end.

Fixpoint along {A} (f : world → event → list A) (w : world) (l : list event) : list A :=
  match l with
  | [] => []
  | e :: l => f w e ++ match happens w e with Some (w, _) => along f w l | None => [] end
  end.

(** What an entry of the table is found to be. *)
Lemma validated_dump ps : Forall storable ps → validated model_validate (PList (map as_json (map model_dump ps))) = Some ps.
Proof using validates.
  intros Hps. unfold validated. cbn. replace (mapR model_validate _) with (Ok ps); [done|]. symmetry. apply mapR_Ok.
  induction Hps; constructor; [by apply validates|done].
Qed.

(** What is computed is in the table of permissions. *)
Lemma computed_storable t n u tn ps : Forall storable (permissions t) → computes t n u tn = Ok ps → Forall storable ps.
Proof using by_action_permutes.
  intros Ht (l & _ & H)%bind_Ok. destruct (remove_dups _); injection H as <-; [done|].
  unfold permissions_of. rewrite by_action_permutes. apply Forall_forall. intros p [_ Hp]%list_elem_of_filter. by apply (proj1 (Forall_forall _ _) Ht).
Qed.

Lemma found_entry v tn cached_at ps now e key (s : table) found cached_versions :
  Forall storable ps → rows s !! key = Some (as_json (entry v tn cached_at ps), e) →
  get_with_metadata now key s = Ok (found, cached_versions) → Py.is_none found = false →
  (now < e)%Z ∧ validated model_validate found = Some ps ∧
  cached_versions = (if has_versions && negb (bool_decide (get_domain_versions has_versions v (scope tn) _rbac_domains = []))
                     then as_json (PDict (get_domain_versions has_versions v (scope tn) _rbac_domains)) else PNone).
Proof using validates.
  intros Hps Hk. unfold get_with_metadata. destruct (available s); [|done]. rewrite Hk. destruct (now <? e)%Z eqn:Ee; [|by intros [= <- <-]].
  unfold entry_value, with_metadata. destruct (has_versions && _) eqn:Eh; cbn -[bool_decide]; intros [= <- <-] _;
    (split_and!; [by apply Z.ltb_lt|by apply validated_dump|done]).
Qed.

(** *** Answers are not old *)

Record tracked (C : list (string * option string * tables * Z)) (S : list (string * option string * list Permission * Z)) (w : world) : Prop := {
  database_is_storable : Forall storable (permissions (database w));
  computed_is_storable : ∀ u tn t n, (u, tn, t, n) ∈ C → Forall storable (permissions t);
  running_are_named : ∀ i r, running w !! i = Some r → named (user r) (tenant r);
  running_were_computed : ∀ i u tn ps, running w !! i = Some {| user := u; tenant := tn; at_stage := Computed ps |} →
    ∃ t n, (u, tn, t, n) ∈ C ∧ computes t n u tn = Ok ps;
  stored_were_computed : ∀ u tn ps s, (u, tn, ps, s) ∈ S → ∃ t n, (u, tn, t, n) ∈ C ∧ computes t n u tn = Ok ps;
  rows_were_stored : ∀ k v e, rows (stored w) !! k = Some (v, e) →
    ∃ u tn ps s ver at_, (u, tn, ps, s) ∈ S ∧ named u tn ∧ k = _make_key u tn ∧ e = (s + cache_ttl)%Z ∧ v = as_json (entry ver tn at_ ps);
  kept_were_stored : ∀ k d ps, in_memory w !! k = Some (d, ps) →
    ∃ u tn s, (u, tn, ps, s) ∈ S ∧ named u tn ∧ k = _make_key u tn ∧ (d < s + cache_ttl + Z.max 0 request_ttl)%Z
}.

Definition names (e : event) : Prop :=
  match e with Asks _ u tn _ => named u tn | Changes t _ => Forall storable (permissions t) | _ => True end.

Definition starts (w : world) : Prop :=
  rows (stored w) = ∅ ∧ in_memory w = ∅ ∧ running w = ∅ ∧ Forall storable (permissions (database w)).

(** What the table answers to [get]. *)
Definition from_table (now : Z) (v : gmap (string * string) Z) (u : string) (tn : option string) (s : table) (ps : list Permission) : Prop :=
  ∃ found cached_versions,
    get_with_metadata now (_make_key u tn) s = Ok (found, cached_versions) ∧ Py.is_none found = false ∧
    stale has_versions v tn cached_versions = Ok false ∧ validated model_validate found = Some ps.

Lemma put_entry now key ps (c : gmap string (Z * list Permission)) k x :
  _request_cache_put request_ttl now key ps c !! k = Some x →
  c !! k = Some x ∨ (k = key ∧ x = ((now + request_ttl)%Z, ps) ∧ (0 < request_ttl)%Z).
Proof.
  unfold _request_cache_put. destruct (request_ttl <=? 0)%Z eqn:E; [by left|]. apply Z.leb_gt in E.
  destruct (decide (k = key)) as [->|Hne]; [rewrite lookup_insert_eq; intros [= <-]; by right|].
  rewrite lookup_insert_ne by done. intros [H _]%map_lookup_filter_Some. by left.
Qed.

Lemma get_cases now v u tn s (c : gmap string (Z * list Permission)) r c' :
  get model_validate has_versions request_ttl now v u tn s c = (r, c') →
  (∀ k x, c' !! k = Some x → c !! k = Some x ∨
     ∃ ps, k = _make_key u tn ∧ x = ((now + request_ttl)%Z, ps) ∧ (0 < request_ttl)%Z ∧ from_table now v u tn s ps) ∧
  (∀ ps, r = Ok (Some ps) → (∃ d, c !! _make_key u tn = Some (d, ps) ∧ (now < d)%Z) ∨ from_table now v u tn s ps).
Proof.
  unfold get. destruct (_request_cache_get now (_make_key u tn) c) as [o c1] eqn:Eg.
  assert ((∀ k x, c1 !! k = Some x → c !! k = Some x) ∧
    ∀ ps, o = Some ps → ∃ d, c !! _make_key u tn = Some (d, ps) ∧ (now < d)%Z) as [Hc Ho].
  { revert Eg. unfold _request_cache_get. destruct (c !! _make_key u tn) as [[d ps]|] eqn:El; [|by intros [= <- <-]].
    destruct (d <=? now)%Z eqn:Ed; intros [= <- <-].
    - split; [|done]. intros k x [_ H]%lookup_delete_Some. done.
    - split; [done|]. intros ? [= <-]. exists d. split; [done|]. by apply Z.leb_gt in Ed. }
  destruct o as [ps|].
  { intros [= <- <-]. split; [by left; apply Hc|]. intros ? [= <-]. left. by apply Ho. }
  destruct (get_with_metadata _ _ _) as [[found cv]|e] eqn:Em; [|intros [= <- <-]; split; [by left; apply Hc|done]].
  destruct (Py.is_none found) eqn:En; [intros [= <- <-]; split; [by left; apply Hc|done]|].
  destruct (stale _ _ _ _) as [[]|e] eqn:Es; try (intros [= <- <-]; split; [by left; apply Hc|done]).
  destruct (validated _ _) as [ps|] eqn:Ev; intros [= <- <-]; [|split; [by left; apply Hc|done]].
  assert (from_table now v u tn s ps) as Hf by by exists found, cv. split.
  - intros k x [Hx|(-> & -> & Hp)]%put_entry; [left; by apply Hc|]. right. by exists ps.
  - intros ? [= <-]. by right.
Qed.

Lemma table_row now key (s : table) found cv :
  get_with_metadata now key s = Ok (found, cv) → Py.is_none found = false → ∃ v e, rows s !! key = Some (v, e).
Proof.
  unfold get_with_metadata. destruct (available s); [|done]. destruct (rows s !! key) as [[v e]|]; [eauto|]. by intros [= <- _].
Qed.

(** The row an answer of the table came from. *)
Lemma table_answer C S w now v u tn ps :
  tracked C S w → named u tn → from_table now v u tn (stored w) ps →
  ∃ s, (u, tn, ps, s) ∈ S ∧ (now < s + cache_ttl)%Z.
Proof using validates by_action_permutes.
  intros HJ Hn (found & cv & Hg & Hf & Hs & Hv). destruct (table_row _ _ _ _ _ Hg Hf) as (val & e & Hrow).
  destruct (rows_were_stored _ _ _ HJ _ _ _ Hrow) as (u' & tn' & ps' & s & ver & at_ & Hin & Hn' & Hk & -> & ->).
  destruct (key_is_of_one _ _ _ _ Hn Hn' Hk) as [<- <-].
  destruct (stored_were_computed _ _ _ HJ _ _ _ _ Hin) as (t & n & HC & Hps). pose proof (computed_is_storable _ _ _ HJ _ _ _ _ HC) as Ht.
  destruct (found_entry _ _ _ _ _ _ _ _ _ _ (computed_storable _ _ _ _ _ Ht Hps) Hrow Hg Hf) as (Hlt & Hv' & _).
  rewrite Hv in Hv'. injection Hv' as <-. by exists s.
Qed.

Lemma tracked_more C C' S w :
  (∀ u tn t n, (u, tn, t, n) ∈ C' → t = database w) → tracked C S w → tracked (C ++ C') S w.
Proof.
  intros Hnow [H01 H02 H1 H2 H3 H4 H5]. split; try done.
  - intros u tn t n [Hin|Hin]%elem_of_app; [by eapply H02|]. by rewrite (Hnow _ _ _ _ Hin).
  - intros i u tn ps Hi. destruct (H2 _ _ _ _ Hi) as (t & n & Hin & Hc). exists t, n. split; [|done]. apply elem_of_app. by left.
  - intros u tn ps s Hs. destruct (H3 _ _ _ _ Hs) as (t & n & Hin & Hc). exists t, n. split; [|done]. apply elem_of_app. by left.
Qed.

Lemma tracked_caches C S w s c :
  tracked C S w →
  (∀ k x, rows s !! k = Some x → rows (stored w) !! k = Some x) →
  (∀ k x, c !! k = Some x → in_memory w !! k = Some x) → tracked C S (with_caches s c w).
Proof. intros [H01 H02 H1 H2 H3 H4 H5] Hs Hc. split; try done; intros; [eapply H4, Hs; done|eapply H5, Hc; done]. Qed.

(** A request that goes on to the next stage, or ends. *)
Lemma tracked_running C S w m :
  tracked C S w →
  (∀ i r, m !! i = Some r → named (user r) (tenant r)) →
  (∀ i u tn ps, m !! i = Some {| user := u; tenant := tn; at_stage := Computed ps |} →
     ∃ t n, (u, tn, t, n) ∈ C ∧ computes t n u tn = Ok ps) →
  tracked C S (with_running m w).
Proof. by intros [H01 H02 H1 H2 H3 H4 H5] Hn Hc. Qed.

Lemma tracked_store C S w u tn ps now v at_ r s c :
  tracked C S w → named u tn → (∃ t n, (u, tn, t, n) ∈ C ∧ computes t n u tn = Ok ps) →
  set model_dump has_versions request_ttl now v u tn at_ ps (stored w) (in_memory w) = (r, s, c) →
  tracked C (S ++ [(u, tn, ps, now)]) (with_caches s c w).
Proof.
  intros [H01 H02 H1 H2 H3 H4 H5] Hn Hc Hset.
  assert (∀ k x e, rows s !! k = Some (x, e) → rows (stored w) !! k = Some (x, e) ∨
            (k = _make_key u tn ∧ e = (now + cache_ttl)%Z ∧ x = as_json (entry v tn at_ ps))) as Hrows.
  { revert Hset. unfold set, write. destruct (available (stored w)); [|intros [= <- <- <-]; by left].
    destruct (Json.dumps _); intros [= <- <- <-]; [|by left]. cbn. intros k x e.
    destruct (decide (k = _make_key u tn)) as [->|]; [rewrite lookup_insert_eq; intros [= <- <-]; by right|].
    rewrite lookup_insert_ne by done. by left. }
  assert (∀ k x, c !! k = Some x → in_memory w !! k = Some x ∨
            (k = _make_key u tn ∧ x = ((now + request_ttl)%Z, ps) ∧ (0 < request_ttl)%Z)) as Hkept.
  { revert Hset. unfold set, write. destruct (available (stored w)); [|intros [= <- <- <-]; by left].
    destruct (Json.dumps _); intros [= <- <- <-]; [|by left]. intros k x. apply put_entry. }
  split; cbn; try done.
  - intros u' tn' ps' s' [Hin|[= -> -> -> ->]%list_elem_of_singleton]%elem_of_app; [by eapply H3|done].
  - intros k x e [Hx|(-> & -> & ->)]%Hrows.
    + destruct (H4 _ _ _ Hx) as (u' & tn' & ps' & s' & ver & at' & Hin & Hrest).
      exists u', tn', ps', s', ver, at'. split; [apply elem_of_app; by left|done].
    + exists u, tn, ps, now, v, at_. split; [apply elem_of_app; right; by apply list_elem_of_singleton|done].
  - intros k d ps' [Hx|(-> & [= -> ->] & Hp)]%Hkept.
    + destruct (H5 _ _ _ Hx) as (u' & tn' & s' & Hin & Hrest). exists u', tn', s'. split; [apply elem_of_app; by left|done].
    + exists u, tn, now. split_and!; [apply elem_of_app; right; by apply list_elem_of_singleton|done|done|].
      unfold cache_ttl, second. lia.
Qed.

Lemma tracked_step C S w e w' a :
  names e → tracked C S w → happens w e = Some (w', a) → tracked (C ++ computed_by w e) (S ++ stored_by w e) w'.
Proof using validates by_action_permutes.
  intros Hn HJ. pose proof HJ as [H01 H02 H1 H2 H3 H4 H5]. destruct e as [t v|i u tn now|i now|i now at_|u tn| |]; cbn.
  - intros [= <- <-]. rewrite !app_nil_r. by split.
  - destruct (running w !! i) as [|] eqn:Ei; [done|]. rewrite !app_nil_r.
    destruct (get _ _ _ _ _ _ _ _ _) as [r c] eqn:Eg. destruct (get_cases _ _ _ _ _ _ _ _ Eg) as [Hc _].
    assert (tracked C S (with_caches (stored w) c w)) as HJ'.
    { split; cbn; try done. intros k d ps [Hx|(ps' & -> & [= -> ->] & Hp & Hf)]%Hc; [by eapply H5|].
      destruct (table_answer _ _ _ _ _ _ _ _ HJ Hn Hf) as (s & Hin & Hlt). exists u, tn, s. split_and!; [done|done|done|]. lia. }
    destruct r as [[ps|]|e]; intros [= <- <-]; try done. apply tracked_running; [done| |].
    + intros j r. destruct (decide (i = j)) as [<-|]; [rewrite lookup_insert_eq; by intros [= <-]|rewrite lookup_insert_ne by done; apply H1].
    + intros j u' tn' ps. destruct (decide (i = j)) as [<-|]; [by rewrite lookup_insert_eq|rewrite lookup_insert_ne by done; apply H2].
  - destruct (running w !! i) as [[u tn []]|] eqn:Ei; try done. rewrite app_nil_r.
    assert (∀ j r, base.delete i (running w) !! j = Some r → running w !! j = Some r) as Hdel by by intros j r [_ H]%lookup_delete_Some.
    assert (tracked (C ++ [(u, tn, database w, now)]) S w) as HJ'.
    { apply tracked_more; [|done]. by intros ? ? ? ? [= -> -> -> ->]%list_elem_of_singleton. }
    destruct (computes (database w) now u tn) as [ps|e] eqn:Ec; intros [= <- <-]; (apply tracked_running; [done| |]).
    + intros j r. destruct (decide (i = j)) as [<-|]; [rewrite lookup_insert_eq; intros [= <-]; by apply (H1 _ _ Ei)|].
      rewrite lookup_insert_ne by done. apply H1.
    + intros j u' tn' ps'. destruct (decide (i = j)) as [<-|].
      * rewrite lookup_insert_eq. intros [= <- <- <-]. exists (database w), now. split; [apply elem_of_app; right; by apply list_elem_of_singleton|done].
      * rewrite lookup_insert_ne by done. apply (running_were_computed _ _ _ HJ').
    + intros j r ?%Hdel. by eapply H1.
    + intros j u' tn' ps' ?%Hdel. by eapply (running_were_computed _ _ _ HJ').
  - destruct (running w !! i) as [[u tn [|ps]]|] eqn:Ei; try done. rewrite app_nil_r.
    assert (∀ j r, base.delete i (running w) !! j = Some r → running w !! j = Some r) as Hdel by by intros j r [_ H]%lookup_delete_Some.
    destruct (set _ _ _ _ _ _ _ _ _ _ _) as [[r s] c] eqn:Es. intros [= <- <-]. apply tracked_running.
    + eapply tracked_store; [done|by apply (H1 _ _ Ei)|by apply (H2 _ _ _ _ Ei)|done].
    + intros j r' ?%Hdel. by eapply H1.
    + intros j u' tn' ps' ?%Hdel. by eapply H2.
  - unfold invalidate_user, table_delete. rewrite !app_nil_r.
    destruct (available (stored w)); intros [= <- <-]; apply tracked_caches; try done; cbn; by intros k x [_ ?]%lookup_delete_Some.
  - unfold invalidate_all, table_delete_pattern. rewrite !app_nil_r.
    destruct (available (stored w)); intros [= <- <-]; apply tracked_caches; try done; cbn; by intros k x [? _]%map_lookup_filter_Some.
  - intros [= <- <-]. rewrite !app_nil_r. by apply tracked_caches.
Qed.

Lemma tracked_run C S w l w' :
  Forall names l → tracked C S w → history w l = Some w' → tracked (C ++ along computed_by w l) (S ++ along stored_by w l) w'.
Proof using validates by_action_permutes.
  revert C S w. induction l as [|e l IH]; intros C S w Hn HJ; cbn; [intros [= <-]; by rewrite !app_nil_r|].
  apply Forall_cons in Hn as [He Hn]. destruct (happens w e) as [[w1 a]|] eqn:Es; [|done]. intros Hr. rewrite !app_assoc.
  apply IH; [done|by eapply tracked_step|done].
Qed.

Lemma tracked_start w : starts w → tracked [] [] w.
Proof.
  intros (Hr & Hm & Hi & Hs). split.
  - done.
  - by intros u tn t n ?%elem_of_nil.
  - intros i r. by rewrite Hi, lookup_empty.
  - intros i u tn ps. by rewrite Hi, lookup_empty.
  - by intros u tn ps s ?%elem_of_nil.
  - intros k v e. by rewrite Hr, lookup_empty.
  - intros k d ps. by rewrite Hm, lookup_empty.
Qed.


(** *** With versions an answer is current *)

Definition version_of (tn : option string) (v : gmap (string * string) Z) (d : string) : Z := default 0%Z (v !! (scope tn, d)).

Definition known (tn : option string) (v : gmap (string * string) Z) : Prop :=
  Exists (λ d, is_Some (v !! (scope tn, d))) _rbac_domains.

(** The triggers of the extension: versions only grow, and one that the tenant looks at grows
    when the tables change.  No change comes between a computation and its store. *)
Definition lawful (tn : option string) (w : world) (e : event) : Prop :=
  match e with
  | Changes t v =>
      names e ∧ Forall (λ d, (version_of tn (versions w) d <= version_of tn v d)%Z) _rbac_domains ∧ known tn v ∧
      (t = database w ∨ Exists (λ d, (version_of tn (versions w) d < version_of tn v d)%Z) _rbac_domains) ∧
      ∀ i u ps, running w !! i ≠ Some {| user := u; tenant := tn; at_stage := Computed ps |}
  | e => names e
  end.

Fixpoint lawfully (tn : option string) (w : world) (l : list event) : Prop :=
  match l with
  | [] => True
  | e :: l => lawful tn w e ∧ match happens w e with Some (w, _) => lawfully tn w l | None => True end
  end.

Definition agrees (tn : option string) (v v' : gmap (string * string) Z) : Prop :=
  Forall (λ d, version_of tn v d = version_of tn v' d) _rbac_domains.

Record current (tn : option string) (w : world) : Prop := {
  tables_are_storable : Forall storable (permissions (database w));
  nothing_is_kept : in_memory w = ∅;
  some_version : known tn (versions w);
  all_are_named : ∀ i r, running w !! i = Some r → named (user r) (tenant r);
  running_are_current : ∀ i u ps, running w !! i = Some {| user := u; tenant := tn; at_stage := Computed ps |} →
    ∃ n, computes (database w) n u tn = Ok ps;
  rows_are_current : ∀ u v e, named u tn → rows (stored w) !! _make_key u tn = Some (v, e) →
    ∃ ver at_ ps, Forall storable ps ∧ v = as_json (entry ver tn at_ ps) ∧ known tn ver ∧
      Forall (λ d, (version_of tn ver d <= version_of tn (versions w) d)%Z) _rbac_domains ∧
      (agrees tn ver (versions w) → ∃ n, computes (database w) n u tn = Ok ps)
}.

Lemma domain_lookup v s d : d ∈ _rbac_domains → dict_get d (get_domain_versions true v s _rbac_domains) = PInt <$> v !! (s, d).
Proof.
  unfold _rbac_domains, get_domain_versions. cbn [omap list_omap]. intros Hd.
  repeat (apply elem_of_cons in Hd as [->|Hd]; [by repeat (destruct (v !! _))|]). by apply elem_of_nil in Hd.
Qed.

Lemma versions_as_json v s : as_json (PDict (get_domain_versions true v s _rbac_domains)) = PDict (get_domain_versions true v s _rbac_domains).
Proof. unfold _rbac_domains, get_domain_versions. cbn [omap list_omap]. by repeat (destruct (v !! _)). Qed.

Lemma known_versions tn v : known tn v → get_domain_versions true v (scope tn) _rbac_domains ≠ [].
Proof.
  unfold known, _rbac_domains, get_domain_versions. rewrite !Exists_cons, Exists_nil. cbn [omap list_omap].
  intros [[x Hx]|[[x Hx]|[[x Hx]|[[x Hx]|[]]]]]; rewrite Hx; repeat (destruct (v !! _)); done.
Qed.

Lemma py_eq_int a b : py_eq (PInt a) (PInt b) = true → a = b.
Proof.
  cbn. unfold Num.float_leb. cbn. rewrite !Z.mul_1_r, andb_true_iff, !Z.leb_le. lia.
Qed.

Lemma not_stale tn v ver :
  known tn ver → stale true v tn (as_json (PDict (get_domain_versions true ver (scope tn) _rbac_domains))) = Ok false → agrees tn ver v.
Proof.
  intros Hk%known_versions. rewrite versions_as_json.
  assert (Py.truthy (PDict (get_domain_versions true ver (scope tn) _rbac_domains)) = true) as Ht by by destruct (get_domain_versions _ _ _ _).
  unfold stale. rewrite Ht. cbv beta iota zeta delta [andb].
  intros H. apply (f_equal (λ r, match r with Ok b => b | Err _ => true end)) in H. apply Forall_forall. intros d Hd. pose proof H as Hn. apply not_true_iff_false in Hn. unfold version_of.
  destruct (decide (default 0%Z (ver !! (scope tn, d)) = default 0%Z (v !! (scope tn, d)))) as [|Hne]; [done|].
  destruct Hn. apply existsb_exists. exists d. split; [by apply list_elem_of_In|]. rewrite !domain_lookup by done.
  apply negb_true_iff, not_true_iff_false. intros Heq. apply Hne.
  assert (∀ o : option Z, default (PInt 0) (PInt <$> o) = PInt (default 0%Z o)) as Ho by by intros [].
  rewrite !Ho in Heq. by apply py_eq_int in Heq.
Qed.

Lemma agrees_refl tn v : agrees tn v v.
Proof. by apply Forall_forall. Qed.

(** What changes and what does not change what is current. *)
Lemma current_caches tn w s :
  current tn w → (∀ k x, rows s !! k = Some x → rows (stored w) !! k = Some x) → current tn (with_caches s ∅ w).
Proof. intros [H0 H1 H2 H3 H4 H5] Hs. split; try done. intros u v e Hn Hrow%Hs. by apply (H5 u v e). Qed.

Lemma current_running tn w m :
  current tn w →
  (∀ i r, m !! i = Some r → named (user r) (tenant r)) →
  (∀ i u ps, m !! i = Some {| user := u; tenant := tn; at_stage := Computed ps |} → ∃ n, computes (database w) n u tn = Ok ps) →
  current tn (with_running m w).
Proof. by intros [H0 H1 H2 H3 H4 H5] Hn Hc. Qed.

Lemma current_changes tn w t v :
  current tn w → lawful tn w (Changes t v) → current tn (with_database t v w).
Proof.
  intros [H0 H1 H2 H3 H4 H5] (Hst & Hle & Hkn & Hch & Hno). split; try done.
  - intros i u ps Hi. by destruct (Hno _ _ _ Hi).
  - intros u x e Hn Hrow. destruct (H5 _ _ _ Hn Hrow) as (ver & at_ & ps & Hps & Hx & Hk & Hver & Hag).
    exists ver, at_, ps. rewrite (Forall_forall _ _rbac_domains) in Hle. rewrite (Forall_forall _ _rbac_domains) in Hver. split_and!; [done|done|done| |].
    + apply Forall_forall. intros d Hd. etrans; [by apply Hver|by apply Hle].
    + unfold agrees. rewrite Forall_forall. cbn [with_database versions database]. intros Heq. destruct Hch as [->|(d & Hd & Hlt)%Exists_exists].
      * apply Hag. unfold agrees. rewrite Forall_forall. intros d Hd. specialize (Hver d Hd). specialize (Hle d Hd). specialize (Heq d Hd). lia.
      * specialize (Hver d Hd). specialize (Heq d Hd). lia.
Qed.

Lemma current_store tn w u tn' ps now at_ r s c :
  has_versions = true → (request_ttl <= 0)%Z → current tn w → named u tn' →
  (tn' = tn → ∃ n, computes (database w) n u tn = Ok ps) →
  set model_dump has_versions request_ttl now (versions w) u tn' at_ ps (stored w) (in_memory w) = (r, s, c) →
  current tn (with_caches s c w).
Proof using by_action_permutes.
  intros Hh Ht [H0 H1 H2 H3 H4 H5] Hn Hc. unfold set, write. rewrite H1.
  assert (∀ k, _request_cache_put request_ttl now k ps ∅ = ∅) as Hput.
  { intros k. unfold _request_cache_put. by rewrite (proj2 (Z.leb_le _ _) Ht). }
  destruct (available (stored w)); [|intros [= <- <- <-]; by split].
  destruct (Json.dumps _); intros [= <- <- <-]; [|by split]. split; try done; [by cbn; rewrite Hput|].
  cbn. intros u' x e Hn'. destruct (decide (_make_key u tn' = _make_key u' tn)) as [E|Hne].
  - rewrite E, lookup_insert_eq. destruct (key_is_of_one _ _ _ _ Hn Hn' E) as [<- <-]. intros [= <- <-].
    destruct (Hc eq_refl) as (n & Hps). exists (versions w), at_, ps. split_and!; [by eapply computed_storable|done|done|by apply Forall_forall|].
    intros _. by exists n.
  - rewrite lookup_insert_ne by done. by apply H5.
Qed.

Lemma current_step tn w e w' a :
  has_versions = true → (request_ttl <= 0)%Z → lawful tn w e → current tn w → happens w e = Some (w', a) → current tn w'.
Proof using by_action_permutes.
  intros Hh Ht Hl HK. pose proof HK as [H0 H1 H2 H3 H4 H5].
  assert (∀ i j r, base.delete i (running w) !! j = Some r → running w !! j = Some r) as Hdel by by intros i j r [_ H]%lookup_delete_Some.
  destruct e as [t v|i u tn' now|i now|i now at_|u tn'| |]; cbn [step].
  - intros [= <- <-]. by apply current_changes.
  - destruct (running w !! i) as [|] eqn:Ei; [done|].
    destruct (get _ _ _ _ _ _ _ _ _) as [r c] eqn:Eg. destruct (get_cases _ _ _ _ _ _ _ _ Eg) as [Hc _].
    assert (c = ∅) as ->.
    { apply map_empty. intros k. destruct (c !! k) as [x|] eqn:Ex; [|done].
      destruct (Hc _ _ Ex) as [Hx|(? & _ & _ & Hp & _)]; [by rewrite H1, lookup_empty in Hx|lia]. }
    destruct r as [[ps|]|e]; intros [= <- <-]; try (by apply current_caches). apply current_running; [by apply current_caches| |].
    + intros j r. destruct (decide (i = j)) as [<-|]; [rewrite lookup_insert_eq; by intros [= <-]|rewrite lookup_insert_ne by done; apply H3].
    + intros j u' ps. destruct (decide (i = j)) as [<-|]; [by rewrite lookup_insert_eq|rewrite lookup_insert_ne by done; apply H4].
  - destruct (running w !! i) as [[u tn' []]|] eqn:Ei; try done.
    destruct (computes (database w) now u tn') as [ps|e] eqn:Ec; intros [= <- <-]; apply current_running; try done.
    + intros j r. destruct (decide (i = j)) as [<-|]; [rewrite lookup_insert_eq; intros [= <-]; by apply (H3 _ _ Ei)|].
      rewrite lookup_insert_ne by done. apply H3.
    + intros j u' ps'. destruct (decide (i = j)) as [<-|]; [rewrite lookup_insert_eq; intros [= <- -> <-]; by exists now|].
      rewrite lookup_insert_ne by done. apply H4.
    + intros j r ?%Hdel. by eapply H3.
    + intros j u' ps' ?%Hdel. by eapply H4.
  - destruct (running w !! i) as [[u tn' [|ps]]|] eqn:Ei; try done.
    destruct (set _ _ _ _ _ _ _ _ _ _ _) as [[r s] c] eqn:Es. intros [= <- <-]. apply current_running.
    + eapply current_store; [done|done|done|by apply (H3 _ _ Ei)| |done]. cbn. intros ->. by eapply H4.
    + intros j r' ?%Hdel. by eapply H3.
    + intros j u' ps' ?%Hdel. by eapply H4.
  - unfold invalidate_user, table_delete. rewrite H1, delete_empty.
    destruct (available (stored w)); intros [= <- <-]; apply current_caches; try done; cbn; by intros k x [_ ?]%lookup_delete_Some.
  - unfold invalidate_all, table_delete_pattern.
    destruct (available (stored w)); intros [= <- <-]; apply current_caches; try done; cbn; by intros k x [? _]%map_lookup_filter_Some.
  - intros [= <- <-]. by apply current_caches.
Qed.

(** Nothing that changed is answered.  With the extension that counts versions, and the
    dictionary switched off: if every change of the tables moves a version the tenant looks
    at, and none comes between a computation and its store, then what the cache answers at
    any time is what the tables say as they are, but for assignments that expired. *)
Theorem versions_keep_answers_current tn w0 l w i u now ps w' :
  has_versions = true → (request_ttl <= 0)%Z → starts w0 → known tn (versions w0) → named u tn →
  lawfully tn w0 l → history w0 l = Some w →
  happens w (Asks i u tn now) = Some (w', Some (Ok ps)) → ∃ n, computes (database w) n u tn = Ok ps.
Proof using validates by_action_permutes.
  intros Hh Ht (Hr0 & Hm0 & Hi0 & Hst0) Hk Hn Hl Hr Hs. assert (current tn w0) as HK0.
  { split; [done|done|done| | |]; intros *; by rewrite ?Hi0, ?Hr0, lookup_empty. }
  assert (current tn w) as HK.
  { clear Hs Hr0 Hm0 Hi0 Hst0 Hk. revert w0 Hl Hr HK0. induction l as [|e l IH]; intros w0 Hl; cbn; [by intros [= <-]|].
    destruct Hl as [He Hl]. destruct (happens w0 e) as [[w1 a]|] eqn:Es; [|done]. intros Hr HK0. eapply IH; [done|done|].
    by eapply current_step. }
  pose proof HK as [_ H1 H2 H3 H4 H5]. revert Hs. cbn. destruct (running w !! i); [done|].
  destruct (get _ _ _ _ _ _ _ _ _) as [r c] eqn:Eg. destruct (get_cases _ _ _ _ _ _ _ _ Eg) as [_ Ha].
  destruct r as [[ps'|]|e]; intros [= <- <-].
  destruct (Ha _ eq_refl) as [(d & Hd & _)|(found & cv & Hg & Hf & Hst & Hv)]; [by rewrite H1, lookup_empty in Hd|].
  destruct (table_row _ _ _ _ _ Hg Hf) as (x & e & Hrow). destruct (H5 _ _ _ Hn Hrow) as (ver & at_ & ps2 & Hps & -> & Hkv & _ & Hag).
  destruct (found_entry _ _ _ _ _ _ _ _ _ _ Hps Hrow Hg Hf) as (_ & Hv' & Hcv). rewrite Hv in Hv'. injection Hv' as <-.
  apply Hag, not_stale; [done|]. rewrite Hh in Hst, Hcv. rewrite bool_decide_eq_false_2 in Hcv by by apply known_versions.
  cbn [negb andb] in Hcv. by rewrite <- Hcv.
Qed.
End cache.

(** ** A company *)
Definition role (id name : string) (parent : option string) : Role :=
  {| role_id := id; role_name := name; role_description := None; parent_role_id := parent; role_tenant_id := None; is_system := true |}.

Definition permission (id resource action : string) : Permission :=
  {| permission_id := id; resource := resource; action := action; permission_description := None; constraints := None |}.

Definition grant (r p : string) (b : bool) : RolePermission := {| rp_role_id := r; rp_permission_id := p; granted := b |}.

Definition assign (u r : string) : UserRole := {| ur_user_id := u; ur_role_id := r; ur_tenant_id := None; expires_at := None |}.

Definition read_users : Permission := permission "p1" "user" "read".
Definition create_users : Permission := permission "p2" "user" "create".

Definition company : tables :=
  {| roles := [role "3" "manager" (Some "4"); role "4" "user" (Some "5"); role "5" "viewer" None];
     permissions := [create_users; read_users];
     role_permissions := [grant "5" "p1" true; grant "3" "p2" true];
     user_roles := [assign "ada" "3"; assign "bob" "5"] |}.

(** After bob lost his role. *)
Definition without_bob : tables :=
  {| roles := roles company; permissions := permissions company; role_permissions := role_permissions company; user_roles := [assign "ada" "3"] |}.

Lemma company_is_keyed : keyed company.
Proof.
  split; [apply (bool_decide_unpack _); by vm_compute|]. intros r p Hr Hp. cbn in Hr.
  repeat (apply elem_of_cons in Hr as [->|Hr]; [injection Hp as <- || done; apply (bool_decide_unpack _); by vm_compute|]).
  by apply elem_of_nil in Hr.
Qed.


(** A plain dump and its validation. *)
Definition optional {A} (f : A → pyval) (o : option A) : pyval := match o with Some x => f x | None => PNone end.

Definition dump (p : Permission) : pyval :=
  PDict [("id", PStr (permission_id p)); ("resource", PStr (resource p)); ("action", PStr (action p));
         ("description", optional PStr (permission_description p)); ("constraints", optional PDict (constraints p))].

Definition validate (v : pyval) : result Permission :=
  match v with
  | PDict [("id", PStr i); ("resource", PStr r); ("action", PStr a); ("description", d); ("constraints", c)] =>
      match d, c with
      | (PNone | PStr _), (PNone | PDict _) =>
          Ok {| permission_id := i; resource := r; action := a;
                permission_description := match d with PStr s => Some s | _ => None end;
                constraints := match c with PDict cs => Some cs | _ => None end |}
      | _, _ => raise ValueError
      end
  | _ => raise ValueError
  end.

Lemma dump_validates p : storable p → validate (as_json (dump p)) = Ok p.
Proof.
  unfold storable. destruct p as [i r a d [cs|]]; cbn [constraints].
  - intros E. cbn in E. injection E as E. cbn. rewrite E. by destruct d.
  - by destruct d.
Qed.

Definition empty_world (t : tables) (v : gmap (string * string) Z) : world :=
  {| database := t; versions := v; stored := {| rows := ∅; available := true |}; in_memory := ∅; running := ∅ |}.

Abbreviation acts := (step (λ l, l) (λ l, l) dump validate).
Abbreviation does := (run (λ l, l) (λ l, l) dump validate).

(** What a request is answered at the end of a history. *)
Definition asked (has_versions : bool) (ttl : Z) (w : world) (l : list event) (user_id : string) (now : Z) : option answer :=
  w ← does has_versions ttl w l; wa ← acts has_versions ttl w (Asks 99 user_id None now); Some (wa.2).

Definition bob_asks : list event := [Asks 0 "bob" None 0; Computes 0 1; Stores 0 2 "2026-01-01 00:00:00"].

Lemma company_is_storable : Forall storable (permissions company).
Proof. by repeat constructor. Qed.


Definition one_version (n : Z) : gmap (string * string) Z := {[("global", "user_role") := n]}.

(** With versions he is not. *)
Lemma versions_keep_answers_current_witness :
  ∃ n, _compute_permissions (λ l, l) (λ l, l) company n "bob" None = Ok [read_users].
Proof.
  destruct (does true 0 (empty_world without_bob (one_version 1)) (Changes company (one_version 2) :: bob_asks)) as [w|] eqn:Ew; [|by vm_compute in Ew].
  destruct (acts true 0 w (Asks 99 "bob" None second)) as [[w' a]|] eqn:Ea; [|by vm_compute in Ew; injection Ew as <-; vm_compute in Ea].
  assert (database w = company ∧ a = Some (Ok [read_users])) as [<- ->].
  { vm_compute in Ew. injection Ew as <-. vm_compute in Ea. by injection Ea as <- <-. }
  refine (versions_keep_answers_current (λ l, l) (λ l, l) dump validate true 0 dump_validates _ None (empty_world without_bob (one_version 1))
    (Changes company (one_version 2) :: bob_asks) w 99 "bob" second [read_users] w' eq_refl _ _ _ _ _ Ew Ea).
  - done.
  - lia.
  - split_and!; [done|done|done|apply company_is_storable].
  - apply Exists_exists. exists "user_role". split; [apply (bool_decide_unpack _); by vm_compute|by eexists].
  - by split.
  - split.
    + split_and!; [apply company_is_storable| | | |].
      * repeat constructor; by vm_compute.
      * apply Exists_exists. exists "user_role". split; [apply (bool_decide_unpack _); by vm_compute|by eexists].
      * right. apply Exists_exists. exists "user_role". split; [apply (bool_decide_unpack _); by vm_compute|by vm_compute].
      * intros i u ps Hx. cbn in Hx. by rewrite lookup_empty in Hx.
    + vm_compute. repeat split.
Defined.

(** *** What is not as it is meant *)

(** Roles above each other in a circle are taken for a valid hierarchy, while ten levels of
    inheritance are taken for a circle. *)
Definition circle : tables :=
  {| roles := [role "1" "a" (Some "2"); role "2" "b" (Some "1")]; permissions := []; role_permissions := []; user_roles := [] |}.

Definition tower : tables :=
  {| roles := [role "a" "a" (Some "b"); role "b" "b" (Some "c"); role "c" "c" (Some "d"); role "d" "d" (Some "e");
               role "e" "e" (Some "f"); role "f" "f" (Some "g"); role "g" "g" (Some "h"); role "h" "h" (Some "i");
               role "i" "i" (Some "j"); role "j" "j" (Some "k"); role "k" "k" None];
     permissions := []; role_permissions := []; user_roles := [] |}.

Example circles_and_towers :
  validate_hierarchy (λ l, l) circle "1" = true ∧ validate_hierarchy (λ l, l) tower "a" = false ∧
  validate_hierarchy (λ l, l) tower "b" = true ∧ get_hierarchy_depth tower "a" = 10%nat.
Proof. by vm_compute. Qed.

(** A permission that is explicitly not granted to a role is had from the role above. *)
Example a_denial_is_not_heard :
  _compute_permissions (λ l, l) (λ l, l)
    {| roles := roles company; permissions := permissions company; role_permissions := [grant "5" "p1" true; grant "4" "p1" false];
       user_roles := [assign "eve" "4"] |} 0 "eve" None = Ok [read_users].
Proof. by vm_compute. Qed.

(** What was stored before the tenant had a version is answered after the first change. *)
Example the_first_change_is_not_seen :
  asked true 0 (empty_world company ∅) (bob_asks ++ [Changes without_bob (one_version 1)]) "bob" second = Some (Some (Ok [read_users])) ∧
  asked true 0 (empty_world company (one_version 1)) (bob_asks ++ [Changes without_bob (one_version 2)]) "bob" second = Some None.
Proof. by vm_compute. Qed.

(** The versions are read when the permissions are stored: what changes before is not seen. *)
Example a_change_before_the_store_is_not_seen :
  asked true 0 (empty_world company (one_version 1))
    [Asks 0 "bob" None 0; Computes 0 1; Changes without_bob (one_version 2); Stores 0 2 "2026-01-01 00:00:00"] "bob" second
  = Some (Some (Ok [read_users])).
Proof. by vm_compute. Qed.

(** What guards a field: a permission with its constraints. *)
Example guarded_fields :
  let own := {| permission_id := "p3"; resource := "user"; action := "update"; permission_description := None;
                constraints := Some [("own_data_only", PBool true); ("max_records", PInt 10)] |} in
  let guarded kwargs := requires_permission "user" "update" true (λ _ _, Ok [own]) [("user_id", PUUID "ada")] kwargs in
  map guarded [[("id", PStr "ada"); ("limit", PInt 5)]; [("id", PStr "bob"); ("limit", PInt 5)]; [("id", PStr "ada")]; [("limit", PNone)]]
  = [Ok true; Ok false; Ok false; raise TypeError].
Proof. by vm_compute. Qed.
