(* ===== verification/WeightedTurbo.v ===== *)
(** * The registry of persisted queries with weights ([fastapi/turbo_enhanced.py], and of
    [analysis/complexity_config.py] the weight of a score)

    [EnhancedTurboRegistry] keeps a weight for each query and makes room by evicting the
    query that scores lowest.  What the analysis scores a text is a parameter, as are the two
    hashes; a clock reading is in seconds, and weights and times are exact where the program
    computes with floats. *)
From stdpp Require Import base decidable strings list.
From Stdlib Require Import ZArith QArith Qminmax Lqa Lia Ascii.
From S2P Require Import Prelude PyVal Turbo.

Local Open Scope Q_scope.
Local Open Scope py_scope.

(** ** Weights *)

Record ComplexityConfig := {
  simple_query_threshold : Z;
  moderate_query_threshold : Z;
  complex_query_threshold : Z;
  simple_query_weight : Q;
  moderate_query_weight : Q;
  complex_query_weight : Q
}.

Definition default_config : ComplexityConfig :=
  {| simple_query_threshold := 10; moderate_query_threshold := 50; complex_query_threshold := 200;
     simple_query_weight := 1 # 10; moderate_query_weight := 1 # 2; complex_query_weight := 2 |}.

Definition get_cache_weight (c : ComplexityConfig) (total_score : Z) : Q :=
  if (total_score <? simple_query_threshold c)%Z then simple_query_weight c
  else if (total_score <? moderate_query_threshold c)%Z then moderate_query_weight c
  else if (total_score <? complex_query_threshold c)%Z then complex_query_weight c
  else complex_query_weight c * (inject_Z total_score / inject_Z (complex_query_threshold c)).

(** ** Queries with their statistics *)

Record EnhancedTurboQuery := {
  turbo : turbo_query;
  complexity_score : Z;
  cache_weight : Q;
  hit_count : Z;
  last_accessed : Q;
  avg_execution_time : Q
}.

Definition update_stats (now execution_time : Q) (q : EnhancedTurboQuery) : EnhancedTurboQuery :=
  {| turbo := turbo q; complexity_score := complexity_score q; cache_weight := cache_weight q; hit_count := hit_count q + 1;
     last_accessed := now;
     avg_execution_time := if Qeq_bool (avg_execution_time q) 0 then execution_time
                           else (8 # 10) * avg_execution_time q + (2 # 10) * execution_time |}.

Definition cache_score (now : Q) (q : EnhancedTurboQuery) : Q :=
  let frequency_score := Qmin (inject_Z (hit_count q) / 100) 1 in
  let complexity_factor := 1 / (1 + cache_weight q) in
  let time_savings := Qmin (avg_execution_time q * 1000) 1 in
  let recency := 1 / (1 + (now - last_accessed q) / 3600) in
  frequency_score * complexity_factor * time_savings * recency.

(** ** The registry *)

(** What is under a hash: a query with a weight, or one that the methods of the base class
    put there. *)
Inductive entry := Plain (q : turbo_query) | Enhanced (q : EnhancedTurboQuery).

Record metrics := {
  total_queries_analyzed : Z;
  queries_rejected_complexity : Z;
  queries_evicted_weight : Z;
  cache_hits : Z;
  cache_misses : Z
}.

Record registry := {
  max_size : nat;
  max_complexity : Z;
  max_total_weight : Q;
  queries : list (string * entry);
  apollo : list (string * string);
  _total_weight : Q;
  _metrics : metrics
}.

Definition new_registry (max_size : nat) (max_complexity : option Z) (max_total_weight : Q) (c : ComplexityConfig) : registry :=
  {| max_size := max_size;
     max_complexity := match max_complexity with Some n => if (n =? 0)%Z then complex_query_threshold c else n | None => complex_query_threshold c end;
     max_total_weight := max_total_weight; queries := []; apollo := []; _total_weight := 0;
     _metrics := {| total_queries_analyzed := 0; queries_rejected_complexity := 0; queries_evicted_weight := 0; cache_hits := 0; cache_misses := 0 |} |}.

Definition with_queries (l : list (string * entry)) (r : registry) : registry :=
  {| max_size := max_size r; max_complexity := max_complexity r; max_total_weight := max_total_weight r; queries := l;
     apollo := apollo r; _total_weight := _total_weight r; _metrics := _metrics r |}.

Definition with_apollo (a : list (string * string)) (r : registry) : registry :=
  {| max_size := max_size r; max_complexity := max_complexity r; max_total_weight := max_total_weight r; queries := queries r;
     apollo := a; _total_weight := _total_weight r; _metrics := _metrics r |}.

Definition with_weight (w : Q) (r : registry) : registry :=
  {| max_size := max_size r; max_complexity := max_complexity r; max_total_weight := max_total_weight r; queries := queries r;
     apollo := apollo r; _total_weight := w; _metrics := _metrics r |}.

Definition counted (f : metrics → metrics) (r : registry) : registry :=
  {| max_size := max_size r; max_complexity := max_complexity r; max_total_weight := max_total_weight r; queries := queries r;
     apollo := apollo r; _total_weight := _total_weight r; _metrics := f (_metrics r) |}.

Definition one_analyzed (m : metrics) : metrics :=
  {| total_queries_analyzed := total_queries_analyzed m + 1; queries_rejected_complexity := queries_rejected_complexity m;
     queries_evicted_weight := queries_evicted_weight m; cache_hits := cache_hits m; cache_misses := cache_misses m |}.

Definition one_rejected (m : metrics) : metrics :=
  {| total_queries_analyzed := total_queries_analyzed m; queries_rejected_complexity := queries_rejected_complexity m + 1;
     queries_evicted_weight := queries_evicted_weight m; cache_hits := cache_hits m; cache_misses := cache_misses m |}.

Definition one_evicted (m : metrics) : metrics :=
  {| total_queries_analyzed := total_queries_analyzed m; queries_rejected_complexity := queries_rejected_complexity m;
     queries_evicted_weight := queries_evicted_weight m + 1; cache_hits := cache_hits m; cache_misses := cache_misses m |}.

Definition one_hit (m : metrics) : metrics :=
  {| total_queries_analyzed := total_queries_analyzed m; queries_rejected_complexity := queries_rejected_complexity m;
     queries_evicted_weight := queries_evicted_weight m; cache_hits := cache_hits m + 1; cache_misses := cache_misses m |}.

Definition one_miss (m : metrics) : metrics :=
  {| total_queries_analyzed := total_queries_analyzed m; queries_rejected_complexity := queries_rejected_complexity m;
     queries_evicted_weight := queries_evicted_weight m; cache_hits := cache_hits m; cache_misses := cache_misses m + 1 |}.

(** *** Making room *)

(** The first query with the lowest score so far. *)
Fixpoint lowest (now : Q) (best : option (string * Q)) (l : list (string * entry)) : option string :=
  match l with
  | [] => fst <$> best
  | (_, Plain _) :: l => lowest now best l
  | (k, Enhanced q) :: l =>
      let score := cache_score now q in
      match best with
      | Some (_, s) => if Qle_bool s score then lowest now best l else lowest now (Some (k, score)) l
      | None => lowest now (Some (k, score)) l
      end
  end.

Definition _evict_lowest_priority (now : Q) (r : registry) : registry :=
  match queries r with
  | [] => r
  | (first, _) :: _ =>
      let min_key := default first (lowest now None (queries r)) in
      let evicted := dict_get min_key (queries r) in
      let r := with_queries (remove_key min_key (queries r)) r in
      let r := match evicted with Some (Enhanced q) => with_weight (_total_weight r - cache_weight q) r | _ => r end in
      counted one_evicted r
  end.

(** The two loops: each round evicts one, so there are as many rounds as queries at most. *)
Fixpoint evict_by_weight (rounds : nat) (now new_weight : Q) (r : registry) : registry :=
  match rounds with
  | O => r
  | S rounds =>
      match queries r with
      | _ :: _ => if Qle_bool (_total_weight r + new_weight) (max_total_weight r) then r
                  else evict_by_weight rounds now new_weight (_evict_lowest_priority now r)
      | [] => r
      end
  end.

Fixpoint evict_by_count (rounds : nat) (now : Q) (r : registry) : registry :=
  match rounds with
  | O => r
  | S rounds =>
      match queries r with
      | _ :: _ => if (max_size r <=? length (queries r))%nat then evict_by_count rounds now (_evict_lowest_priority now r) else r
      | [] => r
      end
  end.

Definition _evict_if_needed (now new_weight : Q) (r : registry) : registry :=
  let r := evict_by_weight (length (queries r)) now new_weight r in
  evict_by_count (length (queries r)) now r.

Section registry_ops.
(** The score of a text under the default configuration. *)
Context (hash_query hash_query_raw : string → string) (total_score : string → Z).

Definition weight_of (query : string) : Q := get_cache_weight default_config (total_score query).

Definition should_cache (query : string) (r : registry) : bool * registry :=
  if (total_score query <=? max_complexity r)%Z then (true, r) else (false, counted one_rejected r).

(** What is registered is made anew from four of the fields of a plain query. *)
Definition enhanced (now : Q) (e : entry) : EnhancedTurboQuery :=
  match e with
  | Plain q =>
      {| turbo := {| graphql_query := graphql_query q; sql_template := sql_template q; param_mapping := param_mapping q;
                     operation_name := operation_name q; apollo_client_hash := None; context_params := None |};
         complexity_score := total_score (graphql_query q); cache_weight := weight_of (graphql_query q); hit_count := 0;
         last_accessed := now; avg_execution_time := 0 |}
  | Enhanced q =>
      {| turbo := turbo q; complexity_score := total_score (graphql_query (turbo q)); cache_weight := weight_of (graphql_query (turbo q));
         hit_count := hit_count q; last_accessed := last_accessed q; avg_execution_time := avg_execution_time q |}
  end.

Definition text (e : entry) : string := graphql_query match e with Plain q => q | Enhanced q => turbo q end.

(** [None] for a query that is rejected; a plain query under the hash has no weight. *)
Definition register (now : Q) (e : entry) (r : registry) : result (option string) * registry :=
  let r := counted one_analyzed r in
  match should_cache (text e) r with
  | (false, r) => (Ok None, r)
  | (true, r) =>
      let q := enhanced now e in
      let h := hash_query (text e) in
      let r := if dict_has h (queries r) then r else _evict_if_needed now (cache_weight q) r in
      match dict_get h (queries r) with
      | Some (Plain _) => (raise AttributeError, r)
      | Some (Enhanced old) =>
          (Ok (Some h),
           with_weight (_total_weight r - cache_weight old + cache_weight q)
             (with_queries (remove_key h (queries r) ++ [(h, Enhanced q)]) r))
      | None => (Ok (Some h), with_weight (_total_weight r + cache_weight q) (with_queries (queries r ++ [(h, Enhanced q)]) r))
      end
  end.

(** *** Of the base class *)

Definition found_under (h : string) (r : registry) : option entry * registry :=
  match dict_get h (queries r) with
  | Some e => (Some e, with_queries (remove_key h (queries r) ++ [(h, e)]) r)
  | None => (None, r)
  end.

Definition found_apollo (h : string) (r : registry) : option entry * registry :=
  match dict_get h (apollo r) with Some primary => found_under primary r | None => (None, r) end.

Definition then_ (first second : registry → option entry * registry) (r : registry) : option entry * registry :=
  match first r with (Some e, r) => (Some e, r) | (None, _) => second r end.

Definition super_get (query : string) : registry → option entry * registry :=
  then_ (found_under (hash_query query)) (then_ (found_under (hash_query_raw query))
    (then_ (found_apollo (hash_query query)) (found_apollo (hash_query_raw query)))).

Definition get (query : string) (r : registry) : option EnhancedTurboQuery * registry :=
  match super_get query r with
  | (Some (Enhanced q), r) => (Some q, counted one_hit r)
  | (Some (Plain _), r) => (None, counted one_hit r)
  | (None, r) => (None, counted one_miss r)
  end.

Definition register_with_raw_hash (q : turbo_query) (raw_hash : string) (r : registry) : registry :=
  let r :=
    match dict_get raw_hash (queries r) with
    | Some e => with_queries (remove_key raw_hash (queries r) ++ [(raw_hash, e)]) r
    | None =>
        let r := with_queries (queries r ++ [(raw_hash, Plain q)]) r in
        if (max_size r <? length (queries r))%nat then
          match queries r with
          | (_, evicted) :: rest =>
              let r := with_queries rest r in
              match apollo_client_hash match evicted with Plain q => q | Enhanced q => turbo q end with
              | Some (String _ _ as a) => with_apollo (remove_key a (apollo r)) r
              | _ => r
              end
          | [] => r
          end
        else r
    end in
  match apollo_client_hash q with
  | Some (String _ _ as a) => if a =s raw_hash then r else with_apollo (dict_set a raw_hash (apollo r)) r
  | _ => r
  end.

Definition clear (r : registry) : registry := with_apollo [] (with_queries [] r).

(** [EnhancedTurboRouter.execute], as far as the registry: the query is looked up here and once
    more by the base class, and what was found, which is last now, has its statistics updated
    when there is a result. *)
Definition executed (query : string) (now execution_time : Q) (has_result : bool) (r : registry) : registry :=
  match get query r with
  | (Some _, r) =>
      match get query r with
      | (Some q, r) =>
          if has_result then
            match rev (queries r) with
            | (h, _) :: others => with_queries (rev others ++ [(h, Enhanced (update_stats now execution_time q))]) r
            | [] => r
            end
          else r
      | (None, r) => r
      end
  | (None, r) => r
  end.
End registry_ops.

(** * Laws: The weights of the registry ([fastapi/turbo_enhanced.py])

    Whatever is called, the registry holds as many queries and as much weight as it may. *)

(** ** Sums of weights *)

Definition weight (e : entry) : Q := match e with Enhanced q => cache_weight q | Plain _ => 0 end.

Fixpoint weights (l : list (string * entry)) : Q := match l with [] => 0 | kv :: l => weight kv.2 + weights l end.

Definition is_enhanced (e : entry) : bool := match e with Enhanced _ => true | Plain _ => false end.

(** The queries that have a weight. *)
Definition weighted (l : list (string * entry)) : list (string * entry) := List.filter (λ kv, is_enhanced kv.2) l.

Lemma weights_perm l l' : l ≡ₚ l' → weights l == weights l'.
Proof. induction 1; cbn; [done|lra|lra|]. by etrans. Qed.

Lemma weights_app l l' : weights (l ++ l') == weights l + weights l'.
Proof. induction l as [|kv l IH]; cbn; [lra|]. rewrite IH. lra. Qed.

Lemma weighted_perm l l' : l ≡ₚ l' → weighted l ≡ₚ weighted l'.
Proof.
  unfold weighted. induction 1 as [|x l l' _ IH|x y l|l l' l'' _ IH1 _ IH2]; cbn; [done| | |by etrans].
  - destruct (is_enhanced x.2); [by rewrite IH|done].
  - destruct (is_enhanced x.2), (is_enhanced y.2); try done. apply Permutation_swap.
Qed.

Lemma same_text (s : string) : (s =s s) = true.
Proof. by apply bool_decide_eq_true_2. Qed.

Lemma other_text (s t : string) : s ≠ t → (s =s t) = false.
Proof. by apply bool_decide_eq_false_2. Qed.

Lemma key_entry (h : string) (l : list (string * entry)) e :
  NoDup l.*1 → dict_get h l = Some e → (h, e) :: remove_key h l ≡ₚ l.
Proof.
  unfold remove_key. induction l as [|[k x] l IH]; [done|]. cbn. intros [Hk Hnd]%NoDup_cons. case_decide as E.
  - subst k. intros [= ->]. rewrite same_text. cbn. constructor.
    assert (∀ l' : list (string * entry), h ∉ l'.*1 → List.filter (λ kv, negb (kv.1 =s h)) l' = l') as Hf; [|by rewrite Hf].
    clear. induction l' as [|[k x] l' IH]; [done|]. cbn. intros [Hne Hin]%not_elem_of_cons. rewrite other_text by done. cbn. by rewrite IH.
  - intros He. rewrite other_text by done. cbn. rewrite Permutation_swap. constructor. by apply IH.
Qed.

Lemma no_entry (h : string) (l : list (string * entry)) : dict_get h l = None ↔ h ∉ l.*1.
Proof.
  induction l as [|[k x] l IH]; cbn; [split; [intros _; apply not_elem_of_nil|done]|]. rewrite not_elem_of_cons.
  case_decide as E; [split; [done|by intros []]|]. rewrite IH. tauto.
Qed.

Section registry.
Context (hash_query hash_query_raw : string → string) (total_score : string → Z).
(** Texts with the same hash have the same score. *)
Context (same_score : ∀ a b, hash_query a = hash_query b → total_score a = total_score b).

Abbreviation weight_of := (weight_of total_score).

Lemma weight_positive query : 0 < weight_of query.
Proof.
  unfold WeightedTurbo.weight_of, get_cache_weight. cbn. destruct (_ <? 10)%Z; [lra|]. destruct (_ <? 50)%Z; [lra|].
  destruct (_ <? 200)%Z eqn:E; [lra|]. apply Z.ltb_ge in E.
  assert (200 <= inject_Z (total_score query)) as E' by (change 200 with (inject_Z 200); by rewrite <- Zle_Qle).
  assert (0 < inject_Z (total_score query) / 200) as H by (apply Qlt_shift_div_l; lra). change (inject_Z 200) with 200. lra.
Qed.

(** ** What every call keeps *)

(** How much of the counted weight is of no query. *)
Definition slack (r : registry) : Q := _total_weight r - weights (queries r).

Definition true_weights (l : list (string * entry)) : Prop :=
  ∀ h q, (h, Enhanced q) ∈ l → h = hash_query (graphql_query (turbo q)) ∧ cache_weight q = weight_of (graphql_query (turbo q)).

(** Hashes are distinct and weights are those of the texts. *)
Record sound (r : registry) : Prop := {
  hashes_are_distinct : NoDup (queries r).*1;
  weights_are_true : true_weights (queries r)
}.

Lemma true_weights_sub l l' : (∀ x, x ∈ l' → x ∈ l) → true_weights l → true_weights l'.
Proof. intros Hs Ht h q Hin. by apply Ht, Hs. Qed.

Lemma weights_not_negative l : true_weights l → 0 <= weights l.
Proof.
  induction l as [|[h [q|q]] l IH]; intros Ht; cbn; [lra| |].
  - assert (0 <= weights l); [|lra]. apply IH. eapply true_weights_sub; [|done]. intros x Hx. by right.
  - destruct (Ht h q) as [_ ->]; [by left|]. pose proof (weight_positive (graphql_query (turbo q))).
    assert (0 <= weights l); [|lra]. apply IH. eapply true_weights_sub; [|done]. intros x Hx. by right.
Qed.

(** The same queries in another order. *)
Lemma sound_perm r l : sound r → l ≡ₚ queries r → sound (with_queries l r) ∧ slack (with_queries l r) == slack r.
Proof.
  intros [Hd Ht] Hp. split; [split; cbn|].
  - by rewrite Hp.
  - eapply true_weights_sub; [|done]. intros x. by rewrite Hp.
  - unfold slack. cbn. by rewrite (weights_perm _ _ Hp).
Qed.

Lemma to_end (h : string) (e : entry) (l : list (string * entry)) :
  NoDup l.*1 → dict_get h l = Some e → remove_key h l ++ [(h, e)] ≡ₚ l.
Proof. intros Hd He. rewrite Permutation_app_comm. by apply key_entry. Qed.

(** Without one of them. *)
Lemma without_one (h : string) (e : entry) (l : list (string * entry)) :
  NoDup l.*1 → dict_get h l = Some e →
  weights l == weight e + weights (remove_key h l) ∧ NoDup (remove_key h l).*1 ∧ S (length (remove_key h l)) = length l ∧
  h ∉ (remove_key h l).*1.
Proof.
  intros Hd He. pose proof (key_entry h l e Hd He) as Hp. rewrite <- (weights_perm _ _ Hp). split; [done|].
  pose proof Hd as Hd'. rewrite <- Hp in Hd'. apply NoDup_cons in Hd' as [Hn Hd']. split; [done|].
  split; [|done]. by apply Permutation_length in Hp.
Qed.

(** *** Eviction *)

Lemma lowest_is_there now best l k :
  (∀ k' s, best = Some (k', s) → k' ∈ l.*1 ∨ True) → lowest now best l = Some k → (∃ s, best = Some (k, s)) ∨ k ∈ l.*1.
Proof.
  intros _. revert best. induction l as [|[k' [q|q]] l IH]; intros best; cbn.
  - destruct best as [[k' s]|]; [|done]. intros [= <-]. left. by exists s.
  - intros [?|Hin]%IH; [by left|]. right. by right.
  - destruct best as [[k0 s]|].
    + destruct (Qle_bool s _); intros [(s' & E)|Hin]%IH; try (right; by right); [left; by exists s'|].
      injection E as -> _. right. by left.
    + intros [(s' & E)|Hin]%IH; [injection E as -> _; right; by left|right; by right].
Qed.

Definition min_key (now : Q) (r : registry) : string := default (default EmptyString (head (queries r).*1)) (lowest now None (queries r)).

Lemma min_key_there now r : queries r ≠ [] → min_key now r ∈ (queries r).*1.
Proof.
  unfold min_key. intros Hne. destruct (lowest now None (queries r)) as [k|] eqn:E; cbn.
  - apply lowest_is_there in E as [(s & ?)|Hin]; [done|done|by right].
  - destruct (queries r) as [|[k e] l]; [done|]. cbn. by left.
Qed.

Lemma evict_one now r :
  queries r ≠ [] → sound r →
  sound (_evict_lowest_priority now r) ∧ slack (_evict_lowest_priority now r) == slack r ∧
  S (length (queries (_evict_lowest_priority now r))) = length (queries r) ∧
  (∀ x, x ∈ queries (_evict_lowest_priority now r) → x ∈ queries r) ∧
  _total_weight (_evict_lowest_priority now r) <= _total_weight r ∧
  max_size (_evict_lowest_priority now r) = max_size r ∧ max_total_weight (_evict_lowest_priority now r) = max_total_weight r.
Proof.
  intros Hne [Hd Ht]. pose proof (min_key_there now r Hne) as Hk.
  destruct (dict_get (min_key now r) (queries r)) as [e|] eqn:Ee; [|by apply no_entry in Ee].
  destruct (without_one _ _ _ Hd Ee) as (Hw & Hd' & Hl & _).
  unfold _evict_lowest_priority. destruct (queries r) as [|[k0 e0] l0] eqn:Eq; [done|].
  assert (default k0 (lowest now None ((k0, e0) :: l0)) = min_key now r) as Ek by (unfold min_key; by rewrite Eq).
  rewrite Ek, Ee. cbv zeta.
  assert (true_weights (remove_key (min_key now r) ((k0, e0) :: l0))) as Ht'.
  { eapply true_weights_sub; [|exact Ht]. intros x. apply remove_key_elem. }
  assert (0 <= weight e) as Hpos.
  { destruct e as [q|q]; cbn; [lra|]. apply dict_get_elem, Ht in Ee as [_ ->]. pose proof (weight_positive (graphql_query (turbo q))). lra. }
  destruct e as [q|q]; cbn -[remove_key weights] in Hpos |- *; (split; [by split|]); unfold slack; cbn -[remove_key weights];
    rewrite Eq, Hw; cbn -[remove_key weights]; (split; [lra|]); (split; [done|]); (split; [intros x; apply remove_key_elem|]); (split; [lra|done]).
Qed.

(** What the two loops keep. *)
Record evicted_from (r r' : registry) : Prop := {
  still_sound : sound r';
  same_slack : slack r' == slack r;
  fewer : (length (queries r') <= length (queries r))%nat;
  lighter : _total_weight r' <= _total_weight r;
  no_others : ∀ x, x ∈ queries r' → x ∈ queries r;
  same_size : max_size r' = max_size r;
  same_limit : max_total_weight r' = max_total_weight r
}.

Lemma evicted_none r : sound r → evicted_from r r.
Proof. intros. split; try done. lra. Qed.

Lemma evicted_trans r r' r'' : evicted_from r r' → evicted_from r' r'' → evicted_from r r''.
Proof.
  intros [H1 H2 H3 H0 H4 H5 H6] [K1 K2 K3 K0 K4 K5 K6]. split; [done|lra|lia|lra| |congruence|congruence]. intros x Hx. by apply H4, K4.
Qed.

Lemma evicted_one now r : queries r ≠ [] → sound r → evicted_from r (_evict_lowest_priority now r).
Proof. intros Hne Hs. destruct (evict_one now r Hne Hs) as (H1 & H2 & H3 & H4 & H0 & H5 & H6). split; [done|done|lia|done|done|done|done]. Qed.

(** The loops come to their ends. *)
Lemma evict_by_weight_spec rounds now w r :
  sound r → (length (queries r) <= rounds)%nat →
  evicted_from r (evict_by_weight rounds now w r) ∧
  (queries (evict_by_weight rounds now w r) = [] ∨
   _total_weight (evict_by_weight rounds now w r) + w <= max_total_weight r).
Proof.
  revert r. induction rounds as [|rounds IH]; intros r Hs Hl; cbn.
  - split; [by apply evicted_none|]. left. destruct (queries r); [done|cbn in Hl; lia].
  - destruct (queries r) as [|x l] eqn:Eq; [split; [by apply evicted_none|by left]|].
    destruct (Qle_bool _ _) eqn:El; [split; [by apply evicted_none|right; by apply Qle_bool_iff]|].
    assert (queries r ≠ []) as Hne by by rewrite Eq. destruct (evict_one now r Hne Hs) as (H1 & _ & H3 & _ & _ & _ & H6).
    destruct (IH _ H1) as [He Ho]; [rewrite Eq in H3; cbn in H3, Hl; lia|]. split; [|by rewrite <- H6].
    by eapply evicted_trans; [apply evicted_one|].
Qed.

Lemma evict_by_count_spec rounds now r :
  sound r → (length (queries r) <= rounds)%nat →
  evicted_from r (evict_by_count rounds now r) ∧
  ((length (queries (evict_by_count rounds now r)) < max_size r)%nat ∨ queries (evict_by_count rounds now r) = []).
Proof.
  revert r. induction rounds as [|rounds IH]; intros r Hs Hl; cbn.
  - split; [by apply evicted_none|]. right. destruct (queries r); [done|cbn in Hl; lia].
  - destruct (queries r) as [|x l] eqn:Eq; [split; [by apply evicted_none|by right]|].
    destruct (_ <=? _)%nat eqn:El; [|split; [by apply evicted_none|left; rewrite Eq; by apply Nat.leb_gt in El]].
    assert (queries r ≠ []) as Hne by by rewrite Eq. destruct (evict_one now r Hne Hs) as (H1 & _ & H3 & _ & _ & H5 & _).
    destruct (IH _ H1) as [He Ho]; [rewrite Eq in H3; cbn in H3, Hl; lia|]. split; [|by rewrite <- H5].
    by eapply evicted_trans; [apply evicted_one|].
Qed.

Lemma evict_spec now w r :
  sound r → (1 <= max_size r)%nat →
  evicted_from r (_evict_if_needed now w r) ∧
  (length (queries (_evict_if_needed now w r)) < max_size r)%nat ∧
  (queries (_evict_if_needed now w r) = [] ∨ weights (queries (_evict_if_needed now w r)) + slack r + w <= max_total_weight r).
Proof using same_score.
  intros Hs Hm. unfold _evict_if_needed. set (r1 := evict_by_weight _ _ _ _).
  destruct (evict_by_weight_spec (length (queries r)) now w r Hs) as [He Hw]; [lia|]. fold r1 in He, Hw.
  destruct (evict_by_count_spec (length (queries r1)) now r1) as [He' Hc]; [by apply (still_sound _ _ He)|lia|].
  split; [by eapply evicted_trans|]. split.
  - rewrite (same_size _ _ He) in Hc. destruct Hc as [|Hc]; [done|rewrite Hc; cbn; lia].
  - destruct Hw as [Hw|Hw].
    + left. destruct (queries (evict_by_count _ now r1)) as [|x l] eqn:E; [done|].
      assert (x ∈ queries r1) as Hin by (apply (no_others _ _ He'); rewrite E; by left). rewrite Hw in Hin. by apply elem_of_nil in Hin.
    + right. pose proof (same_slack _ _ He) as S1. pose proof (same_slack _ _ He') as S2. pose proof (lighter _ _ He') as S3.
      unfold slack in *. lra.
Qed.

(** *** Every call *)

Inductive op :=
| Register (now : Q) (e : entry)
| Get (query : string)
| Executes (query : string) (now execution_time : Q) (has_result : bool)
| RegisterRaw (q : turbo_query) (raw_hash : string)
| Clear.

Definition does (r : registry) (o : op) : registry :=
  match o with
  | Register now e => (register hash_query total_score now e r).2
  | Get query => (get hash_query hash_query_raw query r).2
  | Executes query now t b => executed hash_query hash_query_raw query now t b r
  | RegisterRaw q h => register_with_raw_hash q h r
  | Clear => clear r
  end.

Definition run (r : registry) (l : list op) : registry := foldl does r l.

(** A registry that holds as much as it may. *)
Record bounded (r : registry) : Prop := {
  bounded_sound : sound r;
  not_too_many : (length (queries r) <= max_size r)%nat;
  no_weight_is_missed : 0 <= slack r;
  not_too_heavy : weights (queries r) <= max_total_weight r ∨ (length (weighted (queries r)) <= 1)%nat
}.

(** What a call changes: the same registry but for order, metrics and client hashes. *)
Definition rearranged (r r' : registry) : Prop :=
  sound r' ∧ slack r' == slack r ∧ length (queries r') = length (queries r) ∧ weights (queries r') == weights (queries r) ∧
  length (weighted (queries r')) = length (weighted (queries r)) ∧ max_size r' = max_size r ∧ max_total_weight r' = max_total_weight r.

Lemma bounded_rearranged r r' : bounded r → rearranged r r' → bounded r'.
Proof.
  intros [H1 H2 H3 H4] (K1 & K2 & K3 & K4 & K5 & K6 & K7). split; [done|lia|lra|].
  rewrite K4, K5, K7. done.
Qed.

Lemma rearranged_perm r l : sound r → l ≡ₚ queries r → rearranged r (with_queries l r).
Proof.
  intros Hs Hp. destruct (sound_perm r l Hs Hp) as [H1 H2]. unfold rearranged. cbn.
  split_and!; [done|done|by rewrite Hp|by apply weights_perm|by rewrite (weighted_perm _ _ Hp)|done|done].
Qed.

Lemma rearranged_counted f r : sound r → rearranged r (counted f r).
Proof. intros [Hd Ht]. by split_and!. Qed.

Lemma rearranged_refl r : sound r → rearranged r r.
Proof. intros Hs. by split_and!. Qed.

Lemma rearranged_trans r r' r'' : rearranged r r' → rearranged r' r'' → rearranged r r''.
Proof.
  intros (H1 & H2 & H3 & H4 & H5 & H6 & H7) (K1 & K2 & K3 & K4 & K5 & K6 & K7).
  split_and!; [done|lra|congruence|lra|congruence|congruence|congruence].
Qed.

Lemma found_under_keeps h r : sound r → rearranged r (found_under h r).2 ∧
  ∀ e, (found_under h r).1 = Some e → ∃ h' l, queries (found_under h r).2 = l ++ [(h', e)].
Proof.
  intros Hs. unfold found_under. destruct (dict_get h (queries r)) as [e|] eqn:E; cbn; [|split; [by apply rearranged_refl|done]].
  split; [apply rearranged_perm; [done|by apply to_end; [apply Hs|]]|]. intros ? [= <-]. by eexists _, _.
Qed.

Definition keeps (f : registry → option entry * registry) : Prop :=
  ∀ r, sound r → rearranged r (f r).2 ∧ ∀ e, (f r).1 = Some e → ∃ h l, queries (f r).2 = l ++ [(h, e)].

Lemma found_apollo_keeps h : keeps (found_apollo h).
Proof.
  intros r Hs. unfold found_apollo. destruct (dict_get h (apollo r)); [by apply found_under_keeps|].
  split; [by apply rearranged_refl|done].
Qed.

Lemma then_keeps f g : keeps f → keeps g → keeps (then_ f g).
Proof.
  intros Hf Hg r Hs. unfold then_. destruct (Hf r Hs) as [H1 H2]. destruct (f r) as [[e|] r']; [|by apply Hg]. by split.
Qed.

Lemma super_get_keeps query : keeps (super_get hash_query hash_query_raw query).
Proof.
  unfold super_get. repeat apply then_keeps; try apply found_apollo_keeps; intros r Hs; by apply found_under_keeps.
Qed.

Lemma get_keeps query r :
  sound r → rearranged r (get hash_query hash_query_raw query r).2 ∧
  ∀ q, (get hash_query hash_query_raw query r).1 = Some q → ∃ h l, queries (get hash_query hash_query_raw query r).2 = l ++ [(h, Enhanced q)].
Proof.
  intros Hs. unfold get. destruct (super_get_keeps query r Hs) as [H1 H2].
  destruct (super_get _ _ query r) as [[[q|q]|] r'] eqn:E; cbn in *;
    (split; [eapply rearranged_trans; [exact H1|apply rearranged_counted, H1]|]); [done| |done]. intros ? [= <-]. by apply H2.
Qed.

(** The last query with something of it changed. *)
Lemma rearranged_last r l h q q' :
  sound r → queries r = l ++ [(h, Enhanced q)] → turbo q' = turbo q → cache_weight q' = cache_weight q →
  rearranged r (with_queries (l ++ [(h, Enhanced q')]) r).
Proof.
  intros [Hd Ht] Hq Htq Hw. rewrite Hq in Hd, Ht. unfold rearranged, slack. cbn. rewrite Hq, !weights_app. cbn. rewrite Hw.
  unfold weighted. rewrite !List.filter_app. cbn. split_and!; try done.
  - split; cbn; [by rewrite fmap_app in Hd |- *|]. intros h' q0 [Hin|E%list_elem_of_singleton]%elem_of_app.
    + apply Ht. apply elem_of_app. by left.
    + injection E as -> ->. rewrite Htq, Hw. apply Ht. apply elem_of_app. right. by apply list_elem_of_singleton.
  - rewrite !length_app. done.
  - by rewrite !length_app.
Qed.

Lemma executed_keeps query now t b r : sound r → rearranged r (executed hash_query hash_query_raw query now t b r).
Proof.
  intros Hs. unfold executed. destruct (get_keeps query r Hs) as [H1 _]. destruct (get _ _ query r) as [[q1|] r1]; cbn in *; [|done].
  destruct (get_keeps query r1) as [H2 Hl]; [apply H1|]. destruct (get _ _ query r1) as [[q|] r']; cbn in *; [|by eapply rearranged_trans].
  assert (rearranged r r') as H3 by by eapply rearranged_trans.
  destruct b; [|done]. destruct (Hl q eq_refl) as (h & l & Hq). rewrite Hq, rev_app_distr. cbn. rewrite rev_involutive.
  eapply rearranged_trans; [done|]. by apply (rearranged_last r' l h q); [apply H3| | |].
Qed.

Lemma enhanced_text now e : graphql_query (turbo (enhanced total_score now e)) = text e ∧ cache_weight (enhanced total_score now e) = weight_of (text e).
Proof. by destruct e. Qed.

Lemma register_keeps now e r :
  bounded r → (1 <= max_size r)%nat →
  let r' := (register hash_query total_score now e r).2 in
  bounded r' ∧ slack r' == slack r ∧ max_size r' = max_size r ∧ max_total_weight r' = max_total_weight r.
Proof using same_score.
  intros Hb Hm. unfold register, should_cache.
  assert (rearranged r (counted one_analyzed r)) as Hc by (apply rearranged_counted, Hb).
  assert (∀ r', rearranged r r' → bounded r' ∧ slack r' == slack r ∧ max_size r' = max_size r ∧ max_total_weight r' = max_total_weight r) as Hre.
  { intros r' Hr. split; [by eapply bounded_rearranged|]. destruct Hr as (_ & ? & _ & _ & _ & ? & ?). done. }
  destruct (_ <=? _)%Z; cbv beta iota zeta; [|by apply Hre; eapply rearranged_trans; [done|apply rearranged_counted, Hc]].
  assert (max_size (counted one_analyzed r) = max_size r ∧ max_total_weight (counted one_analyzed r) = max_total_weight r) as [Hm1 Hm2] by done.
  set (r1 := counted one_analyzed r) in *. pose proof (bounded_rearranged _ _ Hb Hc) as Hb1. clearbody r1.
  set (q := enhanced total_score now e). set (h := hash_query (text e)).
  destruct (enhanced_text now e) as [Htext Hweight]. fold q in Htext, Hweight.
  unfold dict_has. destruct (dict_get h (queries r1)) as [[p|old]|] eqn:Eh; cbn [is_some].
  - rewrite Eh. by apply Hre.
  - rewrite Eh. destruct (bounded_sound _ Hb1) as [Hd Ht]. destruct (Ht _ _ (dict_get_elem _ _ _ Eh)) as [Hh Hw].
    assert (cache_weight q = cache_weight old) as Hsame.
    { rewrite Hweight, Hw. unfold WeightedTurbo.weight_of. f_equal. apply same_score. exact Hh. }
    destruct (without_one _ _ _ Hd Eh) as (Hsum & Hd' & Hl & Hn). cbn [weight] in Hsum. apply Hre. eapply rearranged_trans; [exact Hc|].
    pose proof (to_end _ _ _ Hd Eh) as Hp. unfold rearranged, slack. cbn -[weights remove_key].
    rewrite !weights_app, Hsum. cbn -[remove_key]. rewrite Hsame. split_and!; try done; try lra.
    + split; cbn -[remove_key].
      * rewrite fmap_app. apply NoDup_app. split; [done|]. split; [|apply NoDup_singleton].
        intros x Hx Hx'. apply list_elem_of_singleton in Hx'. by subst x.
      * intros h' q0 [Hin|E%list_elem_of_singleton]%elem_of_app; [by apply Ht; eapply remove_key_elem|].
        injection E as -> ->. by rewrite Htext, Hweight.
    + rewrite length_app. cbn [length]. lia.
    + rewrite <- (weighted_perm _ _ Hp). unfold weighted. by rewrite !List.filter_app, !length_app.
  - destruct (evict_spec now (cache_weight q) r1) as (He & Hlen & Hfit); [apply Hb1|lia|].
    set (r2 := _evict_if_needed now (cache_weight q) r1) in *.
    assert (dict_get h (queries r2) = None) as Eh2.
    { apply no_entry. apply no_entry in Eh. intros (x & -> & Hin)%list_elem_of_fmap. apply Eh, list_elem_of_fmap. exists x.
      split; [done|]. by apply (no_others _ _ He). }
    rewrite Eh2. cbn [snd]. destruct (still_sound _ _ He) as [Hd2 Ht2]. pose proof (same_slack _ _ He) as Hs2.
    pose proof (no_weight_is_missed _ Hb1) as Hs1. assert (slack r1 == slack r) as Hs0 by apply Hc.
    assert (slack (with_weight (_total_weight r2 + cache_weight q) (with_queries (queries r2 ++ [(h, Enhanced q)]) r2)) == slack r) as Hsl.
    { unfold slack in *. cbn -[weights]. rewrite weights_app. cbn [weights weight snd]. lra. }
    split_and!; [|done|by cbn; rewrite (same_size _ _ He)|by cbn; rewrite (same_limit _ _ He)]. split.
    + split; cbn.
      * rewrite fmap_app. apply NoDup_app. split; [done|]. split; [|apply NoDup_singleton].
        intros x Hx Hx'. apply list_elem_of_singleton in Hx'. subst x. by apply no_entry in Eh2.
      * intros h' q0 [Hin|E%list_elem_of_singleton]%elem_of_app; [by apply Ht2|]. injection E as -> ->. by rewrite Htext, Hweight.
    + cbn. rewrite length_app, (same_size _ _ He). cbn. lia.
    + rewrite Hsl. lra.
    + cbn -[weights]. rewrite (same_limit _ _ He). destruct Hfit as [Hfit|Hfit].
      * right. by rewrite Hfit.
      * left. rewrite weights_app. cbn [weights weight snd]. lra.
Qed.

(** *** Calls of the base class that do not count weights *)

Lemma bounded_apollo a r : bounded r → bounded (with_apollo a r).
Proof. by intros [[H1 H2] H3 H4 H5]. Qed.

Lemma clear_keeps r : bounded r → bounded (clear r) ∧ slack r <= slack (clear r).
Proof.
  intros [Hs H2 H3 H4]. pose proof (weights_not_negative _ (weights_are_true _ Hs)). unfold slack in *.
  split; [split; cbn; try lia|cbn -[weights] in *; cbn [weights]; lra].
  - split; cbn; [apply NoDup_nil_2|intros h q Hin; by apply elem_of_nil in Hin].
  - unfold slack. cbn. lra.
Qed.

Lemma sound_raw h q r : sound r → dict_get h (queries r) = None → sound (with_queries (queries r ++ [(h, Plain q)]) r).
Proof.
  intros [Hd Ht] He. apply no_entry in He. split; cbn.
  - rewrite fmap_app. apply NoDup_app. split; [done|]. split; [|apply NoDup_singleton].
    intros x Hx Hx'. apply list_elem_of_singleton in Hx'. by subst x.
  - intros h' q' [Hin|E%list_elem_of_singleton]%elem_of_app; [by apply Ht|done].
Qed.

(** The oldest of too many goes, and its weight stays counted. *)
Lemma sound_tail r x l : sound r → queries r = x :: l → sound (with_queries l r) ∧ slack r <= slack (with_queries l r) ∧ weights l <= weights (queries r).
Proof.
  intros [Hd Ht] Hq. rewrite Hq in *. assert (0 <= weight x.2) as Hw.
  { destruct x as [h [q|q]]; cbn; [lra|]. destruct (Ht h q) as [_ ->]; [by left|]. pose proof (weight_positive (graphql_query (turbo q))). lra. }
  unfold slack. cbn -[weights]. rewrite Hq. cbn [weights]. split_and!; [|lra|lra]. split; cbn.
  - by apply NoDup_cons in Hd as [_ Hd].
  - intros h q Hin. apply Ht. by right.
Qed.

Lemma weighted_tail x l : (length (weighted l) <= length (weighted (x :: l)))%nat.
Proof. unfold weighted. cbn. destruct (is_enhanced x.2); cbn; lia. Qed.

Lemma raw_keeps q h r :
  bounded r → bounded (register_with_raw_hash q h r) ∧ slack r <= slack (register_with_raw_hash q h r).
Proof using same_score.
  intros Hb. unfold register_with_raw_hash.
  set (r0 := match dict_get h (queries r) with Some e => _ | None => _ end).
  assert (bounded r0 ∧ slack r <= slack r0) as [H0 Hs0].
  2: { destruct (apollo_client_hash q) as [[|a s]|]; [done| |done]. destruct (_ =s _); [done|].
       split; [by apply bounded_apollo|exact Hs0]. }
  subst r0. destruct (dict_get h (queries r)) as [e|] eqn:E.
  { assert (rearranged r (with_queries (remove_key h (queries r) ++ [(h, e)]) r)) as Hr.
    { apply rearranged_perm; [apply Hb|]. by apply to_end; [apply Hb|]. }
    split; [by eapply bounded_rearranged|]. destruct Hr as (_ & H & _). lra. }
  pose proof (sound_raw h q r (bounded_sound _ Hb) E) as Hs1. destruct Hb as [Hs Hn Hm Hw].
  assert (slack (with_queries (queries r ++ [(h, Plain q)]) r) == slack r) as Hsl.
  { unfold slack. cbn -[weights]. rewrite weights_app. cbn [weights weight snd]. lra. }
  assert (weights (queries r ++ [(h, Plain q)]) == weights (queries r)) as Hwe by (rewrite weights_app; cbn [weights weight snd]; lra).
  assert (length (weighted (queries r ++ [(h, Plain q)])) = length (weighted (queries r))) as Hle.
  { unfold weighted. rewrite List.filter_app. cbn. by rewrite app_nil_r. }
  cbv zeta. cbn [max_size with_queries queries]. destruct (_ <? _)%nat eqn:El.
  - destruct (queries r ++ [(h, Plain q)]) as [|[k x] l] eqn:Eq; [by apply app_nil in Eq as [_ ?]|].
    destruct (sound_tail _ (k, x) l Hs1 eq_refl) as (K1 & K2 & K3). cbn [queries with_queries] in K3.
    match goal with |- bounded (match ?m with _ => _ end) ∧ _ => set (a := m) end.
    assert (∀ r', queries r' = l → _total_weight r' = _total_weight r → max_size r' = max_size r → max_total_weight r' = max_total_weight r →
      bounded r' ∧ slack r <= slack r') as Hall.
    { intros r' Q1 Q2 Q3 Q4. assert (slack r' == slack (with_queries l (with_queries ((k, x) :: l) r))) as Q5.
      { unfold slack. cbn -[weights]. by rewrite Q1, Q2. }
      split; [|lra]. split; [destruct K1; split; by rewrite Q1| | |].
      - assert (length (queries r ++ [(h, Plain q)]) = S (length l)) as L by by rewrite Eq.
        rewrite length_app in L. cbn in L. rewrite Q1, Q3. lia.
      - lra.
      - rewrite Q1, Q4. pose proof (weighted_tail (k, x) l). destruct Hw as [Hw|Hw]; [left; lra|right; lia]. }
    destruct a as [[|]|]; by apply Hall.
  - apply Nat.ltb_ge in El. split; [|lra]. split; [done|done|lra|]. cbn [queries with_queries max_total_weight]. rewrite Hwe, Hle. done.
Qed.

(** ** Runs *)

(** The calls after which weights are counted still. *)
Definition counts (o : op) : bool := match o with RegisterRaw _ _ | Clear => false | _ => true end.

Lemma does_keeps r o :
  bounded r → (1 <= max_size r)%nat →
  bounded (does r o) ∧ max_size (does r o) = max_size r ∧ max_total_weight (does r o) = max_total_weight r ∧
  slack r <= slack (does r o) ∧ (counts o = true → slack (does r o) == slack r).
Proof using same_score.
  intros Hb Hm. assert (∀ r', rearranged r r' → bounded r' ∧ max_size r' = max_size r ∧ max_total_weight r' = max_total_weight r ∧
    slack r <= slack r' ∧ (true = true → slack r' == slack r)) as Hre.
  { intros r' Hr. split; [by eapply bounded_rearranged|]. destruct Hr as (_ & H & _ & _ & _ & ? & ?). split_and!; [done|done|lra|done]. }
  destruct o as [now e|query|query now t b|q h|]; cbn [does counts].
  - destruct (register_keeps now e r Hb Hm) as (H1 & H2 & H3 & H4). split_and!; [done|done|done|lra|done].
  - apply Hre. by apply get_keeps, Hb.
  - apply Hre. by apply executed_keeps, Hb.
  - destruct (raw_keeps q h r Hb) as [H1 H2]. split_and!; [done| | |done|done]; unfold register_with_raw_hash;
      repeat first [done | case_match].
  - destruct (clear_keeps r Hb). by split_and!.
Qed.

Lemma calls_keep l r :
  bounded r → (1 <= max_size r)%nat →
  bounded (run r l) ∧ max_size (run r l) = max_size r ∧ max_total_weight (run r l) = max_total_weight r ∧
  slack r <= slack (run r l) ∧ (forallb counts l = true → slack (run r l) == slack r).
Proof using same_score.
  revert r. induction l as [|o l IH]; intros r Hb Hm; cbn; [split_and!; [done|done|done|lra|lra]|].
  destruct (does_keeps r o Hb Hm) as (H1 & H2 & H3 & H4 & H5). destruct (IH (does r o) H1) as (K1 & K2 & K3 & K4 & K5); [lia|].
  unfold run in *. split_and!; [done|congruence|congruence|lra|]. intros [Ho Hl]%andb_prop. rewrite K5, H5 by done. lra.
Qed.

Lemma new_is_bounded n c w config : bounded (new_registry n c w config) ∧ slack (new_registry n c w config) == 0.
Proof.
  split; [|unfold slack; cbn; lra]. split; cbn; [|lia|unfold slack; cbn; lra|by right; lia].
  split; cbn; [apply NoDup_nil_2|intros h q Hin; by apply elem_of_nil in Hin].
Qed.

Lemma dict_get_last (h : string) (l : list (string * entry)) e : h ∉ l.*1 → dict_get h (l ++ [(h, e)]) = Some e.
Proof.
  induction l as [|[k x] l IH]; cbn; [intros _; by rewrite decide_True|].
  intros [Hne Hl]%not_elem_of_cons. rewrite decide_False by done. by apply IH.
Qed.

(** What was accepted is found, and with its weight. *)
Lemma registered_is_found now e r h :
  sound r → (register hash_query total_score now e r).1 = Ok (Some h) →
  (get hash_query hash_query_raw (text e) (register hash_query total_score now e r).2).1 = Some (enhanced total_score now e).
Proof.
  intros Hs. unfold register, should_cache. destruct (_ <=? _)%Z; cbv beta iota zeta; [|done].
  set (r1 := if dict_has _ _ then _ else _). assert (∀ l : list (string * entry), hash_query (text e) ∉ l.*1 → ∀ r2,
    (get hash_query hash_query_raw (text e) (with_weight r2 (with_queries (l ++ [(hash_query (text e), Enhanced (enhanced total_score now e))]) r1))).1
    = Some (enhanced total_score now e)) as Hget.
  { intros l Hl w. unfold get, super_get, then_, found_under at 1. cbn [queries with_weight with_queries].
    by rewrite dict_get_last by done. }
  destruct (dict_get (hash_query (text e)) (queries r1)) as [[p|old]|] eqn:Eh; [done| |]; intros _; cbn [snd]; apply Hget.
  - clear. unfold remove_key. intros (x & Hx & Hin)%list_elem_of_fmap. apply list_elem_of_In, List.filter_In in Hin as [_ Hin].
    rewrite <- Hx, same_text in Hin. done.
  - by apply no_entry.
Qed.

(** Whatever is called of a registry of [n] queries, however often and in whatever order, it
    holds at most [n] queries, each under one hash, which together weigh at most what the
    registry counted and at most what it may hold, unless one query alone is heavier than
    that; and when neither [clear] nor the registration under the hash of a client was called,
    the weight it counted is exactly that of the queries it holds. *)
Theorem weights_stay_bounded n c w config l :
  (1 <= n)%nat →
  let r := run (new_registry n c w config) l in
  (length (queries r) <= n)%nat ∧ NoDup (queries r).*1 ∧ weights (queries r) <= _total_weight r ∧
  (weights (queries r) <= w ∨ (length (weighted (queries r)) <= 1)%nat) ∧
  (forallb counts l = true → _total_weight r == weights (queries r)).
Proof using same_score.
  intros Hn r. destruct (new_is_bounded n c w config) as [Hb Hs].
  destruct (calls_keep l _ Hb Hn) as (H1 & H2 & H3 & H4 & H5). fold r in H1, H2, H3, H4, H5. cbn in H2, H3.
  destruct H1 as [[Hd Ht] K1 K2 K3]. rewrite H2 in K1. rewrite H3 in K3. unfold slack in *.
  split_and!; [done|done|lra|done|]. intros Hl. specialize (H5 Hl). lra.
Qed.
End registry.

(** ** Concrete registries *)

(** Texts under their own names, and a score for each. *)
Definition some_score (query : string) : Z :=
  if query =s "{users}" then 5 else if query =s "{posts}" then 20 else if query =s "{all}" then 190 else 400.

Definition plain (query : string) (client_hash : option string) : turbo_query :=
  {| graphql_query := query; sql_template := "SELECT"; param_mapping := []; operation_name := None;
     apollo_client_hash := client_hash; context_params := None |}.

Definition registers (query : string) : op := Register 0 (Plain (plain query None)).

Definition small : registry := new_registry 10 None 2 default_config.

(** Whole runs with these hashes and scores. *)
Definition ran : registry → list op → registry := run (λ s, s) (String.append "raw:") some_score.

Lemma weights_stay_bounded_witness :
  let l := [registers "{users}"; registers "{posts}"; registers "{all}"; registers "{huge}"] in
  let r := run (λ s, s) (String.append "raw:") some_score (new_registry 10 None 2 default_config) l in
  (queries r).*1 = ["{all}"] ∧ forallb counts l = true ∧
  (length (queries r) <= 10)%nat ∧ NoDup (queries r).*1 ∧ weights (queries r) <= _total_weight r ∧
  (weights (queries r) <= 2 ∨ (length (weighted (queries r)) <= 1)%nat) ∧
  (forallb counts l = true → _total_weight r == weights (queries r)).
Proof.
  intros l r. split; [vm_compute; reflexivity|]. split; [reflexivity|].
  apply (weights_stay_bounded (λ s, s) (String.append "raw:") some_score); [intros a b ->; reflexivity|lia].
Defined.

(** A registry that is cleared still counts what it held, and gives up what it holds next for
    weights that are not there. *)
Example cleared_weights_stay :
  let r := ran small [registers "{all}"; Clear] in
  queries r = [] ∧ _total_weight r == 2 ∧
  (queries (ran r [registers "{users}"; registers "{posts}"])).*1 = ["{posts}"].
Proof. vm_compute. repeat split. Qed.

(** The registration under the hash of a client makes room without the weights, and what it
    puts there cannot be registered again. *)
Example raw_registrations_count_nothing :
  let one := new_registry 1 None 2 default_config in
  let r := ran one [registers "{all}"; RegisterRaw (plain "{users}" None) "{users}"] in
  (queries r).*1 = ["{users}"] ∧ _total_weight r == 2 ∧
  (register (λ s, s) some_score 0 (Plain (plain "{users}" None)) r).1 = raise AttributeError.
Proof. vm_compute. repeat split. Qed.

(** An execution counts two hits. *)
Example executions_count_twice :
  cache_hits (_metrics (ran small [registers "{users}"; Executes "{users}" 1 1 true])) = 2%Z.
Proof. reflexivity. Qed.

(** The hash of a client and the parameters from the context are gone. *)
Example registered_anew :
  apollo_client_hash (turbo (enhanced some_score 0 (Plain (plain "{users}" (Some "abc"))))) = None.
Proof. reflexivity. Qed.

(** Weights have no greatest. *)
Example heavy : get_cache_weight default_config 4000 == 40.
Proof. reflexivity. Qed.
