(* ===== verification/AuditLog.v ===== *)
(** * Audit events and their batch ([enterprise/audit/event_logger.py])

    [AuditLogger] keeps events in a batch and writes the batch in one transaction.  Every
    [await] lets other tasks in, so that a flush is a sequence of steps, and a run is any
    order of the steps of any flushes, of events that are logged and of transactions that
    fail.  What the database does that the logger counts on is that an identifier is a
    primary key: a second row with it is refused, and while the first is not committed
    the insertion of a second waits. *)
From stdpp Require Import base decidable option gmap list strings.
From Stdlib Require Import ZArith Lia.
From S2P Require Import Prelude PyVal.

Record event := {
  id : Z;
  event_type : string;
  event_data : pyval;
  user_id : option string;
  tenant_id : option string;
  timestamp : Z;
  ip_address : option string
}.

Definition _prepare_event (event_id now : Z) (event_type : string) (event_data : pyval) (user_id tenant_id ip_address : option string) : event :=
  {| id := event_id; event_type := event_type; event_data := event_data; user_id := user_id; tenant_id := tenant_id;
     timestamp := now; ip_address := ip_address |}.

(** Where a flush is: it waits for a connection; it inserts the event it took from the place
    of its loop; it ends its transaction, which wrote the events; it has ended it and
    empties the batch. *)
Inductive stage :=
| Opening
| Inserting (place : nat) (e : event) (wrote : list event)
| Committing (wrote : list event)
| Clearing.

Record logger := {
  batch_size : Z;
  _batch : list event;
  audit_events : list event;
  flushes : gmap nat stage
}.

Definition new_logger (size : Z) : logger := {| batch_size := size; _batch := []; audit_events := []; flushes := ∅ |}.

Definition with_batch (b : list event) (w : logger) : logger :=
  {| batch_size := batch_size w; _batch := b; audit_events := audit_events w; flushes := flushes w |}.

Definition with_rows (rows : list event) (w : logger) : logger :=
  {| batch_size := batch_size w; _batch := _batch w; audit_events := rows; flushes := flushes w |}.

Definition with_flushes (f : gmap nat stage) (w : logger) : logger :=
  {| batch_size := batch_size w; _batch := _batch w; audit_events := audit_events w; flushes := f |}.

Definition at_stage (t : nat) (s : stage) (w : logger) : logger := with_flushes (<[t := s]> (flushes w)) w.

Definition over (t : nat) (w : logger) : logger := with_flushes (delete t (flushes w)) w.

(** The rows of a transaction that is open. *)
Definition wrote (s : stage) : list event :=
  match s with Inserting _ _ l | Committing l => l | Opening | Clearing => [] end.

(** Another transaction holds the identifier. *)
Definition held (t : option nat) (e : event) (w : logger) : Prop :=
  map_Exists (λ t' s, Some t' ≠ t ∧ id e ∈ id <$> wrote s) (flushes w).

#[export] Instance held_dec t e w : Decision (held t e w).
Proof. unfold held. apply _. Defined.

(** The loop runs over the batch itself: what is appended behind its place is inserted too. *)
Definition next (t : nat) (place : nat) (l : list event) (w : logger) : logger :=
  at_stage t match _batch w !! place with Some e => Inserting place e l | None => Committing l end w.

Definition flush_batch (t : nat) (w : logger) : option logger :=
  match _batch w with
  | [] => Some w
  | _ => guard (flushes w !! t = None);; Some (at_stage t Opening w)
  end.

(** [_write_event] within a transaction: a repeated identifier raises, and the transaction is
    rolled back. *)
Definition insert (t : nat) (w : logger) : option logger :=
  match flushes w !! t with
  | Some (Inserting place e l) =>
      guard (¬ held (Some t) e w);;
      if decide (id e ∈ id <$> audit_events w) then Some (over t w) else Some (next t (S place) (l ++ [e]) w)
  | _ => None
  end.

(** [_write_event] on its own. *)
Definition _write_event (e : event) (w : logger) : option logger :=
  guard (¬ held None e w);;
  Some (if decide (id e ∈ id <$> audit_events w) then w else with_rows (audit_events w ++ [e]) w).

Definition log_event (t : nat) (e : event) (immediate : bool) (w : logger) : option logger :=
  if immediate then _write_event e w
  else
    let w := with_batch (_batch w ++ [e]) w in
    if (batch_size w <=? Z.of_nat (length (_batch w)))%Z then flush_batch t w else Some w.

(** [Fails]: the database refuses, or is not reached; [Unheard]: it committed, and the
    connection was lost before it said so. *)
Inductive step :=
| Log (t : nat) (e : event) (immediate : bool)
| Flush (t : nat)
| Opened (t : nat)
| Insert (t : nat)
| Commit (t : nat)
| Clear (t : nat)
| Fails (t : nat)
| Unheard (t : nat).

(** [None] for a step that cannot be taken. *)
Definition does (s : step) (w : logger) : option logger :=
  match s with
  | Log t e immediate => log_event t e immediate w
  | Flush t => flush_batch t w
  | Opened t => match flushes w !! t with Some Opening => Some (next t 0 [] w) | _ => None end
  | Insert t => insert t w
  | Commit t => match flushes w !! t with Some (Committing l) => Some (at_stage t Clearing (with_rows (audit_events w ++ l) w)) | _ => None end
  | Clear t => match flushes w !! t with Some Clearing => Some (over t (with_batch [] w)) | _ => None end
  | Fails t => match flushes w !! t with Some (Opening | Inserting _ _ _ | Committing _) => Some (over t w) | _ => None end
  | Unheard t => match flushes w !! t with Some (Committing l) => Some (over t (with_rows (audit_events w ++ l) w)) | _ => None end
  end.

Fixpoint run (l : list step) (w : logger) : option logger :=
  match l with [] => Some w | s :: l => w ← does s w; run l w end.

(** ** Properties *)

(** A flush has left its loop and not yet emptied the batch. *)
Definition past_its_loop (s : stage) : bool := match s with Committing _ | Clearing => true | Opening | Inserting _ _ _ => false end.

Definition settled (w : logger) : Prop := map_Forall (λ _ s, past_its_loop s = false) (flushes w).

#[export] Instance settled_dec w : Decision (settled w).
Proof. unfold settled. apply _. Defined.

(** No event is put into the batch between the end of a loop and the emptying of the batch. *)
Fixpoint timely (l : list step) (w : logger) : Prop :=
  match l with
  | [] => True
  | s :: l =>
      match s with Log _ _ false => settled w | _ => True end ∧
      match does s w with Some w => timely l w | None => True end
  end.

#[export] Instance timely_dec l w : Decision (timely l w).
Proof. revert w. induction l as [|s l IH]; intros w; cbn; [apply _|]. destruct (does s w); destruct s as [? ? []| | | | | | |]; apply _. Defined.

(** What was put into the batch. *)
Definition batched (s : step) : list event := match s with Log _ e false => [e] | _ => [] end.

Definition stage_ok (b rows : list event) (s : stage) : Prop :=
  match s with
  | Opening => True
  | Inserting place e l => place = length l ∧ l `prefix_of` b ∧ (b !! place = Some e ∨ id e ∈ id <$> rows)
  | Committing l => l = b
  | Clearing => ∀ e, e ∈ b → e ∈ rows
  end.

Definition apart (s s' : stage) : Prop := (wrote s = [] ∨ wrote s' = []) ∧ (s = Clearing → wrote s' = []).

Record kept (L : list event) (w : logger) : Prop := {
  stages_ok : ∀ t s, flushes w !! t = Some s → stage_ok (_batch w) (audit_events w) s;
  stages_apart : ∀ t t' s s', t ≠ t' → flushes w !! t = Some s → flushes w !! t' = Some s' → apart s s';
  nothing_lost : ∀ e, e ∈ L → e ∈ _batch w ∨ e ∈ audit_events w
}.

Lemma kept_over L t w : kept L w → kept L (over t w).
Proof.
  intros [H1 H2 H3]. split; [| |done]; cbn.
  - intros t' s [_ Hs]%lookup_delete_Some. by apply (H1 t').
  - intros t1 t2 s s' Hne [_ Hs]%lookup_delete_Some [_ Hs']%lookup_delete_Some. by apply (H2 t1 t2).
Qed.

(** A flush goes on to a stage. *)
Lemma kept_at_stage L t s w :
  kept L w → stage_ok (_batch w) (audit_events w) s →
  (∀ t' s', t' ≠ t → flushes w !! t' = Some s' → apart s s' ∧ apart s' s) → kept L (at_stage t s w).
Proof.
  intros [H1 H2 H3] Hs Ha. split; [| |done]; cbn.
  - intros t' s' [[<- <-]|[_ Hs']]%lookup_insert_Some; [done|by apply (H1 t')].
  - intros t1 t2 s1 s2 Hne [[<- <-]|[N1 Hs1]]%lookup_insert_Some [[<- <-]|[N2 Hs2]]%lookup_insert_Some; [done| | |by apply (H2 t1 t2)].
    + by apply (Ha t2).
    + by apply (Ha t1).
Qed.

Lemma stage_ok_rows b rows more s : stage_ok b rows s → stage_ok b (rows ++ more) s.
Proof.
  destruct s as [|p e l|l|]; cbn; [done| |done|].
  - intros (? & ? & [?|Hin]); split_and!; [done|done|by left|done|done|]. right. rewrite fmap_app. apply elem_of_app. by left.
  - intros H e He. apply elem_of_app. left. by apply H.
Qed.

Lemma kept_rows L more w : kept L w → kept L (with_rows (audit_events w ++ more) w).
Proof.
  intros [H1 H2 H3]. split; [|done|]; cbn.
  - intros t s Hs. by apply stage_ok_rows, (H1 t).
  - intros e He. destruct (H3 e He); [by left|right; apply elem_of_app; by left].
Qed.

Lemma kept_flush L t w w' : kept L w → flush_batch t w = Some w' → kept L w'.
Proof.
  intros Hk. unfold flush_batch. destruct (_batch w); [by intros [= <-]|]. intros H. case_guard; [|done]. injection H as <-.
  apply kept_at_stage; [done|done|]. intros t' s' _ _. by split; split; cbn; auto.
Qed.

Lemma kept_append L e w : kept L w → settled w → kept (e :: L) (with_batch (_batch w ++ [e]) w).
Proof.
  intros [H1 H2 H3] Hst. split; [|done|]; cbn.
  - intros t s Hs. specialize (H1 t s Hs). specialize (Hst t s Hs). destruct s as [|p x l|l|]; try done.
    destruct H1 as (? & Hp & Hx). split_and!; [done|by apply prefix_app_r|]. destruct Hx as [Hx|]; [left|by right]. by apply lookup_app_l_Some.
  - intros x [->|Hx]%elem_of_cons; [left; apply elem_of_app; right; by left|].
    destruct (H3 x Hx); [left; apply elem_of_app; by left|by right].
Qed.

Lemma kept_log L t e immediate w w' :
  kept L w → (immediate = false → settled w) → log_event t e immediate w = Some w' → kept (batched (Log t e immediate) ++ L) w'.
Proof.
  intros Hk Hs. unfold log_event. destruct immediate; cbn [batched app].
  - unfold _write_event. intros H. case_guard; [|done]. injection H as <-. case_decide; [done|by apply kept_rows].
  - cbv zeta. pose proof (kept_append L e w Hk (Hs eq_refl)) as Hk'. destruct (_ <=? _)%Z; [by apply kept_flush|by intros [= <-]].
Qed.

(** What the loop takes next. *)
Lemma kept_next L t l w :
  kept L w → l `prefix_of` _batch w →
  (∀ t' s', t' ≠ t → flushes w !! t' = Some s' → (l = [] ∨ wrote s' = []) ∧ (s' = Clearing → l = [])) →
  kept L (next t (length l) l w).
Proof.
  intros Hk Hp Ha. apply kept_at_stage; [done| |].
  - destruct (_batch w !! _) as [e|] eqn:E; cbn; [split_and!; [done|done|by left]|].
    destruct Hp as [k Hk']. apply lookup_ge_None in E. rewrite Hk' in E |- *. rewrite length_app in E. destruct k; [by rewrite app_nil_r|cbn in E; lia].
  - intros t' s' Hne Hs'. destruct (Ha t' s' Hne Hs') as [H1 H2]. destruct (_batch w !! _); split; split; cbn; first [done|tauto].
Qed.

Lemma kept_insert L t w w' : kept L w → insert t w = Some w' → kept L w'.
Proof.
  intros Hk. unfold insert. destruct (flushes w !! t) as [[|p e l|l|]|] eqn:E; try done. intros H. case_guard as Hh; [|done].
  case_decide as Hr; injection H as <-; [by apply kept_over|].
  destruct (stages_ok _ _ Hk _ _ E) as (-> & Hp & [He|]); [|done]. pose proof (stages_apart _ _ Hk) as Ha.
  replace (S (length l)) with (length (l ++ [e])) by (rewrite length_app; cbn; lia).
  assert (l ++ [e] `prefix_of` _batch w) as Hp'.
  { destruct Hp as [k Hk']. rewrite Hk' in He |- *. rewrite lookup_app_r, Nat.sub_diag in He by lia.
    destruct k as [|x k]; [done|]. injection He as ->. exists k. by rewrite <- app_assoc. }
  apply kept_next; [done|done|]. intros t' s' Hne Hs'. split.
  - right. destruct (Ha t t' _ _ (not_eq_sym Hne) E Hs') as [[Hl|] _]; [|done]. cbn in Hl. subst l. cbn in *.
    destruct (wrote s') as [|x l] eqn:Ew; [done|]. exfalso. apply Hh. exists t', s'. split; [done|]. split; [congruence|].
    rewrite Ew. assert (x = e) as ->; [|cbn; by left].
    pose proof (stages_ok _ _ Hk _ _ Hs') as Hok. assert (x :: l `prefix_of` _batch w) as [k Hk'].
    { destruct s' as [|p' e' l'|l'|]; cbn in Ew, Hok; [done|rewrite <- Ew; apply Hok|by rewrite <- Ew, Hok|done]. }
    rewrite Hk' in He. cbn in He. congruence.
  - intros ->. exfalso. pose proof (stages_ok _ _ Hk _ _ Hs') as Hc. cbn in Hc. apply Hr.
    apply list_elem_of_fmap. exists e. split; [done|]. apply Hc. by eapply list_elem_of_lookup_2.
Qed.

Lemma kept_commit L t l w :
  kept L w → flushes w !! t = Some (Committing l) →
  kept L (at_stage t Clearing (with_rows (audit_events w ++ l) w)).
Proof.
  intros Hk E. pose proof (stages_ok _ _ Hk _ _ E) as Hl. cbn in Hl. subst l. apply kept_at_stage; [by apply kept_rows| |]; cbn.
  - intros e He. apply elem_of_app. by right.
  - intros t' s' Hne Hs'. assert (wrote s' = []) as Hw.
    { destruct (stages_apart _ _ Hk t t' _ _ (not_eq_sym Hne) E Hs') as [[Hb|] _]; [|done]. cbn in Hb.
      pose proof (stages_ok _ _ Hk _ _ Hs') as Hok. rewrite Hb in Hok. destruct s' as [|p e l|l|]; cbn in *; [done| |done|done].
      destruct Hok as (_ & Hp & _). by apply prefix_nil_inv in Hp. }
    by split; split; cbn; auto.
Qed.

Lemma kept_clear L t w : kept L w → flushes w !! t = Some Clearing → kept L (over t (with_batch [] w)).
Proof.
  intros [H1 H2 H3] E. pose proof (H1 _ _ E) as Hc. cbn in Hc. split; cbn.
  - intros t' s [Hne Hs]%lookup_delete_Some. pose proof (H1 _ _ Hs) as Hok. destruct (H2 t t' _ _ Hne E Hs) as [_ Hw].
    specialize (Hw eq_refl). destruct s as [|p e l|l|]; cbn in *; [done| |done|intros e He; by apply elem_of_nil in He].
    subst l. destruct Hok as (-> & _ & He). split_and!; [done|apply prefix_nil|right]. destruct He as [He|]; [|done].
    apply list_elem_of_fmap. exists e. split; [done|]. apply Hc. by eapply list_elem_of_lookup_2.
  - intros t1 t2 s s' Hne [_ Hs]%lookup_delete_Some [_ Hs']%lookup_delete_Some. by apply (H2 t1 t2).
  - intros e He. right. destruct (H3 e He); [by apply Hc|done].
Qed.

Lemma kept_does L s w w' :
  kept L w → match s with Log _ _ false => settled w | _ => True end → does s w = Some w' → kept (batched s ++ L) w'.
Proof.
  intros Hk Hs. destruct s as [t e b|t|t|t|t|t|t|t]; cbn [does batched app].
  - apply kept_log; [done|]. by intros ->.
  - by apply kept_flush.
  - destruct (flushes w !! t) as [[]|] eqn:E; try done. intros [= <-]. apply (kept_next _ _ []); [done|apply prefix_nil|auto].
  - by apply kept_insert.
  - destruct (flushes w !! t) as [[]|] eqn:E; try done. intros [= <-]. by apply kept_commit.
  - destruct (flushes w !! t) as [[]|] eqn:E; try done. intros [= <-]. by apply kept_clear.
  - destruct (flushes w !! t) as [[]|]; try done; intros [= <-]; by apply kept_over.
  - destruct (flushes w !! t) as [[]|]; try done; intros [= <-]; by apply kept_over, kept_rows.
Qed.

Lemma kept_run l L w w' : kept L w → timely l w → run l w = Some w' → ∃ L', kept L' w' ∧ ∀ e, e ∈ L ∨ e ∈ l ≫= batched → e ∈ L'.
Proof.
  revert L w. induction l as [|s l IH]; intros L w Hk; cbn.
  - intros _ [= <-]. exists L. split; [done|]. intros e [|He]; [done|by apply elem_of_nil in He].
  - intros [Hs Hl] (w1 & Hd & Hr)%bind_Some. rewrite Hd in Hl.
    destruct (IH _ _ (kept_does _ _ _ _ Hk Hs Hd) Hl Hr) as (L' & Hk' & Hin). exists L'. split; [done|].
    intros e He. apply Hin. rewrite !elem_of_app. rewrite elem_of_app in He. tauto.
Qed.

Lemma kept_new size : kept [] (new_logger size).
Proof. split; cbn; [by intros t s|by intros t t' s s' _|intros e He; by apply elem_of_nil in He]. Qed.

(** C30. In any interleaving of flushes, of events that are logged, of transactions that fail
    and of commits whose answer is lost, an event that was put into the batch is in the batch
    or in the table, if none was put there while a flush had left its loop and not yet
    emptied the batch. *)
Theorem batched_events_are_kept size l w :
  run l (new_logger size) = Some w → timely l (new_logger size) →
  ∀ e, e ∈ l ≫= batched → e ∈ _batch w ∨ e ∈ audit_events w.
Proof.
  intros Hr Ht e He. destruct (kept_run l [] _ _ (kept_new size) Ht Hr) as (L' & Hk & Hin).
  apply (nothing_lost _ _ Hk). apply Hin. by right.
Qed.

(** ** A flush by itself *)

Lemma next_again t s place l w : next t place l (at_stage t s w) = next t place l w.
Proof. unfold next, at_stage, with_flushes. cbn. by rewrite insert_insert_eq. Qed.

Lemma held_alone t s e w : flushes w = ∅ → ¬ held (Some t) e (at_stage t s w).
Proof. intros Hf (t' & s' & Hs & Hne & _). cbn in Hs. rewrite Hf in Hs. by apply lookup_singleton_Some in Hs as [<- _]. Qed.

Lemma inserts_all t rest l w :
  flushes w = ∅ → NoDup (id <$> audit_events w ++ _batch w) → _batch w = l ++ rest →
  run (replicate (length rest) (Insert t)) (next t (length l) l w) = Some (at_stage t (Committing (_batch w)) w).
Proof.
  intros Hf Hd. revert l. induction rest as [|e rest IH]; intros l Hb; cbn [replicate length run].
  - unfold next. rewrite lookup_ge_None_2 by (by rewrite Hb, app_nil_r). by rewrite Hb, app_nil_r.
  - assert (does (Insert t) (next t (length l) l w) = Some (next t (length (l ++ [e])) (l ++ [e]) w)) as ->.
    { unfold next at 1. assert (_batch w !! length l = Some e) as -> by (rewrite Hb; by apply list_lookup_middle). cbn [does]. unfold insert. cbn [flushes at_stage with_flushes].
      rewrite lookup_insert_eq. pose proof (held_alone t (Inserting (length l) e l) e w Hf) as Hh. case_guard; [|done]. cbn.
      rewrite decide_False.
      - f_equal. rewrite length_app, Nat.add_1_r. apply next_again.
      - rewrite fmap_app in Hd. apply NoDup_app in Hd as (_ & Hd & _). intros Hin. apply (Hd _ Hin). rewrite Hb, fmap_app. apply elem_of_app. right. by left. }
    apply IH. by rewrite <- app_assoc.
Qed.

(** A flush that nothing disturbs writes the events of the batch, in their order and in one
    transaction, and empties the batch. *)
Theorem a_flush_writes_the_batch t w :
  flushes w = ∅ → NoDup (id <$> audit_events w ++ _batch w) → _batch w ≠ [] →
  run (Flush t :: Opened t :: replicate (length (_batch w)) (Insert t) ++ [Commit t; Clear t]) w =
    Some {| batch_size := batch_size w; _batch := []; audit_events := audit_events w ++ _batch w; flushes := ∅ |}.
Proof.
  intros Hf Hd Hne. assert (∀ l l' w0 w1, run l w0 = Some w1 → run (l ++ l') w0 = run l' w1) as Happ.
  { clear. induction l as [|s l IH]; cbn; [by intros l' w0 w1 [= ->]|]. intros l' w0 w1 (w2 & Hw & Hr)%bind_Some. rewrite Hw. cbn. by apply IH. }
  assert (flush_batch t w = Some (at_stage t Opening w)) as Hfl.
  { unfold flush_batch. destruct (_batch w); [done|]. case_guard as Hg; [done|by rewrite Hf in Hg]. }
  assert (does (Opened t) (at_stage t Opening w) = Some (next t 0 [] w)) as Ho.
  { cbn. rewrite lookup_insert_eq. by rewrite next_again. }
  cbn [run]. change (does (Flush t) w) with (flush_batch t w). rewrite Hfl. cbn [mbind option_bind]. rewrite Ho. cbn [mbind option_bind].
  rewrite (Happ _ _ _ _ (inserts_all t (_batch w) [] w Hf Hd eq_refl)). cbn. rewrite lookup_insert_eq. cbn.
  rewrite lookup_insert_eq. cbn. unfold over, with_flushes. cbn. rewrite Hf. do 2 f_equal.
  by rewrite insert_insert_eq, delete_insert_eq.
Qed.

(** ** Concrete runs *)

Definition some_event (n : Z) : event := _prepare_event n 0 "login" PNone None None None.

Definition two : logger := new_logger 2.

Lemma batched_events_are_kept_witness :
  let l := [Log 0 (some_event 1) false; Log 0 (some_event 2) false; Opened 0; Insert 0; Log 1 (some_event 3) false; Opened 1;
            Insert 0; Insert 0; Commit 0; Insert 1; Clear 0; Log 1 (some_event 4) false] in
  timely l two ∧
  ∃ w, run l two = Some w ∧ id <$> _batch w = [4%Z] ∧ id <$> audit_events w = [1; 2; 3]%Z ∧ (∀ e, e ∈ l ≫= batched → e ∈ _batch w ∨ e ∈ audit_events w).
Proof.
  intros l. assert (timely l two) as Ht by (apply (bool_decide_unpack _); vm_compute; reflexivity).
  split; [exact Ht|]. destruct (run l two) as [w|] eqn:Hr; [|discriminate Hr]. exists w. split; [reflexivity|].
  split_and!; [injection Hr as <-; reflexivity|injection Hr as <-; reflexivity|]. by apply (batched_events_are_kept 2 l w Hr Ht).
Defined.

Lemma a_flush_writes_the_batch_witness :
  let w := {| batch_size := 5; _batch := [some_event 2; some_event 3]; audit_events := [some_event 1]; flushes := ∅ |} in
  run [Flush 0; Opened 0; Insert 0; Insert 0; Commit 0; Clear 0] w =
    Some {| batch_size := 5; _batch := []; audit_events := [some_event 1; some_event 2; some_event 3]; flushes := ∅ |}.
Proof. intros w. refine (a_flush_writes_the_batch 0 w eq_refl _ _); [|discriminate]. apply (bool_decide_unpack _). vm_compute. reflexivity. Defined.

(** An event that is logged while the transaction ends is in no batch and in no table. *)
Example an_event_is_lost :
  let l := [Log 0 (some_event 1) false; Log 0 (some_event 2) false; Opened 0; Insert 0; Insert 0; Log 1 (some_event 3) true;
            Commit 0; Log 1 (some_event 4) false; Opened 1; Fails 1; Clear 0] in
  (λ w, (id <$> _batch w, id <$> audit_events w)) <$> run l two = Some ([], [3; 1; 2])%Z.
Proof. vm_compute. reflexivity. Qed.

(** While one flush runs, the next event that is logged starts another, which fails on what the
    first has written. *)
Example a_second_flush_is_refused :
  let l := [Log 0 (some_event 1) false; Log 0 (some_event 2) false; Opened 0; Insert 0; Log 1 (some_event 3) false; Opened 1] in
  (run (l ++ [Insert 1]) two = None) ∧
  (λ w, (id <$> _batch w, id <$> audit_events w, Z.of_nat (size (flushes w)))) <$> run (l ++ [Insert 0; Insert 0; Commit 0; Insert 1]) two
    = Some ([1; 2; 3], [1; 2; 3], 1)%Z.
Proof. vm_compute. by split. Qed.

(** After a commit that was not heard of, the batch is never written. *)
Example a_batch_is_stuck :
  let l := [Log 0 (some_event 1) false; Log 0 (some_event 2) false; Opened 0; Insert 0; Insert 0; Unheard 0;
            Log 0 (some_event 3) false; Opened 0; Insert 0] in
  (λ w, (id <$> _batch w, id <$> audit_events w, Z.of_nat (size (flushes w)))) <$> run l two = Some ([1; 2; 3], [1; 2], 0)%Z.
Proof. vm_compute. reflexivity. Qed.
